(* ===== verification/_CoqProject ===== *)
-Q . S2P
Prelude.v
Ext.v
Ids.v
Token.v
Idempotency.v
Resources.v
GuestModel.v
GuestWire.v
History.v
Wire.v
Command.v
Files.v
Output.v
FileWire.v
FileDownloads.v
FileSources.v
Bootstrap.v
Identity.v
Authority.v
Reference.v
AuthorityLaws.v
Lease.v
Fs.v
FsLaws.v
Store.v
LaunchAuthority.v
LaunchLaws.v
LaunchTheorems.v
Guardian.v
GuardianEnv.v
GuardianOps.v
GuardianProcess.v
HostModel.v
HostEnv.v
Journal.v
HostOps.v
HostFiles.v
JournalLaws.v
HostSpec.v
RecordLaws.v
HostLaws.v
HostRefines.v
HostUploads.v
HostBoot.v
HostTheorems.v
HostSample.v
GuestEnv.v
Runner.v
GuestServer.v
RunnerLaws.v
RunnerInv.v
RunnerKeeps.v
RunnerTask.v
RunnerTheorems.v
RunnerLive.v
RunnerSample.v
Transfers.v
FileLaws.v
FileInv.v
FileKeeps.v
FileOpen.v
FileService.v
FileServed.v
FileTheorems.v
FileSample.v
GuardianLaws.v
GuardianInv.v
GuardianKeeps.v
GuardianCleanup.v
GuardianServes.v
GuardianSteps.v
GuardianStart.v
GuardianTheorems.v
GuardianLive.v
GuardianSample.v
HostReads.v
ReadInv.v
ReadKeeps.v
ReadTheorems.v
ReadSample.v
