(* ===== verification/Prelude.v ===== *)
(** * A verified model of the Hudsonbox sandbox service

    Hudsonbox runs untrusted commands in microVMs. A control plane (API, controller, SQL
    store) decides what should run; on each machine a supervisor, the *host*, admits
    allocations, spawns one *guardian* process per allocation, and talks through TLS to the
    *guest agent* inside the VM, which executes one command at a time. What the service
    promises rests on three kinds of durable state: the ledger of launch permits, the host's
    journal, and the guest's receipts. This library models the code that keeps them, on file
    systems that fail and crash, and proves what it promises.

    ** Parts and files

    Paths are relative to src/crates. A definition has the name of the function it models;
    the file names below are those of this directory.

    Foundations
    - [Prelude]: results, the state monad [ST] (state is returned on every way out, as Rust's
      [?] does not undo anything), widths of integers, lists, strings; tactics.
    - [Ext]: the crates uuid, serde_json, sha2, hex and subtle as type classes with their
      documented laws, and [Ref], concrete instances of all of them. [Reference] has codecs
      of the protocol's types.
    - [Fs], [FsLaws]: one directory with inodes, unsynced names and contents, locks, faults
      and crashes, and a program logic over it. [Store]: files that are replaced through a
      staging name.

    Protocol (sandbox-protocol/src)
    - [Ids] (ids.rs), [Token] (token.rs), [Idempotency] (idempotency.rs), [Resources]
      (resources.rs, images.rs, host_capabilities.rs), [GuestModel] (guest_model.rs),
      [GuestWire] (guest_wire.rs), [History] (history.rs), [Command] (command.rs), [Files]
      (files.rs, supervisor_files.rs), [FileWire] (file_wire.rs), [FileDownloads]
      (file_downloads.rs), [FileSources] (file_sources.rs), [Bootstrap] (bootstrap.rs),
      [Output] (output.rs, live_output.rs), [Wire] (the messages of
      proto/supervisor.proto).
    - [Authority], [AuthorityLaws] (allocation_authority.rs, allocation_retirement.rs): the
      ledger of launch permits and its refinement to a one-permit life cycle.

    Supervisor (sandbox-supervisor/src)
    - [LaunchAuthority], [LaunchLaws], [LaunchTheorems] (launch_authority.rs): the ledger in a
      directory, over any calls, faults and crashes.
    - [Lease] (lease.rs): the atomic deadline, its accesses interleaved.
    - [Guardian] (guardian/mod.rs): manifests, receipts and their validation.
    - [GuardianEnv]: the machine of one allocation, that is its directory, control group,
      jailer, guardian process, lock, clocks and launch ledger; [GuardianOps] (guardian/mod.rs):
      staging, channel identity ([Identity], identity.rs), preparing, fencing and reconciling;
      [GuardianProcess] (guardian/process.rs, main.rs): launching, the namespace's init with its
      watchdog, its requests, and the life of the machine as events. [GuardianLaws],
      [GuardianInv]: the invariant; [GuardianKeeps], [GuardianCleanup], [GuardianServes],
      [GuardianSteps], [GuardianStart]: that every call, thread and launch keeps it;
      [GuardianTheorems]: safety over any events; [GuardianLive]: cleanup completes;
      [GuardianSample]: an allocation to which the theorems are applied.
    - [HostModel] (host/*.rs, the functions that look at or rewrite a record), [Journal]
      (host/journal.rs), [HostOps] (host/*.rs, the requests), over [HostEnv], which is the
      two directories and everything the host asks. [HostSpec] is what the host promises, as
      an abstract machine; [JournalLaws], [RecordLaws], [HostLaws], [HostRefines] and
      [HostBoot] show that the code keeps it; [HostTheorems] has
      the theorems; [HostSample] evaluates a host and applies them. [HostFiles] (host/files.rs,
      guest/files.rs) are the requests that drive uploads, [HostUploads] that they keep it too.
    - [HostReads]: reads of the host. Its modules are [Tickets] (file_downloads.rs), the registry
      of capture tickets, and [LiveOutput] (live_output.rs), the checks of a read of a command's
      output; the rest (host/file_downloads.rs, host/live_output.rs, host/readers.rs, the client
      in guest.rs and guest/files.rs) are reads as events, each cut at its wait for the guest.
      [ReadInv], [ReadKeeps]: the invariant and that every part of a read keeps it;
      [ReadTheorems] (with [Live], from the agent's output to the reader): the theorems;
      [ReadSample]: a host and an agent to which they are applied.

    Guest agent (sandbox-guest/src)
    - [GuestEnv]: the state directory, control groups, clock and launcher; [Runner]
      (runner.rs): the command runner, its task cut into the steps between which requests
      may come; [GuestServer] (server.rs): dispatch, and the life of an agent as events.
    - [RunnerLaws], [RunnerInv], [RunnerKeeps], [RunnerTask]: the invariant and that every
      request and every step keeps it; [RunnerTheorems]: safety over any events; [RunnerLive]:
      commands end; [RunnerSample]: an agent to which the theorems are applied.
    - [Transfers] (files/mod.rs, files/fs.rs): the file engine over its state directory, and
      [FileService] (file_service.rs): the service over it and its life as events. [FileLaws]:
      which files a call may change; [FileInv], [FileKeeps], [FileOpen], [FileServed]: the
      invariant, that every operation, opening and request keeps it; [FileTheorems]
      (with [Chunks], of file contents): the theorems; [FileSample]: a service to which they are applied.

    How they interact: [HostOps.create_sync] spawns a guardian only with a permit that
    [LaunchAuthority.authorize] grants under its lock; [HostOps.execute_command_sync] retains
    a [Command.CommandRecord] before it sends the command, and folds into it the receipt with
    which the guest answers; [RunnerTheorems.execute_answer_matches_intent] shows that the
    guest's own answer passes the host's check. [GuardianOps.authorize_launch] asks the same
    ledger before every preparation, launch, renewal and binding, and
    [GuardianTheorems.fenced_permit_never_launches] composes its fence with all of them.
    [HostOps.cleanup] releases an allocation only on a receipt that [HostOps.fence_unstarted]
    gives; [GuardianTheorems.fence_answers_cleaned_up] shows that the guardian's own fence gives
    no other than a stopped one with confirmed cleanup, which is the contract on which
    [HostOps.observe_record] relies where it does not look at the receipt.
    Likewise for files:
    [HostFiles.admit_file] retains a [Files.FileRecord] before the guest hears of the upload,
    [FileTheorems.begin_answer_matches_upload] gives what [Files.observe] compares, and
    [FileTheorems.guest_chunks_pass_the_reader] that [FileDownloads.chunk] accepts what
    [FileService.dispatch] answers. Between the two, [ReadTheorems.read_answers_pass] shows that
    what the host answers a reader passes that check, and [ReadTheorems.Live.live_output_accepted]
    that the host accepts every chunk [Runner.output] gives. A retirement that deletes what the
    host knows of an allocation first closes its readers ([HostReads.EClose]) and asks for
    pending captures ([HostReads.EPending]).

    ** What the theorems show

    - Durability: [update_atomic_and_durable] and [journal_save_atomic_and_durable] (a save
      leaves the old or the new state after any fault and crash, and the new one once
      acknowledged), [storage_round_trip].
    - Effects once and on record: [host_refines_specification], [spawned_at_most_once],
      [executed_at_most_once], [uploads_driven_in_order], [upload_answer_is_final],
      [intent_outlives_crashes] for the host;
      [command_launched_at_most_once], [launch_always_on_record] for the guest;
      [upload_published_at_most_once], [restart_knows_uploads] for its files.
    - Receipts are true: [upload_receipts_tell_the_truth], [receipts_always_valid].
    - Virtual machines: [vm_launched_at_most_once], [stopped_is_final] and
      [fenced_lease_is_final] (until a crash loses the allocation's directory),
      [answers_survive] (what a guardian answered is on disk for good), [vm_is_pinned] (every
      process is in a control group that the receipt names, so cleanup kills what it owns),
      [fence_answers_cleaned_up],
      [lease_and_connections_bounded].
    - Readers: [chunks_are_of_own_captures], [closed_readers_stay_out], [read_answers_pass],
      [live_output_accepted], [reads_bounded].
    - Fencing is final: [fence_survives], [fenced_permit_never_launches], [denial_is_permanent], [activation_is_irrevocable],
      [stop_is_permanent], [restart_stops_everything], [fence_is_irrevocable].
    - Cleanup is confirmed before it is claimed: [release_is_confirmed],
      [confirmed_cleanup_left_nothing], [restart_recovers].
    - Bounds: [admission_respects_capacity], [retention_bounded], [retained_files_as_asked],
      [file_service_bounded], [supports_bounds].
    - Retirement: [complete_retires_exactly], [reclaim_retires_exactly],
      [evidence_is_permanent].
    - Commands end: [every_command_ends]; so does cleanup: [reconcile_completes].
    - Data: the round trips and exact validations of tokens, receipts, digests, descriptors,
      boot devices; [write_chunk_only_appends] and [download_reassembles] for file contents.

    Each theorem with hypotheses has a witness, [<theorem>_witness], that applies it to a
    concrete history.

    ** Choices

    - Code that is not in the repository (crates, the kernel, guardians, guests, launchers) is
      a type class ([UuidLib], [Serde], [Env], [GuestEnv], ...). What it answers may depend on
      everything asked before, which is logged in the state; nothing is assumed of an answer
      except the classes' laws.
    - Faults: any system call may fail. On the host a failure may be a kill or a crash, which
      loses unsynced names from any point on and makes unsynced contents arbitrary. In the
      guest a failure may be a kill of the agent; the guest's memory and disk die together,
      and the agent refuses another boot, so a restart finds the files as they were.
    - Loops that wait have fuel: [HostOps] waits for a guardian for READY_ROUNDS = 160 rounds
      (its deadline at the poll interval), [GuestEnv.await_empty] for CLEANUP_ROUNDS = 151
      rounds (three seconds at 20 ms), [GuardianEnv.await_empty] for 251 (five seconds at 20 ms)
      and [GuardianProcess.await_vm] for LAUNCH_ROUNDS = 1001 (five seconds at 5 ms). All only
      end earlier in the code, never later: what happens then is the time-out's error, which is
      also what no fuel gives. All other
      recursion is structural.
    - Operations of the host are one at a time: they run under the gate of their allocation
      and touch the journal under its mutex. Reads do not change the journal: while they wait
      for the guest any journal, files and questions of other operations may come
      ([HostReads.EOther]), and a read that ran out of time is gone ([HostReads.ETimeout]). The
      registry's [Instant]s are milliseconds of a clock that [HostReads.ETick] advances. The guest's task is interleaved with requests
      at its lock and system-call boundaries. [Lease] interleaves single atomic accesses.
    - The guardian's machine: between any two calls of a process the jailer may join its group,
      processes of the group may end and the watchdog may find the lease expired; whole rounds
      of threads, requests and other processes interleave as events, and a binding releases the
      mutex while it waits for the guest, as in the code. A guardian that ends frees its lock and
      takes its jailer with it: it is init of a PID namespace. A process that is killed in
      the middle of a call leaves what it wrote. A crash brings back any directory since the
      last sync, with any contents of unsynced files and anything below run, or loses the
      directory, whose name nothing syncs; the boot identifier is then another one.
    - The file service shares nothing with the command runner but the allocation's context: it
      has its own state directory, and so its own [Guest]. The workspace is the workload's:
      what opening or reading it gives is an answer from outside, and a rename into it is
      logged with the content it published. Its one worker runs an action as a whole; the
      caller's deadline only decides whether the answer arrives.
    - [agent_ok Hon]: theorems that need launchers to report exit statuses as processes have
      them take [Hon := True]; all others hold whatever a report says.

    ** Not modelled, and why

    - Host: archives, the sessions of metadata retirement and forgetting of
      destroyed allocations, capability preflight (planned); the tonic services and the
      TLS set-up (I/O without decisions).
    - Guardian: the sessions of guardian/retirement.rs that forget a stopped allocation; what
      mounts and namespaces do beyond the above. Guest: the launcher's namespaces, mounts, TLS and vsock; [GuestServer.dispatch] is that of an agent without a
      file service, which [FileService.call] serves on its own. A workload that is root in
      its guest may change the agent's files other than its own report; the code declares
      that outside of its boundary, and so does the model.
    - A capture that its task aborted may still write what it had read; the model ends
      captures with their task.
    - The control-plane store is SQL text executed by PostgreSQL; API, controller, client,
      artifacts, cleanup and SDKs are I/O over it. The fake host is a test double.

    ** Plan

    What would come next: archives of output; the retirement of an allocation's metadata; the
    decisions of the controller and of the API that are not SQL. *)

From stdpp Require Export base tactics option list strings numbers gmap.
From Stdlib Require Export ZArith Lia.
From Stdlib Require Ascii.
Export Ascii.AsciiSyntax.
#[global] Delimit Scope char_scope with char.

#[global] Set Default Goal Selector "!".
#[global] Open Scope Z_scope.

(** ** Results

    Rust's [Result<A, E>]; [anyhow::Error] is its message. *)

Inductive result (E A : Type) : Type :=
| Ok (a : A)
| Err (e : E).
Arguments Ok {E A} a.
Arguments Err {E A} e.

Definition anyhow : Type := string.

#[export] Instance result_ret {E} : MRet (result E) := fun A a => Ok a.
#[export] Instance result_bind {E} : MBind (result E) := fun A B k m =>
  match m with Ok a => k a | Err e => Err e end.
#[export] Instance result_fmap {E} : FMap (result E) := fun A B f m =>
  match m with Ok a => Ok (f a) | Err e => Err e end.
#[export] Instance result_eq_dec `{EqDecision E, EqDecision A} : EqDecision (result E A).
Proof. solve_decision. Defined.

(** [ensure!(condition, message)] *)
Definition ensure {E} (c : bool) (e : E) : result E unit :=
  if c then Ok tt else Err e.

#[global] Arguments ensure {E} !c e : simpl nomatch.

(** [option.ok_or(e)] *)
Definition ok_or {E A} (o : option A) (e : E) : result E A :=
  match o with Some a => Ok a | None => Err e end.

(** [result.map_err(f)] *)
Definition map_err {E F A} (f : E -> F) (r : result E A) : result F A :=
  match r with Ok a => Ok a | Err e => Err (f e) end.

(** [result.is_ok()] *)
Definition is_ok {E A} (r : result E A) : bool :=
  match r with Ok _ => true | Err _ => false end.

(** [for x in l { f(x)? }] *)
Fixpoint for_each {E A} (f : A -> result E unit) (l : list A) : result E unit :=
  match l with
  | [] => Ok tt
  | x :: l' => _ ← f x; for_each f l'
  end.

(** [option.is_none_or(p)] and [option.is_some_and(p)] *)
Definition is_none_or {A} (p : A -> bool) (o : option A) : bool :=
  match o with Some a => p a | None => true end.
Definition is_some_and {A} (p : A -> bool) (o : option A) : bool :=
  match o with Some a => p a | None => false end.
Definition is_some {A} (o : option A) : bool :=
  match o with Some _ => true | None => false end.
Definition is_none {A} (o : option A) : bool := negb (is_some o).

(** ** Mutating methods

    A method taking [&mut self] and returning a [Result] may have changed the
    receiver when it fails, so it returns the receiver in both cases. *)

Definition ST (S E A : Type) : Type := S -> S * result E A.

#[export] Instance ST_ret {S E} : MRet (ST S E) := fun A a s => (s, Ok a).
#[export] Instance ST_bind {S E} : MBind (ST S E) := fun A B k m s =>
  match m s with
  | (s', Ok a) => k a s'
  | (s', Err e) => (s', Err e)
  end.

Section st.
Context {S E : Type}.
Definition get : ST S E S := fun s => (s, Ok s).
Definition put (s : S) : ST S E unit := fun _ => (s, Ok tt).
Definition fail {A} (e : E) : ST S E A := fun s => (s, Err e).
(** [r?] inside a method of the same error type. *)
Definition lift {A} (r : result E A) : ST S E A := fun s => (s, r).
Definition modify (f : S -> S) : ST S E unit := fun s => (f s, Ok tt).
End st.

(** ** Machine integers *)

Definition U32_MAX : Z := 2 ^ 32 - 1.
Definition U64_MAX : Z := 2 ^ 64 - 1.
Definition I64_MAX : Z := 2 ^ 63 - 1.
Definition I64_MIN : Z := - 2 ^ 63.

Definition in_u64 (z : Z) : bool := (0 <=? z) && (z <=? U64_MAX).
Definition in_i64 (z : Z) : bool := (I64_MIN <=? z) && (z <=? I64_MAX).
Definition in_u32 (z : Z) : bool := (0 <=? z) && (z <=? U32_MAX).

Definition clamp (lo hi z : Z) : Z := Z.max lo (Z.min hi z).

Definition u64_checked_add (a b : Z) : option Z :=
  if in_u64 (a + b) then Some (a + b) else None.
Definition u64_saturating_add (a b : Z) : Z := clamp 0 U64_MAX (a + b).
Definition u64_saturating_sub (a b : Z) : Z := clamp 0 U64_MAX (a - b).
Definition i64_checked_sub (a b : Z) : option Z :=
  if in_i64 (a - b) then Some (a - b) else None.
Definition i64_saturating_sub (a b : Z) : Z := clamp I64_MIN I64_MAX (a - b).
Definition i64_saturating_add (a b : Z) : Z := clamp I64_MIN I64_MAX (a + b).
(** [a.abs_diff(b)] *)
Definition i64_abs_diff (a b : Z) : Z := Z.abs (a - b).

(** [(lo..=hi).contains(&z)] *)
Definition contains (lo hi z : Z) : bool := (lo <=? z) && (z <=? hi).

(** ** Lengths and strings

    A [String] or a [Vec<u8>] is the [string] of its bytes; [len] counts them. *)

Abbreviation bytes := string (only parsing).

#[global] Arguments String.append !s1 s2 : simpl nomatch.

Definition strlen (s : string) : Z := Z.of_nat (String.length s).
Definition listlen {A} (l : list A) : Z := Z.of_nat (length l).

(** [iter().map(f).sum()] *)
Definition sum_by {A} (f : A -> Z) (l : list A) : Z := foldr (fun x acc => f x + acc) 0 l.

Fixpoint string_forallb (p : Ascii.ascii -> bool) (s : string) : bool :=
  match s with
  | EmptyString => true
  | String c s' => p c && string_forallb p s'
  end.
Definition string_existsb (p : Ascii.ascii -> bool) (s : string) : bool :=
  negb (string_forallb (fun c => negb (p c)) s).

Definition byte_val (c : Ascii.ascii) : N := Ascii.N_of_ascii c.
Definition byte_in (lo hi : N) (c : Ascii.ascii) : bool :=
  (lo <=? byte_val c)%N && (byte_val c <=? hi)%N.
Definition is_ascii_digit (c : Ascii.ascii) : bool := byte_in 48 57 c.
Definition is_ascii_alphabetic (c : Ascii.ascii) : bool := byte_in 65 90 c || byte_in 97 122 c.
Definition is_ascii_alphanumeric (c : Ascii.ascii) : bool :=
  is_ascii_digit c || is_ascii_alphabetic c.
Definition is_lower_hex (c : Ascii.ascii) : bool := is_ascii_digit c || byte_in 97 102 c.
Definition is_byte (n : N) (c : Ascii.ascii) : bool := (byte_val c =? n)%N.
(** [s.rsplit_once(b)] for one byte. *)
Fixpoint rsplit_once (b : N) (s : string) : option (string * string) :=
  match s with
  | EmptyString => None
  | String c s' =>
      match rsplit_once b s' with
      | Some (x, y) => Some (String c x, y)
      | None => if is_byte b c then Some ("", s') else None
      end
  end.
(** [value.contains('\0')] *)
Definition contains_nul (s : string) : bool := string_existsb (is_byte 0) s.

(** [value.chars().any(char::is_control)] on the UTF-8 bytes of a string: the C0
    controls, DEL, and the C1 controls, which are encoded as [C2 80] to [C2 9F]. *)
Fixpoint any_control (s : string) : bool :=
  match s with
  | EmptyString => false
  | String c s' =>
      byte_in 0 31 c || is_byte 127 c
      || match s' with
         | String d _ => is_byte 194 c && byte_in 128 159 d
         | EmptyString => false
         end
      || any_control s'
  end.

(** [n.to_be_bytes()] at [k] bytes, and its inverse. *)
Fixpoint to_be_bytes (k : nat) (n : N) : bytes :=
  match k with
  | O => EmptyString
  | S k => String (Ascii.ascii_of_N ((n / 256 ^ N.of_nat k) mod 256)) (to_be_bytes k n)
  end.
Fixpoint from_be_bytes (acc : N) (b : bytes) : N :=
  match b with
  | EmptyString => acc
  | String c b => from_be_bytes (acc * 256 + byte_val c)%N b
  end.

(** [read_exact] of [n] bytes from a reader: the bytes and what is left. *)
Fixpoint take_bytes (n : nat) (s : bytes) : option (bytes * bytes) :=
  match n, s with
  | O, _ => Some (EmptyString, s)
  | S n, String c s' =>
      match take_bytes n s' with Some (t, r) => Some (String c t, r) | None => None end
  | S _, EmptyString => None
  end.

(** [value.split(sep)]: always at least one piece. *)
Fixpoint split (sep : Ascii.ascii) (s : string) : list string :=
  match s with
  | EmptyString => [EmptyString]
  | String c s' =>
      if Ascii.eqb c sep then EmptyString :: split sep s'
      else match split sep s' with
           | p :: ps => String c p :: ps
           | [] => [String c EmptyString]
           end
  end.

(** [value.split_once(sep)] *)
Fixpoint split_once (sep : Ascii.ascii) (s : string) : option (string * string) :=
  match s with
  | EmptyString => None
  | String c s' =>
      if Ascii.eqb c sep then Some (EmptyString, s')
      else match split_once sep s' with
           | Some (a, b) => Some (String c a, b)
           | None => None
           end
  end.

#[global] Arguments split sep%_char s%_string.
#[global] Arguments split_once sep%_char s%_string.

(** [char::is_whitespace], of the ASCII characters. *)
Definition is_whitespace (c : Ascii.ascii) : bool := byte_in 9 13 c || is_byte 32 c.

(** [value.split_whitespace()] *)
Fixpoint words_of (word s : string) : list string :=
  match s with
  | EmptyString => if bool_decide (word = "") then [] else [word]
  | String c s' =>
      if is_whitespace c then (if bool_decide (word = "") then [] else [word]) ++ words_of "" s'
      else words_of (word +:+ String c "") s'
  end.
Definition split_whitespace (s : string) : list string := words_of "" s.

(** [value.trim()] *)
Fixpoint trim_start (s : string) : string :=
  match s with String c s' => if is_whitespace c then trim_start s' else s | EmptyString => "" end.
Fixpoint trim_end (s : string) : string :=
  match s with
  | EmptyString => ""
  | String c s' =>
      let t := trim_end s' in
      if bool_decide (t = "") && is_whitespace c then "" else String c t
  end.
Definition trim (s : string) : string := trim_end (trim_start s).

(** [value.parse::<T>()] of an unsigned type whose greatest value is [max]. *)
Fixpoint parse_digits (acc : Z) (s : string) : option Z :=
  match s with
  | EmptyString => Some acc
  | String c s' =>
      if is_ascii_digit c then parse_digits (acc * 10 + (Z.of_N (byte_val c) - 48)) s' else None
  end.
Definition parse_unsigned (max : Z) (s : string) : option Z :=
  let digits := match s with String c s' => if is_byte 43 c then s' else s | EmptyString => s end in
  if bool_decide (digits = "") then None else
  n ← parse_digits 0 digits; if n <=? max then Some n else None.

(** ** Lemmas and automation *)

Section result_lemmas.
Context {E : Type}.

Lemma bind_ok {A B} (m : result E A) (k : A -> result E B) b :
  m ≫= k = Ok b <-> exists a, m = Ok a /\ k a = Ok b.
Proof. destruct m as [a|e]; cbn; naive_solver. Qed.

Lemma ensure_ok c (e : E) u : ensure c e = Ok u <-> c = true.
Proof. destruct c, u; cbn; naive_solver. Qed.

Lemma ensure_err c (e e' : E) : ensure c e = Err e' <-> c = false /\ e = e'.
Proof. destruct c; cbn; naive_solver. Qed.

Lemma ok_or_ok {A} (o : option A) (e : E) a : ok_or o e = Ok a <-> o = Some a.
Proof. destruct o; cbn; naive_solver. Qed.

Lemma map_err_ok {F A} (f : E -> F) (r : result E A) a : map_err f r = Ok a <-> r = Ok a.
Proof. destruct r; cbn; naive_solver. Qed.

Lemma is_ok_true {A} (r : result E A) : is_ok r = true <-> exists a, r = Ok a.
Proof. destruct r; cbn; naive_solver. Qed.

Lemma for_each_ok {A} (f : A -> result E unit) l :
  for_each f l = Ok tt <-> Forall (fun x => f x = Ok tt) l.
Proof.
  induction l as [|x l IH]; cbn; [naive_solver|].
  rewrite Forall_cons, <- IH. destruct (f x) as [[]|e]; cbn; naive_solver.
Qed.
End result_lemmas.

Lemma if_err_ok {E A} (c : bool) (e : E) (r : result E A) a :
  (if c then Err e else r) = Ok a <-> c = false /\ r = Ok a.
Proof. destruct c; naive_solver. Qed.

Create HintDb hudson.

(** Boolean guards of the code as propositions. *)
Ltac bools :=
  repeat match goal with
  | H : _ && _ = true |- _ => apply andb_true_iff in H as [? ?]
  | H : _ || _ = false |- _ => apply orb_false_iff in H as [? ?]
  | H : negb _ = true |- _ => apply negb_true_iff in H
  | H : negb _ = false |- _ => apply negb_false_iff in H
  | H : (_ <=? _) = true |- _ => apply Z.leb_le in H
  | H : (_ <=? _) = false |- _ => apply Z.leb_gt in H
  | H : (_ <? _) = true |- _ => apply Z.ltb_lt in H
  | H : (_ <? _) = false |- _ => apply Z.ltb_ge in H
  | H : (_ =? _) = true |- _ => apply Z.eqb_eq in H
  | H : (_ =? _) = false |- _ => apply Z.eqb_neq in H
  | H : (_ =? _)%N = true |- _ => apply N.eqb_eq in H
  | H : (_ =? _)%N = false |- _ => apply N.eqb_neq in H
  | H : bool_decide _ = true |- _ => apply bool_decide_eq_true in H
  | H : bool_decide _ = false |- _ => apply bool_decide_eq_false in H
  end.

(** Follow a successful computation: every step succeeded, every guard held. *)
Ltac inv_ok :=
  repeat match goal with
  | H : mbind _ _ = Ok _ |- _ => apply bind_ok in H as (? & ? & H)
  | H : ensure _ _ = Ok _ |- _ => apply ensure_ok in H
  | H : ok_or _ _ = Ok _ |- _ => apply ok_or_ok in H
  | H : map_err _ _ = Ok _ |- _ => apply map_err_ok in H
  | H : (if _ then Err _ else _) = Ok _ |- _ => apply if_err_ok in H as [? H]
  | H : Ok _ = Ok _ |- _ => injection H as H; subst
  | H : Err _ = Ok _ |- _ => discriminate H
  | H : Ok _ = Err _ |- _ => discriminate H
  | H : mret _ = Ok _ |- _ => unfold mret, result_ret in H
  | u : unit |- _ => destruct u
  end.

Section st_lemmas.
Context {S E : Type}.

Lemma st_bind_ok {A B} (m : ST S E A) (k : A -> ST S E B) s s' b :
  (m ≫= k) s = (s', Ok b) <-> exists s1 a, m s = (s1, Ok a) /\ k a s1 = (s', Ok b).
Proof. unfold mbind, ST_bind. destruct (m s) as [s1 [a|e]]; naive_solver. Qed.
Lemma st_ret_ok {A} (a b : A) (s s' : S) : (mret a : ST S E A) s = (s', Ok b) <-> s' = s /\ b = a.
Proof. unfold mret, ST_ret. naive_solver. Qed.
Lemma st_lift_ok {A} (r : result E A) (s s' : S) b : lift r s = (s', Ok b) <-> s' = s /\ r = Ok b.
Proof. unfold lift. naive_solver. Qed.
Lemma st_get_ok (s s' t : S) : (get : ST S E S) s = (s', Ok t) <-> s' = s /\ t = s.
Proof. unfold get. naive_solver. Qed.
Lemma st_put_ok (s s' t : S) u : (put t : ST S E unit) s = (s', Ok u) <-> s' = t.
Proof. unfold put. destruct u. naive_solver. Qed.
Lemma st_fail_ok {A} (e : E) (s s' : S) (a : A) : ~ fail e s = (s', Ok a).
Proof. by unfold fail. Qed.
End st_lemmas.

(** Follow a successful stateful computation. *)
Ltac inv_st :=
  repeat match goal with
  | H : mbind _ _ _ = (_, Ok _) |- _ => apply st_bind_ok in H as (? & ? & ? & H)
  | H : mret _ _ = (_, Ok _) |- _ => apply st_ret_ok in H as [-> ->]
  | H : lift _ _ = (_, Ok _) |- _ => apply st_lift_ok in H as [-> H]
  | H : get _ = (_, Ok _) |- _ => apply st_get_ok in H as [-> ->]
  | H : put _ _ = (_, Ok _) |- _ => apply st_put_ok in H as ->
  | H : fail _ _ = (_, Ok _) |- _ => by apply st_fail_ok in H
  | H : ensure _ _ = Ok _ |- _ => apply ensure_ok in H
  | H : ok_or _ _ = Ok _ |- _ => apply ok_or_ok in H
  | u : unit |- _ => destruct u
  end.

(** Split on the next guard of a computation in the goal. *)
Ltac next_ensure H :=
  match goal with
  | |- context [ensure ?c ?e] =>
      destruct (ensure c e) as [[]|] eqn:H; [apply ensure_ok in H|apply ensure_err in H as [H <-]]
  end.

Lemma contains_spec lo hi z : contains lo hi z = true <-> lo <= z <= hi.
Proof. unfold contains. rewrite andb_true_iff, !Z.leb_le. lia. Qed.

Lemma in_u64_spec z : in_u64 z = true <-> 0 <= z <= U64_MAX.
Proof. apply contains_spec. Qed.

Lemma in_i64_spec z : in_i64 z = true <-> I64_MIN <= z <= I64_MAX.
Proof. apply contains_spec. Qed.

Lemma u64_checked_add_some a b c :
  u64_checked_add a b = Some c <-> c = a + b /\ 0 <= a + b <= U64_MAX.
Proof.
  unfold u64_checked_add. destruct (in_u64 (a + b)) eqn:H.
  - apply in_u64_spec in H. naive_solver.
  - split; [done|]. intros [_ H']. apply in_u64_spec in H'. congruence.
Qed.

Lemma i64_checked_sub_some a b c :
  i64_checked_sub a b = Some c <-> c = a - b /\ I64_MIN <= a - b <= I64_MAX.
Proof.
  unfold i64_checked_sub. destruct (in_i64 (a - b)) eqn:H.
  - apply in_i64_spec in H. naive_solver.
  - split; [done|]. intros [_ H']. apply in_i64_spec in H'. congruence.
Qed.

Lemma string_forallb_app p s t :
  string_forallb p (s +:+ t) = string_forallb p s && string_forallb p t.
Proof.
  induction s as [|c s IH]; [done|].
  change (p c && string_forallb p (s +:+ t) = p c && string_forallb p s && string_forallb p t).
  by rewrite IH, andb_assoc.
Qed.

Lemma string_forallb_impl (p q : Ascii.ascii -> bool) s :
  (forall c, p c = true -> q c = true) -> string_forallb p s = true -> string_forallb q s = true.
Proof.
  intros Hpq. induction s as [|c s IH]; [done|]. cbn. rewrite !andb_true_iff. naive_solver.
Qed.

Lemma strlen_app s t : strlen (s +:+ t) = strlen s + strlen t.
Proof.
  unfold strlen. induction s as [|c s IH]; [done|].
  change (Z.of_nat (S (String.length (s +:+ t)))
          = Z.of_nat (S (String.length s)) + Z.of_nat (String.length t)). lia.
Qed.

Lemma strlen_nonneg s : 0 <= strlen s.
Proof. unfold strlen. lia. Qed.

Lemma string_app_cons c s t : String c s +:+ t = String c (s +:+ t).
Proof. done. Qed.

Lemma string_app_assoc (s t u : string) : (s +:+ t) +:+ u = s +:+ (t +:+ u).
Proof. induction s as [|c s IH]; [done|]. by rewrite !string_app_cons, IH. Qed.

Lemma string_app_nil_r (s : string) : s +:+ "" = s.
Proof. induction s as [|c s IH]; [done|]. by rewrite string_app_cons, IH. Qed.

Lemma is_none_true {A} (o : option A) : is_none o = true -> o = None.
Proof. by destruct o. Qed.
Lemma sum_by_perm {A} (f : A -> Z) l l' : l ≡ₚ l' -> sum_by f l = sum_by f l'.
Proof. unfold sum_by. induction 1; cbn; lia. Qed.
Lemma sum_by_nonneg {A} (f : A -> Z) l : Forall (fun x => 0 <= f x) l -> 0 <= sum_by f l.
Proof. unfold sum_by. induction 1; cbn; lia. Qed.
Lemma sum_by_app {A} (f : A -> Z) l l' : sum_by f (l ++ l') = sum_by f l + sum_by f l'.
Proof. unfold sum_by. induction l; cbn; lia. Qed.

(** Sums over the entries of a finite map. *)
Section sum_map.
Context `{Countable K} {V : Type} (f : K * V -> Z).
Lemma sum_map_insert (m : gmap K V) k v :
  m !! k = None -> sum_by f (map_to_list (<[k := v]> m)) = f (k, v) + sum_by f (map_to_list m).
Proof. intros Hm. by rewrite (sum_by_perm _ _ _ (map_to_list_insert _ _ _ Hm)). Qed.
Lemma sum_map_filter (P : K * V -> Prop) `{forall x, Decision (P x)} (m : gmap K V) :
  (forall k v, m !! k = Some v -> 0 <= f (k, v)) ->
  sum_by f (map_to_list (base.filter P m)) <= sum_by f (map_to_list m).
Proof.
  intros Hpos. destruct (submseteq_Permutation _ _ (map_to_list_submseteq _ _ (map_filter_subseteq P m))) as [l Hl].
  rewrite (sum_by_perm _ _ _ Hl), sum_by_app.
  enough (0 <= sum_by f l) by lia.
  apply sum_by_nonneg, Forall_forall. intros [k v] He. apply (Hpos k), elem_of_map_to_list.
  rewrite Hl. by apply elem_of_app; right.
Qed.
Lemma sum_map_update (m : gmap K V) k v0 v :
  m !! k = Some v0 ->
  sum_by f (map_to_list (<[k := v]> m)) = sum_by f (map_to_list m) - f (k, v0) + f (k, v).
Proof.
  intros Hm. rewrite <- (insert_id m k v0) at 2 by done. rewrite <- !(insert_delete_eq m k).
  rewrite !(sum_map_insert _ k) by apply lookup_delete_eq. lia.
Qed.
Lemma sum_map_lookup (m : gmap K V) k v :
  (forall k v, m !! k = Some v -> 0 <= f (k, v)) -> m !! k = Some v ->
  0 <= f (k, v) <= sum_by f (map_to_list m).
Proof.
  intros Hpos Hk. pose proof (Hpos _ _ Hk). rewrite <- (insert_delete_id m k v) by done.
  rewrite sum_map_insert by apply lookup_delete_eq.
  enough (0 <= sum_by f (map_to_list (delete k m))) by lia.
  apply sum_by_nonneg, Forall_forall. intros [k' v'] He%elem_of_map_to_list.
  apply lookup_delete_Some in He as [_ He]. by apply Hpos.
Qed.
End sum_map.

Lemma to_be_bytes_len k n : String.length (to_be_bytes k n) = k.
Proof. induction k as [|k IH]; cbn [to_be_bytes String.length]; lia. Qed.

Lemma from_to_be_bytes k n acc :
  from_be_bytes acc (to_be_bytes k n) = (acc * 256 ^ N.of_nat k + n mod 256 ^ N.of_nat k)%N.
Proof.
  revert acc. induction k as [|k IH]; intros acc; cbn [to_be_bytes from_be_bytes].
  - cbn. rewrite N.mod_1_r. lia.
  - unfold byte_val. rewrite Ascii.N_ascii_embedding by (apply N.mod_lt; lia).
    rewrite IH, Nat2N.inj_succ, N.pow_succ_r'.
    set (m := (256 ^ N.of_nat k)%N). assert (m <> 0)%N by (apply N.pow_nonzero; lia).
    rewrite (N.mul_comm 256 m), N.Div0.mod_mul_r. lia.
Qed.

Lemma take_bytes_app s r : take_bytes (String.length s) (s +:+ r) = Some (s, r).
Proof. induction s as [|c s IH]; cbn; [by destruct r|]. by rewrite IH. Qed.

Lemma take_bytes_some n s t r :
  take_bytes n s = Some (t, r) -> s = t +:+ r /\ String.length t = n.
Proof.
  revert s t. induction n as [|n IH]; intros s t; cbn.
  - destruct s; by intros [= <- <-].
  - destruct s as [|c s]; [done|]. destruct (take_bytes n s) as [[t' r']|] eqn:Hs; [|done].
    intros [= <- <-]. destruct (IH _ _ Hs) as [-> <-]. done.
Qed.

Lemma string_app_inj_len (a b c d : string) :
  String.length a = String.length c -> a +:+ b = c +:+ d -> a = c /\ b = d.
Proof.
  revert c. induction a as [|x a IH]; intros [|y c]; cbn; try done.
  intros [= Hl] [= -> Heq]. destruct (IH _ Hl Heq) as [-> ->]. done.
Qed.

Lemma length_pos_string_app (a b : string) :
  String.length (a +:+ b) = (String.length a + String.length b)%nat.
Proof. induction a as [|c a IH]; cbn; [done|]. by rewrite IH. Qed.

Definition no_char (sep : Ascii.ascii) (s : string) : bool :=
  string_forallb (fun c => negb (Ascii.eqb c sep)) s.
#[global] Arguments no_char sep%_char s%_string.

Lemma split_once_app sep a b : no_char sep a = true -> split_once sep (a +:+ String sep b) = Some (a, b).
Proof.
  unfold no_char. induction a as [|c a IH]; intros H.
  - cbn. by rewrite Ascii.eqb_refl.
  - rewrite string_app_cons. cbn in H |- *. bools. destruct (Ascii.eqb_spec c sep) as [->|]; [done|]. by rewrite IH.
Qed.

Lemma split_once_some sep s a b :
  split_once sep s = Some (a, b) -> s = a +:+ String sep b /\ no_char sep a = true.
Proof.
  revert a. induction s as [|c s IH]; intros a H; [done|]. cbn in H.
  destruct (Ascii.eqb_spec c sep) as [->|Hc]; [by simplify_eq|].
  destruct (split_once sep s) as [[a' b']|] eqn:Hs; [|done]. simplify_eq.
  destruct (IH _ eq_refl) as [-> H']. split; [done|].
  unfold no_char in *. cbn. by rewrite (proj2 (Ascii.eqb_neq c sep) Hc).
Qed.

Lemma split_no_char sep s : no_char sep s = true -> split sep s = [s].
Proof.
  unfold no_char. induction s as [|c s IH]; intros H; [done|]. cbn in *. bools.
  destruct (Ascii.eqb_spec c sep) as [->|]; [done|]. by rewrite IH.
Qed.

Lemma split_app sep a b :
  no_char sep a = true -> split sep (a +:+ String sep b) = a :: split sep b.
Proof.
  unfold no_char. induction a as [|c a IH]; intros H.
  - cbn. by rewrite Ascii.eqb_refl.
  - rewrite string_app_cons. cbn in H |- *. bools. destruct (Ascii.eqb_spec c sep) as [->|]; [done|]. by rewrite IH.
Qed.

Create Rewrite HintDb hudson.
#[export] Hint Rewrite @contains_spec in_u64_spec in_i64_spec : hudson.
#[export] Hint Resolve strlen_nonneg : hudson.
