(* ===== verification/Ext.v ===== *)
(** * Code the repository calls but does not contain

    The crates [uuid], [serde_json], [sha2] and [hex] are parameters of the model:
    type classes whose laws are their documented behaviour. [Module Ref] gives each
    class a concrete instance that satisfies the laws, so that every theorem stated
    against them can be evaluated at a concrete input. *)

From S2P Require Import Prelude.

(** ** [uuid] *)

(** A UUID is its 128-bit value ([Uuid::as_u128]); the derived order is the numeric one. *)
Abbreviation Uuid := N (only parsing).

Definition U128 : N := (2 ^ 128)%N.

Class UuidLib := {
  try_parse : string -> option Uuid;
  hyphenated : Uuid -> string;
  get_version_num : Uuid -> N;
  (** [get_variant() == Variant::RFC4122] *)
  is_rfc4122 : Uuid -> bool;
}.

(** The version is the high nibble of octet 6, the RFC 4122 variant the bits [10] at the
    top of octet 8; [try_parse] reads back what [hyphenated] writes: lower-case digits and
    hyphens. *)
Class UuidLaws `{UuidLib} := {
  try_parse_hyphenated u : (u < U128)%N -> try_parse (hyphenated u) = Some u;
  try_parse_bound s u : try_parse s = Some u -> (u < U128)%N;
  hyphenated_chars u :
    string_forallb (fun c => is_lower_hex c || Ascii.eqb c "-"%char) (hyphenated u) = true;
  version_bits u : get_version_num u = N.land (N.shiftr u 76) 15;
  variant_bits u : is_rfc4122 u = (N.land (N.shiftr u 62) 3 =? 2)%N;
}.

(** ** [sha2]: the digest of a byte string. *)
Class Sha256 := { sha256 : bytes -> bytes }.
Class Sha256Laws `{Sha256} := { sha256_len b : strlen (sha256 b) = 32 }.

(** ** [subtle]: comparison in constant time has the result of [==]. *)
Class Subtle := { ct_eq : bytes -> bytes -> bool }.
Class SubtleLaws `{Subtle} := { ct_eq_spec a b : ct_eq a b = bool_decide (a = b) }.

(** ** [hex] *)
Class HexLib := {
  hex_encode : bytes -> string;
  hex_decode : string -> option bytes;
}.
Class HexLaws `{HexLib} := {
  hex_decode_encode b : hex_decode (hex_encode b) = Some b;
  hex_encode_len b : strlen (hex_encode b) = 2 * strlen b;
  hex_encode_lower b : string_forallb is_lower_hex (hex_encode b) = true;
  hex_decode_len s b : hex_decode s = Some b -> strlen s = 2 * strlen b;
}.

(** ** [serde_json]: [to_vec] and [from_slice] of a type that derives both traits. *)
Class Serde (A : Type) := {
  to_vec : A -> option bytes;
  from_slice : bytes -> option A;
}.

(** The values [from_slice] can produce: those whose integers fit their width and whose
    identifiers pass their own [TryFrom<String>]. They survive a round trip. *)
Class SerdeLaws (A : Type) `{Serde A} (representable : A -> bool) := {
  to_vec_some a : representable a = true -> is_Some (to_vec a);
  from_to a bs : representable a = true -> to_vec a = Some bs -> from_slice bs = Some a;
  from_representable bs a : from_slice bs = Some a -> representable a = true;
}.

(** ** Concrete instances *)

Module Ref.

(** Self-delimiting encodings, closed under the type formers the records use. *)
Class Codec (A : Type) := {
  enc : A -> string;
  dec : string -> option (A * string);
  dec_enc a r : dec (enc a +:+ r) = Some (a, r);
}.

Definition bit0 : Ascii.ascii := "0"%char.
Definition bit1 : Ascii.ascii := "1"%char.
Definition stop : Ascii.ascii := ";"%char.

Fixpoint enc_pos (p : positive) : string :=
  match p with
  | xH => String stop ""
  | xO p => String bit0 (enc_pos p)
  | xI p => String bit1 (enc_pos p)
  end.
Fixpoint dec_pos (s : string) : option (positive * string) :=
  match s with
  | EmptyString => None
  | String c s' =>
      if Ascii.eqb c stop then Some (xH, s')
      else match dec_pos s' with
           | Some (p, r) => Some ((if Ascii.eqb c bit1 then xI p else xO p), r)
           | None => None
           end
  end.
#[export] Program Instance pos_codec : Codec positive := {| enc := enc_pos; dec := dec_pos |}.
Next Obligation. intros a r. induction a as [p IH|p IH|]; cbn; [by rewrite IH..|done]. Qed.

(** Transport along an injection with a partial inverse. *)
Definition codec_inj {A B} `{Codec B} (f : A -> B) (g : B -> option A)
  (Hgf : forall a, g (f a) = Some a) : Codec A.
Proof.
  refine {| enc a := enc (f a);
            dec s := match dec s with
                     | Some (b, r) => match g b with Some a => Some (a, r) | None => None end
                     | None => None
                     end |}.
  intros a r. by rewrite dec_enc, Hgf.
Defined.

#[export] Instance prod_codec {A B} `{Codec A, Codec B} : Codec (A * B).
Proof.
  refine {| enc p := enc p.1 +:+ enc p.2;
            dec s := match dec s with
                     | Some (a, s') =>
                         match dec s' with Some (b, r) => Some ((a, b), r) | None => None end
                     | None => None
                     end |}.
  intros [a b] r. cbn. by rewrite string_app_assoc, dec_enc, dec_enc.
Defined.

#[export] Instance sum_codec {A B} `{Codec A, Codec B} : Codec (A + B).
Proof.
  refine {| enc x := match x with inl a => String bit0 (enc a) | inr b => String bit1 (enc b) end;
            dec s := match s with
                     | EmptyString => None
                     | String c s' =>
                         if Ascii.eqb c bit0
                         then match dec s' with Some (a, r) => Some (inl a, r) | None => None end
                         else match dec s' with Some (b, r) => Some (inr b, r) | None => None end
                     end |}.
  intros [a|b] r; cbn; by rewrite dec_enc.
Defined.

#[export] Instance unit_codec : Codec unit.
Proof. refine {| enc _ := ""; dec s := Some (tt, s) |}. by intros [] r. Defined.

#[export] Instance bool_codec : Codec bool :=
  codec_inj (fun b : bool => if b then inl tt else inr tt : unit + unit)
    (fun s => Some (match s with inl _ => true | inr _ => false end))
    (fun b => match b with true => eq_refl | false => eq_refl end).
#[export] Instance N_codec : Codec N :=
  codec_inj N.succ_pos (fun p => Some (Pos.pred_N p)) (fun n => f_equal Some (N.pos_pred_succ n)).
#[export] Program Instance Z_codec : Codec Z :=
  codec_inj (fun z => (z <? 0, Z.abs_N z)) (fun p => Some (if p.1 then - Z.of_N p.2 else Z.of_N p.2)) _.
Next Obligation. intros z. cbn. f_equal. rewrite N2Z.inj_abs_N. destruct (Z.ltb_spec z 0); lia. Qed.
#[export] Program Instance option_codec {A} `{Codec A} : Codec (option A) :=
  codec_inj (fun o => match o with None => inl tt | Some a => inr a end)
    (fun s => Some (match s with inl _ => None | inr a => Some a end)) _.
Next Obligation. by intros A HA [a|]. Qed.

(** A string and a list carry their length. *)
#[export] Instance string_codec : Codec string.
Proof.
  refine {| enc s := enc (N.of_nat (String.length s)) +:+ s;
            dec s := match dec s with
                     | Some (n, r) => take_bytes (N.to_nat n) r
                     | None => None
                     end |}.
  intros a r. by rewrite string_app_assoc, dec_enc, Nat2N.id, take_bytes_app.
Defined.

Section list.
Context {A : Type} `{Codec A}.
Fixpoint enc_list (l : list A) : string :=
  match l with [] => "" | x :: l => enc x +:+ enc_list l end.
Fixpoint dec_list (n : nat) (s : string) : option (list A * string) :=
  match n with
  | O => Some ([], s)
  | S n => match dec s with
           | Some (a, s') =>
               match dec_list n s' with Some (l, r) => Some (a :: l, r) | None => None end
           | None => None
           end
  end.
Lemma dec_list_enc l r : dec_list (length l) (enc_list l +:+ r) = Some (l, r).
Proof.
  induction l as [|a l IH]; cbn; [done|]. by rewrite string_app_assoc, dec_enc, IH.
Qed.
#[export] Instance list_codec : Codec (list A).
Proof.
  refine {| enc l := enc (N.of_nat (length l)) +:+ enc_list l;
            dec s := match dec s with
                     | Some (n, r) => dec_list (N.to_nat n) r
                     | None => None
                     end |}.
  intros a r. by rewrite string_app_assoc, dec_enc, Nat2N.id, dec_list_enc.
Defined.
End list.

(** A [Serde] instance that accepts exactly the representable values. *)
Section serde.
Context {A : Type} `{Codec A} (representable : A -> bool).
Definition serde : Serde A := {|
  to_vec a := Some (enc a);
  from_slice s :=
    match dec s with
    | Some (a, EmptyString) => if representable a then Some a else None
    | _ => None
    end |}.
Lemma serde_laws : @SerdeLaws A serde representable.
Proof.
  split; cbn.
  - intros a _. by eexists.
  - intros a bs Ha [= <-]. rewrite <- (string_app_nil_r (enc a)), dec_enc. by rewrite Ha.
  - intros bs a. destruct (dec bs) as [[a' [|]]|]; [|done..].
    destruct (representable a') eqn:Ha'; [|done]. by intros [= <-].
Qed.
End serde.

(** *** Hexadecimal *)

Definition nib (n : N) : Ascii.ascii :=
  Ascii.ascii_of_N (if n <? 10 then n + 48 else n + 87)%N.
Definition unnib (c : Ascii.ascii) : option N :=
  let v := byte_val c in
  if byte_in 48 57 c then Some (v - 48)%N
  else if byte_in 97 102 c then Some (v - 87)%N
  else if byte_in 65 70 c then Some (v - 55)%N
  else None.

Lemma nib_cases (P : N -> Prop) :
  Forall P (map N.of_nat (seq 0 16)) -> forall n, (n < 16)%N -> P n.
Proof.
  intros H n Hn. rewrite List.Forall_forall in H. apply H.
  apply List.in_map_iff. exists (N.to_nat n). split; [lia|]. apply List.in_seq. lia.
Qed.
Lemma unnib_nib n : (n < 16)%N -> unnib (nib n) = Some n.
Proof. revert n. apply nib_cases. cbn. repeat constructor. Qed.
Lemma nib_lower n : (n < 16)%N -> is_lower_hex (nib n) = true.
Proof. revert n. apply nib_cases. cbn. repeat constructor. Qed.

Fixpoint hex_enc (b : bytes) : string :=
  match b with
  | EmptyString => ""
  | String c b => String (nib (byte_val c / 16)) (String (nib (byte_val c mod 16)) (hex_enc b))
  end.
Fixpoint hex_dec (s : string) : option bytes :=
  match s with
  | EmptyString => Some ""
  | String _ EmptyString => None
  | String c (String d s) =>
      match unnib c, unnib d, hex_dec s with
      | Some h, Some l, Some b => Some (String (Ascii.ascii_of_N (h * 16 + l)) b)
      | _, _, _ => None
      end
  end.

#[export] Instance hex_lib : HexLib := {| hex_encode := hex_enc; hex_decode := hex_dec |}.

Lemma byte_val_bound c : (byte_val c < 256)%N.
Proof. apply Ascii.N_ascii_bounded. Qed.

#[export] Instance hex_laws : HexLaws.
Proof.
  split; cbn.
  - intros b. induction b as [|c b IH]; cbn [hex_enc hex_dec]; [done|].
    pose proof (byte_val_bound c).
    rewrite !unnib_nib, IH by (first [apply N.Div0.div_lt_upper_bound; lia | apply N.mod_lt; lia]).
    do 2 f_equal. rewrite N.mul_comm, <- N.div_mod by lia. apply Ascii.ascii_N_embedding.
  - intros b. unfold strlen. induction b as [|c b IH]; cbn [hex_enc String.length]; lia.
  - intros b. induction b as [|c b IH]; cbn [hex_enc string_forallb]; [done|].
    pose proof (byte_val_bound c).
    rewrite !nib_lower, IH by (first [apply N.Div0.div_lt_upper_bound; lia | apply N.mod_lt; lia]).
    done.
  - fix IH 1. intros [|c [|d s]] b; cbn [hex_dec]; [by intros [= <-]|done|].
    destruct (unnib c), (unnib d), (hex_dec s) as [t|] eqn:Hs; try done. intros [= <-].
    specialize (IH s t Hs). unfold strlen in *. cbn [String.length]. lia.
Qed.

#[export] Instance subtle_lib : Subtle := {| ct_eq a b := bool_decide (a = b) |}.
#[export] Instance subtle_laws : SubtleLaws.
Proof. by split. Qed.

(** *** UUIDs *)

Fixpoint render (k : nat) (n : N) : string :=
  match k with
  | O => ""
  | S k => String (nib (N.land (N.shiftr n (4 * N.of_nat k)) 15)) (render k n)
  end.
Fixpoint take_hex (k : nat) (acc : N) (s : string) : option (N * string) :=
  match k, s with
  | O, _ => Some (acc, s)
  | S k, String c s =>
      match unnib c with Some d => take_hex k (N.shiftl acc 4 + d)%N s | None => None end
  | S _, EmptyString => None
  end.

Lemma digit_div n k : N.land (N.shiftr n (4 * N.of_nat k)) 15 = ((n / 16 ^ N.of_nat k) mod 16)%N.
Proof.
  rewrite N.shiftr_div_pow2, (N.land_ones _ 4 : N.land _ 15 = _), N.pow_mul_r. done.
Qed.

Lemma take_hex_render k n acc r :
  take_hex k acc (render k n +:+ r) = Some ((acc * 16 ^ N.of_nat k + n mod 16 ^ N.of_nat k)%N, r).
Proof.
  revert acc. induction k as [|k IH]; intros acc.
  - destruct r; cbn [take_hex render String.append]; do 2 f_equal; rewrite N.mod_1_r; cbn; lia.
  - cbn [render String.append take_hex]. rewrite digit_div, N.shiftl_mul_pow2.
    change (2 ^ 4)%N with 16%N. rewrite unnib_nib by (apply N.mod_lt; lia). rewrite IH. do 2 f_equal. rewrite Nat2N.inj_succ, N.pow_succ_r'.
    set (m := (16 ^ N.of_nat k)%N). assert (m <> 0)%N by (apply N.pow_nonzero; lia).
    rewrite (N.mul_comm 16 m), N.Div0.mod_mul_r. lia.
Qed.

Lemma render_lower k n : string_forallb is_lower_hex (render k n) = true.
Proof.
  induction k as [|k IH]; cbn [render string_forallb]; [done|]. rewrite digit_div.
  rewrite nib_lower by (apply N.mod_lt; lia). exact IH.
Qed.
Lemma render_chars k n :
  string_forallb (fun c => is_lower_hex c || Ascii.eqb c "-"%char) (render k n) = true.
Proof. eapply string_forallb_impl, render_lower. cbn. intros c Hc. by rewrite Hc. Qed.

Definition hyphen : string := "-".
Definition render_uuid (u : Uuid) : string :=
  render 8 (N.shiftr u 96) +:+ (hyphen +:+ (render 4 (N.shiftr u 80) +:+ (hyphen +:+
    (render 4 (N.shiftr u 64) +:+ (hyphen +:+ (render 4 (N.shiftr u 48) +:+ (hyphen +:+
      (render 12 u +:+ "")))))))).
Definition take_hyphen (s : string) : option string :=
  match s with
  | String c s => if Ascii.eqb c "-"%char then Some s else None
  | EmptyString => None
  end.
Definition parse_uuid (s : string) : option Uuid :=
  match take_hex 8 0 s with Some (a, s) => match take_hyphen s with Some s =>
  match take_hex 4 a s with Some (a, s) => match take_hyphen s with Some s =>
  match take_hex 4 a s with Some (a, s) => match take_hyphen s with Some s =>
  match take_hex 4 a s with Some (a, s) => match take_hyphen s with Some s =>
  match take_hex 12 a s with
  | Some (a, EmptyString) => if (a <? U128)%N then Some a else None
  | _ => None
  end | None => None end | None => None end | None => None end | None => None end
      | None => None end | None => None end | None => None end | None => None end.

#[export] Instance uuid_lib : UuidLib := {|
  try_parse := parse_uuid;
  hyphenated := render_uuid;
  get_version_num u := N.land (N.shiftr u 76) 15;
  is_rfc4122 u := (N.land (N.shiftr u 62) 3 =? 2)%N;
|}.

(** Splitting a value at a bit position. *)
Lemma join_bits u k m : (u / 2 ^ (k + m) * 2 ^ m + (u / 2 ^ k) mod 2 ^ m = u / 2 ^ k)%N.
Proof.
  rewrite N.pow_add_r, <- N.Div0.div_div, N.mul_comm, <- N.div_mod; [done|].
  apply N.pow_nonzero. lia.
Qed.

#[export] Instance uuid_laws : UuidLaws.
Proof.
  split; [|..|done].
  - intros u Hu. cbn [try_parse hyphenated uuid_lib]. unfold parse_uuid, render_uuid, hyphen.
    rewrite !N.shiftr_div_pow2. rewrite take_hex_render. cbn [String.append take_hyphen Ascii.eqb Bool.eqb].
    rewrite take_hex_render. cbn [String.append take_hyphen Ascii.eqb Bool.eqb].
    rewrite take_hex_render. cbn [String.append take_hyphen Ascii.eqb Bool.eqb].
    rewrite take_hex_render. cbn [String.append take_hyphen Ascii.eqb Bool.eqb].
    rewrite take_hex_render.
    change (16 ^ N.of_nat 8)%N with (2 ^ 32)%N. change (16 ^ N.of_nat 4)%N with (2 ^ 16)%N.
    change (16 ^ N.of_nat 12)%N with (2 ^ 48)%N.
    rewrite (N.mod_small (u / 2 ^ 96) (2 ^ 32)) by
      (apply N.Div0.div_lt_upper_bound; unfold U128 in Hu; rewrite <- N.pow_add_r; exact Hu).
    rewrite N.mul_0_l, N.add_0_l.
    rewrite (join_bits u 80 16 : (u / 2 ^ 96 * 2 ^ 16 + (u / 2 ^ 80) mod 2 ^ 16)%N = _).
    rewrite (join_bits u 64 16 : (u / 2 ^ 80 * 2 ^ 16 + (u / 2 ^ 64) mod 2 ^ 16)%N = _).
    rewrite (join_bits u 48 16 : (u / 2 ^ 64 * 2 ^ 16 + (u / 2 ^ 48) mod 2 ^ 16)%N = _).
    pose proof (join_bits u 0 48) as Hj. rewrite N.pow_0_r, N.div_1_r, N.add_0_l in Hj.
    rewrite Hj. by rewrite (proj2 (N.ltb_lt u U128) Hu).
  - intros s u. cbn [try_parse uuid_lib]. unfold parse_uuid.
    repeat case_match; try done. intros [= <-]. by apply N.ltb_lt.
  - intros u. cbn [hyphenated uuid_lib]. unfold render_uuid.
    by rewrite !string_forallb_app, !render_chars.
  - done.
Qed.

(** *** A digest: the bytes folded into 8, four times over. *)
Fixpoint fold_bytes (acc : N) (b : bytes) : N :=
  match b with
  | EmptyString => acc
  | String c b => fold_bytes (N.land (N.shiftl acc 8 + acc + byte_val c + 1) (N.ones 64)) b
  end.
#[export] Instance sha_lib : Sha256 := {|
  sha256 b := let d := to_be_bytes 8 (fold_bytes 0 b) in d +:+ d +:+ d +:+ d
|}.
#[export] Instance sha_laws : Sha256Laws.
Proof.
  split. intros b. unfold strlen. cbn [sha256 sha_lib]. by rewrite !length_pos_string_app, !to_be_bytes_len.
Qed.

End Ref.
