(* ===== verification/Ids.v ===== *)
(** * Public resource identifiers (crates/sandbox-protocol/src/ids.rs)

    Six identity types share one macro: a prefix, a UUID, and the same parser. The kind
    of resource is an index of the type, so that one kind cannot be passed for another. *)

From S2P Require Import Prelude Ext.

Inductive kind : Type := KProject | KSandbox | KOperation | KSnapshot | KAllocation | KHost.
#[export] Instance kind_eq_dec : EqDecision kind.
Proof. solve_decision. Defined.

(** [Id::PREFIX] *)
Definition PREFIX (k : kind) : string :=
  match k with
  | KProject => "prj" | KSandbox => "sbx" | KOperation => "op"
  | KSnapshot => "snp" | KAllocation => "alc" | KHost => "hst"
  end.

(** [pub struct $name(Uuid)], with [Id::uuid] and [Id::from_uuid]. *)
Record Id (k : kind) : Type := from_uuid { uuid : Uuid }.
Arguments from_uuid {k} uuid.
Arguments uuid {k} _.

Abbreviation ProjectId := (Id KProject).
Abbreviation SandboxId := (Id KSandbox).
Abbreviation OperationId := (Id KOperation).
Abbreviation SnapshotId := (Id KSnapshot).
Abbreviation AllocationId := (Id KAllocation).
Abbreviation HostId := (Id KHost).

#[export] Instance Id_eq_dec k : EqDecision (Id k).
Proof. solve_decision. Defined.
#[export] Instance Id_countable k : Countable (Id k).
Proof. by apply (inj_countable' uuid from_uuid); intros []. Defined.

(** The derived [Ord]. *)
Definition id_leb {k} (a b : Id k) : bool := (uuid a <=? uuid b)%N.
Definition id_ltb {k} (a b : Id k) : bool := (uuid a <? uuid b)%N.

Inductive IdParseError : Type :=
| WrongPrefix (expected found : string)
| MissingSeparator
| MalformedUuid (value : string)
| WrongUuidVersion (version : N).
#[export] Instance IdParseError_eq_dec : EqDecision IdParseError.
Proof. solve_decision. Defined.

Section parse.
Context `{UuidLib}.

Definition parse_prefixed (value expected : string) : result IdParseError Uuid :=
  '(prefix, rest) ← ok_or (split_once "_" value) MissingSeparator;
  if negb (bool_decide (prefix = expected)) then Err (WrongPrefix expected prefix) else
  uuid ← ok_or (try_parse rest) (MalformedUuid rest);
  if negb (bool_decide (hyphenated uuid = rest)) then Err (MalformedUuid rest) else
  let version := get_version_num uuid in
  if negb (version =? 7)%N then Err (WrongUuidVersion version) else
  Ok uuid.

(** [Display] *)
Definition to_string {k} (id : Id k) : string := PREFIX k +:+ "_" +:+ hyphenated (uuid id).

(** [FromStr] and [TryFrom<String>] *)
Definition parse (k : kind) (value : string) : result IdParseError (Id k) :=
  from_uuid <$> parse_prefixed value (PREFIX k).

(** The identifiers the parser can return. *)
Definition canonical {k} (id : Id k) : bool :=
  (uuid id <? U128)%N && (get_version_num (uuid id) =? 7)%N.
End parse.

(** A sample version 7 identifier with the given random part. *)
Definition sample_id {k} (n : N) : Id k := from_uuid (0x019a9fad3000700080000000_00000000 + n)%N.

#[global] Arguments parse _ _ _ : simpl never.
#[global] Arguments to_string _ _ _ : simpl never.
#[global] Arguments canonical _ _ _ : simpl never.

Lemma prefix_no_separator k : no_char "_" (PREFIX k) = true.
Proof. by destruct k. Qed.

Section laws.
Context `{UuidLaws}.

Lemma parse_prefixed_ok value expected u :
  parse_prefixed value expected = Ok u <->
  no_char "_" expected = true /\ value = expected +:+ "_" +:+ hyphenated u /\
  (u < U128)%N /\ get_version_num u = 7%N.
Proof.
  unfold parse_prefixed. split.
  - destruct (split_once _ value) as [[prefix rest]|] eqn:Hs; cbn; [|done].
    intros Hp. inv_ok. bools. simplify_eq.
    apply split_once_some in Hs as [-> Hn].
    eauto using try_parse_bound.
  - intros (Hn & -> & Hu & Hv).
    rewrite (split_once_app _ _ (hyphenated u) Hn : split_once "_" (expected +:+ "_" +:+ _) = _). cbn.
    rewrite bool_decide_eq_true_2 by done. cbn. rewrite try_parse_hyphenated by done. cbn.
    rewrite bool_decide_eq_true_2 by done. cbn. by rewrite Hv.
Qed.

(** Parsing accepts exactly the renderings of canonical identifiers of the kind. *)
Lemma parse_ok k value (id : Id k) :
  parse k value = Ok id <-> value = to_string id /\ canonical id = true.
Proof.
  unfold parse, to_string, canonical. rewrite andb_true_iff, N.ltb_lt, N.eqb_eq.
  pose proof (prefix_no_separator k) as Hk. destruct id as [u].
  split.
  - destruct (parse_prefixed value (PREFIX k)) as [u'|e] eqn:Hp; cbn; [|done].
    intros [= ->]. apply parse_prefixed_ok in Hp. naive_solver.
  - intros (-> & Hu & Hv). by rewrite (proj2 (parse_prefixed_ok _ _ u)).
Qed.

Lemma parse_to_string k (id : Id k) : canonical id = true -> parse k (to_string id) = Ok id.
Proof. intros. by apply parse_ok. Qed.

Lemma to_string_inj k (a b : Id k) :
  canonical a = true -> canonical b = true -> to_string a = to_string b -> a = b.
Proof. intros Ha Hb Heq. apply parse_to_string in Ha, Hb. congruence. Qed.
End laws.
