(* ===== verification/Token.v ===== *)
(** * Project API tokens (crates/sandbox-protocol/src/token.rs) *)

From S2P Require Import Prelude Ext.

Definition TOKEN_PREFIX : string := "hsb".
Definition KEY_ID_BYTES : Z := 8.
Definition SECRET_BYTES : Z := 32.

Inductive TokenParseError : Type := Malformed | WrongPrefix | BadKeyId | BadSecret.
#[export] Instance TokenParseError_eq_dec : EqDecision TokenParseError.
Proof. solve_decision. Defined.

(** [TokenKeyId(String)] *)
Record TokenKeyId : Type := from_stored { as_str : string }.
(** [TokenHash([u8; 32])] *)
Record TokenHash : Type := from_bytes { as_bytes : bytes }.

#[export] Instance TokenKeyId_eq_dec : EqDecision TokenKeyId.
Proof. solve_decision. Defined.
#[export] Instance TokenHash_eq_dec : EqDecision TokenHash.
Proof. solve_decision. Defined.

Record ProjectToken : Type := { key_id : TokenKeyId; secret : bytes }.

#[export] Instance ProjectToken_eq_dec : EqDecision ProjectToken.
Proof. solve_decision. Defined.

Section token.
Context `{Sha256, HexLib, Subtle}.

Definition verify (h other : TokenHash) : bool := ct_eq (as_bytes h) (as_bytes other).

(** The arguments are what the two [getrandom::fill] calls produced, in order. *)
Definition generate (fill_key_id fill_secret : result string bytes) : result string ProjectToken :=
  k ← fill_key_id;
  s ← fill_secret;
  Ok {| key_id := from_stored (hex_encode k); secret := s |}.

Definition parse (value : string) : result TokenParseError ProjectToken :=
  match split "_" value with
  | [prefix; key_id; secret] =>
      if negb (bool_decide (prefix = TOKEN_PREFIX)) then Err WrongPrefix else
      if negb (strlen key_id =? KEY_ID_BYTES * 2) || is_none (hex_decode key_id)
      then Err BadKeyId else
      if negb (strlen secret =? SECRET_BYTES * 2) then Err BadSecret else
      secret ← ok_or (hex_decode secret) BadSecret;
      _ ← ensure (strlen secret =? SECRET_BYTES) BadSecret;
      Ok {| key_id := from_stored key_id; secret := secret |}
  | _ => Err Malformed
  end.

Definition hash (t : ProjectToken) : TokenHash := from_bytes (sha256 (secret t)).

Definition render_once (t : ProjectToken) : string :=
  TOKEN_PREFIX +:+ "_" +:+ as_str (key_id t) +:+ "_" +:+ hex_encode (secret t).
End token.

(** What [generate] guarantees of a token, and [parse] of its result. *)
Definition issued `{HexLib} (t : ProjectToken) : Prop :=
  exists k, as_str (key_id t) = hex_encode k /\ strlen k = KEY_ID_BYTES /\
            strlen (secret t) = SECRET_BYTES.

Section laws.
Context `{Sha256Laws, HexLaws, SubtleLaws}.

Lemma lower_hex_no_separator s : string_forallb is_lower_hex s = true -> no_char "_" s = true.
Proof.
  apply string_forallb_impl. intros c. destruct (Ascii.eqb_spec c "_"%char) as [->|]; done.
Qed.

Lemma hex_encode_no_separator b : no_char "_" (hex_encode b) = true.
Proof. apply lower_hex_no_separator, hex_encode_lower. Qed.

Lemma render_split t :
  no_char "_" (as_str (key_id t)) = true ->
  split "_" (render_once t) = [TOKEN_PREFIX; as_str (key_id t); hex_encode (secret t)].
Proof.
  intros Hk.
  change (render_once t) with
    ("hsb" +:+ String "_" (as_str (key_id t) +:+ String "_" (hex_encode (secret t)))).
  rewrite split_app by done. rewrite split_app by done.
  by rewrite split_no_char by apply hex_encode_no_separator.
Qed.

(** A token that was issued is read back exactly from the one string the caller
    keeps, and the hash stored for it verifies the hash of what was read. *)
Theorem token_round_trip t :
  issued t ->
  exists t', parse (render_once t) = Ok t' /\ t' = t /\ verify (hash t') (hash t) = true.
Proof.
  destruct t as [[k] s]. intros (kb & Hk & Hkl & Hs). cbn in Hk, Hs. subst k.
  exists {| key_id := from_stored (hex_encode kb); secret := s |}. split; [|split; [done|]].
  - unfold parse. rewrite render_split by apply hex_encode_no_separator. cbn [as_str key_id secret].
    rewrite bool_decide_eq_true_2 by done. cbn [negb].
    rewrite !hex_encode_len, Hkl, Hs, !hex_decode_encode. cbn. by rewrite Hs.
  - unfold verify. rewrite ct_eq_spec. by apply bool_decide_eq_true.
Qed.

(** Whatever [parse] accepts has exactly three parts, the right prefix, and a secret
    of 32 bytes; rendering it again gives the accepted key identifier, and a string
    whose separator count is not two is refused as malformed. *)
Theorem token_parse_sound value t :
  parse value = Ok t ->
  exists secret_text,
    split "_" value = [TOKEN_PREFIX; as_str (key_id t); secret_text] /\
    hex_decode secret_text = Some (secret t) /\ strlen (secret t) = SECRET_BYTES /\
    strlen (as_str (key_id t)) = 2 * KEY_ID_BYTES /\ is_some (hex_decode (as_str (key_id t))) = true.
Proof.
  unfold parse. destruct (split "_" value) as [|p [|k [|s [|]]]] eqn:Hs; try done.
  intros Hp. inv_ok. bools. subst. eexists. cbn. unfold is_none in *. bools. split_and!; [done..|lia|done].
Qed.
End laws.

(** ** A sample token *)

Module Sample.
Import Ref.

Definition sample_key : bytes := "keyident".
Definition sample_secret : bytes := "0123456789abcdef0123456789abcdef".
Definition sample_token : ProjectToken :=
  {| key_id := from_stored (hex_encode sample_key); secret := sample_secret |}.

Lemma token_round_trip_witness :
  generate (Ok sample_key) (Ok sample_secret) = Ok sample_token /\
  exists t', parse (render_once sample_token) = Ok t' /\ t' = sample_token /\
    verify (hash t') (hash sample_token) = true.
Proof.
  split; [vm_compute; reflexivity|].
  apply (token_round_trip sample_token). exists sample_key. split_and!; vm_compute; reflexivity.
Defined.

Lemma token_parse_sound_witness :
  exists text, split "_" (render_once sample_token) = [TOKEN_PREFIX; as_str (key_id sample_token); text] /\
    hex_decode text = Some sample_secret.
Proof.
  destruct (token_parse_sound (render_once sample_token) sample_token) as (text & Hs & Hd & _);
    [vm_compute; reflexivity|].
  exists text. split; [exact Hs|exact Hd].
Defined.
End Sample.
