(* ===== verification/Idempotency.v ===== *)
(** * Idempotency keys and request digests (crates/sandbox-protocol/src/idempotency.rs) *)

From stdpp Require Import sorting.
From S2P Require Import Prelude Ext.

Definition DIGEST_VERSION : Z := 1.
Definition MIN_KEY_LEN : Z := 16.
Definition MAX_KEY_LEN : Z := 128.

Inductive KeyError : Type := TooShort | TooLong | BadCharacter.
#[export] Instance KeyError_eq_dec : EqDecision KeyError.
Proof. solve_decision. Defined.

Definition key_char (b : Ascii.ascii) : bool :=
  is_ascii_alphanumeric b || is_byte 46 b || is_byte 95 b || is_byte 45 b.

(** [IdempotencyKey::parse]; the key is the accepted string. *)
Definition parse (value : string) : result KeyError string :=
  if strlen value <? MIN_KEY_LEN then Err TooShort else
  if MAX_KEY_LEN <? strlen value then Err TooLong else
  if negb (string_forallb key_char value) then Err BadCharacter else
  Ok value.

(** ** Canonical JSON

    [serde_json::Value]: an object's entries come in the order the caller wrote them;
    [Other] is a null, a boolean, a number or a string. *)
Inductive Value : Type :=
| Object (map : list (string * Value))
| Array (items : list Value)
| Other (text : bytes).

(** The order [sort_unstable] uses on keys: bytewise. *)
Fixpoint bytes_leb (a b : string) : bool :=
  match a, b with
  | EmptyString, _ => true
  | String _ _, EmptyString => false
  | String x a, String y b =>
      (byte_val x <? byte_val y)%N || ((byte_val x =? byte_val y)%N && bytes_leb a b)
  end.

Fixpoint insert_key {A} (e : string * A) (l : list (string * A)) : list (string * A) :=
  match l with
  | [] => [e]
  | x :: l' => if bytes_leb e.1 x.1 then e :: l else x :: insert_key e l'
  end.
(** [keys.sort_unstable()], each key with its child. *)
Definition sort_keys {A} (l : list (string * A)) : list (string * A) := foldr insert_key [] l.

Fixpoint comma_separated (l : list string) : string :=
  match l with
  | [] => ""
  | [x] => x
  | x :: l' => x +:+ "," +:+ comma_separated l'
  end.

Section canonical.
(** [serde_json::to_string] of an object key. [Other] carries its own rendering. *)
Context (json_string : string -> string).

Fixpoint write_canonical (value : Value) : bytes :=
  match value with
  | Object map =>
      let children :=
        (fix go (l : list (string * Value)) : list (string * bytes) :=
           match l with [] => [] | (k, v) :: l' => (k, write_canonical v) :: go l' end) map in
      "{" +:+ comma_separated
        (List.map (fun e => json_string e.1 +:+ ":" +:+ e.2) (sort_keys children)) +:+ "}"
  | Array items =>
      "[" +:+ comma_separated
        ((fix go (l : list Value) : list bytes :=
            match l with [] => [] | v :: l' => write_canonical v :: go l' end) items) +:+ "]"
  | Other text => text
  end.

(** The bytes [RequestDigest::compute] feeds to the hasher. *)
Definition preimage_part (part : bytes) : bytes :=
  to_be_bytes 8 (N.of_nat (String.length part)) +:+ part.
Definition preimage (method target canonical : bytes) : bytes :=
  preimage_part method +:+ preimage_part target +:+ preimage_part canonical.

Definition compute `{Sha256} (method target : string) (payload : Value) : bytes :=
  sha256 (preimage method target (write_canonical payload)).
End canonical.

(** ** Sorting *)

Lemma bytes_leb_total a b : bytes_leb a b = true \/ bytes_leb b a = true.
Proof.
  revert b. induction a as [|x a IH]; intros [|y b]; cbn; auto.
  destruct (N.lt_total (byte_val x) (byte_val y)) as [H|[H|H]].
  - left. apply N.ltb_lt in H. by rewrite H.
  - rewrite !H, !N.eqb_refl. destruct (IH b) as [-> | ->]; rewrite !orb_true_r; auto.
  - right. apply N.ltb_lt in H. by rewrite H.
Qed.

Lemma byte_val_inj x y : byte_val x = byte_val y -> x = y.
Proof.
  intros H. rewrite <- (Ascii.ascii_N_embedding x), <- (Ascii.ascii_N_embedding y).
  by f_equal.
Qed.

Lemma bytes_leb_cons x a y b :
  bytes_leb (String x a) (String y b) = true <->
  (byte_val x < byte_val y)%N \/ (x = y /\ bytes_leb a b = true).
Proof.
  cbn. rewrite orb_true_iff, andb_true_iff, N.ltb_lt, N.eqb_eq.
  split; [|naive_solver]. intros [H|[H H']]; [by left|right]. eauto using byte_val_inj.
Qed.

Lemma bytes_leb_antisym a b : bytes_leb a b = true -> bytes_leb b a = true -> a = b.
Proof.
  revert b. induction a as [|x a IH]; intros [|y b]; try done.
  rewrite !bytes_leb_cons. intros [H|[Hx H]] [H'|[Hy H']]; subst; [lia..|]. f_equal. eauto.
Qed.

Lemma bytes_leb_trans a b c : bytes_leb a b = true -> bytes_leb b c = true -> bytes_leb a c = true.
Proof.
  revert b c. induction a as [|x a IH]; intros [|y b] [|z c]; try done.
  rewrite !bytes_leb_cons. intros [H|[Hx H]] [H'|[Hy H']]; subst; [left; lia|by left|by left|].
  right. split; [done|]. eauto.
Qed.

Section sort.
Context {A : Type}.
Implicit Types (l : list (string * A)) (e : string * A).
Definition key_le e e' : Prop := bytes_leb e.1 e'.1 = true.

Lemma insert_key_perm e l : insert_key e l ≡ₚ e :: l.
Proof.
  induction l as [|x l IH]; cbn; [done|]. case_match; [done|]. etrans; [by apply perm_skip|constructor].
Qed.
Lemma sort_keys_perm l : sort_keys l ≡ₚ l.
Proof. induction l as [|e l IH]; cbn; [done|]. etrans; [apply insert_key_perm|by constructor]. Qed.

Lemma insert_key_sorted e l : StronglySorted key_le l -> StronglySorted key_le (insert_key e l).
Proof.
  induction 1 as [|x l Hs IH Hx]; cbn; [repeat constructor|].
  destruct (bytes_leb e.1 x.1) eqn:He.
  - constructor; [by constructor|]. constructor; [done|].
    eapply List.Forall_impl; [|exact Hx]. intros y Hy. by eapply bytes_leb_trans.
  - constructor; [done|]. rewrite (insert_key_perm e l : _ ≡ₚ _). constructor; [|done].
    unfold key_le. destruct (bytes_leb_total e.1 x.1); congruence.
Qed.
Lemma sort_keys_sorted l : StronglySorted key_le (sort_keys l).
Proof.
  induction l as [|e l IH]; cbn; [constructor|]. by apply insert_key_sorted.
Qed.

(** With distinct keys there is one sorted order. *)
Lemma sorted_unique l1 l2 :
  StronglySorted key_le l1 -> StronglySorted key_le l2 -> NoDup l1.*1 -> l1 ≡ₚ l2 -> l1 = l2.
Proof.
  intros H1. revert l2. induction H1 as [|x l1 Hs IH Hx]; intros l2 H2 Hn Hp.
  { by apply Permutation_nil in Hp as ->. }
  destruct H2 as [|y l2 Hs2 Hy]; [by apply Permutation_sym, Permutation_nil in Hp|].
  rewrite fmap_cons in Hn. apply NoDup_cons in Hn as [Hxn Hn].
  assert (x = y) as ->.
  { assert (y ∈ x :: l1) as Hyx by (rewrite Hp; left).
    assert (x ∈ y :: l2) as Hxy by (rewrite <- Hp; left).
    apply elem_of_cons in Hyx as [->|Hyx]; [done|].
    apply elem_of_cons in Hxy as [->|Hxy]; [done|].
    rewrite Forall_forall in Hx, Hy. specialize (Hx _ Hyx). specialize (Hy _ Hxy).
    exfalso. apply Hxn. apply list_elem_of_fmap. exists y. split; [|done].
    by apply bytes_leb_antisym. }
  f_equal. apply IH; [done|done|]. by apply Permutation_cons_inv in Hp.
Qed.

Lemma sort_keys_perm_eq l1 l2 : NoDup l1.*1 -> l1 ≡ₚ l2 -> sort_keys l1 = sort_keys l2.
Proof.
  intros Hn Hp. apply sorted_unique; [apply sort_keys_sorted..| |].
  - by rewrite sort_keys_perm.
  - by rewrite !sort_keys_perm.
Qed.
End sort.

(** ** Reordered requests *)

(** Two values that differ only in the order of object fields, at any depth. *)
Inductive same_request : Value -> Value -> Prop :=
| same_other t : same_request (Other t) (Other t)
| same_array l1 l2 : Forall2 same_request l1 l2 -> same_request (Array l1) (Array l2)
| same_object m1 m2 m2' :
    NoDup m1.*1 ->
    Forall2 (fun e1 e2 => e1.1 = e2.1 /\ same_request e1.2 e2.2) m1 m2 ->
    m2 ≡ₚ m2' ->
    same_request (Object m1) (Object m2').

Section canonical_laws.
Context (json_string : string -> string).
Local Abbreviation write := (write_canonical json_string).

Lemma write_array l :
  write (Array l) = "[" +:+ comma_separated (List.map write l) +:+ "]".
Proof. reflexivity. Qed.

Definition write_entry (e : string * Value) : string * bytes := (e.1, write e.2).
Lemma write_object m :
  write (Object m) = "{" +:+ comma_separated
    (List.map (fun e => json_string e.1 +:+ ":" +:+ e.2) (sort_keys (write_entry <$> m))) +:+ "}".
Proof.
  cbn [write_canonical].
  match goal with |- context [sort_keys (?go m)] => assert (go m = write_entry <$> m) as -> end;
    [|done].
  induction m as [|[k v] m IH]; [done|]. rewrite fmap_cons. by f_equal.
Qed.

(** C40. Field order is not significant: two payloads that differ only in the order of
    object fields, at any depth, have one canonical form, hence one request digest. *)
Theorem field_order_insignificant `{Sha256} v w method target :
  same_request v w ->
  write v = write w /\ compute json_string method target v = compute json_string method target w.
Proof.
  intros Hvw. assert (write v = write w) as Heq; [|unfold compute; by rewrite Heq].
  revert v w Hvw. fix IH 3. intros v w [t|l1 l2 Hl|m1 m2 m2' Hn Hm Hp].
  - done.
  - rewrite !write_array. assert (List.map write l1 = List.map write l2) as ->; [|done].
    induction Hl as [|x y l1 l2 Hxy _ IHl]; cbn; [done|]. f_equal; [by apply IH|done].
  - assert (write_entry <$> m1 = write_entry <$> m2) as Heq.
    { clear Hn Hp. induction Hm as [|e1 e2 m1 m2 [Hk He] _ IHm]; [done|].
      rewrite !fmap_cons. f_equal; [|done]. unfold write_entry. f_equal; [done|by apply IH]. }
    rewrite !write_object.
    assert (sort_keys (write_entry <$> m1) = sort_keys (write_entry <$> m2')) as ->; [|done].
    apply sort_keys_perm_eq; [|by rewrite Heq, Hp].
    by rewrite <- list_fmap_compose.
Qed.
End canonical_laws.

(** ** Framing *)

Lemma preimage_part_inj p q r s :
  (N.of_nat (String.length p) < 2 ^ 64)%N -> (N.of_nat (String.length q) < 2 ^ 64)%N ->
  preimage_part p +:+ r = preimage_part q +:+ s -> p = q /\ r = s.
Proof.
  unfold preimage_part. rewrite !string_app_assoc. intros Hp Hq Heq.
  apply string_app_inj_len in Heq as [Hlen Heq]; [|by rewrite !to_be_bytes_len].
  apply (f_equal (from_be_bytes 0)) in Hlen. rewrite !from_to_be_bytes in Hlen.
  change (256 ^ N.of_nat 8)%N with (2 ^ 64)%N in Hlen. rewrite !N.mod_small in Hlen by done.
  apply string_app_inj_len; [lia|done].
Qed.

(** The length prefixes make the hashed bytes determine the method, the target and the
    canonical payload, so no two different requests share a preimage: a digest collision
    between them is a collision of SHA-256. *)
Theorem preimage_injective m t c m' t' c' :
  Forall (fun p => strlen p <= U64_MAX) [m; t; c; m'; t'; c'] ->
  preimage m t c = preimage m' t' c' -> m = m' /\ t = t' /\ c = c'.
Proof.
  rewrite !Forall_cons. unfold strlen, U64_MAX, preimage. intros (?&?&?&?&?&?&_) Heq.
  apply preimage_part_inj in Heq as [-> Heq]; [|lia..].
  apply preimage_part_inj in Heq as [-> Heq]; [|lia..].
  rewrite <- (string_app_nil_r (preimage_part c)), <- (string_app_nil_r (preimage_part c')) in Heq.
  by apply preimage_part_inj in Heq as [-> _]; [|lia..].
Qed.

(** ** Sample requests *)

Module Sample.
Import Ref.

Definition quote (s : string) : string := "'" +:+ s +:+ "'".
Definition request : Value :=
  Object [("b", Array [Object [("y", Other "1"); ("x", Other "2")]]); ("a", Other "true")].
Definition reordered : Value :=
  Object [("a", Other "true"); ("b", Array [Object [("x", Other "2"); ("y", Other "1")]])].

Lemma request_reordered : same_request request reordered.
Proof.
  assert (NoDup ["b"; "a"] /\ NoDup ["y"; "x"]) as [Hba Hyx] by (split; by apply (bool_decide_unpack _)).
  eapply same_object; [exact Hba| |apply perm_swap].
  repeat constructor; cbn. eapply same_object; [exact Hyx| |apply perm_swap]. repeat constructor.
Qed.

Lemma field_order_insignificant_witness :
  request <> reordered /\ write_canonical quote request = write_canonical quote reordered.
Proof.
  split; [done|].
  exact (proj1 (field_order_insignificant quote request reordered "POST" "/v1" request_reordered)).
Defined.

Lemma preimage_injective_witness :
  "POST" = "POST" /\ "/v1/sandboxes" = "/v1/sandboxes" /\ "{}" = "{}".
Proof.
  apply (preimage_injective "POST" "/v1/sandboxes" "{}" "POST" "/v1/sandboxes" "{}");
    [|vm_compute; reflexivity].
  repeat constructor; vm_compute; discriminate.
Defined.
End Sample.
