(* ===== verification/Resources.v ===== *)
(** * Guest sizes, image policy and host capabilities
    (resources.rs, images.rs and host_capabilities.rs of crates/sandbox-protocol/src) *)

From S2P Require Import Prelude Ext.

(** ** resources.rs *)

Definition MIN_VCPU : Z := 1.
Definition MAX_VCPU : Z := 4.
Definition MIN_MEMORY_MIB : Z := 128.
Definition MAX_MEMORY_MIB : Z := 8192.
Definition MIN_DISK_MIB : Z := 64.
Definition MAX_DISK_MIB : Z := 65536.

Definition supported (vcpu memory_mib disk_mib : Z) : bool :=
  contains MIN_VCPU MAX_VCPU vcpu
  && contains MIN_MEMORY_MIB MAX_MEMORY_MIB memory_mib
  && contains MIN_DISK_MIB MAX_DISK_MIB disk_mib.

(** ** images.rs *)

Fixpoint strip_prefix (p s : string) : option string :=
  match p, s with
  | EmptyString, _ => Some s
  | String a p, String b s => if Ascii.eqb a b then strip_prefix p s else None
  | String _ _, EmptyString => None
  end.

Definition valid_image_digest (digest : string) : bool :=
  match strip_prefix "sha256:" digest with
  | Some hex => (strlen hex =? 64) && string_forallb is_lower_hex hex
  | None => false
  end.

Inductive ImagePolicyError : Type := Size | Digest | Duplicate.
#[export] Instance ImagePolicyError_eq_dec : EqDecision ImagePolicyError.
Proof. solve_decision. Defined.

(** [ImageAllowlist(Arc<BTreeSet<String>>)] *)
Record ImageAllowlist : Type := { entries : gset string }.

Fixpoint allowlist_collect (acc : gset string) (digests : list string)
    : result ImagePolicyError (gset string) :=
  match digests with
  | [] => Ok acc
  | digest :: digests =>
      if 256 <=? Z.of_nat (size acc) then Err Size else
      if negb (valid_image_digest digest) then Err Digest else
      if bool_decide (digest ∈ acc) then Err Duplicate else
      allowlist_collect ({[ digest ]} ∪ acc) digests
  end.

(** [ImageAllowlist::new] *)
Definition new (digests : list string) : result ImagePolicyError ImageAllowlist :=
  acc ← allowlist_collect ∅ digests;
  if bool_decide (acc = ∅) then Err Size else Ok {| entries := acc |}.

Definition allows (policy : ImageAllowlist) (digest : string) : bool :=
  bool_decide (digest ∈ entries policy).

(** ** host_capabilities.rs *)

Definition MAX_BYTES : Z := 65536.
(** [env!("CARGO_PKG_VERSION")] *)
Definition CARGO_PKG_VERSION : string := "0.0.0".

Record Image : Type := {
  rootfs_digest : string;
  kernel_digest : string;
  minimum_disk_mib : Z;
  guest_version : string;
  bootstrap_version : Z;
  guest_protocol_version : Z;
}.

Record Limits : Type := { vcpu : Z; memory_mib : Z; disk_mib : Z }.

Record Capabilities : Type := {
  version : Z;
  simulated : bool;
  architecture : string;
  host_kernel_release : string;
  kvm_api_version : Z;
  cgroup_version : Z;
  supervisor_version : string;
  firecracker_version : string;
  firecracker_digest : string;
  jailer_digest : string;
  limits : Limits;
  images : list Image;
}.

(** [pub struct Error;]: one undifferentiated refusal. *)
Inductive Error : Type := error.

Definition release_char (b : Ascii.ascii) : bool :=
  is_ascii_alphanumeric b || is_byte 46 b || is_byte 95 b || is_byte 43 b || is_byte 45 b.

Fixpoint validate_images (disk_limit : Z) (seen : gset string) (l : list Image)
    : result Error unit :=
  match l with
  | [] => Ok tt
  | image :: l =>
      if negb (valid_image_digest (rootfs_digest image))
         || negb (valid_image_digest (kernel_digest image))
         || bool_decide (rootfs_digest image ∈ seen)
         || negb (contains 64 disk_limit (minimum_disk_mib image))
         || negb (bool_decide (guest_version image = CARGO_PKG_VERSION))
         || negb (bootstrap_version image =? 1)
         || negb (guest_protocol_version image =? 1)
      then Err error
      else validate_images disk_limit ({[ rootfs_digest image ]} ∪ seen) l
  end.

(** [Capabilities::validate] *)
Definition validate (c : Capabilities) : result Error unit :=
  if negb (version c =? 1)
     || negb (bool_decide (architecture c = "x86_64") || bool_decide (architecture c = "aarch64"))
     || bool_decide (host_kernel_release c = "")
     || (128 <? strlen (host_kernel_release c))
     || negb (string_forallb release_char (host_kernel_release c))
     || negb (kvm_api_version c =? 12)
     || negb (cgroup_version c =? 2)
     || negb (bool_decide (supervisor_version c = CARGO_PKG_VERSION))
     || negb (bool_decide (firecracker_version c = "1.17.0"))
     || negb (valid_image_digest (firecracker_digest c))
     || negb (valid_image_digest (jailer_digest c))
     || negb (supported (vcpu (limits c)) (memory_mib (limits c)) (disk_mib (limits c)))
     || bool_decide (images c = [])
     || (64 <? listlen (images c))
  then Err error
  else validate_images (disk_mib (limits c)) ∅ (images c).

Definition supports (c : Capabilities) (digest : string) (v m d : Z) : bool :=
  is_ok (validate c)
  && supported v m d
  && (v <=? vcpu (limits c))
  && (m <=? memory_mib (limits c))
  && (d <=? disk_mib (limits c))
  && existsb (fun image => bool_decide (rootfs_digest image = digest)
                           && (minimum_disk_mib image <=? d)) (images c).

Section json.
Context `{Serde Capabilities}.

Definition from_json (b : bytes) : result Error Capabilities :=
  if bool_decide (b = "") || (MAX_BYTES <? strlen b) then Err error else
  value ← ok_or (from_slice b) error;
  _ ← validate value;
  Ok value.

Definition to_json (c : Capabilities) : result Error bytes :=
  _ ← validate c;
  b ← ok_or (to_vec c) error;
  if MAX_BYTES <? strlen b then Err error else Ok b.
End json.

#[export] Instance Image_eq_dec : EqDecision Image.
Proof. solve_decision. Defined.
#[export] Instance Limits_eq_dec : EqDecision Limits.
Proof. solve_decision. Defined.
#[export] Instance Capabilities_eq_dec : EqDecision Capabilities.
Proof. solve_decision. Defined.

(** ** Laws *)

Lemma supported_spec v m d :
  supported v m d = true <-> 1 <= v <= 4 /\ 128 <= m <= 8192 /\ 64 <= d <= 65536.
Proof. unfold supported. rewrite !andb_true_iff, !contains_spec. unfold MIN_VCPU, MAX_VCPU,
  MIN_MEMORY_MIB, MAX_MEMORY_MIB, MIN_DISK_MIB, MAX_DISK_MIB. tauto. Qed.

Lemma allowlist_collect_ok acc l s :
  allowlist_collect acc l = Ok s ->
  s = list_to_set l ∪ acc /\ NoDup l /\ Forall (fun d => valid_image_digest d = true) l /\
  Forall (fun d => d ∉ acc) l /\ (l = [] \/ (size s <= 256)%nat).
Proof.
  revert acc. induction l as [|d l IH]; intros acc; cbn.
  - intros [= <-]. split_and!; [set_solver|constructor..|by left].
  - intros Hc. inv_ok. bools. destruct (IH _ Hc) as (-> & Hn & Hv & Ha & Hs).
    rewrite Forall_forall in Ha. split_and!.
    + set_solver.
    + constructor; [|done]. intros Hd. specialize (Ha _ Hd). set_solver.
    + by constructor.
    + constructor; [done|]. rewrite Forall_forall. intros x Hx. specialize (Ha _ Hx). set_solver.
    + right. destruct Hs as [->|Hs]; [|done].
      cbn. rewrite union_empty_l_L, size_union, size_singleton by set_solver. lia.
Qed.

(** A policy is built exactly from a list of between 1 and 256 distinct canonical
    digests, and then allows precisely the digests of that list. *)
Theorem allowlist_exact l p :
  new l = Ok p ->
  l <> [] /\ (length l <= 256)%nat /\ NoDup l /\ Forall (fun d => valid_image_digest d = true) l /\
  forall d, allows p d = true <-> d ∈ l.
Proof.
  unfold new, allows. intros Hn. inv_ok. bools. cbn.
  match goal with H : allowlist_collect _ _ = _ |- _ =>
    destruct (allowlist_collect_ok _ _ _ H) as (-> & Hd & Hv & _ & Hs) end.
  rewrite union_empty_r_L in *. split_and!; [by intros ->| |done..|].
  - destruct Hs as [->|Hs]; [cbn; lia|]. rewrite size_list_to_set in Hs by done. lia.
  - intros d. rewrite bool_decide_eq_true. set_solver.
Qed.

Lemma validate_images_ok lim seen l :
  validate_images lim seen l = Ok tt ->
  NoDup (rootfs_digest <$> l) /\ Forall (fun d => d ∉ seen) (rootfs_digest <$> l) /\
  Forall (fun i => 64 <= minimum_disk_mib i <= lim) l.
Proof.
  revert seen. induction l as [|i l IH]; intros seen; cbn; [intros _; repeat constructor|].
  intros Hv. inv_ok. bools. destruct (IH _ Hv) as (Hn & Hs & Hd). rewrite Forall_forall in Hs.
  match goal with H : contains _ _ _ = true |- _ => apply contains_spec in H end.
  split_and!.
  - constructor; [|done]. intros Hi. specialize (Hs _ Hi). set_solver.
  - constructor; [done|]. rewrite Forall_forall. intros x Hx. specialize (Hs _ Hx). set_solver.
  - by constructor.
Qed.

(** A supported request names exactly one image of the contract, and its size lies
    within the service envelope, the host's limits and the image's minimum disk. *)
Theorem supports_bounds c digest v m d :
  supports c digest v m d = true ->
  1 <= v <= Z.min 4 (vcpu (limits c)) /\
  128 <= m <= Z.min 8192 (memory_mib (limits c)) /\
  exists image, image ∈ images c /\ rootfs_digest image = digest /\
    64 <= minimum_disk_mib image <= d /\ d <= disk_mib (limits c) /\
    forall other, other ∈ images c -> rootfs_digest other = digest -> other = image.
Proof.
  unfold supports. intros Hs. bools. apply is_ok_true in H as [[] Hv].
  match goal with H : supported _ _ _ = true |- _ => apply supported_spec in H end.
  split_and!; [lia..|].
  match goal with H : existsb _ _ = true |- _ => apply existsb_exists in H as (i & Hi & Hd) end.
  bools. apply list_elem_of_In in Hi.
  unfold validate in Hv. apply if_err_ok in Hv as [_ Hv].
  apply validate_images_ok in Hv as (Hn & _ & Hm). rewrite Forall_forall in Hm.
  exists i. split_and!; [done|done|by apply Hm|done|done|].
  intros o Ho Hod. subst. apply list_elem_of_lookup in Ho as [j Hj].
  apply list_elem_of_lookup in Hi as [k Hk].
  assert (j = k) as ->; [|congruence]. eapply NoDup_lookup; [exact Hn| |].
  - rewrite list_lookup_fmap, Hj. cbn. by rewrite Hod.
  - by rewrite list_lookup_fmap, Hk.
Qed.

(** ** A sample host *)

Module Sample.
Definition digest_of (c : string) : string := "sha256:" +:+ String.concat "" (repeat c 64).
Definition sample_capabilities : Capabilities := {|
  version := 1; simulated := true; architecture := "x86_64"; host_kernel_release := "6.1.0";
  kvm_api_version := 12; cgroup_version := 2; supervisor_version := CARGO_PKG_VERSION;
  firecracker_version := "1.17.0"; firecracker_digest := digest_of "1"; jailer_digest := digest_of "2";
  limits := {| vcpu := 2; memory_mib := 1024; disk_mib := 4096 |};
  images := [ {| rootfs_digest := digest_of "a"; kernel_digest := digest_of "b";
                 minimum_disk_mib := 512; guest_version := CARGO_PKG_VERSION;
                 bootstrap_version := 1; guest_protocol_version := 1 |} ]
|}.

Lemma allowlist_exact_witness :
  exists p, new [digest_of "a"; digest_of "b"] = Ok p /\
    (allows p (digest_of "b") = true <-> digest_of "b" ∈ [digest_of "a"; digest_of "b"]).
Proof.
  exists {| entries := {[ digest_of "b"; digest_of "a" ]} |}.
  assert (new [digest_of "a"; digest_of "b"]
          = Ok {| entries := {[ digest_of "b"; digest_of "a" ]} |}) as Hn by (vm_compute; reflexivity).
  split; [exact Hn|].
  destruct (allowlist_exact _ _ Hn) as (_ & _ & _ & _ & H). apply H.
Defined.

Lemma supports_bounds_witness :
  supports sample_capabilities (digest_of "a") 2 1024 512 = true /\ 1 <= 2 <= Z.min 4 2.
Proof.
  assert (supports sample_capabilities (digest_of "a") 2 1024 512 = true) as Hs
    by (vm_compute; reflexivity).
  split; [exact Hs|].
  exact (proj1 (supports_bounds sample_capabilities (digest_of "a") 2 1024 512 Hs)).
Defined.
End Sample.
