(* ===== verification/GuestModel.v ===== *)
(** * Guest command input and receipts (crates/sandbox-protocol/src/guest_model.rs) *)

From S2P Require Import Prelude Ext Ids.

Definition MAX_OUTPUT : Z := 16 * 1024 * 1024.
Definition MAX_RECORDS : Z := 128.
Definition MAX_RESERVED_OUTPUT : Z := 64 * 1024 * 1024.

Record Context : Type := {
  allocation_id : AllocationId;
  generation : Z;
  boot_id : string;
}.
#[export] Instance Context_eq_dec : EqDecision Context.
Proof. solve_decision. Defined.

(** The environment is a [BTreeMap<String, String>]. *)
Record Execute : Type := {
  e_operation_id : OperationId;
  e_argv : list string;
  e_env : gmap string string;
  e_cwd : string;
  e_deadline_unix_ms : Z;
  e_output_limit : Z;
}.
#[export] Instance Execute_eq_dec : EqDecision Execute.
Proof. solve_decision. Defined.

(** The environment's key alphabet: a letter or an underscore, then also digits. *)
Definition env_key_head (b : Ascii.ascii) : bool := is_byte 95 b || is_ascii_alphabetic b.
Definition env_key_tail (b : Ascii.ascii) : bool := env_key_head b || is_ascii_digit b.
Definition env_key (key : string) : bool :=
  match key with
  | EmptyString => false
  | String b rest => env_key_head b && string_forallb env_key_tail rest
  end.

Definition env_size (env : gmap string string) : Z :=
  sum_by (fun kv : string * string => strlen kv.1 + strlen kv.2) (map_to_list env).

Definition starts_with_slash (s : string) : bool :=
  match s with String c _ => is_byte 47 c | EmptyString => false end.

Section execute.
Context `{Serde Execute, Sha256}.

(** [Execute::validate] *)
Definition execute_validate (e : Execute) : result anyhow unit :=
  _ ← ensure ((1 <=? listlen (e_argv e)) && (listlen (e_argv e) <=? 256)) "invalid argv count";
  _ ← ensure (negb (bool_decide (head (e_argv e) = Some ""))) "empty executable";
  _ ← ensure (forallb (fun v => negb (contains_nul v)) (e_argv e)
              && (sum_by strlen (e_argv e) <=? 32768)) "invalid argv";
  _ ← ensure ((Z.of_nat (size (e_env e)) <=? 128) && (env_size (e_env e) <=? 16384))
        "environment too large";
  _ ← for_each (fun kv : string * string =>
        ensure (env_key kv.1 && negb (contains_nul kv.2)) "invalid environment")
        (map_to_list (e_env e));
  _ ← ensure (starts_with_slash (e_cwd e) && (strlen (e_cwd e) <=? 4096)
              && negb (contains_nul (e_cwd e))) "invalid working directory";
  _ ← ensure (contains 1 MAX_OUTPUT (e_output_limit e)) "invalid output limit";
  encoded ← ok_or (to_vec e) "serde_json";
  ensure (strlen encoded <=? 65536) "encoded request too large".

(** [Execute::digest]: the domain separator ends in a zero byte. *)
Definition execute_domain : bytes :=
  "hudson-guest-execute-v1" +:+ String Ascii.zero "".
Definition execute_digest (e : Execute) : result anyhow bytes :=
  encoded ← ok_or (to_vec e) "serde_json";
  Ok (sha256 (execute_domain +:+ encoded)).
End execute.

Inductive State : Type := LaunchIntent | Exited | TimedOut | Cancelled | Unknown.
#[export] Instance State_eq_dec : EqDecision State.
Proof. solve_decision. Defined.

Definition terminal (s : State) : bool := negb (bool_decide (s = LaunchIntent)).

Record Output : Type := { seen : Z; stored : Z; truncated : bool }.
#[export] Instance Output_eq_dec : EqDecision Output.
Proof. solve_decision. Defined.
(** [Output::default()] *)
Definition output_default : Output := {| seen := 0; stored := 0; truncated := false |}.

Record Receipt : Type := {
  r_version : Z;
  r_context : Context;
  r_operation_id : OperationId;
  r_digest : bytes;
  r_state : State;
  r_deadline_unix_ms : Z;
  r_output_limit : Z;
  r_cancel_requested : bool;
  r_cleanup_confirmed : bool;
  r_exit_code : option Z;
  r_signal : option Z;
  r_stdout : Output;
  r_stderr : Output;
  r_reason : option string;
}.
#[export] Instance Receipt_eq_dec : EqDecision Receipt.
Proof. solve_decision. Defined.

(** [Receipt::validate] *)
Definition receipt_validate (r : Receipt) : result anyhow unit :=
  _ ← ensure ((r_version r =? 1) && (0 <? generation (r_context r))
              && negb (bool_decide (boot_id (r_context r) = ""))
              && (strlen (boot_id (r_context r)) <=? 64)) "invalid receipt context";
  _ ← ensure (contains 1 MAX_OUTPUT (r_output_limit r)
              && (stored (r_stdout r) <=? seen (r_stdout r))
              && (stored (r_stderr r) <=? seen (r_stderr r))
              && is_some_and (fun n => n <=? r_output_limit r)
                   (u64_checked_add (stored (r_stdout r)) (stored (r_stderr r)))
              && eqb (truncated (r_stdout r)) (stored (r_stdout r) <? seen (r_stdout r))
              && eqb (truncated (r_stderr r)) (stored (r_stderr r) <? seen (r_stderr r))
              && is_none_or (fun s => strlen s <=? 256) (r_reason r))
        "invalid receipt output or reason";
  _ ← (if bool_decide (r_state r = Exited) then
         _ ← ensure (xorb (is_some (r_exit_code r)) (is_some (r_signal r)))
               "missing or ambiguous exit status";
         ensure (is_none_or (contains 0 255) (r_exit_code r)
                 && is_none_or (contains 1 64) (r_signal r)) "invalid exit status"
       else
         ensure (is_none (r_exit_code r) && is_none (r_signal r)) "unexpected exit status");
  _ ← ensure (negb (bool_decide (r_state r = LaunchIntent)) || negb (r_cleanup_confirmed r))
        "active receipt claims cleanup";
  _ ← ensure (negb (match r_state r with
                    | Exited | TimedOut | Cancelled => true
                    | LaunchIntent | Unknown => false
                    end) || r_cleanup_confirmed r)
        "terminal receipt lacks cleanup";
  ensure (negb (bool_decide (r_state r = Cancelled)) || r_cancel_requested r)
    "cancelled without request".

(** ** Laws *)

(** What a valid receipt says about the process it reports. *)
Record receipt_meaning (r : Receipt) : Prop := {
  meaning_bounds : 0 <= stored (r_stdout r) -> 0 <= stored (r_stderr r) ->
    stored (r_stdout r) + stored (r_stderr r) <= r_output_limit r <= MAX_OUTPUT;
  meaning_exit : r_state r = Exited <->
    (exists code, r_exit_code r = Some code /\ r_signal r = None /\ 0 <= code <= 255) \/
    (exists sig, r_signal r = Some sig /\ r_exit_code r = None /\ 1 <= sig <= 64);
  meaning_cleanup : r_state r <> Unknown -> r_cleanup_confirmed r = terminal (r_state r);
  meaning_cancel : r_state r = Cancelled -> r_cancel_requested r = true;
}.

Lemma receipt_validate_meaning r : receipt_validate r = Ok tt -> receipt_meaning r.
Proof.
  unfold receipt_validate. intros Hv.
  apply bind_ok in Hv as ([] & _ & Hv). apply bind_ok in Hv as ([] & Ho & Hv).
  apply bind_ok in Hv as ([] & He & Hv). apply bind_ok in Hv as ([] & Hl & Hv).
  apply bind_ok in Hv as ([] & Ht & Hc). apply ensure_ok in Ho, Hl, Ht, Hc. bools.
  match goal with H : contains _ _ _ = true |- _ => apply contains_spec in H end.
  destruct (u64_checked_add _ _) as [n|] eqn:Hn; [|done]. apply u64_checked_add_some in Hn as [-> _].
  cbn in *. bools. split.
  - lia.
  - clear Hl Ht Hc. case_bool_decide as Hs; inv_ok; unfold is_none in *; bools.
    + split; [intros _|intros _; exact Hs]. destruct (r_exit_code r), (r_signal r); cbn in *; try done;
        [left|right]; (eexists; split_and!; [done..| |]); unfold contains in *; bools; lia.
    + split; [intros Hx; by destruct (Hs Hx)|]. destruct (r_exit_code r), (r_signal r); cbn in *; naive_solver.
  - destruct (r_state r), (r_cleanup_confirmed r); cbn in *; done.
  - intros Hs. by rewrite bool_decide_eq_true_2 in Hc by done.
Qed.

Lemma execute_validate_env `{Serde Execute} e :
  execute_validate e = Ok tt ->
  map_Forall (fun k v => env_key k = true /\ contains_nul v = false) (e_env e).
Proof.
  unfold execute_validate. intros Hv. inv_ok. bools.
  match goal with H : for_each _ _ = _ |- _ => apply for_each_ok in H; rename H into He end.
  intros k v Hk. rewrite Forall_forall in He.
  apply elem_of_map_to_list in Hk. apply He in Hk. apply ensure_ok in Hk. bools. done.
Qed.
