(* ===== verification/GuestWire.v ===== *)
(** * Strict conversion of guest messages (crates/sandbox-protocol/src/guest_wire.rs)

    The wire types are the prost messages generated from proto/guest.proto: optional
    sub-messages, enumerations as [i32], identifiers and digests as untyped data. *)

From S2P Require Import Prelude Ext Ids GuestModel.

Definition VERSION : Z := 1.
Definition MAX_FRAME : Z := 128 * 1024.
Definition MAX_CHUNK : Z := 32 * 1024.

Module w.
Record Context : Type := { allocation_id : string; generation : Z; boot_id : string }.
Record Execute : Type := {
  operation_id : string; argv : list string; env : gmap string string; cwd : string;
  deadline_unix_ms : Z; output_limit : Z
}.
Record OutputStats : Type := { seen : Z; stored : Z; truncated : bool }.
Record Receipt : Type := {
  version : Z; context : option Context; r_operation_id : string; digest : bytes; state : Z;
  r_deadline_unix_ms : Z; r_output_limit : Z; cancel_requested : bool;
  cleanup_confirmed : bool; exit_code : option Z; signal : option Z;
  stdout : option OutputStats; stderr : option OutputStats; reason : option string
}.
End w.

(** [w::State as i32]; zero is unspecified. *)
Definition state_number (s : State) : Z :=
  match s with LaunchIntent => 1 | Exited => 2 | TimedOut => 3 | Cancelled => 4 | Unknown => 5 end.
(** [w::State::try_from(i32)] followed by the refusal of [Unspecified]. *)
Definition state_of_number (n : Z) : result anyhow State :=
  match n with
  | 0 => Err "unspecified receipt state"
  | 1 => Ok LaunchIntent | 2 => Ok Exited | 3 => Ok TimedOut | 4 => Ok Cancelled | 5 => Ok Unknown
  | _ => Err "unknown enumeration value"
  end.

(** [v.try_into()] from [Vec<u8>] to [[u8; 32]] *)
Definition to_array32 (message : string) (b : bytes) : result anyhow bytes :=
  if strlen b =? 32 then Ok b else Err message.

Definition from_stats (v : Output) : w.OutputStats :=
  {| w.seen := seen v; w.stored := stored v; w.truncated := truncated v |}.
Definition to_stats (v : w.OutputStats) : Output :=
  {| seen := w.seen v; stored := w.stored v; truncated := w.truncated v |}.

Section convert.
Context `{UuidLib}.

Definition from_context (v : Context) : w.Context := {|
  w.allocation_id := to_string (allocation_id v);
  w.generation := generation v;
  w.boot_id := boot_id v
|}.

Definition try_context (v : w.Context) : result anyhow Context :=
  _ ← ensure ((0 <? w.generation v) && (strlen (w.boot_id v) <=? 64)) "invalid guest context";
  id ← map_err (fun _ => "invalid allocation identity") (parse KAllocation (w.allocation_id v));
  Ok {| allocation_id := id; generation := w.generation v; boot_id := w.boot_id v |}.

Definition from_execute (v : Execute) : w.Execute := {|
  w.operation_id := to_string (e_operation_id v);
  w.argv := e_argv v; w.env := e_env v; w.cwd := e_cwd v;
  w.deadline_unix_ms := e_deadline_unix_ms v; w.output_limit := e_output_limit v
|}.

Definition try_execute `{Serde Execute} (v : w.Execute) : result anyhow Execute :=
  id ← map_err (fun _ => "invalid operation identity") (parse KOperation (w.operation_id v));
  let e := {|
    e_operation_id := id;
    e_argv := w.argv v; e_env := w.env v; e_cwd := w.cwd v;
    e_deadline_unix_ms := w.deadline_unix_ms v; e_output_limit := w.output_limit v
  |} in
  _ ← execute_validate e;
  Ok e.

Definition from_receipt (v : Receipt) : w.Receipt := {|
  w.version := r_version v;
  w.context := Some (from_context (r_context v));
  w.r_operation_id := to_string (r_operation_id v);
  w.digest := r_digest v;
  w.state := state_number (r_state v);
  w.r_deadline_unix_ms := r_deadline_unix_ms v;
  w.r_output_limit := r_output_limit v;
  w.cancel_requested := r_cancel_requested v;
  w.cleanup_confirmed := r_cleanup_confirmed v;
  w.exit_code := r_exit_code v;
  w.signal := r_signal v;
  w.stdout := Some (from_stats (r_stdout v));
  w.stderr := Some (from_stats (r_stderr v));
  w.reason := r_reason v
|}.

Definition try_receipt (v : w.Receipt) : result anyhow Receipt :=
  c ← ok_or (w.context v) "missing receipt context";
  context ← try_context c;
  id ← map_err (fun _ => "invalid operation identity") (parse KOperation (w.r_operation_id v));
  digest ← to_array32 "invalid receipt digest" (w.digest v);
  state ← state_of_number (w.state v);
  out ← ok_or (w.stdout v) "missing stdout stats";
  err ← ok_or (w.stderr v) "missing stderr stats";
  let r := {|
    r_version := w.version v;
    r_context := context;
    r_operation_id := id;
    r_digest := digest;
    r_state := state;
    r_deadline_unix_ms := w.r_deadline_unix_ms v;
    r_output_limit := w.r_output_limit v;
    r_cancel_requested := w.cancel_requested v;
    r_cleanup_confirmed := w.cleanup_confirmed v;
    r_exit_code := w.exit_code v;
    r_signal := w.signal v;
    r_stdout := to_stats out;
    r_stderr := to_stats err;
    r_reason := w.reason v
  |} in
  _ ← receipt_validate r;
  Ok r.
End convert.

(** ** Laws *)

Lemma state_number_ok n s : state_of_number n = Ok s <-> n = state_number s.
Proof.
  split; [|intros ->; by destruct s]. unfold state_of_number.
  repeat case_match; intros [= <-]; done.
Qed.

Lemma to_array32_ok m b d : to_array32 m b = Ok d <-> b = d /\ strlen d = 32.
Proof. unfold to_array32. destruct (Z.eqb_spec (strlen b) 32); naive_solver. Qed.

Lemma to_from_stats v : to_stats (from_stats v) = v.
Proof. by destruct v. Qed.
Lemma from_to_stats v : from_stats (to_stats v) = v.
Proof. by destruct v. Qed.

Section laws.
Context `{UuidLaws}.

Lemma try_context_ok v c :
  try_context v = Ok c <->
  v = from_context c /\ canonical (allocation_id c) = true /\ 0 < generation c /\
  strlen (boot_id c) <= 64.
Proof.
  unfold try_context, from_context. split.
  - intros Hv. inv_ok. bools.
    match goal with H : parse _ _ = _ |- _ => apply parse_ok in H as [? ?] end.
    split_and!; [|done..]. destruct v; cbn in *. by f_equal.
  - intros (-> & Hc & Hg & Hb). cbn.
    rewrite (proj2 (Z.ltb_lt _ _) Hg), (proj2 (Z.leb_le _ _) Hb), parse_to_string by done.
    by destruct c.
Qed.

(** Conversion from the wire is exact: a guest receipt is accepted if and only if it
    is the encoding of a valid receipt, and then yields that receipt. In particular the
    round trip loses nothing and no two wire messages denote one receipt. *)
Theorem receipt_wire_exact v r :
  try_receipt v = Ok r <->
  v = from_receipt r /\ receipt_validate r = Ok tt /\
  canonical (r_operation_id r) = true /\ canonical (allocation_id (r_context r)) = true /\
  strlen (r_digest r) = 32.
Proof.
  unfold try_receipt. split.
  - intros Hv. inv_ok.
    repeat match goal with
    | H : parse _ _ = _ |- _ => apply parse_ok in H as [? ?]
    | H : try_context _ = _ |- _ => apply try_context_ok in H as (? & ? & _)
    | H : to_array32 _ _ = _ |- _ => apply to_array32_ok in H as [? ?]
    | H : state_of_number _ = _ |- _ => apply state_number_ok in H
    end.
    split_and!; [|done..]. destruct v; cbn in *. unfold from_receipt. cbn.
    rewrite !from_to_stats. congruence.
  - intros (-> & Hv & Ho & Ha & Hd). cbn.
    assert (try_context (from_context (r_context r)) = Ok (r_context r)) as ->.
    { apply try_context_ok. split_and!; [done..| |];
        unfold receipt_validate in Hv; inv_ok; bools; done. }
    cbn. rewrite parse_to_string by done. cbn.
    rewrite (proj2 (to_array32_ok _ _ (r_digest r)) (conj eq_refl Hd)). cbn.
    rewrite (proj2 (state_number_ok _ (r_state r)) eq_refl). cbn.
    rewrite !to_from_stats. destruct r; cbn in *. by rewrite Hv.
Qed.

Lemma execute_wire_exact `{Serde Execute} v e :
  try_execute v = Ok e <->
  v = from_execute e /\ execute_validate e = Ok tt /\ canonical (e_operation_id e) = true.
Proof.
  unfold try_execute. split.
  - intros Hv. inv_ok.
    match goal with H : parse _ _ = _ |- _ => apply parse_ok in H as [? ?] end.
    split_and!; [|done..]. destruct v; cbn in *. unfold from_execute. cbn. congruence.
  - intros (-> & Hv & Ho). cbn. rewrite parse_to_string by done. destruct e; cbn in *.
    by rewrite Hv.
Qed.
End laws.

(** ** A sample receipt *)

Module Sample.
Import Ref.

Definition sample_receipt : Receipt := {|
  r_version := 1;
  r_context := {| allocation_id := sample_id 1; generation := 1; boot_id := "boot" |};
  r_operation_id := sample_id 2; r_digest := sha256 "argv"; r_state := Exited;
  r_deadline_unix_ms := 1000; r_output_limit := 64; r_cancel_requested := false;
  r_cleanup_confirmed := true; r_exit_code := Some 0; r_signal := None;
  r_stdout := {| seen := 100; stored := 64; truncated := true |};
  r_stderr := output_default; r_reason := None
|}.

Lemma receipt_wire_exact_witness : try_receipt (from_receipt sample_receipt) = Ok sample_receipt.
Proof.
  apply receipt_wire_exact. split_and!; vm_compute; reflexivity.
Defined.
End Sample.
