(* ===== verification/History.v ===== *)
(** * Guest-local retirement barriers (crates/sandbox-protocol/src/history.rs) *)

From S2P Require Import Prelude Ext Ids GuestModel GuestWire.

Inductive Domain : Type := Commands | Files.
#[export] Instance Domain_eq_dec : EqDecision Domain.
Proof. solve_decision. Defined.

(** A closed inclusive prefix of the identifier order. *)
Record Barrier : Type := {
  version : Z;
  context : Context;
  domain : Domain;
  through : OperationId;
}.
#[export] Instance Barrier_eq_dec : EqDecision Barrier.
Proof. solve_decision. Defined.

(** [enum Binding], untagged: an old context file, or a context replaced by its barrier. *)
Inductive Binding : Type :=
| Legacy (c : Context)
| Retired (b : Barrier).

Record wBarrier : Type := {
  w_version : Z;
  w_context : option w.Context;
  w_domain : Z;
  w_through : string;
}.

(** [guest::HistoryDomain] *)
Definition domain_number (d : Domain) : Z := match d with Commands => 1 | Files => 2 end.
Definition domain_of_number (n : Z) : result anyhow Domain :=
  match n with
  | 0 => Err "unspecified history domain"
  | 1 => Ok Commands
  | 2 => Ok Files
  | _ => Err "unknown enumeration value"
  end.

Section barrier.
Context `{UuidLib}.

Definition valid_identity (id : OperationId) : bool :=
  (get_version_num (uuid id) =? 7)%N && is_rfc4122 (uuid id).

(** [Barrier::validate] *)
Definition barrier_validate (b : Barrier) (c : Context) (d : Domain) : result anyhow unit :=
  _ ← ensure ((version b =? 1) && bool_decide (domain b = d) && bool_decide (context b = c))
        "history barrier ownership mismatch";
  _ ← ensure ((0 <? generation c) && negb (bool_decide (boot_id c = ""))
              && (strlen (boot_id c) <=? 64)) "invalid history context";
  ensure (valid_identity (through b)) "invalid history barrier identity".

(** [Barrier::covers] *)
Definition covers (b : Barrier) (id : OperationId) : bool := id_leb id (through b).

(** [Binding::validate] *)
Definition binding_validate (b : Binding) (expected : Context) (d : Domain)
    : result anyhow (option Barrier) :=
  match b with
  | Legacy c =>
      _ ← ensure (bool_decide (c = expected)) "retained context mismatch";
      Ok None
  | Retired barrier =>
      _ ← barrier_validate barrier expected d;
      Ok (Some barrier)
  end.

Definition try_barrier (v : wBarrier) : result anyhow Barrier :=
  d ← domain_of_number (w_domain v);
  wc ← ok_or (w_context v) "missing history context";
  c ← try_context wc;
  id ← map_err (fun _ => "invalid operation identity") (parse KOperation (w_through v));
  let barrier := {| version := w_version v; context := c; domain := d; through := id |} in
  _ ← barrier_validate barrier (context barrier) d;
  Ok barrier.

Definition from_barrier (b : Barrier) : wBarrier := {|
  w_version := version b;
  w_context := Some (from_context (context b));
  w_domain := domain_number (domain b);
  w_through := to_string (through b)
|}.

(** [advance_operation_id]: the 122 bits of an RFC 4122 version 7 identifier that are
    not its version or its variant, as one number, incremented. *)
Definition low_mask : N := (N.shiftl 1 62 - 1)%N.
Definition rank (value : N) : N :=
  N.lor (N.lor (N.shiftl (N.shiftr value 80) 74)
               (N.shiftl (N.land (N.shiftr value 64) 4095) 62))
        (N.land value low_mask).
Definition unrank (next : N) : N :=
  N.lor (N.lor (N.lor (N.lor (N.shiftl (N.shiftr next 74) 80) (N.shiftl 7 76))
                      (N.shiftl (N.land (N.shiftr next 62) 4095) 64))
               (N.shiftl 2 62))
        (N.land next low_mask).

Definition advance_operation_id (candidate : OperationId) (floor : option OperationId)
    : result anyhow OperationId :=
  _ ← for_each (fun id => ensure (valid_identity id) "invalid admission identity")
        (candidate :: match floor with Some f => [f] | None => [] end);
  match floor with
  | Some f =>
      if id_leb candidate f then
        let next := (rank (uuid f) + 1)%N in
        _ ← ensure (next <? N.shiftl 1 122)%N "operation identity space exhausted";
        Ok (from_uuid (unrank next))
      else Ok candidate
  | None => Ok candidate
  end.
End barrier.

(** ** The identifier order *)

Section arithmetic.
Local Open Scope N_scope.

Lemma lor_shift_add a b k : b < 2 ^ k -> N.lor (N.shiftl a k) b = a * 2 ^ k + b.
Proof.
  intros Hb. rewrite <- N.shiftl_mul_pow2, N.add_nocarry_lxor, N.lxor_lor; [done|..];
    apply N.bits_inj; intros n; rewrite N.land_spec, N.bits_0;
    (destruct (N.lt_ge_cases n k);
      [rewrite N.shiftl_spec_low by done; done
      |replace (N.testbit b n) with false; [apply andb_false_r|];
       symmetry; destruct (N.eq_dec b 0) as [->|]; [apply N.bits_0|];
       apply N.bits_above_log2; apply N.lt_le_trans with k; [|done];
       apply N.log2_lt_pow2; lia]).
Qed.

Lemma land_mask v k : N.land v (N.shiftl 1 k - 1) = v mod 2 ^ k.
Proof.
  replace (N.shiftl 1 k - 1) with (N.ones k); [apply N.land_ones|].
  rewrite N.ones_equiv, N.shiftl_1_l. symmetry. apply N.sub_1_r.
Qed.

(** An identifier decomposes into time, version, sequence, variant and randomness. *)
Definition assemble (a b c : N) : N := a * 2 ^ 80 + (7 * 2 ^ 76 + (b * 2 ^ 64 + (2 * 2 ^ 62 + c))).

Lemma rank_assemble a b c :
  b < 2 ^ 12 -> c < 2 ^ 62 -> rank (assemble a b c) = a * 2 ^ 74 + (b * 2 ^ 62 + c).
Proof.
  intros Hb Hc. unfold rank, low_mask. rewrite land_mask.
  rewrite (land_mask (N.shiftr (assemble a b c) 64) 12 : N.land _ 4095 = _).
  rewrite !N.shiftr_div_pow2, <- N.lor_assoc.
  assert (assemble a b c / 2 ^ 80 = a) as ->.
  { symmetry. apply (N.div_unique _ _ _ (7 * 2 ^ 76 + (b * 2 ^ 64 + (2 * 2 ^ 62 + c))));
      unfold assemble; lia. }
  assert ((assemble a b c / 2 ^ 64) mod 2 ^ 12 = b) as ->.
  { symmetry. apply (N.mod_unique _ _ (a * 2 ^ 4 + 7)); [done|].
    symmetry. apply (N.div_unique _ _ _ (2 * 2 ^ 62 + c)); unfold assemble; lia. }
  assert (assemble a b c mod 2 ^ 62 = c) as ->.
  { symmetry. apply (N.mod_unique _ _ (a * 2 ^ 18 + 7 * 2 ^ 14 + b * 2 ^ 2 + 2)); [done|].
    unfold assemble. lia. }
  rewrite (lor_shift_add b c 62) by done. apply lor_shift_add. lia.
Qed.

Lemma unrank_assemble a b c :
  b < 2 ^ 12 -> c < 2 ^ 62 -> unrank (a * 2 ^ 74 + (b * 2 ^ 62 + c)) = assemble a b c.
Proof.
  intros Hb Hc. set (r := a * 2 ^ 74 + (b * 2 ^ 62 + c)). unfold unrank, low_mask.
  rewrite land_mask, (land_mask (N.shiftr r 62) 12 : N.land _ 4095 = _), !N.shiftr_div_pow2.
  assert (r / 2 ^ 74 = a) as ->.
  { symmetry. apply (N.div_unique _ _ _ (b * 2 ^ 62 + c)); subst r; lia. }
  assert ((r / 2 ^ 62) mod 2 ^ 12 = b) as ->.
  { symmetry. apply (N.mod_unique _ _ a); [done|]. symmetry.
    apply (N.div_unique _ _ _ c); subst r; lia. }
  assert (r mod 2 ^ 62 = c) as ->.
  { symmetry. apply (N.mod_unique _ _ (a * 2 ^ 12 + b)); [done|]. subst r. lia. }
  rewrite <- !N.lor_assoc, (lor_shift_add 2 c 62) by done.
  rewrite (lor_shift_add b _ 64) by lia. rewrite (lor_shift_add 7 _ 76) by lia.
  by rewrite (lor_shift_add a _ 80) by lia.
Qed.

Lemma rank_split n :
  exists a b c, n = a * 2 ^ 74 + (b * 2 ^ 62 + c) /\ b < 2 ^ 12 /\ c < 2 ^ 62.
Proof.
  exists (n / 2 ^ 74), ((n / 2 ^ 62) mod 2 ^ 12), (n mod 2 ^ 62).
  split_and!; [|by apply N.mod_lt..].
  assert (n / 2 ^ 74 = n / 2 ^ 62 / 2 ^ 12) as ->.
  { rewrite N.Div0.div_div. done. }
  pose proof (N.div_mod (n / 2 ^ 62) (2 ^ 12)). pose proof (N.div_mod n (2 ^ 62)). lia.
Qed.
End arithmetic.

Section laws.
Context `{UuidLaws}.

Lemma valid_identity_assemble (id : OperationId) :
  valid_identity id = true <->
  exists a b c, uuid id = assemble a b c /\ (b < 2 ^ 12)%N /\ (c < 2 ^ 62)%N.
Proof.
  unfold valid_identity. rewrite version_bits, variant_bits, andb_true_iff, !N.eqb_eq.
  set (u := uuid id).
  rewrite (land_mask (N.shiftr u 76) 4 : N.land _ 15 = _),
    (land_mask (N.shiftr u 62) 2 : N.land _ 3 = _), !N.shiftr_div_pow2.
  split.
  - intros [H7 H2].
    exists (u / 2 ^ 80)%N, ((u / 2 ^ 64) mod 2 ^ 12)%N, (u mod 2 ^ 62)%N.
    split_and!; [|by apply N.mod_lt..]. unfold assemble.
    assert (u / 2 ^ 80 = u / 2 ^ 76 / 2 ^ 4)%N as -> by (by rewrite N.Div0.div_div).
    assert (u / 2 ^ 76 = u / 2 ^ 64 / 2 ^ 12)%N as Ha by (by rewrite N.Div0.div_div).
    assert (u / 2 ^ 64 = u / 2 ^ 62 / 2 ^ 2)%N as Hb by (by rewrite N.Div0.div_div).
    pose proof (N.div_mod (u / 2 ^ 76) (2 ^ 4)). pose proof (N.div_mod (u / 2 ^ 64) (2 ^ 12)).
    pose proof (N.div_mod (u / 2 ^ 62) (2 ^ 2)). pose proof (N.div_mod u (2 ^ 62)). lia.
  - intros (a & b & c & Hu & Hb & Hc). rewrite Hu. unfold assemble. split; symmetry.
    + apply (N.mod_unique _ _ a); [done|]. symmetry.
      apply (N.div_unique _ _ _ (b * 2 ^ 64 + (2 * 2 ^ 62 + c))); lia.
    + apply (N.mod_unique _ _ (a * 2 ^ 16 + 7 * 2 ^ 12 + b)); [done|]. symmetry.
      apply (N.div_unique _ _ _ c); lia.
Qed.

(** The rank is an order embedding with inverse [unrank]. *)
Lemma rank_lt (f g : OperationId) :
  valid_identity f = true -> valid_identity g = true ->
  (rank (uuid f) < rank (uuid g) <-> uuid f < uuid g)%N.
Proof.
  intros (a & b & c & -> & Hb & Hc)%valid_identity_assemble
         (a' & b' & c' & -> & Hb' & Hc')%valid_identity_assemble.
  rewrite !rank_assemble by done. unfold assemble. lia.
Qed.

Lemma unrank_valid n :
  valid_identity (from_uuid (unrank n)) = true /\ rank (unrank n) = n /\
  ((n < 2 ^ 122) -> unrank n < U128)%N.
Proof.
  destruct (rank_split n) as (a & b & c & -> & Hb & Hc).
  rewrite unrank_assemble, rank_assemble by done. split_and!; [|done|].
  - apply valid_identity_assemble. cbn. eauto 10.
  - unfold assemble, U128. lia.
Qed.

(** The identity minted above a durable floor is the candidate if that is newer, and
    otherwise the very next version 7 identity: valid, strictly above the floor, with no
    valid identity skipped. The call fails only on an invalid input or when the floor is
    the last identity of the space. *)
Theorem advance_operation_id_next candidate floor :
  match advance_operation_id candidate floor with
  | Ok id =>
      valid_identity id = true /\
      match floor with
      | None => id = candidate
      | Some f =>
          id_ltb f id = true /\
          (id = candidate \/
           id_leb candidate f = true /\
           forall other, valid_identity other = true -> id_ltb f other = true ->
                         id_leb id other = true)
      end
  | Err _ =>
      valid_identity candidate = false \/
      exists f, floor = Some f /\
        (valid_identity f = false \/
         id_leb candidate f = true /\ (rank (uuid f) = 2 ^ 122 - 1 \/ U128 <= uuid f)%N)
  end.
Proof.
  unfold advance_operation_id, id_leb, id_ltb. cbn [for_each].
  destruct (valid_identity candidate) eqn:Hc; cbn; [|by left].
  destruct floor as [f|]; cbn; [|done].
  destruct (valid_identity f) eqn:Hf; cbn; [|right; exists f; by auto].
  destruct (N.leb_spec (uuid candidate) (uuid f)) as [Hle|Hgt]; cbn.
  - change (N.shiftl 1 122) with (2 ^ 122)%N.
    destruct (N.ltb_spec (rank (uuid f) + 1) (2 ^ 122)) as [Hn|Hn]; cbn.
    + destruct (unrank_valid (rank (uuid f) + 1)) as (Hv & Hr & _). split; [done|].
      pose proof (rank_lt f (from_uuid (unrank (rank (uuid f) + 1))) Hf Hv) as Hlt.
      cbn [uuid] in *. rewrite Hr in Hlt. split; [apply N.ltb_lt, Hlt; lia|].
      right. split; [done|]. intros o Ho Hfo%N.ltb_lt. apply N.leb_le.
      apply (rank_lt _ _ Hf Ho) in Hfo. apply N.le_ngt. intros Hx.
      pose proof (proj2 (rank_lt o (from_uuid (unrank (rank (uuid f) + 1))) Ho Hv) Hx) as Hy.
      cbn [uuid] in Hy. lia.
    + right. exists f. split; [done|]. right. split; [by apply N.leb_le|].
      apply valid_identity_assemble in Hf as (a & b & c & Hu & Hb & Hcc).
      rewrite Hu in *. rewrite rank_assemble in * by done. unfold assemble, U128 in *. lia.
  - split; [done|]. split; [by apply N.ltb_lt|by left].
Qed.

Lemma barrier_wire_exact v b :
  try_barrier v = Ok b <->
  v = from_barrier b /\ barrier_validate b (context b) (domain b) = Ok tt /\
  canonical (through b) = true /\ canonical (allocation_id (context b)) = true.
Proof.
  unfold try_barrier. split.
  - intros Hv. inv_ok.
    repeat match goal with
    | H : parse _ _ = _ |- _ => apply parse_ok in H as [? ?]
    | H : try_context _ = _ |- _ => apply try_context_ok in H as (? & ? & _)
    end.
    split_and!; [|done..]. destruct v as [? ? d ?]; cbn in *. unfold from_barrier. cbn.
    match goal with H : domain_of_number d = Ok ?x |- _ =>
      assert (d = domain_number x) as ->
        by (unfold domain_of_number in H; repeat case_match; by inv_ok) end.
    congruence.
  - intros (-> & Hv & Ht & Ha). cbn.
    assert (domain_of_number (domain_number (domain b)) = Ok (domain b)) as ->
      by (by destruct (domain b)).
    cbn. assert (try_context (from_context (context b)) = Ok (context b)) as ->.
    { apply try_context_ok. split_and!; [done..| |];
        unfold barrier_validate in Hv; inv_ok; bools; done. }
    cbn. rewrite parse_to_string by done. destruct b; cbn in *. by rewrite Hv.
Qed.
End laws.

(** ** The identity after a floor *)

Module Sample.
Import Ref.

Lemma advance_operation_id_next_witness :
  exists id, advance_operation_id (sample_id 3) (Some (sample_id 9)) = Ok id /\
    (forall other, valid_identity other = true -> id_ltb (sample_id 9) other = true ->
                   id_leb id other = true).
Proof.
  pose proof (advance_operation_id_next (sample_id 3) (Some (sample_id 9))) as H.
  exists (sample_id 10). split; [vm_compute; reflexivity|].
  destruct (advance_operation_id (sample_id 3) (Some (sample_id 9))) as [id|e] eqn:He;
    vm_compute in He; [|discriminate].
  injection He as <-. destruct H as (_ & _ & [Hd|[_ H]]); [vm_compute in Hd; discriminate|exact H].
Defined.
End Sample.
