(* ===== verification/Wire.v ===== *)
(** * Supervisor messages

    The prost messages of proto/supervisor.proto that the supervisor's operations read and
    write. Identifiers arrive as untyped strings; enumerations are given as their variants. *)

From S2P Require Import Prelude GuestModel GuestWire.

Record Ownership : Type := {
  o_host_id : string;
  o_project_id : string;
  o_sandbox_id : string;
  o_allocation_id : string;
  o_operation_id : string;
  o_generation : Z;
  o_supervisor_epoch : Z;
  o_claim_revision : Z;
  o_claim_expires_unix_ms : Z;
}.
#[export] Instance Ownership_eq_dec : EqDecision Ownership.
Proof. solve_decision. Defined.

Record LeaseOwnership : Type := {
  l_host_id : string;
  l_project_id : string;
  l_sandbox_id : string;
  l_allocation_id : string;
  l_generation : Z;
  l_supervisor_epoch : Z;
  l_revision : Z;
  l_claim_expires_unix_ms : Z;
}.
#[export] Instance LeaseOwnership_eq_dec : EqDecision LeaseOwnership.
Proof. solve_decision. Defined.

Record wResources : Type := { res_vcpu : Z; res_memory_mib : Z; res_disk_mib : Z }.
#[export] Instance wResources_eq_dec : EqDecision wResources.
Proof. solve_decision. Defined.

Record CreateRequest : Type := {
  c_launch_permit_json : bytes;
  c_ownership : option Ownership;
  c_image_digest : string;
  c_resources : option wResources;
  c_allocation_expires_unix_ms : Z;
}.
#[export] Instance CreateRequest_eq_dec : EqDecision CreateRequest.
Proof. solve_decision. Defined.

Inductive AllocationState : Type := Absent | Ready | Released | FencedAbsent.
#[export] Instance AllocationState_eq_dec : EqDecision AllocationState.
Proof. solve_decision. Defined.

Record Observation : Type := {
  ob_ownership : option Ownership;
  ob_state : AllocationState;
  ob_simulated : bool;
  ob_start_count : Z;
  ob_create_operation_id : string;
  ob_observed_unix_ms : Z;
  ob_reason : string;
}.

Record LeaseObservation : Type := {
  lo_ownership : option LeaseOwnership;
  lo_state : AllocationState;
  lo_simulated : bool;
  lo_allocation_expires_unix_ms : Z;
  lo_observed_unix_ms : Z;
}.

Record CommandRequest : Type := {
  cr_ownership : option Ownership;
  cr_command : option w.Execute;
}.
Record CommandInspection : Type := {
  ci_ownership : option Ownership;
  ci_command_digest : bytes;
}.
Record CommandObservation : Type := {
  co_ownership : option Ownership;
  co_simulated : bool;
  co_observed_unix_ms : Z;
  co_command_digest : bytes;
  co_receipt : option w.Receipt;
  co_not_started : bool;
}.

Record AllocationAuthorityRequest : Type := {
  ar_host_id : string;
  ar_reporting_epoch : Z;
  ar_permits_json : bytes;
}.
Record AllocationAuthorityObservation : Type := {
  ao_host_id : string;
  ao_reporting_epoch : Z;
  ao_registered_through : Z;
}.

(** [tonic::Status]: a code and a message. *)
Inductive Code : Type :=
| InvalidArgument | NotFound | AlreadyExists | PermissionDenied | ResourceExhausted
| FailedPrecondition | Unimplemented | Internal | Unavailable.
#[export] Instance Code_eq_dec : EqDecision Code.
Proof. solve_decision. Defined.
Record Status : Type := status { code : Code; message : string }.
#[export] Instance Status_eq_dec : EqDecision Status.
Proof. solve_decision. Defined.

Definition invalid_argument := status InvalidArgument.
Definition already_exists := status AlreadyExists.
Definition permission_denied := status PermissionDenied.
Definition resource_exhausted := status ResourceExhausted.
Definition failed_precondition := status FailedPrecondition.
Definition unavailable := status Unavailable.
