(* ===== verification/Command.v ===== *)
(** * Normalised commands and host-owned command evidence
    (crates/sandbox-protocol/src/command.rs, with [CommandInput] of api.rs) *)

From S2P Require Import Prelude Ext Ids GuestModel GuestWire Wire.

Definition MAX_OUTPUT : Z := 10 * 1024 * 1024.
Definition MAX_DURATION_MS : Z := 6 * 60 * 60 * 1000.
Definition MAX_COMMANDS : Z := 32.

Record CommandInput : Type := {
  argv : list string;
  env : gmap string string;
  cwd : string;
  deadline_unix_ms : Z;
  output_limit : Z;
  expected_generation : option Z;
}.

(** The serde defaults of omitted fields. *)
Definition command_input_env_default : gmap string string := ∅.
Definition command_input_cwd_default : string := "/".
Definition command_input_output_limit_default : Z := 1048576.

Definition for_operation (c : CommandInput) (operation_id : OperationId) : Execute := {|
  e_operation_id := operation_id;
  e_argv := argv c;
  e_env := env c;
  e_cwd := cwd c;
  e_deadline_unix_ms := deadline_unix_ms c;
  e_output_limit := output_limit c
|}.

(** [CommandRecord] *)
Record CommandRecord : Type := {
  digest : bytes;
  context : option Context;
  cmd_deadline_unix_ms : Z;
  cmd_output_limit : Z;
  not_started : bool;
  receipt : option Receipt;
}.
#[export] Instance CommandRecord_eq_dec : EqDecision CommandRecord.
Proof. solve_decision. Defined.

Definition fenced (digest : bytes) : CommandRecord := {|
  digest := digest; context := None; cmd_deadline_unix_ms := 0; cmd_output_limit := 0;
  not_started := true; receipt := None
|}.

Definition with_receipt (c : CommandRecord) (r : option Receipt) : CommandRecord := {|
  digest := digest c; context := context c; cmd_deadline_unix_ms := cmd_deadline_unix_ms c;
  cmd_output_limit := cmd_output_limit c; not_started := not_started c; receipt := r
|}.

Definition finished (c : CommandRecord) : bool :=
  not_started c
  || is_some_and (fun r => r_cleanup_confirmed r
                           && match r_state r with
                              | Exited | TimedOut | Cancelled => true
                              | LaunchIntent | Unknown => false
                              end) (receipt c).

Definition validate_receipt (c : CommandRecord) (id : OperationId) (r : Receipt)
    : result anyhow unit :=
  _ ← receipt_validate r;
  ensure (negb (not_started c)
          && bool_decide (r_operation_id r = id)
          && bool_decide (context c = Some (r_context r))
          && bool_decide (digest c = r_digest r)
          && (cmd_deadline_unix_ms c =? r_deadline_unix_ms r)
          && (cmd_output_limit c =? r_output_limit r))
    "command receipt does not match retained intent".

Section command.
Context `{Serde Execute, Sha256, UuidLib}.

(** [CommandInput::validate]; [generated] is the throwaway [OperationId::generate()]. *)
Definition validate (c : CommandInput) (generated : OperationId) : result anyhow unit :=
  _ ← ensure (is_none_or (fun g => 0 <? g) (expected_generation c))
        "expected generation must be positive";
  _ ← ensure (output_limit c <=? MAX_OUTPUT) "output limit exceeds public cap";
  execute_validate (for_operation c generated).

Definition pending (command : Execute) (c : Context) : result anyhow CommandRecord :=
  d ← execute_digest command;
  Ok {| digest := d; context := Some c;
        cmd_deadline_unix_ms := e_deadline_unix_ms command;
        cmd_output_limit := e_output_limit command;
        not_started := false; receipt := None |}.

Definition observation (c : CommandRecord) (owner : Ownership) (simulated : bool) (now : Z)
    : CommandObservation := {|
  co_ownership := Some owner;
  co_simulated := simulated;
  co_observed_unix_ms := now;
  co_command_digest := digest c;
  co_receipt := from_receipt <$> receipt c;
  co_not_started := not_started c
|}.
End command.

(** ** The shape retained in a journal *)

(** What [journal::open] demands of a retained command: a fence carries no evidence; a
    dispatched command names its guest, and its receipt answers that very intent. *)
Definition record_ok (id : OperationId) (c : CommandRecord) : Prop :=
  if not_started c
  then context c = None /\ receipt c = None /\ cmd_output_limit c = 0 /\ cmd_deadline_unix_ms c = 0
  else match receipt c with
       | Some r => validate_receipt c id r = Ok tt
       | None => True
       end.

Lemma fenced_ok id d : record_ok id (fenced d).
Proof. done. Qed.

Lemma validate_receipt_with c id r :
  validate_receipt c id r = Ok tt -> record_ok id (with_receipt c (Some r)).
Proof.
  unfold record_ok, validate_receipt. intros Hv. inv_ok. bools. cbn.
  destruct (not_started c) eqn:Hn; [done|]. cbn.
  match goal with H : receipt_validate r = _ |- _ => rewrite H end. cbn.
  rewrite !bool_decide_eq_true_2 by done. by rewrite !(proj2 (Z.eqb_eq _ _)) by done.
Qed.

(** A finished command that was dispatched has a receipt of a stopped process. *)
Lemma finished_receipt id c :
  record_ok id c -> finished c = true -> not_started c = false ->
  exists r, receipt c = Some r /\ receipt_meaning r /\ r_cleanup_confirmed r = true /\
            terminal (r_state r) = true.
Proof.
  unfold record_ok, finished. intros Hr Hf Hn. rewrite Hn in *. cbn in Hf.
  destruct (receipt c) as [r|]; [|done]. cbn in Hf. bools. exists r.
  unfold validate_receipt in Hr. apply bind_ok in Hr as ([] & Hv & _).
  split_and!; [done|by apply receipt_validate_meaning|done|]. by destruct (r_state r).
Qed.
