(* ===== verification/Files.v ===== *)
(** * File transfer descriptors and host-owned file evidence
    (files.rs and supervisor_files.rs of crates/sandbox-protocol/src) *)

From S2P Require Import Prelude Ext Ids GuestModel GuestWire.

(** ** files.rs *)

Definition MAX_FILE_BYTES : Z := 8 * 1024 * 1024.
Definition MAX_CHUNK_BYTES : Z := 32 * 1024.
Definition MAX_TRANSFERS : Z := 128.
Definition MAX_RESERVED_BYTES : Z := 64 * 1024 * 1024.
Definition STATE_DIRECTORY : string := ".hudson-transfers".

Definition path_component (p : string) : bool :=
  negb (bool_decide (p = "")) && negb (bool_decide (p = ".")) && negb (bool_decide (p = ".."))
  && (strlen p <=? 255).

Definition validate_path (path : string) : result anyhow unit :=
  _ ← ensure (negb (bool_decide (path = "")) && (strlen path <=? 4096)) "invalid file path length";
  ensure (negb (string_existsb (fun b => byte_in 0 31 b || is_byte 127 b || is_byte 92 b) path)
          && forallb path_component (split "/" path)
          && negb (bool_decide (head (split "/" path) = Some STATE_DIRECTORY)))
    "invalid workspace-relative file path".

Record Upload : Type := {
  u_operation_id : OperationId;
  u_path : string;
  u_size : Z;
  u_sha256 : bytes;
  u_mode : Z;
}.
#[export] Instance Upload_eq_dec : EqDecision Upload.
Proof. solve_decision. Defined.

(** [0o644] and [0o755] *)
Definition MODE_ORDINARY : Z := 420.
Definition MODE_EXECUTABLE : Z := 493.

Definition upload_validate (u : Upload) : result anyhow unit :=
  _ ← validate_path (u_path u);
  _ ← ensure (u_size u <=? MAX_FILE_BYTES) "file exceeds transfer limit";
  ensure ((u_mode u =? MODE_ORDINARY) || (u_mode u =? MODE_EXECUTABLE)) "invalid file mode".

Definition upload_domain : bytes := "hudson-file-upload-v1" +:+ String Ascii.zero "".

Definition upload_digest `{Serde Upload, Sha256} (u : Upload) : result anyhow bytes :=
  _ ← upload_validate u;
  encoded ← ok_or (to_vec u) "serde_json";
  Ok (sha256 (upload_domain +:+ encoded)).

Inductive State : Type := Staging | CommitIntent | Committed | Unknown | Aborted.
#[export] Instance State_eq_dec : EqDecision State.
Proof. solve_decision. Defined.

Record Receipt : Type := {
  f_version : Z;
  f_context : Context;
  f_upload : Upload;
  f_digest : bytes;
  f_state : State;
}.
#[export] Instance Receipt_eq_dec : EqDecision Receipt.
Proof. solve_decision. Defined.

Definition receipt_validate `{Serde Upload, Sha256} (r : Receipt) : result anyhow unit :=
  _ ← ensure ((f_version r =? 1) && (0 <? generation (f_context r))
              && negb (bool_decide (boot_id (f_context r) = ""))
              && (strlen (boot_id (f_context r)) <=? 64)) "invalid file receipt context";
  d ← upload_digest (f_upload r);
  ensure (bool_decide (f_digest r = d)) "invalid file receipt digest".

(** ** supervisor_files.rs *)

Definition MAX_FILES : Z := 16.
Definition MAX_HOST_FILES : Z := 1024.
Definition MAX_RECORD_BYTES : Z := 2048.

(** [state] is 0 before any observation, then the guest's [FileState] number. *)
Record FileRecord : Type := {
  digest : bytes;
  context : option Context;
  size : Z;
  not_started : bool;
  commit_requested : bool;
  abort_requested : bool;
  state : Z;
}.
#[export] Instance FileRecord_eq_dec : EqDecision FileRecord.
Proof. solve_decision. Defined.

Definition set_state (r : FileRecord) (s : Z) : FileRecord := {|
  digest := digest r; context := context r; size := size r; not_started := not_started r;
  commit_requested := commit_requested r; abort_requested := abort_requested r; state := s
|}.

Definition file_fenced (d : bytes) : FileRecord := {|
  digest := d; context := None; size := 0; not_started := true;
  commit_requested := false; abort_requested := false; state := 0
|}.

(** The number [observe] stores for a guest state. *)
Definition file_state_number (s : State) : Z :=
  match s with Staging => 1 | CommitIntent => 2 | Committed => 3 | Unknown => 4 | Aborted => 5 end.

Definition file_finished (r : FileRecord) : bool := not_started r || contains 3 5 (state r).

Section record.
Context `{Serde Upload, Serde FileRecord, Sha256}.

Definition record_validate (r : FileRecord) : result anyhow unit :=
  _ ← ensure ((size r <=? MAX_FILE_BYTES) && (state r <=? 5)) "invalid retained file bounds";
  _ ← (if not_started r then
         ensure (is_none (context r) && (size r =? 0) && (state r =? 0)
                 && negb (commit_requested r) && negb (abort_requested r))
           "invalid file absence fence"
       else
         c ← ok_or (context r) "missing file context";
         _ ← ensure ((0 <? generation c) && negb (bool_decide (boot_id c = ""))
                     && (strlen (boot_id c) <=? 64)) "invalid file context";
         _ ← ensure (negb (contains 2 3 (state r)) || commit_requested r)
               "file committed without host intent";
         ensure (negb (state r =? 5) || abort_requested r) "file aborted without host intent");
  encoded ← ok_or (to_vec r) "serde_json";
  ensure (strlen encoded <=? MAX_RECORD_BYTES) "file record exceeds bound".

Definition file_pending (u : Upload) (c : Context) : result anyhow FileRecord :=
  d ← upload_digest u;
  let record := {| digest := d; context := Some c; size := u_size u; not_started := false;
                   commit_requested := false; abort_requested := false; state := 0 |} in
  _ ← record_validate record;
  Ok record.

(** [FileRecord::observe]: a receipt is folded into the record; the state is written
    before the last validation. *)
Definition observe (u : Upload) (r : Receipt) : ST FileRecord anyhow unit :=
  _ ← lift (receipt_validate r);
  self ← get;
  _ ← lift (ensure (negb (not_started self) && bool_decide (context self = Some (f_context r))
                    && bool_decide (f_upload r = u) && bool_decide (digest self = f_digest r)
                    && (size self =? u_size u)) "file receipt differs from original intent");
  let next := file_state_number (f_state r) in
  _ ← lift (ensure (negb (file_finished self) || (state self =? next))
              "terminal file receipt changed");
  _ ← lift (ensure (negb (contains 2 3 next) || commit_requested self) "unsolicited file commit");
  _ ← lift (ensure (negb (next =? 5) || abort_requested self) "unsolicited file abort");
  _ ← put (set_state self next);
  lift (record_validate (set_state self next)).

Definition validate_identity (r : FileRecord) (id : OperationId) (u : Upload)
    : result anyhow unit :=
  d ← (if bool_decide (u_operation_id u = id) then upload_digest u
       else Err "file descriptor changed");
  ensure (bool_decide (d = digest r)) "file descriptor changed".
End record.

(** ** Paths *)

(** Lexical resolution of a path's components from a directory given by its own. *)
Fixpoint resolve (dir : list string) (components : list string) : option (list string) :=
  match components with
  | [] => Some dir
  | c :: rest =>
      if bool_decide (c = "") || bool_decide (c = ".") then resolve dir rest
      else if bool_decide (c = "..") then
        match dir with [] => None | _ => resolve (removelast dir) rest end
      else resolve (dir ++ [c]) rest
  end.

Lemma resolve_plain dir l : forallb path_component l = true -> resolve dir l = Some (dir ++ l).
Proof.
  revert dir. induction l as [|c l IH]; intros dir Hl; cbn in *; [by rewrite app_nil_r|].
  bools. unfold path_component in *. bools. rewrite !bool_decide_eq_false_2 by done. cbn.
  by rewrite IH, <- app_assoc.
Qed.

(** An accepted path names a file strictly inside the workspace, whatever the
    workspace is: resolving it only descends, through components the path itself spells
    out, and never enters the transfer service's own directory at the workspace root. *)
Theorem validate_path_inside path :
  validate_path path = Ok tt ->
  split "/" path <> [] /\ Forall (fun c => c <> "" /\ strlen c <= 255) (split "/" path) /\
  contains_nul path = false /\
  forall workspace,
    resolve workspace (split "/" path) = Some (workspace ++ split "/" path) /\
    head (split "/" path) <> Some STATE_DIRECTORY.
Proof.
  unfold validate_path. intros Hv. inv_ok. bools. split_and!.
  - destruct path; cbn; [done|]. repeat case_match; done.
  - match goal with H : forallb _ _ = true |- _ => rewrite forallb_forall in H; rename H into Hc end.
    apply Forall_forall. intros c Hin. apply list_elem_of_In, Hc in Hin.
    unfold path_component in Hin. bools. done.
  - match goal with H : string_existsb _ _ = false |- _ => rename H into He end.
    unfold contains_nul, string_existsb in *. bools. apply negb_false_iff.
    eapply string_forallb_impl; [|exact He]. intros c Hcc. bools.
    unfold byte_in, is_byte in *. apply negb_true_iff, N.eqb_neq. intros Hz. rewrite Hz in *. done.
  - intros ws. split; [by apply resolve_plain|done].
Qed.

(** ** The retained state machine *)

Section record_laws.
Context `{Serde Upload, Serde FileRecord, Sha256}.

(** Folding a guest receipt into a retained record never changes what the host
    asked for or which upload it asked about; a terminal state is final; the guest can
    neither commit nor abort a transfer the host did not ask it to. This holds of the
    record left behind by a refused receipt too. *)
Theorem observe_respects_intent u r self self' res :
  observe u r self = (self', res) ->
  digest self' = digest self /\ context self' = context self /\ size self' = size self /\
  commit_requested self' = commit_requested self /\ abort_requested self' = abort_requested self /\
  (file_finished self = true -> self' = self) /\
  (self' <> self -> state self' = file_state_number (f_state r) /\ f_upload r = u /\
     f_digest r = digest self /\
     (f_state r = CommitIntent \/ f_state r = Committed -> commit_requested self = true) /\
     (f_state r = Aborted -> abort_requested self = true)) /\
  (res = Ok tt -> record_validate self' = Ok tt /\ state self' = file_state_number (f_state r)).
Proof.
  unfold observe. unfold mbind, ST_bind, lift, get, put.
  destruct (receipt_validate r) as [[]|e]; cbn; [|intros [= <- <-]; naive_solver].
      next_ensure He1; [|intros [= <- <-]; naive_solver].
  next_ensure He2; [|intros [= <- <-]; naive_solver].
  next_ensure He3; [|intros [= <- <-]; naive_solver].
  next_ensure He4; [|intros [= <- <-]; naive_solver].
  intros [= <- <-]. bools.
  split_and!; try done.
  - intros Hf. rewrite Hf in He2. cbn in He2. bools. destruct self; cbn in *. by subst.
  - intros _. split_and!; [done..| |].
    + intros [Hs|Hs]; by rewrite Hs in He3.
    + intros Hs. by rewrite Hs in He4.
Qed.
End record_laws.

(** ** A sample transfer *)

Module Sample.
Import Ref.

Lemma validate_path_inside_witness :
  validate_path "src/main.rs" = Ok tt /\
  resolve ["srv"; "work"] (split "/" "src/main.rs") = Some ["srv"; "work"; "src"; "main.rs"].
Proof.
  assert (validate_path "src/main.rs" = Ok tt) as Hv by (vm_compute; reflexivity).
  split; [exact Hv|].
  destruct (validate_path_inside "src/main.rs" Hv) as (_ & _ & _ & H).
  exact (proj1 (H ["srv"; "work"])).
Defined.

#[local] Instance sample_upload_serde : Serde Upload := {|
  to_vec u := Some (enc (u_path u, u_size u, u_sha256 u, u_mode u)); from_slice _ := None
|}.
#[local] Instance sample_record_serde : Serde FileRecord := {|
  to_vec r := Some (enc (digest r, size r, state r)); from_slice _ := None
|}.

Definition sample_context : Context :=
  {| allocation_id := sample_id 1; generation := 1; boot_id := "boot" |}.
Definition sample_upload : Upload := {|
  u_operation_id := sample_id 2; u_path := "a.txt"; u_size := 3; u_sha256 := sha256 "abc";
  u_mode := MODE_ORDINARY
|}.
Definition sample_digest : bytes :=
  match upload_digest sample_upload with Ok d => d | Err _ => "" end.
Definition sample_record : FileRecord := {|
  digest := sample_digest; context := Some sample_context; size := 3; not_started := false;
  commit_requested := true; abort_requested := false; state := 1
|}.
Definition sample_receipt : Receipt := {|
  f_version := 1; f_context := sample_context; f_upload := sample_upload;
  f_digest := sample_digest; f_state := Committed
|}.

Lemma observe_respects_intent_witness :
  (observe sample_upload sample_receipt sample_record).2 = Ok tt /\
  state (observe sample_upload sample_receipt sample_record).1 = 3.
Proof.
  assert ((observe sample_upload sample_receipt sample_record).2 = Ok tt) as Hr
    by (vm_compute; reflexivity).
  split; [exact Hr|].
  destruct (observe sample_upload sample_receipt sample_record) as [self' res] eqn:Ho.
  destruct (observe_respects_intent _ _ _ _ _ Ho) as (_ & _ & _ & _ & _ & _ & _ & H).
  exact (proj2 (H Hr)).
Defined.
End Sample.
