(* ===== verification/Output.v ===== *)
(** * Output descriptors (output.rs and live_output.rs of crates/sandbox-protocol/src)

    Storage metadata of the two final output streams of a command: who they belong to, the
    plan that is persisted before an upload, and the references and retirement markers
    that come back from the object store. *)

From stdpp Require Import pretty.
From S2P Require Import Prelude Ext Ids.
From S2P Require Command.

Definition MAX_CHUNK : Z := 32 * 1024.

Inductive OutputName : Type := Stdout | Stderr.
#[export] Instance OutputName_eq_dec : EqDecision OutputName.
Proof. solve_decision. Defined.

Definition as_str (n : OutputName) : string := match n with Stdout => "stdout" | Stderr => "stderr" end.

Record OutputOwner : Type := {
  project_id : ProjectId;
  sandbox_id : SandboxId;
  operation_id : OperationId;
  allocation_id : AllocationId;
  generation : Z;
  host_id : HostId;
  host_epoch : Z;
  boot_id : string;
}.
#[export] Instance OutputOwner_eq_dec : EqDecision OutputOwner.
Proof. solve_decision. Defined.

Record OutputTicket : Type := {
  t_version : Z;
  t_owner : OutputOwner;
  t_upload_attempt : OperationId;
  t_output_limit : Z;
  t_created_unix_ms : Z;
  t_expires_unix_ms : Z;
  t_delete_after_unix_ms : Z;
}.
#[export] Instance OutputTicket_eq_dec : EqDecision OutputTicket.
Proof. solve_decision. Defined.

Record OutputPlan : Type := {
  version : Z;
  owner : OutputOwner;
  upload_attempt : OperationId;
  name : OutputName;
  size : Z;
  plan_sha256 : string;
  seen : Z;
  truncated : bool;
  created_unix_ms : Z;
  expires_unix_ms : Z;
  delete_after_unix_ms : Z;
}.
#[export] Instance OutputPlan_eq_dec : EqDecision OutputPlan.
Proof. solve_decision. Defined.

Record OutputRef : Type := { plan : OutputPlan; etag : string; object_version : option string }.
#[export] Instance OutputRef_eq_dec : EqDecision OutputRef.
Proof. solve_decision. Defined.

Record OutputRetirement : Type := {
  r_version : Z;
  r_plan_sha256 : string;
  previous : option OutputRef;
  marker_etag : string;
  marker_version : option string;
}.
#[export] Instance OutputRetirement_eq_dec : EqDecision OutputRetirement.
Proof. solve_decision. Defined.

Record OutputRefs : Type := { ref_stdout : OutputRef; ref_stderr : OutputRef }.
Record OutputPlans : Type := { plan_stdout : OutputPlan; plan_stderr : OutputPlan }.
#[export] Instance OutputPlans_eq_dec : EqDecision OutputPlans.
Proof. solve_decision. Defined.

Record LiveOutputScope : Type := {
  l_version : Z;
  l_owner : OutputOwner;
  l_command_digest : bytes;
  l_output_limit : Z;
  l_deadline_unix_ms : Z;
}.

(** [pub struct InvalidOutput;] *)
Inductive InvalidOutput : Type := invalid_output.
#[export] Instance InvalidOutput_eq_dec : EqDecision InvalidOutput.
Proof. solve_decision. Defined.

Definition refuse (c : bool) : result InvalidOutput unit := if c then Err invalid_output else Ok tt.

(** [OutputOwner::validate] *)
Definition owner_validate (o : OutputOwner) : result InvalidOutput unit :=
  refuse ((generation o <=? 0) || (host_epoch o <=? 0) || bool_decide (boot_id o = "")
          || (64 <? strlen (boot_id o)) || any_control (boot_id o)).

(** [LiveOutputScope::validate] *)
Definition scope_validate (s : LiveOutputScope) : result InvalidOutput unit :=
  _ ← owner_validate (l_owner s);
  refuse (negb (l_version s =? 1) || (l_deadline_unix_ms s <=? 0)
          || negb (contains 1 Command.MAX_OUTPUT (l_output_limit s))).

(** [OutputTicket::validate] *)
Definition ticket_validate (t : OutputTicket) : result InvalidOutput unit :=
  _ ← owner_validate (t_owner t);
  refuse (negb (t_version t =? 1) || negb (contains 1 Command.MAX_OUTPUT (t_output_limit t))
          || (t_created_unix_ms t <=? 0) || (t_expires_unix_ms t <=? t_created_unix_ms t)
          || (t_delete_after_unix_ms t <? t_expires_unix_ms t)).

(** [OutputPlan::validate] *)
Definition plan_validate (p : OutputPlan) : result InvalidOutput unit :=
  _ ← owner_validate (owner p);
  refuse (negb (version p =? 1) || (Command.MAX_OUTPUT <? size p) || (seen p <? size p)
          || negb (eqb (truncated p) (size p <? seen p))
          || negb (strlen (plan_sha256 p) =? 64)
          || negb (string_forallb is_lower_hex (plan_sha256 p))
          || (created_unix_ms p <=? 0) || (expires_unix_ms p <=? created_unix_ms p)
          || (delete_after_unix_ms p <? expires_unix_ms p)).

(** The values a reference or a marker takes from the store. *)
Definition store_value (v : string) : bool :=
  negb (bool_decide (v = "") || (1024 <? strlen v) || any_control v).
Definition store_values (e : string) (v : option string) : result InvalidOutput unit :=
  for_each (fun v => refuse (negb (store_value v))) (e :: match v with Some v => [v] | None => [] end).

(** [OutputRef::validate] *)
Definition ref_validate (r : OutputRef) : result InvalidOutput unit :=
  _ ← plan_validate (plan r);
  store_values (etag r) (object_version r).

Definition validate_pair (a b : OutputPlan) (o : OutputOwner) (output_limit : Z)
    : result InvalidOutput unit :=
  refuse (negb (bool_decide (name a = Stdout)) || negb (bool_decide (name b = Stderr))
          || negb (bool_decide (owner a = o)) || negb (bool_decide (owner b = o))
          || negb (bool_decide (upload_attempt a = upload_attempt b))
          || negb (created_unix_ms a =? created_unix_ms b)
          || negb (expires_unix_ms a =? expires_unix_ms b)
          || negb (delete_after_unix_ms a =? delete_after_unix_ms b)
          || negb (contains 1 Command.MAX_OUTPUT output_limit)
          || (output_limit <? size a + size b)).

(** [OutputPlans::validate] and [OutputRefs::validate] *)
Definition plans_validate (p : OutputPlans) (o : OutputOwner) (output_limit : Z)
    : result InvalidOutput unit :=
  _ ← plan_validate (plan_stdout p);
  _ ← plan_validate (plan_stderr p);
  validate_pair (plan_stdout p) (plan_stderr p) o output_limit.
Definition refs_validate (r : OutputRefs) (o : OutputOwner) (output_limit : Z)
    : result InvalidOutput unit :=
  _ ← ref_validate (ref_stdout r);
  _ ← ref_validate (ref_stderr r);
  validate_pair (plan (ref_stdout r)) (plan (ref_stderr r)) o output_limit.
Definition refs_plans (r : OutputRefs) : OutputPlans := {|
  plan_stdout := plan (ref_stdout r); plan_stderr := plan (ref_stderr r)
|}.

(** [OutputTicket::validate_plans] *)
Definition ticket_validate_plans (t : OutputTicket) (p : OutputPlans) : result InvalidOutput unit :=
  _ ← ticket_validate t;
  _ ← plans_validate p (t_owner t) (t_output_limit t);
  let a := plan_stdout p in
  refuse (negb (bool_decide (upload_attempt a = t_upload_attempt t))
          || negb (created_unix_ms a =? t_created_unix_ms t)
          || negb (expires_unix_ms a =? t_expires_unix_ms t)
          || negb (delete_after_unix_ms a =? t_delete_after_unix_ms t)).

Section store.
Context `{UuidLib, Serde OutputPlan, Sha256, HexLib}.

(** The path segments of an object key. *)
Definition key_segments (p : OutputPlan) : list string :=
  let o := owner p in
  ["output"; "v1"; to_string (project_id o); to_string (sandbox_id o); to_string (operation_id o);
   to_string (allocation_id o); pretty (generation o); to_string (host_id o); pretty (host_epoch o);
   to_string (upload_attempt p); as_str (name p)].

Fixpoint join (l : list string) : string :=
  match l with
  | [] => ""
  | [x] => x
  | x :: l' => x +:+ String "/" (join l')
  end.

(** [OutputPlan::object_key] *)
Definition object_key (p : OutputPlan) : result InvalidOutput string :=
  _ ← plan_validate p;
  Ok (join (key_segments p)).

(** [OutputPlan::metadata_digest] *)
Definition metadata_digest (p : OutputPlan) : result InvalidOutput string :=
  _ ← plan_validate p;
  encoded ← ok_or (to_vec p) invalid_output;
  Ok (hex_encode (sha256 encoded)).

(** [OutputRetirement::validate] *)
Definition compatible (old marker : option string) : bool :=
  match old, marker with
  | None, None => true
  | Some o, Some m => (bool_decide (o = "null") && bool_decide (m = "null")) || negb (bool_decide (o = m))
  | _, _ => false
  end.
Definition retirement_validate (r : OutputRetirement) (p : OutputPlan) : result InvalidOutput unit :=
  if negb (r_version r =? 1) then Err invalid_output else
  d ← metadata_digest p;
  if negb (bool_decide (r_plan_sha256 r = d)) then Err invalid_output else
  _ ← store_values (marker_etag r) (marker_version r);
  match previous r with
  | None => Ok tt
  | Some old =>
      _ ← ref_validate old;
      refuse (negb (bool_decide (plan old = p))
              || negb (compatible (object_version old) (marker_version r)))
  end.
End store.

(** ** Object keys *)

Lemma join_split l :
  l <> [] -> Forall (fun s => no_char "/" s = true) l -> split "/" (join l) = l.
Proof.
  intros Hne Hl. induction Hl as [|x l Hx Hl IH]; [done|]. destruct l as [|y l].
  - cbn. by apply split_no_char.
  - change (join (x :: y :: l)) with (x +:+ String "/" (join (y :: l))).
    rewrite split_app by done. by rewrite IH.
Qed.

Section keys.
Context `{UuidLaws}.

Lemma pretty_N_go_no_slash n s : no_char "/" s = true -> no_char "/" (pretty_N_go n s) = true.
Proof.
  revert s. induction (N.lt_wf_0 n) as [n _ IH]. intros s Hs.
  destruct (decide (0 < n)%N) as [Hn|Hn].
  - rewrite pretty_N_go_step by done. apply IH; [by apply N.div_lt|].
    unfold no_char in *. cbn [string_forallb]. rewrite Hs, andb_true_r.
    unfold pretty_N_char. by repeat case_match.
  - assert (n = 0)%N as -> by lia. by rewrite pretty_N_go_0.
Qed.
Lemma pretty_Z_no_slash (z : Z) : no_char "/" (pretty z) = true.
Proof.
  unfold pretty, pretty_Z, pretty, pretty_positive, pretty, pretty_N.
  repeat case_match; try done; try (by apply pretty_N_go_no_slash).
  all: unfold no_char; rewrite ?string_forallb_app; cbn [string_forallb].
  all: by rewrite (pretty_N_go_no_slash _ "").
Qed.
Lemma to_string_no_slash {k} (i : Id k) : no_char "/" (to_string i) = true.
Proof.
  unfold to_string, no_char. rewrite !string_forallb_app.
  assert (string_forallb (fun c => negb (Ascii.eqb c "/"%char)) (hyphenated (uuid i)) = true) as ->.
  { eapply string_forallb_impl, hyphenated_chars. intros c Hc. cbn in *.
    destruct (Ascii.eqb_spec c "/"%char) as [->|]; [by vm_compute in Hc|done]. }
  by destruct k.
Qed.
Lemma key_segments_no_slash p : Forall (fun s => no_char "/" s = true) (key_segments p).
Proof.
  unfold key_segments.
  repeat constructor; auto using pretty_Z_no_slash, to_string_no_slash. by destruct (name p).
Qed.

(** What an object key is made of. *)
Definition addressed (p : OutputPlan) :=
  let o := owner p in
  (project_id o, sandbox_id o, operation_id o, allocation_id o, generation o,
   (host_id o, host_epoch o), (upload_attempt p, name p)).
Definition addressed_canonical (p : OutputPlan) : bool :=
  let o := owner p in
  canonical (project_id o) && canonical (sandbox_id o) && canonical (operation_id o)
  && canonical (allocation_id o) && canonical (host_id o) && canonical (upload_attempt p).

Lemma key_segments_inj p q :
  addressed_canonical p = true -> addressed_canonical q = true ->
  key_segments p = key_segments q -> addressed p = addressed q.
Proof.
  unfold addressed_canonical, key_segments, addressed. intros Hp Hq Hs. bools.
  do 2 apply cons_eq_inj in Hs as [_ Hs].
  apply cons_eq_inj in Hs as [E1 Hs]. apply cons_eq_inj in Hs as [E2 Hs].
  apply cons_eq_inj in Hs as [E3 Hs]. apply cons_eq_inj in Hs as [E4 Hs].
  apply cons_eq_inj in Hs as [E5 Hs]. apply cons_eq_inj in Hs as [E6 Hs].
  apply cons_eq_inj in Hs as [E7 Hs]. apply cons_eq_inj in Hs as [E8 Hs].
  apply cons_eq_inj in Hs as [E9 _].
  apply to_string_inj in E1, E2, E3, E4, E6, E8; try done.
  apply (inj pretty) in E5, E7.
  assert (name p = name q) by (by destruct (name p), (name q)). congruence.
Qed.
Lemma object_key_split p k : object_key p = Ok k -> split "/" k = key_segments p.
Proof.
  unfold object_key. intros Hk. apply bind_ok in Hk as (_ & _ & Hk).
  assert (k = join (key_segments p)) as -> by congruence.
  apply join_split; [done|apply key_segments_no_slash].
Qed.
End keys.

Section theorems.
Context `{UuidLaws}.

(** An object key names one upload: it has exactly the eleven segments of its format,
    none of them from a customer's string, and two plans with the same key belong to the
    same project, sandbox, operation, allocation generation, host epoch, upload attempt
    and stream. *)
Theorem object_key_identifies p q k :
  addressed_canonical p = true -> addressed_canonical q = true ->
  object_key p = Ok k -> object_key q = Ok k ->
  length (split "/" k) = 11%nat /\ addressed p = addressed q.
Proof.
  intros Hcp Hcq Hp Hq. apply object_key_split in Hp, Hq. split; [by rewrite Hp|].
  apply key_segments_inj; congruence.
Qed.

(** Plans accepted for a ticket stay within the ticket: both streams belong to its
    owner and attempt, are kept for its times, and their sizes together respect the
    ticket's limit and the service's, so that the addition cannot overflow. *)
Theorem ticket_plans_bounded t p :
  ticket_validate_plans t p = Ok tt ->
  let a := plan_stdout p in
  let b := plan_stderr p in
  owner a = t_owner t /\ owner b = t_owner t /\ name a = Stdout /\ name b = Stderr /\
  upload_attempt a = t_upload_attempt t /\ upload_attempt b = t_upload_attempt t /\
  size a <= Command.MAX_OUTPUT /\ size b <= Command.MAX_OUTPUT /\
  size a <= seen a /\ size b <= seen b /\
  size a + size b <= t_output_limit t <= Command.MAX_OUTPUT /\
  0 < t_created_unix_ms t < expires_unix_ms b /\
  expires_unix_ms b = t_expires_unix_ms t /\
  expires_unix_ms b <= delete_after_unix_ms b.
Proof.
  unfold ticket_validate_plans, ticket_validate, plans_validate, plan_validate, validate_pair,
    contains. intros Hv. cbv zeta. unfold refuse in Hv. inv_ok. bools.
  repeat split; first [congruence | lia].
Qed.
End theorems.

(** ** Sample plans *)

Module Sample.
Import Ref.

Definition sample_owner : OutputOwner := {|
  project_id := sample_id 1; sandbox_id := sample_id 2; operation_id := sample_id 3;
  allocation_id := sample_id 4; generation := 1; host_id := sample_id 5; host_epoch := 7;
  boot_id := "boot"
|}.
Definition sample_ticket : OutputTicket := {|
  t_version := 1; t_owner := sample_owner; t_upload_attempt := sample_id 6;
  t_output_limit := 100; t_created_unix_ms := 10; t_expires_unix_ms := 20;
  t_delete_after_unix_ms := 30
|}.
Definition sample_plan (n : OutputName) (s : Z) : OutputPlan := {|
  version := 1; owner := sample_owner; upload_attempt := sample_id 6; name := n;
  size := s; plan_sha256 := hex_encode (sha256 ""); seen := 60; truncated := s <? 60;
  created_unix_ms := 10; expires_unix_ms := 20; delete_after_unix_ms := 30
|}.

Lemma object_key_identifies_witness :
  exists k, object_key (sample_plan Stderr 60) = Ok k /\
    length (split "/" k) = 11%nat /\
    addressed (sample_plan Stderr 60) = addressed (sample_plan Stderr 40).
Proof.
  eexists. split; [vm_compute; reflexivity|].
  apply (object_key_identifies (sample_plan Stderr 60) (sample_plan Stderr 40));
    vm_compute; reflexivity.
Defined.

Lemma ticket_plans_bounded_witness :
  ticket_validate_plans sample_ticket
    {| plan_stdout := sample_plan Stdout 60; plan_stderr := sample_plan Stderr 40 |} = Ok tt /\
  60 + 40 <= 100.
Proof.
  split; [vm_compute; reflexivity|].
  pose proof (ticket_plans_bounded sample_ticket
    {| plan_stdout := sample_plan Stdout 60; plan_stderr := sample_plan Stderr 40 |}) as H.
  destruct H as (_ & _ & _ & _ & _ & _ & _ & _ & _ & _ & [H _] & _); [vm_compute; reflexivity|].
  exact H.
Defined.
End Sample.
