(* ===== verification/FileWire.v ===== *)
(** * Conversion and bounds of guest file messages (crates/sandbox-protocol/src/file_wire.rs)

    The wire types are the prost messages of proto/guest.proto, as in [GuestWire]. *)

From S2P Require Import Prelude Ext Ids GuestModel GuestWire.
From S2P Require Files.

Definition CAPTURE_TTL_SECS : Z := 60.

Module fw.
Record FileUpload : Type := { operation_id : string; path : string; size : Z; sha256 : bytes; mode : Z }.
Record FileOperation : Type := { o_operation_id : string; digest : bytes }.
Record WriteFile : Type := { operation : option FileOperation; offset : Z; data : bytes }.
Record FileReceipt : Type := {
  version : Z; context : option w.Context; upload : option FileUpload; r_digest : bytes; state : Z
}.
Record FileProgress : Type := { p_operation : option FileOperation; stored : Z }.
Record FileCapture : Type := {
  capture_id : string; c_path : string; c_size : Z; c_sha256 : bytes; expires_unix_ms : Z
}.
Record FileHandle : Type := { h_capture_id : string; h_sha256 : bytes }.
Record ReadFile : Type := { handle : option FileHandle; r_offset : Z; limit : Z }.
Record FileChunk : Type := {
  k_handle : option FileHandle; k_offset : Z; k_data : bytes; next_offset : Z; k_size : Z; at_end : bool
}.
End fw.
#[export] Instance FileOperation_eq_dec : EqDecision fw.FileOperation.
Proof. solve_decision. Defined.
#[export] Instance FileHandle_eq_dec : EqDecision fw.FileHandle.
Proof. solve_decision. Defined.
#[export] Instance FileCapture_eq_dec : EqDecision fw.FileCapture.
Proof. solve_decision. Defined.

(** [digest] *)
Definition digest (b : bytes) : result anyhow bytes := to_array32 "invalid file digest length" b.

(** [w::FileState::try_from] and the refusal of [Unspecified]. *)
Definition file_state_of_number (n : Z) : result anyhow Files.State :=
  match n with
  | 0 => Err "unspecified file state"
  | 1 => Ok Files.Staging | 2 => Ok Files.CommitIntent | 3 => Ok Files.Committed
  | 4 => Ok Files.Unknown | 5 => Ok Files.Aborted
  | _ => Err "unknown enumeration value"
  end.

Section convert.
Context `{UuidLib, Sha256, Serde Files.Upload}.

Definition from_upload (v : Files.Upload) : fw.FileUpload := {|
  fw.operation_id := to_string (Files.u_operation_id v); fw.path := Files.u_path v;
  fw.size := Files.u_size v; fw.sha256 := Files.u_sha256 v; fw.mode := Files.u_mode v
|}.
Definition try_upload (v : fw.FileUpload) : result anyhow Files.Upload :=
  id ← map_err (fun _ => "invalid operation identity") (parse KOperation (fw.operation_id v));
  s ← digest (fw.sha256 v);
  let u := {| Files.u_operation_id := id; Files.u_path := fw.path v; Files.u_size := fw.size v;
              Files.u_sha256 := s; Files.u_mode := fw.mode v |} in
  _ ← Files.upload_validate u;
  Ok u.

Definition from_file_receipt (v : Files.Receipt) : fw.FileReceipt := {|
  fw.version := Files.f_version v; fw.context := Some (from_context (Files.f_context v));
  fw.upload := Some (from_upload (Files.f_upload v)); fw.r_digest := Files.f_digest v;
  fw.state := Files.file_state_number (Files.f_state v)
|}.
Definition try_file_receipt (v : fw.FileReceipt) : result anyhow Files.Receipt :=
  wc ← ok_or (fw.context v) "missing file context";
  c ← try_context wc;
  wu ← ok_or (fw.upload v) "missing upload descriptor";
  u ← try_upload wu;
  d ← digest (fw.r_digest v);
  s ← file_state_of_number (fw.state v);
  let r := {| Files.f_version := fw.version v; Files.f_context := c; Files.f_upload := u;
              Files.f_digest := d; Files.f_state := s |} in
  _ ← Files.receipt_validate r;
  Ok r.

Definition operation (u : Files.Upload) : result anyhow fw.FileOperation :=
  d ← Files.upload_digest u;
  Ok {| fw.o_operation_id := to_string (Files.u_operation_id u); fw.digest := d |}.

Definition parse_operation (s : string) : result anyhow OperationId :=
  map_err (fun _ => "invalid operation identity") (parse KOperation s).
Definition validate_operation (v : fw.FileOperation) : result anyhow OperationId :=
  _ ← ensure (strlen (fw.digest v) =? 32) "invalid upload operation digest";
  parse_operation (fw.o_operation_id v).
Definition validate_write (v : fw.WriteFile) : result anyhow OperationId :=
  o ← ok_or (fw.operation v) "missing upload operation";
  id ← validate_operation o;
  _ ← ensure (negb (bool_decide (fw.data v = "")) && (strlen (fw.data v) <=? Files.MAX_CHUNK_BYTES)
              && is_some_and (fun n => n <=? Files.MAX_FILE_BYTES) (u64_checked_add (fw.offset v) (strlen (fw.data v))))
        "invalid upload chunk";
  Ok id.
Definition validate_handle (v : fw.FileHandle) : result anyhow OperationId :=
  _ ← ensure (strlen (fw.h_sha256 v) =? 32) "invalid capture digest";
  parse_operation (fw.h_capture_id v).
Definition validate_capture (v : fw.FileCapture) : result anyhow unit :=
  _ ← parse_operation (fw.capture_id v);
  _ ← Files.validate_path (fw.c_path v);
  ensure ((strlen (fw.c_sha256 v) =? 32) && (fw.c_size v <=? Files.MAX_FILE_BYTES) && (0 <? fw.expires_unix_ms v))
    "invalid file capture".
Definition handle (v : fw.FileCapture) : result anyhow fw.FileHandle :=
  _ ← validate_capture v;
  Ok {| fw.h_capture_id := fw.capture_id v; fw.h_sha256 := fw.c_sha256 v |}.
Definition validate_read (v : fw.ReadFile) : result anyhow OperationId :=
  h ← ok_or (fw.handle v) "missing capture handle";
  id ← validate_handle h;
  _ ← ensure (contains 1 Files.MAX_CHUNK_BYTES (fw.limit v) && (fw.r_offset v <=? Files.MAX_FILE_BYTES))
        "invalid file read range";
  Ok id.
End convert.

(** ** Laws *)

Lemma file_state_number_ok n s : file_state_of_number n = Ok s <-> n = Files.file_state_number s.
Proof.
  split; [|by intros ->; destruct s].
  unfold file_state_of_number. repeat case_match; try done; by intros [= <-].
Qed.

Section laws.
Context `{UuidLaws, Sha256, Serde Files.Upload}.

Lemma upload_wire_exact v u :
  try_upload v = Ok u <->
  v = from_upload u /\ Files.upload_validate u = Ok tt /\ canonical (Files.u_operation_id u) = true /\
  strlen (Files.u_sha256 u) = 32.
Proof.
  unfold try_upload. split.
  - intros Hv. inv_ok.
    repeat match goal with
    | H : parse _ _ = _ |- _ => apply parse_ok in H as [? ?]
    | H : digest _ = _ |- _ => apply to_array32_ok in H as [? ?]
    end.
    split_and!; [|done..]. destruct v; cbn in *. unfold from_upload. cbn. congruence.
  - intros (-> & Hv & Ho & Hs). cbn. rewrite parse_to_string by done. cbn. unfold digest.
    rewrite (proj2 (to_array32_ok _ _ (Files.u_sha256 u)) (conj eq_refl Hs)). cbn.
    destruct u; cbn in *. by rewrite Hv.
Qed.

(** File receipts survive the wire exactly: a message is accepted if and only if it is
    the encoding of a valid receipt of a valid upload, and then yields that receipt. *)
Theorem file_receipt_wire_exact v r :
  try_file_receipt v = Ok r <->
  v = from_file_receipt r /\ Files.receipt_validate r = Ok tt /\
  canonical (Files.u_operation_id (Files.f_upload r)) = true /\ canonical (allocation_id (Files.f_context r)) = true /\
  strlen (Files.u_sha256 (Files.f_upload r)) = 32 /\ strlen (Files.f_digest r) = 32.
Proof.
  unfold try_file_receipt. split.
  - intros Hv. inv_ok.
    repeat match goal with
    | H : try_context _ = _ |- _ => apply try_context_ok in H as (? & ? & _)
    | H : try_upload _ = _ |- _ => apply upload_wire_exact in H as (? & ? & ? & ?)
    | H : digest _ = _ |- _ => apply to_array32_ok in H as [? ?]
    | H : file_state_of_number _ = _ |- _ => apply file_state_number_ok in H
    end.
    split_and!; [|done..]. destruct v; cbn in *. unfold from_file_receipt. cbn. congruence.
  - intros (-> & Hv & Ho & Ha & Hs & Hd). cbn.
    assert (Files.upload_validate (Files.f_upload r) = Ok tt) as Hu.
    { unfold Files.receipt_validate, Files.upload_digest in Hv. inv_ok. done. }
    assert (try_context (from_context (Files.f_context r)) = Ok (Files.f_context r)) as ->.
    { apply try_context_ok. split_and!; [done..| |]; unfold Files.receipt_validate in Hv; inv_ok; bools; done. }
    cbn. rewrite (proj2 (upload_wire_exact _ (Files.f_upload r))) by done. cbn. unfold digest.
    rewrite (proj2 (to_array32_ok _ _ (Files.f_digest r)) (conj eq_refl Hd)). cbn.
    rewrite (proj2 (file_state_number_ok _ (Files.f_state r)) eq_refl). cbn. destruct r; cbn in *. by rewrite Hv.
Qed.
End laws.
