(* ===== verification/FileDownloads.v ===== *)
(** * Read scopes of allocations (crates/sandbox-protocol/src/file_downloads.rs)

    What a reader asks of a supervisor, what the supervisor checks before it asks the guest,
    and what the reader checks before it believes an answer. *)

From S2P Require Import Prelude Ext Ids GuestModel GuestWire Wire FileWire.
From S2P Require Files.

Record ReadScope : Type := {
  version : Z; host_id : HostId; host_epoch : Z; project_id : ProjectId; sandbox_id : SandboxId;
  s_allocation_id : AllocationId; s_generation : Z;
}.
#[export] Instance ReadScope_eq_dec : EqDecision ReadScope.
Proof. solve_decision. Defined.

(** The messages of proto/supervisor.proto. *)
Record FileDownloadHandle : Type := {
  h_id : string; h_context : option w.Context; h_capture : option fw.FileCapture; h_expires_unix_ms : Z;
}.
Record FileCaptureRequest : Type := { cr_scope_json : bytes; cr_path : string; cr_expires_unix_ms : Z }.
Record FileDownloadRequest : Type := {
  dr_scope_json : bytes; dr_handle : option FileDownloadHandle; dr_offset : Z; dr_limit : Z; dr_expires_unix_ms : Z;
}.
Record FileReleaseRequest : Type := {
  rr_scope_json : bytes; rr_handle : option FileDownloadHandle; rr_expires_unix_ms : Z;
}.
Inductive access_result : Type :=
| Captured (h : FileDownloadHandle)
| Chunk (c : fw.FileChunk)
| Released (h : FileDownloadHandle).
Record FileAccessObservation : Type := {
  ao_scope_json : bytes; ao_simulated : bool; ao_observed_unix_ms : Z; ao_result : option access_result;
}.
#[export] Instance w_context_eq_dec : EqDecision w.Context.
Proof. solve_decision. Defined.
#[export] Instance FileDownloadHandle_eq_dec : EqDecision FileDownloadHandle.
Proof. solve_decision. Defined.

(** [a.abs_diff(b)] *)
Definition abs_diff (a b : Z) : Z := Z.abs (a - b).

Section downloads.
Context `{UuidLib, Serde ReadScope}.

(** [ReadScope::validate] *)
Definition scope_validate (s : ReadScope) : result anyhow unit :=
  ensure ((version s =? 1) && (0 <? host_epoch s) && (0 <? s_generation s)) "invalid file read scope".
(** [ReadScope::matches_owner] *)
Definition matches_owner (s : ReadScope) (o : Ownership) : bool :=
  bool_decide (to_string (host_id s) = o_host_id o) && (host_epoch s =? o_supervisor_epoch o)
  && bool_decide (to_string (project_id s) = o_project_id o) && bool_decide (to_string (sandbox_id s) = o_sandbox_id o)
  && bool_decide (to_string (s_allocation_id s) = o_allocation_id o) && (s_generation s =? o_generation o).

Definition scope (b : bytes) (expires now : Z) : result anyhow ReadScope :=
  _ ← ensure ((strlen b <=? 4096) && contains 1 30000 (i64_saturating_sub expires now)) "invalid file read deadline or scope";
  s ← ok_or (from_slice b) "serde_json";
  _ ← scope_validate s;
  Ok s.

Definition handle (h : FileDownloadHandle) (s : ReadScope) : result anyhow unit :=
  _ ← parse_operation (h_id h);
  wc ← ok_or (h_context h) "missing context";
  c ← try_context wc;
  _ ← ensure (bool_decide (allocation_id c = s_allocation_id s) && (generation c =? s_generation s)
              && negb (bool_decide (boot_id c = "")) && (strlen (boot_id c) <=? 64) && (0 <? h_expires_unix_ms h))
        "invalid capture ownership";
  capture ← ok_or (h_capture h) "missing capture";
  validate_capture capture.

Definition capture_request (r : FileCaptureRequest) (now : Z) : result anyhow ReadScope :=
  s ← scope (cr_scope_json r) (cr_expires_unix_ms r) now;
  _ ← Files.validate_path (cr_path r);
  Ok s.
Definition read_request (r : FileDownloadRequest) (now : Z) : result anyhow ReadScope :=
  s ← scope (dr_scope_json r) (dr_expires_unix_ms r) now;
  h ← ok_or (dr_handle r) "missing handle";
  _ ← handle h s;
  capture ← ok_or (h_capture h) "missing capture";
  _ ← ensure (contains 1 Files.MAX_CHUNK_BYTES (dr_limit r) && (dr_offset r <=? fw.c_size capture)) "invalid capture range";
  Ok s.
Definition release_request (r : FileReleaseRequest) (now : Z) : result anyhow ReadScope :=
  s ← scope (rr_scope_json r) (rr_expires_unix_ms r) now;
  h ← ok_or (rr_handle r) "missing handle";
  _ ← handle h s;
  Ok s.

Definition observation (s : bytes) (o : FileAccessObservation) (simulated : bool) (now : Z) : result anyhow unit :=
  ensure (bool_decide (ao_scope_json o = s) && eqb (ao_simulated o) simulated && (0 <? ao_observed_unix_ms o)
          && (abs_diff (ao_observed_unix_ms o) now <=? 10000)) "file response scope, provenance or time changed".

Definition captured (r : FileCaptureRequest) (o : FileAccessObservation) (simulated : bool) (now : Z)
    : result anyhow FileDownloadHandle :=
  s ← capture_request r now;
  _ ← observation (cr_scope_json r) o simulated now;
  match ao_result o with
  | Some (Captured h) =>
      _ ← handle h s;
      _ ← ensure (is_some_and (fun c => bool_decide (fw.c_path c = cr_path r)) (h_capture h)
                  && (now <? h_expires_unix_ms h)
                  && (h_expires_unix_ms h <=? i64_saturating_add (ao_observed_unix_ms o) 60000))
            "capture identity or expiry changed";
      Ok h
  | _ => Err "capture response required"
  end.

Definition chunk (r : FileDownloadRequest) (o : FileAccessObservation) (simulated : bool) (now : Z)
    : result anyhow fw.FileChunk :=
  _ ← read_request r now;
  _ ← observation (dr_scope_json r) o simulated now;
  capture ← ok_or (h ← dr_handle r; h_capture h) "capture required";
  match ao_result o with
  | Some (Chunk c) =>
      let expected := Z.min (fw.c_size capture - dr_offset r) (dr_limit r) in
      let next := dr_offset r + expected in
      h ← FileWire.handle capture;
      _ ← ensure (bool_decide (fw.k_handle c = Some h) && (fw.k_offset c =? dr_offset r) && (fw.k_size c =? fw.c_size capture)
                  && (strlen (fw.k_data c) =? expected) && (fw.next_offset c =? next)
                  && eqb (fw.at_end c) (next =? fw.c_size capture)) "file chunk identity or range changed";
      Ok c
  | _ => Err "chunk response required"
  end.

Definition released (r : FileReleaseRequest) (o : FileAccessObservation) (simulated : bool) (now : Z)
    : result anyhow unit :=
  _ ← release_request r now;
  _ ← observation (rr_scope_json r) o simulated now;
  match ao_result o with
  | Some (Released h) => ensure (bool_decide (Some h = rr_handle r)) "release handle changed"
  | _ => Err "release response required"
  end.
End downloads.
