(* ===== verification/FileSources.v ===== *)
(** * Source objects of admitted file writes (crates/sandbox-protocol/src/file_sources.rs) *)

From stdpp Require Import pretty.
From S2P Require Import Prelude Ext Ids FileDownloads.
From S2P Require Files Output.

(** [InvalidSource]; nothing is said of what was wrong. *)
Inductive InvalidSource : Type := invalid_source.

Record SourceOwner : Type := { o_scope : ReadScope; o_operation_id : OperationId }.
#[export] Instance SourceOwner_eq_dec : EqDecision SourceOwner.
Proof. solve_decision. Defined.
Record SourcePlan : Type := {
  p_version : Z; owner : SourceOwner; upload : Files.Upload; source_attempt : OperationId;
  created_unix_ms : Z; write_expires_unix_ms : Z; expires_unix_ms : Z; delete_after_unix_ms : Z;
}.
#[local] Existing Instance Files.Upload_eq_dec.
#[export] Instance SourcePlan_eq_dec : EqDecision SourcePlan.
Proof. solve_decision. Defined.
Record SourceRef : Type := { plan : SourcePlan; etag : string; object_version : option string }.
Record SourceRetirement : Type := {
  rt_version : Z; plan_sha256 : string; previous : option SourceRef; marker_etag : string; marker_version : option string;
}.

Definition refused {E A} (r : result E A) : result InvalidSource A := map_err (fun _ => invalid_source) r.

Section sources.
Context `{UuidLib, Sha256, HexLib, Serde SourcePlan}.

(** [SourceOwner::validate] and [SourcePlan::validate] *)
Definition owner_validate (o : SourceOwner) : result InvalidSource unit := refused (scope_validate (o_scope o)).
Definition plan_validate (p : SourcePlan) : result InvalidSource unit :=
  _ ← owner_validate (owner p);
  _ ← refused (Files.upload_validate (upload p));
  if negb (bool_decide (o_operation_id (owner p) = Files.u_operation_id (upload p)))
     || negb (p_version p =? 1)
     || (created_unix_ms p <=? 0)
     || (write_expires_unix_ms p <=? created_unix_ms p)
     || (expires_unix_ms p <? write_expires_unix_ms p)
     || (delete_after_unix_ms p <? expires_unix_ms p)
  then Err invalid_source else Ok tt.

(** The segments of [SourcePlan::object_key]. *)
Definition key_segments (p : SourcePlan) : list string :=
  let s := o_scope (owner p) in
  ["file-source"; "v1"; to_string (project_id s); to_string (sandbox_id s); to_string (Files.u_operation_id (upload p));
   to_string (s_allocation_id s); pretty (s_generation s); to_string (host_id s); pretty (host_epoch s);
   to_string (source_attempt p)].
Definition object_key (p : SourcePlan) : result InvalidSource string :=
  _ ← plan_validate p;
  Ok (Output.join (key_segments p)).
Definition source_domain : bytes := "hudson-file-source-v1" +:+ String Ascii.zero "".
(** [SourcePlan::metadata_digest] *)
Definition metadata_digest (p : SourcePlan) : result InvalidSource string :=
  _ ← plan_validate p;
  encoded ← ok_or (to_vec p) invalid_source;
  Ok (hex_encode (sha256 (source_domain +:+ encoded))).

Definition identity (value : string) : result InvalidSource unit :=
  if bool_decide (value = "") || (1024 <? strlen value) || any_control value then Err invalid_source else Ok tt.
(** The entity tag, and the version when there is one. *)
Definition identities (e : string) (v : option string) : result InvalidSource unit :=
  for_each identity (e :: match v with Some v => [v] | None => [] end).

(** [SourceRef::validate] *)
Definition ref_validate (r : SourceRef) : result InvalidSource unit :=
  _ ← plan_validate (plan r);
  identities (etag r) (object_version r).

Definition compatible (old marker : option string) : bool :=
  match old, marker with
  | None, None => true
  | Some o, Some m => (bool_decide (o = "null") && bool_decide (m = "null")) || negb (bool_decide (o = m))
  | _, _ => false
  end.
(** [SourceRetirement::validate] *)
Definition retirement_validate (r : SourceRetirement) (p : SourcePlan) : result InvalidSource unit :=
  d ← (if negb (rt_version r =? 1) then Err invalid_source else metadata_digest p);
  _ ← (if negb (bool_decide (plan_sha256 r = d)) then Err invalid_source else Ok tt);
  _ ← identities (marker_etag r) (marker_version r);
  match previous r with
  | None => Ok tt
  | Some old =>
      _ ← ref_validate old;
      if negb (bool_decide (plan old = p)) || negb (compatible (object_version old) (marker_version r))
      then Err invalid_source else Ok tt
  end.
End sources.

(** ** Keys *)

Section keys.
Context `{UuidLaws, Sha256, HexLib, Serde SourcePlan}.

(** What a key is made of. *)
Definition addressed (p : SourcePlan) :=
  let s := o_scope (owner p) in
  (project_id s, sandbox_id s, o_operation_id (owner p), s_allocation_id s, s_generation s, host_id s, host_epoch s,
   source_attempt p).
Definition addressed_canonical (p : SourcePlan) : bool :=
  let s := o_scope (owner p) in
  canonical (project_id s) && canonical (sandbox_id s) && canonical (o_operation_id (owner p))
  && canonical (s_allocation_id s) && canonical (host_id s) && canonical (source_attempt p).

Lemma plan_operation p : plan_validate p = Ok tt -> Files.u_operation_id (upload p) = o_operation_id (owner p).
Proof. unfold plan_validate. intros Hv. inv_ok. bools. done. Qed.
Lemma source_segments_no_slash p : Forall (fun s => no_char "/" s = true) (key_segments p).
Proof. unfold key_segments. repeat constructor; auto using Output.pretty_Z_no_slash, Output.to_string_no_slash. Qed.
Lemma source_key_split p k : object_key p = Ok k -> plan_validate p = Ok tt /\ split "/" k = key_segments p.
Proof.
  unfold object_key. intros Hk. apply bind_ok in Hk as ([] & Hv & Hk). split; [done|].
  assert (k = Output.join (key_segments p)) as -> by congruence.
  apply Output.join_split; [done|apply source_segments_no_slash].
Qed.

(** A source object's key names one attempt of one operation: two valid plans with the same key
    are for the same project, sandbox, operation, allocation generation, host epoch and
    attempt, so that a new attempt never overwrites an uncertain one. *)
Theorem source_key_identifies p q k :
  addressed_canonical p = true -> addressed_canonical q = true ->
  object_key p = Ok k -> object_key q = Ok k -> addressed p = addressed q.
Proof.
  intros Hcp Hcq [Hp Hsp]%source_key_split [Hq Hsq]%source_key_split. apply plan_operation in Hp, Hq.
  rewrite Hsp in Hsq. unfold key_segments in Hsq. rewrite Hp, Hq in Hsq.
  unfold addressed_canonical in *. bools. unfold addressed.
  do 2 apply cons_eq_inj in Hsq as [_ Hsq].
  apply cons_eq_inj in Hsq as [E1 Hsq]. apply cons_eq_inj in Hsq as [E2 Hsq]. apply cons_eq_inj in Hsq as [E3 Hsq].
  apply cons_eq_inj in Hsq as [E4 Hsq]. apply cons_eq_inj in Hsq as [E5 Hsq]. apply cons_eq_inj in Hsq as [E6 Hsq].
  apply cons_eq_inj in Hsq as [E7 Hsq]. apply cons_eq_inj in Hsq as [E8 _].
  apply to_string_inj in E1, E2, E3, E4, E6, E8; try done. apply (inj pretty) in E5, E7. congruence.
Qed.

(** A retirement is accepted only for the plan it was made for, by the plan's digest, and it
    never retires an object that is still the marker itself. *)
Theorem retirement_for_plan r p :
  retirement_validate r p = Ok tt ->
  plan_validate p = Ok tt /\ metadata_digest p = Ok (plan_sha256 r) /\
  forall old, previous r = Some old -> plan old = p /\ ref_validate old = Ok tt /\
    (forall v, object_version old = Some v -> v <> "null" -> marker_version r <> Some v).
Proof.
  unfold retirement_validate. intros Hv. apply bind_ok in Hv as (d & Hd & Hv). apply if_err_ok in Hd as [_ Hd].
  apply bind_ok in Hv as ([] & [Hs _]%if_err_ok & Hv). apply bind_ok in Hv as ([] & _ & Hv). bools.
  split_and!; [by unfold metadata_digest in Hd; apply bind_ok in Hd as ([] & ? & _)|by rewrite Hs|].
  intros old Hold. rewrite Hold in Hv. apply bind_ok in Hv as ([] & Hr & [Hc _]%if_err_ok). bools. split_and!; [done..|].
  intros v Hov Hnull Hm. match goal with Hc : compatible _ _ = true |- _ => rewrite Hov, Hm in Hc; cbn in Hc;
    rewrite (bool_decide_eq_false_2 (v = "null")), (bool_decide_eq_true_2 (v = v)) in Hc by done end. done.
Qed.
End keys.
