(* ===== verification/Bootstrap.v ===== *)
(** * The bootstrap device (crates/sandbox-protocol/src/bootstrap.rs)

    A guest learns who it is from a read-only device that its host has written: a header, the
    body's length and a JSON body, padded to a fixed size. *)

From S2P Require Import Prelude Ext Ids.

Definition DEVICE_BYTES : Z := 128 * 1024.
Definition MAX_BODY : Z := 64 * 1024.
Definition MAGIC : bytes := "HDSBOOT1".

Record Bootstrap : Type := {
  version : Z; allocation : AllocationId; generation : Z; valid_until_unix_ms : Z;
  ca_pem : string; guest_cert_pem : string; guest_key_pem : string; host_pin : bytes;
}.

(** [n] zero bytes. *)
Fixpoint zeros (n : nat) : bytes := match n with O => "" | S n => String Ascii.zero (zeros n) end.
(** [vec.resize(size, 0)] *)
Definition resize (size : Z) (b : bytes) : bytes :=
  if strlen b <=? size then b +:+ zeros (Z.to_nat (size - strlen b)) else String.substring 0 (Z.to_nat size) b.

Section bootstrap.
Context `{Serde Bootstrap}.

(** [Bootstrap::validate] *)
Definition validate (b : Bootstrap) : result anyhow unit :=
  _ ← ensure ((version b =? 1) && (0 <? generation b) && (0 <? valid_until_unix_ms b)) "invalid bootstrap identity";
  _ ← for_each (fun v => ensure (negb (bool_decide (v = "")) && (strlen v <=? 16384)) "invalid bootstrap credential size")
        [ca_pem b; guest_cert_pem b; guest_key_pem b];
  ensure (negb (bool_decide (host_pin b = zeros 32))) "missing bootstrap peer identity".

(** [Bootstrap::server_tls], up to what it hands to [ServerTls::new]. *)
Definition server_tls (b : Bootstrap) (now_ms : Z) : result anyhow (string * string * string * bytes) :=
  _ ← validate b;
  _ ← ensure (now_ms <? valid_until_unix_ms b) "bootstrap identity expired";
  Ok (ca_pem b, guest_cert_pem b, guest_key_pem b, host_pin b).

(** [Bootstrap::encode_device] *)
Definition encode_device (b : Bootstrap) : result anyhow bytes :=
  _ ← validate b;
  body ← ok_or (to_vec b) "serde_json";
  _ ← ensure (strlen body <=? MAX_BODY) "bootstrap body too large";
  Ok (resize DEVICE_BYTES (MAGIC +:+ to_be_bytes 4 (N.of_nat (String.length body)) +:+ body)).

(** [Bootstrap::read_device], of a reader's bytes. *)
Definition read_device (reader : bytes) : result anyhow Bootstrap :=
  header ← ok_or (take_bytes 12 reader) "failed to fill whole buffer";
  parts ← ok_or (take_bytes 8 header.1) "failed to fill whole buffer";
  _ ← ensure (bool_decide (parts.1 = MAGIC)) "unsupported bootstrap device";
  let length := Z.of_N (from_be_bytes 0 parts.2) in
  _ ← ensure ((0 <? length) && (length <=? MAX_BODY)) "invalid bootstrap body size";
  body ← ok_or (take_bytes (Z.to_nat length) header.2) "failed to fill whole buffer";
  bootstrap ← ok_or (from_slice body.1) "invalid bootstrap body";
  _ ← validate bootstrap;
  Ok bootstrap.
End bootstrap.

(** ** The device is read as it was written *)

Lemma zeros_length n : String.length (zeros n) = n.
Proof. induction n as [|n IH]; cbn; [done|by rewrite IH]. Qed.

Section laws.
Context {representable : Bootstrap -> bool} `{SerdeLaws Bootstrap representable}.

(** A guest reads the identity that its host wrote, whatever it is: the device that is
    encoded from a valid identity has exactly its fixed size, and reading it back gives
    that identity; and whatever a device holds, an identity that is read from it is valid
    and is the parse of a body of the stated, bounded length behind the magic number. *)
Theorem bootstrap_round_trip b d :
  representable b = true -> to_vec b <> Some "" -> encode_device b = Ok d ->
  strlen d = DEVICE_BYTES /\ read_device d = Ok b /\
  forall r c, read_device r = Ok c -> validate c = Ok tt /\
    exists length body rest, r = MAGIC +:+ length +:+ body +:+ rest /\ String.length length = 4%nat /\
      Z.of_N (from_be_bytes 0 length) = strlen body /\ 0 < strlen body <= MAX_BODY /\ from_slice body = Some c.
Proof.
  intros Hr Hne He. unfold encode_device in He. apply bind_ok in He as ([] & Hv & He).
  apply bind_ok in He as (body & Hb%ok_or_ok & He). apply bind_ok in He as ([] & Hl%ensure_ok & He). bools.
  assert (d = resize DEVICE_BYTES (MAGIC +:+ to_be_bytes 4 (N.of_nat (String.length body)) +:+ body)) as -> by congruence.
  assert (Hpos : strlen body <> 0).
  { intros Hz. apply Hne. rewrite Hb. destruct body; [done|]. unfold strlen in Hz. cbn in Hz. lia. }
  pose proof (strlen_nonneg body) as Hnn. set (n := N.of_nat (String.length body)).
  assert (Hn : from_be_bytes 0 (to_be_bytes 4 n) = n).
  { rewrite from_to_be_bytes. cbn [N.mul N.add]. apply N.mod_small. unfold n, strlen, MAX_BODY in *. lia. }
  assert (Hhead : strlen (MAGIC +:+ to_be_bytes 4 n +:+ body) = 12 + strlen body).
  { rewrite !strlen_app. unfold strlen at 2. rewrite to_be_bytes_len. change (strlen MAGIC) with 8. lia. }
  assert (Hfit : strlen (MAGIC +:+ to_be_bytes 4 n +:+ body) <= DEVICE_BYTES) by (rewrite Hhead; unfold MAX_BODY, DEVICE_BYTES in *; lia).
  split_and!.
  - unfold resize. rewrite (proj2 (Z.leb_le _ _) Hfit), strlen_app. unfold strlen at 2. rewrite zeros_length. lia.
  - unfold resize. rewrite (proj2 (Z.leb_le _ _) Hfit). set (pad := zeros _).
    assert (Hhdr : take_bytes 12 ((MAGIC +:+ to_be_bytes 4 n +:+ body) +:+ pad) = Some (MAGIC +:+ to_be_bytes 4 n, body +:+ pad)).
    { rewrite <- (string_app_assoc MAGIC), string_app_assoc.
      replace 12%nat with (String.length (MAGIC +:+ to_be_bytes 4 n)); [apply take_bytes_app|].
      by rewrite length_pos_string_app, to_be_bytes_len. }
    unfold read_device. rewrite Hhdr. cbn [mbind result_bind ok_or fst snd].
    rewrite (take_bytes_app MAGIC (to_be_bytes 4 n) : take_bytes 8 _ = _). cbn [mbind result_bind ok_or fst snd].
    rewrite bool_decide_eq_true_2 by done. cbn [ensure mbind result_bind]. rewrite Hn.
    assert (Z.of_N n = strlen body) as -> by (unfold n, strlen; lia).
    rewrite (proj2 (Z.ltb_lt _ _)), (proj2 (Z.leb_le _ _)) by lia. cbn [andb ensure mbind result_bind].
    unfold strlen at 1. rewrite Nat2Z.id, take_bytes_app. cbn [mbind result_bind ok_or fst snd].
    rewrite (from_to b body Hr Hb). cbn [mbind result_bind ok_or]. by rewrite Hv.
  - intros r c Hread. unfold read_device in Hread.
    apply bind_ok in Hread as ([h rest] & Hh%ok_or_ok & Hread). apply bind_ok in Hread as ([m l] & Hm%ok_or_ok & Hread).
    apply bind_ok in Hread as ([] & Hmagic%ensure_ok & Hread). apply bind_ok in Hread as ([] & Hlen%ensure_ok & Hread).
    apply bind_ok in Hread as ([x pad] & Hx%ok_or_ok & Hread). apply bind_ok in Hread as (y & Hy%ok_or_ok & Hread).
    apply bind_ok in Hread as ([] & Hval & [= <-]). cbn [fst snd] in *. bools. split; [done|].
    apply take_bytes_some in Hh as [-> Hh], Hm as [-> Hm], Hx as [-> Hx]. subst m.
    exists l, x, pad. rewrite length_pos_string_app in Hh.
    assert (Hxl : Z.of_N (from_be_bytes 0 l) = strlen x) by (unfold strlen; lia).
    split_and!; [by rewrite !string_app_assoc|cbn in Hh; lia|done|lia|lia|done].
Qed.
End laws.
