(* ===== verification/Identity.v ===== *)
(** * Channel credentials (crates/sandbox-supervisor/src/identity.rs)

    The credentials of one allocation's channel: what the guest gets on its bootstrap device,
    and what the host keeps to call it. Certificates and keys come from [rcgen], and what
    accepts them is [rustls]; both are parameters. *)

From S2P Require Import Prelude Ext Ids Bootstrap.

Record Identity : Type := {
  guest : Bootstrap;
  host_cert_pem : string;
  host_key_pem : string;
  guest_pin : bytes;
}.

(** What [rcgen] issued: a certificate authority, and two leaves as PEM with their DER. *)
Record Issued : Type := {
  ca : string;
  host_leaf : string; host_der : bytes; host_leaf_key : string;
  guest_leaf : string; guest_der : bytes; guest_leaf_key : string;
}.

(** [guest_wire::ClientTls::new] and [ServerTls::new]: whether [rustls] takes the material. *)
Class TlsLib := {
  client_config : string -> string -> string -> bytes -> AllocationId -> result anyhow unit;
  server_config : string -> string -> string -> bytes -> result anyhow unit;
}.

(** The latest instant of an [OffsetDateTime], in seconds. *)
Definition MAX_TIMESTAMP : Z := 253402300799.

Section identity.
Context `{Serde Bootstrap, Sha256, TlsLib}.

(** [Identity::client_tls] *)
Definition client_tls (i : Identity) (now_ms : Z) : result anyhow unit :=
  _ ← validate (guest i);
  _ ← ensure (now_ms <? valid_until_unix_ms (guest i)) "allocation channel identity expired";
  _ ← ensure ((strlen (host_cert_pem i) <=? 16384) && (strlen (host_key_pem i) <=? 16384))
        "invalid host credential size";
  client_config (ca_pem (guest i)) (host_cert_pem i) (host_key_pem i) (guest_pin i)
    (allocation (guest i)).

(** [Identity::issue], where [issued] is what [rcgen] makes of its parameters. *)
Definition issue (issued : result anyhow Issued) (alc : AllocationId) (gen now_ms : Z)
    : result anyhow Identity :=
  _ ← ensure ((0 <? gen) && (0 <? now_ms)) "invalid allocation identity";
  let now := now_ms / 1000 in
  _ ← ensure (now <=? MAX_TIMESTAMP) "timestamp out of range";
  let until := now + 24 * 3600 in
  _ ← ensure (until <=? MAX_TIMESTAMP) "certificate clock overflow";
  c ← issued;
  let identity := {|
    guest := {|
      version := 1; allocation := alc; generation := gen; valid_until_unix_ms := until * 1000;
      ca_pem := ca c; guest_cert_pem := guest_leaf c; guest_key_pem := guest_leaf_key c;
      host_pin := sha256 (host_der c) |};
    host_cert_pem := host_leaf c; host_key_pem := host_leaf_key c;
    guest_pin := sha256 (guest_der c) |} in
  '(a, b, k, p) ← server_tls (guest identity) now_ms;
  _ ← server_config a b k p;
  _ ← client_tls identity now_ms;
  Ok identity.
End identity.

Section laws.
Context `{Serde Bootstrap, Sha256, TlsLib}.

(** An issued identity is of the allocation, is valid and lasts between 24 hours less a second
    and 24 hours. *)
Lemma issue_ok issued alc gen now i :
  issue issued alc gen now = Ok i ->
  validate (guest i) = Ok tt /\ allocation (guest i) = alc /\ generation (guest i) = gen /\
  now + 86399000 < valid_until_unix_ms (guest i) <= now + 86400000.
Proof.
  unfold issue. intros Hi. inv_ok. bools.
  match goal with Hs : server_tls _ _ = Ok _ |- _ => unfold server_tls in Hs; cbn [guest] in Hs end. inv_ok.
  match goal with |- context [validate _ = Ok tt] => idtac end.
  split_and!; try done.
  all: cbn; pose proof (Z.div_mod now 1000); pose proof (Z.mod_pos_bound now 1000); lia.
Qed.
End laws.
