(* ===== verification/Authority.v ===== *)
(** * The allocation authority (crates/sandbox-protocol/src/allocation_authority.rs) and
    the frozen retirement scope it is bound to (allocation_retirement.rs) *)

From S2P Require Import Prelude Ext Ids.

Definition MAX_ENTRIES : Z := 1024.
Definition MAX_BATCH : Z := 32.
Definition MAX_BYTES : Z := 1024 * 1024.
Definition MAX_SERIAL : Z := I64_MAX.

Inductive Error : Type :=
| Invalid | Ownership | Capacity | RegistrationOrder | Closed | Unregistered | Conflict.
#[export] Instance Error_eq_dec : EqDecision Error.
Proof. solve_decision. Defined.

Record Permit : Type := {
  host : HostId;
  project : ProjectId;
  sandbox : SandboxId;
  allocation : AllocationId;
  create_operation : OperationId;
  generation : Z;
  original_epoch : Z;
  serial : Z;
}.
#[export] Instance Permit_eq_dec : EqDecision Permit.
Proof. solve_decision. Defined.

Inductive State : Type :=
| Active
| Fenced (retirement : OperationId)
| Complete (retirement : OperationId) (intent_sha256 : bytes).
#[export] Instance State_eq_dec : EqDecision State.
Proof. solve_decision. Defined.

Record Entry : Type := { permit : Permit; state : State }.
#[export] Instance Entry_eq_dec : EqDecision Entry.
Proof. solve_decision. Defined.

Record Saved : Type := {
  version : Z;
  saved_host : HostId;
  through : Z;
  entries : list Entry;
}.
#[export] Instance Saved_eq_dec : EqDecision Saved.
Proof. solve_decision. Defined.

(** [pub struct Authority(Saved)] *)
Abbreviation Authority := Saved (only parsing).

(** *** allocation_retirement.rs *)

Module Retirement.
Definition MAX_BYTES : Z := 8192.

Inductive Error : Type := Invalid | Scope | Claim.
#[export] Instance Error_eq_dec : EqDecision Error.
Proof. solve_decision. Defined.

Inductive DomainClosure : Type := Empty | Retired (through : OperationId).
#[export] Instance DomainClosure_eq_dec : EqDecision DomainClosure.
Proof. solve_decision. Defined.

Record Intent : Type := {
  version : Z;
  retirement : OperationId;
  permit : Permit;
  commands : DomainClosure;
  files : DomainClosure;
  release_evidence_sha256 : string;
  simulated : bool;
}.
#[export] Instance Intent_eq_dec : EqDecision Intent.
Proof. solve_decision. Defined.

(** The renewable delivery envelope of an intent. *)
Record Request : Type := {
  intent : Intent;
  reporting_epoch : Z;
  revision : Z;
  expires_unix_ms : Z;
}.
#[export] Instance Request_eq_dec : EqDecision Request.
Proof. solve_decision. Defined.

Record ForgetRequest : Type := {
  f_version : Z;
  claim : Request;
  metadata_request : Request;
}.
#[export] Instance ForgetRequest_eq_dec : EqDecision ForgetRequest.
Proof. solve_decision. Defined.
End Retirement.

Section validation.
Context `{UuidLib}.

Definition valid_uuid (u : Uuid) : result Error unit :=
  if negb (get_version_num u =? 7)%N || negb (is_rfc4122 u) then Err Invalid else Ok tt.

(** [Permit::validate] *)
Definition permit_validate (p : Permit) : result Error unit :=
  _ ← for_each valid_uuid
        [uuid (host p); uuid (project p); uuid (sandbox p); uuid (allocation p);
         uuid (create_operation p)];
  if (generation p <=? 0) || (original_epoch p <=? 0) || (serial p =? 0)
     || (MAX_SERIAL <? serial p)
  then Err Invalid else Ok tt.
End validation.

(** ** The frozen retirement scope *)

Module Intent.
Import Retirement.
Section intent.
Context `{UuidLib, Serde Intent, Serde Request, Serde ForgetRequest, Sha256}.

Definition valid_id (id : OperationId) : bool :=
  (get_version_num (uuid id) =? 7)%N && is_rfc4122 (uuid id).

Definition closure_ok (i : Intent) (domain : DomainClosure) : bool :=
  match domain with
  | Empty => true
  | Retired through =>
      negb (negb (valid_id through) || bool_decide (through = retirement i)
            || bool_decide (through = create_operation (permit i)))
  end.

(** [Intent::validate] *)
Definition validate (i : Intent) : result Error unit :=
  if negb (version i =? 1)
     || negb (valid_id (retirement i))
     || bool_decide (retirement i = create_operation (permit i))
     || negb (is_ok (permit_validate (permit i)))
     || negb (strlen (release_evidence_sha256 i) =? 64)
     || negb (string_forallb is_lower_hex (release_evidence_sha256 i))
  then Err Invalid else
  for_each (fun d => if closure_ok i d then Ok tt else Err Invalid) [commands i; files i].

Definition encode (i : Intent) : result Error bytes :=
  _ ← validate i;
  b ← ok_or (to_vec i) Invalid;
  if MAX_BYTES <? strlen b then Err Invalid else Ok b.

Definition decode (b : bytes) : result Error Intent :=
  if MAX_BYTES <? strlen b then Err Invalid else
  i ← ok_or (from_slice b) Invalid;
  _ ← validate i;
  Ok i.

Definition digest (i : Intent) : result Error bytes :=
  b ← encode i;
  Ok (sha256 b).

(** [Request::validate] *)
Definition request_validate (r : Request) (retained : Intent)
    (current_epoch minimum_revision now_unix_ms : Z) : result Error unit :=
  _ ← validate (intent r);
  _ ← validate retained;
  if negb (bool_decide (intent r = retained)) then Err Scope else
  if (minimum_revision <=? 0)
     || (revision r <? minimum_revision)
     || (now_unix_ms <=? 0)
     || (expires_unix_ms r <=? now_unix_ms)
     || (reporting_epoch r <? original_epoch (permit (intent r)))
     || negb (reporting_epoch r =? current_epoch)
  then Err Claim else Ok tt.

Definition request_encode (r : Request) : result Error bytes :=
  _ ← validate (intent r);
  b ← ok_or (to_vec r) Invalid;
  if MAX_BYTES <? strlen b then Err Invalid else Ok b.

Definition request_decode (b : bytes) : result Error Request :=
  if MAX_BYTES <? strlen b then Err Invalid else
  r ← ok_or (from_slice b) Invalid;
  _ ← validate (intent r);
  Ok r.

(** [ForgetRequest::shape] *)
Definition shape (f : ForgetRequest) : result Error unit :=
  _ ← validate (intent (claim f));
  _ ← validate (intent (metadata_request f));
  if negb (f_version f =? 1)
     || simulated (intent (claim f))
     || negb (bool_decide (intent (claim f) = intent (metadata_request f)))
     || (revision (metadata_request f) <=? 0)
     || (expires_unix_ms (metadata_request f) <=? 0)
     || (reporting_epoch (metadata_request f) <? original_epoch (permit (intent (claim f))))
     || (reporting_epoch (claim f) <? reporting_epoch (metadata_request f))
     || (revision (claim f) <=? 0)
     || (expires_unix_ms (claim f) <=? 0)
  then Err Invalid else Ok tt.

Definition forget_validate (f : ForgetRequest) (epoch now : Z) : result Error unit :=
  _ ← shape f;
  request_validate (claim f) (intent (metadata_request f)) epoch 1 now.

Definition forget_encode (f : ForgetRequest) : result Error bytes :=
  _ ← shape f;
  b ← ok_or (to_vec f) Invalid;
  if MAX_BYTES <? strlen b then Err Invalid else Ok b.

Definition forget_decode (b : bytes) : result Error ForgetRequest :=
  if MAX_BYTES <? strlen b then Err Invalid else
  f ← ok_or (from_slice b) Invalid;
  _ ← shape f;
  Ok f.
End intent.
End Intent.

(** ** The authority *)

Section authority.
Context `{UuidLib, Serde Saved, Serde Retirement.Intent, Sha256}.
Abbreviation Intent := Retirement.Intent.

(** [Authority::new] *)
Definition new (h : HostId) : result Error Authority :=
  _ ← valid_uuid (uuid h);
  Ok {| version := 1; saved_host := h; through := 0; entries := [] |}.

Definition retained (a : Authority) : Z := listlen (entries a).

Definition encode (a : Authority) : result Error bytes :=
  b ← ok_or (to_vec a) Invalid;
  if MAX_BYTES <? strlen b then Err Capacity else Ok b.

(** The loop of [decode] over the entries, with its running sets. *)
Fixpoint check_entries (h : HostId) (limit previous : Z)
    (allocations : gset AllocationId) (operations : gset OperationId)
    (generations : gset (SandboxId * Z)) (l : list Entry) : result Error unit :=
  match l with
  | [] => Ok tt
  | e :: l =>
      let p := permit e in
      _ ← permit_validate p;
      if negb (bool_decide (host p = h)) then Err Ownership else
      if (serial p <=? previous) || (limit <? serial p)
         || bool_decide (allocation p ∈ allocations)
         || bool_decide (create_operation p ∈ operations)
         || bool_decide ((sandbox p, generation p) ∈ generations)
      then Err Invalid else
      _ ← (match state e with
           | Active => Ok tt
           | Fenced r | Complete r _ => valid_uuid (uuid r)
           end);
      check_entries h limit (serial p) ({[ allocation p ]} ∪ allocations)
        ({[ create_operation p ]} ∪ operations)
        ({[ (sandbox p, generation p) ]} ∪ generations) l
  end.

Definition decode (b : bytes) (h : HostId) (minimum_through : Z) : result Error Authority :=
  if MAX_BYTES <? strlen b then Err Capacity else
  saved ← ok_or (from_slice b) Invalid;
  _ ← valid_uuid (uuid h);
  if negb (version saved =? 1) || (MAX_SERIAL <? through saved)
     || (through saved <? minimum_through) || (MAX_ENTRIES <? listlen (entries saved))
  then Err Invalid else
  if negb (bool_decide (saved_host saved = h)) then Err Ownership else
  _ ← check_entries h (through saved) 0 ∅ ∅ ∅ (entries saved);
  Ok saved.

(** [Authority::index]: the entries are sorted by serial, so the binary search finds the
    one position whose serial matches, when there is one. *)
Fixpoint search (serial_key : Z) (l : list Entry) : option nat :=
  match l with
  | [] => None
  | e :: l => if serial (permit e) =? serial_key then Some O else S <$> search serial_key l
  end.

Definition index (a : Authority) (p : Permit) : result Error nat :=
  _ ← permit_validate p;
  if negb (bool_decide (host p = saved_host a)) then Err Ownership else
  match search (serial p) (entries a) with
  | Some i =>
      if bool_decide (permit <$> entries a !! i = Some p) then Ok i else Err Ownership
  | None => if serial p <=? through a then Err Closed else Err Unregistered
  end.

Definition entry (a : Authority) (p : Permit) : result Error Entry :=
  i ← index a p;
  ok_or (entries a !! i) Invalid.

Definition state_of (a : Authority) (p : Permit) : result Error State :=
  e ← entry a p;
  Ok (state e).

Definition active_allocation (a : Authority) (alc : AllocationId) : result Error Permit :=
  _ ← valid_uuid (uuid alc);
  e ← ok_or (List.find (fun e => bool_decide (allocation (permit e) = alc)) (entries a)) Ownership;
  if negb (bool_decide (state e = Active)) then Err Conflict else Ok (permit e).

Definition authorize (a : Authority) (p : Permit) : result Error unit :=
  s ← state_of a p;
  match s with Active => Ok tt | _ => Err Conflict end.

(** The scan of a batch: every permit valid, of this host, and contiguous. *)
Fixpoint scan_batch (h : HostId) (previous : option Z) (l : list Permit) : result Error unit :=
  match l with
  | [] => Ok tt
  | p :: l =>
      _ ← permit_validate p;
      if negb (bool_decide (host p = h)) then Err Ownership else
      if is_some_and (fun n => negb (bool_decide (u64_checked_add n 1 = Some (serial p)))) previous
      then Err RegistrationOrder else
      scan_batch h (Some (serial p)) l
  end.

Definition push (a : Authority) (p : Permit) : Authority := {|
  version := version a; saved_host := saved_host a; through := serial p;
  entries := entries a ++ [ {| permit := p; state := Active |} ]
|}.

(** [Authority::register] *)
Definition register (permits : list Permit) : ST Authority Error unit :=
  self ← get;
  match permits with
  | [] => fail Invalid
  | first :: _ =>
      if MAX_BATCH <? listlen permits then fail Invalid else
      _ ← lift (scan_batch (saved_host self) None permits);
      if serial first <=? through self then
        lift (for_each (fun p => _ ← entry self p; Ok tt) permits)
      else if negb (bool_decide (u64_checked_add (through self) 1 = Some (serial first)))
      then fail RegistrationOrder
      else if MAX_ENTRIES <? listlen (entries self) + listlen permits then fail Capacity
      else
        let next := foldl push self permits in
        b ← lift (encode next);
        _ ← lift (decode b (saved_host self) (through self));
        put next
  end.

Definition set_entry_state (a : Authority) (i : nat) (s : State) : Authority := {|
  version := version a; saved_host := saved_host a; through := through a;
  entries := alter (fun e => {| permit := permit e; state := s |}) i (entries a)
|}.

Definition fence (p : Permit) (retirement : OperationId) : ST Authority Error unit :=
  _ ← lift (valid_uuid (uuid retirement));
  self ← get;
  i ← lift (index self p);
  match state <$> entries self !! i with
  | Some Active => put (set_entry_state self i (Fenced retirement))
  | Some (Fenced r) | Some (Complete r _) =>
      if bool_decide (r = retirement) then mret tt else fail Conflict
  | None => fail Invalid
  end.

Definition completion_state (intent : Intent) : result Error State :=
  d ← map_err (fun _ => Invalid) (Intent.digest intent);
  if Retirement.simulated intent then Err Invalid else
  Ok (Complete (Retirement.retirement intent) d).

Definition complete (intent : Intent) : ST Authority Error unit :=
  s ← lift (completion_state intent);
  self ← get;
  i ← lift (index self (Retirement.permit intent));
  match state <$> entries self !! i with
  | Some (Fenced r) =>
      if bool_decide (r = Retirement.retirement intent)
      then put (set_entry_state self i s)
      else fail Conflict
  | Some retained_state =>
      if bool_decide (retained_state = s) then mret tt else fail Conflict
  | None => fail Invalid
  end.

Definition completed (a : Authority) (intent : Intent) : result Error unit :=
  expected ← completion_state intent;
  s ← state_of a (Retirement.permit intent);
  if negb (bool_decide (s = expected)) then Err Conflict else Ok tt.

Definition remove (a : Authority) (i : nat) : Authority := {|
  version := version a; saved_host := saved_host a; through := through a;
  entries := delete i (entries a)
|}.

Definition forget (intent : Intent) : ST Authority Error unit :=
  self ← get;
  _ ← lift (completed self intent);
  i ← lift (index self (Retirement.permit intent));
  put (remove self i).
End authority.
