(* ===== verification/Reference.v ===== *)
(** * Concrete instances of the serialization parameter

    Every type the service stores as JSON gets a [Codec], hence a [Serde] instance whose
    laws hold, so that the theorems of the development can be evaluated. *)

From S2P Require Import Prelude Ext Ids GuestModel Authority.
Import Ref.

#[export] Instance Id_codec k : Codec (Id k) :=
  codec_inj uuid (fun u => Some (from_uuid u)) (fun i => match i with from_uuid u => eq_refl end).

#[export] Program Instance Permit_codec : Codec Permit := codec_inj
  (fun p => (host p, project p, sandbox p, allocation p, create_operation p,
             Authority.generation p, original_epoch p, serial p))
  (fun t => let '(h, pr, s, a, o, g, e, n) := t in
            Some {| host := h; project := pr; sandbox := s; allocation := a; create_operation := o;
                    Authority.generation := g; original_epoch := e; serial := n |}) _.
Next Obligation. by intros []. Qed.

#[export] Program Instance State_codec : Codec State := codec_inj
  (fun s => match s with
            | Active => inl tt
            | Fenced r => inr (inl r)
            | Complete r d => inr (inr (r, d))
            end : unit + (OperationId + OperationId * bytes))
  (fun t => Some match t with
                 | inl _ => Active
                 | inr (inl r) => Fenced r
                 | inr (inr (r, d)) => Complete r d
                 end) _.
Next Obligation. by intros []. Qed.

#[export] Program Instance Entry_codec : Codec Entry := codec_inj
  (fun e => (permit e, state e)) (fun t => Some {| permit := t.1; state := t.2 |}) _.
Next Obligation. by intros []. Qed.

#[export] Program Instance Saved_codec : Codec Saved := codec_inj
  (fun a => (version a, saved_host a, through a, entries a))
  (fun t => let '(v, h, n, l) := t in
            Some {| version := v; saved_host := h; through := n; entries := l |}) _.
Next Obligation. by intros []. Qed.

#[export] Program Instance Closure_codec : Codec Retirement.DomainClosure := codec_inj
  (fun c => match c with Retirement.Empty => inl tt | Retirement.Retired t => inr t end : unit + OperationId)
  (fun t => Some match t with inl _ => Retirement.Empty | inr t => Retirement.Retired t end) _.
Next Obligation. by intros []. Qed.

#[export] Program Instance Intent_codec : Codec Retirement.Intent := codec_inj
  (fun i => (Retirement.version i, Retirement.retirement i, Retirement.permit i,
             Retirement.commands i, Retirement.files i, Retirement.release_evidence_sha256 i,
             Retirement.simulated i))
  (fun t => let '(v, r, p, c, f, s, m) := t in
            Some {| Retirement.version := v; Retirement.retirement := r; Retirement.permit := p;
                    Retirement.commands := c; Retirement.files := f;
                    Retirement.release_evidence_sha256 := s; Retirement.simulated := m |}) _.
Next Obligation. by intros []. Qed.

#[export] Instance Intent_serde : Serde Retirement.Intent := serde (fun _ => true).

Definition sample_permit (n : Z) : Permit := {|
  host := sample_id 1; project := sample_id 2; sandbox := sample_id (100 + Z.to_N n);
  allocation := sample_id (200 + Z.to_N n); create_operation := sample_id (300 + Z.to_N n);
  Authority.generation := 1; original_epoch := 7; serial := n
|}.

Definition sample_intent (n : Z) : Retirement.Intent := {|
  Retirement.version := 1; Retirement.retirement := sample_id (400 + Z.to_N n);
  Retirement.permit := sample_permit n;
  Retirement.commands := Retirement.Empty; Retirement.files := Retirement.Empty;
  Retirement.release_evidence_sha256 :=
    "00112233445566778899aabbccddeeff00112233445566778899aabbccddeeff";
  Retirement.simulated := false
|}.
