(* ===== verification/AuthorityLaws.v ===== *)
(** * What the allocation authority guarantees

    The well-formedness invariant that [decode] checks and every transition keeps, the
    round trip through storage, and the refinement of the whole authority to a
    one-permit life cycle in which denial is permanent. *)

From stdpp Require Import sorting.
From S2P Require Import Prelude Ext Ids Authority Reference.

(** ** Values within their Rust types *)

Definition id_typed {k} (i : Id k) : bool := (uuid i <? U128)%N.
Definition permit_typed (p : Permit) : bool :=
  id_typed (host p) && id_typed (project p) && id_typed (sandbox p) && id_typed (allocation p)
  && id_typed (create_operation p) && in_i64 (generation p) && in_i64 (original_epoch p)
  && in_u64 (serial p).
Definition state_typed (s : State) : bool :=
  match s with
  | Active => true
  | Fenced r => id_typed r
  | Complete r d => id_typed r && (strlen d =? 32)
  end.
Definition entry_typed (e : Entry) : bool := permit_typed (permit e) && state_typed (state e).
Definition saved_typed (a : Saved) : bool :=
  in_u32 (version a) && id_typed (saved_host a) && in_u64 (through a) && forallb entry_typed (entries a).

Section representable.
Context `{UuidLib}.

Definition id_v7 {k} (i : Id k) : bool := (get_version_num (uuid i) =? 7)%N.
Definition permit_v7 (p : Permit) : bool :=
  id_v7 (host p) && id_v7 (project p) && id_v7 (sandbox p) && id_v7 (allocation p)
  && id_v7 (create_operation p).
Definition state_v7 (s : State) : bool :=
  match s with Active => true | Fenced r | Complete r _ => id_v7 r end.

(** What [serde] can read back: typed values whose identifiers parse. *)
Definition saved_representable (a : Saved) : bool :=
  saved_typed a && id_v7 (saved_host a)
  && forallb (fun e => permit_v7 (permit e) && state_v7 (state e)) (entries a).
End representable.

(** ** The invariant *)

Section wf.
Context `{UuidLib}.

Definition key_of (e : Entry) : SandboxId * Z := (sandbox (permit e), Authority.generation (permit e)).

Record wf (a : Saved) : Prop := {
  wf_version : version a = 1;
  wf_host_valid : valid_uuid (uuid (saved_host a)) = Ok tt;
  wf_through : 0 <= through a <= MAX_SERIAL;
  wf_len : listlen (entries a) <= MAX_ENTRIES;
  wf_sorted : StronglySorted (fun e e' => serial (permit e) < serial (permit e')) (entries a);
  wf_serials : Forall (fun e => 0 < serial (permit e) <= through a) (entries a);
  wf_hosts : Forall (fun e => host (permit e) = saved_host a) (entries a);
  wf_permits : Forall (fun e => permit_validate (permit e) = Ok tt) (entries a);
  wf_allocations : NoDup (allocation ∘ permit <$> entries a);
  wf_operations : NoDup (create_operation ∘ permit <$> entries a);
  wf_generations : NoDup (key_of <$> entries a);
  wf_retirements : Forall (fun e => match state e with
                                    | Active => True
                                    | Fenced r | Complete r _ => valid_uuid (uuid r) = Ok tt
                                    end) (entries a);
  wf_typed : saved_typed a = true;
}.

Lemma valid_uuid_ok u : valid_uuid u = Ok tt <-> get_version_num u = 7%N /\ is_rfc4122 u = true.
Proof.
  unfold valid_uuid. destruct (N.eqb_spec (get_version_num u) 7), (is_rfc4122 u); cbn; naive_solver.
Qed.

Lemma permit_validate_ok p :
  permit_validate p = Ok tt <->
  Forall (fun u => valid_uuid u = Ok tt)
    [uuid (host p); uuid (project p); uuid (sandbox p); uuid (allocation p);
     uuid (create_operation p)] /\
  0 < Authority.generation p /\ 0 < original_epoch p /\ serial p <> 0 /\ serial p <= MAX_SERIAL.
Proof.
  unfold permit_validate. rewrite bind_ok. split.
  - intros ([] & Hf & Hb). apply for_each_ok in Hf. apply if_err_ok in Hb as [Hb _]. bools.
    split; [done|]. lia.
  - intros (Hf & Hg & He & Hz & Hs). exists tt. split; [by apply for_each_ok|].
    apply if_err_ok. split; [|done].
    rewrite !orb_false_iff, !Z.leb_gt, Z.eqb_neq, Z.ltb_ge. lia.
Qed.

(** [check_entries] decides the entry part of the invariant, from any running state. *)
Lemma check_entries_ok h lim prev A O G l :
  check_entries h lim prev A O G l = Ok tt <->
  Forall (fun e => permit_validate (permit e) = Ok tt) l /\
  Forall (fun e => host (permit e) = h) l /\
  Forall (fun e => prev < serial (permit e) <= lim) l /\
  StronglySorted (fun e e' => serial (permit e) < serial (permit e')) l /\
  (NoDup (allocation ∘ permit <$> l) /\ Forall (fun e => allocation (permit e) ∉ A) l) /\
  (NoDup (create_operation ∘ permit <$> l) /\ Forall (fun e => create_operation (permit e) ∉ O) l) /\
  (NoDup (key_of <$> l) /\ Forall (fun e => key_of e ∉ G) l) /\
  Forall (fun e => match state e with
                   | Active => True
                   | Fenced r | Complete r _ => valid_uuid (uuid r) = Ok tt
                   end) l.
Proof.
  revert prev A O G. induction l as [|e l IH]; intros prev A O G; cbn [check_entries].
  - split; [intros _|done]. split_and!; constructor.
  - rewrite !Forall_cons, !fmap_cons, !NoDup_cons. unfold key_of. cbn [compose].
    assert (Hset : forall {B} `{Countable B} (f : Entry -> B) (s : gset B),
      f e ∉ s ->
      (Forall (fun x => f x ∉ ({[f e]} ∪ s)) l) <-> (f e ∉ (f <$> l) /\ Forall (fun x => f x ∉ s) l)).
    { intros B ?? f s Hs. rewrite list_elem_of_fmap, !Forall_forall. set_solver. }
    split.
    + intros Hc. apply bind_ok in Hc as ([] & Hp & Hc). apply if_err_ok in Hc as [Hh Hc].
      apply if_err_ok in Hc as [Hg Hc]. apply bind_ok in Hc as ([] & Hr & Hc).
      apply IH in Hc as (Hl1 & Hl2 & Hl3 & Hl4 & [Hl5 Ha] & [Hl6 Ho] & [Hl7 Hk] & Hl8).
      bools. apply (Hset _ _ _ (fun e => allocation (permit e))) in Ha as [??]; [|done].
      apply (Hset _ _ _ (fun e => create_operation (permit e))) in Ho as [??]; [|done].
      apply (Hset _ _ _ key_of) in Hk as [??]; [|done].
      split_and!; try done.
      * eapply List.Forall_impl; [|exact Hl3]. cbn. lia.
      * constructor; [done|]. eapply List.Forall_impl; [|exact Hl3]. cbn. lia.
      * by destruct (state e).
    + intros ([Hp Hl1] & [Hh Hl2] & [Hs Hl3] & Hst & ([? ?] & [? Ha]) & ([? ?] & [? Ho]) &
              ([? ?] & [? Hk]) & [Hr Hl8]).
      apply StronglySorted_inv in Hst as [Hst Hlt].
      apply bind_ok. exists tt. split; [done|].
      apply if_err_ok. split; [by rewrite bool_decide_eq_true_2|]. apply if_err_ok.
      split. { rewrite !orb_false_iff, Z.leb_gt, Z.ltb_ge, !bool_decide_eq_false. done. }
      apply bind_ok. exists tt. split; [by destruct (state e)|]. apply IH. split_and!; try done.
      * rewrite Forall_forall in Hlt, Hl3 |- *. intros x Hx.
        specialize (Hlt _ Hx). specialize (Hl3 _ Hx). lia.
      * by apply (Hset _ _ _ (fun e => allocation (permit e))).
      * by apply (Hset _ _ _ (fun e => create_operation (permit e))).
      * by apply (Hset _ _ _ key_of).
Qed.

Lemma wf_check a :
  wf a <->
  version a = 1 /\ valid_uuid (uuid (saved_host a)) = Ok tt /\ 0 <= through a <= MAX_SERIAL /\
  listlen (entries a) <= MAX_ENTRIES /\ saved_typed a = true /\
  check_entries (saved_host a) (through a) 0 ∅ ∅ ∅ (entries a) = Ok tt.
Proof.
  rewrite check_entries_ok. split.
  - intros []. split_and!; first [done|lia|apply Forall_true; set_solver].
  - intros (?&?&?&?&?&?&?&?&?&[??]&[??]&[??]&?). by split.
Qed.
End wf.

(** ** Finding entries *)

Section lookup.
Context `{UuidLib}.

Lemma sorted_serial_inj l i j e e' :
  StronglySorted (fun e e' => serial (permit e) < serial (permit e')) l ->
  l !! i = Some e -> l !! j = Some e' -> serial (permit e) = serial (permit e') -> i = j.
Proof.
  intros Hs. revert i j. induction Hs as [|x l Hs IH Hx]; intros i j Hi Hj Heq; [done|].
  rewrite Forall_forall in Hx.
  destruct i as [|i], j as [|j]; cbn in *; simplify_eq; try done.
  - apply list_elem_of_lookup_2, Hx in Hj. lia.
  - apply list_elem_of_lookup_2, Hx in Hi. lia.
  - f_equal. eauto.
Qed.

Lemma search_some k l i : search k l = Some i -> exists e, l !! i = Some e /\ serial (permit e) = k.
Proof.
  revert i. induction l as [|e l IH]; intros i; cbn; [done|].
  destruct (Z.eqb_spec (serial (permit e)) k); [intros [= <-]; by exists e|].
  destruct (search k l) as [j|]; cbn; [|done]. intros [= <-]. by apply IH.
Qed.

Lemma search_none k l : search k l = None -> Forall (fun e => serial (permit e) <> k) l.
Proof.
  induction l as [|e l IH]; cbn; [constructor|].
  destruct (Z.eqb_spec (serial (permit e)) k); [done|].
  destruct (search k l); cbn; [done|]. constructor; auto.
Qed.

(** [index] finds exactly the retained entry of this very permit. *)
Lemma index_ok a p i :
  wf a ->
  index a p = Ok i <->
  permit_validate p = Ok tt /\ host p = saved_host a /\
  exists e, entries a !! i = Some e /\ permit e = p.
Proof.
  intros Hwf. unfold index. split.
  - intros Hi. apply bind_ok in Hi as ([] & Hp & Hi). apply if_err_ok in Hi as [Hh Hi]. bools.
    destruct (search _ _) as [j|] eqn:Hs; [|by destruct (serial p <=? through a)].
    apply search_some in Hs as (e & He & _). rewrite He in Hi. cbn in Hi.
    case_bool_decide; [|done]. simplify_eq. eauto.
  - intros (Hp & Hh & e & He & <-). rewrite Hp. cbn. rewrite bool_decide_eq_true_2 by done. cbn.
    destruct (search _ _) as [j|] eqn:Hs.
    + apply search_some in Hs as (e' & He' & Hser).
      assert (j = i) as -> by eauto using sorted_serial_inj, wf_sorted.
      rewrite He. cbn. by rewrite bool_decide_eq_true_2.
    + apply search_none in Hs. rewrite Forall_forall in Hs.
      apply list_elem_of_lookup_2, Hs in He. done.
Qed.

(** The refusals of [index] say where the serial stands. *)
Lemma index_err a p e :
  wf a -> index a p = Err e ->
  (e = Invalid /\ permit_validate p <> Ok tt) \/
  (e = Ownership /\ (host p <> saved_host a \/
     exists e', e' ∈ entries a /\ serial (permit e') = serial p /\ permit e' <> p)) \/
  (e = Closed /\ serial p <= through a /\ Forall (fun e => serial (permit e) <> serial p) (entries a)) \/
  (e = Unregistered /\ through a < serial p).
Proof.
  intros Hwf. unfold index. destruct (permit_validate p) as [[]|e0] eqn:Hp; cbn.
  2: { intros [= <-]. left. split; [|done]. unfold permit_validate, valid_uuid in Hp.
       unfold mbind, result_bind in Hp. cbn [for_each] in Hp.
       unfold mbind, result_bind in Hp. repeat case_match; naive_solver. }
  case_bool_decide as Hh; cbn; [|intros [= <-]; right; left; auto].
  destruct (search _ _) as [j|] eqn:Hs.
  - apply search_some in Hs as (e' & He' & Hser). rewrite He'. cbn.
    case_bool_decide as Hb; [done|]. intros [= <-]. right; left. split; [done|]. right.
    exists e'. apply list_elem_of_lookup_2 in He'. naive_solver.
  - apply search_none in Hs.
    destruct (Z.leb_spec (serial p) (through a)); intros [= <-]; do 2 right; [left|right]; auto.
Qed.

Definition find_entry (a : Saved) (p : Permit) : option Entry :=
  List.find (fun e => bool_decide (permit e = p)) (entries a).

Lemma find_entry_some a p e :
  wf a -> find_entry a p = Some e <-> e ∈ entries a /\ permit e = p.
Proof.
  intros Hwf. unfold find_entry. split.
  - intros [Hin Hb]%List.find_some. bools. by apply list_elem_of_In in Hin.
  - intros [Hin <-]. destruct (List.find _ _) as [e'|] eqn:Hf.
    + apply List.find_some in Hf as [Hin' Hb]. bools. apply list_elem_of_In in Hin'.
      apply list_elem_of_lookup in Hin as [i Hi]. apply list_elem_of_lookup in Hin' as [j Hj].
      assert (i = j) as -> by (eapply sorted_serial_inj; [by apply wf_sorted| | |]; eauto; congruence).
      congruence.
    + apply list_elem_of_In in Hin. eapply List.find_none in Hf; [|exact Hin]. by bools.
Qed.

Lemma find_entry_none a p : find_entry a p = None <-> forall e, e ∈ entries a -> permit e <> p.
Proof.
  unfold find_entry. split.
  - intros Hf e Hin Heq. apply list_elem_of_In in Hin. eapply List.find_none in Hf; [|exact Hin].
    by bools.
  - intros Hall. destruct (List.find _ _) as [e|] eqn:Hf; [|done].
    apply List.find_some in Hf as [Hin Hb]. bools. apply list_elem_of_In in Hin. by destruct (Hall e).
Qed.

(** The errors of the identity checks are all [Invalid]. *)
Lemma state_of_ok a p s :
  wf a ->
  state_of a p = Ok s <->
  permit_validate p = Ok tt /\ host p = saved_host a /\
  exists e, find_entry a p = Some e /\ state e = s.
Proof.
  intros Hwf. unfold state_of, entry. setoid_rewrite find_entry_some; [|done]. split.
  - intros Hs. apply bind_ok in Hs as (e & Hs & [= <-]).
    apply bind_ok in Hs as (i & Hi & Hs). apply ok_or_ok in Hs.
    apply index_ok in Hi as (Hp & Hh & e' & He' & Hpe); [|done].
    assert (e = e') as -> by congruence. apply list_elem_of_lookup_2 in He'. naive_solver.
  - intros (Hp & Hh & e & [Hin Hpe] & <-). apply list_elem_of_lookup in Hin as [i Hi].
    rewrite (proj2 (index_ok a p i Hwf)) by naive_solver. cbn. by rewrite Hi.
Qed.
End lookup.

(** ** Editing the entry list *)

Lemma fmap_alter_invariant {A B} (f : A -> B) (g : A -> A) (l : list A) i :
  (forall x, f (g x) = f x) -> f <$> alter g i l = f <$> l.
Proof.
  intros Hf. revert i. induction l as [|x l IH]; intros [|i]; cbn; [done..| |].
  - by rewrite Hf.
  - f_equal. apply IH.
Qed.

Lemma StronglySorted_on {A B} (R : B -> B -> Prop) (f : A -> B) (l : list A) :
  StronglySorted (fun x y => R (f x) (f y)) l <-> StronglySorted R (f <$> l).
Proof.
  split; [by apply StronglySorted_fmap|].
  induction l as [|x l IH]; cbn; [constructor|]. intros [Hs Hx]%StronglySorted_inv.
  constructor; [by apply IH|]. by rewrite Forall_fmap in Hx.
Qed.

Lemma StronglySorted_sublist {A} (R : A -> A -> Prop) (l k : list A) :
  sublist l k -> StronglySorted R k -> StronglySorted R l.
Proof.
  induction 1 as [|x l k Hs IH|x l k Hs IH]; [done| |]; intros [Hk Hx]%StronglySorted_inv.
  - constructor; [by apply IH|]. rewrite Forall_forall in Hx |- *. intros y Hy. apply Hx.
    by eapply elem_of_submseteq; [|apply sublist_submseteq].
  - by apply IH.
Qed.

Lemma Forall_sublist {A} (P : A -> Prop) (l k : list A) : sublist l k -> Forall P k -> Forall P l.
Proof.
  rewrite !Forall_forall. intros Hs Hk x Hx. apply Hk.
  by eapply elem_of_submseteq; [|apply sublist_submseteq].
Qed.

Section edits.
Context `{UuidLib}.

Lemma entries_typed a : saved_typed a = true <->
  in_u32 (version a) = true /\ id_typed (saved_host a) = true /\ in_u64 (through a) = true /\
  Forall (fun e => permit_typed (permit e) = true) (entries a) /\
  Forall (fun e => state_typed (state e) = true) (entries a).
Proof.
  unfold saved_typed. rewrite !andb_true_iff, forallb_forall, !Forall_forall. split.
  - intros [[[? ?] ?] He]. split_and!; [done..| |]; intros e Hin; apply list_elem_of_In, He in Hin;
      unfold entry_typed in Hin; by bools.
  - intros (? & ? & ? & Hp & Hs). split_and!; [done..|]. intros e Hin. apply list_elem_of_In in Hin.
    unfold entry_typed. by rewrite Hp, Hs.
Qed.

Lemma wf_set_entry_state a i s :
  wf a ->
  state_typed s = true ->
  match s with Active => True | Fenced r | Complete r _ => valid_uuid (uuid r) = Ok tt end ->
  wf (set_entry_state a i s).
Proof.
  intros [] Hst Hs. unfold set_entry_state.
  set (g := fun e : Entry => {| permit := permit e; state := s |}).
  assert (Hg : forall {B} (f : Permit -> B), (f ∘ permit) <$> alter g i (entries a) = (f ∘ permit) <$> entries a).
  { intros B f. by apply fmap_alter_invariant. }
  split; cbn; try done.
  - unfold listlen in *. by rewrite length_alter.
  - apply (StronglySorted_on Z.lt (serial ∘ permit)). rewrite Hg.
    by apply (StronglySorted_on Z.lt (serial ∘ permit)).
  - by apply Forall_alter.
  - by apply Forall_alter.
  - by apply Forall_alter.
  - by rewrite Hg.
  - by rewrite Hg.
  - pose proof (Hg _ (fun p => (sandbox p, Authority.generation p))) as Hk.
    change (NoDup ((fun p => (sandbox p, Authority.generation p)) ∘ permit <$> alter g i (entries a))).
    by rewrite Hk.
  - by apply Forall_alter.
  - rewrite entries_typed in wf_typed0 |- *. cbn. destruct wf_typed0 as (?&?&?&?&?).
    split_and!; [done..| |]; by apply Forall_alter.
Qed.

Lemma wf_remove a i : wf a -> wf (remove a i).
Proof.
  intros []. unfold remove. pose proof (sublist_delete (entries a) i) as Hd.
  assert (Hf : forall {B} (f : Entry -> B), sublist (f <$> delete i (entries a)) (f <$> entries a)).
  { intros B f. rewrite list_fmap_delete. apply sublist_delete. }
  split; cbn; try done; try (by eapply Forall_sublist).
  - apply sublist_length in Hd. unfold listlen in *. lia.
  - by eapply StronglySorted_sublist.
  - by eapply sublist_NoDup; [|apply Hf].
  - by eapply sublist_NoDup; [|apply Hf].
  - by eapply sublist_NoDup; [|apply Hf].
  - rewrite entries_typed in wf_typed0 |- *. cbn. destruct wf_typed0 as (?&?&?&?&?).
    split_and!; [done..| |]; by eapply Forall_sublist.
Qed.

Lemma foldl_push a ps :
  entries (foldl push a ps) = entries a ++ ((fun p => {| permit := p; state := Active |}) <$> ps) /\
  version (foldl push a ps) = version a /\ saved_host (foldl push a ps) = saved_host a /\
  through (foldl push a ps) = from_option serial (through a) (last ps).
Proof.
  induction ps as [|p ps IH] using rev_ind; cbn.
  - by rewrite app_nil_r.
  - rewrite foldl_snoc, last_snoc, fmap_app. destruct IH as (He & Hv & Hh & _).
    set (x := foldl push a ps) in *. cbn. by rewrite He, Hv, Hh, <- app_assoc.
Qed.
End edits.

(** ** Storage and transitions *)

Section transitions.
Context `{UuidLaws, !Serde Saved, !SerdeLaws Saved saved_representable,
          !Serde Retirement.Intent, !Sha256, !Sha256Laws}.

Lemma valid_uuid_v7 {k} (i : Id k) : valid_uuid (uuid i) = Ok tt -> id_v7 i = true.
Proof. intros [Hv _]%valid_uuid_ok. unfold id_v7. by rewrite Hv. Qed.

Lemma permit_validate_v7 p : permit_validate p = Ok tt -> permit_v7 p = true.
Proof.
  intros [Hf _]%permit_validate_ok. rewrite !Forall_cons in Hf.
  destruct Hf as (?&?&?&?&?&_). unfold permit_v7. by rewrite !valid_uuid_v7.
Qed.

Lemma wf_representable a : wf a -> saved_representable a = true.
Proof.
  intros []. unfold saved_representable. rewrite wf_typed0, valid_uuid_v7 by done. cbn.
  apply forallb_forall. intros e Hin%list_elem_of_In. rewrite Forall_forall in *.
  rewrite permit_validate_v7 by auto. cbn.
  specialize (wf_retirements0 _ Hin). destruct (state e); cbn; [done|by apply valid_uuid_v7..].
Qed.

Lemma decode_wf b h m a :
  decode b h m = Ok a -> wf a /\ saved_host a = h /\ m <= through a.
Proof.
  unfold decode. intros Hd. apply if_err_ok in Hd as [_ Hd].
  apply bind_ok in Hd as (saved & Hs & Hd). apply ok_or_ok in Hs.
  apply bind_ok in Hd as ([] & Hh & Hd). apply if_err_ok in Hd as [Hb Hd].
  apply if_err_ok in Hd as [Hhost Hd]. apply bind_ok in Hd as ([] & Hc & [= <-]).
  apply from_representable in Hs. unfold saved_representable in Hs. bools. subst.
  assert (in_u64 (through saved) = true) as Hu%in_u64_spec.
  { match goal with H : saved_typed saved = true |- _ => apply entries_typed in H end. tauto. }
  split_and!; [|done..]. apply wf_check. split_and!; try done; lia.
Qed.

(** What is written is read back, whole, by whoever retained no more than its frontier. *)
Lemma decode_encode a b m :
  wf a -> m <= through a -> encode a = Ok b -> decode b (saved_host a) m = Ok a.
Proof.
  intros Hwf Hm He. unfold encode in He. apply bind_ok in He as (b' & Hb & He).
  apply ok_or_ok in Hb. apply if_err_ok in He as [Hlen [= <-]].
  unfold decode. rewrite Hlen. rewrite (from_to a b') by (eauto using wf_representable). cbn.
  pose proof (wf_representable _ Hwf). apply wf_check in Hwf as (Hv & Hh & Ht & Hl & Hty & Hc).
  rewrite Hh. cbn. rewrite Hv. cbn.
  rewrite (proj2 (Z.ltb_ge MAX_SERIAL (through a))), (proj2 (Z.ltb_ge (through a) m)),
    (proj2 (Z.ltb_ge MAX_ENTRIES _)) by (done || lia). cbn.
  rewrite bool_decide_eq_true_2 by done. cbn. by rewrite Hc.
Qed.

Lemma scan_batch_ok h prev l :
  scan_batch h prev l = Ok tt ->
  Forall (fun p => permit_validate p = Ok tt /\ host p = h) l /\
  (forall q, prev = Some q -> forall i p, l !! i = Some p -> serial p = q + 1 + Z.of_nat i).
Proof.
  revert prev. induction l as [|p l IH]; intros prev; cbn [scan_batch]; [done|].
  intros Hs. apply bind_ok in Hs as ([] & Hp & Hs). apply if_err_ok in Hs as [Hh Hs].
  apply if_err_ok in Hs as [Hc Hs]. bools. destruct (IH _ Hs) as [Hf Hi].
  split; [by constructor|]. intros q -> [|i] p' Hl; cbn in *; simplify_eq; bools.
  - apply u64_checked_add_some in Hc as [-> _]. lia.
  - apply u64_checked_add_some in Hc as [Hc _].
    rewrite (Hi _ eq_refl _ _ Hl). lia.
Qed.

Lemma last_lookup_serial (l : list Permit) first rest q :
  l = first :: rest -> serial first = q + 1 ->
  (forall i p, rest !! i = Some p -> serial p = serial first + 1 + Z.of_nat i) ->
  from_option serial q (last l) = q + listlen l /\
  forall i p, l !! i = Some p -> serial p = q + 1 + Z.of_nat i.
Proof.
  intros -> Hf Hr.
  assert (forall i p, (first :: rest) !! i = Some p -> serial p = q + 1 + Z.of_nat i) as Hall.
  { intros [|i] p; cbn; [intros [= <-]; lia|]. intros Hl. rewrite (Hr _ _ Hl). lia. }
  split; [|done]. rewrite last_lookup.
  destruct ((first :: rest) !! pred (length (first :: rest))) as [p|] eqn:Hp.
  - cbn. rewrite (Hall _ _ Hp). unfold listlen. cbn. lia.
  - apply lookup_ge_None in Hp. cbn in Hp. lia.
Qed.

(** The three outcomes of a registration. *)
Lemma register_cases ps a a' r :
  wf a -> Forall (fun p => permit_typed p = true) ps ->
  register ps a = (a', r) ->
  (a' = a /\ exists e, r = Err e) \/
  (a' = a /\ r = Ok tt /\ ps <> [] /\ Forall (fun p => exists e, find_entry a p = Some e) ps) \/
  (r = Ok tt /\ wf a' /\ saved_host a' = saved_host a /\ ps <> [] /\ listlen ps <= MAX_BATCH /\
   entries a' = entries a ++ ((fun p => {| permit := p; state := Active |}) <$> ps) /\
   through a' = through a + listlen ps /\
   forall i p, ps !! i = Some p -> serial p = through a + 1 + Z.of_nat i).
Proof.
  intros Hwf Hty. unfold register, lift, get, put, fail, mbind, ST_bind.
  destruct ps as [|first rest]; [intros [= <- <-]; eauto|].
  set (ps := first :: rest) in *.
  destruct (Z.ltb_spec MAX_BATCH (listlen ps)) as [|Hlen]; [intros [= <- <-]; eauto|].
  destruct (scan_batch (saved_host a) None ps) as [[]|] eqn:Hscan; [|intros [= <- <-]; eauto].
  assert (Hrest : forall i p, rest !! i = Some p -> serial p = serial first + 1 + Z.of_nat i).
  { subst ps. cbn [scan_batch] in Hscan. apply bind_ok in Hscan as ([] & _ & Hscan).
    apply if_err_ok in Hscan as [_ Hscan]. apply if_err_ok in Hscan as [_ Hscan].
    apply scan_batch_ok in Hscan as [_ Hi]. by apply Hi. }
  apply scan_batch_ok in Hscan as [Hval _].
  destruct (Z.leb_spec (serial first) (through a)).
  { destruct (for_each _ _) as [[]|] eqn:Hf; intros [= <- <-]; [|eauto].
    right; left. split_and!; [done..|]. apply for_each_ok in Hf.
    eapply List.Forall_impl; [|exact Hf]. intros p Hp. apply bind_ok in Hp as (e & Hp & _).
    assert (state_of a p = Ok (state e)) as Hs by (unfold state_of; by rewrite Hp).
    apply state_of_ok in Hs as (_ & _ & e' & He' & _); eauto. }
  case_bool_decide as Hnext; cbn [negb]; [|intros [= <- <-]; eauto].
  apply u64_checked_add_some in Hnext as [Hnext _].
  destruct (Z.ltb_spec MAX_ENTRIES (listlen (entries a) + listlen ps)) as [|Hcap];
    [intros [= <- <-]; eauto|].
  set (next := foldl push a ps).
  destruct (foldl_push a ps) as (He & Hv & Hh & Ht). fold next in He, Hv, Hh, Ht.
  destruct (last_lookup_serial ps first rest (through a) eq_refl Hnext Hrest) as [Hlast Hser].
  rewrite Hlast in Ht.
  destruct (encode next) as [b|] eqn:Henc; [|intros [= <- <-]; eauto].
  destruct (decode b (saved_host a) (through a)) as [d|] eqn:Hdec; intros [= <- <-]; [|eauto].
  right; right.
  assert (saved_representable next = true) as Hrep.
  { pose proof (wf_representable _ Hwf) as Hrep. unfold saved_representable in Hrep |- *.
    bools. rewrite Hh, He, forallb_app. rewrite !andb_true_iff. split_and!; try done.
    - rewrite entries_typed in *. rewrite Hv, Hh, He, Ht, !Forall_app, !Forall_fmap.
      destruct_and!. split_and!; try done.
      + assert (exists p, last ps = Some p) as [p Hp].
        { destruct (last ps) eqn:Hl; [eauto|]. by apply last_None in Hl. }
        rewrite Forall_forall in Hty. apply last_Some_elem_of in Hp as Hin.
        specialize (Hty _ Hin). unfold permit_typed in Hty. bools. rewrite Hp in Hlast. cbn in Hlast.
        congruence.
      + by apply Forall_true.
    - apply forallb_forall. intros e Hin%list_elem_of_In.
      apply list_elem_of_fmap in Hin as (p & -> & Hin). cbn. rewrite andb_true_r.
      rewrite Forall_forall in Hval. apply permit_validate_v7. by apply Hval. }
  assert (d = next) as ->.
  { unfold encode in Henc. apply bind_ok in Henc as (b' & Hb & Henc). apply ok_or_ok in Hb.
    apply if_err_ok in Henc as [_ [= ->]]. unfold decode in Hdec.
    apply if_err_ok in Hdec as [_ Hdec]. rewrite (from_to next b) in Hdec by done. cbn in Hdec.
    apply bind_ok in Hdec as ([] & _ & Hdec). apply if_err_ok in Hdec as [_ Hdec].
    apply if_err_ok in Hdec as [_ Hdec]. apply bind_ok in Hdec as ([] & _ & Hdec). by simplify_eq. }
  apply decode_wf in Hdec as (? & ? & ?). split_and!; done.
Qed.
End transitions.

(** ** The life cycle of one permit *)

(** Where a permit stands: never registered, admissible, denied by a fence, retired with a
    receipt, or gone: its serial is below the frontier and nothing of it is retained. *)
Inductive lifecycle : Type :=
| Unseen
| Open
| Shut (retirement : OperationId)
| Done (retirement : OperationId) (intent_sha256 : bytes)
| Gone.

Definition of_state (s : State) : lifecycle :=
  match s with Active => Open | Fenced r => Shut r | Complete r d => Done r d end.

Definition abs (a : Saved) (p : Permit) : lifecycle :=
  match find_entry a p with
  | Some e => of_state (state e)
  | None => if serial p <=? through a then Gone else Unseen
  end.

(** The abstract specification: the moves one permit can make. *)
Inductive move : lifecycle -> lifecycle -> Prop :=
| move_stay l : move l l
| move_register : move Unseen Open
| move_overtaken : move Unseen Gone
| move_fence r : move Open (Shut r)
| move_complete r d : move (Shut r) (Done r d)
| move_forget r d : move (Done r d) Gone.

Section steps.
Context `{UuidLib, Serde Saved, Serde Retirement.Intent, Sha256}.

(** One call of the authority's interface, refused or not. *)
Inductive step : Saved -> Saved -> Prop :=
| step_register ps a a' r :
    Forall (fun p => permit_typed p = true) ps -> register ps a = (a', r) -> step a a'
| step_fence p retirement a a' r :
    id_typed retirement = true -> fence p retirement a = (a', r) -> step a a'
| step_complete i a a' r :
    id_typed (Retirement.retirement i) = true -> complete i a = (a', r) -> step a a'
| step_forget i a a' r : forget i a = (a', r) -> step a a'.
End steps.

Section refinement.
Context `{UuidLaws, !Serde Saved, !SerdeLaws Saved saved_representable,
          !Serde Retirement.Intent, !Sha256, !Sha256Laws}.

Lemma find_set_entry a i e s p :
  wf a -> wf (set_entry_state a i s) -> entries a !! i = Some e ->
  find_entry (set_entry_state a i s) p =
    if decide (p = permit e) then Some {| permit := p; state := s |} else find_entry a p.
Proof.
  intros Hwf Hwf' Hi. case_decide as Hp.
  - subst. apply find_entry_some; [done|]. split; [|done]. cbn.
    apply list_elem_of_lookup. exists i. rewrite list_lookup_alter, decide_True by done. by rewrite Hi.
  - destruct (find_entry a p) as [e'|] eqn:Hf.
    + apply find_entry_some in Hf as [Hin <-]; [|done]. apply find_entry_some; [done|].
      split; [|done]. apply list_elem_of_lookup in Hin as [j Hj].
      apply list_elem_of_lookup. exists j. cbn. rewrite list_lookup_alter.
      destruct (decide (i = j)); [congruence|done].
    + rewrite find_entry_none in Hf |- *. cbn. intros e' Hin.
      apply list_elem_of_lookup in Hin as [j Hj]. rewrite list_lookup_alter in Hj.
      destruct (decide (i = j)) as [->|].
      * rewrite Hi in Hj. cbn in Hj. by simplify_eq.
      * apply Hf. by eapply list_elem_of_lookup_2.
Qed.

Lemma find_remove a i e p :
  wf a -> entries a !! i = Some e ->
  find_entry (remove a i) p = if decide (p = permit e) then None else find_entry a p.
Proof.
  intros Hwf Hi. pose proof (wf_remove a i Hwf) as Hwf'.
  assert (Hdel : forall e', e' ∈ entries (remove a i) <-> e' ∈ entries a /\ permit e' <> permit e).
  { intros e'. cbn. rewrite !list_elem_of_lookup. split.
    - intros [j Hj]. rewrite list_lookup_delete in Hj.
      destruct (decide (j < i)%nat) as [Hlt|Hlt].
      + split; [eauto|]. intros Heq. assert (j = i); [|lia].
        apply (sorted_serial_inj _ _ _ _ _ (wf_sorted _ Hwf) Hj Hi). congruence.
      + split; [eauto|]. intros Heq. assert (S j = i); [|lia].
        apply (sorted_serial_inj _ _ _ _ _ (wf_sorted _ Hwf) Hj Hi). congruence.
    - intros [[j Hj] Hne]. destruct (decide (j < i)%nat).
      + exists j. rewrite list_lookup_delete, decide_True; done.
      + destruct j as [|j]; [assert (i = 0%nat) as -> by lia; congruence|].
        assert (S j <> i) by congruence. exists j. rewrite list_lookup_delete, decide_False; [done|lia]. }
  case_decide as Hp.
  - subst. apply find_entry_none. intros e' Hin%Hdel. naive_solver.
  - destruct (find_entry a p) as [e'|] eqn:Hf.
    + apply find_entry_some in Hf as [Hin <-]; [|done]. apply find_entry_some; [done|].
      split; [|done]. by apply Hdel.
    + rewrite find_entry_none in Hf |- *. intros e' [Hin _]%Hdel. by apply Hf.
Qed.

Lemma fence_cases a p r a' res :
  wf a -> id_typed r = true -> fence p r a = (a', res) ->
  (a' = a /\ (res = Ok tt -> exists e, find_entry a p = Some e /\
               (state e = Fenced r \/ exists d, state e = Complete r d))) \/
  (res = Ok tt /\ exists i e, entries a !! i = Some e /\ permit e = p /\ state e = Active /\
     a' = set_entry_state a i (Fenced r) /\ wf a').
Proof.
  intros Hwf Hr. unfold fence, lift, get, put, fail, mbind, ST_bind.
  destruct (valid_uuid (uuid r)) as [[]|] eqn:Hv; [|intros [= <- <-]; by left].
  destruct (index a p) as [i|] eqn:Hi; [|intros [= <- <-]; by left].
  apply index_ok in Hi as (_ & _ & e & He & Hp); [|done]. rewrite He. cbn.
  assert (find_entry a p = Some e).
  { apply find_entry_some; [done|]. by apply list_elem_of_lookup_2 in He. }
  destruct (state e) eqn:Hs.
  - intros [= <- <-]. right. split; [done|]. exists i, e. split_and!; try done.
    by apply wf_set_entry_state.
  - case_bool_decide; intros [= <- <-]; left; split; try done; naive_solver.
  - case_bool_decide; intros [= <- <-]; left; split; try done; naive_solver.
Qed.

Lemma completion_state_ok i s :
  completion_state i = Ok s ->
  exists d, Intent.digest i = Ok d /\ s = Complete (Retirement.retirement i) d /\
    Retirement.simulated i = false /\ Intent.validate i = Ok tt /\ strlen d = 32.
Proof.
  unfold completion_state. intros Hc. apply bind_ok in Hc as (d & Hd & Hc).
  apply map_err_ok in Hd. apply if_err_ok in Hc as [Hs [= <-]]. exists d.
  pose proof Hd as Hd'. unfold Intent.digest, Intent.encode in Hd'.
  apply bind_ok in Hd' as (b & Hb & [= <-]). apply bind_ok in Hb as ([] & Hv & _).
  split_and!; try done. apply sha256_len.
Qed.

Lemma complete_cases a i a' res :
  wf a -> id_typed (Retirement.retirement i) = true -> complete i a = (a', res) ->
  (a' = a /\ (res = Ok tt -> exists e s, completion_state i = Ok s /\
               find_entry a (Retirement.permit i) = Some e /\ state e = s)) \/
  (res = Ok tt /\ exists j e s, entries a !! j = Some e /\ permit e = Retirement.permit i /\
     state e = Fenced (Retirement.retirement i) /\ completion_state i = Ok s /\
     a' = set_entry_state a j s /\ wf a').
Proof.
  intros Hwf Hr. unfold complete, lift, get, put, fail, mbind, ST_bind.
  destruct (completion_state i) as [s|] eqn:Hc; [|intros [= <- <-]; by left].
  destruct (index a (Retirement.permit i)) as [j|] eqn:Hi; [|intros [= <- <-]; by left].
  apply index_ok in Hi as (_ & _ & e & He & Hp); [|done]. rewrite He. cbn.
  assert (find_entry a (Retirement.permit i) = Some e).
  { apply find_entry_some; [done|]. by apply list_elem_of_lookup_2 in He. }
  destruct (completion_state_ok _ _ Hc) as (d & _ & -> & _ & Hv & Hd).
  destruct (state e) eqn:Hs.
  - case_bool_decide; [done|]. intros [= <- <-]. by left.
  - case_bool_decide as Hrr; intros [= <- <-]; [|by left]. subst. right. split; [done|].
    exists j, e, (Complete (Retirement.retirement i) d). split_and!; try done.
    apply wf_set_entry_state; [done| |].
    + cbn. by rewrite Hr, Hd.
    + unfold Intent.validate in Hv. apply if_err_ok in Hv as [Hv _]. bools.
      match goal with H : Intent.valid_id _ = true |- _ => unfold Intent.valid_id in H end. bools.
      by apply valid_uuid_ok.
  - case_bool_decide as Hrr; intros [= <- <-]; left; split; try done. intros _.
    rewrite <- Hrr. eauto 10.
Qed.

Lemma completed_ok a i :
  wf a -> completed a i = Ok tt ->
  exists s e, completion_state i = Ok s /\ find_entry a (Retirement.permit i) = Some e /\ state e = s.
Proof.
  intros Hwf Hc. unfold completed in Hc. apply bind_ok in Hc as (s & Hs & Hc).
  apply bind_ok in Hc as (s' & Hs' & Hc). apply if_err_ok in Hc as [Hb _]. bools. subst.
  apply state_of_ok in Hs' as (_ & _ & e & He & Hse); [|done]. eauto.
Qed.

Lemma forget_cases a i a' res :
  wf a -> forget i a = (a', res) ->
  (a' = a /\ exists e, res = Err e) \/
  (res = Ok tt /\ exists j e s, entries a !! j = Some e /\ permit e = Retirement.permit i /\
     completion_state i = Ok s /\ state e = s /\ a' = remove a j /\ wf a').
Proof.
  intros Hwf. unfold forget, lift, get, put, mbind, ST_bind.
  destruct (completed a i) as [[]|] eqn:Hc; [|intros [= <- <-]; eauto].
  destruct (index a (Retirement.permit i)) as [j|] eqn:Hi; intros [= <- <-]; [|eauto].
  apply completed_ok in Hc as (s & e & Hs & He & Hse); [|done].
  apply index_ok in Hi as (_ & _ & e' & He' & Hp); [|done].
  apply find_entry_some in He as [Hin Hpe]; [|done].
  apply list_elem_of_lookup in Hin as [k Hk].
  assert (k = j) as ->.
  { apply (sorted_serial_inj _ _ _ _ _ (wf_sorted _ Hwf) Hk He'). congruence. }
  right. split; [done|]. assert (e' = e) as -> by congruence.
  exists j, e, s. split_and!; try done. by apply wf_remove.
Qed.
End refinement.

(** ** The theorems *)

Section theorems.
Context `{UuidLaws, !Serde Saved, !SerdeLaws Saved saved_representable,
          !Serde Retirement.Intent, !Sha256, !Sha256Laws}.

Lemma wf_new h a : id_typed h = true -> new h = Ok a -> wf a.
Proof.
  intros Hh. unfold new. intros Hn. apply bind_ok in Hn as ([] & Hv & [= <-]).
  split; cbn; try done; try constructor. unfold saved_typed. cbn. by rewrite Hh.
Qed.

Lemma find_push a a' ps p :
  wf a -> wf a' ->
  entries a' = entries a ++ ((fun p => {| permit := p; state := Active |}) <$> ps) ->
  find_entry a' p = match find_entry a p with
                    | Some e => Some e
                    | None => if decide (p ∈ ps) then Some {| permit := p; state := Active |} else None
                    end.
Proof.
  intros Hwf Hwf' He. destruct (find_entry a p) as [e|] eqn:Hf.
  - apply find_entry_some in Hf as [Hin Hp]; [|done]. apply find_entry_some; [done|].
    split; [|done]. rewrite He. set_solver.
  - rewrite find_entry_none in Hf. case_decide as Hp.
    + apply find_entry_some; [done|]. split; [|done]. rewrite He.
      apply elem_of_app. right. apply list_elem_of_fmap. by exists p.
    + apply find_entry_none. intros e. rewrite He, elem_of_app, list_elem_of_fmap.
      intros [Hin|(p' & -> & Hin)]; [by apply Hf|]. cbn. by intros ->.
Qed.

Lemma step_wf a a' : wf a -> step a a' -> wf a'.
Proof.
  intros Hwf Hs. destruct Hs as [ps a a' r Hty Hs|p r' a a' r Hr Hs|i a a' r Hr Hs|i a a' r Hs].
  - apply register_cases in Hs; [|done..]. naive_solver.
  - apply fence_cases in Hs; [|done..]. naive_solver.
  - apply complete_cases in Hs; [|done..]. naive_solver.
  - apply forget_cases in Hs; [|done..]. naive_solver.
Qed.

Lemma steps_wf a a' : wf a -> rtc step a a' -> wf a'.
Proof. intros Hwf. induction 1; eauto using step_wf. Qed.

Lemma authorize_ok a p :
  wf a ->
  authorize a p = Ok tt <->
  permit_validate p = Ok tt /\ host p = saved_host a /\ abs a p = Open.
Proof.
  intros Hwf. unfold authorize, abs. split.
  - intros Ha. apply bind_ok in Ha as (s & Hst & Ha). destruct s; try done.
    apply state_of_ok in Hst as (? & ? & e & -> & Hst); [|done]. by rewrite Hst.
  - intros (Hv & Hh & Ho). destruct (find_entry a p) as [e|] eqn:Hf.
    + destruct (state e) eqn:Hst; try done.
      by rewrite (proj2 (state_of_ok a p Active Hwf)) by eauto.
    + by destruct (serial p <=? through a).
Qed.

Lemma step_move a a' p : wf a -> step a a' -> move (abs a p) (abs a' p).
Proof.
  intros Hwf Hs. pose proof (step_wf _ _ Hwf Hs) as Hwf'.
  destruct Hs as [ps a a' r Hty Hs|q r' a a' r Hr Hs|i a a' r Hr Hs|i a a' r Hs].
  - apply register_cases in Hs as [[-> _]|[[-> _]|Hs]]; [apply move_stay|apply move_stay| |done..].
    destruct Hs as (_ & _ & _ & _ & _ & He & Ht & Hser). unfold abs.
    rewrite (find_push a a' ps p) by done. destruct (find_entry a p) as [e|]; [apply move_stay|].
    case_decide as Hp; cbn.
    + apply list_elem_of_lookup in Hp as [k Hk]. apply Hser in Hk.
      rewrite (proj2 (Z.leb_gt _ _)) by lia. constructor.
    + pose proof (Z.leb_spec (serial p) (through a)). unfold listlen in Ht.
      destruct (Z.leb_spec (serial p) (through a')), (Z.leb_spec (serial p) (through a));
        try constructor. lia.
  - apply fence_cases in Hs as [[-> _]|(_ & j & e & He & Hp & Hst & -> & Hw)];
      [apply move_stay| |done..].
    unfold abs. rewrite (find_set_entry a j e _ p Hwf Hw He). case_decide as Hd; [|apply move_stay].
    subst. rewrite (proj2 (find_entry_some a (permit e) e Hwf)) by
      (split; [by eapply list_elem_of_lookup_2|done]).
    rewrite Hst. constructor.
  - apply complete_cases in Hs as [[-> _]|(_ & j & e & s & He & Hp & Hst & Hc & -> & Hw)];
      [apply move_stay| |done..].
    unfold abs. rewrite (find_set_entry a j e _ p Hwf Hw He). case_decide as Hd; [|apply move_stay].
    subst. rewrite (proj2 (find_entry_some a (permit e) e Hwf)) by
      (split; [by eapply list_elem_of_lookup_2|done]).
    apply completion_state_ok in Hc as (d & _ & -> & _). rewrite Hst. constructor.
  - apply forget_cases in Hs as [[-> _]|(_ & j & e & s & He & Hp & Hc & Hst & -> & Hw)];
      [apply move_stay| |done].
    unfold abs. rewrite (find_remove a j e p Hwf He). case_decide as Hd; [|apply move_stay].
    subst. rewrite (proj2 (find_entry_some a (permit e) e Hwf)) by
      (split; [by eapply list_elem_of_lookup_2|done]).
    apply completion_state_ok in Hc as (d & _ & -> & _). cbn.
    assert (serial (permit e) <= through a) as Hle.
    { pose proof (wf_serials _ Hwf) as Hser. rewrite Forall_forall in Hser.
      apply list_elem_of_lookup_2, Hser in He. lia. }
    rewrite (proj2 (Z.leb_le _ _) Hle). constructor.
Qed.

Lemma step_host a a' : wf a -> step a a' -> saved_host a' = saved_host a.
Proof.
  intros Hwf Hs. destruct Hs as [ps a a' r Hty Hs|p r' a a' r Hr Hs|i a a' r Hr Hs|i a a' r Hs].
  - apply register_cases in Hs; [naive_solver|done..].
  - apply fence_cases in Hs as [[-> _]|(_ & ? & ? & _ & _ & _ & -> & _)]; done.
  - apply complete_cases in Hs as [[-> _]|(_ & ? & ? & ? & _ & _ & _ & _ & -> & _)]; done.
  - apply forget_cases in Hs as [[-> _]|(_ & ? & ? & ? & _ & _ & _ & _ & -> & _)]; done.
Qed.

(** C36. The authority refines the life cycle: every call, accepted or refused, moves each
    permit at most one step along registered, fenced, completed, forgotten, and the
    authority grants a launch to exactly the valid permits of its host that are open. *)
Theorem authority_refines_lifecycle a a' p :
  wf a -> step a a' ->
  wf a' /\ move (abs a p) (abs a' p) /\
  (authorize a' p = Ok tt <->
   permit_validate p = Ok tt /\ host p = saved_host a' /\ abs a' p = Open).
Proof.
  intros Hwf Hs. pose proof (step_wf _ _ Hwf Hs) as Hwf'.
  split_and!; [done|by apply step_move|by apply authorize_ok].
Qed.

(** A permit that may no longer be launched. *)
Definition denied (l : lifecycle) : bool :=
  match l with Unseen | Open => false | Shut _ | Done _ _ | Gone => true end.

Lemma move_denied l l' : move l l' -> denied l = true -> denied l' = true.
Proof. by destruct 1. Qed.

Lemma steps_moves a a' p :
  wf a -> rtc step a a' -> rtc move (abs a p) (abs a' p).
Proof.
  intros Hwf Hs. induction Hs as [|a b c Hab Hbc IH]; [done|].
  eapply rtc_l; [by apply step_move|]. apply IH. by eapply step_wf.
Qed.

Lemma denied_steps a a' p :
  wf a -> rtc step a a' -> denied (abs a p) = true -> denied (abs a' p) = true.
Proof.
  intros Hwf Hs. pose proof (steps_moves a a' p Hwf Hs) as Hm.
  induction Hm; eauto using move_denied.
Qed.

(** Denial is permanent: once a permit is fenced, completed or forgotten, or its
    serial was passed over, no sequence of calls makes the authority launch it again. *)
Theorem denial_is_permanent a a' p :
  wf a -> denied (abs a p) = true -> rtc step a a' -> authorize a' p <> Ok tt.
Proof.
  intros Hwf Hd Hs Ha. pose proof (denied_steps a a' p Hwf Hs Hd) as Hd'.
  apply authorize_ok in Ha as (_ & _ & Ho); [|by eapply steps_wf]. by rewrite Ho in Hd'.
Qed.

(** A serial names one permit for ever: if one permit could be launched and, after
    any calls, another with its serial can be, they are the same permit. *)
Theorem serial_never_reused a a' p p' :
  wf a -> rtc step a a' -> serial p = serial p' ->
  authorize a p = Ok tt -> authorize a' p' = Ok tt -> p' = p.
Proof.
  intros Hwf Hs Hser Ha Ha'. destruct (decide (p' = p)) as [|Hne]; [done|exfalso].
  apply authorize_ok in Ha as (_ & _ & Ho); [|done].
  assert (abs a p' = Gone) as Hg.
  { unfold abs in Ho |- *. destruct (find_entry a p) as [e|] eqn:Hf.
    - apply find_entry_some in Hf as [Hin Hp]; [|done].
      assert (serial (permit e) <= through a) as Hle.
      { pose proof (wf_serials _ Hwf) as Hss. rewrite Forall_forall in Hss. by apply Hss. }
      rewrite (proj2 (find_entry_none a p')).
      + rewrite (proj2 (Z.leb_le _ _)); [done|]. subst. lia.
      + intros e' Hin' Hp'. apply Hne. rewrite <- Hp, <- Hp'.
        apply list_elem_of_lookup in Hin as [i Hi]. apply list_elem_of_lookup in Hin' as [j Hj].
        assert (i = j); [|congruence].
        apply (sorted_serial_inj _ _ _ _ _ (wf_sorted _ Hwf) Hi Hj). congruence.
    - by destruct (serial p <=? through a). }
  assert (denied (abs a' p') = true) as Hd by (eapply denied_steps; [done|done|by rewrite Hg]).
  apply authorize_ok in Ha' as (_ & _ & Ho'); [|by eapply steps_wf]. by rewrite Ho' in Hd.
Qed.

(** Forgetting needs the exact receipt and touches nothing else: it succeeds only for
    a non-simulated intent whose very digest completed its permit, leaves the permit gone
    for good, and keeps every other permit and the frontier as they were. *)
Theorem forget_exact i a a' :
  wf a -> forget i a = (a', Ok tt) ->
  exists d,
    Intent.digest i = Ok d /\ Retirement.simulated i = false /\
    abs a (Retirement.permit i) = Done (Retirement.retirement i) d /\
    abs a' (Retirement.permit i) = Gone /\ state_of a' (Retirement.permit i) = Err Closed /\
    through a' = through a /\ retained a' = retained a - 1 /\
    forall p, p <> Retirement.permit i -> find_entry a' p = find_entry a p.
Proof.
  intros Hwf Hf. apply forget_cases in Hf as [[_ [e He]]|(_ & j & e & s & He & Hp & Hc & Hst & -> & Hw)];
    [done| |done].
  pose proof (completion_state_ok _ _ Hc) as (d & Hd & -> & Hsim & Hv & _). exists d.
  assert (find_entry a (Retirement.permit i) = Some e) as Hfe.
  { apply find_entry_some; [done|]. by apply list_elem_of_lookup_2 in He. }
  assert (serial (permit e) <= through a) as Hle.
  { pose proof (wf_serials _ Hwf) as Hser. rewrite Forall_forall in Hser.
    apply list_elem_of_lookup_2, Hser in He. lia. }
  assert (find_entry (remove a j) (Retirement.permit i) = None) as Hnone.
  { rewrite (find_remove a j e _ Hwf He). by rewrite decide_True. }
  split_and!; try done.
  - unfold abs. by rewrite Hfe, Hst.
  - unfold abs. rewrite Hnone, <- Hp. by rewrite (proj2 (Z.leb_le _ _)).
  - unfold state_of, entry. destruct (index (remove a j) _) as [k|err] eqn:Hi; cbn.
    + apply index_ok in Hi as (_ & _ & e' & He' & Hp'); [|done].
      rewrite find_entry_none in Hnone. apply list_elem_of_lookup_2 in He'. by destruct (Hnone e').
    + apply index_err in Hi as [[_ Hi]|[[_ Hi]|[[-> _]|[_ Hi]]]]; [| |done| |done].
      * pose proof (wf_permits _ Hwf) as Hps. rewrite Forall_forall in Hps.
        apply list_elem_of_lookup_2, Hps in He. by rewrite Hp in He.
      * exfalso. destruct Hi as [Hh|(e' & Hin & Hser & _)].
        -- pose proof (wf_hosts _ Hwf) as Hhs. rewrite Forall_forall in Hhs.
           apply list_elem_of_lookup_2, Hhs in He. cbn in Hh. congruence.
        -- cbn in Hin. apply list_elem_of_lookup in Hin as [k Hk]. rewrite list_lookup_delete in Hk.
           assert (serial (permit e') = serial (permit e)) as Heq by congruence.
           case_decide; pose proof (sorted_serial_inj _ _ _ _ _ (wf_sorted _ Hwf) Hk He Heq); lia.
      * cbn in Hi. rewrite <- Hp in Hi. lia.
  - unfold retained. cbn. unfold listlen. apply lookup_lt_Some in He as Hlt.
    rewrite length_delete by eauto. lia.
  - intros p Hne. rewrite (find_remove a j e p Hwf He). by rewrite decide_False by congruence.
Qed.

(** C37. Transitions are all-or-nothing: a refused call leaves the authority unchanged. *)
Theorem refused_unchanged a a' e :
  wf a ->
  (exists ps, Forall (fun p => permit_typed p = true) ps /\ register ps a = (a', Err e)) \/
  (exists p r, id_typed r = true /\ fence p r a = (a', Err e)) \/
  (exists i, id_typed (Retirement.retirement i) = true /\ complete i a = (a', Err e)) \/
  (exists i, forget i a = (a', Err e)) ->
  a' = a.
Proof.
  intros Hwf [(ps & Hty & Hs)|[(p & r & Hr & Hs)|[(i & Hr & Hs)|(i & Hs)]]].
  - apply register_cases in Hs; [naive_solver|done..].
  - apply fence_cases in Hs; [naive_solver|done..].
  - apply complete_cases in Hs; [naive_solver|done..].
  - apply forget_cases in Hs; [naive_solver|done..].
Qed.

(** Registration issues exactly the next contiguous batch. When it changes anything,
    the batch continues the frontier without a gap, all of it becomes open, and nothing
    retained moves; otherwise a success means every permit of the batch is retained. *)
Theorem register_contiguous ps a a' :
  wf a -> Forall (fun p => permit_typed p = true) ps -> register ps a = (a', Ok tt) ->
  (a' = a /\ Forall (fun p => exists e, find_entry a p = Some e) ps) \/
  (through a' = through a + listlen ps /\ 0 < listlen ps <= MAX_BATCH /\
   through a' <= MAX_SERIAL /\ retained a' <= MAX_ENTRIES /\
   (forall i p, ps !! i = Some p ->
      serial p = through a + 1 + Z.of_nat i /\ abs a p = Unseen /\ abs a' p = Open) /\
   (forall p e, find_entry a p = Some e -> find_entry a' p = Some e)).
Proof.
  intros Hwf Hty Hr. apply register_cases in Hr as [[_ [e He]]|[(-> & _ & _ & Hall)|Hr]]; [done|by left| |done..].
  destruct Hr as (_ & Hwf' & _ & Hne & Hlen & He & Ht & Hser). right. split_and!; try done.
  - destruct ps; [done|]. unfold listlen. cbn. lia.
  - apply Hwf'.
  - apply Hwf'.
  - intros i p Hp. pose proof (Hser _ _ Hp) as Hs. split; [done|].
    assert (find_entry a p = None) as Hn.
    { apply find_entry_none. intros e Hin Hpe. pose proof (wf_serials _ Hwf) as Hss.
      rewrite Forall_forall in Hss. apply Hss in Hin. subst. lia. }
    unfold abs. rewrite (find_push a a' ps p) by done. rewrite Hn.
    rewrite (proj2 (Z.leb_gt _ _)) by lia. split; [done|].
    apply list_elem_of_lookup_2 in Hp. by rewrite decide_True.
  - intros p e Hf. rewrite (find_push a a' ps p) by done. by rewrite Hf.
Qed.

(** C38. Storage loses nothing: every state reachable from a fresh authority encodes or is
    refused for size alone, and what is written decodes to that same state for a reader
    whose retained frontier it reaches. *)
Theorem storage_round_trip h a0 a m :
  id_typed h = true -> new h = Ok a0 -> rtc step a0 a -> m <= through a ->
  match encode a with
  | Ok b => decode b h m = Ok a /\ strlen b <= MAX_BYTES
  | Err e => e = Capacity
  end.
Proof.
  intros Hh Hn Hs Hm. pose proof (wf_new _ _ Hh Hn) as Hwf0.
  assert (wf a) as Hwf by eauto using steps_wf.
  assert (saved_host a = h) as <-.
  { assert (saved_host a0 = h) as <- by (unfold new in Hn; by inv_ok).
    clear Hn Hh Hm Hwf. induction Hs as [|x y z Hxy Hyz IH]; [done|].
    rewrite IH by eauto using step_wf. by apply step_host. }
  destruct (encode a) as [b|e] eqn:He.
  - split; [by apply decode_encode|]. unfold encode in He. inv_ok. by bools.
  - unfold encode in He. destruct (to_vec_some a (wf_representable _ Hwf)) as [b Hb].
    rewrite Hb in He. cbn in He. case_match; naive_solver.
Qed.
End theorems.

(** ** The theorems at a concrete authority

    A host registers two permits, fences the first, completes its retirement and forgets
    it, with the reference serialization and digest. *)

Module Sample.
Import Ref.
#[local] Instance Saved_serde : Serde Saved := Ref.serde saved_representable.
#[local] Instance Saved_serde_laws : SerdeLaws Saved saved_representable :=
  Ref.serde_laws saved_representable.

Definition fresh : Saved := {| version := 1; saved_host := sample_id 1; through := 0; entries := [] |}.
Definition registered : Saved :=
  Eval vm_compute in (register [sample_permit 1; sample_permit 2] fresh).1.
Definition fenced : Saved := Eval vm_compute in (fence (sample_permit 1) (sample_id 401) registered).1.
Definition completed : Saved := Eval vm_compute in (complete (sample_intent 1) fenced).1.
Definition forgotten : Saved := Eval vm_compute in (forget (sample_intent 1) completed).1.

Lemma wf_fresh : wf fresh.
Proof. apply wf_check. by vm_compute. Qed.
Lemma step_registered : step fresh registered.
Proof. apply (step_register [sample_permit 1; sample_permit 2] _ _ (Ok tt)); [by repeat constructor|by vm_compute]. Qed.
Lemma step_fenced : step registered fenced.
Proof. apply (step_fence (sample_permit 1) (sample_id 401) _ _ (Ok tt)); by vm_compute. Qed.
Lemma step_completed : step fenced completed.
Proof. apply (step_complete (sample_intent 1) _ _ (Ok tt)); by vm_compute. Qed.
Lemma step_forgotten : step completed forgotten.
Proof. apply (step_forget (sample_intent 1) _ _ (Ok tt)). by vm_compute. Qed.
Lemma wf_registered : wf registered.
Proof. eapply step_wf; [apply wf_fresh|apply step_registered]. Qed.
Lemma wf_fenced : wf fenced.
Proof. eapply step_wf; [apply wf_registered|apply step_fenced]. Qed.
Lemma wf_completed : wf completed.
Proof. eapply step_wf; [apply wf_fenced|apply step_completed]. Qed.

Lemma authority_refines_lifecycle_witness :
  abs registered (sample_permit 1) = Open /\
  abs fenced (sample_permit 1) = Shut (sample_id 401) /\
  move (abs registered (sample_permit 1)) (abs fenced (sample_permit 1)).
Proof.
  split; [by vm_compute|split; [by vm_compute|]].
  exact (proj1 (proj2 (authority_refines_lifecycle _ _ (sample_permit 1) wf_registered step_fenced))).
Defined.

Lemma denial_is_permanent_witness :
  denied (abs fenced (sample_permit 1)) = true /\ authorize forgotten (sample_permit 1) <> Ok tt.
Proof.
  split; [by vm_compute|]. apply (denial_is_permanent fenced forgotten (sample_permit 1)).
  - apply wf_fenced.
  - by vm_compute.
  - eapply rtc_l; [apply step_completed|]. apply rtc_once, step_forgotten.
Defined.

Lemma serial_never_reused_witness :
  authorize registered (sample_permit 2) = Ok tt /\ authorize forgotten (sample_permit 2) = Ok tt /\
  sample_permit 2 = sample_permit 2.
Proof.
  split; [by vm_compute|split; [by vm_compute|]].
  apply (serial_never_reused registered forgotten (sample_permit 2) (sample_permit 2)).
  - apply wf_registered.
  - eapply rtc_l; [apply step_fenced|]. eapply rtc_l; [apply step_completed|].
    apply rtc_once, step_forgotten.
  - done.
  - by vm_compute.
  - by vm_compute.
Defined.

Lemma forget_exact_witness :
  forget (sample_intent 1) completed = (forgotten, Ok tt) /\
  abs forgotten (sample_permit 1) = Gone /\
  find_entry forgotten (sample_permit 2) = find_entry completed (sample_permit 2).
Proof.
  assert (forget (sample_intent 1) completed = (forgotten, Ok tt)) as Hf by (by vm_compute).
  split; [exact Hf|].
  destruct (forget_exact (sample_intent 1) completed forgotten wf_completed Hf)
    as (d & _ & _ & _ & Hg & _ & _ & _ & Hp).
  split; [exact Hg|]. by apply Hp.
Defined.

Lemma refused_unchanged_witness :
  fence (sample_permit 1) (sample_id 999) fenced = (fenced, Err Conflict) /\ fenced = fenced.
Proof.
  assert (fence (sample_permit 1) (sample_id 999) fenced = (fenced, Err Conflict)) as Hf by (by vm_compute).
  split; [exact Hf|]. apply (refused_unchanged fenced fenced Conflict wf_fenced).
  right; left. exists (sample_permit 1), (sample_id 999). by split.
Defined.

Lemma register_contiguous_witness :
  register [sample_permit 1; sample_permit 2] fresh = (registered, Ok tt) /\
  through registered = through fresh + 2.
Proof.
  assert (register [sample_permit 1; sample_permit 2] fresh = (registered, Ok tt)) as Hr
    by (by vm_compute).
  split; [exact Hr|].
  destruct (register_contiguous [sample_permit 1; sample_permit 2] fresh registered wf_fresh
              ltac:(by repeat constructor) Hr) as [[He _]|[Ht _]]; [done|exact Ht].
Defined.

Lemma storage_round_trip_witness :
  match encode completed with
  | Ok b => decode b (sample_id 1) 2 = Ok completed /\ strlen b <= MAX_BYTES
  | Err e => e = Capacity
  end.
Proof.
  apply (storage_round_trip (sample_id 1) fresh completed 2).
  - done.
  - by vm_compute.
  - eapply rtc_l; [apply step_registered|]. eapply rtc_l; [apply step_fenced|].
    apply rtc_once, step_completed.
  - done.
Defined.
End Sample.
