(* ===== verification/Lease.v ===== *)
(** * The allocation deadline (crates/sandbox-supervisor/src/lease.rs)

    An atomic cell holds the boot-clock instant at which the allocation expires; zero is
    a fence. Each method is given twice: as a function on the cell, and as the sequence of
    atomic accesses it performs, so that calls of several threads may interleave. *)

From S2P Require Import Prelude.

(** [Deadline(AtomicU64)] *)
Abbreviation Deadline := Z (only parsing).

Definition convert (expires wall boot : Z) : result anyhow Z :=
  remaining ← ok_or (i64_checked_sub expires wall) "invalid lease deadline";
  _ ← ensure (contains 1 300000 remaining) "lease must expire within 300 seconds";
  ok_or (u64_checked_add boot remaining) "lease clock overflow".

(** [Deadline::new] *)
Definition new (expires_unix_ms wall_ms boot_ms : Z) : result anyhow Deadline :=
  convert expires_unix_ms wall_ms boot_ms.

(** [i64::try_from] of an unsigned value. *)
Definition i64_try_from (z : Z) : result anyhow Z :=
  if z <=? I64_MAX then Ok z else Err "out of range integral type conversion attempted".

Definition compare_exchange (current new_value : Z) : ST Deadline anyhow unit :=
  d ← get;
  if d =? current then put new_value else fail "compare_exchange".

Definition value (d : Deadline) : Z := d.
Definition stop (d : Deadline) : Deadline := 0.

(** The checks of [extend]: the value its compare-and-exchange will install. *)
Definition extend_next (prior expires wall boot : Z) : result anyhow Z :=
  wall ← i64_try_from wall;
  next ← convert expires wall boot;
  _ ← ensure ((boot <? prior) && (prior <=? next)) "expired or shortening lease";
  Ok next.

(** [Deadline::extend] *)
Definition extend (prior expires wall boot : Z) : ST Deadline anyhow unit := fun d =>
  match extend_next prior expires wall boot with
  | Err e => (d, Err e)
  | Ok next =>
      let '(d', r) := compare_exchange prior next d in
      (d', map_err (fun _ => "lease was fenced or changed") r)
  end.

(** [Deadline::expire] *)
Definition expire (boot : Z) (d : Deadline) : Deadline * bool :=
  let prior := value d in
  if negb (prior =? 0) && (prior <=? boot) then
    let '(d', r) := compare_exchange prior 0 d in (d', is_ok r)
  else (d, false).

(** ** Interleavings *)

Inductive call : Type :=
| Stop
| Extend (prior expires wall boot : Z)
| Expire (boot : Z).

Inductive outcome : Type :=
| Stopped
| Extended (r : result anyhow unit)
| Expired (b : bool).

(** A thread that is inside a call: before its first access, between the load and the
    exchange of [expire], or returned. *)
Inductive thread : Type :=
| Called (c : call)
| Loaded (boot prior : Z)
| Returned (o : outcome).

(** One atomic access of a thread. *)
Definition access (d : Deadline) (t : thread) : option (Deadline * thread) :=
  match t with
  | Called Stop => Some (stop d, Returned Stopped)
  | Called (Extend p e w b) =>
      let '(d', r) := extend p e w b d in Some (d', Returned (Extended r))
  | Called (Expire b) => Some (d, Loaded b (value d))
  | Loaded boot prior =>
      if negb (prior =? 0) && (prior <=? boot) then
        let '(d', r) := compare_exchange prior 0 d in Some (d', Returned (Expired (is_ok r)))
      else Some (d, Returned (Expired false))
  | Returned _ => None
  end.

Inductive step : Deadline * list thread -> Deadline * list thread -> Prop :=
| step_access d d' ts i t t' :
    ts !! i = Some t -> access d t = Some (d', t') -> step (d, ts) (d', <[i := t']> ts).

(** Arguments as [extend] and [expire] get them: clocks are unsigned. *)
Definition thread_typed (t : thread) : bool :=
  match t with
  | Called (Extend p _ w b) => in_u64 p && in_u64 w && in_u64 b
  | Called (Expire b) => in_u64 b
  | Loaded b p => in_u64 b && in_u64 p
  | _ => true
  end.

Lemma convert_ok expires wall boot next :
  convert expires wall boot = Ok next <->
  next = boot + (expires - wall) /\ 1 <= expires - wall <= 300000 /\ 0 <= next <= U64_MAX.
Proof.
  unfold convert, ok_or. split.
  - intros Hc. apply bind_ok in Hc as (r & Hr & Hc).
    destruct (i64_checked_sub _ _) as [r'|] eqn:Hs; [|done]. injection Hr as ->.
    apply i64_checked_sub_some in Hs as [-> _]. apply bind_ok in Hc as ([] & Hb & Hc).
    apply ensure_ok, contains_spec in Hb. destruct (u64_checked_add _ _) eqn:Ha; [|done].
    injection Hc as ->. apply u64_checked_add_some in Ha as [-> Ha]. lia.
  - intros (-> & Hr & Hn).
    rewrite (proj2 (i64_checked_sub_some expires wall (expires - wall))) by
      (unfold I64_MIN, I64_MAX; lia). cbn.
    rewrite (proj2 (contains_spec 1 300000 (expires - wall))) by lia. cbn.
    by rewrite (proj2 (u64_checked_add_some boot (expires - wall) _)) by eauto.
Qed.

Lemma extend_next_ok prior expires wall boot next :
  extend_next prior expires wall boot = Ok next <->
  wall <= I64_MAX /\ next = boot + (expires - wall) /\ 1 <= expires - wall <= 300000 /\
  0 <= next <= U64_MAX /\ boot < prior <= next.
Proof.
  unfold extend_next, i64_try_from. destruct (Z.leb_spec wall I64_MAX) as [Hw|Hw].
  - cbn. split.
    + intros Hc. apply bind_ok in Hc as (n & Hn & Hc). apply convert_ok in Hn.
      apply bind_ok in Hc as ([] & Hb & [= <-]). apply ensure_ok in Hb. bools. lia.
    + intros (_ & Hn & Hr & Hb & Hp). apply bind_ok. exists next.
      split; [by apply convert_ok|]. apply bind_ok. exists tt. split; [|done].
      apply ensure_ok. rewrite andb_true_iff, Z.ltb_lt, Z.leb_le. lia.
  - cbn. split; [done|]. lia.
Qed.

Lemma compare_exchange_cases current new_value d :
  compare_exchange current new_value d =
  if decide (d = current) then (new_value, Ok tt) else (d, Err "compare_exchange").
Proof.
  unfold compare_exchange, mbind, ST_bind, get, put, fail. cbn.
  destruct (Z.eqb_spec d current); [by rewrite decide_True|by rewrite decide_False].
Qed.

Lemma extend_cases prior expires wall boot d d' r :
  extend prior expires wall boot d = (d', r) ->
  (r = Ok tt /\ d = prior /\ extend_next prior expires wall boot = Ok d') \/
  (d' = d /\ exists e, r = Err e).
Proof.
  unfold extend. destruct (extend_next _ _ _ _) as [n|e] eqn:Hn; [|intros [= <- <-]; eauto].
  rewrite compare_exchange_cases. case_decide; intros [= <- <-]; cbn; eauto.
Qed.

(** One access writes a fence, a later deadline over a live one, or nothing. *)
Lemma access_cases d t d' t' :
  thread_typed t = true -> access d t = Some (d', t') ->
  d' = 0 \/ d' = d \/
  (exists e w b, t = Called (Extend d e w b) /\ 0 <= b < d /\ d <= d' <= b + 300000).
Proof.
  intros Hty. destruct t as [[|p e w b|b]|b p|]; cbn; try done.
  - intros [= <- _]. auto.
  - destruct (extend p e w b d) as [d1 r] eqn:He. intros [= <- _].
    apply extend_cases in He as [(-> & -> & Hn)|[-> _]]; [|auto].
    apply extend_next_ok in Hn. cbn in Hty. bools. unfold in_u64 in *. bools.
    right; right. exists e, w, b. split; [done|]. lia.
  - intros [= <- _]. auto.
  - destruct (negb (p =? 0) && (p <=? b)); [|intros [= <- _]; auto].
    rewrite compare_exchange_cases. case_decide; intros [= <- _]; auto.
Qed.

Lemma access_typed d t d' t' :
  in_u64 d = true -> thread_typed t = true -> access d t = Some (d', t') ->
  in_u64 d' = true /\ thread_typed t' = true.
Proof.
  intros Hd Hty. destruct t as [[|p e w b|b]|b p|]; cbn; try done.
  - intros [= <- <-]. done.
  - destruct (extend p e w b d) as [d1 r] eqn:He. intros [= <- <-].
    apply extend_cases in He as [(-> & -> & Hn)|[-> _]]; [|done].
    apply extend_next_ok in Hn. rewrite in_u64_spec. split; [lia|done].
  - intros [= <- <-]. cbn in *. by rewrite Hty.
  - destruct (negb (p =? 0) && (p <=? b)); [|intros [= <- <-]; done].
    rewrite compare_exchange_cases. case_decide; intros [= <- <-]; done.
Qed.

Definition config_typed (c : Deadline * list thread) : Prop :=
  in_u64 c.1 = true /\ Forall (fun t => thread_typed t = true) c.2.

Lemma step_typed c c' : config_typed c -> step c c' -> config_typed c'.
Proof.
  intros [Hd Hts] Hs. destruct Hs as [d d' ts i t t' Hi Ha]. cbn in *.
  pose proof (Forall_lookup_1 _ _ _ _ Hts Hi) as Ht.
  destruct (access_typed _ _ _ _ Hd Ht Ha). split; [done|]. by apply Forall_insert.
Qed.

(** C39. The fence is irrevocable under every interleaving of stops, extensions and
    expiries: a stopped deadline stays stopped, and a deadline that is still live was
    never shortened. *)
Theorem fence_is_irrevocable c c' :
  config_typed c -> rtc step c c' ->
  (c.1 = 0 -> c'.1 = 0) /\ (c'.1 <> 0 -> c.1 <> 0 /\ c.1 <= c'.1).
Proof.
  intros Hty Hs. induction Hs as [c|c c1 c' Hs Hss IH]; [lia|].
  specialize (IH (step_typed _ _ Hty Hs)). destruct Hty as [_ Hty].
  destruct Hs as [d d1 ts i t t' Hi Ha]. cbn in *.
  pose proof (Forall_lookup_1 _ _ _ _ Hty Hi) as Ht.
  destruct (access_cases _ _ _ _ Ht Ha) as [->|[->|(e & w & b & _ & ? & ?)]]; lia.
Qed.

(** A deadline changes hands soundly: an extension that reports success observed its
    own prior value and installed a deadline at most 300 seconds after the clock it read;
    an expiry that reports success found the clock at or past the deadline it fenced. *)
Theorem lease_calls_sound d :
  in_u64 d = true ->
  (forall p e w b d', in_u64 p = true -> in_u64 w = true -> in_u64 b = true ->
     extend p e w b d = (d', Ok tt) ->
     d = p /\ b < d /\ d <= d' <= b + 300000 /\ d' - b = e - w) /\
  (forall b d', expire b d = (d', true) -> d <> 0 /\ d <= b /\ d' = 0) /\
  (forall b d', expire b d = (d', false) -> d' = d /\ (d = 0 \/ b < d)).
Proof.
  intros Hd. split_and!.
  - intros p e w b d' Hp Hw Hb He. apply extend_cases in He as [(_ & -> & Hn)|[_ [? ?]]]; [|done].
    apply extend_next_ok in Hn. lia.
  - intros b d'. unfold expire, value. destruct (Z.eqb_spec d 0), (Z.leb_spec d b); cbn; try done.
    rewrite compare_exchange_cases. rewrite decide_True by done. intros [= <-]. lia.
  - intros b d'. unfold expire, value. destruct (Z.eqb_spec d 0), (Z.leb_spec d b); cbn;
      try (intros [= <-]; lia).
    rewrite compare_exchange_cases. by rewrite decide_True by done.
Qed.

Lemma fence_is_irrevocable_witness :
  step (1100, [Called (Extend 1100 3000 1500 600); Called Stop])
       (0, [Called (Extend 1100 3000 1500 600); Returned Stopped]) /\
  (0 = 0 ->
   (2100, [Returned (Extended (Ok tt)); Called Stop]).1 = 2100 /\
   (0, [Returned (Extended (Err "lease was fenced or changed")); Returned Stopped]).1 = 0).
Proof.
  split; [exact (step_access 1100 0 [Called (Extend 1100 3000 1500 600); Called Stop] 1 _ _ eq_refl eq_refl)|]. intros Hz. split; [done|].
  apply (proj1 (fence_is_irrevocable
    (0, [Called (Extend 1100 3000 1500 600); Returned Stopped])
    (0, [Returned (Extended (Err "lease was fenced or changed")); Returned Stopped])
    ltac:(split; [done|by repeat constructor])
    ltac:(apply rtc_once; exact (step_access 0 0 [Called (Extend 1100 3000 1500 600); Returned Stopped] 0 _ _ eq_refl eq_refl)))).
  exact Hz.
Defined.

Lemma lease_calls_sound_witness :
  extend 1100 3000 1500 600 1100 = (2100, Ok tt) /\ 1100 <= 2100 <= 600 + 300000.
Proof.
  assert (extend 1100 3000 1500 600 1100 = (2100, Ok tt)) as He by (by vm_compute).
  split; [exact He|].
  destruct (lease_calls_sound 1100 eq_refl) as [Hx _].
  apply (Hx 1100 3000 1500 600 2100 eq_refl eq_refl eq_refl He).
Defined.
