(* ===== verification/Fs.v ===== *)
(** * A private directory, and what a crash may leave of it

    The operating system the supervisor's durable stores run on, for one directory: inodes
    with contents and ownership, names, advisory locks, [fsync] of files and of the
    directory, and faults. Changes to names reach the disk in the order they were made and
    may be lost by a crash from any point on, until the directory is synced; the contents
    of a file that was not synced are arbitrary after a crash. Every system call may fail. *)

From S2P Require Import Prelude.

(** ** Ownership of a file or directory, as [symlink_metadata] reports it *)

Inductive file_type : Type := Directory | Regular | Symlink | Special.
#[export] Instance file_type_eq_dec : EqDecision file_type.
Proof. solve_decision. Defined.

Record Metadata : Type := { ftype : file_type; uid : Z; mode : Z; nlink : Z }.
#[export] Instance Metadata_eq_dec : EqDecision Metadata.
Proof. solve_decision. Defined.

Record inode : Type := {
  meta : Metadata;
  content : bytes;
  on_disk : bool;  (** [content] has been synced *)
}.
#[export] Instance inode_eq_dec : EqDecision inode.
Proof. solve_decision. Defined.

(** A change to the directory's names. *)
Inductive dir_op : Type :=
| Link (name : string) (ino : N)
| Unlink (name : string)
| Rename (from to : string).

Definition apply_op (names : gmap string N) (op : dir_op) : gmap string N :=
  match op with
  | Link n i => <[n := i]> names
  | Unlink n => delete n names
  | Rename a b => match names !! a with Some i => <[b := i]> (delete a names) | None => names end
  end.
Definition apply_ops (names : gmap string N) (ops : list dir_op) : gmap string N :=
  foldl apply_op names ops.

(** An advisory lock held on an inode. *)
Inductive lock_state : Type := Shared (holders : positive) | Exclusive.

Record Dir : Type := {
  dir_meta : option Metadata;  (** [None]: the directory does not exist *)
  device : Z;
  inodes : gmap N inode;
  synced_names : gmap string N;
  pending : list dir_op;
  fresh_ino : N;
  locks : gmap N lock_state;
}.

(** The names a process sees: every change, synced or not. *)
Definition names (d : Dir) : gmap string N := apply_ops (synced_names d) (pending d).

(** What a crash leaves when the first [k] pending changes had reached the disk, where
    [junk] gives the contents of the files that were not synced. *)
Definition crash_inode (junk : N -> bytes) (i : N) (x : inode) : inode := {|
  meta := meta x;
  content := if on_disk x then content x else junk i;
  on_disk := true
|}.
Definition crash (k : nat) (junk : N -> bytes) (d : Dir) : Dir := {|
  dir_meta := dir_meta d; device := device d;
  inodes := map_imap (fun i x => Some (crash_inode junk i x)) (inodes d);
  synced_names := apply_ops (synced_names d) (take k (pending d));
  pending := []; fresh_ino := fresh_ino d; locks := ∅
|}.

(** ** System calls *)

(** Why a call failed: contention of the launch lock is told apart from everything else. *)
Inductive error (L : Type) : Type :=
| LockContended
| Ledger (e : L)
| Message (m : anyhow).
Arguments LockContended {L}.
Arguments Ledger {L} e.
Arguments Message {L} m.
#[export] Instance error_eq_dec `{EqDecision L} : EqDecision (error L).
Proof. solve_decision. Defined.

(** The directory, and which of the coming system calls fail; a failing write leaves the
    given contents behind. *)
Record World : Type := {
  dir : Dir;
  clock : nat;
  faults : nat -> option bytes;
  root_user : bool;
  canonical_root : string;
}.

Definition set_dir (w : World) (d : Dir) : World := {|
  dir := d; clock := clock w; faults := faults w; root_user := root_user w;
  canonical_root := canonical_root w
|}.
Definition tick (w : World) : World := {|
  dir := dir w; clock := S (clock w); faults := faults w; root_user := root_user w;
  canonical_root := canonical_root w
|}.

Section io.
Context {L : Type}.
Abbreviation IO := (ST World (error L)).

Definition bail {A} (m : anyhow) : IO A := fail (Message m).
Definition ensure_io (c : bool) (m : anyhow) : IO unit := lift (ensure c (Message m)).

(** A system call without a partial effect. *)
Definition syscall {A} (f : Dir -> result anyhow (Dir * A)) : IO A := fun w =>
  let w' := tick w in
  match faults w (clock w) with
  | Some _ => (w', Err (Message "io"))
  | None => match f (dir w) with
            | Ok (d, a) => (set_dir w' d, Ok a)
            | Err m => (w', Err (Message m))
            end
  end.

Definition query {A} (f : Dir -> result anyhow A) : IO A :=
  syscall (fun d => a ← f d; Ok (d, a)).

Definition with_inodes (d : Dir) (m : gmap N inode) : Dir := {|
  dir_meta := dir_meta d; device := device d; inodes := m; synced_names := synced_names d;
  pending := pending d; fresh_ino := fresh_ino d; locks := locks d |}.
Definition with_pending (d : Dir) (op : dir_op) : Dir := {|
  dir_meta := dir_meta d; device := device d; inodes := inodes d;
  synced_names := synced_names d; pending := pending d ++ [op]; fresh_ino := fresh_ino d;
  locks := locks d |}.
Definition with_locks (d : Dir) (m : gmap N lock_state) : Dir := {|
  dir_meta := dir_meta d; device := device d; inodes := inodes d;
  synced_names := synced_names d; pending := pending d; fresh_ino := fresh_ino d; locks := m |}.

(** [symlink_metadata(root.join(name))] *)
Definition lookup_meta (name : string) (d : Dir) : result anyhow (option (N * Metadata)) :=
  match names d !! name with
  | None => Ok None
  | Some i => x ← ok_or (inodes d !! i) "stale"; Ok (Some (i, meta x))
  end.
Definition symlink_metadata (name : string) : IO (option (N * Metadata)) :=
  query (lookup_meta name).

(** [OpenOptions] with [O_NOFOLLOW]: an existing name is opened unless it is a link; a
    directory cannot be opened for writing. *)
Definition open_existing (name : string) : IO N := query (fun d =>
  i ← ok_or (names d !! name) "not found";
  x ← ok_or (inodes d !! i) "stale";
  _ ← ensure (negb (bool_decide (ftype (meta x) = Symlink))) "symbolic link";
  Ok i).

(** [create_new(true).mode(mode)] of a name: the file is new and empty. *)
Definition new_file (md : Z) : inode := {|
  meta := {| ftype := Regular; uid := 0; mode := md; nlink := 1 |}; content := ""; on_disk := false
|}.
Definition link_new (name : string) (md : Z) (d : Dir) : Dir := {|
  dir_meta := dir_meta d; device := device d;
  inodes := <[fresh_ino d := new_file md]> (inodes d);
  synced_names := synced_names d;
  pending := pending d ++ [Link name (fresh_ino d)];
  fresh_ino := (fresh_ino d + 1)%N; locks := locks d |}.
Definition create_new (name : string) (md : Z) : IO N := syscall (fun d =>
  _ ← ensure (is_none (names d !! name)) "already exists";
  Ok (link_new name md d, fresh_ino d)).

(** [read(true).write(true).create(create).mode(mode)] *)
Definition open_or_create (name : string) (create : bool) (md : Z) : IO N := syscall (fun d =>
  match names d !! name with
  | Some i =>
      x ← ok_or (inodes d !! i) "stale";
      _ ← ensure (bool_decide (ftype (meta x) = Regular)) "not a regular file";
      Ok (d, i)
  | None =>
      _ ← ensure create "not found";
      Ok (link_new name md d, fresh_ino d)
  end).

(** [file.metadata()] of an open file. *)
Definition fstat (i : N) : IO Metadata := query (fun d => meta <$> ok_or (inodes d !! i) "stale").

Definition read_to_end (i : N) : IO bytes :=
  query (fun d => content <$> ok_or (inodes d !! i) "stale").

Definition write_inode (i : N) (b : bytes) (d : Dir) : Dir :=
  with_inodes d (alter (fun x => {| meta := meta x; content := b; on_disk := false |}) i (inodes d)).

(** [file.write_all(bytes)] to a new file: a failure leaves something behind. *)
Definition write_all (i : N) (b : bytes) : IO unit := fun w =>
  match faults w (clock w) with
  | Some partial => (set_dir (tick w) (write_inode i partial (dir w)), Err (Message "io"))
  | None => (set_dir (tick w) (write_inode i b (dir w)), Ok tt)
  end.

(** [file.sync_all()] *)
Definition sync_inode (i : N) (d : Dir) : Dir :=
  with_inodes d (alter (fun x => {| meta := meta x; content := content x; on_disk := true |}) i (inodes d)).
Definition sync_all (i : N) : IO unit := syscall (fun d => Ok (sync_inode i d, tt)).

(** [File::open(root)?.sync_all()] *)
Definition sync_names (d : Dir) : Dir := {|
  dir_meta := dir_meta d; device := device d; inodes := inodes d; synced_names := names d;
  pending := []; fresh_ino := fresh_ino d; locks := locks d |}.
Definition sync_root : IO unit := syscall (fun d => Ok (sync_names d, tt)).

Definition remove_file (name : string) : IO unit := syscall (fun d =>
  _ ← ensure (is_some (names d !! name)) "not found"; Ok (with_pending d (Unlink name), tt)).

Definition rename (from to : string) : IO unit := syscall (fun d =>
  _ ← ensure (is_some (names d !! from)) "not found"; Ok (with_pending d (Rename from to), tt)).

(** [flock] with a non-blocking operation: [false] is [EWOULDBLOCK]. *)
Definition try_lock (i : N) (exclusive : bool) (d : Dir) : Dir * bool :=
  match locks d !! i, exclusive with
  | None, true => (with_locks d (<[i := Exclusive]> (locks d)), true)
  | None, false => (with_locks d (<[i := Shared 1]> (locks d)), true)
  | Some (Shared n), false => (with_locks d (<[i := Shared (Pos.succ n)]> (locks d)), true)
  | Some _, _ => (d, false)
  end.
Definition flock (i : N) (exclusive : bool) : IO bool := syscall (fun d => Ok (try_lock i exclusive d)).

(** Closing the file that holds a lock releases it; nothing can fail. *)
Definition unlock (i : N) (d : Dir) : Dir :=
  match locks d !! i with
  | Some (Shared n) =>
      with_locks d (if bool_decide (n = 1%positive) then delete i (locks d)
                    else <[i := Shared (Pos.pred n)]> (locks d))
  | Some Exclusive => with_locks d (delete i (locks d))
  | None => d
  end.
Definition release (i : N) (w : World) : World := set_dir w (unlock i (dir w)).

(** A scope that owns a lock: it is released on every way out. *)
Definition scoped {A} (i : N) (body : IO A) : IO A := fun w =>
  let '(w', r) := body w in (release i w', r).
(** A scope that hands its lock on when it succeeds. *)
Definition handing {A} (i : N) (body : IO A) : IO A := fun w =>
  let '(w', r) := body w in
  match r with Ok _ => (w', r) | Err _ => (release i w', r) end.
End io.

#[global] Arguments apply_ops : simpl never.
