(* ===== verification/FsLaws.v ===== *)
(** * Reasoning about the directory

    The images of a directory (what its names may be after a crash, or now), how each
    system call changes them, and a program logic for code that makes system calls. *)

From S2P Require Import Prelude Fs.

(** ** Images *)

(** [m] is what the names are now, or what a crash may make of them. *)
Definition image (d : Dir) (m : gmap string N) : Prop :=
  exists k, m = apply_ops (synced_names d) (take k (pending d)).

Lemma image_names d : image d (names d).
Proof. exists (length (pending d)). by rewrite firstn_all. Qed.

Lemma apply_ops_snoc nm ops op : apply_ops nm (ops ++ [op]) = apply_op (apply_ops nm ops) op.
Proof. unfold apply_ops. by rewrite foldl_app. Qed.

(** The pending changes [d'] has over [d]: one more. *)
Lemma image_snoc d d' op m :
  synced_names d' = synced_names d -> pending d' = pending d ++ [op] ->
  image d' m -> image d m \/ m = apply_op (names d) op.
Proof.
  intros Hs Hp [k ->]. rewrite Hs, Hp.
  destruct (decide (k <= length (pending d))%nat) as [Hk|Hk].
  - left. exists k. by rewrite take_app_le.
  - right. rewrite take_ge by (rewrite length_app; cbn; lia). apply apply_ops_snoc.
Qed.

Lemma names_snoc d d' op :
  synced_names d' = synced_names d -> pending d' = pending d ++ [op] ->
  names d' = apply_op (names d) op.
Proof. intros Hs Hp. unfold names. by rewrite Hs, Hp, apply_ops_snoc. Qed.

Lemma image_same d d' m :
  synced_names d' = synced_names d -> pending d' = pending d -> image d' m <-> image d m.
Proof. intros Hs Hp. unfold image. by rewrite Hs, Hp. Qed.

Lemma names_same d d' :
  synced_names d' = synced_names d -> pending d' = pending d -> names d' = names d.
Proof. intros Hs Hp. unfold names. by rewrite Hs, Hp. Qed.

Lemma image_synced d m : image (sync_names d) m <-> m = names d.
Proof.
  split; [|intros ->; exists 0%nat; done]. intros [k ->]. cbn. by rewrite take_nil.
Qed.

Lemma names_synced d : names (sync_names d) = names d.
Proof. done. Qed.

(** A crash realizes one image, and has no other. *)
Lemma crash_image k junk d m :
  image (crash k junk d) m <-> m = apply_ops (synced_names d) (take k (pending d)).
Proof.
  split; [|intros ->; exists 0%nat; done]. intros [j ->]. cbn. by rewrite take_nil.
Qed.

Lemma crash_names k junk d :
  names (crash k junk d) = apply_ops (synced_names d) (take k (pending d)).
Proof. done. Qed.

Lemma crash_names_image k junk d : image d (names (crash k junk d)).
Proof. by exists k. Qed.

Lemma crash_inodes k junk d i :
  inodes (crash k junk d) !! i = crash_inode junk i <$> inodes d !! i.
Proof. cbn. rewrite map_lookup_imap. by destruct (inodes d !! i). Qed.

(** A synced file survives unchanged. *)
Lemma crash_on_disk k junk d i x :
  inodes d !! i = Some x -> on_disk x = true -> inodes (crash k junk d) !! i = Some x.
Proof.
  intros Hi Hd. rewrite crash_inodes, Hi. cbn. f_equal.
  destruct x as [md c o]. cbn in Hd. subst. done.
Qed.

(** ** A logic for system calls

    [wp m Q d]: run from the directory [d], whatever fails, [m] ends with an outcome and a
    directory that satisfy [Q]. [look d m Q]: [m] only looks at [d], and [Q] holds of what
    it returns when it succeeds. *)

Definition wp {L A} (m : ST World (error L) A) (Q : result (error L) A -> Dir -> Prop) (d : Dir) : Prop :=
  forall w, dir w = d -> Q (m w).2 (dir (m w).1).

Definition look {L A} (d : Dir) (m : ST World (error L) A) (Q : A -> Prop) : Prop :=
  forall w, dir w = d -> dir (m w).1 = d /\ forall a, (m w).2 = Ok a -> Q a.

Section logic.
Context {L : Type}.
Abbreviation IO := (ST World (error L)).

Lemma wp_mono {A} (m : IO A) Q Q' d :
  wp m Q' d -> (forall r d', Q' r d' -> Q r d') -> wp m Q d.
Proof. intros Hm HQ w Hw. by apply HQ, Hm. Qed.

Lemma wp_bind {A B} (m : IO A) (k : A -> IO B) Q d :
  wp m (fun r d' => match r with Ok a => wp (k a) Q d' | Err e => Q (Err e) d' end) d ->
  wp (m ≫= k) Q d.
Proof.
  intros Hm w Hw. specialize (Hm w Hw). unfold mbind, ST_bind.
  destruct (m w) as [w' [a|e]]; cbn in *; [by apply Hm|done].
Qed.

Lemma wp_ret {A} (a : A) Q d : Q (Ok a) d -> wp (mret a : IO A) Q d.
Proof. by intros H w <-. Qed.
Lemma wp_fail {A} e Q d : Q (Err e) d -> wp (fail e : IO A) Q d.
Proof. by intros H w <-. Qed.
Lemma wp_lift {A} (r : result (error L) A) Q d : Q r d -> wp (lift r : IO A) Q d.
Proof. by intros H w <-. Qed.

Lemma wp_syscall {A} (f : Dir -> result anyhow (Dir * A)) Q d :
  (forall e, Q (Err e) d) -> (forall d' a, f d = Ok (d', a) -> Q (Ok a) d') ->
  wp (syscall f : IO A) Q d.
Proof.
  intros He Ho w <-. unfold syscall. destruct (faults w (clock w)); [by apply He|].
  destruct (f (dir w)) as [[d a]|m] eqn:Hf; cbn; [by eapply Ho|by apply He].
Qed.

Lemma wp_write i b Q d :
  (forall e b', Q (Err e) (write_inode i b' d)) -> Q (Ok tt) (write_inode i b d) ->
  wp (write_all i b : IO unit) Q d.
Proof. intros He Ho w <-. unfold write_all. destruct (faults w (clock w)); [apply He|apply Ho]. Qed.

Lemma wp_look {A} (m : IO A) R Q d :
  look d m R -> (forall e, Q (Err e) d) -> (forall a, R a -> Q (Ok a) d) -> wp m Q d.
Proof.
  intros Hl He Ho w Hw. destruct (Hl w Hw) as [-> Ha].
  destruct ((m w).2) eqn:Hr; [by apply Ho, Ha|by apply He].
Qed.

Lemma wp_scoped {A} i (m : IO A) Q d :
  wp m (fun r d' => Q r (unlock i d')) d -> wp (scoped i m) Q d.
Proof.
  intros Hm w Hw. specialize (Hm w Hw). unfold scoped. destruct (m w) as [w' r]. exact Hm.
Qed.

Lemma wp_handing {A} i (m : IO A) Q d :
  wp m (fun r d' => match r with Ok _ => Q r d' | Err _ => Q r (unlock i d') end) d ->
  wp (handing i m) Q d.
Proof.
  intros Hm w Hw. specialize (Hm w Hw). unfold handing. destruct (m w) as [w' [a|e]]; exact Hm.
Qed.

(** *** Looking *)

Lemma look_mono {A} d (m : IO A) (Q Q' : A -> Prop) :
  look d m Q' -> (forall a, Q' a -> Q a) -> look d m Q.
Proof. intros Hm HQ w Hw. destruct (Hm w Hw). split; eauto. Qed.

Lemma look_bind {A B} d (m : IO A) (k : A -> IO B) Q :
  look d m (fun a => look d (k a) Q) -> look d (m ≫= k) Q.
Proof.
  intros Hm w Hw. destruct (Hm w Hw) as [Hd Hk]. unfold mbind, ST_bind.
  destruct (m w) as [w' [a|e]]; cbn in *; [by apply (Hk a eq_refl)|by split].
Qed.

Lemma look_ret {A} d (a : A) (Q : A -> Prop) : Q a -> look d (mret a : IO A) Q.
Proof. intros HQ w Hw. split; [done|]. cbn. by intros ? [= <-]. Qed.
Lemma look_lift {A} d (r : result (error L) A) (Q : A -> Prop) :
  (forall a, r = Ok a -> Q a) -> look d (lift r : IO A) Q.
Proof. intros HQ w Hw. by split. Qed.
Lemma look_ok_or {A} d (o : option A) e (Q : A -> Prop) :
  (forall a, o = Some a -> Q a) -> look d (lift (ok_or o e) : IO A) Q.
Proof. intros HQ. apply look_lift. intros a [=->%ok_or_ok]. by apply HQ. Qed.
Lemma look_fail {A} d e (Q : A -> Prop) : look d (fail e : IO A) Q.
Proof. intros w Hw. by split. Qed.
Lemma look_bail {A} d e (Q : A -> Prop) : look d (bail e : IO A) Q.
Proof. intros w Hw. by split. Qed.
Lemma look_ensure d c e (Q : unit -> Prop) : (c = true -> Q tt) -> look d (ensure_io c e : IO unit) Q.
Proof. intros HQ w Hw. split; [done|]. intros []. cbn. destruct c; cbn; [eauto|done]. Qed.
Lemma look_get d (Q : World -> Prop) : (forall w, dir w = d -> Q w) -> look d (get : IO World) Q.
Proof. intros HQ w Hw. split; [done|]. cbn. intros ? [= <-]. by apply HQ. Qed.
Lemma look_query {A} d (f : Dir -> result anyhow A) (Q : A -> Prop) :
  (forall a, f d = Ok a -> Q a) -> look d (query f : IO A) Q.
Proof.
  intros HQ w <-. unfold query, syscall. destruct (faults w (clock w)); [done|].
  cbn. destruct (f (dir w)) eqn:Hf; cbn; split; try done. intros ? [= <-]. by apply HQ.
Qed.
End logic.

(** Follow a computation that only looks, collecting what it saw. *)
Ltac look_step :=
  lazymatch goal with
  | |- look _ (_ ≫= _) _ => apply look_bind
  | |- look _ (mret _) _ => apply look_ret
  | |- look _ (lift (ok_or _ _)) _ => apply look_ok_or; intros ? ?
  | |- look _ (lift _) _ => apply look_lift; intros ? ?
  | |- look _ (fail _) _ => apply look_fail
  | |- look _ (bail _) _ => apply look_bail
  | |- look _ (ensure_io _ _) _ => apply look_ensure; intros ?
  | |- look _ get _ => apply look_get; intros ? ?
  | |- look _ (query _) _ => apply look_query; intros ? ?
  | |- look _ (if ?b then _ else _) _ => destruct b eqn:?
  end.
Ltac looking := repeat look_step.

(** ** Locks *)

Lemma release_dir i w : dir (release i w) = unlock i (dir w).
Proof. done. Qed.

(** Locks are not part of what the disk holds. *)
Lemma unlock_same i d :
  inodes (unlock i d) = inodes d /\ synced_names (unlock i d) = synced_names d /\
  pending (unlock i d) = pending d /\ fresh_ino (unlock i d) = fresh_ino d /\
  device (unlock i d) = device d /\ dir_meta (unlock i d) = dir_meta d.
Proof. unfold unlock. repeat case_match; split_and!; done. Qed.

Lemma try_lock_same i e d :
  let d' := (try_lock i e d).1 in
  inodes d' = inodes d /\ synced_names d' = synced_names d /\ pending d' = pending d /\
  fresh_ino d' = fresh_ino d /\ device d' = device d /\ dir_meta d' = dir_meta d.
Proof. unfold try_lock. repeat case_match; split_and!; done. Qed.
