(* ===== verification/Store.v ===== *)
(** * Files that are replaced through a staging name

    Both durable stores of the supervisor replace a main file by writing, syncing and
    renaming a staging file. A [Layout] names the files; the lemmas say what such a
    directory may hold after any fault and any crash. *)

From S2P Require Import Prelude Fs FsLaws.

(** The main file, the files that must be durable beside it, and the staging name. *)
Class Layout := {
  main : string;
  side : list string;
  staging : string;
  staging_main : staging <> main;
  staging_side : staging ∉ side;
  main_side : main ∉ side;
}.

Section store.
Context `{Layout}.

(** The names whose contents make the state, where they point to. *)
Definition core (nm : gmap string N) : option N * list (option N) :=
  (nm !! main, (fun n => nm !! n) <$> side).

(** A main file that may be found after a crash is synced, and so is what is beside it. *)
Record dir_ok (d : Dir) : Prop := {
  ok_fresh : forall j, is_Some (inodes d !! j) -> (j < fresh_ino d)%N;
  ok_names : forall m n j, image d m -> m !! n = Some j -> is_Some (inodes d !! j);
  ok_disk : forall m n j, image d m -> is_Some (m !! main) -> n ∈ main :: side ->
            m !! n = Some j -> exists x, inodes d !! j = Some x /\ on_disk x = true;
}.

(** [d'] may differ from [d] in other names, in new files and in locks. *)
Record extends (d d' : Dir) : Prop := {
  ext_ok : dir_ok d';
  ext_device : device d' = device d;
  ext_inodes : forall j x, inodes d !! j = Some x -> inodes d' !! j = Some x;
  ext_images : forall m, image d' m -> exists m0, image d m0 /\ core m = core m0;
  ext_core : core (names d') = core (names d);
}.

Definition private_new (md : Z) (b : bytes) : inode := {|
  meta := {| ftype := Regular; uid := 0; mode := md; nlink := 1 |};
  content := b; on_disk := true
|}.

(** [d'] extends [d] except that the main file may be, and for a process is, a new one
    whose contents are [b]. *)
Record written (md : Z) (b : bytes) (d d' : Dir) : Prop := {
  wr_ok : dir_ok d';
  wr_device : device d' = device d;
  wr_inodes : forall j x, inodes d !! j = Some x -> inodes d' !! j = Some x;
  wr_images : forall m, image d' m ->
    (exists m0, image d m0 /\ core m = core m0) \/ core m = core (names d');
  wr_state : exists i, core (names d') = (Some i, (fun n => names d !! n) <$> side) /\
    inodes d' !! i = Some (private_new md b);
}.

Lemma extends_refl d : dir_ok d -> extends d d.
Proof. split; eauto. Qed.

Lemma extends_trans d1 d2 d3 : extends d1 d2 -> extends d2 d3 -> extends d1 d3.
Proof.
  intros H12 H23. split.
  - apply H23.
  - by rewrite (ext_device _ _ H23), (ext_device _ _ H12).
  - eauto using ext_inodes.
  - intros m Hm. destruct (ext_images _ _ H23 _ Hm) as (m2 & Hm2 & ->).
    destruct (ext_images _ _ H12 _ Hm2) as (m1 & Hm1 & ->). eauto.
  - by rewrite (ext_core _ _ H23), (ext_core _ _ H12).
Qed.

Lemma core_lookup m m' n : core m = core m' -> n ∈ main :: side -> m !! n = m' !! n.
Proof.
  unfold core. intros [= Hm Hs] [->|Hn]%elem_of_cons; [done|]. clear Hm.
  induction side as [|s l IH]; [by apply not_elem_of_nil in Hn|].
  rewrite !fmap_cons in Hs. injection Hs as Hs0 Hs. apply elem_of_cons in Hn as [->|Hn]; eauto.
Qed.
Lemma core_main m m' : core m = core m' -> m !! main = m' !! main.
Proof. intros Hc. eapply core_lookup; [done|left]. Qed.
Lemma core_eq m m' : (forall n, n ∈ main :: side -> m !! n = m' !! n) -> core m = core m'.
Proof.
  intros Hn. unfold core. f_equal; [apply Hn; left|].
  apply list_fmap_ext. intros i n Hi. apply Hn. right. by eapply list_elem_of_lookup_2.
Qed.

(** Only the locks of [d] changed. *)
Lemma extends_same d d' :
  dir_ok d -> inodes d' = inodes d -> synced_names d' = synced_names d -> pending d' = pending d ->
  fresh_ino d' = fresh_ino d -> device d' = device d -> extends d d'.
Proof.
  intros Hok Hi Hs Hp Hf Hd.
  assert (forall m, image d' m <-> image d m) as Him by (intros; by apply image_same).
  split; [|done|by rewrite Hi| |by rewrite (names_same d d')].
  - split.
    + intros j. rewrite Hi, Hf. apply Hok.
    + intros m n j Hm. rewrite Hi. apply Him in Hm. by apply Hok.
    + intros m n j Hm. rewrite Hi. apply Him in Hm. by apply Hok.
  - intros m Hm. exists m. by rewrite <- Him.
Qed.

Lemma extends_unlock i d : dir_ok d -> extends d (unlock i d).
Proof. intros Hok. pose proof (unlock_same i d). apply extends_same; tauto. Qed.

Lemma extends_try_lock i e d : dir_ok d -> extends d (try_lock i e d).1.
Proof. intros Hok. pose proof (try_lock_same i e d) as Hs. cbn in Hs. apply extends_same; tauto. Qed.

Lemma dir_ok_unlock i d : dir_ok d -> dir_ok (unlock i d).
Proof. intros Hok. by apply ext_ok with d, extends_unlock. Qed.

Lemma core_link n i m : n ∉ main :: side -> core (<[n:=i]> m) = core m.
Proof. intros Hn. apply core_eq. intros k Hk. rewrite lookup_insert_ne; congruence. Qed.
Lemma core_unlink n m : n ∉ main :: side -> core (delete n m) = core m.
Proof. intros Hn. apply core_eq. intros k Hk. rewrite lookup_delete_ne; congruence. Qed.

Lemma staging_not_core : staging ∉ main :: side.
Proof.
  intros [Hm|Hs]%elem_of_cons; [by apply staging_main in Hm|by apply staging_side in Hs].
Qed.

(** A new file under another name. *)
Lemma extends_link d n md :
  dir_ok d -> n ∉ main :: side -> extends d (link_new n md d).
Proof.
  intros Hok Hn.
  assert (Hfresh : inodes d !! fresh_ino d = None).
  { destruct (inodes d !! fresh_ino d) eqn:Hx; [|done].
    pose proof (ok_fresh _ Hok _ (mk_is_Some _ _ Hx)). lia. }
  assert (Himg : forall m, image (link_new n md d) m ->
            image d m \/ m = <[n := fresh_ino d]> (names d)).
  { intros m Hm. by apply (image_snoc d (link_new n md d) (Link n (fresh_ino d))). }
  assert (Hin : forall j x, inodes d !! j = Some x -> inodes (link_new n md d) !! j = Some x).
  { intros j x Hx. cbn. rewrite lookup_insert_ne; [done|]. intros <-. congruence. }
  assert (Hcore : forall m, image (link_new n md d) m -> exists m0, image d m0 /\ core m = core m0).
  { intros m [Hm | ->]%Himg; [by exists m|]. exists (names d). split; [apply image_names|].
    by rewrite core_link. }
  split; [|done|done|done|].
  - split.
    + intros j [x Hx]. cbn in *. apply lookup_insert_Some in Hx as [[<- _]|[_ Hx]]; [lia|].
      apply mk_is_Some, (ok_fresh _ Hok) in Hx. lia.
    + intros m n' j [Hm | ->]%Himg Hj.
      * destruct (ok_names _ Hok _ _ _ Hm Hj) as [x Hx]. eauto.
      * apply lookup_insert_Some in Hj as [[_ <-]|[_ Hj]].
        -- cbn. rewrite lookup_insert_eq. eauto.
        -- destruct (ok_names _ Hok _ _ _ (image_names d) Hj) as [x Hx]. eauto.
    + intros m n' j Hm Hs Hn' Hj. destruct (Hcore _ Hm) as (m0 & Hm0 & Hc).
      rewrite (core_lookup _ _ _ Hc Hn') in Hj. rewrite (core_main _ _ Hc) in Hs.
      destruct (ok_disk _ Hok _ _ _ Hm0 Hs Hn' Hj) as (x & Hx & ?). eauto.
  - rewrite (names_snoc d (link_new n md d) (Link n (fresh_ino d))) by done. cbn. by rewrite core_link.
Qed.

(** A change of names other than those of the state. *)
Lemma extends_op d op :
  dir_ok d -> core (apply_op (names d) op) = core (names d) ->
  (forall n j, apply_op (names d) op !! n = Some j -> is_Some (inodes d !! j)) ->
  extends d (with_pending d op).
Proof.
  intros Hok Hc Hn.
  assert (Himg : forall m, image (with_pending d op) m -> image d m \/ m = apply_op (names d) op)
    by (intros m Hm; by apply (image_snoc d (with_pending d op) op)).
  assert (Hcore : forall m, image (with_pending d op) m -> exists m0, image d m0 /\ core m = core m0).
  { intros m [Hm | ->]%Himg; [by exists m|]. exists (names d). by split; [apply image_names|]. }
  split; [|done|done|done|].
  - split; [apply Hok| |].
    + intros m n' j [Hm | ->]%Himg; [by apply Hok|]. apply Hn.
    + intros m n' j Hm Hs Hn' Hj. destruct (Hcore _ Hm) as (m0 & Hm0 & Hc0).
      rewrite (core_lookup _ _ _ Hc0 Hn') in Hj. rewrite (core_main _ _ Hc0) in Hs.
      by apply (ok_disk _ Hok _ _ _ Hm0 Hs Hn' Hj).
  - by rewrite (names_snoc d (with_pending d op) op).
Qed.

Lemma extends_unlink d n :
  dir_ok d -> n ∉ main :: side -> extends d (with_pending d (Unlink n)).
Proof.
  intros Hok Hn. apply extends_op; [done|by apply core_unlink|]. cbn. intros k j Hj.
  apply lookup_delete_Some in Hj as [_ Hj]. by apply (ok_names _ Hok _ _ _ (image_names _) Hj).
Qed.

(** The contents of a file that no name of the state can point to. *)
Lemma extends_touch d d0 i f :
  dir_ok d0 -> extends d0 d -> inodes d0 !! i = None ->
  (forall x, meta (f x) = meta x) ->
  extends d0 (with_inodes d (alter f i (inodes d))).
Proof.
  intros Hok0 He Hi Hf. pose proof (ext_ok _ _ He) as Hok.
  assert (Hne : forall m n j, image d m -> is_Some (m !! main) -> n ∈ main :: side ->
            m !! n = Some j -> exists m0, image d0 m0 /\ is_Some (m0 !! main) /\ m0 !! n = Some j).
  { intros m n j Hm Hs Hn Hj. destruct (ext_images _ _ He _ Hm) as (m0 & Hm0 & Hc).
    exists m0. by rewrite <- (core_main _ _ Hc), <- (core_lookup _ _ _ Hc Hn). }
  assert (Hkeep : forall j x, inodes d0 !! j = Some x -> alter f i (inodes d) !! j = Some x).
  { intros j x Hx. rewrite lookup_alter_ne by congruence. by apply (ext_inodes _ _ He). }
  split; [|apply He|exact Hkeep|apply He|apply He].
  assert (Hsome : forall j, is_Some (alter f i (inodes d) !! j) <-> is_Some (inodes d !! j)).
  { intros j. destruct (decide (i = j)) as [->|]; [|by rewrite lookup_alter_ne].
    rewrite lookup_alter_eq. by rewrite fmap_is_Some. }
  split.
  - intros j Hj%Hsome. by apply Hok.
  - intros m n j Hm Hj. apply Hsome. by apply (ok_names _ Hok m n).
  - intros m n j Hm Hs Hn Hj. destruct (ok_disk _ Hok _ _ _ Hm Hs Hn Hj) as (x & Hx & Hd).
    destruct (decide (i = j)) as [->|]; [|exists x; cbn; by rewrite lookup_alter_ne].
    exfalso. destruct (Hne _ _ _ Hm Hs Hn Hj) as (m0 & Hm0 & Hs0 & Hj0).
    destruct (ok_names _ Hok0 _ _ _ Hm0 Hj0). congruence.
Qed.

(** The files beside the main one, as a process sees them, are synced. *)
Definition side_on_disk (d : Dir) : Prop :=
  forall n j, n ∈ side -> names d !! n = Some j -> exists x, inodes d !! j = Some x /\ on_disk x = true.

Lemma side_ok d : dir_ok d -> is_Some (names d !! main) -> side_on_disk d.
Proof.
  intros Hok Hs n j Hn Hj. eapply (ok_disk _ Hok _ n); eauto using image_names. by right.
Qed.

(** Renaming the synced staging file publishes it. *)
Lemma written_rename md b d0 d i :
  dir_ok d0 -> side_on_disk d0 -> extends d0 d ->
  names d !! staging = Some i -> inodes d !! i = Some (private_new md b) ->
  written md b d0 (with_pending d (Rename staging main)).
Proof.
  intros Hok0 Hreq He Hi Hx. pose proof (ext_ok _ _ He) as Hok.
  set (d' := with_pending d (Rename staging main)).
  assert (Hn : names d' = <[main := i]> (delete staging (names d))).
  { rewrite (names_snoc d d' (Rename staging main)) by done. cbn. by rewrite Hi. }
  assert (Himg : forall m, image d' m -> image d m \/ m = names d').
  { intros m Hm. apply (image_snoc d d' (Rename staging main)) in Hm as [Hm | ->]; [by left| |done..].
    right. by rewrite (names_snoc d d' (Rename staging main)). }
  assert (Hside : forall n, n ∈ side -> names d' !! n = names d0 !! n).
  { intros n Hin. rewrite Hn. rewrite lookup_insert_ne by (intros <-; by apply main_side in Hin).
    rewrite lookup_delete_ne by (intros <-; by apply staging_side in Hin).
    apply core_lookup; [apply He|by right]. }
  assert (Hcn : core (names d') = (Some i, (fun n => names d0 !! n) <$> side)).
  { unfold core. f_equal; [rewrite Hn; apply lookup_insert_eq|].
    apply list_fmap_ext. intros k n Hk. apply Hside. by eapply list_elem_of_lookup_2. }
  split.
  - split; [apply Hok| |].
    + intros m n j [Hm | ->]%Himg; [by apply Hok|]. rewrite Hn. intros Hj.
      apply lookup_insert_Some in Hj as [[_ <-]|[_ Hj]]; [cbn; eauto|].
      apply lookup_delete_Some in Hj as [_ Hj]. by apply (ok_names _ Hok _ _ _ (image_names d) Hj).
    + intros m n j [Hm | ->]%Himg; [by apply Hok|]. intros _ [->|Hin]%elem_of_cons Hj.
      * rewrite Hn, lookup_insert_eq in Hj. simplify_eq. by eexists.
      * rewrite (Hside _ Hin) in Hj. destruct (Hreq _ _ Hin Hj) as (x & Hxr & ?).
        exists x. split; [|done]. by apply (ext_inodes _ _ He).
  - apply He.
  - apply He.
  - intros m [Hm | ->]%Himg; [|by right]. left. by apply (ext_images _ _ He).
  - exists i. split; [done|]. exact Hx.
Qed.

Lemma written_sync md b d0 d : written md b d0 d -> written md b d0 (sync_names d).
Proof.
  intros Hw. pose proof (wr_ok _ _ _ _ Hw) as Hok. split.
  - split; [apply Hok| |].
    + intros m n j ->%image_synced. apply Hok, image_names.
    + intros m n j ->%image_synced. apply Hok, image_names.
  - apply Hw.
  - apply Hw.
  - intros m ->%image_synced. by right.
  - apply Hw.
Qed.

Lemma extends_sync d0 d : extends d0 d -> extends d0 (sync_names d).
Proof.
  intros He. pose proof (ext_ok _ _ He) as Hok. split.
  - split; [apply Hok| |].
    + intros m n j ->%image_synced. apply Hok, image_names.
    + intros m n j ->%image_synced. apply Hok, image_names.
  - apply He.
  - apply He.
  - intros m ->%image_synced. exists (names d0). split; [apply image_names|apply He].
  - apply He.
Qed.

Lemma written_unlock md b d0 d i : written md b d0 d -> written md b d0 (unlock i d).
Proof.
  intros Hw. pose proof (unlock_same i d) as (Hin & Hs & Hp & Hf & Hd & _).
  assert (forall m, image (unlock i d) m <-> image d m) as Him by (intros; by apply image_same).
  pose proof (names_same d (unlock i d) Hs Hp) as Hn. split.
  - apply dir_ok_unlock, Hw.
  - rewrite Hd. apply Hw.
  - rewrite Hin. apply Hw.
  - intros m Hm%Him. rewrite Hn. by apply (wr_images _ _ _ _ Hw).
  - rewrite Hn, Hin. apply Hw.
Qed.

(** ** Crashes *)

Lemma crash_is_some k junk d j : is_Some (inodes (crash k junk d) !! j) <-> is_Some (inodes d !! j).
Proof. rewrite crash_inodes. apply fmap_is_Some. Qed.

Lemma crash_image_before k junk d m : image (crash k junk d) m -> image d m.
Proof. intros Hm. apply crash_image in Hm as ->. by exists k. Qed.

Lemma dir_ok_crash k junk d : dir_ok d -> dir_ok (crash k junk d).
Proof.
  intros Hok. split.
  - intros j Hj%crash_is_some. by apply Hok.
  - intros m n j Hm Hj. apply crash_is_some. eapply Hok; [by eapply crash_image_before|done].
  - intros m n j Hm _ _ Hj. apply crash_image_before in Hm.
    destruct (ok_names _ Hok _ _ _ Hm Hj) as [x Hx]. rewrite crash_inodes, Hx. by eexists.
Qed.

(** The files of an image with a main file are the ones from before the crash. *)
Lemma crash_keeps k junk d m n i :
  dir_ok d -> image d m -> is_Some (m !! main) -> n ∈ main :: side -> m !! n = Some i ->
  inodes (crash k junk d) !! i = inodes d !! i.
Proof.
  intros Hok Hm Hs Hn Hi. destruct (ok_disk _ Hok _ _ _ Hm Hs Hn Hi) as (x & Hx & Hd).
  rewrite Hx. by apply crash_on_disk.
Qed.

(** ** Replacing the main file *)

Context {L : Type}.

(** The five calls that end both [save] functions. *)
Definition publish (md : Z) (b : bytes) : ST World (error L) unit :=
  file ← create_new staging md;
  _ ← write_all file b;
  _ ← sync_all file;
  _ ← rename staging main;
  sync_root.

Lemma wp_publish md b d0 d1 (Q : result (error L) unit -> Dir -> Prop) :
  dir_ok d0 -> side_on_disk d0 -> extends d0 d1 ->
  (forall r d, extends d0 d \/ written md b d0 d -> Q (Err r) d) ->
  (forall d, written md b d0 d -> (forall m, image d m -> m = names d) -> Q (Ok tt) d) ->
  wp (publish md b) Q d1.
Proof.
  intros Hok Hreq He1 HE HO. pose proof (ext_ok _ _ He1) as Hok1. unfold publish.
  apply wp_bind, wp_syscall; [intros; apply HE; by left|]. intros d2 i Hc. inv_ok. simplify_eq.
  set (i := fresh_ino d1). set (d2 := link_new staging md d1).
  assert (He2 : extends d0 d2).
  { eapply extends_trans; [exact He1|]. apply extends_link; [done|apply staging_not_core]. }
  assert (Hi0 : inodes d0 !! i = None).
  { destruct (inodes d0 !! i) as [x|] eqn:Hx; [|done]. apply (ext_inodes _ _ He1) in Hx.
    apply mk_is_Some, (ok_fresh _ Hok1) in Hx. unfold i in Hx. lia. }
  apply wp_bind, wp_write.
  { intros r b'. apply HE. left. by apply extends_touch. }
  set (d3 := write_inode i b d2).
  assert (He3 : extends d0 d3) by (by apply extends_touch).
  apply wp_bind, wp_syscall; [intros; apply HE; by left|]. intros d4 [] [= <-].
  assert (He4 : extends d0 (sync_inode i d3)) by (by apply extends_touch).
  assert (Hn4 : names (sync_inode i d3) !! staging = Some i).
  { rewrite (names_same d2 (sync_inode i d3)) by done.
    rewrite (names_snoc d1 d2 (Link staging i)) by done. cbn. apply lookup_insert_eq. }
  assert (Hx4 : inodes (sync_inode i d3) !! i = Some (private_new md b)).
  { cbn. rewrite lookup_alter_eq, lookup_alter_eq, lookup_insert_eq. done. }
  pose proof (written_rename md b d0 _ i Hok Hreq He4 Hn4 Hx4) as Hw.
  apply wp_bind, wp_syscall; [intros; apply HE; by left|]. intros d5 [] Hr. inv_ok. simplify_eq.
  apply wp_syscall; [intros; apply HE; right; done|]. intros d6 [] [= <-].
  apply HO; [by apply written_sync|]. by intros m Hm%image_synced.
Qed.
End store.
