(* ===== verification/LaunchAuthority.v ===== *)
(** * The durable launch authority (crates/sandbox-supervisor/src/launch_authority.rs)

    The ledger of [Authority] kept in one private directory: a lock file, an activation
    record that pins the lock's inode, the state, and a staging name. The directory the
    functions work in is the one of the [World]. *)

From S2P Require Import Prelude Ext Ids Authority Fs.

Definition LOCK : string := "launch.lock".
Definition REQUIRED : string := "launch.required".
Definition STATE : string := "launch.json".
Definition NEXT : string := "launch.next".
Definition MAX_BYTES : Z := Authority.MAX_BYTES * 2 + 4096.

Record Required : Type := {
  required_version : Z;
  required_host : HostId;
  lock_device : Z;
  lock_inode : N;
}.
Record Saved : Type := {
  version : Z;
  host : HostId;
  epoch : Z;
  ledger_json : string;
}.
(** [LaunchGuard { _lock: File }]: the inode whose lock it holds. *)
Record LaunchGuard : Type := { _lock : N }.
Record Checkpoint : Type := {
  checkpoint_host : HostId;
  checkpoint_epoch : Z;
  registered_through : Z;
}.
#[export] Instance Checkpoint_eq_dec : EqDecision Checkpoint.
Proof. solve_decision. Defined.
Record AuthorityFile : Type := {
  root : string;
  file_host : HostId;
  minimum_epoch : Z;
  minimum_through : Z;
}.

Abbreviation IO := (ST World (error Authority.Error)) (only parsing).
Abbreviation Intent := Retirement.Intent (only parsing).

(** An error of the ledger, and of the retirement scope, inside [anyhow]. *)
Definition ledger_result {A} (r : result Authority.Error A) : IO A := lift (map_err Ledger r).
Definition retirement_result {A} (r : result Retirement.Error A) : IO A :=
  lift (map_err (fun _ => Message "retirement intent") r).

(** A ledger transition applied to a local copy. *)
Definition ledger_run (change : ST Authority Authority.Error unit) (l : Authority) : IO Authority :=
  match change l with
  | (l', Ok _) => mret l'
  | (_, Err e) => fail (Ledger e)
  end.

(** [0o600], [0o700] and [mode & 0o077 == 0] *)
Definition MODE_PRIVATE_FILE : Z := 384.
Definition MODE_PRIVATE_DIR : Z := 448.
Definition group_or_other (mode : Z) : Z := Z.land mode 63.

Definition is_absolute (path : string) : bool :=
  match path with String c _ => is_byte 47 c | EmptyString => false end.

(** [DirBuilder::create] of a directory that did not exist: it has no names. *)
Definition make_root (d : Dir) : Dir := {|
  dir_meta := Some {| ftype := Directory; uid := 0; mode := MODE_PRIVATE_DIR; nlink := 2 |};
  device := device d; inodes := inodes d; synced_names := synced_names d; pending := pending d;
  fresh_ino := fresh_ino d; locks := locks d
|}.

Definition private_root (root : string) : IO unit :=
  w ← get;
  _ ← ensure_io (root_user w) "launch authority requires root";
  _ ← ensure_io (is_absolute root) "absolute launch root required";
  _ ← syscall (fun d => Ok (match dir_meta d with
                            | Some _ => d
                            | None => make_root d
                            end, tt));
  m ← query (fun d => ok_or (dir_meta d) "not found");
  ensure_io (bool_decide (ftype m = Directory) && (uid m =? 0) && (group_or_other (mode m) =? 0)
             && bool_decide (canonical_root w = root))
    "launch root must be canonical, private and root-owned".

Definition exists_ (name : string) : IO bool := m ← symlink_metadata name; mret (is_some m).

Definition private_file (file : N) : IO unit :=
  m ← fstat file;
  ensure_io (bool_decide (ftype m = Regular) && (uid m =? 0) && (group_or_other (mode m) =? 0)
             && (nlink m =? 1))
    "launch metadata must be a private, singly linked root-owned file".

(** [file.take(n).read_to_end()] *)
Definition read_at_most (file : N) (n : Z) : IO bytes :=
  b ← read_to_end file;
  mret (if strlen b <=? n then b else String.substring 0 (Z.to_nat n) b).

Definition read (T : Type) `{Serde T} (name : string) (limit : Z) : IO T :=
  file ← open_existing name;
  _ ← private_file file;
  len ← query (fun d => (fun x => strlen (content x)) <$> ok_or (inodes d !! file) "stale");
  _ ← ensure_io (len <=? limit) "launch metadata too large";
  bytes ← read_at_most file (limit + 1);
  _ ← ensure_io (strlen bytes <=? limit) "launch metadata too large";
  lift (ok_or (from_slice bytes) (Message "invalid launch metadata")).

(** [exists(a)? || exists(b)? || exists(c)?] *)
Definition any_exists (l : list string) : IO bool :=
  foldr (fun name rest => e ← exists_ name; if e : bool then mret true else rest) (mret false) l.

(** [String::from_utf8] *)
Definition utf8_tail (b : Ascii.ascii) : bool := byte_in 128 191 b.
Fixpoint utf8 (s : string) : bool :=
  match s with
  | EmptyString => true
  | String a s1 =>
      if byte_in 0 127 a then utf8 s1 else
      match s1 with
      | EmptyString => false
      | String b s2 =>
          if byte_in 194 223 a then utf8_tail b && utf8 s2 else
          match s2 with
          | EmptyString => false
          | String c s3 =>
              if byte_in 224 239 a then
                (if is_byte 224 a then byte_in 160 191 b
                 else if is_byte 237 a then byte_in 128 159 b else utf8_tail b)
                && utf8_tail c && utf8 s3
              else
              match s3 with
              | EmptyString => false
              | String d s4 =>
                  byte_in 240 244 a
                  && (if is_byte 240 a then byte_in 144 191 b
                      else if is_byte 244 a then byte_in 128 143 b else utf8_tail b)
                  && utf8_tail c && utf8_tail d && utf8 s4
              end
          end
      end
  end.

Section launch.
Context `{UuidLib, Serde Authority.Saved, Serde Retirement.Intent, Sha256,
          Serde Required, Serde Saved}.

(** [gate]: what follows the lock's acquisition owns it and gives it up on failure. *)
Definition gate_held (file : N) : IO N :=
  retained ← symlink_metadata LOCK;
  retained ← lift (ok_or retained (Message "not found"));
  _ ← fstat file;
  _ ← ensure_io (bool_decide (retained.1 = file)) "launch lock replaced";
  required ← exists_ REQUIRED;
  if required : bool then
    required ← read Required REQUIRED 4096;
    w ← get;
    _ ← ensure_io ((required_version required =? 1)
                   && (lock_device required =? device (dir w))
                   && bool_decide (lock_inode required = file)) "launch lock identity mismatch";
    mret file
  else mret file.

Definition gate (root : string) (exclusive : bool) : IO N :=
  _ ← private_root root;
  active ← any_exists [REQUIRED; STATE; NEXT];
  file ← open_or_create LOCK (negb active) MODE_PRIVATE_FILE;
  _ ← private_file file;
  locked ← flock file exclusive;
  if negb locked then fail LockContended else handing file (gate_held file).

(** [AuthorityFile::load] *)
Definition load (store : AuthorityFile) : IO (Z * Authority) :=
  required ← read Required REQUIRED 4096;
  _ ← ensure_io ((required_version required =? 1)
                 && bool_decide (required_host required = file_host store))
        "launch activation mismatch";
  saved ← read Saved STATE MAX_BYTES;
  _ ← ensure_io ((version saved =? 1) && bool_decide (host saved = file_host store)
                 && (minimum_epoch store <=? epoch saved))
        "launch authority scope or epoch mismatch";
  ledger ← ledger_result (Authority.decode (ledger_json saved) (file_host store)
                            (minimum_through store));
  mret (epoch saved, ledger).

(** Removal of a leftover staging file, under the exclusive gate. *)
Definition discard_staging (store : AuthorityFile) : IO unit :=
  leftover ← exists_ NEXT;
  if leftover : bool then
    _ ← load store;
    old ← open_existing NEXT;
    _ ← private_file old;
    remove_file NEXT
  else mret tt.

(** [AuthorityFile::save] *)
Definition save (store : AuthorityFile) (epoch : Z) (ledger : Authority) : IO unit :=
  json ← ledger_result (Authority.encode ledger);
  _ ← ensure_io (utf8 json) "invalid utf-8";
  bytes ← lift (ok_or (to_vec {| version := 1; host := file_host store; epoch := epoch;
                                 ledger_json := json |}) (Message "serde_json"));
  _ ← ensure_io (strlen bytes <=? MAX_BYTES) "launch metadata too large";
  _ ← discard_staging store;
  file ← create_new NEXT MODE_PRIVATE_FILE;
  _ ← write_all file bytes;
  _ ← sync_all file;
  _ ← rename NEXT STATE;
  sync_root.

(** [AuthorityFile::initialize] *)
Definition initialize (root : string) (h : HostId) (epoch : Z) : IO AuthorityFile :=
  _ ← ensure_io (0 <? epoch) "positive launch epoch required";
  ledger ← ledger_result (Authority.new h);
  lock ← gate root true;
  scoped lock (
    n ← query (fun d => Ok (Z.of_nat (size (names d))));
    _ ← ensure_io (n =? 1) "launch root is not fresh";
    required ← create_new REQUIRED MODE_PRIVATE_FILE;
    _ ← fstat lock;
    w ← get;
    bytes ← lift (ok_or (to_vec {| required_version := 1; required_host := h;
                                   lock_device := device (dir w); lock_inode := lock |})
                    (Message "serde_json"));
    _ ← write_all required bytes;
    _ ← sync_all required;
    _ ← sync_root;
    let store := {| root := root; file_host := h; minimum_epoch := epoch; minimum_through := 0 |} in
    _ ← save store epoch ledger;
    mret store).

(** [AuthorityFile::open] *)
Definition open (root : string) (h : HostId) (minimum_epoch minimum_through : Z) : IO AuthorityFile :=
  _ ← ensure_io (0 <? minimum_epoch) "positive launch epoch required";
  let store := {| root := root; file_host := h; minimum_epoch := minimum_epoch;
                  minimum_through := minimum_through |} in
  lock ← gate root false;
  scoped lock (_ ← load store; mret store).

Definition checkpoint_of (store : AuthorityFile) (e : Z) (ledger : Authority) : Checkpoint := {|
  checkpoint_host := file_host store; checkpoint_epoch := e; registered_through := through ledger
|}.

(** [AuthorityFile::update] *)
Definition update (store : AuthorityFile) (reporting_epoch : Z)
    (change : ST Authority Authority.Error unit) : IO unit :=
  lock ← gate (root store) true;
  scoped lock (
    '(e, ledger) ← load store;
    _ ← ensure_io (e =? reporting_epoch) "stale launch authority writer";
    ledger ← ledger_run change ledger;
    save store e ledger).

Definition retained_checkpoint (store : AuthorityFile) : IO Checkpoint :=
  lock ← gate (root store) false;
  scoped lock (
    '(e, ledger) ← load store;
    _ ← sync_root;
    mret (checkpoint_of store e ledger)).

Definition checkpoint (store : AuthorityFile) (reporting_epoch : Z) : IO Checkpoint :=
  lock ← gate (root store) false;
  scoped lock (
    '(e, ledger) ← load store;
    _ ← ensure_io (e =? reporting_epoch) "stale launch authority reader";
    _ ← sync_root;
    mret (checkpoint_of store e ledger)).

(** [AuthorityFile::register] *)
Definition register (store : AuthorityFile) (reporting_epoch : Z) (permits : list Permit)
    : IO Checkpoint :=
  lock ← gate (root store) true;
  scoped lock (
    '(e, ledger) ← load store;
    _ ← ensure_io (e =? reporting_epoch) "stale launch authority writer";
    _ ← ensure_io (forallb (fun p => original_epoch p <=? reporting_epoch) permits)
          "future permit epoch";
    ledger ← ledger_run (Authority.register permits) ledger;
    _ ← save store e ledger;
    mret (checkpoint_of store e ledger)).

Definition advance_epoch (store : AuthorityFile) (previous_epoch next_epoch : Z) : IO unit :=
  lock ← gate (root store) true;
  scoped lock (
    '(e, ledger) ← load store;
    _ ← ensure_io ((e =? previous_epoch) && (e <? next_epoch)) "launch epoch did not advance";
    save store next_epoch ledger).

Definition fence (store : AuthorityFile) (e : Z) (p : Permit) (retirement : OperationId) : IO unit :=
  update store e (Authority.fence p retirement).
Definition complete (store : AuthorityFile) (e : Z) (intent : Intent) : IO unit :=
  update store e (Authority.complete intent).
Definition forget (store : AuthorityFile) (e : Z) (intent : Intent) : IO unit :=
  update store e (Authority.forget intent).

(** [AuthorityFile::completed] *)
Definition completed (store : AuthorityFile) (e : Z) (intent : Intent) : IO LaunchGuard :=
  lock ← gate (root store) false;
  handing lock (
    '(current, ledger) ← load store;
    _ ← ensure_io (current =? e) "stale completion reader";
    _ ← ledger_result (Authority.completed ledger intent);
    _ ← sync_root;
    mret {| _lock := lock |}).

(** *** One root-exclusive retirement transaction *)

Inductive RetirementPhase : Type := PFenced | PComplete | PClosed.

Record RetirementGuard : Type := {
  guard_lock : N;
  guard_store : AuthorityFile;
  guard_ledger : Authority;
  guard_epoch : Z;
  guard_intent : Intent;
  phase : RetirementPhase;
}.

(** The phase the retained state puts a retirement in. *)
Definition retirement_phase (ledger : Authority) (intent : Intent) : IO RetirementPhase :=
  match state_of ledger (Retirement.permit intent) with
  | Ok (Fenced r) =>
      if bool_decide (r = Retirement.retirement intent) then mret PFenced
      else bail "forgetting authority conflict"
  | Ok (Complete _ _) =>
      _ ← ledger_result (Authority.completed ledger intent);
      mret PComplete
  | Err Authority.Closed => mret PClosed
  | _ => bail "forgetting authority conflict"
  end.

Definition retirement_guard (store : AuthorityFile) (e : Z) (intent : Intent)
    : IO RetirementGuard :=
  _ ← retirement_result (Intent.validate intent);
  _ ← ensure_io (negb (Retirement.simulated intent)
                 && (original_epoch (Retirement.permit intent) <=? e))
        "physical retirement required";
  lock ← gate (root store) true;
  handing lock (
    '(current, ledger) ← load store;
    _ ← ensure_io (current =? e) "stale forgetting epoch";
    p ← retirement_phase ledger intent;
    _ ← sync_root;
    mret {| guard_lock := lock; guard_store := store; guard_ledger := ledger; guard_epoch := e;
            guard_intent := intent; phase := p |}).

(** The methods of the guard change its ledger before they write. *)
Definition guard_run (change : ST Authority Authority.Error unit) (done : RetirementPhase)
    : ST (World * RetirementGuard) (error Authority.Error) unit := fun '(w, g) =>
  let '(l, r) := change (guard_ledger g) in
  let with_phase p := {| guard_lock := guard_lock g; guard_store := guard_store g;
                         guard_ledger := l; guard_epoch := guard_epoch g;
                         guard_intent := guard_intent g; phase := p |} in
  match r with
  | Err e => (w, with_phase (phase g), Err (Ledger e))
  | Ok _ =>
      match save (guard_store g) (guard_epoch g) l w with
      | (w', Ok _) => (w', with_phase done, Ok tt)
      | (w', Err e) => (w', with_phase (phase g), Err e)
      end
  end.
Definition guard_complete : ST (World * RetirementGuard) (error Authority.Error) unit := fun s =>
  guard_run (Authority.complete (guard_intent s.2)) PComplete s.
Definition guard_forget : ST (World * RetirementGuard) (error Authority.Error) unit := fun s =>
  guard_run (Authority.forget (guard_intent s.2)) PClosed s.

(** *** Launch, cleanup and deletion decisions *)

Definition file_for (root : string) (h : HostId) (e t : Z) : AuthorityFile := {|
  root := root; file_host := h; minimum_epoch := e; minimum_through := t
|}.

Definition authorize_registered_allocation (root : string) (h : HostId) (e min_through : Z)
    (alc : AllocationId) : IO (Permit * LaunchGuard) :=
  lock ← gate root false;
  handing lock (
    '(current, ledger) ← load (file_for root h e min_through);
    _ ← ensure_io (current =? e) "allocation epoch rejected";
    p ← ledger_result (active_allocation ledger alc);
    _ ← ensure_io (original_epoch p =? e) "old allocation epoch rejected";
    mret (p, {| _lock := lock |})).

(** [authorize] *)
Definition authorize (root : string) (permit : option Permit) : IO LaunchGuard :=
  lock ← gate root false;
  handing lock (
    required ← exists_ REQUIRED;
    state ← exists_ STATE;
    _ ← (match permit with
         | Some p =>
             '(e, ledger) ← load (file_for root (Authority.host p) (original_epoch p) (serial p));
             _ ← ensure_io (e =? original_epoch p) "old launch epoch rejected";
             ledger_result (Authority.authorize ledger p)
         | None =>
             if negb required && negb state then
               next ← exists_ NEXT;
               ensure_io (negb next) "launch permit required"
             else bail "launch permit required"
         end);
    mret {| _lock := lock |}).

Definition authorize_cleanup (root : string) (permit : option Permit) : IO (LaunchGuard * bool) :=
  lock ← gate root false;
  handing lock (
    may_create ← (match permit with
      | Some p =>
          '(_, ledger) ← load (file_for root (Authority.host p) (original_epoch p) (serial p));
          s ← ledger_result (state_of ledger p);
          (match s with
           | Active => mret true
           | Fenced _ => mret false
           | Complete _ _ => bail "cleanup authority retired"
           end)
      | None =>
          present ← any_exists [REQUIRED; STATE; NEXT];
          _ ← ensure_io (negb present) "cleanup permit required";
          mret true
      end);
    mret ({| _lock := lock |}, may_create)).

Definition authorize_deletion (root : string) (e min_through : Z) (intent : Intent)
    : IO LaunchGuard :=
  _ ← retirement_result (Intent.validate intent);
  _ ← ensure_io (negb (Retirement.simulated intent)
                 && (original_epoch (Retirement.permit intent) <=? e))
        "physical retirement required";
  lock ← gate root true;
  handing lock (
    '(current, ledger) ← load (file_for root (Authority.host (Retirement.permit intent)) e min_through);
    _ ← ensure_io (current =? e) "deletion epoch mismatch";
    s ← ledger_result (state_of ledger (Retirement.permit intent));
    _ ← ensure_io (bool_decide (s = Fenced (Retirement.retirement intent)))
          "exact retirement fence required";
    mret {| _lock := lock |}).

Definition authorize_retirement (root : string) (h : HostId) (e min_through : Z)
    (intent : Intent) : IO LaunchGuard :=
  _ ← retirement_result (Intent.validate intent);
  _ ← ensure_io (bool_decide (Authority.host (Retirement.permit intent) = h)
                 && (original_epoch (Retirement.permit intent) <=? e))
        "retirement owner mismatch";
  lock ← gate root false;
  handing lock (
    '(current, ledger) ← load (file_for root h e min_through);
    _ ← ensure_io (current =? e) "retirement epoch mismatch";
    s ← ledger_result (state_of ledger (Retirement.permit intent));
    _ ← ensure_io (bool_decide (s = Active)
                   || bool_decide (s = Fenced (Retirement.retirement intent)))
          "retirement authority conflict";
    mret {| _lock := lock |}).
End launch.

#[global] Arguments guard_run : simpl never.
#[global] Arguments guard_complete : simpl never.
#[global] Arguments guard_forget : simpl never.
