(* ===== verification/LaunchLaws.v ===== *)
(** * What the durable launch authority guarantees

    Whatever system calls fail and wherever a crash falls, the directory holds the ledger
    of before a call or of after it; what a call acknowledged is there for good. *)

From S2P Require Import Prelude Ext Ids Authority AuthorityLaws Fs FsLaws Store LaunchAuthority.

(** ** What a directory holds *)

Definition private_meta (m : Metadata) : bool :=
  bool_decide (ftype m = Regular) && (uid m =? 0) && (group_or_other (mode m) =? 0) && (nlink m =? 1).

(** [name] is a private file whose contents read as [t]. *)
Definition reads {T} `{Serde T} (nm : gmap string N) (ino : gmap N inode) (name : string)
    (limit : Z) (t : T) : Prop :=
  exists i x, nm !! name = Some i /\ ino !! i = Some x /\ private_meta (meta x) = true /\
              strlen (content x) <= limit /\ from_slice (content x) = Some t.

(** The state is replaced through the staging name; the activation record is durable
    beside it. *)
#[export] Instance launch_layout : Layout.
Proof.
  refine {| main := STATE; side := [REQUIRED]; staging := NEXT |};
    [done|intros Hn; by apply list_elem_of_singleton in Hn..].
Defined.
Abbreviation written := (Store.written MODE_PRIVATE_FILE) (only parsing).
Abbreviation required_on_disk := side_on_disk (only parsing).

Lemma core_names n : n = STATE \/ n = REQUIRED -> n ∈ main :: side.
Proof. intros [-> | ->]; [left|right; left]. Qed.
Lemma core_state m m' : core m = core m' -> m !! STATE = m' !! STATE.
Proof. exact (core_main m m'). Qed.
Lemma core_required m m' : core m = core m' -> m !! REQUIRED = m' !! REQUIRED.
Proof. intros Hc. apply (core_lookup _ _ _ Hc), core_names. by right. Qed.

Lemma other_name n : n <> STATE -> n <> REQUIRED -> n ∉ main :: side.
Proof. intros Hs Hr [?|[?|Hn]%elem_of_cons]%elem_of_cons; [done..|by apply not_elem_of_nil in Hn]. Qed.

Lemma written_core b d0 d :
  written b d0 d ->
  exists i, names d !! STATE = Some i /\ names d !! REQUIRED = names d0 !! REQUIRED /\
            inodes d !! i = Some (private_new MODE_PRIVATE_FILE b).
Proof.
  intros Hw. destruct (wr_state _ _ _ _ Hw) as (i & Hc & Hi). exists i.
  unfold core in Hc. cbn in Hc. by injection Hc.
Qed.

Lemma extends_make_root d : dir_ok d -> extends d (make_root d).
Proof. intros Hok. by apply extends_same. Qed.

Lemma required_ok d : dir_ok d -> is_Some (names d !! STATE) -> required_on_disk d.
Proof. exact (side_ok d). Qed.

(** *** The functions that only read *)

Lemma look_exists d name (Q : bool -> Prop) :
  (forall b, (is_Some (names d !! name) <-> b = true) -> Q b) -> look d (exists_ name) Q.
Proof.
  intros HQ. unfold exists_, symlink_metadata, lookup_meta. looking. apply HQ.
  destruct (names d !! name) eqn:Hn; inv_ok; by rewrite is_Some_alt.
Qed.

Lemma look_private_file d f (Q : unit -> Prop) :
  (forall x, inodes d !! f = Some x -> private_meta (meta x) = true -> Q tt) ->
  look d (private_file f) Q.
Proof.
  intros HQ. unfold private_file, fstat. looking.
  destruct (inodes d !! f) as [x|]; [|done]. cbn in *. simplify_eq. by eapply HQ.
Qed.

Lemma look_read `{Serde T} d name limit (Q : T -> Prop) :
  (forall t, reads (names d) (inodes d) name limit t -> Q t) -> look d (read T name limit) Q.
Proof.
  intros HQ. unfold read, open_existing, read_at_most, read_to_end. looking.
  apply look_private_file. intros x Hx Hp. looking. inv_ok. rewrite Hx in *. cbn in *. simplify_eq.
  bools. apply HQ. eexists _, _. split_and!; [done..|]. by case_match; bools; [|lia].
Qed.

Lemma look_any_exists d l (Q : bool -> Prop) :
  (forall b, (b = false -> Forall (fun n => names d !! n = None) l) -> Q b) -> look d (any_exists l) Q.
Proof.
  revert Q. induction l as [|n l IH]; intros Q HQ; cbn [any_exists foldr].
  - looking. apply HQ. constructor.
  - apply look_bind, look_exists. intros b Hb. destruct b.
    + looking. by apply HQ.
    + apply (IH Q). intros b Hl. apply HQ. intros ->. constructor; [|by apply Hl].
      apply eq_None_not_Some. rewrite Hb. done.
Qed.

(** [looking] with the functions above; [ledger_result] and [retirement_result] are lifts. *)
Ltac looks :=
  repeat first
    [ look_step
    | lazymatch goal with
      | |- look _ (read _ _ _) _ => apply look_read; intros ? ?
      | |- look _ (exists_ _) _ => apply look_exists; intros ? ?
      | |- look _ (private_file _) _ => apply look_private_file; intros ? ? ?
      | |- look _ (any_exists _) _ => apply look_any_exists; intros ? ?
      | |- look _ (ledger_result _) _ => apply look_lift; intros ? ?%map_err_ok
      | |- look _ (retirement_result _) _ => apply look_lift; intros ? ?%map_err_ok
      end ].

(** ** The retained state *)

(** What [serde] can read back as a state file. *)
Definition file_representable `{UuidLib} (s : Saved) : bool :=
  in_u32 (version s) && id_typed (host s) && id_v7 (host s) && in_i64 (epoch s) && utf8 (ledger_json s).

Section state.
Context `{UuidLaws, !Serde Authority.Saved, !SerdeLaws Authority.Saved saved_representable,
          !Serde Retirement.Intent, !Sha256, !Sha256Laws,
          !Serde Required, !Serde Saved, !SerdeLaws Saved file_representable}.

(** The names [nm] and files [ino] hold epoch and ledger [v] for host [h]. *)
Definition loads (h : HostId) (nm : gmap string N) (ino : gmap N inode) (v : Z * Authority) : Prop :=
  exists rq sv,
    reads nm ino REQUIRED 4096 rq /\ required_version rq = 1 /\ required_host rq = h /\
    reads nm ino STATE MAX_BYTES sv /\ version sv = 1 /\ host sv = h /\ epoch sv = v.1 /\
    decode (ledger_json sv) h 0 = Ok v.2.

(** What a process finds now, or may find after a crash. *)
Definition possible (h : HostId) (d : Dir) (v : Z * Authority) : Prop :=
  exists nm, image d nm /\ loads h nm (inodes d) v.

Lemma decode_lower b h m m' a :
  decode b h m = Ok a -> m' <= through a -> decode b h m' = Ok a.
Proof.
  intros Hd Hm. destruct (decode_wf _ _ _ _ Hd) as (Hwf & _ & _).
  unfold decode in *. apply if_err_ok in Hd as [-> Hd].
  apply bind_ok in Hd as (saved & Hs & Hd). rewrite Hs. cbn.
  apply bind_ok in Hd as ([] & Hh & Hd). rewrite Hh. cbn.
  apply if_err_ok in Hd as [Hb Hd]. assert (saved = a) as ->.
  { apply if_err_ok in Hd as [_ Hd]. by apply bind_ok in Hd as ([] & _ & [= <-]). }
  bools. rewrite (proj2 (Z.ltb_ge (through a) m')) by done.
  repeat match goal with H : _ = 1 |- _ => rewrite H end. cbn.
  by rewrite (proj2 (Z.ltb_ge MAX_SERIAL (through a))), (proj2 (Z.ltb_ge MAX_ENTRIES _)) by done.
Qed.

Lemma look_load d store (Q : Z * Authority -> Prop) :
  (forall v, loads (file_host store) (names d) (inodes d) v ->
     minimum_epoch store <= v.1 -> minimum_through store <= through v.2 -> Q v) ->
  look d (load store) Q.
Proof.
  intros HQ. unfold load. looks. bools.
  match goal with Hd : decode _ _ _ = Ok _ |- _ =>
    destruct (decode_wf _ _ _ _ Hd) as (Hwf & _ & Ht); pose proof (decode_lower _ _ _ 0 _ Hd) end.
  apply HQ; [|done|done]. eexists _, _. cbn. split_and!; try done.
  match goal with Hd : _ -> decode _ _ 0 = _ |- _ => apply Hd, Hwf end.
Qed.

Lemma look_held d c m : look d (ensure_io (L:=Authority.Error) c m) (fun _ => c = true).
Proof. by apply look_ensure. Qed.
Lemma look_ledger {A} d (r : result Authority.Error A) : look d (ledger_result r) (fun a => r = Ok a).
Proof. by apply look_lift; intros a ?%map_err_ok. Qed.

(** *** Saving *)

Definition saved_bytes (h : HostId) (e : Z) (l : Authority) (b : bytes) : Prop :=
  exists json, encode l = Ok json /\ utf8 json = true /\
    to_vec {| version := 1; host := h; epoch := e; ledger_json := json |} = Some b /\
    strlen b <= MAX_BYTES.

Lemma wp_discard store d0 Q :
  dir_ok d0 ->
  (forall r d, extends d0 d -> (r = Ok tt -> names d !! NEXT = None) -> Q r d) ->
  wp (discard_staging store) Q d0.
Proof.
  intros Hok HQ. unfold discard_staging. apply wp_bind.
  eapply wp_look; [apply look_exists; intros b Hb; exact Hb| |].
  { intros e. apply HQ; [by apply extends_refl|done]. }
  intros [|] Hb.
  - apply wp_bind. eapply wp_look; [by apply (look_load _ _ (fun _ => True))| |].
    { intros e. apply HQ; [by apply extends_refl|done]. }
    intros _ _. apply wp_bind.
    eapply wp_look; [apply (look_query _ _ (fun _ => True)); done| |].
    { intros e. apply HQ; [by apply extends_refl|done]. }
    intros old _. apply wp_bind.
    eapply wp_look; [apply (look_private_file _ _ (fun _ => True)); done| |].
    { intros e. apply HQ; [by apply extends_refl|done]. }
    intros _ _. apply wp_syscall.
    { intros e. apply HQ; [by apply extends_refl|done]. }
    intros d' [] He. inv_ok. simplify_eq. apply HQ.
    + by apply extends_unlink, other_name.
    + intros _. rewrite (names_snoc d0 (with_pending d0 (Unlink NEXT)) (Unlink NEXT)) by done.
      cbn. apply lookup_delete_eq.
  - apply wp_ret. apply HQ; [by apply extends_refl|]. intros _.
    apply eq_None_not_Some. by rewrite Hb.
Qed.

Lemma wp_save store e l d0 Q :
  dir_ok d0 -> required_on_disk d0 ->
  (forall r d, extends d0 d \/ (exists b, saved_bytes (file_host store) e l b /\ written b d0 d) ->
     Q (Err r) d) ->
  (forall b d, saved_bytes (file_host store) e l b -> written b d0 d ->
     (forall m, image d m -> m = names d) -> Q (Ok tt) d) ->
  wp (save store e l) Q d0.
Proof.
  intros Hok Hreq HE HO. unfold save.
  assert (HE0 : forall r, Q (Err r) d0) by (intros; apply HE; left; by apply extends_refl).
  apply wp_bind. apply wp_lift. destruct (encode l) as [json|] eqn:Hj; cbn; [|done].
  apply wp_bind. eapply wp_look;
    [apply (look_ensure _ _ _ (fun _ => utf8 json = true)); done|done|intros [] Hutf].
  apply wp_bind. apply wp_lift. destruct (to_vec _) as [b|] eqn:Hb; cbn; [|done].
  apply wp_bind. eapply wp_look;
    [apply (look_ensure _ _ _ (fun _ => strlen b <= MAX_BYTES)); intros; by bools|done|intros [] Hlen].
  assert (Hsb : saved_bytes (file_host store) e l b) by (by exists json).
  apply wp_bind, wp_discard; [done|]. intros [[]|r] d1 He1 _; [|apply HE; by left].
  change (wp (publish MODE_PRIVATE_FILE b) Q d1). apply (wp_publish _ _ d0); [done|done|done| |].
  - intros r d [He|Hw]; apply HE; [by left|right; by exists b].
  - intros d Hw Hi. by apply (HO b).
Qed.

(** *** The gate *)

Lemma wp_gate root ex d0 Q :
  dir_ok d0 -> (forall r d, extends d0 d -> Q r d) -> wp (gate root ex) Q d0.
Proof.
  intros Hok HQ. assert (HQ0 : forall r, Q r d0) by (intros; apply HQ; by apply extends_refl).
  unfold gate. apply wp_bind. unfold private_root.
  apply wp_bind. eapply wp_look; [apply (look_get _ (fun w => True)); done|done|intros w _].
  apply wp_bind. eapply wp_look; [apply (look_ensure _ _ _ (fun _ => True)); done|done|intros _ _].
  apply wp_bind. eapply wp_look; [apply (look_ensure _ _ _ (fun _ => True)); done|done|intros _ _].
  apply wp_bind, wp_syscall; [done|]. intros d1 [] [= Hd1].
  assert (He1 : extends d0 d1).
  { subst. destruct (dir_meta d0); [by apply extends_refl|by apply extends_make_root]. }
  assert (HQ1 : forall r, Q r d1) by (intros; by apply HQ).
  pose proof (ext_ok _ _ He1) as Hok1. clear Hd1.
  eapply (wp_look _ (fun _ => True)); [looks; done|done|intros _ _].
  apply wp_bind. eapply wp_look; [by apply (look_any_exists _ _ (fun _ => True))|done|intros act _].
  assert (Hopen : wp (open_or_create (L:=Authority.Error) LOCK (negb act) MODE_PRIVATE_FILE)
                    (fun _ d2 => extends d1 d2) d1).
  { apply wp_syscall; [intros; by apply extends_refl|]. intros d2 f. unfold ok_or.
    destruct (names d1 !! LOCK) as [i|]; intros Hf; inv_ok; simplify_eq;
      [by apply extends_refl|by apply extends_link, other_name]. }
  apply wp_bind. eapply wp_mono; [exact Hopen|]. clear Hopen. intros [file|e] d2 He2;
    [|apply HQ; by eapply extends_trans].
  assert (HQ2 : forall r d, extends d2 d -> Q r d).
  { intros r d He. apply HQ. eapply extends_trans; [exact He1|]. by eapply extends_trans. }
  pose proof (ext_ok _ _ He2) as Hok2.
  assert (HQ2' : forall r, Q r d2) by (intros; apply HQ2; by apply extends_refl).
  apply wp_bind. eapply wp_look; [by apply (look_private_file _ _ (fun _ => True))|done|intros _ _].
  apply wp_bind, wp_syscall; [done|]. intros d3 got [= Hd3].
  assert (He3 : extends d2 d3).
  { pose proof (extends_try_lock file ex d2 Hok2) as He. by rewrite Hd3 in He. }
  destruct got; cbn [negb]; [|apply wp_fail; by apply HQ2].
  apply wp_handing. eapply (wp_look _ (fun _ => True)).
  - unfold gate_held, symlink_metadata, fstat. looks; done.
  - intros e. apply HQ2. eapply extends_trans; [exact He3|]. apply extends_unlock. by apply He3.
  - intros a _. by apply HQ2.
Qed.

(** *** How calls change what is possible *)

Lemma reads_core {T} `{Serde T} d0 d m m0 n lim (t : T) :
  dir_ok d0 -> (forall j x, inodes d0 !! j = Some x -> inodes d !! j = Some x) ->
  image d0 m0 -> core m = core m0 -> n = STATE \/ n = REQUIRED ->
  reads m (inodes d) n lim t <-> reads m0 (inodes d0) n lim t.
Proof.
  intros Hok Hin Hm Hc Hn. unfold reads. rewrite (core_lookup _ _ _ Hc (core_names _ Hn)).
  split; intros (i & x & Hi & Hx & Hr).
  - destruct (ok_names _ Hok _ _ _ Hm Hi) as [x' Hx']. pose proof (Hin _ _ Hx').
    exists i, x'. replace x with x' in Hr by congruence. tauto.
  - exists i, x. split_and!; try tauto. by apply Hin.
Qed.

Lemma loads_core h d0 d m m0 v :
  dir_ok d0 -> (forall j x, inodes d0 !! j = Some x -> inodes d !! j = Some x) ->
  image d0 m0 -> core m = core m0 ->
  loads h m (inodes d) v <-> loads h m0 (inodes d0) v.
Proof.
  intros Hok Hin Hm Hc. unfold loads.
  split; intros (rq & sv & Hrq & ? & ? & Hsv & Hrest); exists rq, sv.
  - rewrite (reads_core d0 d m m0) in Hrq by auto. rewrite (reads_core d0 d m m0) in Hsv by auto. tauto.
  - rewrite <- (reads_core d0 d m m0) in Hrq by auto.
    rewrite <- (reads_core d0 d m m0) in Hsv by auto. tauto.
Qed.

Lemma possible_extends h d0 d v :
  dir_ok d0 -> extends d0 d -> possible h d v -> possible h d0 v.
Proof.
  intros Hok He (m & Hm & Hl). destruct (ext_images _ _ He _ Hm) as (m0 & Hm0 & Hc).
  exists m0. split; [done|]. by apply (loads_core h d0 d m m0 v Hok (ext_inodes _ _ He) Hm0 Hc).
Qed.

Lemma loads_names_extends h d0 d v :
  dir_ok d0 -> extends d0 d -> loads h (names d) (inodes d) v -> possible h d0 v.
Proof. intros Hok He Hl. eapply possible_extends; [done|done|]. exists (names d). eauto using image_names. Qed.

Lemma loads_valid h nm ino v : loads h nm ino v -> in_i64 v.1 = true /\ wf v.2 /\ saved_host v.2 = h.
Proof.
  intros (rq & sv & _ & _ & _ & (i & x & _ & _ & _ & _ & Hs) & _ & _ & <- & Hd).
  apply decode_wf in Hd as (? & ? & _). apply from_representable in Hs.
  unfold file_representable in Hs. bools. done.
Qed.

(** What was written reads back. *)
Lemma saved_bytes_read h e l b :
  in_i64 e = true -> wf l -> saved_host l = h -> saved_bytes h e l b ->
  exists json, from_slice b = Some {| version := 1; host := h; epoch := e; ledger_json := json |} /\
    decode json h 0 = Ok l.
Proof.
  intros He Hwf <- (json & Hj & Hu & Hb & _). exists json. split.
  - apply (from_to _ b); [|done]. unfold file_representable. cbn [version host epoch ledger_json].
    pose proof (wf_typed _ Hwf) as Ht. unfold saved_typed in Ht. bools.
    rewrite He, Hu, (valid_uuid_v7 _ (wf_host_valid _ Hwf)).
    match goal with Hid : id_typed (saved_host l) = true |- _ => by rewrite Hid end.
  - apply decode_encode; [done| |done]. by apply Hwf.
Qed.

Lemma written_possible h d0 d b e l v :
  dir_ok d0 -> in_i64 e = true -> wf l -> saved_host l = h -> saved_bytes h e l b ->
  written b d0 d -> possible h d v -> possible h d0 v \/ v = (e, l).
Proof.
  intros Hok He Hwf Hh Hb Hw (m & Hm & Hl).
  destruct (wr_images _ _ _ _ Hw _ Hm) as [(m0 & Hm0 & Hc)|Hc].
  - left. exists m0. split; [done|]. by apply (loads_core h d0 d m m0 v Hok (wr_inodes _ _ _ _ Hw) Hm0 Hc).
  - right. destruct (written_core _ _ _ Hw) as (i & Hci & _ & Hi). apply core_state in Hc.
    rewrite Hci in Hc.
    destruct Hl as (rq & sv & _ & _ & _ & (j & x & Hj & Hx & _ & _ & Hs) & _ & _ & Hep & Hd).
    assert (x = private_new MODE_PRIVATE_FILE b) as -> by congruence. cbn in Hs.
    destruct (saved_bytes_read h e l b) as (json & Hr & Hdec); [done..|].
    destruct v as [e' l']. cbn in *. simplify_eq. cbn in *. congruence.
Qed.

Lemma written_loads h d0 d b e l rq :
  in_i64 e = true -> wf l -> saved_host l = h -> saved_bytes h e l b ->
  written b d0 d -> dir_ok d0 ->
  reads (names d0) (inodes d0) REQUIRED 4096 rq -> required_version rq = 1 -> required_host rq = h ->
  loads h (names d) (inodes d) (e, l).
Proof.
  intros He Hwf Hh Hb Hw Hok Hrq Hv Hrh.
  destruct (written_core _ _ _ Hw) as (i & Hs & Hr & Hi).
  destruct (saved_bytes_read h e l b) as (json & Hread & Hdec); [done..|].
  exists rq, {| version := 1; host := h; epoch := e; ledger_json := json |}. split_and!; try done.
  - destruct Hrq as (j & x & Hj & Hx & ?). exists j, x. rewrite Hr. split_and!; try tauto.
    by apply (wr_inodes _ _ _ _ Hw).
  - eexists i, _. split_and!; [done|done|done| |exact Hread]. by destruct Hb as (? & _ & _ & _ & ?).
Qed.

(** One accepted or refused call: the epoch does not fall, the ledger makes one step. *)
Definition lstep (v v' : Z * Authority) : Prop :=
  v.1 <= v'.1 /\ (v'.2 = v.2 \/ step v.2 v'.2).

(** Every image of the directory carries the activation record. *)
Definition activated (d : Dir) : Prop := forall m, image d m -> is_Some (m !! REQUIRED).

Record evolves (h : HostId) (d0 d : Dir) : Prop := {
  ev_ok : dir_ok d;
  ev_possible : forall v, possible h d v ->
    possible h d0 v \/ exists v0, possible h d0 v0 /\ lstep v0 v;
  ev_active : activated d0 -> activated d;
}.

(** Whatever crash comes next, [v] is what the directory holds. *)
Definition committed (h : HostId) (v : Z * Authority) (d : Dir) : Prop :=
  forall m, image d m -> loads h m (inodes d) v.

Lemma loads_fun h m ino v v' : loads h m ino v -> loads h m ino v' -> v = v'.
Proof.
  intros (rq & sv & _ & _ & _ & (i & x & Hi & Hx & _ & _ & Hs) & _ & _ & He & Hd)
         (rq' & sv' & _ & _ & _ & (i' & x' & Hi' & Hx' & _ & _ & Hs') & _ & _ & He' & Hd').
  destruct v, v'. cbn in *. simplify_eq. congruence.
Qed.

Lemma committed_possible h v d v' : committed h v d -> possible h d v' -> v' = v.
Proof. intros Hc (m & Hm & Hl). symmetry. by eapply loads_fun; [apply Hc|]. Qed.

Lemma activated_core d0 d :
  (forall m, image d m -> exists m0, image d0 m0 /\ m !! REQUIRED = m0 !! REQUIRED) ->
  activated d0 -> activated d.
Proof. intros Hi Ha m Hm. destruct (Hi _ Hm) as (m0 & Hm0 & ->). by apply Ha. Qed.

Lemma evolves_extends h d0 d : dir_ok d0 -> extends d0 d -> evolves h d0 d.
Proof.
  intros Hok He. split; [apply He|intros v Hv; left; eauto using possible_extends|].
  apply activated_core. intros m Hm. destruct (ext_images _ _ He _ Hm) as (m0 & Hm0 & Hc).
  exists m0. split; [done|]. by apply core_required.
Qed.

Lemma evolves_pre h d0 d1 d : dir_ok d0 -> extends d0 d1 -> evolves h d1 d -> evolves h d0 d.
Proof.
  intros Hok He Hev. split; [apply Hev| |].
  - intros v [Hv|(v0 & Hv0 & Hs)]%(ev_possible _ _ _ Hev).
    + left. eauto using possible_extends.
    + right. exists v0. split; [eauto using possible_extends|done].
  - intros Ha. apply Hev. by apply (ev_active _ _ _ (evolves_extends h _ _ Hok He)).
Qed.

Lemma image_unlock i d m : image (unlock i d) m <-> image d m.
Proof. pose proof (unlock_same i d). apply image_same; tauto. Qed.

Lemma possible_unlock h i d v : possible h (unlock i d) v <-> possible h d v.
Proof.
  unfold possible. pose proof (unlock_same i d) as (Hi & _). rewrite Hi.
  by setoid_rewrite image_unlock.
Qed.

Lemma evolves_unlock h d0 d i : evolves h d0 d -> evolves h d0 (unlock i d).
Proof.
  intros Hev. split; [apply dir_ok_unlock, Hev| |].
  - intros v Hv%possible_unlock. by apply Hev.
  - intros Ha m Hm%image_unlock. by apply Hev.
Qed.

Lemma committed_unlock h v i d : committed h v d -> committed h v (unlock i d).
Proof.
  intros Hc m Hm%image_unlock. pose proof (unlock_same i d) as (Hi & _). rewrite Hi. by apply Hc.
Qed.

(** Saving the result of one call over the state it started from. *)
Lemma wp_commit store v e l d0 Q :
  dir_ok d0 -> loads (file_host store) (names d0) (inodes d0) v -> lstep v (e, l) ->
  in_i64 e = true -> wf l -> saved_host l = file_host store ->
  (forall r d, evolves (file_host store) d0 d -> Q (Err r) d) ->
  (forall d, evolves (file_host store) d0 d -> committed (file_host store) (e, l) d -> Q (Ok tt) d) ->
  wp (save store e l) Q d0.
Proof.
  intros Hok Hv Hs He Hwf Hh HE HO. set (h := file_host store) in *.
  pose proof Hv as (rq & sv & Hrq & Hver & Hrh & (i & x & Hi & _) & _).
  assert (Hreq : required_on_disk d0) by (apply required_ok; [done|by exists i]).
  assert (Hw : forall b d, saved_bytes h e l b -> written b d0 d -> evolves h d0 d).
  { intros b d Hb Hw. split; [apply Hw| |].
    - intros v' [Hv' | ->]%(written_possible h d0 d b e l v' Hok He Hwf Hh Hb Hw); [by left|].
      right. exists v. split; [|done]. exists (names d0). split; [apply image_names|done].
    - apply activated_core. intros m Hm.
      destruct (wr_images _ _ _ _ Hw _ Hm) as [(m0 & Hm0 & Hc)|Hc].
      + exists m0. split; [done|]. by apply core_required.
      + exists (names d0). split; [apply image_names|].
        destruct (written_core _ _ _ Hw) as (j & _ & <- & _). by apply core_required. }
  apply wp_save; [done|done| |].
  - intros r d [Hext|(b & Hb & Hwr)]; apply HE; [by apply evolves_extends|by eapply Hw].
  - intros b d Hb Hwr Himg. apply HO; [by eapply Hw|].
    intros m ->%Himg. by eapply written_loads.
Qed.

(** A transaction under the exclusive gate. *)
Lemma wp_update store e change d0 :
  dir_ok d0 -> (forall l l' r, wf l -> change l = (l', r) -> step l l') ->
  wp (update store e change)
    (fun r d => evolves (file_host store) d0 d /\
       (r = Ok tt -> exists l l', possible (file_host store) d0 (e, l) /\
          change l = (l', Ok tt) /\ committed (file_host store) (e, l') d)) d0.
Proof.
  intros Hok Hch. unfold update. apply wp_bind, wp_gate; [done|].
  intros [lock|r] d1 He1; [|split; [by apply evolves_extends|done]].
  pose proof (ext_ok _ _ He1) as Hok1. apply wp_scoped.
  assert (HE : forall d (r : error Authority.Error) P, evolves (file_host store) d1 d ->
            evolves (file_host store) d0 (unlock lock d) /\ (Err r = Ok tt -> P)).
  { intros d r P Hev. split; [|done]. apply evolves_unlock. by eapply evolves_pre. }
  assert (Hev1 : evolves (file_host store) d1 d1) by (apply evolves_extends, extends_refl; done).
  apply wp_bind. eapply wp_look; [apply look_load; intros v Hv _ _; exact Hv|intros; by apply HE|].
  intros [e' l] Hl. apply wp_bind.
  eapply wp_look; [apply (look_ensure _ _ _ (fun _ => e' = e)); intros; by bools|intros; by apply HE|].
  intros [] ->. destruct (loads_valid _ _ _ _ Hl) as (He & Hwf & Hh). cbn in *.
  unfold ledger_run. destruct (change l) as [l' [u|err]] eqn:Hc.
  - assert (Hs : step l l') by (by eapply Hch). apply wp_bind, wp_ret.
    eapply wp_commit; [done|exact Hl| |done|by eapply step_wf| |intros; by apply HE|].
    + split; cbn; [lia|by right].
    + rewrite <- Hh. by apply step_host.
    + intros d Hev Hcm. split; [apply evolves_unlock; by eapply evolves_pre|]. intros _.
      exists l, l'. destruct u. split_and!; [|done|by apply committed_unlock].
      by eapply loads_names_extends.
  - apply wp_bind, wp_fail. by apply HE.
Qed.

(** *** Registration and epochs *)

(** As [wp_update], for a call whose new epoch and result are its own. *)
Lemma wp_register store e ps d0 :
  dir_ok d0 -> Forall (fun p => permit_typed p = true) ps ->
  wp (register store e ps)
    (fun r d => evolves (file_host store) d0 d /\
       (forall c, r = Ok c -> exists l l', possible (file_host store) d0 (e, l) /\
          Authority.register ps l = (l', Ok tt) /\
          checkpoint_epoch c = e /\ registered_through c = through l' /\
          committed (file_host store) (e, l') d)) d0.
Proof.
  intros Hok Hty. unfold register. apply wp_bind, wp_gate; [done|].
  intros [lock|r] d1 He1; [|split; [by apply evolves_extends|done]].
  pose proof (ext_ok _ _ He1) as Hok1. apply wp_scoped.
  assert (HE : forall d (r : error Authority.Error) (P : Checkpoint -> Prop),
            evolves (file_host store) d1 d ->
            evolves (file_host store) d0 (unlock lock d) /\ (forall c, Err r = Ok c -> P c)).
  { intros d r P Hev. split; [|done]. apply evolves_unlock. by eapply evolves_pre. }
  assert (Hev1 : evolves (file_host store) d1 d1) by (apply evolves_extends, extends_refl; done).
  apply wp_bind. eapply wp_look; [apply look_load; intros v Hv _ _; exact Hv|intros; by apply HE|].
  intros [e' l] Hl. apply wp_bind.
  eapply wp_look; [apply (look_ensure _ _ _ (fun _ => e' = e)); intros; by bools|intros; by apply HE|].
  intros [] ->. apply wp_bind.
  eapply wp_look; [apply (look_ensure _ _ _ (fun _ => True)); done|intros; by apply HE|].
  intros _ _. destruct (loads_valid _ _ _ _ Hl) as (He & Hwf & Hh). cbn in *.
  unfold ledger_run. destruct (Authority.register ps l) as [l' [[]|err]] eqn:Hc.
  - assert (Hs : step l l') by (by eapply step_register). apply wp_bind, wp_ret, wp_bind.
    eapply wp_commit; [done|exact Hl| |done|by eapply step_wf| |intros; by apply HE|].
    + split; cbn; [lia|by right].
    + rewrite <- Hh. by apply step_host.
    + intros d Hev Hcm. apply wp_ret. split; [apply evolves_unlock; by eapply evolves_pre|].
      intros c [= <-]. exists l, l'. cbn. split_and!; try done; [|by apply committed_unlock].
      by eapply loads_names_extends.
  - apply wp_bind, wp_fail. by apply HE.
Qed.

Lemma wp_advance_epoch store e e' d0 :
  dir_ok d0 -> in_i64 e' = true ->
  wp (advance_epoch store e e')
    (fun r d => evolves (file_host store) d0 d /\
       (r = Ok tt -> exists l, possible (file_host store) d0 (e, l) /\ e < e' /\
          committed (file_host store) (e', l) d)) d0.
Proof.
  intros Hok Hty. unfold advance_epoch. apply wp_bind, wp_gate; [done|].
  intros [lock|r] d1 He1; [|split; [by apply evolves_extends|done]].
  pose proof (ext_ok _ _ He1) as Hok1. apply wp_scoped.
  assert (HE : forall d (r : error Authority.Error) P, evolves (file_host store) d1 d ->
            evolves (file_host store) d0 (unlock lock d) /\ (Err r = Ok tt -> P)).
  { intros d r P Hev. split; [|done]. apply evolves_unlock. by eapply evolves_pre. }
  assert (Hev1 : evolves (file_host store) d1 d1) by (apply evolves_extends, extends_refl; done).
  apply wp_bind. eapply wp_look; [apply look_load; intros v Hv _ _; exact Hv|intros; by apply HE|].
  intros [e0 l] Hl. apply wp_bind.
  eapply wp_look; [apply (look_ensure _ _ _ (fun _ => e0 = e /\ e < e')); intros; bools; lia|
                   intros; by apply HE|].
  intros [] [-> Hlt]. destruct (loads_valid _ _ _ _ Hl) as (He & Hwf & Hh). cbn in *.
  eapply wp_commit; [done|exact Hl| |done|done|done|intros; by apply HE|].
  - split; cbn; [lia|by left].
  - intros d Hev Hcm. split; [apply evolves_unlock; by eapply evolves_pre|]. intros _.
    exists l. split_and!; [|done|by apply committed_unlock]. by eapply loads_names_extends.
Qed.

(** *** Readers *)

(** A call that looks under the gate, with its lock released or handed on. *)
Definition sound {A} (R : A -> Dir -> Prop) (d0 : Dir) (r : result (error Authority.Error) A) (d : Dir) : Prop :=
  extends d0 d /\ forall a, r = Ok a -> R a d.

Lemma wp_reader {A} root ex (body : N -> IO A) (R : A -> Dir -> Prop) d0 :
  dir_ok d0 -> (forall a i d, R a d -> R a (unlock i d)) ->
  (forall lock d1, extends d0 d1 -> wp (body lock) (sound R d1) d1) ->
  wp (lock ← gate root ex; scoped lock (body lock)) (sound R d0) d0 /\
  wp (lock ← gate root ex; handing lock (body lock)) (sound R d0) d0.
Proof.
  intros Hok Hu Hb. split; apply wp_bind, wp_gate; try done;
    (intros [lock|r] d1 He1; [|by split]); [apply wp_scoped|apply wp_handing];
    (eapply wp_mono; [by apply Hb|]).
  - intros r d [He Hr]. split; [|eauto]. eapply extends_trans; [exact He1|].
    eapply extends_trans; [exact He|]. by apply extends_unlock, He.
  - intros [a|r] d [He Hr]; (split; [|done]).
    + by eapply extends_trans.
    + eapply extends_trans; [exact He1|]. eapply extends_trans; [exact He|].
      by apply extends_unlock, He.
Qed.

(** The body of a reader that looks ... *)
Lemma wp_body {A} (m : IO A) (R : A -> Dir -> Prop) d1 :
  dir_ok d1 -> look d1 m (fun a => R a d1) -> wp m (sound R d1) d1.
Proof.
  intros Hok Hl. eapply wp_look; [exact Hl|intros e|intros a Ha];
    (split; [by apply extends_refl|]); [done|]. by intros ? [= <-].
Qed.

(** ... and of one that syncs the directory before it answers. *)
Lemma wp_body_sync {A} (a : A) (R : A -> Dir -> Prop) d1 :
  dir_ok d1 -> R a (sync_names d1) -> wp (_ ← sync_root; mret a : IO A) (sound R d1) d1.
Proof.
  intros Hok Ha. apply wp_bind, wp_syscall.
  - intros e. split; [by apply extends_refl|done].
  - intros d [] [= <-]. apply wp_ret. split; [by apply extends_sync, extends_refl|].
    by intros ? [= <-].
Qed.

Lemma wp_look_then {A B} (m : IO A) (k : A -> IO B) (P : A -> Prop) (R : B -> Dir -> Prop) d1 :
  dir_ok d1 -> look d1 m P -> (forall a, P a -> wp (k a) (sound R d1) d1) ->
  wp (m ≫= k) (sound R d1) d1.
Proof.
  intros Hok Hl Hk. apply wp_bind. eapply wp_look; [exact Hl|intros e|exact Hk].
  split; [by apply extends_refl|done].
Qed.

Lemma committed_sync h v d : loads h (names d) (inodes d) v -> committed h v (sync_names d).
Proof. intros Hl m ->%image_synced. exact Hl. Qed.

Lemma wp_checkpoint store e d0 :
  dir_ok d0 ->
  wp (checkpoint store e)
    (sound (fun c d => exists l, possible (file_host store) d0 (e, l) /\
              committed (file_host store) (e, l) d /\ c = checkpoint_of store e l) d0) d0.
Proof.
  intros Hok. eapply wp_reader; [done| |].
  { intros c i d (l & ? & ? & ?). exists l. split_and!; try done. by apply committed_unlock. }
  intros lock d1 He. pose proof (ext_ok _ _ He) as Hok1.
  eapply wp_look_then; [done|apply look_load; intros v Hv _ _; exact Hv|]. intros [e' l] Hl.
  eapply wp_look_then; [done|apply look_held|]. intros [] Hb. bools. subst.
  apply wp_body_sync; [done|]. exists l. split_and!; [|by apply committed_sync|done].
  by eapply loads_names_extends.
Qed.

Lemma wp_retained_checkpoint store d0 :
  dir_ok d0 ->
  wp (retained_checkpoint store)
    (sound (fun c d => exists v, possible (file_host store) d0 v /\
              committed (file_host store) v d /\ c = checkpoint_of store v.1 v.2) d0) d0.
Proof.
  intros Hok. eapply wp_reader; [done| |].
  { intros c i d (l & ? & ? & ?). exists l. split_and!; try done. by apply committed_unlock. }
  intros lock d1 He. pose proof (ext_ok _ _ He) as Hok1.
  eapply wp_look_then; [done|apply look_load; intros v Hv _ _; exact Hv|]. intros [e l] Hl.
  apply wp_body_sync; [done|]. exists (e, l). split_and!; [|by apply committed_sync|done].
  by eapply loads_names_extends.
Qed.

Lemma wp_open root h me mt d0 :
  dir_ok d0 ->
  wp (open root h me mt) (sound (fun _ _ => exists v, possible h d0 v /\ me <= v.1) d0) d0.
Proof.
  intros Hok. unfold open.
  eapply wp_look_then; [done|apply (look_ensure _ _ _ (fun _ => True)); done|]. intros _ _.
  eapply wp_reader; [done|done|]. intros lock d1 He. pose proof (ext_ok _ _ He) as Hok1.
  eapply wp_look_then; [done|apply look_load; intros v Hv Hm _; exact (conj Hv Hm)|].
  intros v [Hv Hm]. apply wp_body; [done|]. apply look_ret. exists v. split; [|done].
  by eapply loads_names_extends.
Qed.

Lemma wp_completed store e i d0 :
  dir_ok d0 ->
  wp (completed store e i)
    (sound (fun _ d => exists l, possible (file_host store) d0 (e, l) /\
              committed (file_host store) (e, l) d /\ Authority.completed l i = Ok tt) d0) d0.
Proof.
  intros Hok. eapply wp_reader; [done| |].
  { intros c j d (l & ? & ? & ?). exists l. split_and!; try done. by apply committed_unlock. }
  intros lock d1 He. pose proof (ext_ok _ _ He) as Hok1.
  eapply wp_look_then; [done|apply look_load; intros v Hv _ _; exact Hv|]. intros [e' l] Hl.
  eapply wp_look_then; [done|apply look_held|]. intros [] Hb. bools. subst.
  eapply wp_look_then; [done|apply look_ledger|]. intros [] Hc.
  apply wp_body_sync; [done|]. exists l. split_and!; [|by apply committed_sync|done].
  by eapply loads_names_extends.
Qed.

(** *** Launch decisions *)

Lemma wp_authorize root p d0 :
  dir_ok d0 ->
  wp (authorize root p)
    (sound (fun _ _ => match p with
       | Some p => exists l, possible (Authority.host p) d0 (original_epoch p, l) /\
                             Authority.authorize l p = Ok tt
       | None => names d0 !! REQUIRED = None /\ names d0 !! STATE = None
       end) d0) d0.
Proof.
  intros Hok. eapply wp_reader; [done|done|].
  intros lock d1 He. pose proof (ext_ok _ _ He) as Hok1. apply wp_body; [done|].
  unfold authorize. looks. destruct p as [p|].
  - looks. eapply look_mono; [by apply (look_load _ _ (fun v => loads (Authority.host p) (names d1) (inodes d1) v))|].
    intros [e l] Hl. looks. bools. subst. exists l. split; [|by match goal with H : Authority.authorize _ _ = Ok ?u |- _ => destruct u end].
    by eapply loads_names_extends.
  - looks; try done. pose proof (ext_core _ _ He) as Hc. pose proof (core_state _ _ Hc) as Hc1. pose proof (core_required _ _ Hc) as Hc2. bools.
    rewrite <- Hc1, <- Hc2. split; apply eq_None_not_Some.
    + rewrite H3. congruence.
    + rewrite H4. congruence.
Qed.

Lemma wp_authorize_registered root h e mt alc d0 :
  dir_ok d0 ->
  wp (authorize_registered_allocation root h e mt alc)
    (sound (fun a _ => exists l, possible h d0 (e, l) /\ active_allocation l alc = Ok a.1 /\
              original_epoch a.1 = e) d0) d0.
Proof.
  intros Hok. eapply wp_reader; [done|done|].
  intros lock d1 He. pose proof (ext_ok _ _ He) as Hok1.
  eapply wp_look_then; [done|apply look_load; intros v Hv _ _; exact Hv|]. intros [e' l] Hl.
  eapply wp_look_then; [done|apply look_held|]. intros [] Hb. bools. subst.
  eapply wp_look_then; [done|apply look_ledger|]. intros p Hp.
  eapply wp_look_then; [done|apply look_held|]. intros [] Hb. bools.
  apply wp_body; [done|]. looks. exists l. split_and!; [|done|done]. by eapply loads_names_extends.
Qed.

Lemma wp_authorize_cleanup root p d0 :
  dir_ok d0 ->
  wp (authorize_cleanup root p)
    (sound (fun (a : LaunchGuard * bool) _ => match p with
       | Some p => exists v s, possible (Authority.host p) d0 v /\ state_of v.2 p = Ok s /\
                               if a.2 then s = Active else exists r, s = Fenced r
       | None => names d0 !! REQUIRED = None /\ names d0 !! STATE = None /\ a.2 = true
       end) d0) d0.
Proof.
  intros Hok. eapply wp_reader; [done|done|].
  intros lock d1 He. pose proof (ext_ok _ _ He) as Hok1. destruct p as [p|].
  - apply wp_body; [done|]. apply look_bind, look_bind.
    eapply look_mono; [apply look_load; intros v Hv _ _; exact Hv|]. intros [e l] Hl. cbn in Hl.
    apply look_bind. eapply look_mono; [apply look_ledger|]. intros st Hst.
    destruct st; looks; exists (e, l); (eexists; split_and!; [by eapply loads_names_extends|exact Hst|]);
      cbn; eauto.
  - apply wp_body; [done|]. looks. bools.
    match goal with H : ?b = false -> Forall _ _, H' : ?b = false |- _ => pose proof (H H') as Hf end.
    apply Forall_cons in Hf as [H1' Hf]. apply Forall_cons in Hf as [H2' _].
    pose proof (ext_core _ _ He) as Hc. by rewrite <- (core_state _ _ Hc), <- (core_required _ _ Hc).
Qed.

Lemma wp_authorize_deletion root e mt i d0 :
  dir_ok d0 ->
  wp (authorize_deletion root e mt i)
    (sound (fun _ _ => exists l, possible (Authority.host (Retirement.permit i)) d0 (e, l) /\
              state_of l (Retirement.permit i) = Ok (Fenced (Retirement.retirement i)) /\
              Retirement.simulated i = false) d0) d0.
Proof.
  intros Hok. unfold authorize_deletion.
  eapply wp_look_then; [done|apply (look_lift _ _ (fun _ => True)); done|]. intros _ _.
  eapply wp_look_then; [done|apply look_held|]. intros [] Hsim. bools.
  eapply wp_reader; [done|done|]. intros lock d1 He. pose proof (ext_ok _ _ He) as Hok1.
  eapply wp_look_then; [done|apply look_load; intros v Hv _ _; exact Hv|]. intros [e' l] Hl.
  eapply wp_look_then; [done|apply look_held|]. intros [] Hb. bools. subst.
  eapply wp_look_then; [done|apply look_ledger|]. intros st Hst.
  eapply wp_look_then; [done|apply look_held|]. intros [] Hb. bools. subst.
  apply wp_body; [done|]. looks. exists l. split_and!; [|done|done]. by eapply loads_names_extends.
Qed.

Lemma wp_authorize_retirement root h e mt i d0 :
  dir_ok d0 ->
  wp (authorize_retirement root h e mt i)
    (sound (fun _ _ => exists l s, possible h d0 (e, l) /\ state_of l (Retirement.permit i) = Ok s /\
              (s = Active \/ s = Fenced (Retirement.retirement i))) d0) d0.
Proof.
  intros Hok. unfold authorize_retirement.
  eapply wp_look_then; [done|apply (look_lift _ _ (fun _ => True)); done|]. intros _ _.
  eapply wp_look_then; [done|apply look_held|]. intros [] Hsim. bools.
  eapply wp_reader; [done|done|]. intros lock d1 He. pose proof (ext_ok _ _ He) as Hok1.
  eapply wp_look_then; [done|apply look_load; intros v Hv _ _; exact Hv|]. intros [e' l] Hl.
  eapply wp_look_then; [done|apply look_held|]. intros [] Hb. bools. subst.
  eapply wp_look_then; [done|apply look_ledger|]. intros st Hst.
  eapply wp_look_then; [done|apply look_held|]. intros [] Hb.
  apply wp_body; [done|]. looks. exists l, st. split_and!; [by eapply loads_names_extends|done|].
  apply orb_true_iff in Hb as [Hb|Hb]; bools; auto.
Qed.

(** *** The retirement transaction *)

(** The guard's own copy of the ledger is what a process sees. *)
Definition guard_view (g : RetirementGuard) (d : Dir) : Prop :=
  loads (file_host (guard_store g)) (names d) (inodes d) (guard_epoch g, guard_ledger g).

Lemma wp_retirement_guard store e i d0 :
  dir_ok d0 ->
  wp (retirement_guard store e i)
    (sound (fun g d => guard_view g d /\ guard_store g = store /\ guard_epoch g = e /\
              guard_intent g = i /\ possible (file_host store) d0 (e, guard_ledger g) /\
              committed (file_host store) (e, guard_ledger g) d) d0) d0.
Proof.
  intros Hok. unfold retirement_guard.
  eapply wp_look_then; [done|apply (look_lift _ _ (fun _ => True)); done|]. intros _ _.
  eapply wp_look_then; [done|apply look_held|]. intros [] Hsim. bools.
  eapply wp_reader; [done| |].
  { intros g j d (Hv & ? & ? & ? & ? & Hc). pose proof (unlock_same j d) as (Hin & Hs & Hp & _).
    split_and!; try done; [|by apply committed_unlock].
    unfold guard_view. by rewrite Hin, (names_same d (unlock j d)). }
  intros lock d1 He. pose proof (ext_ok _ _ He) as Hok1.
  eapply wp_look_then; [done|apply look_load; intros v Hv _ _; exact Hv|]. intros [e' l] Hl.
  eapply wp_look_then; [done|apply look_held|]. intros [] Hb. bools. subst.
  eapply wp_look_then; [done|unfold retirement_phase|intros p _].
  { instantiate (1 := fun _ => True). repeat case_match; looks; done. }
  apply wp_body_sync; [done|]. cbn. split_and!; try done; [by eapply loads_names_extends|].
  by apply committed_sync.
Qed.

(** A method of the guard, from where the guard sees its own ledger. *)
Lemma guard_run_ok change done g w g' w' r :
  dir_ok (dir w) -> guard_view g (dir w) ->
  (forall l l' r, wf l -> change l = (l', r) -> step l l') ->
  guard_run change done (w, g) = ((w', g'), r) ->
  evolves (file_host (guard_store g)) (dir w) (dir w') /\
  (r = Ok tt -> committed (file_host (guard_store g)) (guard_epoch g, guard_ledger g') (dir w') /\
     guard_view g' (dir w') /\ change (guard_ledger g) = (guard_ledger g', Ok tt) /\
     guard_store g' = guard_store g /\ guard_epoch g' = guard_epoch g /\
     guard_intent g' = guard_intent g).
Proof.
  intros Hok Hv Hch. unfold guard_run. destruct (change (guard_ledger g)) as [l [[]|e]] eqn:Hc;
    [|intros [= <- <- <-]; split; [by apply evolves_extends, extends_refl|done]].
  destruct (loads_valid _ _ _ _ Hv) as (He & Hwf & Hh). cbn in He, Hwf, Hh.
  pose proof (Hch _ _ _ Hwf Hc) as Hs.
  assert (Hw : wp (save (guard_store g) (guard_epoch g) l)
    (fun r d => evolves (file_host (guard_store g)) (dir w) d /\
       (r = Ok tt -> committed (file_host (guard_store g)) (guard_epoch g, l) d)) (dir w)).
  { eapply wp_commit; [done|exact Hv| |done|by eapply step_wf| |by intros|by intros].
    - split; cbn; [lia|by right].
    - rewrite <- Hh. by apply step_host. }
  specialize (Hw w eq_refl). destruct (save _ _ _ w) as [w1 [[]|e]]; cbn in Hw.
  - destruct Hw as [Hev Hcm]. intros [= <- <- <-]. split; [done|]. intros _.
    split_and!; try done; [by apply Hcm|]. unfold guard_view. cbn. apply Hcm; [done|].
    apply image_names.
  - intros [= <- <- <-]. split; [tauto|done].
Qed.
End state.
