(* ===== verification/LaunchTheorems.v ===== *)
(** * The launch authority as a whole: calls, crashes and restarts

    Any sequence of the calls of [LaunchAuthority], with any system call failing at any
    point, and any crash in between. *)

From S2P Require Import Prelude Ext Ids Authority AuthorityLaws Reference Fs FsLaws Store LaunchAuthority LaunchLaws.

(** The machine restarts after a crash that kept the first [k] pending changes. *)
Definition reboot (k : nat) (junk : N -> bytes) (later : nat -> option bytes) (w : World) : World := {|
  dir := crash k junk (dir w); clock := 0; faults := later; root_user := root_user w;
  canonical_root := canonical_root w
|}.

Definition no_faults (w : World) : Prop := forall n, faults w n = None.

Section system.
Context `{UuidLaws, !Serde Authority.Saved, !SerdeLaws Authority.Saved saved_representable,
          !Serde Retirement.Intent, !Sha256, !Sha256Laws,
          !Serde Required, !Serde Saved, !SerdeLaws Saved file_representable}.

(** *** Crashes *)

(** The two files of an image with a state are the ones from before the crash. *)
Lemma crash_reads {T} `{Serde T} k junk d m n lim (t : T) :
  dir_ok d -> image (crash k junk d) m -> is_Some (m !! STATE) -> n = STATE \/ n = REQUIRED ->
  reads m (inodes (crash k junk d)) n lim t <-> reads m (inodes d) n lim t.
Proof.
  intros Hok Hm%crash_image_before Hs Hn. unfold reads.
  assert (forall i, m !! n = Some i -> inodes (crash k junk d) !! i = inodes d !! i) as Hi.
  { intros i Hi. by apply (crash_keeps k junk d m n i Hok Hm Hs (core_names _ Hn)). }
  split; intros (i & x & Hmi & Hx & Hr); exists i, x; split_and!; try tauto.
  - by rewrite <- Hi.
  - by rewrite Hi.
Qed.

Lemma loads_state h m ino v : loads h m ino v -> is_Some (m !! STATE).
Proof. intros (rq & sv & _ & _ & _ & (i & x & Hi & _) & _). by exists i. Qed.

Lemma crash_loads h k junk d m v :
  dir_ok d -> image (crash k junk d) m ->
  loads h m (inodes (crash k junk d)) v <-> loads h m (inodes d) v.
Proof.
  intros Hok Hm. split; intros Hl; pose proof (loads_state _ _ _ _ Hl) as Hs;
    destruct Hl as (rq & sv & Hrq & ? & ? & Hsv & Hrest); exists rq, sv.
  - rewrite crash_reads in Hrq by auto. rewrite crash_reads in Hsv by auto. tauto.
  - rewrite <- (crash_reads k junk d m) in Hrq by auto.
    rewrite <- (crash_reads k junk d m) in Hsv by auto. tauto.
Qed.

Lemma evolves_crash h k junk d : dir_ok d -> evolves h d (crash k junk d).
Proof.
  intros Hok. split; [by apply dir_ok_crash| |].
  - intros v (m & Hm & Hl). left. exists m. split; [by eapply crash_image_before|].
    by eapply crash_loads.
  - intros Ha m Hm. apply Ha. by eapply crash_image_before.
Qed.

Lemma committed_crash h v k junk d : dir_ok d -> committed h v d -> committed h v (crash k junk d).
Proof.
  intros Hok Hc m Hm. apply crash_loads; [done|done|]. apply Hc. by eapply crash_image_before.
Qed.

(** *** A reader that no fault interrupts *)

Definition finds {L A} (d : Dir) (m : ST World (error L) A) (a : A) : Prop :=
  forall w, dir w = d -> no_faults w -> exists w', m w = (w', Ok a) /\ dir w' = d /\ no_faults w'.

Lemma finds_bind {L A B} d (m : ST World (error L) A) (k : A -> ST World (error L) B) a b :
  finds d m a -> finds d (k a) b -> finds d (m ≫= k) b.
Proof.
  intros Hm Hk w Hw Hf. destruct (Hm w Hw Hf) as (w1 & Hr & Hd & Hf1).
  unfold mbind, ST_bind. rewrite Hr. by apply Hk.
Qed.
Lemma finds_ret {L A} d (a : A) : finds d (mret a : ST World (error L) A) a.
Proof. intros w Hw Hf. by exists w. Qed.
Lemma finds_lift {L A} d (r : result (error L) A) a : r = Ok a -> finds d (lift r) a.
Proof. intros -> w Hw Hf. by exists w. Qed.
Lemma finds_ensure {L} d c m : c = true -> finds d (ensure_io (L:=L) c m) tt.
Proof. intros -> w Hw Hf. by exists w. Qed.
Lemma finds_query {L A} d (f : Dir -> result anyhow A) a : f d = Ok a -> finds (L:=L) d (query f) a.
Proof.
  intros Ha w <- Hf. exists (tick w). unfold query, syscall. rewrite Hf. cbn. rewrite Ha.
  split_and!; [|done|done]. by destruct w.
Qed.

Lemma finds_read `{Serde T} d name limit (t : T) :
  reads (names d) (inodes d) name limit t -> finds d (read T name limit) t.
Proof.
  intros (i & x & Hi & Hx & Hp & Hl & Ht). unfold read, open_existing, private_file, fstat.
  pose proof Hp as Hp'. unfold private_meta in Hp'. bools.
  eapply finds_bind; [apply (finds_query _ _ i)|].
  { rewrite Hi. cbn. rewrite Hx. cbn.
    match goal with H : ftype _ = Regular |- _ => rewrite H end. done. }
  eapply finds_bind; [eapply finds_bind;
    [apply (finds_query _ _ (meta x)); by rewrite Hx|by apply finds_ensure]|].
  eapply finds_bind; [apply (finds_query _ _ (strlen (content x))); by rewrite Hx|].
  eapply finds_bind; [apply finds_ensure; by apply Z.leb_le|].
  eapply finds_bind; [eapply finds_bind; [apply (finds_query _ _ (content x)); by rewrite Hx|]|].
  { rewrite (proj2 (Z.leb_le _ (limit + 1))) by lia. apply finds_ret. }
  eapply finds_bind; [apply finds_ensure; by apply Z.leb_le|]. apply finds_lift. by rewrite Ht.
Qed.

Lemma finds_load d store v :
  loads (file_host store) (names d) (inodes d) v ->
  minimum_epoch store <= v.1 -> minimum_through store <= through v.2 ->
  finds d (load store) v.
Proof.
  intros (rq & sv & Hrq & Hv & Hh & Hsv & Hv' & Hh' & He & Hd) Hme Hmt. destruct v as [e l].
  cbn in *. unfold load. eapply finds_bind; [by apply finds_read|].
  eapply finds_bind; [apply finds_ensure|].
  { rewrite Hv, Hh. cbn. by apply bool_decide_eq_true. }
  eapply finds_bind; [by apply finds_read|]. eapply finds_bind; [apply finds_ensure|].
  { rewrite Hv', Hh', He. cbn. rewrite andb_true_iff, bool_decide_eq_true, Z.leb_le. done. }
  eapply finds_bind; [apply finds_lift|].
  - rewrite (decode_lower _ _ 0 (minimum_through store) l); done.
  - rewrite <- He. apply finds_ret.
Qed.

(** *** The calls *)

Inductive call : Type :=
| CRegister (store : AuthorityFile) (e : Z) (ps : list Permit)
| CAdvance (store : AuthorityFile) (e e' : Z)
| CFence (store : AuthorityFile) (e : Z) (p : Permit) (r : OperationId)
| CComplete (store : AuthorityFile) (e : Z) (i : Intent)
| CForget (store : AuthorityFile) (e : Z) (i : Intent)
| COpen (root : string) (h : HostId) (me mt : Z)
| CCheckpoint (store : AuthorityFile) (e : Z)
| CRetained (store : AuthorityFile)
| CCompleted (store : AuthorityFile) (e : Z) (i : Intent)
| CAuthorize (root : string) (p : option Permit)
| CAuthorizeRegistered (root : string) (h : HostId) (e mt : Z) (alc : AllocationId)
| CAuthorizeCleanup (root : string) (p : option Permit)
| CAuthorizeDeletion (root : string) (e mt : Z) (i : Intent)
| CAuthorizeRetirement (root : string) (h : HostId) (e mt : Z) (i : Intent)
| CRetire (store : AuthorityFile) (e : Z) (i : Intent) (finish : bool)
| CDrop (lock : N)
| CCrash (k : nat) (junk : N -> bytes) (later : nat -> option bytes).

(** One retirement transaction: complete unless that was done, then, on [finish],
    forget; the guard is dropped at the end or at the first failure. *)
Definition retire (store : AuthorityFile) (e : Z) (i : Intent) (finish : bool) (w : World) : World :=
  match retirement_guard store e i w with
  | (w1, Err _) => w1
  | (w1, Ok g) =>
      let '((w2, g2), r2) :=
        match phase g with PFenced => guard_complete (w1, g) | _ => ((w1, g), Ok tt) end in
      match r2 with
      | Err _ => release (guard_lock g) w2
      | Ok _ =>
          let w3 := match phase g2, finish with
                    | PComplete, true => (guard_forget (w2, g2)).1.1
                    | _, _ => w2
                    end in
          release (guard_lock g) w3
      end
  end.

Definition run (c : call) (w : World) : World :=
  match c with
  | CRegister s e ps => (register s e ps w).1
  | CAdvance s e e' => (advance_epoch s e e' w).1
  | CFence s e p r => (fence s e p r w).1
  | CComplete s e i => (complete s e i w).1
  | CForget s e i => (forget s e i w).1
  | COpen root h me mt => (open root h me mt w).1
  | CCheckpoint s e => (checkpoint s e w).1
  | CRetained s => (retained_checkpoint s w).1
  | CCompleted s e i => (completed s e i w).1
  | CAuthorize root p => (authorize root p w).1
  | CAuthorizeRegistered root h e mt alc => (authorize_registered_allocation root h e mt alc w).1
  | CAuthorizeCleanup root p => (authorize_cleanup root p w).1
  | CAuthorizeDeletion root e mt i => (authorize_deletion root e mt i w).1
  | CAuthorizeRetirement root h e mt i => (authorize_retirement root h e mt i w).1
  | CRetire s e i finish => retire s e i finish w
  | CDrop lock => release lock w
  | CCrash k junk later => reboot k junk later w
  end.

(** Arguments within their types, for the host [h] the directory belongs to. *)
Definition call_ok (h : HostId) (c : call) : Prop :=
  match c with
  | CRegister s _ ps => file_host s = h /\ Forall (fun p => permit_typed p = true) ps
  | CAdvance s _ e' => file_host s = h /\ in_i64 e' = true
  | CFence s _ _ r => file_host s = h /\ id_typed r = true
  | CComplete s _ i | CForget s _ i | CRetire s _ i _ =>
      file_host s = h /\ id_typed (Retirement.retirement i) = true
  | _ => True
  end.

(** *** Histories *)

Record reach (h : HostId) (d0 d : Dir) : Prop := {
  re_ok : dir_ok d;
  re_possible : forall v, possible h d v -> exists v0, possible h d0 v0 /\ rtc lstep v0 v;
  re_active : activated d0 -> activated d;
}.

Lemma reach_refl h d : dir_ok d -> reach h d d.
Proof. split; [done| |done]. intros v Hv. by exists v. Qed.

Lemma reach_trans h d0 d1 d : reach h d0 d1 -> reach h d1 d -> reach h d0 d.
Proof.
  intros H01 H12. split; [apply H12| |].
  - intros v (v1 & Hv1 & Hs1)%(re_possible _ _ _ H12).
    apply (re_possible _ _ _ H01) in Hv1 as (v0 & Hv0 & Hs0). exists v0. split; [done|].
    by etrans.
  - intros Ha. by apply H12, H01.
Qed.

Lemma reach_evolves h d0 d : evolves h d0 d -> reach h d0 d.
Proof.
  intros He. split; [apply He| |apply He].
  intros v [Hv|(v0 & Hv0 & Hs)]%(ev_possible _ _ _ He); [by exists v|].
  exists v0. split; [done|]. by apply rtc_once.
Qed.

Lemma reach_extends h d0 d : dir_ok d0 -> extends d0 d -> reach h d0 d.
Proof. intros Hok He. by apply reach_evolves, evolves_extends. Qed.

Lemma reach_sound {A} h (m : IO A) R w :
  dir_ok (dir w) -> wp m (sound R (dir w)) (dir w) -> reach h (dir w) (dir (m w).1).
Proof. intros Hok Hm. destruct (Hm w eq_refl) as [He _]. by apply reach_extends. Qed.

Lemma update_steps h store e change w :
  file_host store = h -> dir_ok (dir w) ->
  (forall l l' r, wf l -> change l = (l', r) -> step l l') ->
  reach h (dir w) (dir (update store e change w).1).
Proof.
  intros <- Hok Hch. apply reach_evolves. by apply (wp_update store e change (dir w) Hok Hch w eq_refl).
Qed.

Lemma guard_methods_step i :
  id_typed (Retirement.retirement i) = true ->
  (forall l l' r, wf l -> Authority.complete i l = (l', r) -> step l l') /\
  (forall l l' r, wf l -> Authority.forget i l = (l', r) -> step l l').
Proof. intros Hi. split; intros; [by eapply step_complete|by eapply step_forget]. Qed.

Lemma reach_release h i d0 d : reach h d0 d -> reach h d0 (unlock i d).
Proof.
  intros Hr. eapply reach_trans; [exact Hr|]. pose proof (re_ok _ _ _ Hr).
  apply reach_extends; [done|by apply extends_unlock].
Qed.

Lemma retire_reach h store e i finish w :
  file_host store = h -> id_typed (Retirement.retirement i) = true -> dir_ok (dir w) ->
  reach h (dir w) (dir (retire store e i finish w)).
Proof.
  intros <- Hi Hok. destruct (guard_methods_step i Hi) as [Hcs Hfs]. unfold retire.
  pose proof (wp_retirement_guard store e i (dir w) Hok w eq_refl) as [He Hg].
  destruct (retirement_guard store e i w) as [w1 [g|err]]; cbn in *; [|by apply reach_extends].
  destruct (Hg g eq_refl) as (Hv & Hstore & Hep & Hin & _ & _). clear Hg.
  pose proof (ext_ok _ _ He) as Hok1. rewrite <- Hstore in *.
  eapply reach_trans; [by apply reach_extends|].
  set (m := match phase g with PFenced => guard_complete (w1, g) | _ => ((w1, g), Ok tt) end).
  assert (Hm : reach (file_host (guard_store g)) (dir w1) (dir m.1.1) /\
    (m.2 = Ok tt -> guard_view m.1.2 (dir m.1.1) /\ guard_store m.1.2 = guard_store g /\
                    guard_intent m.1.2 = guard_intent g)).
  { unfold m. destruct (phase g); [|split; [by apply reach_refl|done]..].
    unfold guard_complete. cbn [snd]. rewrite Hin.
    destruct (guard_run (Authority.complete i) PComplete (w1, g)) as [[w2 g2] r] eqn:Hrun.
    destruct (guard_run_ok _ _ _ _ _ _ _ Hok1 Hv Hcs Hrun) as [Hev Hr]. cbn.
    split; [by apply reach_evolves|]. intros Hr'. destruct (Hr Hr') as (_ & ? & _ & ? & _ & ?). split_and!; congruence || done. }
  destruct m as [[w2 g2] [[]|err]]; cbn in *; [|apply reach_release, Hm].
  destruct Hm as [Hr2 Hm]. destruct (Hm eq_refl) as (Hv2 & Hs2 & Hi2).
  apply reach_release. destruct (phase g2), finish; try done.
  eapply reach_trans; [exact Hr2|]. unfold guard_forget. cbn [snd]. rewrite Hi2, Hin.
  destruct (guard_run (Authority.forget i) PClosed (w2, g2)) as [[w3 g3] r] eqn:Hrun.
  destruct (guard_run_ok _ _ _ _ _ _ _ (re_ok _ _ _ Hr2) Hv2 Hfs Hrun) as [Hev _].
  rewrite Hs2 in Hev. by apply reach_evolves.
Qed.

Lemma run_reach h c w : call_ok h c -> dir_ok (dir w) -> reach h (dir w) (dir (run c w)).
Proof.
  intros Hc Hok. destruct c; cbn [run call_ok] in *;
    try (match type of Hc with _ /\ _ => destruct Hc as [<- Hc] end).
  - apply reach_evolves. by apply (wp_register store e ps (dir w) Hok Hc w eq_refl).
  - apply reach_evolves. by apply (wp_advance_epoch store e e' (dir w) Hok Hc w eq_refl).
  - apply update_steps; [done..|]. intros. by eapply step_fence.
  - apply update_steps; [done..|]. by apply guard_methods_step.
  - apply update_steps; [done..|]. by apply guard_methods_step.
  - eapply reach_sound; [done|by apply wp_open].
  - eapply reach_sound; [done|by apply wp_checkpoint].
  - eapply reach_sound; [done|by apply wp_retained_checkpoint].
  - eapply reach_sound; [done|by apply wp_completed].
  - eapply reach_sound; [done|by apply wp_authorize].
  - eapply reach_sound; [done|by apply wp_authorize_registered].
  - eapply reach_sound; [done|by apply wp_authorize_cleanup].
  - eapply reach_sound; [done|by apply wp_authorize_deletion].
  - eapply reach_sound; [done|by apply wp_authorize_retirement].
  - by apply retire_reach.
  - apply reach_release. by apply reach_refl.
  - apply reach_evolves. by apply evolves_crash.
Qed.

(** Any calls in any order, each with any faults, and any crashes between them. *)
Definition history (h : HostId) (cs : list call) : Prop := Forall (call_ok h) cs.
Definition runs (cs : list call) (w : World) : World := foldl (fun w c => run c w) w cs.

Lemma runs_reach h cs w : history h cs -> dir_ok (dir w) -> reach h (dir w) (dir (runs cs w)).
Proof.
  intros Hcs. revert w. induction Hcs as [|c cs Hc _ IH]; intros w Hok; [by apply reach_refl|].
  pose proof (run_reach h c w Hc Hok) as Hr. eapply reach_trans; [exact Hr|].
  apply IH. by apply (re_ok _ _ _ Hr).
Qed.

(** What holds of every possible state and is kept by each call keeps holding. *)
Lemma runs_keep h cs w (P : Z * Authority -> Prop) :
  history h cs -> dir_ok (dir w) ->
  (forall v v', P v -> lstep v v' -> P v') ->
  (forall v, possible h (dir w) v -> P v) -> forall v, possible h (dir (runs cs w)) v -> P v.
Proof.
  intros Hcs Hok HP Hw v Hv.
  apply (re_possible _ _ _ (runs_reach h cs w Hcs Hok)) in Hv as (v0 & Hv0 & Hs).
  apply Hw in Hv0. clear Hw Hcs Hok. induction Hs; eauto.
Qed.

(** *** Facts of one ledger step used below *)

Lemma lstep_wf v v' : wf v.2 -> lstep v v' -> wf v'.2.
Proof. intros Hwf [_ [-> | Hs]]; [done|]. by eapply step_wf. Qed.

Lemma lstep_denied p v v' :
  wf v.2 /\ denied (abs v.2 p) = true -> lstep v v' -> wf v'.2 /\ denied (abs v'.2 p) = true.
Proof.
  intros [Hwf Hd] Hs. split; [by eapply lstep_wf|]. destruct Hs as [_ [-> | Hs]]; [done|].
  eapply denied_steps; [done|by apply rtc_once|done].
Qed.

Lemma step_through a a' : wf a -> step a a' -> through a <= through a'.
Proof.
  intros Hwf Hs. destruct Hs as [ps a a' r Hty Hs|p r' a a' r Hr Hs|i a a' r Hr Hs|i a a' r Hs].
  - apply register_cases in Hs as [[-> _]|[[-> _]|Hs]]; [done|done| |done..].
    destruct Hs as (_ & _ & _ & _ & _ & _ & -> & _). unfold listlen. lia.
  - apply fence_cases in Hs as [[-> _]|(_ & ? & ? & _ & _ & _ & -> & _)]; done.
  - apply complete_cases in Hs as [[-> _]|(_ & ? & ? & ? & _ & _ & _ & _ & -> & _)]; done.
  - apply forget_cases in Hs as [[-> _]|(_ & ? & ? & ? & _ & _ & _ & _ & -> & _)]; done.
Qed.

(** A fence, however often it is repeated, leaves its permit denied. *)
Lemma fenced_denied l p r l' :
  wf l -> id_typed r = true -> Authority.fence p r l = (l', Ok tt) -> wf l' /\ denied (abs l' p) = true.
Proof.
  intros Hwf Hr Hf. pose proof (step_wf _ _ Hwf (step_fence _ _ _ _ _ Hr Hf)) as Hwf'.
  split; [done|]. apply fence_cases in Hf as [[-> Hf]|(_ & j & e & He & Hp & Hst & -> & Hw)]; [| |done..].
  - destruct (Hf eq_refl) as (e & Hfe & [Hst|[d Hst]]); unfold abs; by rewrite Hfe, Hst.
  - unfold abs. rewrite (find_set_entry l j e _ p Hwf Hw He). by rewrite decide_True.
Qed.

(** *** Activation *)

(** No image of the directory has a state file. *)
Definition stateless (d : Dir) : Prop := forall m, image d m -> m !! STATE = None.

Lemma stateless_link n md d :
  dir_ok d -> stateless d -> n <> STATE ->
  dir_ok (link_new n md d) /\ stateless (link_new n md d).
Proof.
  intros Hok Hst Hn.
  assert (Himg : forall m, image (link_new n md d) m -> image d m \/ m = <[n := fresh_ino d]> (names d)).
  { intros m Hm. by apply (image_snoc d (link_new n md d) (Link n (fresh_ino d))). }
  assert (Hs : stateless (link_new n md d)).
  { intros m [Hm | ->]%Himg; [by apply Hst|]. rewrite lookup_insert_ne by done.
    apply Hst, image_names. }
  assert (Hin : forall j, is_Some (inodes d !! j) -> is_Some (inodes (link_new n md d) !! j)).
  { intros j [x Hx]. cbn. destruct (decide (fresh_ino d = j)) as [->|];
      [rewrite lookup_insert_eq|rewrite lookup_insert_ne by done]; eauto. }
  split; [split|done].
  - intros j [x Hx]. cbn in *. apply lookup_insert_Some in Hx as [[<- _]|[_ Hx]]; [lia|].
    apply mk_is_Some, (ok_fresh _ Hok) in Hx. lia.
  - intros m n' j [Hm | ->]%Himg Hj; [apply Hin; by eapply (ok_names _ Hok)|].
    apply lookup_insert_Some in Hj as [[_ <-]|[_ Hj]].
    + cbn. rewrite lookup_insert_eq. eauto.
    + apply Hin. by apply (ok_names _ Hok _ _ _ (image_names d) Hj).
  - intros m n' j Hm [x Hx]. change main with STATE in Hx. by rewrite (Hs _ Hm) in Hx.
Qed.

Lemma stateless_touch f i d :
  dir_ok d -> stateless d ->
  dir_ok (with_inodes d (alter f i (inodes d))) /\ stateless (with_inodes d (alter f i (inodes d))).
Proof.
  intros Hok Hst. split; [split|exact Hst].
  - intros j Hj. apply Hok. cbn in Hj. destruct (decide (i = j)) as [->|].
    + rewrite lookup_alter_eq in Hj. by rewrite fmap_is_Some in Hj.
    + by rewrite lookup_alter_ne in Hj.
  - intros m n j Hm Hj. pose proof (ok_names _ Hok _ _ _ Hm Hj) as Hx. cbn.
    destruct (decide (i = j)) as [->|]; [by rewrite lookup_alter_eq, fmap_is_Some|].
    by rewrite lookup_alter_ne.
  - intros m n j Hm [x Hx]. change main with STATE in Hx. by rewrite (Hst m Hm) in Hx.
Qed.

Lemma stateless_sync d : dir_ok d -> stateless d -> dir_ok (sync_names d) /\ stateless (sync_names d).
Proof.
  intros Hok Hst. assert (Hs : stateless (sync_names d)).
  { intros m ->%image_synced. apply Hst, image_names. }
  split; [split|done].
  - apply Hok.
  - intros m n j ->%image_synced Hj. by apply (ok_names _ Hok _ _ _ (image_names d) Hj).
  - intros m n j Hm [x Hx]. change main with STATE in Hx. by rewrite (Hs _ Hm) in Hx.
Qed.

Lemma stateless_possible h d v : stateless d -> ~ possible h d v.
Proof. intros Hst (m & Hm & Hl). destruct (loads_state _ _ _ _ Hl) as [x Hx]. by rewrite (Hst _ Hm) in Hx. Qed.

Lemma stateless_extends d0 d : stateless d0 -> extends d0 d -> stateless d.
Proof.
  intros Hst He m Hm. destruct (ext_images _ _ He _ Hm) as (m0 & Hm0 & Hc).
  rewrite (core_state _ _ Hc). by apply Hst.
Qed.

(** What initialization may leave: nothing, or the new ledger at the given epoch. *)
Definition initial (h : HostId) (e : Z) (d : Dir) : Prop :=
  dir_ok d /\ forall v, possible h d v -> exists a, Authority.new h = Ok a /\ v = (e, a).

Lemma initial_unlock h e d i : initial h e d -> initial h e (unlock i d).
Proof.
  intros [Hok Hp]. split; [by apply dir_ok_unlock|]. intros v Hv%possible_unlock. by apply Hp.
Qed.

Lemma initial_stateless h e d : dir_ok d -> stateless d -> initial h e d.
Proof. intros Hok Hst. split; [done|]. intros v Hv. by apply stateless_possible in Hv. Qed.

Lemma wp_initialize root h e d0 :
  dir_ok d0 -> stateless d0 -> id_typed h = true -> in_i64 e = true ->
  wp (initialize root h e)
    (fun r d => initial h e d /\ (forall st, r = Ok st -> activated d /\ file_host st = h)) d0.
Proof.
  intros Hok0 Hst0 Hh He. unfold initialize. apply wp_bind.
  eapply wp_look; [apply (look_ensure _ _ _ (fun _ => True)); done| |intros _ _].
  { intros r. split; [by apply initial_stateless|done]. }
  apply wp_bind. eapply wp_look; [apply look_ledger| |].
  { intros r. split; [by apply initial_stateless|done]. }
  intros a Ha. apply wp_bind, wp_gate; [done|].
  intros [lock|r] d1 He1; pose proof (ext_ok _ _ He1) as Hok1;
    pose proof (stateless_extends _ _ Hst0 He1) as Hst1; [|split; [by apply initial_stateless|done]].
  apply wp_scoped.
  assert (HE : forall d (r : error Authority.Error) P, dir_ok d -> stateless d ->
     initial h e (unlock lock d) /\ (forall st : AuthorityFile, Err r = Ok st -> P st)).
  { intros d r P Hok Hst. split; [|done]. by apply initial_unlock, initial_stateless. }
  apply wp_bind. eapply wp_look; [apply (look_query _ _ (fun _ => True)); done|intros; by apply HE|intros n _].
  apply wp_bind. eapply wp_look; [apply (look_ensure _ _ _ (fun _ => True)); done|intros; by apply HE|intros _ _].
  apply wp_bind, wp_syscall; [intros; by apply HE|]. intros d2 i Hc. inv_ok. simplify_eq.
  set (i := fresh_ino d1). set (d2 := link_new REQUIRED MODE_PRIVATE_FILE d1).
  destruct (stateless_link REQUIRED MODE_PRIVATE_FILE d1 Hok1 Hst1) as [Hok2 Hst2]; [done|].
  fold d2 in Hok2, Hst2.
  apply wp_bind. unfold fstat.
  eapply wp_look; [apply (look_query _ _ (fun _ => True)); done|intros; by apply HE|intros m _].
  apply wp_bind. eapply wp_look; [apply (look_get _ (fun _ => True)); done|intros; by apply HE|intros w _].
  apply wp_bind. eapply wp_look; [apply (look_lift _ _ (fun _ => True)); done|intros; by apply HE|intros b _].
  apply wp_bind, wp_write.
  { intros r b'. by apply HE; apply stateless_touch. }
  set (d3 := write_inode i b d2). destruct (stateless_touch (fun x => {| meta := meta x; content := b; on_disk := false |}) i d2 Hok2 Hst2) as [Hok3 Hst3].
  apply wp_bind, wp_syscall; [intros; by apply HE|]. intros d4 [] [= <-].
  destruct (stateless_touch (fun x => {| meta := meta x; content := content x; on_disk := true |}) i d3 Hok3 Hst3) as [Hok4 Hst4].
  apply wp_bind, wp_syscall; [intros; by apply HE|]. intros d5 [] [= <-].
  destruct (stateless_sync _ Hok4 Hst4) as [Hok5 Hst5].
  set (d5 := sync_names _) in *.
  assert (Hreq : names d5 !! REQUIRED = Some i).
  { change (names d5) with (names d2). rewrite (names_snoc d1 d2 (Link REQUIRED i)) by done.
    cbn. apply lookup_insert_eq. }
  assert (Hdisk : required_on_disk d5).
  { intros n' j ->%list_elem_of_singleton Hj. rewrite Hreq in Hj. injection Hj as <-.
    exists (private_new MODE_PRIVATE_FILE b). split; [|done].
    cbn. by rewrite lookup_alter_eq, lookup_alter_eq, lookup_insert_eq. }
  pose proof (wf_new h a Hh Ha) as Hwf.
  assert (Hah : saved_host a = h) by (unfold Authority.new in Ha; by inv_ok).
  assert (Hpos : forall b' d, saved_bytes h e a b' -> written b' d5 d -> initial h e d).
  { intros b' d Hb' Hw. split; [apply Hw|]. intros v Hv. exists a. split; [done|].
    destruct (written_possible h d5 d b' e a v) as [Hv'|]; try done.
    by apply stateless_possible in Hv'. }
  apply wp_bind. eapply wp_save; [done|done| |].
  - intros r d [Hx|(b' & Hb' & Hw)]; (split; [|done]); apply initial_unlock.
    + apply initial_stateless; [apply Hx|by eapply stateless_extends].
    + by eapply Hpos.
  - intros b' d Hb' Hw Himg. apply wp_ret. split; [by eapply initial_unlock, Hpos|].
    intros st [= <-]. split; [|done]. intros m' Hm'%image_unlock. apply Himg in Hm' as ->.
    destruct (written_core _ _ _ Hw) as (j & _ & -> & _).
    by rewrite Hreq.
Qed.

(** *** The lock *)

(** The launch lock is held, by someone. *)
Definition lock_held (d : Dir) : Prop := exists i, names d !! LOCK = Some i /\ is_Some (locks d !! i).

Definition same_disk (d0 d : Dir) : Prop :=
  inodes d = inodes d0 /\ synced_names d = synced_names d0 /\ pending d = pending d0 /\
  locks d = locks d0.

Lemma same_disk_held d0 d : same_disk d0 d -> lock_held d0 -> lock_held d.
Proof.
  intros (_ & Hs & Hp & Hl) (i & Hi & Hh). exists i. by rewrite Hl, (names_same d0 d).
Qed.

Lemma wp_gate_busy root d0 :
  lock_held d0 ->
  wp (gate root true) (fun r d => (exists e, r = Err e) /\ same_disk d0 d) d0.
Proof.
  intros (i & Hi & Hh). set (Q := fun (r : result (error Authority.Error) N) d => (exists e, r = Err e) /\ same_disk d0 d).
  assert (HQ0 : forall e, Q (Err e) d0) by (intros e; split; [by eexists|done]).
  unfold gate. apply wp_bind. unfold private_root.
  apply wp_bind. eapply wp_look; [apply (look_get _ (fun w => True)); done|done|intros w _].
  apply wp_bind. eapply wp_look; [apply (look_ensure _ _ _ (fun _ => True)); done|done|intros _ _].
  apply wp_bind. eapply wp_look; [apply (look_ensure _ _ _ (fun _ => True)); done|done|intros _ _].
  apply wp_bind, wp_syscall; [done|]. intros d1 [] [= Hd1].
  assert (Hs1 : same_disk d0 d1) by (subst; by destruct (dir_meta d0)).
  assert (HQ1 : forall e, Q (Err e) d1) by (intros e; split; [by eexists|done]).
  assert (Hi1 : names d1 !! LOCK = Some i).
  { destruct Hs1 as (_ & ? & ? & _). by rewrite (names_same d0 d1). }
  assert (Hh1 : is_Some (locks d1 !! i)) by (destruct Hs1 as (_ & _ & _ & ->); done). clear Hd1.
  eapply (wp_look _ (fun _ => True)); [looks; done|done|intros _ _].
  apply wp_bind. eapply wp_look; [by apply (look_any_exists _ _ (fun _ => True))|done|intros act _].
  apply wp_bind, wp_syscall; [done|]. intros d2 f Hf. rewrite Hi1 in Hf. cbn in Hf. inv_ok. simplify_eq.
  apply wp_bind. eapply wp_look; [by apply (look_private_file _ _ (fun _ => True))|done|intros _ _].
  apply wp_bind, wp_syscall; [done|]. intros d3 got [= Hd3].
  unfold try_lock in Hd3. destruct Hh1 as [[n|] Hl]; rewrite Hl in Hd3; injection Hd3 as <- <-;
    cbn; apply wp_fail; done.
Qed.

(** Calls that take the lock exclusively. *)
Definition exclusive_call (c : call) : bool :=
  match c with
  | CRegister _ _ _ | CAdvance _ _ _ | CFence _ _ _ _ | CComplete _ _ _ | CForget _ _ _
  | CAuthorizeDeletion _ _ _ _ | CRetire _ _ _ _ => true
  | _ => false
  end.

Lemma busy_bind {A} root (k : N -> IO A) d0 :
  lock_held d0 ->
  wp (lock ← gate root true; k lock) (fun r d => (exists e, r = Err e) /\ same_disk d0 d) d0.
Proof.
  intros Hh. apply wp_bind. eapply wp_mono; [by apply wp_gate_busy|]. cbn.
  intros r d [[e ->] Hs]. split; [by eexists|done].
Qed.

Lemma busy_call c w : exclusive_call c = true -> lock_held (dir w) -> same_disk (dir w) (dir (run c w)).
Proof.
  intros Hc Hh.
  assert (Hb : forall A (m : IO A),
    wp m (fun r d => (exists e, r = Err e) /\ same_disk (dir w) d) (dir w) ->
    same_disk (dir w) (dir (m w).1)) by (intros A m Hm; apply (Hm w eq_refl)).
  assert (Hd : same_disk (dir w) (dir w)) by done.
  destruct c; try done; cbn [run].
  1-5: by apply Hb, busy_bind.
  - apply Hb. unfold authorize_deletion. apply wp_bind.
    eapply wp_look; [apply (look_lift _ _ (fun _ => True)); done|intros x; split; [by eexists|done]|].
    intros _ _. apply wp_bind.
    eapply wp_look; [apply (look_ensure _ _ _ (fun _ => True)); done|intros x; split; [by eexists|done]|].
    intros _ _. by apply busy_bind.
  - unfold retire.
    assert (Hg : wp (retirement_guard store e i) (fun r d => (exists e, r = Err e) /\ same_disk (dir w) d) (dir w)).
    { unfold retirement_guard. apply wp_bind.
      eapply wp_look; [apply (look_lift _ _ (fun _ => True)); done|intros x; split; [by eexists|done]|].
      intros _ _. apply wp_bind.
      eapply wp_look; [apply (look_ensure _ _ _ (fun _ => True)); done|intros x; split; [by eexists|done]|].
      intros _ _. by apply busy_bind. }
    specialize (Hg w eq_refl). destruct (retirement_guard store e i w) as [w1 [g|err]]; cbn in *.
    + by destruct Hg as [[? ?] _].
    + by destruct Hg as [_ ?].
Qed.

(** The gate hands out the lock of the file named [launch.lock]. *)
Lemma gate_holds root ex d0 :
  wp (gate root ex) (fun r d => forall i, r = Ok i -> lock_held d) d0.
Proof.
  unfold gate. apply wp_bind. unfold private_root.
  set (Q := fun (r : result (error Authority.Error) N) d => forall i, r = Ok i -> lock_held d).
  assert (HQ : forall e d, Q (Err e) d) by done.
  apply wp_bind. eapply wp_look; [apply (look_get _ (fun w => True)); done|done|intros w _].
  apply wp_bind. eapply wp_look; [apply (look_ensure _ _ _ (fun _ => True)); done|done|intros _ _].
  apply wp_bind. eapply wp_look; [apply (look_ensure _ _ _ (fun _ => True)); done|done|intros _ _].
  apply wp_bind, wp_syscall; [done|]. intros d1 [] _.
  eapply (wp_look _ (fun _ => True)); [looks; done|done|intros _ _].
  apply wp_bind. eapply wp_look; [by apply (look_any_exists _ _ (fun _ => True))|done|intros act _].
  apply wp_bind, wp_syscall; [done|]. intros d2 f Hf.
  assert (Hi : names d2 !! LOCK = Some f).
  { unfold ok_or in Hf. destruct (names d1 !! LOCK) as [i|] eqn:Hn; inv_ok; simplify_eq; [done|].
    rewrite (names_snoc d1 (link_new LOCK MODE_PRIVATE_FILE d1) (Link LOCK (fresh_ino d1))) by done.
    cbn. apply lookup_insert_eq. }
  apply wp_bind. eapply wp_look; [by apply (look_private_file _ _ (fun _ => True))|done|intros _ _].
  apply wp_bind, wp_syscall; [done|]. intros d3 got [= Hd3].
  assert (Hh : got = true -> lock_held d3).
  { intros ->. exists f. pose proof (try_lock_same f ex d2) as Hsame. cbn in Hsame. rewrite Hd3 in Hsame.
    destruct Hsame as (_ & ? & ? & _). split; [by rewrite (names_same d2 d3)|].
    unfold try_lock in Hd3. repeat case_match; simplify_eq; cbn; rewrite lookup_insert_eq; eauto. }
  destruct got; cbn [negb]; [|by apply wp_fail].
  apply wp_handing. eapply (wp_look _ (fun _ => True)); [|done|].
  - unfold gate_held, symlink_metadata, fstat. looks; done.
  - intros a _ i _. by apply Hh.
Qed.

Lemma authorize_holds root p w w' g :
  authorize root p w = (w', Ok g) -> lock_held (dir w').
Proof.
  intros Ha.
  assert (Hw : wp (authorize root p) (fun r d => forall g, r = Ok g -> lock_held d) (dir w)).
  { unfold authorize. apply wp_bind. eapply wp_mono; [apply gate_holds|].
    intros [lock|e] d Hl; [|done]. specialize (Hl lock eq_refl). apply wp_handing.
    eapply (wp_look _ (fun _ => True)); [|done|done].
    destruct p as [p|]; looks; try done.
    eapply look_mono; [by apply (look_load _ _ (fun _ => True))|]. intros [e l] _. by looks. }
  specialize (Hw w eq_refl). rewrite Ha in Hw. by eapply Hw.
Qed.

(** ** The theorems *)

(** An update is atomic over faults and crashes, and an acknowledged one is durable.
    Whatever system call of a fence, completion or forgetting failed, and however little
    of the directory's pending changes a crash then keeps, a later reader that succeeds
    reads a state that was there before or the one the transition makes of it; and once
    the update reported success, the reader does succeed, on exactly the new state. *)
Theorem update_atomic_and_durable store e change w w' res k junk later store' :
  dir_ok (dir w) ->
  (forall l l' r, wf l -> change l = (l', r) -> step l l') ->
  update store e change w = (w', res) -> file_host store' = file_host store ->
  (forall v, (load store' (reboot k junk later w')).2 = Ok v ->
     possible (file_host store) (dir w) v \/
     exists v0, possible (file_host store) (dir w) v0 /\ lstep v0 v) /\
  (res = Ok tt -> exists l l',
     possible (file_host store) (dir w) (e, l) /\ change l = (l', Ok tt) /\
     (minimum_epoch store' <= e -> minimum_through store' <= through l' ->
      (forall n, later n = None) -> (load store' (reboot k junk later w')).2 = Ok (e, l'))).
Proof.
  intros Hok Hch Hu Hh. pose proof (wp_update store e change (dir w) Hok Hch w eq_refl) as [Hev Hres].
  rewrite Hu in Hev, Hres. cbn in Hev, Hres. set (h := file_host store) in *.
  set (w2 := reboot k junk later w'). pose proof (evolves_crash h k junk _ (ev_ok _ _ _ Hev)) as Hcr. split.
  - intros v Hv.
    assert (look (dir w2) (load store') (loads h (names (dir w2)) (inodes (dir w2)))) as Hlook.
    { apply look_load. intros v' Hl _ _. by rewrite Hh in Hl. }
    destruct (Hlook w2 eq_refl) as [_ Hl]. apply Hl in Hv. clear Hlook Hl. assert (possible h (dir w2) v) as Hp by (exists (names (dir w2)); split; [apply image_names|done]).
    assert (possible h (dir w') v) as Hp'.
    { destruct Hp as (m & Hm & Hlm). exists m. split; [by apply (crash_image_before k junk)|].
      by apply (crash_loads h k junk); [apply Hev| |]. }
    by apply Hev.
  - intros Hr. destruct (Hres Hr) as (l & l' & Hp & Hc & Hcm). exists l, l'. split_and!; [done..|].
    intros Hme Hmt Hnf.
    assert (finds (L:=Authority.Error) (dir w2) (load store') (e, l')) as Hf.
    { apply finds_load; [|done|done]. rewrite Hh.
      apply (committed_crash _ _ k junk _ (ev_ok _ _ _ Hev) Hcm). apply image_names. }
    destruct (Hf w2 eq_refl Hnf) as (w3 & -> & _). done.
Qed.

(** An acknowledged fence is in every state that the directory may hold. *)
Lemma fence_commits store e p r w w1 :
  dir_ok (dir w) -> file_host store = Authority.host p -> id_typed r = true ->
  fence store e p r w = (w1, Ok tt) ->
  dir_ok (dir w1) /\ forall v, possible (Authority.host p) (dir w1) v -> wf v.2 /\ denied (abs v.2 p) = true.
Proof.
  intros Hok Hh Hr Hf.
  assert (Hch : forall l l' res, wf l -> Authority.fence p r l = (l', res) -> step l l')
    by (intros; by eapply step_fence).
  pose proof (wp_update store e (Authority.fence p r) (dir w) Hok Hch w eq_refl) as [Hev Hres].
  unfold fence in Hf. rewrite Hf in Hev, Hres. cbn in Hev, Hres. rewrite Hh in *.
  destruct (Hres eq_refl) as (l & l' & (m & _ & Hl) & Hc & Hcm).
  destruct (loads_valid _ _ _ _ Hl) as (_ & Hwf & _).
  pose proof (fenced_denied l p r l' Hwf Hr Hc) as Hden. split; [apply Hev|].
  intros v Hv. by rewrite (committed_possible _ _ _ _ Hcm Hv).
Qed.

(** C35. A fence survives everything: after one was acknowledged, no sequence of calls,
    each with any failures, and no crashes make the authority grant that launch again. *)
Theorem fence_survives store e p r w w1 cs root w2 g :
  dir_ok (dir w) -> file_host store = Authority.host p -> id_typed r = true ->
  fence store e p r w = (w1, Ok tt) -> history (file_host store) cs ->
  authorize root (Some p) (runs cs w1) <> (w2, Ok g).
Proof.
  intros Hok Hh Hr Hf Hcs Ha. destruct (fence_commits store e p r w w1 Hok Hh Hr Hf) as [Hok1 Hnow]. rewrite Hh in Hcs.
  pose proof (runs_keep (Authority.host p) cs w1 (fun v => wf v.2 /\ denied (abs v.2 p) = true)
    Hcs Hok1 (lstep_denied p)) as Hkeep.
  pose proof (re_ok _ _ _ (runs_reach _ cs w1 Hcs Hok1)) as Hok2.
  pose proof (wp_authorize root (Some p) _ Hok2 (runs cs w1) eq_refl) as [_ Hg].
  rewrite Ha in Hg. destruct (Hg g eq_refl) as (l2 & Hp2 & Hau).
  destruct (Hkeep Hnow _ Hp2) as [Hwf2 Hd2]. cbn in Hwf2, Hd2.
  apply authorize_ok in Hau as (_ & _ & Ho); [|done]. by rewrite Ho in Hd2.
Qed.

(** An acknowledged registration never regresses: whatever happens afterwards, every
    later checkpoint of the same host reports at least the acknowledged frontier and epoch. *)
Theorem registration_never_regresses store e ps w w1 c cs store' e' w2 c' :
  dir_ok (dir w) -> Forall (fun p => permit_typed p = true) ps ->
  register store e ps w = (w1, Ok c) -> history (file_host store) cs ->
  file_host store' = file_host store -> checkpoint store' e' (runs cs w1) = (w2, Ok c') ->
  registered_through c <= registered_through c' /\ checkpoint_epoch c <= checkpoint_epoch c'.
Proof.
  intros Hok Hty Hr Hcs Hh Hc.
  pose proof (wp_register store e ps (dir w) Hok Hty w eq_refl) as [Hev Hres].
  rewrite Hr in Hev, Hres. cbn in Hev, Hres.
  destruct (Hres c eq_refl) as (l & l' & (m & _ & Hl) & Hreg & -> & -> & Hcm).
  destruct (loads_valid _ _ _ _ Hl) as (_ & Hwf & _).
  pose proof (step_wf _ _ Hwf (step_register _ _ _ _ Hty Hreg)) as Hwf'.
  pose proof (ev_ok _ _ _ Hev) as Hok1.
  set (P := fun v : Z * Authority => wf v.2 /\ through l' <= through v.2 /\ e <= v.1).
  assert (HP : forall v v', P v -> lstep v v' -> P v').
  { intros v v' (Hw & Ht & He) Hs. pose proof (lstep_wf _ _ Hw Hs) as Hw'. destruct Hs as [He' Hs].
    split_and!; [done| |lia]. destruct Hs as [-> | Hs]; [done|].
    pose proof (step_through _ _ Hw Hs). lia. }
  assert (Hnow : forall v, possible (file_host store) (dir w1) v -> P v).
  { intros v Hv. rewrite (committed_possible _ _ _ _ Hcm Hv). by split_and!. }
  pose proof (runs_keep _ cs w1 P Hcs Hok1 HP Hnow) as Hlater.
  pose proof (re_ok _ _ _ (runs_reach _ cs w1 Hcs Hok1)) as Hok2.
  pose proof (wp_checkpoint store' e' _ Hok2 (runs cs w1) eq_refl) as [_ Hg].
  rewrite Hc in Hg. destruct (Hg c' eq_refl) as (l2 & Hp2 & _ & ->). rewrite Hh in Hp2.
  destruct (Hlater _ Hp2) as (_ & ? & ?). cbn in *. done.
Qed.

(** Activation cannot be undone: from the success of [initialize] on, whatever calls
    and crashes follow, no launch is allowed without a permit, and a launch with a permit
    is allowed only on a ledger that steps from the empty one lead to. *)
Theorem activation_is_irrevocable root h e w w1 st cs root' w2 :
  dir_ok (dir w) -> stateless (dir w) -> id_typed h = true -> in_i64 e = true ->
  initialize root h e w = (w1, Ok st) -> history h cs ->
  (forall g, authorize root' None (runs cs w1) <> (w2, Ok g)) /\
  (forall p g, Authority.host p = h -> authorize root' (Some p) (runs cs w1) = (w2, Ok g) ->
     exists a l, Authority.new h = Ok a /\ rtc lstep (e, a) (original_epoch p, l) /\
                 Authority.authorize l p = Ok tt).
Proof.
  intros Hok Hst Hh He Hi Hcs.
  pose proof (wp_initialize root h e (dir w) Hok Hst Hh He w eq_refl) as [[Hok1 Hp1] Hact].
  rewrite Hi in Hok1, Hp1, Hact. cbn in Hok1, Hp1, Hact. destruct (Hact st eq_refl) as [Ha1 _].
  pose proof (runs_reach h cs w1 Hcs Hok1) as Hre. split.
  - intros g Hg. pose proof (wp_authorize root' None _ (re_ok _ _ _ Hre) (runs cs w1) eq_refl) as [_ Hs].
    rewrite Hg in Hs. destruct (Hs g eq_refl) as [Hn _].
    destruct (re_active _ _ _ Hre Ha1 _ (image_names _)) as [x Hx]. congruence.
  - intros p g Hhp Hg.
    pose proof (wp_authorize root' (Some p) _ (re_ok _ _ _ Hre) (runs cs w1) eq_refl) as [_ Hs].
    rewrite Hg in Hs. destruct (Hs g eq_refl) as (l & Hp & Hau). rewrite Hhp in Hp.
    apply (re_possible _ _ _ Hre) in Hp as (v0 & Hv0 & Hsteps).
    destruct (Hp1 _ Hv0) as (a & Ha & ->). by exists a, l.
Qed.

(** A launch guard excludes writers: while the guard that a launch decision returned
    is held, no registration, fence, completion, forgetting, epoch change, deletion grant
    or retirement transaction changes anything in the directory, however many are tried. *)
Theorem guard_excludes_writers root p w w1 g cs :
  authorize root p w = (w1, Ok g) -> Forall (fun c => exclusive_call c = true) cs ->
  same_disk (dir w1) (dir (runs cs w1)) /\ lock_held (dir (runs cs w1)).
Proof.
  intros Ha Hcs. pose proof (authorize_holds _ _ _ _ _ Ha) as Hh. clear Ha. revert w1 Hh.
  induction Hcs as [|c cs Hc _ IH]; intros w1 Hh; [by split|].
  change (runs (c :: cs) w1) with (runs cs (run c w1)).
  pose proof (busy_call c w1 Hc Hh) as Hs. destruct (IH _ (same_disk_held _ _ Hs Hh)) as [Hs' Hh'].
  split; [|done]. destruct Hs as (H1' & H2' & H3' & H4'), Hs' as (H1'' & H2'' & H3'' & H4'').
  unfold same_disk; split_and!; congruence.
Qed.
End system.

(** ** The theorems at a concrete directory *)

Module Sample.
Import Ref.
#[local] Instance Ledger_serde : Serde Authority.Saved := Ref.serde saved_representable.
#[local] Instance Ledger_serde_laws : SerdeLaws Authority.Saved saved_representable :=
  Ref.serde_laws saved_representable.
#[local] Program Instance Required_codec : Codec Required := codec_inj
  (fun r => (required_version r, required_host r, lock_device r, lock_inode r))
  (fun t => let '(v, h, d, i) := t in
            Some {| required_version := v; required_host := h; lock_device := d; lock_inode := i |}) _.
Next Obligation. by intros []. Qed.
#[local] Instance Required_serde : Serde Required := Ref.serde (fun _ => true).
#[local] Program Instance State_file_codec : Codec Saved := codec_inj
  (fun s => (version s, host s, epoch s, ledger_json s))
  (fun t => let '(v, h, e, l) := t in
            Some {| version := v; host := h; epoch := e; ledger_json := l |}) _.
Next Obligation. by intros []. Qed.
#[local] Instance State_file_serde : Serde Saved := Ref.serde file_representable.
#[local] Instance State_file_laws : SerdeLaws Saved file_representable :=
  Ref.serde_laws file_representable.

Definition empty_dir : Dir := {|
  dir_meta := None; device := 5; inodes := ∅; synced_names := ∅; pending := []; fresh_ino := 1;
  locks := ∅
|}.
Definition boot (d : Dir) (f : nat -> option bytes) : World := {|
  dir := d; clock := 0; faults := f; root_user := true; canonical_root := "/run/launch"
|}.
Definition ok_world : World := boot empty_dir (fun _ => None).
Definition the_host : HostId := sample_id 1.
Definition store : AuthorityFile := {|
  root := "/run/launch"; file_host := the_host; minimum_epoch := 7; minimum_through := 0
|}.

Lemma empty_ok : dir_ok empty_dir /\ stateless empty_dir.
Proof.
  assert (forall m, image empty_dir m -> m = ∅) as Hm by (intros m [k ->]; cbn; by rewrite take_nil).
  split; [split|].
  - by intros j [x Hx].
  - by intros m n j ->%Hm Hj.
  - by intros m n j ->%Hm [x Hx].
  - by intros m ->%Hm.
Qed.

Definition initialized : World := (initialize "/run/launch" the_host 7 ok_world).1.
Definition registered : World :=
  (register store 7 [sample_permit 1; sample_permit 2] initialized).1.

Lemma initialize_runs :
  initialize "/run/launch" the_host 7 ok_world = (initialized, Ok store).
Proof.
  assert ((initialize "/run/launch" the_host 7 ok_world).2 = Ok store) as Hr by (by vm_compute).
  unfold initialized. rewrite <- Hr. by destruct (initialize _ _ _ _).
Qed.

Lemma initialized_ok : dir_ok (dir initialized).
Proof.
  destruct empty_ok as [Hok Hst].
  pose proof (wp_initialize "/run/launch" the_host 7 empty_dir Hok Hst eq_refl eq_refl ok_world eq_refl)
    as [[Hd _] _]. exact Hd.
Qed.

Lemma registered_ok : dir_ok (dir registered).
Proof.
  pose proof (run_reach the_host (CRegister store 7 [sample_permit 1; sample_permit 2]) initialized) as Hr.
  apply (re_ok the_host (dir initialized)), Hr; [|apply initialized_ok].
  split; [done|]. by repeat constructor.
Qed.

Lemma step_of_fence (l l' : Authority) (r : result Authority.Error unit) :
  wf l -> Authority.fence (sample_permit 1) (sample_id 401) l = (l', r) -> step l l'.
Proof. intros _ Hf. eapply step_fence; [|exact Hf]. done. Qed.

Definition fenced : World := (fence store 7 (sample_permit 1) (sample_id 401) registered).1.

Lemma fence_runs : fence store 7 (sample_permit 1) (sample_id 401) registered = (fenced, Ok tt).
Proof.
  assert ((fence store 7 (sample_permit 1) (sample_id 401) registered).2 = Ok tt) as Hr by (by vm_compute).
  unfold fenced. rewrite <- Hr. by destruct (fence _ _ _ _ _).
Qed.

Lemma update_runs :
  update store 7 (Authority.fence (sample_permit 1) (sample_id 401)) registered = (fenced, Ok tt).
Proof. pose proof fence_runs as Hf. unfold fence in Hf. exact Hf. Qed.

(** The machine crashes right after the fence, without another change reaching the disk. *)
Lemma update_atomic_and_durable_witness :
  (fence store 7 (sample_permit 1) (sample_id 401) registered).2 = Ok tt /\
  exists v, (load store (reboot 0 (fun _ => "") (fun _ => None) fenced)).2 = Ok v.
Proof.
  split; [by vm_compute|].
  destruct (update_atomic_and_durable store 7 (Authority.fence (sample_permit 1) (sample_id 401))
    registered fenced (Ok tt) 0 (fun _ => "") (fun _ => None) store registered_ok step_of_fence
    update_runs eq_refl) as [_ Hd].
  destruct (Hd eq_refl) as (l & l' & Hp & Hc & Hl). exists (7, l'). apply Hl; [done| |done].
  destruct Hp as (m & _ & Hp). apply loads_valid in Hp as (_ & Hwf & _).
  apply (wf_through l'). eapply step_wf; [exact Hwf|]. by eapply step_of_fence.
Defined.

(** Later calls and crashes: a retirement, a new epoch, a power failure. *)
Definition later_calls : list call :=
  [CCrash 0 (fun _ => "") (fun _ => None); CRetire store 7 (sample_intent 1) true;
   CAdvance store 7 8; CCrash 3 (fun _ => "junk") (fun _ => None)].
Lemma later_history : history the_host later_calls.
Proof. repeat constructor. Qed.

Lemma fence_survives_witness :
  (authorize "/run/launch" (Some (sample_permit 1)) registered).2 = Ok {| _lock := 1 |} /\
  authorize "/run/launch" (Some (sample_permit 1)) (runs later_calls fenced) <>
    (runs later_calls fenced, Ok {| _lock := 1 |}).
Proof.
  split; [by vm_compute|].
  exact (fence_survives store 7 (sample_permit 1) (sample_id 401) registered fenced later_calls
    "/run/launch" (runs later_calls fenced) {| _lock := 1 |} registered_ok eq_refl eq_refl
    fence_runs later_history).
Defined.

Definition checkpoint_at (e t : Z) : Checkpoint := {|
  checkpoint_host := the_host; checkpoint_epoch := e; registered_through := t
|}.

Lemma register_runs :
  register store 7 [sample_permit 1; sample_permit 2] initialized = (registered, Ok (checkpoint_at 7 2)).
Proof.
  assert ((register store 7 [sample_permit 1; sample_permit 2] initialized).2 = Ok (checkpoint_at 7 2))
    as Hr by (by vm_compute).
  unfold registered. rewrite <- Hr. by destruct (register _ _ _ _).
Qed.

Lemma checkpoint_runs :
  checkpoint store 8 (runs later_calls registered) =
    ((checkpoint store 8 (runs later_calls registered)).1, Ok (checkpoint_at 8 2)).
Proof.
  assert ((checkpoint store 8 (runs later_calls registered)).2 = Ok (checkpoint_at 8 2))
    as Hr by (by vm_compute).
  rewrite <- Hr. by destruct (checkpoint _ _ _).
Qed.

Lemma registration_never_regresses_witness : 2 <= 2 /\ 7 <= 8.
Proof.
  exact (registration_never_regresses store 7 [sample_permit 1; sample_permit 2] initialized registered
    (checkpoint_at 7 2) later_calls store 8 _ (checkpoint_at 8 2) initialized_ok
    ltac:(by repeat constructor) register_runs later_history eq_refl checkpoint_runs).
Defined.

Lemma authorize_runs :
  authorize "/run/launch" (Some (sample_permit 2)) registered =
    ((authorize "/run/launch" (Some (sample_permit 2)) registered).1, Ok {| _lock := 1 |}).
Proof.
  assert ((authorize "/run/launch" (Some (sample_permit 2)) registered).2 = Ok {| _lock := 1 |})
    as Hr by (by vm_compute).
  rewrite <- Hr. by destruct (authorize _ _ _).
Qed.

Lemma activation_is_irrevocable_witness :
  exists a l, Authority.new the_host = Ok a /\ rtc lstep (7, a) (7, l) /\
              Authority.authorize l (sample_permit 2) = Ok tt.
Proof.
  destruct empty_ok as [Hok Hst].
  destruct (activation_is_irrevocable "/run/launch" the_host 7 ok_world initialized store
    [CRegister store 7 [sample_permit 1; sample_permit 2]] "/run/launch"
    (authorize "/run/launch" (Some (sample_permit 2)) registered).1 Hok Hst eq_refl eq_refl
    initialize_runs ltac:(repeat constructor)) as [_ Ha].
  exact (Ha (sample_permit 2) {| _lock := 1 |} eq_refl authorize_runs).
Defined.

Lemma guard_excludes_writers_witness :
  lock_held (dir (runs [CFence store 7 (sample_permit 1) (sample_id 401)]
                    (authorize "/run/launch" (Some (sample_permit 2)) registered).1)).
Proof.
  exact (proj2 (guard_excludes_writers "/run/launch" (Some (sample_permit 2)) registered _
    {| _lock := 1 |} [CFence store 7 (sample_permit 1) (sample_id 401)] authorize_runs
    ltac:(repeat constructor))).
Defined.
End Sample.
