(* ===== verification/Guardian.v ===== *)
(** * The guardian's data (crates/sandbox-supervisor/src/guardian/mod.rs)

    A guardian owns one allocation: its manifest is written once, its receipt is the
    durable observation that everything else is decided on. The processes and
    control groups it manages are in [GuardianEnv] and [GuardianProcess]; the host asks for them
    through [HostEnv.Env]. *)

From S2P Require Import Prelude Ext Ids Fs.
From S2P Require Authority LaunchAuthority Resources.
#[local] Existing Instance Authority.Permit_eq_dec.

(** ** Paths

    A [PathBuf] is its string. *)

Definition is_absolute (path : string) : bool := LaunchAuthority.is_absolute path.

(** [Path::join] *)
Definition path_join (a b : string) : string :=
  if is_absolute b then b
  else if bool_decide (a = "") || bool_decide (last (String.list_ascii_of_string a) = Some "/"%char)
  then a +:+ b else a +:+ String "/" b.

(** [Path::components] below the root: empty and [.] components are normalized away. *)
Definition components (path : string) : list string :=
  List.filter (fun c => negb (bool_decide (c = "")) && negb (bool_decide (c = "."))) (split "/" path).
Definition parent_free (path : string) : bool :=
  forallb (fun c => negb (bool_decide (c = ".."))) (components path).
Definition path_starts_with (path base : string) : bool :=
  eqb (is_absolute path) (is_absolute base)
  && bool_decide (take (length (components base)) (components path) = components base).
Definition same_path (a b : string) : bool :=
  eqb (is_absolute a) (is_absolute b) && bool_decide (components a = components b).

(** ** Data *)

Record Owner : Type := {
  host : HostId;
  project : ProjectId;
  sandbox : SandboxId;
  allocation : AllocationId;
  create_operation : OperationId;
  generation : Z;
  epoch : Z;
}.
#[export] Instance Owner_eq_dec : EqDecision Owner.
Proof. solve_decision. Defined.

Record Artifact : Type := { path : string; artifact_sha256 : string }.
#[export] Instance Artifact_eq_dec : EqDecision Artifact.
Proof. solve_decision. Defined.

Record Config : Type := {
  state_root : string;
  cgroup_parent : string;
  firecracker : Artifact;
  jailer : Artifact;
  kernel : Artifact;
  rootfs : Artifact;
  jail_uid : Z;
  jail_gid : Z;
}.
#[export] Instance Config_eq_dec : EqDecision Config.
Proof. solve_decision. Defined.

Record Start : Type := {
  owner : Owner;
  vcpu : Z;
  memory_mib : Z;
  disk_mib : Z;
  expires_unix_ms : Z;
}.
#[export] Instance Start_eq_dec : EqDecision Start.
Proof. solve_decision. Defined.

Record Manifest : Type := {
  launch_permit : option Authority.Permit;
  config : Config;
  start : Start;
}.
#[export] Instance Manifest_eq_dec : EqDecision Manifest.
Proof. solve_decision. Defined.

Inductive State : Type :=
| Staging | Prepared | LaunchIntent | Running | Stopping | Fenced | Stopped.
#[export] Instance State_eq_dec : EqDecision State.
Proof. solve_decision. Defined.

Record Receipt : Type := {
  r_version : Z;
  r_owner : Owner;
  r_digest : string;
  r_host_boot_id : string;
  r_state : State;
  r_cleanup_confirmed : bool;
  r_renewal_revision : Z;
  r_expires_unix_ms : Z;
  r_guardian_host_pid : option Z;
  r_guardian_start_ticks : option Z;
  r_firecracker_namespace_pid : option Z;
  r_cgroup_inode : option Z;
  r_reason : option string;
  r_identity_digest : option string;
  r_identity_expires_unix_ms : option Z;
  r_guest_boot_id : option string;
}.
#[export] Instance Receipt_eq_dec : EqDecision Receipt.
Proof. solve_decision. Defined.

Inductive Action : Type :=
| Inspect
| BindGuest
| Renew (revision expires_unix_ms : Z)
| Stop.
#[export] Instance Action_eq_dec : EqDecision Action.
Proof. solve_decision. Defined.

Record Response : Type := { receipt : option Receipt; error : option string }.

(** Why cleanup failed: contention and a live guardian are told apart. *)
Inductive CleanupError : Type := LockContended | OwnershipBusy | Uncertain (m : anyhow).

Section manifest.
Context `{UuidLib, Serde Manifest, Sha256, HexLib}.

Definition directory (m : Manifest) : string :=
  path_join (state_root (config m)) (to_string (allocation (owner (start m)))).
Definition socket (m : Manifest) : string := path_join (directory m) "control.sock".

(** [Manifest::digest] *)
Definition digest (m : Manifest) : result anyhow string :=
  b ← ok_or (to_vec m) "serde_json";
  Ok (hex_encode (sha256 b)).

(** The permit of a manifest names its owner. *)
Definition permit_matches (m : Manifest) (p : Authority.Permit) : bool :=
  let o := owner (start m) in
  bool_decide (Authority.host p = host o) && bool_decide (Authority.project p = project o)
  && bool_decide (Authority.sandbox p = sandbox o)
  && bool_decide (Authority.allocation p = allocation o)
  && bool_decide (Authority.create_operation p = create_operation o)
  && (Authority.generation p =? generation o) && (Authority.original_epoch p =? epoch o).

Definition artifact_ok (a : Artifact) : bool :=
  is_absolute (path a) && (strlen (artifact_sha256 a) =? 64)
  && string_forallb is_lower_hex (artifact_sha256 a).

(** [Manifest::validate]; [is_root] is [geteuid().is_root()]. *)
Definition validate (is_root : bool) (m : Manifest) : result anyhow unit :=
  let c := config m in
  _ ← ensure is_root "allocation guardian requires root";
  _ ← ensure (is_none_or (permit_matches m) (launch_permit m))
        "manifest launch permit ownership mismatch";
  _ ← ensure ((0 <? generation (owner (start m))) && (0 <? epoch (owner (start m))))
        "invalid allocation ownership";
  _ ← ensure (Resources.supported (vcpu (start m)) (memory_mib (start m)) (disk_mib (start m)))
        "invalid VM resource bounds";
  _ ← ensure ((65534 <=? jail_uid c) && (65534 <=? jail_gid c))
        "jailer must use an unprivileged UID/GID";
  _ ← ensure (is_absolute (state_root c) && parent_free (state_root c)) "invalid state root";
  _ ← ensure (path_starts_with (cgroup_parent c) "/sys/fs/cgroup/"
              && negb (same_path (cgroup_parent c) "/sys/fs/cgroup")
              && parent_free (cgroup_parent c)) "dedicated cgroup parent required";
  _ ← ensure (strlen (socket m) <? 100) "guardian Unix socket path too long";
  _ ← for_each (fun a => ensure (artifact_ok a) "invalid artifact path or digest")
        [firecracker c; jailer c; kernel c; rootfs c];
  b ← ok_or (to_vec m) "serde_json";
  ensure (strlen b <=? 65536) "manifest too large".

(** [Manifest::validate_receipt] *)
Definition validate_receipt (m : Manifest) (r : Receipt) : result anyhow unit :=
  d ← digest m;
  ensure ((r_version r =? 1) && bool_decide (r_owner r = owner (start m))
          && bool_decide (r_digest r = d)
          && is_none_or (fun s => strlen s <? 256) (r_reason r)
          && eqb (r_cleanup_confirmed r) (bool_decide (r_state r = Stopped)))
    "guardian receipt ownership or shape mismatch".
End manifest.

(** ** The guardian's deletion plan (guardian/retirement.rs) *)

Record Identity : Type := { device : Z; inode : Z }.
#[export] Instance Identity_eq_dec : EqDecision Identity.
Proof. solve_decision. Defined.
Record Entry : Type := { identity : Identity; len : Z; entry_sha256 : string }.
#[export] Instance Entry_eq_dec : EqDecision Entry.
Proof. solve_decision. Defined.
Inductive Metadata : Type :=
| Absent
| StoppedFiles (dir : Identity) (cleanup : Receipt) (files staged : gmap string Entry).
#[export] Instance Metadata_eq_dec : EqDecision Metadata.
Proof. solve_decision. Defined.
Record Plan : Type := { plan_version : Z; intent_sha256 : string; metadata : Metadata }.
#[export] Instance Plan_eq_dec : EqDecision Plan.
Proof. solve_decision. Defined.

(** [Plan::receipt] *)
Definition plan_receipt (p : Plan) : option Receipt :=
  match metadata p with
  | Absent => None
  | StoppedFiles _ r _ _ => Some r
  end.
