(* ===== verification/GuardianEnv.v ===== *)
(** * What a guardian runs on

    The machine of one allocation: the allocation's directory and what a crash may bring back
    of it, its control group, its jailer and its guardian process, the launch ledger, and the
    clocks. Several processes use it: the host, launch wrappers, operators and the guardian
    with its threads. Between two calls of one the others may move: [stirs] says so. As in
    [GuestEnv], the log of the calls is part of the state, any call may fail or be the last of
    its process, and what the outside answers is arbitrary. *)

From S2P Require Import Prelude Ext Ids.
From S2P Require GuestModel LaunchAuthority Fs Lease Guardian Identity Authority.
Import Guardian(Manifest, Receipt, CleanupError, LockContended, OwnershipBusy, Uncertain).

(** ** The machine *)

Record FileNode : Type := {
  data : bytes;
  zeros : Z;            (** bytes of value zero behind [data], from [set_len] *)
  f_uid : Z; f_gid : Z; f_mode : Z;
  synced : bool;
}.
Inductive node : Type := File (f : FileNode) | Folder | Socket.

(** A control group, and whether a process is in it. *)
Record Group : Type := { g_inode : Z; populated : bool }.

(** A thread that serves one connection: before its request, or waiting for the guest's hello
    with the launch guard of [handle], the identity and the context it dialled with. *)
Inductive thread : Type :=
| Reading
| Binding (authority : LaunchAuthority.LaunchGuard) (identity : Identity.Identity)
    (context : GuestModel.Context).

(** A guardian from the start of its watchdog on: the deadline, the receipt behind its mutex
    once requests are accepted, the connections, and the process it reaps. *)
Record Process : Type := {
  deadline : Lease.Deadline;
  shared : option Receipt;
  threads : list thread;
  vm_pid : Z;
}.

Inductive action : Type :=
| Syscall
| ReadWall
| ReadBoot
| GenerateId
| Query
| Launch (boot : string) (args : list string)   (** a jailer was spawned *)
| Kill                                         (** [cgroup.kill] was written *)
| Hello (c : GuestModel.Context)
| Lost.                                        (** a crash lost the directory *)

Record Machine : Type := {
  home : option (gmap string node);   (** the allocation's directory, by relative paths *)
  earlier : list (gmap string node);  (** what a crash may bring back instead *)
  group : option Group;
  next_inode : Z;
  jailing : bool;                     (** a jailer that did not join the group yet *)
  locked : bool;                      (** the lifecycle lock *)
  guardian : option Process;
  boots : nat;
  ledger : Fs.World;                  (** the launch authority, in [state_root] *)
  trace : list action;
}.

Definition set_home (g : Machine) h : Machine :=
  {| home := h; earlier := earlier g; group := group g; next_inode := next_inode g;
     jailing := jailing g; locked := locked g; guardian := guardian g; boots := boots g;
     ledger := ledger g; trace := trace g |}.
Definition set_earlier (g : Machine) l : Machine :=
  {| home := home g; earlier := l; group := group g; next_inode := next_inode g;
     jailing := jailing g; locked := locked g; guardian := guardian g; boots := boots g;
     ledger := ledger g; trace := trace g |}.
Definition set_group (g : Machine) x : Machine :=
  {| home := home g; earlier := earlier g; group := x; next_inode := next_inode g;
     jailing := jailing g; locked := locked g; guardian := guardian g; boots := boots g;
     ledger := ledger g; trace := trace g |}.
Definition set_next_inode (g : Machine) x : Machine :=
  {| home := home g; earlier := earlier g; group := group g; next_inode := x;
     jailing := jailing g; locked := locked g; guardian := guardian g; boots := boots g;
     ledger := ledger g; trace := trace g |}.
Definition set_jailing (g : Machine) x : Machine :=
  {| home := home g; earlier := earlier g; group := group g; next_inode := next_inode g;
     jailing := x; locked := locked g; guardian := guardian g; boots := boots g;
     ledger := ledger g; trace := trace g |}.
Definition set_locked (g : Machine) x : Machine :=
  {| home := home g; earlier := earlier g; group := group g; next_inode := next_inode g;
     jailing := jailing g; locked := x; guardian := guardian g; boots := boots g;
     ledger := ledger g; trace := trace g |}.
Definition set_guardian (g : Machine) x : Machine :=
  {| home := home g; earlier := earlier g; group := group g; next_inode := next_inode g;
     jailing := jailing g; locked := locked g; guardian := x; boots := boots g;
     ledger := ledger g; trace := trace g |}.
Definition set_ledger (g : Machine) x : Machine :=
  {| home := home g; earlier := earlier g; group := group g; next_inode := next_inode g;
     jailing := jailing g; locked := locked g; guardian := guardian g; boots := boots g;
     ledger := x; trace := trace g |}.
Definition record (g : Machine) (a : action) : Machine :=
  {| home := home g; earlier := earlier g; group := group g; next_inode := next_inode g;
     jailing := jailing g; locked := locked g; guardian := guardian g; boots := boots g;
     ledger := ledger g; trace := a :: trace g |}.

Definition set_deadline (p : Process) d : Process :=
  {| deadline := d; shared := shared p; threads := threads p; vm_pid := vm_pid p |}.
Definition set_shared (p : Process) r : Process :=
  {| deadline := deadline p; shared := r; threads := threads p; vm_pid := vm_pid p |}.
Definition set_threads (p : Process) l : Process :=
  {| deadline := deadline p; shared := shared p; threads := l; vm_pid := vm_pid p |}.
Definition on_guardian (f : Process -> Process) (g : Machine) : Machine :=
  set_guardian g (f <$> guardian g).

(** What the other processes may do between two calls: the jailer joins its group, all
    processes of the group have ended, the watchdog finds the deadline passed. *)
Inductive move : Type := Joins | Ends | Expires.

(** A call that does not succeed: it fails, or its process is killed; a write may have written
    some bytes by then. *)
Record Fault : Type := { kills : bool; written : nat }.

(** [anyhow::Error], with the two errors the code tells apart. *)
Inductive failure : Type := Killed | Failed (e : CleanupError).
Abbreviation failed m := (Failed (Uncertain m)) (only parsing).

(** What is read of an artifact: its metadata, and its bytes as [read] delivers them. *)
Record Source : Type := { is_file : bool; file_len : Z; chunks : list bytes }.

(** What the guardian's [wait] reports. *)
Inductive reaped : Type := VmExited | OtherExited | NothingYet | NoChildren | WaitFailed.

Class GuardianEnv := {
  (** [geteuid().is_root()], and [process::id() == 1] for the guardian *)
  is_root : bool;
  is_init : list action -> bool;
  fault : list action -> option Fault;
  stirs : list action -> option move;
  wall_answer : list action -> Z;
  boot_answer : list action -> Z;
  wall_answer_i64 : forall t, 0 <= wall_answer t <= I64_MAX;
  boot_answer_u64 : forall t, 0 <= boot_answer t <= U64_MAX;
  generated : list action -> OperationId;
  (** [/proc/sys/kernel/random/boot_id], trimmed: no two boots have the same *)
  boot_id_of : nat -> string;
  boot_id_of_inj : forall a b, boot_id_of a = boot_id_of b -> a = b;
  (** whether a directory is one, is root's, and nobody else's *)
  private : list action -> bool;
  artifact : list action -> Guardian.Artifact -> result anyhow Source;
  issued : list action -> result anyhow Identity.Issued;
  (** [/proc/self/stat] of the guardian *)
  stat : list action -> string;
  (** the control group parent is canonical and has no process *)
  parent_idle : list action -> bool;
  (** the jailer's pid file, whether the jailer ended and how, whether the process exists *)
  pid_file : list action -> option string;
  jailer_status : list action -> result anyhow (option bool);
  process_exists : list action -> Z -> bool;
  wait_answer : list action -> reaped;
  (** the user of a connection's other end *)
  peer : list action -> result anyhow Z;
  hello_reply : list action -> GuestModel.Context -> result anyhow GuestModel.Context;
  (** what a failing [remove_dir_all] left *)
  spared : list action -> string -> bool;
}.

Abbreviation M A := (ST Machine failure A) (only parsing).

Section calls.
Context `{GuardianEnv}.

Definition move_of (mv : move) (g : Machine) : Machine :=
  match mv with
  | Joins =>
      if jailing g then
        let g := set_jailing g false in
        match group g with
        | Some x => set_group g (Some {| g_inode := g_inode x; populated := true |})
        | None => set_next_inode (set_group g (Some {| g_inode := next_inode g; populated := true |}))
                    (next_inode g + 1)
        end
      else g
  | Ends => set_group g ((fun x => {| g_inode := g_inode x; populated := false |}) <$> group g)
  | Expires =>
      on_guardian (fun p => set_deadline p (Lease.expire (boot_answer (trace g)) (deadline p)).1) g
  end.
Definition stir (g : Machine) : Machine :=
  match stirs (trace g) with Some mv => move_of mv g | None => g end.

Definition broken (f : Fault) : failure := if kills f then Killed else failed "i/o error".

(** A call of the kernel: it fails, or does [f]. *)
Definition syscall {A} (f : Machine -> result anyhow (Machine * A)) : M A := fun g =>
  let g := stir g in
  match fault (trace g) with
  | Some e => (record g Syscall, Err (broken e))
  | None =>
      match f (record g Syscall) with
      | Ok (g', a) => (g', Ok a)
      | Err e => (record g Syscall, Err (failed e))
      end
  end.
Definition ask {A} (a : action) (answer : list action -> A) : M A := fun g =>
  let g := stir g in (record g a, Ok (answer (trace g))).

Definition checked {S A} (r : result anyhow A) : ST S failure A :=
  lift (map_err (fun m => failed m) r).

(** An error that the code handles; nobody handles being killed. *)
Definition attempt {A} (m : M A) : M (result CleanupError A) := fun g =>
  match m g with
  | (g', Ok a) => (g', Ok (Ok a))
  | (g', Err (Failed e)) => (g', Ok (Err e))
  | (g', Err Killed) => (g', Err Killed)
  end.

(** Calls whose effect is not part of the state: mounts, [fsync] below [run], settings of a
    control group, directories that are only there. *)
Definition unseen : M unit := syscall (fun g => Ok (g, tt)).
Definition query {A} (answer : list action -> A) : M A := ask Query answer.

Definition wall_ms : M Z := ask ReadWall wall_answer.
Definition boot_ms : M Z := ask ReadBoot boot_answer.
Definition generate : M OperationId := ask GenerateId generated.
Definition boot_id : M string := syscall (fun g => Ok (g, boot_id_of (boots g))).

(** ** The directory *)

Definition names (g : Machine) : result anyhow (gmap string node) := ok_or (home g) "not found".

(** A change of names, which a crash may undo until the directory is synced. *)
Definition rename_to (g : Machine) (v : gmap string node) : Machine :=
  match home g with
  | Some old => set_earlier (set_home g (Some v)) (old :: earlier g)
  | None => set_home g (Some v)
  end.
Definition update (name : string) (f : FileNode -> FileNode) (g : Machine) : Machine :=
  set_home g (alter (fun n => match n with File x => File (f x) | _ => n end) name <$> home g).

Definition empty_file : FileNode :=
  {| data := ""; zeros := 0; f_uid := 0; f_gid := 0; f_mode := 384; synced := false |}.

(** [OpenOptions::new().write(true).create_new(true).mode(0o600).open(name)] *)
Definition create_new (name : string) : M unit := syscall (fun g =>
  v ← names g;
  match v !! name with
  | Some _ => Err "file exists"
  | None => Ok (rename_to g (<[name := File empty_file]> v), tt)
  end).

Fixpoint prefix (n : nat) (s : bytes) : bytes :=
  match n, s with
  | S n, String c s => String c (prefix n s)
  | _, _ => ""
  end.

Definition append (b : bytes) (x : FileNode) : FileNode :=
  {| data := data x +:+ b; zeros := zeros x; f_uid := f_uid x; f_gid := f_gid x;
     f_mode := f_mode x; synced := false |}.
Definition write_all (name : string) (b : bytes) : M unit := fun g =>
  let g := stir g in
  match fault (trace g) with
  | Some e => (update name (append (prefix (written e) b)) (record g Syscall), Err (broken e))
  | None => (update name (append b) (record g Syscall), Ok tt)
  end.

(** A change of a file's metadata. *)
Definition adjust (name : string) (f : FileNode -> FileNode) : M unit :=
  syscall (fun g => Ok (update name f g, tt)).
Definition sync_file (name : string) : M unit := adjust name (fun x =>
  {| data := data x; zeros := zeros x; f_uid := f_uid x; f_gid := f_gid x; f_mode := f_mode x;
     synced := true |}).
Definition chown (name : string) (uid gid : Z) : M unit := adjust name (fun x =>
  {| data := data x; zeros := zeros x; f_uid := uid; f_gid := gid; f_mode := f_mode x;
     synced := synced x |}).
Definition set_permissions (name : string) (mode : Z) : M unit := adjust name (fun x =>
  {| data := data x; zeros := zeros x; f_uid := f_uid x; f_gid := f_gid x; f_mode := mode;
     synced := synced x |}).
(** [file.set_len(size)] of a file that is not longer. *)
Definition set_len (name : string) (size : Z) : M unit := adjust name (fun x =>
  {| data := data x; zeros := size - strlen (data x); f_uid := f_uid x; f_gid := f_gid x;
     f_mode := f_mode x; synced := false |}).

Definition rename (old new : string) : M unit := syscall (fun g =>
  v ← names g;
  match v !! old, v !! new with
  | None, _ => Err "not found"
  | Some _, Some Folder => Err "is a directory"
  | Some n, _ => Ok (rename_to g (<[new := n]> (delete old v)), tt)
  end).

(** [File::open(directory)?.sync_all()] *)
Definition sync_directory : M unit := syscall (fun g =>
  _ ← names g; Ok (set_earlier g [], tt)).

(** [path.exists()]: an error is [false]. *)
Definition exists_ (name : string) : M bool :=
  r ← attempt (syscall (fun g => v ← names g; Ok (g, is_some (v !! name))));
  mret (match r with Ok b => b | Err _ => false end).

(** An entry of the directory, not of one below. *)
Definition top_level (name : string) : bool := negb (string_existsb (is_byte 47) name).
(** [fs::read_dir(directory)?.count()] *)
Definition count_entries : M Z := syscall (fun g =>
  v ← names g;
  Ok (g, Z.of_nat (size (filter (fun kv : string * node => top_level kv.1 = true) v)))).

(** The bytes of a file that is read without following a link. *)
Definition read_file (name : string) : M FileNode := syscall (fun g =>
  v ← names g;
  match v !! name with
  | Some (File f) => Ok (g, f)
  | Some _ => Err "not a file"
  | None => Err "not found"
  end).

Definition MAX_JSON : Z := 65536.
(** [read_json] *)
Definition read_json {A} `{Serde A} (name : string) : M A :=
  f ← read_file name;
  _ ← checked (ensure (strlen (data f) + zeros f <=? MAX_JSON) "invalid guardian metadata file");
  checked (ok_or (from_slice (data f)) "invalid guardian metadata").

(** [write_json], through a staging file of a fresh name in the same directory; [sync] syncs
    that directory. *)
Definition write_json_in `{UuidLib} {A} `{Serde A} (dir : string) (sync : M unit) (name : string)
    (value : A) : M unit :=
  id ← generate;
  let temp := dir +:+ to_string id +:+ ".tmp" in
  _ ← create_new temp;
  bytes ← checked (ok_or (to_vec value) "serde_json");
  _ ← checked (ensure (strlen bytes <=? MAX_JSON) "guardian metadata too large");
  _ ← write_all temp bytes;
  _ ← sync_file temp;
  _ ← rename temp (dir +:+ name);
  sync.
Definition write_json `{UuidLib} {A} `{Serde A} (name : string) (value : A) : M unit :=
  write_json_in "" sync_directory name value.

(** [private_dir] of the allocation's directory. *)
Definition private_home : M unit :=
  _ ← syscall (fun g => Ok (match home g with Some _ => g | None => set_home g (Some ∅) end, tt));
  ok ← query private;
  checked (ensure ok "guardian directory must be private and root-owned").
(** [private_dir] of a directory in it. *)
Definition private_folder (name : string) : M unit :=
  _ ← syscall (fun g =>
    v ← names g;
    Ok (match v !! name with Some _ => g | None => rename_to g (<[name := Folder]> v) end, tt));
  ok ← query private;
  checked (ensure ok "guardian directory must be private and root-owned").

Fixpoint starts_with (s pre : string) : bool :=
  match pre, s with
  | EmptyString, _ => true
  | String c pre, String d s => Ascii.eqb c d && starts_with s pre
  | _, _ => false
  end.
(** Paths of [run] and below. *)
Definition below_run (name : string) : bool := bool_decide (name = "run") || starts_with name "run/".
(** [fs::remove_dir_all("run")]: when it fails, some of it may be gone. *)
Definition remove_run : M unit := fun g =>
  let g := stir g in
  let without (keep : string -> bool) := match home g with
    | Some v => rename_to (record g Syscall)
                  (filter (fun kv : string * node => below_run kv.1 = false \/ keep kv.1 = true) v)
    | None => record g Syscall
    end in
  match fault (trace g) with
  | Some e => (without (spared (trace g)), Err (broken e))
  | None => (without (fun _ => false), Ok tt)
  end.

(** [fs::remove_file] of a name that may be missing. *)
Definition remove_if_there (name : string) : M unit := syscall (fun g =>
  v ← names g;
  match v !! name with
  | Some Folder => Err "is a directory"
  | Some _ => Ok (rename_to g (delete name v), tt)
  | None => Ok (g, tt)
  end).

(** [UnixListener::bind] *)
Definition bind_socket (name : string) : M unit := syscall (fun g =>
  v ← names g;
  match v !! name with
  | Some _ => Err "address in use"
  | None => Ok (rename_to g (<[name := Socket]> v), tt)
  end).

(** ** The lifecycle lock *)

Definition LOCK : string := "lifecycle.lock".
(** [Manifest::lifecycle_lock] *)
Definition lifecycle_lock (create : bool) : M unit :=
  _ ← syscall (fun g =>
    v ← names g;
    match v !! LOCK with
    | Some (File _) => Ok (g, tt)
    | Some _ => Err "not a file"
    | None => if create then Ok (rename_to g (<[LOCK := File empty_file]> v), tt) else Err "not found"
    end);
  free ← syscall (fun g => Ok (if locked g then g else set_locked g true, negb (locked g)));
  if free : bool then mret tt else fail (Failed OwnershipBusy).
(** A scope that owns the lock: it is released on every way out. *)
Definition owning {A} (body : M A) : M A := fun g =>
  let '(g', r) := body g in (set_locked g' false, r).

(** ** The launch ledger *)

Definition ledger_failure (e : Fs.error Authority.Error) : failure :=
  match e with
  | Fs.LockContended => Failed LockContended
  | Fs.Ledger _ => failed "launch ledger"
  | Fs.Message m => failed m
  end.
Definition on_ledger {A} (m : ST Fs.World (Fs.error Authority.Error) A) : M A := fun g =>
  let '(w, r) := m (ledger g) in (set_ledger g w, map_err ledger_failure r).
(** A scope that owns a guard of the ledger. *)
Definition drop_guard (l : LaunchAuthority.LaunchGuard) (g : Machine) : Machine :=
  set_ledger g (Fs.release (LaunchAuthority._lock l) (ledger g)).
Definition held {A} (l : LaunchAuthority.LaunchGuard) (body : M A) : M A := fun g =>
  let '(g', r) := body g in (drop_guard l g', r).
(** A scope that hands its guard on when it succeeds. *)
Definition handing {A} (l : LaunchAuthority.LaunchGuard) (body : M A) : M A := fun g =>
  match body g with
  | (g', Ok a) => (g', Ok a)
  | (g', Err e) => (drop_guard l g', Err e)
  end.

(** ** The control group *)

Definition group_metadata : M (option Z) := syscall (fun g => Ok (g, g_inode <$> group g)).
(** [group.exists()] *)
Definition group_exists : M bool :=
  r ← attempt group_metadata; mret (match r with Ok x => is_some x | Err _ => false end).
(** whether [cgroup.events] says [populated 1] *)
Definition is_populated : M bool := syscall (fun g => x ← ok_or (group g) "not found"; Ok (g, populated x)).
Definition create_group : M unit := syscall (fun g =>
  match group g with
  | Some _ => Err "file exists"
  | None => Ok (set_next_inode (set_group g (Some {| g_inode := next_inode g; populated := false |}))
                  (next_inode g + 1), tt)
  end).
Definition kill_group : M unit := syscall (fun g => Ok (record g Kill, tt)).
(** [fs::remove_dir] of a control group: refused while a process is in it. *)
Definition remove_group : M unit := syscall (fun g =>
  x ← ok_or (group g) "not found";
  if populated x then Err "resource busy" else Ok (set_group g None, tt)).

(** Five seconds, at 20 milliseconds a round. *)
Definition CLEANUP_ROUNDS : nat := 251.
Fixpoint await_empty (n : nat) : M unit :=
  match n with
  | O => checked (Err "VM cleanup unconfirmed")
  | S n => full ← is_populated; if full : bool then await_empty n else mret tt
  end.
End calls.

#[global] Arguments syscall : simpl never.
#[global] Arguments ask : simpl never.
#[global] Arguments attempt : simpl never.
#[global] Arguments checked : simpl never.
#[global] Arguments owning : simpl never.
#[global] Arguments held : simpl never.
#[global] Arguments handing : simpl never.
#[global] Arguments on_ledger : simpl never.
#[global] Arguments write_json_in : simpl never.
#[global] Arguments read_json : simpl never.
