(* ===== verification/GuardianOps.v ===== *)
(** * Staging, fencing and cleanup of an allocation (crates/sandbox-supervisor/src/guardian/mod.rs)

    What the host, a launch wrapper or an operator does to an allocation's directory and
    control group. Everything after the lifecycle lock is one step for the other processes. *)

From S2P Require Import Prelude Ext Ids Guardian GuardianEnv.
From S2P Require GuestModel LaunchAuthority Fs Lease Bootstrap Identity Authority Output.
Import Identity(Identity, issue, client_tls, TlsLib).
#[local] Existing Instances Guardian.State_eq_dec Fs.file_type_eq_dec.

Definition RECEIPT : string := "receipt.json".
Definition MANIFEST : string := "manifest.json".
Definition SOCKET : string := "control.sock".
Definition RUN : string := "run".
Definition IDENTITY : string := "identity.json".

(** The virtual machine's configuration, as it is written for firecracker. *)
Record Drive : Type := {
  drive_id : string; path_on_host : string; is_root_device : bool; is_read_only : bool
}.
Record VmConfig : Type := {
  kernel_image_path : string;
  boot_args : string;
  drives : list Drive;
  vcpu_count : Z;
  mem_size_mib : Z;
  smt : bool;
  network_interfaces : list string;
  guest_cid : Z;
  uds_path : string;
}.
Definition vm_config (s : Start) : VmConfig := {|
  kernel_image_path := "/vmlinux";
  boot_args := "keep_bootcon console=ttyS0 reboot=k panic=1 pci=off root=/dev/vda rw init=/init";
  drives := [
    {| drive_id := "rootfs"; path_on_host := "/rootfs.ext4"; is_root_device := true; is_read_only := false |};
    {| drive_id := "bootstrap"; path_on_host := "/bootstrap.img"; is_root_device := false; is_read_only := true |}];
  vcpu_count := vcpu s; mem_size_mib := memory_mib s; smt := false;
  network_interfaces := [];
  guest_cid := 3; uds_path := "/vsock.sock"
|}.

Definition MiB (n : Z) : Z := Z.shiftl n 20.
(** [0o755], [0o600], [0o400] *)
Definition MODE_EXECUTABLE : Z := 493.
Definition MODE_PRIVATE : Z := 384.
Definition MODE_READABLE : Z := 256.

(** *** Updates of a receipt *)

Definition with_state (r : Receipt) (s : State) (confirmed : bool) (why : option string) : Receipt := {|
  r_version := r_version r; r_owner := r_owner r; r_digest := r_digest r;
  r_host_boot_id := r_host_boot_id r; r_state := s; r_cleanup_confirmed := confirmed;
  r_renewal_revision := r_renewal_revision r; r_expires_unix_ms := r_expires_unix_ms r;
  r_guardian_host_pid := r_guardian_host_pid r; r_guardian_start_ticks := r_guardian_start_ticks r;
  r_firecracker_namespace_pid := r_firecracker_namespace_pid r; r_cgroup_inode := r_cgroup_inode r;
  r_reason := why; r_identity_digest := r_identity_digest r;
  r_identity_expires_unix_ms := r_identity_expires_unix_ms r; r_guest_boot_id := r_guest_boot_id r
|}.
Definition with_identity (r : Receipt) (d : string) (until : Z) : Receipt := {|
  r_version := r_version r; r_owner := r_owner r; r_digest := r_digest r;
  r_host_boot_id := r_host_boot_id r; r_state := r_state r; r_cleanup_confirmed := r_cleanup_confirmed r;
  r_renewal_revision := r_renewal_revision r; r_expires_unix_ms := r_expires_unix_ms r;
  r_guardian_host_pid := r_guardian_host_pid r; r_guardian_start_ticks := r_guardian_start_ticks r;
  r_firecracker_namespace_pid := r_firecracker_namespace_pid r; r_cgroup_inode := r_cgroup_inode r;
  r_reason := r_reason r; r_identity_digest := Some d;
  r_identity_expires_unix_ms := Some until; r_guest_boot_id := r_guest_boot_id r
|}.

Section ops.
Context `{GuardianEnv, UuidLib, Serde Manifest, Sha256, HexLib, Serde Authority.Retirement.Intent,
          Serde Authority.Saved, Serde LaunchAuthority.Required, Serde LaunchAuthority.Saved,
          Serde Receipt, Serde VmConfig, Serde Bootstrap.Bootstrap, Serde Identity, TlsLib}.

(** [Manifest::authorize_launch] *)
Definition authorize_launch (m : Manifest) : M LaunchAuthority.LaunchGuard :=
  _ ← checked (ensure (is_none_or (permit_matches m) (launch_permit m))
                 "manifest launch permit ownership mismatch");
  on_ledger (LaunchAuthority.authorize (state_root (config m)) (launch_permit m)).

(** [launch_authority::authorize_cleanup] for this manifest *)
Definition authorize_cleanup (m : Manifest) : M (LaunchAuthority.LaunchGuard * bool) :=
  on_ledger (LaunchAuthority.authorize_cleanup (state_root (config m)) (launch_permit m)).

(** [private_dir(&self.config.state_root)] *)
Definition private_state_root : M unit :=
  _ ← on_ledger (Fs.syscall (fun d => Ok (match Fs.dir_meta d with
                                          | Some _ => d
                                          | None => LaunchAuthority.make_root d
                                          end, tt)));
  ok ← on_ledger (Fs.query (fun d =>
    m ← ok_or (Fs.dir_meta d) "not found";
    Ok (bool_decide (Fs.ftype m = Fs.Directory) && (Fs.uid m =? 0)
        && (LaunchAuthority.group_or_other (Fs.mode m) =? 0))));
  checked (ensure ok "guardian directory must be private and root-owned").

(** Paths below [run], and [Manifest::jail_root]. *)
Definition in_run (name : string) : string := "run/" +:+ name.
Definition in_jail (m : Manifest) (name : string) : string :=
  "run/chroots/firecracker/" +:+ hyphenated (uuid (allocation (owner (start m)))) +:+ "/root/" +:+ name.

(** [Manifest::receipt] *)
Definition manifest_receipt (m : Manifest) : M Receipt :=
  r ← read_json RECEIPT;
  _ ← checked (validate_receipt m r);
  mret r.

Definition write_receipt (r : Receipt) : M unit := write_json RECEIPT r.
Definition write_manifest (m : Manifest) : M unit := write_json MANIFEST m.

(** *** stage *)

(** The loop of [copy]: how much was copied, and its bytes. *)
Fixpoint copy_chunks (dest : string) (max : Z) (l : list bytes) (total : Z) (seen : bytes) : M bytes :=
  match l with
  | [] => mret seen
  | b :: l =>
      let total := total + strlen b in
      _ ← checked (ensure (total <=? max) "artifact grew past bound");
      _ ← write_all dest b;
      copy_chunks dest max l total (seen +:+ b)
  end.
Definition copy (a : Artifact) (dest : string) (max : Z) (executable : bool) : M unit :=
  source ← query (fun t => artifact t a);
  input ← checked source;
  _ ← checked (ensure (is_file input && (0 <? file_len input) && (file_len input <=? max))
                 "artifact outside size bound");
  _ ← create_new dest;
  bytes ← copy_chunks dest max (chunks input) 0 "";
  _ ← checked (ensure (bool_decide (hex_encode (sha256 bytes) = artifact_sha256 a))
                 "artifact digest mismatch");
  _ ← sync_file dest;
  set_permissions dest (if executable then MODE_EXECUTABLE else MODE_PRIVATE).

(** The [for] loops over files. *)
Fixpoint each (f : string -> M unit) (l : list string) : M unit :=
  match l with [] => mret tt | n :: l => _ ← f n; each f l end.

(** [Manifest::stage] *)
Definition stage (m : Manifest) : M unit :=
  let c := config m in
  _ ← private_folder RUN;
  _ ← unseen;
  _ ← copy (firecracker c) (in_run "firecracker") (MiB 128) true;
  _ ← copy (jailer c) (in_run "jailer") (MiB 16) true;
  _ ← copy (kernel c) (in_jail m "vmlinux") (MiB 256) false;
  let disk_bytes := MiB (disk_mib (start m)) in
  _ ← copy (rootfs c) (in_jail m "rootfs.ext4") disk_bytes false;
  _ ← set_len (in_jail m "rootfs.ext4") disk_bytes;
  _ ← unseen;
  _ ← sync_file (in_jail m "rootfs.ext4");
  _ ← write_json_in (in_jail m "") unseen "config.json" (vm_config (start m));
  _ ← each (fun n => chown (in_jail m n) (jail_uid c) (jail_gid c))
        ["vmlinux"; "rootfs.ext4"; "config.json"];
  _ ← set_permissions (in_jail m "vmlinux") MODE_READABLE;
  _ ← set_permissions (in_jail m "config.json") MODE_READABLE;
  _ ← unseen;
  _ ← each sync_file [in_run "firecracker"; in_run "jailer"; in_jail m "vmlinux";
                      in_jail m "rootfs.ext4"; in_jail m "config.json"];
  _ ← each (fun _ => unseen) ["root"; "uuid"; "firecracker"; "chroots"; "run"];
  _ ← sync_directory;
  _ ← unseen;
  sync_directory.

(** [Manifest::stage_identity]: the receipt is also changed when it fails later on. *)
Definition identity_digest (i : Identity) : result anyhow string :=
  b ← ok_or (to_vec i) "serde_json"; Ok (hex_encode (sha256 b)).
Definition stage_identity (m : Manifest) (r : Receipt) : M (Receipt * result CleanupError unit) :=
  let o := owner (start m) in
  now ← wall_ms;
  creds ← query issued;
  match issue creds (allocation o) (generation o) now with
  | Err e => mret (r, Err (Uncertain e))
  | Ok identity =>
      let until := Bootstrap.valid_until_unix_ms (Identity.guest identity) in
      if negb (expires_unix_ms (start m) <? until) then
        mret (r, Err (Uncertain "initial lease exceeds channel validity")) else
      match identity_digest identity with
      | Err e => mret (r, Err (Uncertain e))
      | Ok d =>
          staged ← attempt (
            _ ← write_json_in (in_run "") unseen IDENTITY identity;
            let path := in_jail m "bootstrap.img" in
            _ ← create_new path;
            device ← checked (Bootstrap.encode_device (Identity.guest identity));
            _ ← write_all path device;
            _ ← chown path (jail_uid (config m)) (jail_gid (config m));
            _ ← set_permissions path MODE_READABLE;
            _ ← sync_file path;
            unseen);
          mret (with_identity r d until, staged)
      end
  end.

(** *** Cleanup *)

(** [Manifest::finish_cleanup], of a receipt that was written as fenced. *)
Definition clean_group (r : Receipt) : M unit :=
  present ← group_metadata;
  match present with
  | None => mret tt
  | Some ino =>
      full ← is_populated;
      _ ← (if full : bool then
             boot ← boot_id;
             _ ← checked (ensure (bool_decide (r_host_boot_id r = boot)
                                  && bool_decide (r_cgroup_inode r = Some ino))
                            "cgroup ownership cannot be proven");
             kill_group
           else mret tt);
      _ ← await_empty CLEANUP_ROUNDS;
      remove_group
  end.
Definition finish_cleanup (r : Receipt) : M Receipt :=
  _ ← clean_group r;
  there ← exists_ RUN;
  _ ← (if there : bool then remove_run else mret tt);
  _ ← remove_if_there SOCKET;
  let r := with_state r Stopped true (r_reason r) in
  _ ← write_receipt r;
  mret r.

(** *** prepare, fence_unstarted, reconcile *)

Definition new_receipt (m : Manifest) (d boot : string) : Receipt := {|
  r_version := 1; r_owner := owner (start m); r_digest := d; r_host_boot_id := boot;
  r_state := Staging; r_cleanup_confirmed := false; r_renewal_revision := 0;
  r_expires_unix_ms := expires_unix_ms (start m); r_guardian_host_pid := None;
  r_guardian_start_ticks := None; r_firecracker_namespace_pid := None; r_cgroup_inode := None;
  r_reason := None; r_identity_digest := None; r_identity_expires_unix_ms := None;
  r_guest_boot_id := None
|}.

(** The rest of [Manifest::prepare], when there is no receipt. *)
Definition prepare_fresh (m : Manifest) : M Receipt :=
  group ← group_exists;
  _ ← checked (ensure (negb group) "unowned allocation cgroup already exists");
  n ← count_entries;
  _ ← checked (ensure (n =? 1) "unowned allocation files already exist");
  now ← wall_ms;
  boot ← boot_ms;
  _ ← checked (Lease.new (expires_unix_ms (start m)) now boot);
  d ← checked (digest m);
  id ← boot_id;
  let record := new_receipt m d id in
  _ ← write_receipt record;
  _ ← write_manifest m;
  staged ← attempt (stage m);
  '(record, staged) ← (match staged with
                       | Ok _ => stage_identity m record
                       | Err e => mret (record, Err e)
                       end);
  match staged with
  | Err _ =>
      let record := with_state record Fenced false (Some "artifact_staging_failed") in
      _ ← write_receipt record;
      _ ← finish_cleanup record;
      checked (Err "artifact staging failed; allocation fenced")
  | Ok _ =>
      let record := with_state record Prepared false None in
      _ ← write_receipt record;
      mret record
  end.

(** [Manifest::prepare] *)
Definition prepare (m : Manifest) : M Receipt :=
  _ ← checked (validate is_root m);
  authority ← authorize_launch m;
  held authority (
    _ ← private_state_root;
    _ ← private_home;
    _ ← lifecycle_lock true;
    owning (
      there ← exists_ RECEIPT;
      if there : bool then manifest_receipt m else prepare_fresh m)).

(** [Manifest::fence_unstarted] *)
Definition fence_unstarted (m : Manifest) : M Receipt :=
  _ ← checked (validate is_root m);
  '(authority, may_create) ← authorize_cleanup m;
  held authority (
    _ ← (if may_create : bool then _ ← private_state_root; private_home else mret tt);
    _ ← lifecycle_lock may_create;
    owning (
      there ← exists_ RECEIPT;
      if there : bool then
        r ← manifest_receipt m;
        if bool_decide (r_state r = Stopped) then mret r else
        let r := with_state r Fenced (r_cleanup_confirmed r) (Some "host_stop_fence") in
        _ ← write_receipt r;
        finish_cleanup r
      else
        _ ← checked (ensure may_create "fenced cleanup cannot recreate missing metadata");
        group ← group_exists;
        _ ← checked (ensure (negb group) "unowned cgroup prevents absence proof");
        n ← count_entries;
        _ ← checked (ensure (n =? 1) "unknown files prevent absence proof");
        d ← checked (digest m);
        id ← boot_id;
        let record := with_state (new_receipt m d id) Stopped true (Some "host_stop_before_launch") in
        _ ← write_manifest m;
        _ ← write_receipt record;
        mret record)).

(** [Manifest::reconcile] *)
Definition reconcile (m : Manifest) (reason : string) : M Receipt :=
  _ ← checked (validate is_root m);
  '(authority, _) ← authorize_cleanup m;
  held authority (
    _ ← lifecycle_lock false;
    owning (
      r ← manifest_receipt m;
      if bool_decide (r_state r = Stopped) then mret r else
      let r := with_state r Fenced false (Some reason) in
      _ ← write_receipt r;
      finish_cleanup r)).

(** *** Identity *)

(** [Manifest::identity] *)
Definition manifest_identity (m : Manifest) (r : Receipt) : M Identity :=
  i ← read_json (in_run IDENTITY);
  d ← checked (identity_digest i);
  let guest := Identity.guest i in
  let until := Bootstrap.valid_until_unix_ms guest in
  _ ← checked (ensure (bool_decide (r_identity_digest r = Some d)
                       && bool_decide (Bootstrap.allocation guest = allocation (owner (start m)))
                       && (Bootstrap.generation guest =? generation (owner (start m)))
                       && bool_decide (r_identity_expires_unix_ms r = Some until))
                 "allocation channel identity mismatch");
  _ ← checked (Bootstrap.validate guest);
  now ← wall_ms;
  _ ← checked (ensure (now <? until) "allocation channel identity expired");
  mret i.

(** [Manifest::verify_bootstrap] *)
Definition verify_bootstrap (m : Manifest) (r : Receipt) : M unit :=
  i ← manifest_identity m r;
  f ← read_file (in_jail m "bootstrap.img");
  _ ← checked (ensure (strlen (data f) + zeros f =? Bootstrap.DEVICE_BYTES) "invalid bootstrap artifact");
  device ← checked (Bootstrap.encode_device (Identity.guest i));
  _ ← checked (ensure (bool_decide (data f +:+ Bootstrap.zeros (Z.to_nat (zeros f)) = device))
                 "bootstrap artifact changed");
  checked (ensure (r_expires_unix_ms r <? Bootstrap.valid_until_unix_ms (Identity.guest i))
             "lease exceeds channel validity").
End ops.
