(* ===== verification/GuardianProcess.v ===== *)
(** * The guardian process (crates/sandbox-supervisor/src/guardian/process.rs, main.rs)

    Launching a virtual machine, its watchdog, the requests its guardian serves, and the life
    of an allocation's machine as events. *)

From stdpp Require Import pretty.
From S2P Require Import Prelude Ext Ids Guardian GuardianEnv GuardianOps.
From S2P Require GuestModel LaunchAuthority LaunchTheorems Fs Lease Bootstrap Identity Authority.
Import Identity(Identity, client_tls, TlsLib).
#[local] Existing Instances Guardian.State_eq_dec Guardian.Action_eq_dec Guardian.Owner_eq_dec.

Definition CONTROL_LIMIT : nat := 8.
Definition CONTROL_BYTES : Z := 65536.
(** Five seconds, at 5 milliseconds a round. *)
Definition LAUNCH_ROUNDS : nat := 1001.

Record Request : Type := { q_owner : Owner; q_action : Action }.

(** ** Frames *)

Section frames.
Context {A : Type} `{Serde A}.

(** [read_frame], of the bytes that came within the budget. *)
Definition read_frame (stream : bytes) : result anyhow A :=
  header ← ok_or (take_bytes 4 stream) "guardian connection closed";
  let len := Z.of_N (from_be_bytes 0 header.1) in
  _ ← ensure ((0 <? len) && (len <=? CONTROL_BYTES)) "invalid guardian frame";
  body ← ok_or (take_bytes (Z.to_nat len) header.2) "guardian connection closed";
  ok_or (from_slice body.1) "invalid guardian request".

(** [write_frame]: what the peer gets when nothing fails. *)
Definition write_frame (value : A) : result anyhow bytes :=
  bytes ← ok_or (to_vec value) "serde_json";
  _ ← ensure (negb (bool_decide (bytes = "")) && (strlen bytes <=? CONTROL_BYTES)) "invalid guardian frame";
  Ok (to_be_bytes 4 (N.of_nat (String.length bytes)) +:+ bytes).
End frames.

(** ** Updates of a receipt *)

Definition with_launch (r : Receipt) (ino pid ticks : Z) : Receipt := {|
  r_version := r_version r; r_owner := r_owner r; r_digest := r_digest r;
  r_host_boot_id := r_host_boot_id r; r_state := LaunchIntent; r_cleanup_confirmed := r_cleanup_confirmed r;
  r_renewal_revision := r_renewal_revision r; r_expires_unix_ms := r_expires_unix_ms r;
  r_guardian_host_pid := Some pid; r_guardian_start_ticks := Some ticks;
  r_firecracker_namespace_pid := r_firecracker_namespace_pid r; r_cgroup_inode := Some ino;
  r_reason := r_reason r; r_identity_digest := r_identity_digest r;
  r_identity_expires_unix_ms := r_identity_expires_unix_ms r; r_guest_boot_id := r_guest_boot_id r
|}.
Definition with_vm (r : Receipt) (pid : Z) : Receipt := {|
  r_version := r_version r; r_owner := r_owner r; r_digest := r_digest r;
  r_host_boot_id := r_host_boot_id r; r_state := Running; r_cleanup_confirmed := r_cleanup_confirmed r;
  r_renewal_revision := r_renewal_revision r; r_expires_unix_ms := r_expires_unix_ms r;
  r_guardian_host_pid := r_guardian_host_pid r; r_guardian_start_ticks := r_guardian_start_ticks r;
  r_firecracker_namespace_pid := Some pid; r_cgroup_inode := r_cgroup_inode r;
  r_reason := r_reason r; r_identity_digest := r_identity_digest r;
  r_identity_expires_unix_ms := r_identity_expires_unix_ms r; r_guest_boot_id := r_guest_boot_id r
|}.
Definition with_renewal (r : Receipt) (revision expires : Z) : Receipt := {|
  r_version := r_version r; r_owner := r_owner r; r_digest := r_digest r;
  r_host_boot_id := r_host_boot_id r; r_state := r_state r; r_cleanup_confirmed := r_cleanup_confirmed r;
  r_renewal_revision := revision; r_expires_unix_ms := expires;
  r_guardian_host_pid := r_guardian_host_pid r; r_guardian_start_ticks := r_guardian_start_ticks r;
  r_firecracker_namespace_pid := r_firecracker_namespace_pid r; r_cgroup_inode := r_cgroup_inode r;
  r_reason := r_reason r; r_identity_digest := r_identity_digest r;
  r_identity_expires_unix_ms := r_identity_expires_unix_ms r; r_guest_boot_id := r_guest_boot_id r
|}.
Definition with_guest (r : Receipt) (boot : string) : Receipt := {|
  r_version := r_version r; r_owner := r_owner r; r_digest := r_digest r;
  r_host_boot_id := r_host_boot_id r; r_state := r_state r; r_cleanup_confirmed := r_cleanup_confirmed r;
  r_renewal_revision := r_renewal_revision r; r_expires_unix_ms := r_expires_unix_ms r;
  r_guardian_host_pid := r_guardian_host_pid r; r_guardian_start_ticks := r_guardian_start_ticks r;
  r_firecracker_namespace_pid := r_firecracker_namespace_pid r; r_cgroup_inode := r_cgroup_inode r;
  r_reason := r_reason r; r_identity_digest := r_identity_digest r;
  r_identity_expires_unix_ms := r_identity_expires_unix_ms r; r_guest_boot_id := Some boot
|}.

(** [stat.rsplit_once(") ")], its second part. *)
Fixpoint rsplit_fields (s : string) : option string :=
  match s with
  | EmptyString => None
  | String c s' =>
      match rsplit_fields s' with
      | Some r => Some r
      | None => match s' with
                | String d rest => if is_byte 41 c && is_byte 32 d then Some rest else None
                | EmptyString => None
                end
      end
  end.

(** [parent.strip_prefix("/sys/fs/cgroup")] of a canonical path. *)
Definition strip_cgroup (parent : string) : option string :=
  if path_starts_with parent "/sys/fs/cgroup"
  then Some (String.concat "/" (drop 3 (components parent))) else None.

(** A process ends: the kernel closes its descriptors, which frees its locks, and kills every
    descendant of a namespace's init. *)
Definition die (g : Machine) : Machine :=
  let g' := set_locked (set_jailing (set_guardian g None) false) false in
  match guardian g with
  | None => g'
  | Some p => foldr (fun t g => match t with Binding l _ _ => drop_guard l g | Reading => g end) g' (threads p)
  end.

Section process.
Context `{GuardianEnv, UuidLib, Serde Manifest, Sha256, HexLib, Serde Authority.Retirement.Intent,
          Serde Authority.Saved, Serde LaunchAuthority.Required, Serde LaunchAuthority.Saved,
          Serde Receipt, Serde VmConfig, Serde Bootstrap.Bootstrap, Serde Identity, TlsLib,
          Serde Request, Serde Response}.

(** What runs in the guardian until its end: an error ends the process. *)
Definition until_death {A} (body : M A) : M A := fun g =>
  match body g with
  | (g', Ok a) => (g', Ok a)
  | (g', Err e) => (die g', Err e)
  end.

(** *** The guardian's memory *)

Definition the_guardian : M Process := fun g =>
  match guardian g with Some p => (g, Ok p) | None => (g, Err (failed "no guardian")) end.
(** [shared.lock()] *)
Definition registry : M Receipt :=
  p ← the_guardian; checked (ok_or (shared p) "guardian is starting").
Definition set_registry (r : Receipt) : M unit := modify (on_guardian (fun p => set_shared p (Some r))).
Definition deadline_value : M Z := p ← the_guardian; mret (Lease.value (deadline p)).
Definition deadline_stop : M unit := modify (on_guardian (fun p => set_deadline p (Lease.stop (deadline p)))).
Definition on_deadline {A} (m : ST Lease.Deadline anyhow A) : M A :=
  p ← the_guardian;
  let '(d, r) := m (deadline p) in
  _ ← modify (on_guardian (fun p => set_deadline p d));
  checked r.

(** *** Requests *)

(** The renewal of [handle]. [wall_ms() as u64] wraps. *)
Definition renew (record : Receipt) (revision expires : Z) : M unit :=
  _ ← checked (ensure (is_some_and (fun until => expires <? until) (r_identity_expires_unix_ms record))
                 "renewal exceeds channel validity");
  prior ← deadline_value;
  now ← boot_ms;
  _ ← checked (ensure ((now <? prior) && bool_decide (r_state record = Running))
                 "allocation lease is no longer live");
  _ ← checked (ensure ((0 <? revision) && (r_renewal_revision record <=? revision)) "stale lease revision");
  if revision =? r_renewal_revision record then
    checked (ensure (expires =? r_expires_unix_ms record) "conflicting renewal retry")
  else
    _ ← checked (ensure (r_expires_unix_ms record <=? expires) "renewal cannot shorten lease");
    wall ← wall_ms;
    boot ← boot_ms;
    _ ← checked (Lease.new expires wall boot);
    let renewed := with_renewal record revision expires in
    saved ← attempt (write_receipt renewed);
    match saved with
    | Err _ => _ ← deadline_stop; checked (Err "renewal persistence unconfirmed")
    | Ok _ =>
        wall ← wall_ms;
        boot ← boot_ms;
        _ ← on_deadline (Lease.extend prior expires (wall mod 2 ^ 64) boot);
        set_registry renewed
    end.

(** What [handle] does under the mutex. *)
Definition act (a : Action) : M Response :=
  record ← registry;
  _ ← (match a with
       | Inspect => mret tt
       | BindGuest => checked (Err "unreachable")
       | Stop =>
           let record := with_state record Stopping (r_cleanup_confirmed record) (Some "stop_requested") in
           _ ← set_registry record;
           saved ← attempt (write_receipt record);
           _ ← deadline_stop;
           match saved with Ok _ => mret tt | Err e => fail (Failed e) end
       | Renew revision expires => renew record revision expires
       end);
  record ← registry;
  mret {| receipt := Some record; error := None |}.

(** [deadline.value() > boot_ms()] *)
Definition lease_live : M bool := d ← deadline_value; now ← boot_ms; mret (now <? d).

(** [bind_guest], up to the guest's hello. *)
Definition bind_begin (m : Manifest) : M (Identity * GuestModel.Context) :=
  before ← registry;
  live ← (if bool_decide (r_state before = Running) then lease_live else mret false);
  _ ← checked (ensure live "allocation is not live");
  identity ← manifest_identity m before;
  now ← wall_ms;
  _ ← checked (client_tls identity now);
  _ ← unseen;
  let o := owner (start m) in
  _ ← checked (ensure (0 <? generation o) "invalid guest endpoint");
  _ ← unseen;
  mret (identity, {| GuestModel.allocation_id := allocation o;
                     GuestModel.generation := generation o;
                     GuestModel.boot_id := default "" (r_guest_boot_id before) |}).

(** [GuestClient::hello]: the checks of [call] on the context that was answered. *)
Definition hello (c : GuestModel.Context) : M GuestModel.Context :=
  reply ← ask (Hello c) (fun t => hello_reply t c);
  context ← checked reply;
  _ ← checked (ensure (bool_decide (GuestModel.allocation_id context = GuestModel.allocation_id c)
                       && (GuestModel.generation context =? GuestModel.generation c)
                       && negb (bool_decide (GuestModel.boot_id context = "")))
                 "guest response ownership mismatch");
  _ ← checked (ensure (bool_decide (GuestModel.boot_id context = GuestModel.boot_id c)
                       || bool_decide (GuestModel.boot_id c = "")) "guest boot changed");
  mret context.

(** [bind_guest], from the guest's hello on. *)
Definition bind_end (identity : Identity) (c : GuestModel.Context) : M Response :=
  context ← hello c;
  record ← registry;
  live ← (if bool_decide (r_state record = Running) then
            live ← lease_live;
            if live : bool then
              now ← wall_ms; mret (now <? Bootstrap.valid_until_unix_ms (Identity.guest identity))
            else mret false
          else mret false);
  _ ← checked (ensure live "allocation stopped during guest handshake");
  _ ← checked (ensure (is_none_or (fun id => bool_decide (id = GuestModel.boot_id context)) (r_guest_boot_id record))
                 "guest boot changed after binding");
  if is_some (r_guest_boot_id record) then mret {| receipt := Some record; error := None |} else
  let bound := with_guest record (GuestModel.boot_id context) in
  saved ← attempt (write_receipt bound);
  match saved with
  | Err _ => _ ← deadline_stop; checked (Err "guest binding persistence unconfirmed")
  | Ok _ => _ ← set_registry bound; mret {| receipt := Some bound; error := None |}
  end.

(** [handle]: it answers, or waits for the guest with its launch guard. *)
Definition handle (m : Manifest) (input : bytes) : M (Response + thread) :=
  request ← checked (read_frame input);
  _ ← checked (ensure (bool_decide (q_owner request = owner (start m))) "wrong guardian ownership");
  match q_action request with
  | BindGuest =>
      authority ← authorize_launch m;
      handing authority ('(identity, c) ← bind_begin m; mret (inr (Binding authority identity c)))
  | Renew _ _ as a => authority ← authorize_launch m; held authority (v ← act a; mret (inl v))
  | a => v ← act a; mret (inl v)
  end.

Definition rejected : Response := {| receipt := None; error := Some "request rejected or uncertain" |}.
Definition answer_of (r : result CleanupError Response) : Response :=
  match r with Ok r => r | Err _ => rejected end.

(** *** The guardian's threads *)

(** One round of the watchdog; [true]: the process has exited, with the code. *)
Definition watch : M (option Z) :=
  now ← boot_ms;
  p ← the_guardian;
  let '(d, expired) := Lease.expire now (deadline p) in
  _ ← modify (on_guardian (fun p => set_deadline p d));
  if expired || (Lease.value d =? 0) then
    _ ← attempt kill_group;
    _ ← modify die;
    mret (Some (if expired then 124 else 0))
  else mret None.

(** One round of reaping; [Some]: the process has exited. *)
Definition reap : M (option Z) :=
  status ← query wait_answer;
  match status with
  | VmExited =>
      record ← registry;
      let record := with_state record Stopping (r_cleanup_confirmed record) (Some "firecracker_exited") in
      _ ← set_registry record;
      _ ← write_receipt record;
      _ ← modify die;
      mret (Some 0)
  | OtherExited | NothingYet => mret None
  | NoChildren => checked (Err "Firecracker child ownership lost")
  | WaitFailed => checked (Err "guardian child wait")
  end.

(** [listener.accept()] of a connection: refused for another user or when all slots are taken. *)
Definition accept : M bool :=
  who ← query peer;
  uid ← checked who;
  p ← the_guardian;
  if negb (uid =? 0) then mret false else
  if (length (threads p) <? CONTROL_LIMIT)%nat then
    _ ← modify (on_guardian (fun p => set_threads p (threads p ++ [Reading]))); mret true
  else mret false.

Definition set_thread (i : nat) (t : thread) : M unit :=
  modify (on_guardian (fun p => set_threads p (<[i := t]> (threads p)))).
Definition end_thread (i : nat) : M unit :=
  modify (on_guardian (fun p => set_threads p (delete i (threads p)))).

(** A connection's thread gets its request. *)
Definition serve (m : Manifest) (i : nat) (input : bytes) : M (option Response) :=
  p ← the_guardian;
  match threads p !! i with
  | Some Reading =>
      r ← attempt (handle m input);
      match r with
      | Ok (inr t) => _ ← set_thread i t; mret None
      | Ok (inl v) => _ ← end_thread i; mret (Some v)
      | Err _ => _ ← end_thread i; mret (Some rejected)
      end
  | _ => mret None
  end.
(** A waiting thread gets the guest's hello. *)
Definition finish_binding (i : nat) : M (option Response) :=
  p ← the_guardian;
  match threads p !! i with
  | Some (Binding authority identity c) =>
      r ← attempt (bind_end identity c);
      _ ← modify (drop_guard authority);
      _ ← end_thread i;
      mret (Some (answer_of r))
  | _ => mret None
  end.

(** *** namespace_init *)

(** [process_identity] *)
Definition process_identity : M (Z * Z) :=
  s ← query stat;
  pid ← checked (ok_or (head (split_whitespace s)) "missing guardian PID");
  pid ← checked (ok_or (parse_unsigned U32_MAX pid) "invalid digit found in string");
  fields ← checked (ok_or (rsplit_fields s) "invalid guardian stat");
  ticks ← checked (ok_or (split_whitespace fields !! 19%nat) "missing guardian start time");
  ticks ← checked (ok_or (parse_unsigned U64_MAX ticks) "invalid digit found in string");
  mret (pid, ticks).

(** The jailer's arguments. *)
Definition jailer_args (m : Manifest) (parent_name : string) : list string :=
  let run := path_join (directory m) "run" in
  let c := config m in
  ["--id"; hyphenated (uuid (allocation (owner (start m)))); "--exec-file"; path_join run "firecracker";
   "--uid"; pretty (jail_uid c); "--gid"; pretty (jail_gid c);
   "--chroot-base-dir"; path_join run "chroots";
   "--new-pid-ns"; "--cgroup-version"; "2"; "--parent-cgroup"; parent_name;
   "--cgroup"; "cpu.max=" +:+ pretty (vcpu (start m) * 100000) +:+ " 100000";
   "--cgroup"; "memory.max=" +:+ pretty (MiB (memory_mib (start m) + 128));
   "--cgroup"; "pids.max=64"; "--"; "--no-api"; "--config-file"; "/config.json"].

(** The wait for the jailer's pid file. *)
Fixpoint await_vm (n : nat) : M Z :=
  match n with
  | O => checked (Err "Firecracker child identity unconfirmed")
  | S n =>
      file ← query pid_file;
      match file with
      | Some value =>
          pid ← checked (ok_or (parse_unsigned U32_MAX (trim value)) "invalid digit found in string");
          _ ← checked (ensure (1 <? pid) "invalid Firecracker child PID");
          mret pid
      | None =>
          status ← query jailer_status;
          status ← checked status;
          _ ← checked (ensure (is_none_or (fun ok => ok) status) "jailer launch failed");
          await_vm n
      end
  end.

(** [Command::spawn] of the jailer. *)
Definition spawn_jailer (m : Manifest) (parent_name : string) : M unit := syscall (fun g =>
  Ok (set_jailing (record g (Launch (boot_id_of (boots g)) (jailer_args m parent_name))) true, tt)).

(** From the lifecycle lock to the watchdog: the receipt and the deadline. *)
Definition eligible (m : Manifest) : M (Receipt * Lease.Deadline * (Z * Z)) :=
  receipt ← manifest_receipt m;
  id ← boot_id;
  _ ← checked (ensure (bool_decide (r_state receipt = Prepared) && bool_decide (r_host_boot_id receipt = id))
                 "allocation is not eligible for launch");
  _ ← verify_bootstrap m receipt;
  identity ← process_identity;
  _ ← unseen;
  now ← wall_ms;
  boot ← boot_ms;
  d ← checked (Lease.new (r_expires_unix_ms receipt) now boot);
  mret (receipt, d, identity).
(** The control group and the watchdog over it. *)
Definition own_group (m : Manifest) (d : Lease.Deadline) : M unit :=
  _ ← unseen;
  idle ← query parent_idle;
  _ ← checked (ensure idle "invalid delegated guardian cgroup parent");
  _ ← unseen;
  _ ← create_group;
  _ ← unseen;
  syscall (fun g => Ok (set_guardian g (Some {| deadline := d; shared := None; threads := []; vm_pid := 0 |}), tt)).
(** The intent, then the virtual machine. *)
Definition start_vm (m : Manifest) (r : Receipt) (identity : Z * Z) : M (Receipt * Z) :=
  ino ← group_metadata;
  ino ← checked (ok_or ino "not found");
  let r := with_launch r ino identity.1 identity.2 in
  _ ← write_receipt r;
  _ ← bind_socket SOCKET;
  _ ← unseen;
  parent_name ← checked (ok_or (strip_cgroup (cgroup_parent (config m))) "prefix not found");
  _ ← spawn_jailer m parent_name;
  pid ← await_vm LAUNCH_ROUNDS;
  alive ← query (fun t => process_exists t pid);
  _ ← checked (ensure alive "Firecracker child already gone");
  let r := with_vm r pid in
  _ ← write_receipt r;
  mret (r, pid).

(** From the lifecycle lock to the loop of [namespace_init]. *)
Definition start_guardian (m : Manifest) : M unit :=
  '(r, d, identity) ← eligible m;
  _ ← own_group m d;
  '(r, pid) ← start_vm m r identity;
  modify (on_guardian (fun p =>
    {| deadline := deadline p; shared := Some r; threads := []; vm_pid := pid |})).
(** [namespace_init], up to its loop. *)
Definition namespace_init (m : Manifest) : M unit :=
  _ ← checked (ensure is_root "allocation guardian requires root");
  first ← query is_init;
  _ ← checked (ensure first "guardian must be namespace init");
  _ ← checked (validate is_root m);
  authority ← authorize_launch m;
  held authority (
    _ ← lifecycle_lock true;
    until_death (start_guardian m)).

(** [main], as [__guardian-init]. *)
Definition guardian_init : M unit :=
  m ← read_json MANIFEST;
  namespace_init m.

(** *** The other processes *)

(** A connection is made: what it will be served as. *)
Definition connect : M nat := fun g =>
  match guardian g with
  | Some {| shared := Some _; threads := l |} => (g, Ok (length l))
  | _ => (g, Err (failed "connection refused"))
  end.
(** A call of the guardian from another process: the connection, one request, its answer. What
    ends the guardian closes the connection. *)
Definition converse (m : Manifest) (a : Action) : M Response :=
  slot ← connect;
  frame ← checked (write_frame {| q_owner := owner (start m); q_action := a |});
  taken ← until_death accept;
  _ ← checked (ensure taken "guardian connection closed");
  first ← until_death (serve m slot frame);
  match first with
  | Some v => mret v
  | None => v ← until_death (finish_binding slot); checked (ok_or v "guardian connection closed")
  end.
Definition exchange (m : Manifest) (a : Action) : M Response := fun g =>
  match converse m a g with
  | (g', Err Killed) => (g', Err (failed "guardian connection closed"))
  | r => r
  end.

(** [control] *)
Definition control (m : Manifest) (a : Action) : M Response :=
  _ ← checked (ensure is_root "allocation guardian requires root");
  _ ← checked (validate is_root m);
  _ ← unseen;
  response ← exchange m a;
  match receipt response with
  | None => mret response
  | Some r =>
      d ← checked (digest m);
      id ← boot_id;
      _ ← checked (ensure (bool_decide (r_owner r = owner (start m)) && bool_decide (r_digest r = d)
                           && bool_decide (r_host_boot_id r = id))
                     "guardian response ownership mismatch");
      mret response
  end.

(** [launch], up to the child: it answers, or the child was spawned. *)
Definition launch_begin (m : Manifest) : M (option Receipt) :=
  _ ← checked (validate is_root m);
  existing ← attempt (prepare m);
  match existing with
  | Err OwnershipBusy =>
      response ← control m Inspect;
      _ ← checked (ensure (is_none (error response)) "active guardian inspection failed");
      r ← checked (ok_or (receipt response) "active guardian receipt missing");
      mret (Some r)
  | Err e => fail (Failed e)
  | Ok r =>
      if bool_decide (r_state r = Stopped) then mret (Some r) else
      if negb (bool_decide (r_state r = Prepared)) then
        r ← reconcile m "guardian_recovery_fence"; mret (Some r)
      else
      id ← boot_id;
      _ ← checked (ensure (bool_decide (r_host_boot_id r = id))
                     "prepared allocation belongs to another host boot");
      authority ← authorize_launch m;
      held authority (_ ← unseen; _ ← unseen; _ ← unseen; mret None)
  end.
(** [launch], once the child has ended; [None] is a death by a signal. *)
Definition exit_reason (status : option Z) : string :=
  match status with
  | Some code => if code =? 124 then "lease_expired" else if code =? 0 then "guardian_stopped" else "guardian_lost"
  | None => "guardian_lost"
  end.
Definition launch_end (m : Manifest) (status : option Z) : M Receipt := reconcile m (exit_reason status).

(** [Manifest::guest_client], up to the connection: a live owner, its identity and a bound boot. *)
Definition guest_client (m : Manifest) : M GuestModel.Context :=
  response ← control m Inspect;
  _ ← checked (ensure (is_none (error response)) "guardian inspection uncertain");
  r ← checked (ok_or (receipt response) "guardian receipt missing");
  _ ← checked (ensure (bool_decide (r_state r = Running)) "allocation is not live");
  now ← wall_ms;
  _ ← checked (ensure (now <? r_expires_unix_ms r) "allocation is not live");
  boot ← checked (ok_or (r_guest_boot_id r) "guest boot not bound");
  i ← manifest_identity m r;
  now ← wall_ms;
  _ ← checked (client_tls i now);
  _ ← unseen;
  let o := owner (start m) in
  _ ← checked (ensure (0 <? generation o) "invalid guest endpoint");
  mret {| GuestModel.allocation_id := allocation o; GuestModel.generation := generation o;
          GuestModel.boot_id := boot |}.

(** ** The life of an allocation's machine *)

Inductive event : Type :=
| EPrepare
| ELaunch
| EChildEnded (status : option Z)
| EReconcile (reason : string)
| EFence
| EControl (a : Action)
| EGuestClient
| EInit
| EWatch
| EReap
| EAccept
| ERequest (i : nat) (input : bytes)
| EHello (i : nat)
| EMove (mv : move)
| ELedger (c : LaunchTheorems.call)
| EReboot (k : nat) (junk : string -> bytes) (wreck : string -> node -> option node) (lost : bool)
    (ledger_k : nat) (ledger_junk : N -> bytes) (later : nat -> option bytes).

Inductive answer : Type :=
| ANothing
| AReceipt (r : result failure Receipt)
| AResponse (r : result failure Response).

(** A crash: the directory is one of those it may be, files that were not synced have any
    contents, [run] is whatever is left of it; or the directory itself is lost, as nothing syncs
    its name. Processes and control groups are gone. *)
Definition crash_node (junk : string -> bytes) (wreck : string -> node -> option node)
    (name : string) (n : node) : option node :=
  if starts_with name "run/" then wreck name n else
  Some match n with
  | File f => File (if synced f then f else append (junk name)
                      {| data := ""; zeros := 0; f_uid := f_uid f; f_gid := f_gid f;
                         f_mode := f_mode f; synced := false |})
  | n => n
  end.
Definition crash_names (junk : string -> bytes) (wreck : string -> node -> option node)
    (v : gmap string node) : gmap string node := map_imap (crash_node junk wreck) v.
(** One of the directories that a crash may bring back. *)
Definition survivor (k : nat) (g : Machine) : option (gmap string node) :=
  match k with
  | O => home g
  | S k => match earlier g !! k with Some v => Some v | None => home g end
  end.
Definition reboot (k : nat) (junk : string -> bytes) (wreck : string -> node -> option node) (lost : bool)
    (w : Fs.World) (g : Machine) : Machine := {|
  home := if lost then None else crash_names junk wreck <$> survivor k g;
  earlier := []; group := None; next_inode := next_inode g; jailing := false; locked := false;
  guardian := None; boots := S (boots g); ledger := w;
  trace := if lost then Lost :: trace g else trace g
|}.

Definition step (m : Manifest) (e : event) (g : Machine) : Machine * answer :=
  let receipt_of r := let '(g', r) := r in (g', AReceipt r) in
  let receipt_or_none (r : Machine * result failure (option Receipt)) :=
    match r with
    | (g', Ok (Some r)) => (g', AReceipt (Ok r))
    | (g', Ok None) => (g', ANothing)
    | (g', Err e) => (g', AReceipt (Err e))
    end in
  let response_of (r : Machine * result failure (option Response)) :=
    match r with
    | (g', Ok (Some v)) => (g', AResponse (Ok v))
    | (g', Ok None) => (g', ANothing)
    | (g', Err e) => (g', AResponse (Err e))
    end in
  match e with
  | EPrepare => receipt_of (prepare m g)
  | ELaunch => receipt_or_none (launch_begin m g)
  | EChildEnded s => receipt_of (launch_end m s g)
  | EReconcile why => receipt_of (reconcile m why g)
  | EFence => receipt_of (fence_unstarted m g)
  | EControl a => let '(g', r) := control m a g in (g', AResponse r)
  | EGuestClient => ((guest_client m g).1, ANothing)
  | EInit => ((guardian_init g).1, ANothing)
  | EWatch => ((until_death watch g).1, ANothing)
  | EReap => ((until_death reap g).1, ANothing)
  | EAccept => ((until_death accept g).1, ANothing)
  | ERequest i input => response_of (until_death (serve m i input) g)
  | EHello i => response_of (until_death (finish_binding i) g)
  | EMove mv => (move_of mv g, ANothing)
  | ELedger c => (set_ledger g (LaunchTheorems.run c (ledger g)), ANothing)
  | EReboot k junk wreck lost lk lj later =>
      (reboot k junk wreck lost (LaunchTheorems.reboot lk lj later (ledger g)) g, ANothing)
  end.

Definition runs (m : Manifest) (es : list event) (g : Machine) : Machine :=
  foldl (fun g e => (step m e g).1) g es.
End process.
