(* ===== verification/HostModel.v ===== *)
(** * The host's retained records (crates/sandbox-supervisor/src/host)

    The journal of one host: a record for every allocation it was ever asked about, and
    the rules by which a record may change. The functions here are those of the source
    that only look at or rewrite a record; [HostOps] has the operations that use them. *)

From S2P Require Import Prelude Ext Ids GuestModel GuestWire Wire Fs.
From S2P Require Authority LaunchAuthority Resources Guardian Command Files Output History Idempotency.
#[local] Existing Instance Authority.Permit_eq_dec.
#[local] Existing Instance Authority.Retirement.Request_eq_dec.
#[local] Existing Instance Guardian.Manifest_eq_dec.
#[local] Existing Instance Guardian.Receipt_eq_dec.
#[local] Existing Instance Guardian.Plan_eq_dec.
#[local] Existing Instance Guardian.State_eq_dec.
#[local] Existing Instance Command.CommandRecord_eq_dec.
#[local] Existing Instance Files.FileRecord_eq_dec.
#[local] Existing Instance Output.OutputTicket_eq_dec.
#[local] Existing Instance Output.OutputPlans_eq_dec.
#[local] Existing Instance History.Domain_eq_dec.
#[local] Existing Instance History.Barrier_eq_dec.

Abbreviation Domain := History.Domain (only parsing).
Abbreviation Barrier := History.Barrier (only parsing).
Abbreviation Manifest := Guardian.Manifest (only parsing).
Abbreviation RetirementRequest := Authority.Retirement.Request (only parsing).

(** ** mod.rs: configuration *)

Record Image : Type := { kernel : Guardian.Artifact; rootfs : Guardian.Artifact }.
Record Capacity : Type := { cap_vcpu : Z; cap_memory_mib : Z; cap_disk_mib : Z }.
Record Config : Type := {
  capabilities : option Resources.Capabilities;
  launch_permits_required : bool;
  host : HostId;
  epoch : Z;
  state_root : string;
  cgroup_parent : string;
  guardian_binary : string;
  firecracker : Guardian.Artifact;
  jailer : Guardian.Artifact;
  images : gmap string Image;
  jail_uid : Z;
  jail_gid : Z;
  capacity : Capacity;
}.

(** [self.state_root.join("a")], where the launch authority and the allocations live. *)
Definition allocations_root (c : Config) : string := Guardian.path_join (state_root c) "a".

(** [Config::guardian_config] *)
Definition guardian_config (c : Config) (i : Image) : Guardian.Config := {|
  Guardian.state_root := allocations_root c;
  Guardian.cgroup_parent := cgroup_parent c;
  Guardian.firecracker := firecracker c;
  Guardian.jailer := jailer c;
  Guardian.kernel := kernel i;
  Guardian.rootfs := rootfs i;
  Guardian.jail_uid := jail_uid c;
  Guardian.jail_gid := jail_gid c
|}.

(** [image_admission::validate]: an image's identifier names the bytes to be staged. *)
Definition validate_images (m : gmap string Image) : result anyhow unit :=
  for_each (fun e : string * Image =>
      ensure (Resources.valid_image_digest e.1
              && bool_decide (e.1 = "sha256:" +:+ Guardian.artifact_sha256 (rootfs e.2)))
        "configured image identifier does not match rootfs artifact digest")
    (Idempotency.sort_keys (map_to_list m)).

(** ** journal.rs: data *)

Definition MAX_BYTES : Z := 16 * 1024 * 1024.
Definition MAX_RECORDS : Z := 1024.

(** history.rs: a host floor below which operations of a live guest were retired. *)
Record Retirement : Type := {
  barrier : Barrier;
  revision : Z;
  requested_through : OperationId;
  completed : bool;
}.
#[export] Instance Retirement_eq_dec : EqDecision Retirement.
Proof. solve_decision. Defined.

(** released_history.rs: the same for a stopped allocation. *)
Record ReleasedRetirement : Type := {
  rel_version : Z;
  rel_through : OperationId;
  rel_requested_through : OperationId;
  rel_revision : Z;
  rel_reporting_epoch : Z;
}.
#[export] Instance ReleasedRetirement_eq_dec : EqDecision ReleasedRetirement.
Proof. solve_decision. Defined.

(** archive.rs *)
Record ArchiveRecord : Type := {
  ticket : Output.OutputTicket;
  plans : option Output.OutputPlans;
  archive_revision : Z;
}.
#[export] Instance ArchiveRecord_eq_dec : EqDecision ArchiveRecord.
Proof. solve_decision. Defined.

(** metadata_retirement.rs: [Saved] *)
Record MetadataSaved : Type := { plan : Guardian.Plan; removed : bool }.
#[export] Instance MetadataSaved_eq_dec : EqDecision MetadataSaved.
Proof. solve_decision. Defined.

(** [journal::Record]; the locks it shares between its copies are not data. *)
Record Record_ : Type := {
  owner : Ownership;
  retirement : option Authority.Retirement.Request;
  metadata_retirement : option MetadataSaved;
  revisions : gmap string Z;
  create : option CreateRequest;
  manifest : option Guardian.Manifest;
  dispatched : bool;
  stopped : bool;
  released : bool;
  commands : gmap string Command.CommandRecord;
  files : gmap string Files.FileRecord;
  archives : gmap string ArchiveRecord;
  command_history : option Retirement;
  file_history : option Retirement;
  released_commands : option ReleasedRetirement;
  released_files : option ReleasedRetirement;
  lease_revision : Z;
  lease_request : option (Z * Z);
}.
#[export] Instance Record_eq_dec : EqDecision Record_.
Proof. solve_decision. Defined.

Record Journal : Type := {
  launch_authority : option LaunchAuthority.Checkpoint;
  version : Z;
  journal_host : HostId;
  journal_epoch : Z;
  records : gmap string Record_;
  poisoned : bool;
}.

Definition set_retirement (r : Record_) (v : option Authority.Retirement.Request) : Record_ := {|
  owner := owner r; retirement := v; metadata_retirement := metadata_retirement r;
  revisions := revisions r; create := create r; manifest := manifest r;
  dispatched := dispatched r; stopped := stopped r; released := released r;
  commands := commands r; files := files r; archives := archives r;
  command_history := command_history r; file_history := file_history r;
  released_commands := released_commands r; released_files := released_files r;
  lease_revision := lease_revision r; lease_request := lease_request r
|}.
Definition set_metadata_retirement (r : Record_) (v : option MetadataSaved) : Record_ := {|
  owner := owner r; retirement := retirement r; metadata_retirement := v;
  revisions := revisions r; create := create r; manifest := manifest r;
  dispatched := dispatched r; stopped := stopped r; released := released r;
  commands := commands r; files := files r; archives := archives r;
  command_history := command_history r; file_history := file_history r;
  released_commands := released_commands r; released_files := released_files r;
  lease_revision := lease_revision r; lease_request := lease_request r
|}.
Definition set_revisions (r : Record_) (v : gmap string Z) : Record_ := {|
  owner := owner r; retirement := retirement r; metadata_retirement := metadata_retirement r;
  revisions := v; create := create r; manifest := manifest r; dispatched := dispatched r;
  stopped := stopped r; released := released r; commands := commands r; files := files r;
  archives := archives r; command_history := command_history r; file_history := file_history r;
  released_commands := released_commands r; released_files := released_files r;
  lease_revision := lease_revision r; lease_request := lease_request r
|}.
Definition set_dispatched (r : Record_) (v : bool) : Record_ := {|
  owner := owner r; retirement := retirement r; metadata_retirement := metadata_retirement r;
  revisions := revisions r; create := create r; manifest := manifest r; dispatched := v;
  stopped := stopped r; released := released r; commands := commands r; files := files r;
  archives := archives r; command_history := command_history r; file_history := file_history r;
  released_commands := released_commands r; released_files := released_files r;
  lease_revision := lease_revision r; lease_request := lease_request r
|}.
Definition set_stopped (r : Record_) (v : bool) : Record_ := {|
  owner := owner r; retirement := retirement r; metadata_retirement := metadata_retirement r;
  revisions := revisions r; create := create r; manifest := manifest r;
  dispatched := dispatched r; stopped := v; released := released r; commands := commands r;
  files := files r; archives := archives r; command_history := command_history r;
  file_history := file_history r; released_commands := released_commands r;
  released_files := released_files r; lease_revision := lease_revision r;
  lease_request := lease_request r
|}.
Definition set_released (r : Record_) (v : bool) : Record_ := {|
  owner := owner r; retirement := retirement r; metadata_retirement := metadata_retirement r;
  revisions := revisions r; create := create r; manifest := manifest r;
  dispatched := dispatched r; stopped := stopped r; released := v; commands := commands r;
  files := files r; archives := archives r; command_history := command_history r;
  file_history := file_history r; released_commands := released_commands r;
  released_files := released_files r; lease_revision := lease_revision r;
  lease_request := lease_request r
|}.
Definition set_commands (r : Record_) (v : gmap string Command.CommandRecord) : Record_ := {|
  owner := owner r; retirement := retirement r; metadata_retirement := metadata_retirement r;
  revisions := revisions r; create := create r; manifest := manifest r;
  dispatched := dispatched r; stopped := stopped r; released := released r; commands := v;
  files := files r; archives := archives r; command_history := command_history r;
  file_history := file_history r; released_commands := released_commands r;
  released_files := released_files r; lease_revision := lease_revision r;
  lease_request := lease_request r
|}.
Definition set_files (r : Record_) (v : gmap string Files.FileRecord) : Record_ := {|
  owner := owner r; retirement := retirement r; metadata_retirement := metadata_retirement r;
  revisions := revisions r; create := create r; manifest := manifest r;
  dispatched := dispatched r; stopped := stopped r; released := released r;
  commands := commands r; files := v; archives := archives r;
  command_history := command_history r; file_history := file_history r;
  released_commands := released_commands r; released_files := released_files r;
  lease_revision := lease_revision r; lease_request := lease_request r
|}.
Definition set_archives (r : Record_) (v : gmap string ArchiveRecord) : Record_ := {|
  owner := owner r; retirement := retirement r; metadata_retirement := metadata_retirement r;
  revisions := revisions r; create := create r; manifest := manifest r;
  dispatched := dispatched r; stopped := stopped r; released := released r;
  commands := commands r; files := files r; archives := v;
  command_history := command_history r; file_history := file_history r;
  released_commands := released_commands r; released_files := released_files r;
  lease_revision := lease_revision r; lease_request := lease_request r
|}.
Definition set_command_history (r : Record_) (v : option Retirement) : Record_ := {|
  owner := owner r; retirement := retirement r; metadata_retirement := metadata_retirement r;
  revisions := revisions r; create := create r; manifest := manifest r;
  dispatched := dispatched r; stopped := stopped r; released := released r;
  commands := commands r; files := files r; archives := archives r; command_history := v;
  file_history := file_history r; released_commands := released_commands r;
  released_files := released_files r; lease_revision := lease_revision r;
  lease_request := lease_request r
|}.
Definition set_file_history (r : Record_) (v : option Retirement) : Record_ := {|
  owner := owner r; retirement := retirement r; metadata_retirement := metadata_retirement r;
  revisions := revisions r; create := create r; manifest := manifest r;
  dispatched := dispatched r; stopped := stopped r; released := released r;
  commands := commands r; files := files r; archives := archives r;
  command_history := command_history r; file_history := v;
  released_commands := released_commands r; released_files := released_files r;
  lease_revision := lease_revision r; lease_request := lease_request r
|}.
Definition set_released_commands (r : Record_) (v : option ReleasedRetirement) : Record_ := {|
  owner := owner r; retirement := retirement r; metadata_retirement := metadata_retirement r;
  revisions := revisions r; create := create r; manifest := manifest r;
  dispatched := dispatched r; stopped := stopped r; released := released r;
  commands := commands r; files := files r; archives := archives r;
  command_history := command_history r; file_history := file_history r; released_commands := v;
  released_files := released_files r; lease_revision := lease_revision r;
  lease_request := lease_request r
|}.
Definition set_released_files (r : Record_) (v : option ReleasedRetirement) : Record_ := {|
  owner := owner r; retirement := retirement r; metadata_retirement := metadata_retirement r;
  revisions := revisions r; create := create r; manifest := manifest r;
  dispatched := dispatched r; stopped := stopped r; released := released r;
  commands := commands r; files := files r; archives := archives r;
  command_history := command_history r; file_history := file_history r;
  released_commands := released_commands r; released_files := v;
  lease_revision := lease_revision r; lease_request := lease_request r
|}.
Definition set_create (r : Record_) (c : CreateRequest) (m : Guardian.Manifest) : Record_ := {|
  owner := owner r; retirement := retirement r; metadata_retirement := metadata_retirement r;
  revisions := revisions r; create := Some c; manifest := Some m; dispatched := dispatched r;
  stopped := stopped r; released := released r; commands := commands r; files := files r;
  archives := archives r; command_history := command_history r; file_history := file_history r;
  released_commands := released_commands r; released_files := released_files r;
  lease_revision := lease_revision r; lease_request := lease_request r
|}.
Definition set_lease (r : Record_) (revision : Z) (request : option (Z * Z)) : Record_ := {|
  owner := owner r; retirement := retirement r; metadata_retirement := metadata_retirement r;
  revisions := revisions r; create := create r; manifest := manifest r;
  dispatched := dispatched r; stopped := stopped r; released := released r;
  commands := commands r; files := files r; archives := archives r;
  command_history := command_history r; file_history := file_history r;
  released_commands := released_commands r; released_files := released_files r;
  lease_revision := revision; lease_request := request
|}.

Definition set_records (j : Journal) (m : gmap string Record_) : Journal := {|
  launch_authority := launch_authority j; version := version j; journal_host := journal_host j;
  journal_epoch := journal_epoch j; records := m; poisoned := poisoned j
|}.
Definition set_poisoned (j : Journal) (b : bool) : Journal := {|
  launch_authority := launch_authority j; version := version j; journal_host := journal_host j;
  journal_epoch := journal_epoch j; records := records j; poisoned := b
|}.
Definition set_checkpoint (j : Journal) (c : LaunchAuthority.Checkpoint) : Journal := {|
  launch_authority := Some c; version := version j; journal_host := journal_host j;
  journal_epoch := journal_epoch j; records := records j; poisoned := poisoned j
|}.
Definition set_journal_epoch (j : Journal) (e : Z) : Journal := {|
  launch_authority := launch_authority j; version := version j; journal_host := journal_host j;
  journal_epoch := e; records := records j; poisoned := poisoned j
|}.

(** ** mod.rs: helpers *)

Definition uncertain : Status :=
  unavailable "host operation uncertain; inspect retained allocation before retry".

(** [result.map_err(uncertain)?] and the like *)
Definition or_uncertain {E A} (r : result E A) : result Status A := map_err (fun _ => uncertain) r.
Definition or_status {E A} (r : result E A) (s : Status) : result Status A := map_err (fun _ => s) r.

Definition same_allocation (a b : Ownership) : bool :=
  bool_decide (o_host_id a = o_host_id b) && bool_decide (o_project_id a = o_project_id b)
  && bool_decide (o_sandbox_id a = o_sandbox_id b)
  && bool_decide (o_allocation_id a = o_allocation_id b)
  && (o_generation a =? o_generation b) && (o_supervisor_epoch a =? o_supervisor_epoch b).

(** [deadline(until)] at the wall clock [now]. *)
Definition deadline_at (now until : Z) : result Status unit :=
  let remaining := default 0 (i64_checked_sub until now) in
  ensure (contains 1 300000 remaining)
    (failed_precondition "expired or unbounded claim/lease").

(** ** retirement.rs *)

(** [retirement::check] *)
Definition check_retirement (r : Record_) : result Status unit :=
  ensure (is_none (retirement r))
    (failed_precondition "allocation retirement in progress; no release proof").

Section pure.
Context `{UuidLib, Serde Authority.Retirement.Intent, Serde Manifest, Serde Files.Upload,
          Serde Files.FileRecord, Sha256, HexLib}.

(** [id.parse::<OperationId>()] *)
Definition parse_operation (id : string) : result anyhow OperationId :=
  map_err (fun _ => "malformed operation identity") (parse KOperation id).

(** The entries of a [BTreeMap], in its order. *)
Definition entries {A} (m : gmap string A) : list (string * A) :=
  Idempotency.sort_keys (map_to_list m).

(** What the uploads of an allocation reserve, and how many files the host retains. *)
Definition reserved_bytes (m : gmap string Files.FileRecord) : Z := sum_by (fun e => Files.size e.2) (entries m).
Definition host_files (m : gmap string Record_) : Z :=
  sum_by (fun e => Z.of_nat (size (files e.2))) (entries m).

(** ** released_history.rs *)

Definition released_slot (r : Record_) (d : Domain) : option ReleasedRetirement :=
  match d with History.Commands => released_commands r | History.Files => released_files r end.
Definition set_released_slot (r : Record_) (d : Domain) (v : option ReleasedRetirement) : Record_ :=
  match d with History.Commands => set_released_commands r v | History.Files => set_released_files r v end.

(** [released_history::check] *)
Definition check_released (r : Record_) (d : Domain) (id : OperationId) : result Status unit :=
  ensure (negb (is_some_and (fun v => id_leb id (rel_through v)) (released_slot r d)))
    (failed_precondition "destroyed allocation history retired").

Definition valid_id (id : OperationId) : result anyhow unit :=
  _ ← History.advance_operation_id id None; Ok tt.

(** The names of the retained operations of a domain. *)
Definition operation_names (r : Record_) (d : Domain) : list string :=
  match d with
  | History.Commands => (entries (commands r)).*1
  | History.Files => (entries (files r)).*1
  end.

(** [released_history::covered] *)
Fixpoint covered_names (through : OperationId) (names : list string) : result anyhow (list string) :=
  match names with
  | [] => Ok []
  | name :: names =>
      id ← parse_operation name;
      _ ← valid_id id;
      found ← covered_names through names;
      Ok (if id_leb id through then name :: found else found)
  end.
Definition covered (r : Record_) (d : Domain) (through : OperationId) : result anyhow (list string) :=
  covered_names through (operation_names r d).

(** The evidence an executed operation names: its guest, or [None] for one never started. *)
Definition command_evidence (r : Record_) (name : string) : result anyhow (option Context) :=
  c ← ok_or (commands r !! name) "command missing";
  _ ← ensure (Command.finished c) "unresolved command";
  if Command.not_started c then Ok None else
  id ← parse_operation name;
  receipt ← ok_or (Command.receipt c) "receipt missing";
  _ ← Command.validate_receipt c id receipt;
  context ← ok_or (Command.context c) "original boot missing";
  Ok (Some context).
Definition file_evidence (r : Record_) (name : string) : result anyhow (option Context) :=
  f ← ok_or (files r !! name) "file missing";
  _ ← Files.record_validate f;
  if Files.not_started f then Ok None else
  _ ← ensure ((Files.state f =? 3) || (Files.state f =? 5)) "unresolved upload";
  context ← ok_or (Files.context f) "original boot missing";
  Ok (Some context).

(** [released_history::eligible]; [read] is the read of the allocation's receipt file by
    [Manifest::receipt]. *)
Definition eligible_released (read : Manifest -> result anyhow Guardian.Receipt) (r : Record_)
    (d : Domain) (names : list string) : result anyhow unit :=
  boot ← match manifest r with
         | None => Ok None
         | Some m =>
             receipt ← read m;
             _ ← Guardian.validate_receipt m receipt;
             Ok (Guardian.r_guest_boot_id receipt)
         end;
  for_each (fun name =>
      evidence ← match d with
                 | History.Commands => command_evidence r name
                 | History.Files => file_evidence r name
                 end;
      match evidence with
      | None => Ok tt
      | Some context =>
          ensure (bool_decide (to_string (allocation_id context) = o_allocation_id (owner r))
                  && (generation context =? o_generation (owner r))
                  && bool_decide (boot = Some (boot_id context))) "original boot mismatch"
      end) names.

(** Removal of one operation with everything retained for it. *)
Definition remove_operation (d : Domain) (r : Record_) (id : string) : Record_ :=
  match d with
  | History.Commands =>
      set_revisions (set_archives (set_commands r (delete id (commands r))) (delete id (archives r)))
        (delete id (revisions r))
  | History.Files =>
      set_revisions (set_files r (delete id (files r))) (delete id (revisions r))
  end.

(** [OperationId::max] *)
Definition id_max (a b : OperationId) : OperationId := if id_leb a b then b else a.

(** [released_history::reclaim] *)
Definition reclaim (read : Manifest -> result anyhow Guardian.Receipt) (d : Domain)
    (through : OperationId) (rev e : Z) : ST Record_ anyhow OperationId :=
  _ ← lift (valid_id through);
  r ← get;
  _ ← lift (ensure (stopped r && (0 <? rev) && (o_supervisor_epoch (owner r) <=? e))
              "invalid destruction retirement");
  completed ← (match released_slot r d with
    | Some old =>
        _ ← lift (ensure ((rel_revision old <=? rev) && (rel_reporting_epoch old <=? e))
                    "stale destruction retirement");
        _ ← lift (ensure (negb (rev =? rel_revision old)
                          || (bool_decide (through = rel_requested_through old)
                              && (e =? rel_reporting_epoch old))) "retirement claim changed");
        mret (id_max through (rel_through old))
    | None => mret through
    end);
  names ← lift (covered r d completed);
  _ ← lift (eligible_released read r d names);
  _ ← put (set_released_slot (foldl (remove_operation d) r names) d
             (Some {| rel_version := 1; rel_through := completed; rel_requested_through := through;
                      rel_revision := rev; rel_reporting_epoch := e |}));
  mret completed.

(** [released_history::validate_retained] *)
Definition validate_released (r : Record_) (e : Z) : result anyhow unit :=
  for_each (fun d =>
      match released_slot r d with
      | None => Ok tt
      | Some v =>
          _ ← valid_id (rel_through v);
          _ ← valid_id (rel_requested_through v);
          _ ← ensure (stopped r && (rel_version v =? 1) && (0 <? rel_revision v)
                      && id_leb (rel_requested_through v) (rel_through v)
                      && (o_supervisor_epoch (owner r) <=? rel_reporting_epoch v)
                      && (rel_reporting_epoch v <=? e)) "invalid destruction retirement proof";
          names ← covered r d (rel_through v);
          ensure (bool_decide (names = [])) "retired history still present"
      end) [History.Commands; History.Files].

(** ** history.rs *)

Definition slot (r : Record_) (d : Domain) : option Retirement :=
  match d with History.Commands => command_history r | History.Files => file_history r end.
Definition set_slot (r : Record_) (d : Domain) (v : option Retirement) : Record_ :=
  match d with History.Commands => set_command_history r v | History.Files => set_file_history r v end.

(** [history::check] *)
Definition check_history (r : Record_) (d : Domain) (id : OperationId) : result Status unit :=
  _ ← check_retirement r;
  _ ← check_released r d id;
  ensure (negb (is_some_and (fun v => History.covers (barrier v) id) (slot r d)))
    (failed_precondition "operation history retired").

(** [history::eligible] *)
Definition eligible (r : Record_) (b : Barrier) : result anyhow unit :=
  match History.domain b with
  | History.Commands =>
      for_each (fun e : string * Command.CommandRecord =>
          id ← parse_operation e.1;
          if History.covers b id then
            _ ← ensure (Command.finished e.2) "unresolved command history";
            if Command.not_started e.2 then Ok tt else
            _ ← ensure (bool_decide (Command.context e.2 = Some (History.context b)))
                  "command history boot mismatch";
            receipt ← ok_or (Command.receipt e.2) "missing terminal receipt";
            Command.validate_receipt e.2 id receipt
          else Ok tt) (entries (commands r))
  | History.Files =>
      for_each (fun e : string * Files.FileRecord =>
          id ← parse_operation e.1;
          if History.covers b id then
            _ ← Files.record_validate e.2;
            _ ← ensure (Files.not_started e.2 || (Files.state e.2 =? 3) || (Files.state e.2 =? 5))
                  "unresolved file history";
            ensure (Files.not_started e.2
                    || bool_decide (Files.context e.2 = Some (History.context b)))
              "file history boot mismatch"
          else Ok tt) (entries (files r))
  end.

(** [history::prepare] *)
Definition prepare (requested : Barrier) (rev : Z) : ST Record_ anyhow Retirement :=
  let d := History.domain requested in
  _ ← lift (ensure (0 <? rev) "invalid retirement revision");
  _ ← lift (History.barrier_validate requested (History.context requested) d);
  r ← get;
  _ ← lift (ensure (bool_decide (to_string (allocation_id (History.context requested))
                                 = o_allocation_id (owner r))
                    && (generation (History.context requested) =? o_generation (owner r)))
              "retirement allocation mismatch");
  let fresh :=
    _ ← lift (eligible r requested);
    let new := {| barrier := requested; revision := rev;
                  requested_through := History.through requested; completed := false |} in
    _ ← put (set_slot r d (Some new));
    mret new in
  match slot r d with
  | None => fresh
  | Some current =>
      _ ← lift (ensure (bool_decide (History.context (barrier current) = History.context requested))
                  "retirement boot changed");
      _ ← lift (ensure (revision current <=? rev) "stale retirement claim");
      _ ← lift (ensure (negb (rev =? revision current)
                        || bool_decide (History.through requested = requested_through current))
                  "retirement claim payload changed");
      if id_leb (History.through requested) (History.through (barrier current)) then
        let next := {| barrier := barrier current; revision := rev;
                       requested_through := History.through requested;
                       completed := completed current |} in
        _ ← put (set_slot r d (Some next));
        mret next
      else
        _ ← lift (ensure (completed current) "previous retirement incomplete");
        fresh
  end.

(** The operations of a domain, each with whether the barrier covers it. *)
Fixpoint judge_names (b : Barrier) (names : list string) : result anyhow (list (string * bool)) :=
  match names with
  | [] => Ok []
  | name :: names =>
      id ← parse_operation name;
      rest ← judge_names b names;
      Ok ((name, History.covers b id) :: rest)
  end.

Definition set_completed (v : Retirement) : Retirement := {|
  barrier := barrier v; revision := revision v; requested_through := requested_through v;
  completed := true
|}.

(** [history::complete] *)
Definition complete (v : Retirement) : ST Record_ anyhow unit :=
  let d := History.domain (barrier v) in
  r ← get;
  current ← lift (ok_or (slot r d) "retirement missing");
  _ ← lift (ensure (bool_decide (barrier current = barrier v) && (revision current =? revision v))
              "retirement ownership changed");
  _ ← lift (eligible r (barrier v));
  names ← lift (judge_names (barrier v) (operation_names r d));
  let r' := foldl (fun r e => if e.2 : bool then remove_operation d r e.1 else r) r names in
  _ ← put r';
  last ← lift (ok_or (slot r' d) "retirement missing");
  put (set_slot r' d (Some (set_completed last))).

(** [metadata_retirement::receipt] *)
Definition retained_receipt (read : Manifest -> result anyhow Guardian.Receipt) (r : Record_)
    : result anyhow Guardian.Receipt :=
  m ← ok_or (manifest r) "guardian manifest missing";
  match metadata_retirement r with
  | Some saved =>
      receipt ← ok_or (Guardian.plan_receipt (plan saved)) "retained cleanup receipt missing";
      _ ← Guardian.validate_receipt m receipt;
      Ok receipt
  | None =>
      receipt ← read m;
      _ ← Guardian.validate_receipt m receipt;
      Ok receipt
  end.

(** [history::validate_retained] *)
Definition with_through (b : Barrier) (id : OperationId) : Barrier := {|
  History.version := History.version b; History.context := History.context b;
  History.domain := History.domain b; History.through := id
|}.
Definition validate_history (read : Manifest -> result anyhow Guardian.Receipt) (r : Record_)
    : result anyhow unit :=
  for_each (fun d =>
      match slot r d with
      | None => Ok tt
      | Some v =>
          let b := barrier v in
          _ ← History.barrier_validate b (History.context b) d;
          _ ← History.barrier_validate (with_through b (requested_through v)) (History.context b) d;
          _ ← ensure (id_leb (requested_through v) (History.through b))
                "retirement request exceeds retained floor";
          _ ← ensure ((0 <? revision v)
                      && bool_decide (to_string (allocation_id (History.context b))
                                      = o_allocation_id (owner r))
                      && (generation (History.context b) =? o_generation (owner r)))
                "invalid retained retirement ownership";
          receipt ← retained_receipt read r;
          _ ← ensure (bool_decide (Guardian.r_guest_boot_id receipt = Some (boot_id (History.context b))))
                "retirement boot mismatch";
          _ ← eligible r b;
          if completed v then
            for_each (fun name =>
                id ← parse_operation name;
                ensure (negb (History.covers b id)) "completed retirement retains records")
              (operation_names r d)
          else Ok tt
      end) [History.Commands; History.Files].

(** [history::closure] *)
Definition closure (r : Record_) (d : Domain) : result anyhow (option OperationId) :=
  let live := slot r d in
  let released := rel_through <$> released_slot r d in
  let complete := match live with
                  | Some v => if completed v then Some (History.through (barrier v)) else None
                  | None => None
                  end in
  let highest := match complete, released with
                 | Some a, Some b => Some (id_max a b)
                 | Some a, None | None, Some a => Some a
                 | None, None => None
                 end in
  _ ← ensure (is_none_or (fun v => is_some_and (id_leb (History.through (barrier v))) highest) live)
        "history closure remains pending";
  Ok highest.

(** [retirement::scope] *)
Definition scope (r : Record_) (request : RetirementRequest) : result anyhow unit :=
  let p := Authority.Retirement.permit (Authority.Retirement.intent request) in
  let o := owner r in
  _ ← ensure (bool_decide (o_host_id o = to_string (Authority.host p))
              && bool_decide (o_project_id o = to_string (Authority.project p))
              && bool_decide (o_sandbox_id o = to_string (Authority.sandbox p))
              && bool_decide (o_allocation_id o = to_string (Authority.allocation p))
              && (o_generation o =? Authority.generation p)
              && (o_supervisor_epoch o =? Authority.original_epoch p)) "retirement owner changed";
  _ ← ensure (is_none_or (fun m => bool_decide (Guardian.launch_permit m = Some p)
                                   && bool_decide (Guardian.create_operation
                                                     (Guardian.owner (Guardian.start m))
                                                   = Authority.create_operation p)) (manifest r))
        "retirement create owner changed";
  _ ← ensure (stopped r || (is_none (create r) && is_none (manifest r) && negb (dispatched r)))
        "allocation is not stopped";
  _ ← ensure (bool_decide (commands r = ∅) && bool_decide (files r = ∅) && bool_decide (archives r = ∅))
        "retirement consumers remain";
  for_each (fun e : Domain * Authority.Retirement.DomainClosure =>
      actual ← closure r e.1;
      ensure (match e.2 with
              | Authority.Retirement.Empty => is_none actual
              | Authority.Retirement.Retired through => bool_decide (actual = Some through)
              end) "retirement domain scope changed")
    [(History.Commands, Authority.Retirement.commands (Authority.Retirement.intent request));
     (History.Files, Authority.Retirement.files (Authority.Retirement.intent request))].

(** [retirement::validate_retained] *)
Definition validate_retirement (r : Record_) (e : Z) : result anyhow unit :=
  match retirement r with
  | None => Ok tt
  | Some request =>
      let i := Authority.Retirement.intent request in
      _ ← map_err (fun _ => "invalid retirement intent") (Authority.Intent.validate i);
      _ ← ensure (negb (Authority.Retirement.simulated i)
                  && (0 <? Authority.Retirement.revision request)
                  && (0 <? Authority.Retirement.expires_unix_ms request)
                  && (Authority.original_epoch (Authority.Retirement.permit i)
                      <=? Authority.Retirement.reporting_epoch request)
                  && (Authority.Retirement.reporting_epoch request <=? e)
                  && stopped r) "invalid retained retirement request";
      scope r request
  end.

(** ** archive.rs *)

(** [host::archive::validate_owner] *)
Definition validate_archive_owner (o : Ownership) (t : Output.OutputTicket) : result Status unit :=
  let w := Output.t_owner t in
  ensure (bool_decide (o_host_id o = to_string (Output.host_id w))
          && bool_decide (o_project_id o = to_string (Output.project_id w))
          && bool_decide (o_sandbox_id o = to_string (Output.sandbox_id w))
          && bool_decide (o_allocation_id o = to_string (Output.allocation_id w))
          && (o_generation o =? Output.generation w)
          && (o_supervisor_epoch o =? Output.host_epoch w))
    (failed_precondition "archive allocation ownership changed").

(** [archive::validate_receipt] *)
Definition validate_archive_receipt (t : Output.OutputTicket) (r : Receipt) : result Status unit :=
  let w := Output.t_owner t in
  _ ← or_status (receipt_validate r) (failed_precondition "invalid retained receipt");
  ensure (bool_decide (r_operation_id r = Output.operation_id w)
          && bool_decide (allocation_id (r_context r) = Output.allocation_id w)
          && (generation (r_context r) =? Output.generation w)
          && bool_decide (boot_id (r_context r) = Output.boot_id w)
          && (r_output_limit r =? Output.t_output_limit t)
          && r_cleanup_confirmed r
          && match r_state r with
             | Exited | TimedOut | Cancelled => true
             | LaunchIntent | Unknown => false
             end)
    (failed_precondition "output requires the original final receipt").

(** [archive::validate_plans] *)
Definition plan_matches (p : Output.OutputPlan) (s : GuestModel.Output) : bool :=
  (Output.size p =? stored s) && (Output.seen p =? seen s)
  && eqb (Output.truncated p) (truncated s).
Definition validate_archive_plans (t : Output.OutputTicket) (p : Output.OutputPlans) (r : Receipt)
    : result Status unit :=
  _ ← validate_archive_receipt t r;
  _ ← or_status (Output.ticket_validate_plans t p) (failed_precondition "saved output plan changed");
  ensure (plan_matches (Output.plan_stdout p) (r_stdout r)
          && plan_matches (Output.plan_stderr p) (r_stderr r))
    (failed_precondition "output statistics changed").

(** ** journal.rs: validation of a retained record *)

(** What [open] demands of a record's ownership and of its launch, before it looks at the
    guardian's files. *)
Definition validate_ownership (c : Config) (key : string) (r : Record_) : result anyhow unit :=
  _ ← ensure (bool_decide (key = o_allocation_id (owner r))
              && bool_decide (o_host_id (owner r) = to_string (host c))
              && (o_supervisor_epoch (owner r) <? epoch c)
              && (Z.of_nat (size (revisions r)) <=? 64)) "invalid retained allocation ownership";
  _ ← ensure (negb (released r) || (stopped r && is_some (manifest r))) "invalid release fence";
  ensure (eqb (is_some (create r)) (is_some (manifest r))
          && (negb (dispatched r) || is_some (manifest r))) "invalid retained launch intent".

Definition validate_manifest (c : Config) (is_root : bool)
    (read : Manifest -> result anyhow Guardian.Receipt) (key : string) (r : Record_)
    : result anyhow unit :=
  match manifest r with
  | None => Ok tt
  | Some m =>
      let o := Guardian.owner (Guardian.start m) in
      _ ← ensure (bool_decide (to_string (Guardian.allocation o) = key)
                  && bool_decide (Guardian.host o = host c)
                  && bool_decide (Guardian.state_root (Guardian.config m) = allocations_root c))
            "invalid retained guardian ownership";
      _ ← Guardian.validate is_root m;
      _ ← ensure (bool_decide (to_string (Guardian.project o) = o_project_id (owner r))
                  && bool_decide (to_string (Guardian.sandbox o) = o_sandbox_id (owner r))
                  && (Guardian.generation o =? o_generation (owner r))
                  && (Guardian.epoch o =? o_supervisor_epoch (owner r)))
            "retained manifest identity mismatch";
      if released r then
        receipt ← retained_receipt read r;
        ensure (Guardian.r_cleanup_confirmed receipt
                && bool_decide (Guardian.r_state receipt = Guardian.Stopped))
          "retained release lacks cleanup evidence"
      else Ok tt
  end.

Definition validate_archives (r : Record_) : result anyhow unit :=
  _ ← ensure (Z.of_nat (size (commands r)) <=? Command.MAX_COMMANDS)
        "retained command journal too large";
  _ ← ensure (Z.of_nat (size (archives r)) <=? Z.of_nat (size (commands r)))
        "invalid archive journal count";
  for_each (fun e : string * ArchiveRecord =>
      let '(id, archive) := e in
      command ← ok_or (commands r !! id) "archive command missing";
      _ ← map_err (fun _ => "invalid output ticket") (Output.ticket_validate (ticket archive));
      _ ← ensure ((0 <? archive_revision archive)
                  && bool_decide (to_string (Output.operation_id (Output.t_owner (ticket archive))) = id))
            "invalid archive revision or operation";
      _ ← map_err message (validate_archive_owner (owner r) (ticket archive));
      receipt ← ok_or (Command.receipt command) "archive receipt missing";
      _ ← map_err message (validate_archive_receipt (ticket archive) receipt);
      match plans archive with
      | Some p => map_err message (validate_archive_plans (ticket archive) p receipt)
      | None => Ok tt
      end) (entries (archives r)).

Definition validate_commands (r : Record_) : result anyhow unit :=
  for_each (fun e : string * Command.CommandRecord =>
      let command := e.2 in
      id ← parse_operation e.1;
      if Command.not_started command then
        ensure (is_none (Command.context command) && is_none (Command.receipt command)
                && (Command.cmd_output_limit command =? 0)
                && (Command.cmd_deadline_unix_ms command =? 0)) "invalid command fence"
      else
        context ← ok_or (Command.context command) "missing command context";
        _ ← ensure (bool_decide (to_string (allocation_id context) = o_allocation_id (owner r))
                    && (generation context =? o_generation (owner r))
                    && negb (bool_decide (boot_id context = "")) && (strlen (boot_id context) <=? 64)
                    && contains 1 Command.MAX_OUTPUT (Command.cmd_output_limit command))
              "invalid retained command ownership";
        match Command.receipt command with
        | Some receipt => Command.validate_receipt command id receipt
        | None => Ok tt
        end) (entries (commands r)).

Definition validate_files (read : Manifest -> result anyhow Guardian.Receipt) (r : Record_)
    : result anyhow unit :=
  _ ← ensure ((Z.of_nat (size (files r)) <=? Files.MAX_FILES)
              && (sum_by (fun e => Files.size e.2) (entries (files r)) <=? Files.MAX_RESERVED_BYTES))
        "invalid retained file capacity";
  for_each (fun e : string * Files.FileRecord =>
      let '(id, file) := e in
      _ ← parse_operation id;
      _ ← Files.record_validate file;
      _ ← ensure (is_some (revisions r !! id) && is_none (commands r !! id))
            "invalid file operation ownership";
      match Files.context file with
      | None => Ok tt
      | Some context =>
          _ ← ensure (bool_decide (to_string (allocation_id context) = o_allocation_id (owner r))
                      && (generation context =? o_generation (owner r)))
                "retained file allocation mismatch";
          receipt ← retained_receipt read r;
          ensure (bool_decide (Guardian.r_guest_boot_id receipt = Some (boot_id context)))
            "retained file boot mismatch"
      end) (entries (files r)).

(** The checks of [open] after the retirement of the allocation was checked. *)
Definition validate_record (c : Config) (is_root : bool)
    (read : Manifest -> result anyhow Guardian.Receipt) (key : string) (r : Record_)
    : result anyhow unit :=
  _ ← validate_manifest c is_root read key r;
  _ ← validate_archives r;
  _ ← validate_commands r;
  _ ← validate_files read r;
  _ ← validate_history read r;
  validate_released r (epoch c).
End pure.
