(* ===== verification/HostEnv.v ===== *)
(** * What the host runs on

    The host's two durable directories, and everything else it talks to: the clock, the
    guardians of its allocations, the guests behind them. An answer from outside may
    depend on everything that was asked before, and is otherwise arbitrary: the log of the
    questions is part of the state, and [Env] answers the next one from it. *)

From S2P Require Import Prelude Ext Ids Fs HostModel.
From S2P Require Authority GuestModel GuestWire FileWire Files Guardian History.
Module w := GuestWire.w.
Module fw := FileWire.fw.

(** ** Questions *)

(** The controls of an upload that change it. *)
Inductive control_kind : Type := CBegin | CCommit | CAbort.
#[export] Instance control_kind_eq_dec : EqDecision control_kind.
Proof. solve_decision. Defined.

Inductive effect : Type :=
| ReadClock
| GenerateId
| ReadReceipt (m : Manifest)
| ReadReceipts (key : string)
| Prepare (m : Manifest)
| Spawn (m : Manifest)
| Control (m : Manifest) (a : Guardian.Action)
| FenceUnstarted (m : Manifest)
| ProbeDirectory (id : AllocationId)
| ProbeGroup (id : AllocationId)
| OpenIdentity (m : Manifest)
| OpenSession (i : Authority.Retirement.Intent) (p : Guardian.Plan)
| VerifyRemoved (i : Authority.Retirement.Intent) (p : Guardian.Plan)
| GuardianBinary
| GuestExecute (c : GuestModel.Context) (e : GuestModel.Execute)
| GuestInspect (c : GuestModel.Context) (id : OperationId)
| GuestCancel (c : GuestModel.Context) (id : OperationId)
| GuestRetire (c : GuestModel.Context) (b : Barrier)
| GuestUpload (k : control_kind) (c : GuestModel.Context) (u : Files.Upload)
| GuestInspectUpload (c : GuestModel.Context) (u : Files.Upload)
| GuestWrite (c : GuestModel.Context) (u : Files.Upload) (offset : Z) (data : bytes)
| AcquireFileWorker
| PollDeadline
| TryGate
| CloseReaders
| PendingDownloads.

(** ** Answers *)

Class Env := {
  (** [geteuid().is_root()] *)
  is_root : bool;
  (** [guardian::wall_ms] *)
  clock_answer : list effect -> Z;
  (** [OperationId::generate] *)
  generated : list effect -> OperationId;
  (** [read_json] of the receipt file of an allocation *)
  receipt_file : list effect -> Manifest -> result anyhow Guardian.Receipt;
  (** [manifest.prepare().is_ok()] *)
  prepared : list effect -> Manifest -> bool;
  (** whether [spawn] of the guardian binary succeeded *)
  spawned : list effect -> Manifest -> bool;
  (** [guardian::control] *)
  control_reply : list effect -> Manifest -> Guardian.Action -> result anyhow Guardian.Response;
  (** [manifest.fence_unstarted()] *)
  fence_reply : list effect -> Manifest -> result Guardian.CleanupError Guardian.Receipt;
  (** [try_exists] of the allocation's directory and of its control group *)
  directory_exists : list effect -> AllocationId -> result anyhow bool;
  group_exists : list effect -> AllocationId -> result anyhow bool;
  (** the credentials of [guest_client], read and checked against the receipt *)
  identity_reply : list effect -> Manifest -> Guardian.Receipt -> result anyhow unit;
  (** [guardian::retirement::Session::open] and [Plan::verify_removed] *)
  session_reply : list effect -> Authority.Retirement.Intent -> Guardian.Plan -> result anyhow unit;
  removed_reply : list effect -> Authority.Retirement.Intent -> Guardian.Plan -> result anyhow unit;
  (** the preflight of the capabilities and the ownership of the guardian binary *)
  preflight_reply : list effect -> result anyhow unit;
  (** what the guest answers to the calls of the client: a wire message, or a transport error,
      a timeout or an answer of another kind *)
  execute_reply : list effect -> GuestModel.Context -> GuestModel.Execute -> result anyhow w.Receipt;
  inspect_reply : list effect -> GuestModel.Context -> OperationId -> result anyhow w.Receipt;
  cancel_reply : list effect -> GuestModel.Context -> OperationId -> result anyhow w.Receipt;
  retire_reply : list effect -> GuestModel.Context -> Barrier -> result anyhow History.wBarrier;
  upload_reply : list effect -> control_kind -> GuestModel.Context -> Files.Upload -> result anyhow fw.FileReceipt;
  inspect_upload_reply : list effect -> GuestModel.Context -> Files.Upload -> result anyhow fw.FileReceipt;
  write_reply : list effect -> GuestModel.Context -> Files.Upload -> Z -> bytes -> result anyhow fw.FileProgress;
  (** whether the allocation's file worker is free *)
  file_worker_free : list effect -> bool;
  (** whether an [Instant] has passed although the sleeps so far did not take that long *)
  passed_early : list effect -> bool;
  (** whether an allocation's gate is free *)
  gate_free : list effect -> bool;
  (** whether no reader of the allocation is active, and no capture ticket pending *)
  readers_closed : list effect -> bool;
  downloads_pending : list effect -> bool;
}.

(** ** The state below the journal *)

Record System : Type := {
  state_dir : World;      (** [config.state_root] *)
  launch_dir : World;     (** [config.state_root.join("a")] *)
  trace : list effect;    (** the questions asked so far, the last one first *)
}.

Definition set_state_dir (s : System) (w : World) : System :=
  {| state_dir := w; launch_dir := launch_dir s; trace := trace s |}.
Definition set_launch_dir (s : System) (w : World) : System :=
  {| state_dir := state_dir s; launch_dir := w; trace := trace s |}.
Definition log (s : System) (e : effect) : System :=
  {| state_dir := state_dir s; launch_dir := launch_dir s; trace := e :: trace s |}.

Section system.
Context {E : Type}.

(** Ask a question. *)
Definition ask {A} (e : effect) (answer : list effect -> A) : ST System E A := fun s =>
  (log s e, Ok (answer (trace s))).

(** Calls on the two directories, with their errors mapped. *)
Definition on_state {A} (f : error Authority.Error -> E) (m : ST World (error Authority.Error) A)
    : ST System E A := fun s =>
  let '(w, r) := m (state_dir s) in (set_state_dir s w, map_err f r).
Definition on_launch {A} (f : error Authority.Error -> E) (m : ST World (error Authority.Error) A)
    : ST System E A := fun s =>
  let '(w, r) := m (launch_dir s) in (set_launch_dir s w, map_err f r).

(** A scope that owns a guard of the launch authority. *)
Definition held {A} (lock : N) (body : ST System E A) : ST System E A := fun s =>
  let '(s', r) := body s in (set_launch_dir s' (release lock (launch_dir s')), r).

Context `{Env}.

Definition wall_ms : ST System E Z := ask ReadClock clock_answer.
Definition generate : ST System E OperationId := ask GenerateId generated.
Definition read_receipt (m : Manifest) : ST System E (result anyhow Guardian.Receipt) :=
  ask (ReadReceipt m) (fun t => receipt_file t m).
Definition control (m : Manifest) (a : Guardian.Action) : ST System E (result anyhow Guardian.Response) :=
  ask (Control m a) (fun t => control_reply t m a).
End system.

#[global] Arguments ask : simpl never.
#[global] Arguments on_state : simpl never.
#[global] Arguments on_launch : simpl never.
#[global] Arguments held : simpl never.
