(* ===== verification/Journal.v ===== *)
(** * The host's journal on disk (crates/sandbox-supervisor/src/host/journal.rs)

    [save] replaces the journal file through one staging name; [open] takes the host lock,
    reads and validates the journal, advances its epoch and stops every allocation of an
    earlier one. [open_authority] is [authority::open], which follows it at start-up. *)

From S2P Require Import Prelude Ext Ids GuestModel Wire Fs HostModel HostEnv.
From S2P Require Authority LaunchAuthority Guardian Command Files.

Definition HOST_LOCK : string := "host.lock".
Definition HOST_JSON : string := "host.json".
Definition JOURNAL_NEXT : string := "journal.next".

Abbreviation IO := (ST World (error Authority.Error)) (only parsing).

Definition io_message (e : error Authority.Error) : anyhow :=
  match e with
  | LockContended => "launch lock contended"
  | Ledger _ => "launch ledger"
  | Message m => m
  end.

(** [m.is_file() && m.uid() == 0 && m.mode() & 0o077 == 0] *)
Definition private_regular (m : Metadata) : bool :=
  bool_decide (ftype m = Regular) && (uid m =? 0) && (LaunchAuthority.group_or_other (mode m) =? 0).

(** [OpenOptions::open] of a name that may be missing: [None] is [NotFound]. *)
Definition open_optional (name : string) : IO (option N) := query (fun d =>
  match names d !! name with
  | None => Ok None
  | Some i =>
      x ← ok_or (inodes d !! i) "stale";
      _ ← ensure (negb (bool_decide (ftype (meta x) = Symlink))) "symbolic link";
      Ok (Some i)
  end).

(** [file.metadata()?.len()] *)
Definition file_len (file : N) : IO Z :=
  query (fun d => (fun x => strlen (content x)) <$> ok_or (inodes d !! file) "stale").

(** [private_dir] *)
Definition private_dir (path : string) : IO unit :=
  _ ← syscall (fun d => Ok (match dir_meta d with
                            | Some _ => d
                            | None => LaunchAuthority.make_root d
                            end, tt));
  m ← query (fun d => ok_or (dir_meta d) "not found");
  _ ← ensure_io (bool_decide (ftype m = Directory) && (uid m =? 0)
                 && (LaunchAuthority.group_or_other (mode m) =? 0))
        "host state directory must be private and root-owned";
  w ← get;
  ensure_io (bool_decide (canonical_root w = path)) "host state directory must be canonical".

Section journal.
Context `{Env, UuidLib, Sha256, HexLib, Serde Authority.Retirement.Intent, Serde Authority.Saved,
          Serde LaunchAuthority.Required, Serde LaunchAuthority.Saved, Serde Manifest,
          Serde Files.Upload, Serde Files.FileRecord, Serde Journal}.

(** ** save *)

(** A staging file of an interrupted write is removed only beside a journal. *)
Definition discard_staging : IO unit :=
  leftover ← open_optional JOURNAL_NEXT;
  match leftover with
  | None => mret tt
  | Some file =>
      m ← fstat file;
      n ← file_len file;
      _ ← ensure_io (private_regular m && (nlink m =? 1) && (n <=? MAX_BYTES))
            "invalid host journal staging file";
      original ← symlink_metadata HOST_JSON;
      original ← lift (ok_or original (Message "not found"));
      _ ← ensure_io (private_regular original.2) "missing authoritative host journal";
      remove_file JOURNAL_NEXT
  end.

(** [save] after the journal was marked poisoned; [poisoned] itself is not serialized. *)
Definition save_file (j : Journal) : IO unit :=
  bytes ← lift (ok_or (to_vec (set_poisoned j false)) (Message "serde_json"));
  _ ← ensure_io (strlen bytes <=? MAX_BYTES) "host journal full";
  _ ← discard_staging;
  file ← create_new JOURNAL_NEXT LaunchAuthority.MODE_PRIVATE_FILE;
  _ ← write_all file bytes;
  _ ← sync_all file;
  _ ← rename JOURNAL_NEXT HOST_JSON;
  sync_root.

(** [journal::save]: the journal stays poisoned unless the whole write succeeded. *)
Definition save (j : Journal) (s : System) : System * (Journal * result anyhow unit) :=
  if poisoned j then (s, (j, Err "host journal requires restart after uncertain write")) else
  let '(w, r) := save_file j (state_dir s) in
  (set_state_dir s w, (set_poisoned j (negb (is_ok r)), map_err io_message r)).

(** [save] of a journal that is dropped when it fails. *)
Definition save_or_drop (j : Journal) : ST System anyhow Journal := fun s =>
  let '(s', (j', r)) := save j s in (s', r' ← r; Ok j').

(** ** open *)

Definition root_of (c : Config) : string := allocations_root c.

(** [metadata_retirement::validate_retained] *)
Definition validate_metadata (c : Config) (checkpoint : option LaunchAuthority.Checkpoint)
    (r : Record_) : ST System anyhow unit :=
  if is_none (retirement r) && is_none (metadata_retirement r) then mret tt else
  request ← lift (ok_or (retirement r) "deletion lacks retirement intent");
  checkpoint ← lift (ok_or checkpoint "deletion lacks authority checkpoint");
  let i := Authority.Retirement.intent request in
  let through := LaunchAuthority.registered_through checkpoint in
  authority ← on_launch io_message
    (LaunchAuthority.open (root_of c) (host c) (Authority.Retirement.reporting_epoch request) through);
  retained ← on_launch io_message (LaunchAuthority.retained_checkpoint authority);
  let e := LaunchAuthority.checkpoint_epoch retained in
  _ ← lift (ensure ((e <=? epoch c) && launch_permits_required c)
              "deletion authority epoch or mode mismatch");
  match metadata_retirement r with
  | None =>
      guard ← on_launch io_message
        (LaunchAuthority.authorize_retirement (root_of c) (host c) e through i);
      held (LaunchAuthority._lock guard) (mret tt)
  | Some saved =>
      if removed saved then
        guard ← on_launch io_message (LaunchAuthority.retirement_guard authority e i);
        held (LaunchAuthority.guard_lock guard) (
          _ ← lift (ensure (match LaunchAuthority.phase guard with
                            | LaunchAuthority.PClosed => false
                            | _ => true
                            end) "host record survived root forgetting");
          answer ← ask (VerifyRemoved i (plan saved)) (fun t => removed_reply t i (plan saved));
          lift answer)
      else
        answer ← ask (OpenSession i (plan saved)) (fun t => session_reply t i (plan saved));
        lift answer
  end.

(** One retained record: the loop body of [open]. *)
Definition open_record (c : Config) (checkpoint : option LaunchAuthority.Checkpoint)
    (e : string * Record_) : ST System anyhow unit :=
  let '(key, r) := e in
  _ ← lift (validate_ownership c key r);
  _ ← lift (validate_retirement r (epoch c));
  _ ← validate_metadata c checkpoint r;
  read ← ask (ReadReceipts key) receipt_file;
  lift (validate_record c is_root read key r).

Fixpoint for_each_st {S E A} (f : A -> ST S E unit) (l : list A) : ST S E unit :=
  match l with
  | [] => mret tt
  | x :: l => _ ← f x; for_each_st f l
  end.

(** The journal file, if there is one. *)
Definition read_journal (c : Config) : IO (option Journal) :=
  found ← open_optional HOST_JSON;
  match found with
  | None => mret None
  | Some file =>
      m ← fstat file;
      n ← file_len file;
      _ ← ensure_io (private_regular m && (n <=? MAX_BYTES)) "invalid host journal";
      bytes ← LaunchAuthority.read_at_most file (MAX_BYTES + 1);
      _ ← ensure_io (strlen bytes <=? MAX_BYTES) "host journal too large";
      j ← lift (ok_or (from_slice bytes) (Message "serde_json"));
      _ ← ensure_io ((version j =? 1) && bool_decide (journal_host j = host c)
                     && (journal_epoch j <? epoch c) && (Z.of_nat (size (records j)) <=? MAX_RECORDS))
            "host identity mismatch or epoch not advanced";
      mret (Some j)
  end.

(** The journal of a host that was never started. *)
Definition fresh_journal (c : Config) : ST System anyhow Journal :=
  s ← get;
  n ← on_state io_message (query (fun d => Ok (Z.of_nat (size (names d)))));
  let allocations := if is_some (dir_meta (dir (launch_dir s))) then 1 else 0 in
  _ ← lift (ensure (n + allocations =? 1) "missing journal with retained host state");
  checkpoint ← (if launch_permits_required c then
      authority ← on_launch io_message (LaunchAuthority.initialize (root_of c) (host c) (epoch c));
      initial ← on_launch io_message (LaunchAuthority.checkpoint authority (epoch c));
      mret (Some initial)
    else mret None);
  mret {| launch_authority := checkpoint; version := 1; journal_host := host c;
          journal_epoch := epoch c; records := ∅; poisoned := false |}.

(** [journal::open]; the lock is held while the host runs. *)
Definition open (c : Config) : ST System anyhow Journal :=
  _ ← on_state io_message (private_dir (state_root c));
  lock ← on_state io_message (open_or_create HOST_LOCK true LaunchAuthority.MODE_PRIVATE_FILE);
  locked ← on_state io_message (flock lock true);
  _ ← lift (ensure locked "host lock contended");
  found ← on_state io_message (read_journal c);
  j ← match found with Some j => mret j | None => fresh_journal c end;
  _ ← lift (ensure (sum_by (fun e => Z.of_nat (size (files e.2))) (entries (records j))
                    <=? Files.MAX_HOST_FILES) "too many host file records");
  _ ← for_each_st (open_record c (launch_authority j)) (entries (records j));
  save_or_drop (set_records (set_journal_epoch j (epoch c))
                  ((fun r => set_stopped r true) <$> records j)).

(** ** authority.rs: open *)

Definition open_authority (c : Config) (j : Journal)
    : ST System anyhow (option LaunchAuthority.AuthorityFile * Journal) :=
  _ ← lift (ensure (eqb (launch_permits_required c) (is_some (launch_authority j)))
              "launch authority mode changed; legacy migration is not supported");
  match launch_authority j with
  | None => mret (None, j)
  | Some retained =>
      _ ← lift (ensure (bool_decide (LaunchAuthority.checkpoint_host retained = host c)
                        && (0 <? LaunchAuthority.checkpoint_epoch retained)
                        && (LaunchAuthority.checkpoint_epoch retained <=? epoch c))
                  "invalid launch checkpoint");
      authority ← on_launch io_message
        (LaunchAuthority.open (root_of c) (host c) (LaunchAuthority.checkpoint_epoch retained)
           (LaunchAuthority.registered_through retained));
      current ← on_launch io_message (LaunchAuthority.retained_checkpoint authority);
      let e := LaunchAuthority.checkpoint_epoch current in
      _ ← lift (ensure (e <=? epoch c) "authority epoch exceeds configured epoch");
      _ ← (if e <? epoch c
           then on_launch io_message (LaunchAuthority.advance_epoch authority e (epoch c))
           else mret tt);
      checkpoint ← on_launch io_message (LaunchAuthority.checkpoint authority (epoch c));
      j ← save_or_drop (set_checkpoint j checkpoint);
      mret (Some authority, j)
  end.
End journal.
