(* ===== verification/HostOps.v ===== *)
(** * The operations of the host (crates/sandbox-supervisor/src/host)

    Every operation runs under the gate of its allocation and changes the journal only
    under the journal's mutex, so operations are modelled one at a time. A record may have
    changed in memory when an operation fails, and what was saved stays saved: the state is
    returned on every way out. *)

From S2P Require Import Prelude Ext Ids GuestModel GuestWire Wire Fs HostModel HostEnv.
From S2P Require Authority LaunchAuthority Resources Guardian Command Files History Journal.
#[local] Existing Instance Authority.Retirement.Request_eq_dec.
#[local] Existing Instance Guardian.State_eq_dec.
#[local] Existing Instance LaunchAuthority.Checkpoint_eq_dec.
#[local] Existing Instance History.Domain_eq_dec.
#[local] Existing Instance History.Barrier_eq_dec.

(** ** Messages of these operations (proto/supervisor.proto) *)

Record PreviousAllocationRequest : Type := { pr_ownership : option Ownership; pr_reporting_epoch : Z }.
Record PreviousAllocationObservation : Type := {
  po_request : PreviousAllocationRequest;
  po_release : Observation;
}.
Record HistoryRequest : Type := { hr_ownership : option LeaseOwnership; hr_barrier : option History.wBarrier }.
Record HistoryObservation : Type := {
  ho_request : HistoryRequest;
  ho_completed : History.wBarrier;
  ho_observed_unix_ms : Z;
}.
Record HistoryBindingObservation : Type := {
  hb_ownership : option LeaseOwnership;
  hb_context : w.Context;
  hb_observed_unix_ms : Z;
}.
Record ReleasedHistoryRequest : Type := {
  rr_ownership : option LeaseOwnership;
  rr_reporting_epoch : Z;
  rr_domain : Z;
  rr_through : string;
}.
Record AllocationFenceRequest : Type := { af_request_json : bytes }.
Record AllocationFenceObservation : Type := {
  fo_request : AllocationFenceRequest;
  fo_observed_unix_ms : Z;
}.
Record ReleasedHistoryObservation : Type := {
  ro_request : ReleasedHistoryRequest;
  ro_completed_through : string;
  ro_release_state : AllocationState;
  ro_observed_unix_ms : Z;
}.

Definition not_found := status NotFound.

(** ** The host *)

Record Host : Type := { journal : Journal; system : System }.
Abbreviation H := (ST Host Status) (only parsing).

Definition on_system {A} (m : ST System Status A) : H A := fun h =>
  let '(s, r) := m (system h) in ({| journal := journal h; system := s |}, r).
Definition set_journal (j : Journal) : H unit :=
  modify (fun h => {| journal := j; system := system h |}).

(** A scope that owns a guard of the launch authority. *)
Definition holding {A} (lock : N) (body : H A) : H A := fun h =>
  let '(h', r) := body h in
  ({| journal := journal h';
      system := set_launch_dir (system h') (release lock (launch_dir (system h'))) |}, r).

#[global] Arguments on_system : simpl never.
#[global] Arguments holding : simpl never.

Section host.
Context `{Env, UuidLib, Sha256, HexLib, Serde Authority.Retirement.Intent,
          Serde Authority.Retirement.Request, Serde Authority.Saved,
          Serde LaunchAuthority.Required, Serde LaunchAuthority.Saved, Serde Manifest,
          Serde Files.Upload, Serde Files.FileRecord, Serde Journal, Serde Record_,
          Serde Authority.Permit, Serde (list Authority.Permit), Serde Execute}.
Context (config : Config) (authority : option LaunchAuthority.AuthorityFile).

(** ** mod.rs: the journal and its gate *)

Definition now : H Z := on_system wall_ms.
Definition deadline (until : Z) : H unit := n ← now; lift (deadline_at n until).
Definition launch {A} (f : error Authority.Error -> Status) (m : Journal.IO A) : H A :=
  on_system (on_launch f m).

(** [Host::journal] *)
Definition journal_ : H Journal :=
  h ← get;
  if poisoned (journal h) then fail (unavailable "host journal requires recovery")
  else mret (journal h).

(** [Host::save] *)
Definition save : H unit := fun h =>
  let '(s, (j, r)) := Journal.save (journal h) (system h) in
  ({| journal := j; system := s |}, or_uncertain r).

(** [j.records.get(id)] of a record that must be there, and [records.insert]. *)
Definition record_of (id : string) : H Record_ :=
  j ← journal_; lift (ok_or (records j !! id) uncertain).
Definition write_record (id : string) (r : Record_) : H unit :=
  h ← get; set_journal (set_records (journal h) (<[id := r]> (records (journal h)))).

Definition parses (k : kind) (s : string) : bool := is_ok (parse k s).

(** [Host::owner] *)
Definition owner_ (o : option Ownership) : H Ownership :=
  o ← lift (ok_or o (invalid_argument "ownership required"));
  _ ← lift (ensure (parses KHost (o_host_id o) && parses KProject (o_project_id o)
                    && parses KSandbox (o_sandbox_id o) && parses KAllocation (o_allocation_id o)
                    && parses KOperation (o_operation_id o)
                    && (0 <? o_generation o) && (0 <? o_claim_revision o))
              (invalid_argument "invalid ownership"));
  _ ← lift (ensure (bool_decide (o_host_id o = to_string (host config))
                    && (o_supervisor_epoch o =? epoch config))
              (failed_precondition "wrong host or supervisor epoch"));
  _ ← deadline (o_claim_expires_unix_ms o);
  mret o.

Definition new_record (o : Ownership) : Record_ := {|
  owner := o; retirement := None; metadata_retirement := None; revisions := ∅; create := None;
  manifest := None; dispatched := false; stopped := false; released := false; commands := ∅;
  files := ∅; archives := ∅; command_history := None; file_history := None;
  released_commands := None; released_files := None; lease_revision := 0; lease_request := None
|}.

(** [Host::gate] *)
Definition gate (o : Ownership) : H unit :=
  j ← journal_;
  match records j !! o_allocation_id o with
  | Some r =>
      _ ← lift (ensure (same_allocation (owner r) o)
                  (failed_precondition "allocation identity mismatch"));
      lift (check_retirement r)
  | None =>
      _ ← lift (ensure (Z.of_nat (size (records j)) <? MAX_RECORDS)
                  (resource_exhausted "host receipt capacity full"));
      let admit_start := _ ← write_record (o_allocation_id o) (new_record o); save in
      match authority with
      | None => admit_start
      | Some _ =>
          checkpoint ← lift (ok_or (launch_authority j) uncertain);
          alc ← lift (or_uncertain (parse KAllocation (o_allocation_id o)));
          '(permit, guard) ← launch
            (fun _ => failed_precondition "registered active allocation required")
            (LaunchAuthority.authorize_registered_allocation (allocations_root config)
               (host config) (epoch config) (LaunchAuthority.registered_through checkpoint) alc);
          holding (LaunchAuthority._lock guard) (
            _ ← lift (ensure (bool_decide (to_string (Authority.project permit) = o_project_id o)
                              && bool_decide (to_string (Authority.sandbox permit) = o_sandbox_id o)
                              && (Authority.generation permit =? o_generation o))
                        (failed_precondition "registered allocation ownership mismatch"));
            admit_start)
      end
  end.

(** [Host::fence] *)
Definition fence (o : Ownership) : H Record_ :=
  _ ← deadline (o_claim_expires_unix_ms o);
  r ← record_of (o_allocation_id o);
  _ ← lift (ensure (same_allocation (owner r) o)
              (failed_precondition "allocation identity mismatch"));
  _ ← lift (check_retirement r);
  let prior := revisions r !! o_operation_id o in
  _ ← lift (ensure (is_some prior || (Z.of_nat (size (revisions r)) <? 64))
              (resource_exhausted "operation fence capacity full"));
  let revision := default 0 prior in
  _ ← write_record (o_allocation_id o)
        (set_revisions r (<[o_operation_id o := revision]> (revisions r)));
  _ ← lift (ensure (revision <=? o_claim_revision o) (failed_precondition "stale controller claim"));
  let r := set_revisions r (<[o_operation_id o := o_claim_revision o]> (revisions r)) in
  _ ← write_record (o_allocation_id o) r;
  _ ← save;
  mret r.

(** [Host::stopped] and [Host::released] *)
Definition mark_stopped (id : string) : H unit :=
  r ← record_of id;
  _ ← write_record id (set_stopped r true);
  save.
Definition mark_released (id : string) : H unit :=
  r ← record_of id;
  if released r then mret tt else
  _ ← write_record id (set_released (set_stopped r true) true);
  save.

(** ** mod.rs: admission *)

(** [Host::manifest] *)
Definition manifest_for (o : Ownership) (request : CreateRequest) : H Manifest :=
  image ← lift (ok_or (images config !! c_image_digest request) (permission_denied "image not allowed"));
  res ← lift (ok_or (c_resources request) (invalid_argument "resources required"));
  _ ← lift (ensure (Resources.supported (res_vcpu res) (res_memory_mib res) (res_disk_mib res))
              (invalid_argument "resources outside real VM envelope"));
  _ ← lift (ensure (is_none_or (fun c => Resources.supports c (c_image_digest request) (res_vcpu res)
                                           (res_memory_mib res) (res_disk_mib res))
                      (capabilities config))
              (failed_precondition "host image/resource compatibility mismatch"));
  _ ← deadline (c_allocation_expires_unix_ms request);
  permit ← match authority with
           | Some _ =>
               p ← lift (ok_or (from_slice (c_launch_permit_json request))
                           (invalid_argument "invalid launch permit"));
               mret (Some p)
           | None => mret None
           end;
  project ← lift (or_uncertain (parse KProject (o_project_id o)));
  sandbox ← lift (or_uncertain (parse KSandbox (o_sandbox_id o)));
  allocation ← lift (or_uncertain (parse KAllocation (o_allocation_id o)));
  operation ← lift (or_uncertain (parse KOperation (o_operation_id o)));
  mret {|
    Guardian.launch_permit := permit;
    Guardian.config := guardian_config config image;
    Guardian.start := {|
      Guardian.owner := {|
        Guardian.host := host config; Guardian.project := project; Guardian.sandbox := sandbox;
        Guardian.allocation := allocation; Guardian.create_operation := operation;
        Guardian.generation := o_generation o; Guardian.epoch := o_supervisor_epoch o |};
      Guardian.vcpu := res_vcpu res; Guardian.memory_mib := res_memory_mib res;
      Guardian.disk_mib := res_disk_mib res;
      Guardian.expires_unix_ms := c_allocation_expires_unix_ms request |}
  |}.

(** Another record of the sandbox that forbids a new generation. *)
Definition unreleased_generation (o : Ownership) (e : string * Record_) : bool :=
  let r := e.2 in
  negb (bool_decide (e.1 = o_allocation_id o))
  && bool_decide (o_sandbox_id (owner r) = o_sandbox_id o)
  && (negb (bool_decide (o_project_id (owner r) = o_project_id o))
      || (o_generation o <=? o_generation (owner r))
      || (is_some (manifest r) && negb (released r))
      || negb (stopped r)).

(** What a record reserves of the host: nothing without a manifest or once released. *)
Definition reserved (f : Guardian.Start -> Z) (r : Record_) : Z :=
  match manifest r with
  | Some m => if released r then 0 else f (Guardian.start m)
  | None => 0
  end.
Definition total_reserved (f : Guardian.Start -> Z) (m : gmap string Record_) : Z :=
  foldl (fun acc e => u64_saturating_add acc (reserved f e.2)) 0 (entries m).
Definition memory_charge (s : Guardian.Start) : Z := Guardian.memory_mib s + 128.
Definition disk_charge (s : Guardian.Start) : Z := Guardian.disk_mib s + 401.

(** [Host::admit] *)
Definition admit_start (o : Ownership) (request : CreateRequest) (m : Manifest) : H Record_ :=
  j ← journal_;
  _ ← lift (ensure (negb (existsb (unreleased_generation o) (entries (records j))))
              (failed_precondition "previous sandbox generation not released"));
  let cap := capacity config in
  let s := Guardian.start m in
  let fits f limit := f s <=? u64_saturating_sub limit (total_reserved f (records j)) in
  _ ← lift (ensure (fits Guardian.vcpu (cap_vcpu cap) && fits memory_charge (cap_memory_mib cap)
                    && fits disk_charge (cap_disk_mib cap))
              (resource_exhausted "host capacity reserved"));
  r ← lift (ok_or (records j !! o_allocation_id o) uncertain);
  let r := set_create r request m in
  _ ← write_record (o_allocation_id o) r;
  _ ← save;
  mret r.

(** ** mod.rs: observation *)

(** The lock contention and the live guardian that make a failed cleanup transient. *)
Definition transient (e : Guardian.CleanupError) : bool :=
  match e with Guardian.LockContended | Guardian.OwnershipBusy => true | _ => false end.

Definition fence_unstarted (m : Manifest) : H (result Guardian.CleanupError Guardian.Receipt) :=
  on_system (ask (FenceUnstarted m) (fun t => fence_reply t m)).
Definition control_ (m : Manifest) (a : Guardian.Action) : H (result anyhow Guardian.Response) :=
  on_system (control m a).

(** [Host::cleanup] *)
Definition cleanup (r : Record_) : H (option Guardian.Receipt) :=
  match manifest r with
  | None =>
      id ← lift (or_uncertain (parse KAllocation (o_allocation_id (owner r))));
      d ← on_system (ask (ProbeDirectory id) (fun t => directory_exists t id));
      d ← lift (or_uncertain d);
      if d : bool then fail uncertain else
      g ← on_system (ask (ProbeGroup id) (fun t => group_exists t id));
      g ← lift (or_uncertain g);
      if g : bool then fail uncertain else mret None
  | Some m =>
      _ ← control_ m Guardian.Stop;
      answer ← fence_unstarted m;
      receipt ← match answer with
                | Ok receipt => mret receipt
                | Err e => fail (if transient e then unavailable "allocation cleanup busy" else uncertain)
                end;
      _ ← lift (ensure (bool_decide (Guardian.r_state receipt = Guardian.Stopped)
                        && Guardian.r_cleanup_confirmed receipt) uncertain);
      _ ← mark_released (o_allocation_id (owner r));
      mret (Some receipt)
  end.

(** The live guest of an allocation: an authenticated and durably bound boot. *)
Definition bind_guest (m : Manifest) : H (option Guardian.Receipt) :=
  reply ← control_ m Guardian.BindGuest;
  match reply with
  | Ok response =>
      match Guardian.error response, Guardian.receipt response with
      | None, Some receipt =>
          if bool_decide (Guardian.r_state receipt = Guardian.Running)
             && is_some (Guardian.r_guest_boot_id receipt) then
            n ← now;
            mret (if n <? Guardian.r_expires_unix_ms receipt then Some receipt else None)
          else mret None
      | _, _ => mret None
      end
  | Err _ => mret None
  end.

(** [Host::observe_record] *)
Definition observe_record (r : Record_) : H (AllocationState * option Guardian.Receipt) :=
  _ ← lift (check_retirement r);
  if stopped r then
    receipt ← cleanup r;
    mret (if is_some (manifest r) then Released else FencedAbsent, receipt)
  else match manifest r with
  | None => mret (Absent, None)
  | Some m =>
      live ← bind_guest m;
      match live with
      | Some receipt => mret (Ready, Some receipt)
      | None =>
          answer ← fence_unstarted m;
          receipt ← match answer with
                    | Ok receipt => mret receipt
                    | Err e => fail (if transient e
                                     then unavailable "allocation guardian is still active"
                                     else uncertain)
                    end;
          _ ← mark_released (o_allocation_id (owner r));
          mret (Released, Some receipt)
      end
  end.

(** [Host::observation] *)
Definition observation (o : Ownership) (r : Record_) (state : AllocationState)
    (receipt : option Guardian.Receipt) : H Observation :=
  n ← now;
  mret {|
    ob_ownership := Some o;
    ob_state := state;
    ob_simulated := false;
    ob_start_count :=
      if is_some_and (fun v => is_some (Guardian.r_firecracker_namespace_pid v)) receipt then 1 else 0;
    ob_create_operation_id :=
      match manifest r with
      | Some m => to_string (Guardian.create_operation (Guardian.owner (Guardian.start m)))
      | None => ""
      end;
    ob_observed_unix_ms := n;
    ob_reason := match state with
                 | Ready => "authenticated guest boot bound"
                 | Released => "owned cgroup and runtime files cleaned"
                 | FencedAbsent => "durable stop before create"
                 | Absent => "no allocation execution evidence"
                 end
  |}.
Definition report (o : Ownership) (r : Record_) : H Observation :=
  '(state, receipt) ← observe_record r;
  observation o r state receipt.

(** ** authority.rs *)

(** [Host::authorize_create] *)
Definition authorize_create (o : Ownership) (request : CreateRequest)
    : H (option LaunchAuthority.LaunchGuard) :=
  match authority with
  | None =>
      _ ← lift (ensure (bool_decide (c_launch_permit_json request = ""))
                  (failed_precondition "permit requires provisioned authority"));
      mret None
  | Some _ =>
      _ ← lift (ensure (strlen (c_launch_permit_json request) <=? 4096)
                  (invalid_argument "permit too large"));
      p ← lift (ok_or (from_slice (c_launch_permit_json request))
                  (invalid_argument "launch permit required"));
      _ ← lift (ensure (bool_decide (to_string (Authority.host p) = o_host_id o)
                        && bool_decide (to_string (Authority.project p) = o_project_id o)
                        && bool_decide (to_string (Authority.sandbox p) = o_sandbox_id o)
                        && bool_decide (to_string (Authority.allocation p) = o_allocation_id o)
                        && bool_decide (to_string (Authority.create_operation p) = o_operation_id o)
                        && (Authority.generation p =? o_generation o)
                        && (Authority.original_epoch p =? o_supervisor_epoch o))
                  (failed_precondition "launch permit ownership mismatch"));
      guard ← launch (fun _ => uncertain)
                (LaunchAuthority.authorize (allocations_root config) (Some p));
      mret (Some guard)
  end.
Definition with_guard {A} (guard : option LaunchAuthority.LaunchGuard) (body : H A) : H A :=
  match guard with
  | Some g => holding (LaunchAuthority._lock g) body
  | None => body
  end.

(** [Host::allocation_authority_sync] *)
Definition allocation_authority_sync (request : AllocationAuthorityRequest)
    : H AllocationAuthorityObservation :=
  _ ← lift (ensure (bool_decide (ar_host_id request = to_string (host config))
                    && (ar_reporting_epoch request =? epoch config))
              (failed_precondition "wrong authority host or epoch"));
  file ← lift (ok_or authority (failed_precondition "launch authority is not provisioned"));
  j ← journal_;
  checkpoint ← (if bool_decide (ar_permits_json request = "") then
      launch (fun _ => uncertain) (LaunchAuthority.checkpoint file (ar_reporting_epoch request))
    else
      _ ← lift (ensure (strlen (ar_permits_json request) <=? 65536)
                  (invalid_argument "permit batch too large"));
      permits ← lift (ok_or (from_slice (ar_permits_json request))
                        (invalid_argument "invalid permit batch"));
      launch (fun _ => uncertain)
        (LaunchAuthority.register file (ar_reporting_epoch request) permits));
  prior ← lift (ok_or (launch_authority j) uncertain);
  _ ← lift (ensure (LaunchAuthority.registered_through prior
                    <=? LaunchAuthority.registered_through checkpoint) uncertain);
  _ ← (if bool_decide (prior = checkpoint) then mret tt
       else
         h ← get;
         _ ← set_journal (set_checkpoint (journal h) checkpoint);
         save);
  mret {|
    ao_host_id := to_string (LaunchAuthority.checkpoint_host checkpoint);
    ao_reporting_epoch := LaunchAuthority.checkpoint_epoch checkpoint;
    ao_registered_through := LaunchAuthority.registered_through checkpoint
  |}.

(** ** mod.rs: create, inspect, stop *)

(** A retry must repeat the input of the creation. *)
Definition same_create (o : Ownership) (original request : CreateRequest) : bool :=
  bool_decide (o_operation_id <$> c_ownership original = Some (o_operation_id o))
  && bool_decide (c_launch_permit_json original = c_launch_permit_json request)
  && bool_decide (c_image_digest original = c_image_digest request)
  && bool_decide (c_resources original = c_resources request)
  && (c_allocation_expires_unix_ms original =? c_allocation_expires_unix_ms request).

(** The wait for readiness: every round but the last sleeps for at least 25 ms, so the
    deadline of 4 s has passed after 160 of them if not before. *)
Fixpoint await_ready (rounds : nat) (o : Ownership) (r : Record_) (m : Manifest) : H Observation :=
  live ← bind_guest m;
  match live with
  | Some receipt => observation o r Ready (Some receipt)
  | None =>
      late ← on_system (ask PollDeadline passed_early);
      match rounds with
      | O => fail uncertain
      | S rounds => if late : bool then fail uncertain else await_ready rounds o r m
      end
  end.
Definition READY_ROUNDS : nat := 160.

(** A creation that cannot proceed is stopped for good, and then observed. *)
Definition stop_and_report (o : Ownership) (r : Record_) : H Observation :=
  _ ← mark_stopped (o_allocation_id o);
  report o (set_stopped r true).

(** The durable dispatch mark of [create_sync]. *)
Definition mark_dispatched (id : string) : H unit :=
  r ← record_of id;
  _ ← write_record id (set_dispatched r true);
  save.

(** [create_sync] from the admission on. *)
Definition launch_admitted (o : Ownership) (r : Record_) (m : Manifest) : H Observation :=
  ok ← on_system (ask (Prepare m) (fun t => prepared t m));
  (* the deadline is read only when staging succeeded *)
  ok ← (if ok : bool then n ← now; mret (is_ok (deadline_at n (o_claim_expires_unix_ms o)))
        else mret false);
  if negb ok then stop_and_report o r else
  _ ← mark_dispatched (o_allocation_id o);
  ok ← on_system (ask (Spawn m) (fun t => spawned t m));
  if ok : bool then await_ready READY_ROUNDS o r m else stop_and_report o r.

(** [Host::create_sync] *)
Definition create_sync (request : CreateRequest) : H Observation :=
  o ← owner_ (c_ownership request);
  guard ← authorize_create o request;
  with_guard guard (
    _ ← gate o;
    r ← fence o;
    match create r with
    | Some original =>
        _ ← lift (ensure (same_create o original request)
                    (already_exists "allocation retry changed create input"));
        report o r
    | None =>
        _ ← lift (ensure (negb (stopped r)) (failed_precondition "allocation is stop-fenced"));
        m ← manifest_for o request;
        r ← admit_start o request m;
        launch_admitted o r m
    end).

(** [Host::inspect_sync] *)
Definition inspect_sync (ownership : option Ownership) (stop : bool) : H Observation :=
  o ← owner_ ownership;
  _ ← gate o;
  r ← fence o;
  r ← (if stop then _ ← mark_stopped (o_allocation_id o); mret (set_stopped r true) else mret r);
  report o r.

(** ** mod.rs: leases *)

(** An allocation-level claim presented as an ownership, with a generated operation. *)
Definition as_ownership (l : LeaseOwnership) (op : OperationId) : Ownership := {|
  o_host_id := l_host_id l; o_project_id := l_project_id l; o_sandbox_id := l_sandbox_id l;
  o_allocation_id := l_allocation_id l; o_operation_id := to_string op;
  o_generation := l_generation l; o_supervisor_epoch := l_supervisor_epoch l;
  o_claim_revision := l_revision l; o_claim_expires_unix_ms := l_claim_expires_unix_ms l
|}.
Definition lease_owner (l : LeaseOwnership) : H Ownership :=
  op ← on_system generate;
  owner_ (Some (as_ownership l op)).

(** The record of a lease: its revision and the one deadline asked for at that revision. *)
Definition record_lease (o : Ownership) (l : LeaseOwnership) (until : option Z) : H Record_ :=
  r ← record_of (o_allocation_id o);
  _ ← lift (ensure (same_allocation (owner r) o && (lease_revision r <=? l_revision l))
              (failed_precondition "stale or mismatched lease ownership"));
  _ ← lift (ensure (is_none_or (fun u =>
              negb (is_some_and (fun q : Z * Z => (q.1 =? l_revision l) && negb (q.2 =? u))
                      (lease_request r))) until)
              (already_exists "lease retry changed deadline"));
  let request := match until with Some u => Some (l_revision l, u) | None => lease_request r end in
  let r := set_lease r (l_revision l) request in
  _ ← write_record (o_allocation_id o) r;
  _ ← save;
  mret r.

(** [Host::lease_sync] *)
Definition lease_sync (ownership : option LeaseOwnership) (until : option Z) : H LeaseObservation :=
  l ← lift (ok_or ownership (invalid_argument "lease ownership required"));
  o ← lease_owner l;
  _ ← match until with Some u => deadline u | None => mret tt end;
  j ← journal_;
  let answer state expires :=
    n ← now;
    mret {| lo_ownership := Some l; lo_state := state; lo_simulated := false;
            lo_allocation_expires_unix_ms := expires; lo_observed_unix_ms := n |} in
  if is_none (records j !! o_allocation_id o) then answer Absent 0 else
  _ ← deadline (l_claim_expires_unix_ms l);
  r ← record_lease o l until;
  _ ← match until, manifest r with
      | Some u, Some m =>
          if stopped r then mret tt else
          reply ← control_ m (Guardian.Renew (l_revision l) u);
          response ← lift (or_uncertain reply);
          lift (ensure (is_none (Guardian.error response)) uncertain)
      | _, _ => mret tt
      end;
  '(state, receipt) ← observe_record r;
  answer state (match receipt with Some v => Guardian.r_expires_unix_ms v | None => 0 end).

(** ** mod.rs: maintenance *)

(** Whether a maintenance pass has anything to do for a record. *)
Definition needs_reconciliation (n : Z) (read : Manifest -> result anyhow Guardian.Receipt)
    (r : Record_) : bool :=
  negb (released r)
  && match manifest r with
     | None => false
     | Some m =>
         negb (negb (stopped r)
               && match (receipt ← read m; _ ← Guardian.validate_receipt m receipt; Ok receipt) with
                  | Ok receipt => bool_decide (Guardian.r_state receipt = Guardian.Running)
                                  && (n <? Guardian.r_expires_unix_ms receipt)
                  | Err _ => false
                  end)
     end.

(** [let _ = host.observe_record(&record)] *)
Definition ignoring {A} (m : H A) : H unit := fun h => let '(h', _) := m h in (h', Ok tt).

(** [Host::reconcile_one]; [cursor] is what the shared counter returned. *)
Definition reconcile_one (cursor : nat) : H unit :=
  j ← journal_;
  n ← now;
  read ← on_system (ask (ReadReceipts "") receipt_file);
  let targets := List.filter (needs_reconciliation n read) (entries (records j)).*2 in
  match targets !! (cursor mod length targets)%nat with
  | None => mret tt
  | Some r =>
      free ← on_system (ask TryGate gate_free);
      if free : bool then ignoring (observe_record r) else mret tt
  end.

(** ** previous.rs *)

(** [Host::previous_allocation] *)
Definition at_epoch (o : Ownership) (e : Z) : Ownership := {|
  o_host_id := o_host_id o; o_project_id := o_project_id o; o_sandbox_id := o_sandbox_id o;
  o_allocation_id := o_allocation_id o; o_operation_id := o_operation_id o;
  o_generation := o_generation o; o_supervisor_epoch := e; o_claim_revision := o_claim_revision o;
  o_claim_expires_unix_ms := o_claim_expires_unix_ms o
|}.
Definition cleanup_confirmed_state (s : AllocationState) : bool :=
  match s with Released | FencedAbsent => true | Absent | Ready => false end.
Definition previous_allocation (request : PreviousAllocationRequest) : H PreviousAllocationObservation :=
  o ← lift (ok_or (pr_ownership request) (invalid_argument "original ownership required"));
  _ ← lift (ensure ((pr_reporting_epoch request =? epoch config) && (0 <? o_supervisor_epoch o)
                    && (o_supervisor_epoch o <? pr_reporting_epoch request))
              (failed_precondition "invalid recovery epochs"));
  _ ← owner_ (Some (at_epoch o (pr_reporting_epoch request)));
  j ← journal_;
  r ← lift (ok_or (records j !! o_allocation_id o) (failed_precondition "retained ownership unavailable"));
  _ ← lift (ensure (same_allocation (owner r) o && stopped r)
              (failed_precondition "original owner is not fenced"));
  free ← on_system (ask TryGate gate_free);
  _ ← lift (ensure free (unavailable "allocation recovery busy"));
  _ ← deadline (o_claim_expires_unix_ms o);
  r ← record_of (o_allocation_id o);
  _ ← lift (ensure (same_allocation (owner r) o && stopped r) uncertain);
  _ ← lift (check_retirement r);
  '(state, receipt) ← observe_record r;
  _ ← lift (ensure (cleanup_confirmed_state state) uncertain);
  _ ← deadline (o_claim_expires_unix_ms o);
  release ← observation o r state receipt;
  mret {| po_request := request; po_release := release |}.

(** ** guardian/mod.rs and guest.rs: the guest client *)

(** [Manifest::guest_client]: a live owner, a bound boot and its credentials. The client is
    the context it is pinned to. *)
Definition guest_client (m : Manifest) : H (result anyhow Context) :=
  reply ← control_ m Guardian.Inspect;
  match (response ← reply;
         _ ← ensure (is_none (Guardian.error response)) "guardian inspection uncertain";
         receipt ← ok_or (Guardian.receipt response) "guardian receipt missing";
         _ ← ensure (bool_decide (Guardian.r_state receipt = Guardian.Running))
               "allocation is not live";
         Ok receipt) with
  | Err e => mret (Err e)
  | Ok receipt =>
      n ← now;
      if negb (n <? Guardian.r_expires_unix_ms receipt) then mret (Err "allocation is not live") else
      match Guardian.r_guest_boot_id receipt with
      | None => mret (Err "guest boot not bound")
      | Some boot =>
          identity ← on_system (ask (OpenIdentity m) (fun t => identity_reply t m receipt));
          mret (_ ← identity;
                Ok {| allocation_id := Guardian.allocation (Guardian.owner (Guardian.start m));
                      generation := Guardian.generation (Guardian.owner (Guardian.start m));
                      boot_id := boot |})
      end
  end.

(** [GuestClient::receipt] *)
Definition client_receipt (client : Context) (r : w.Receipt) (id : OperationId) : result anyhow Receipt :=
  receipt ← try_receipt r;
  _ ← ensure (bool_decide (r_operation_id receipt = id) && bool_decide (r_context receipt = client))
        "guest receipt ownership mismatch";
  Ok receipt.

(** [GuestClient::execute]: an invalid command is not sent. *)
Definition client_execute (client : Context) (e : Execute) : H (result anyhow Receipt) :=
  match execute_validate e with
  | Err m => mret (Err m)
  | Ok _ =>
      answer ← on_system (ask (GuestExecute client e) (fun t => execute_reply t client e));
      mret (wire ← answer;
            receipt ← client_receipt client wire (e_operation_id e);
            d ← execute_digest e;
            _ ← ensure (bool_decide (r_digest receipt = d)
                        && (r_deadline_unix_ms receipt =? e_deadline_unix_ms e)
                        && (r_output_limit receipt =? e_output_limit e))
                  "guest receipt payload mismatch";
            Ok receipt)
  end.

(** [GuestClient::inspect] and [GuestClient::cancel] *)
Definition client_inspect (client : Context) (id : OperationId) : H (result anyhow Receipt) :=
  answer ← on_system (ask (GuestInspect client id) (fun t => inspect_reply t client id));
  mret (wire ← answer; client_receipt client wire id).
Definition client_cancel (client : Context) (id : OperationId) : H (result anyhow Receipt) :=
  answer ← on_system (ask (GuestCancel client id) (fun t => cancel_reply t client id));
  mret (wire ← answer; client_receipt client wire id).

(** [GuestClient::retire_history]: the acknowledgement must be the barrier itself. *)
Definition client_retire (client : Context) (b : Barrier) : H (result anyhow unit) :=
  match History.barrier_validate b client (History.domain b) with
  | Err m => mret (Err m)
  | Ok _ =>
      answer ← on_system (ask (GuestRetire client b) (fun t => retire_reply t client b));
      mret (wire ← answer;
            acknowledged ← History.try_barrier wire;
            ensure (bool_decide (acknowledged = b)) "history acknowledgement changed")
  end.

(** ** commands.rs *)

(** [Host::save_command] *)
Definition save_command (o : Ownership) (c : Command.CommandRecord) : H unit :=
  r ← record_of (o_allocation_id o);
  _ ← write_record (o_allocation_id o) (set_commands r (<[o_operation_id o := c]> (commands r)));
  save.

(** Admission of an operation to the command journal. *)
Definition command_admission (o : Ownership) (r : Record_) : result Status unit :=
  _ ← ensure (is_none (files r !! o_operation_id o))
        (already_exists "operation belongs to a file transfer");
  ensure (is_some (commands r !! o_operation_id o)
          || (Z.of_nat (size (commands r)) <? Command.MAX_COMMANDS))
    (resource_exhausted "retained command journal full").

(** [Host::command_gate] *)
Definition command_gate (o : Ownership) : H unit :=
  _ ← gate o;
  r ← record_of (o_allocation_id o);
  lift (command_admission o r).

(** [Host::command_fence] *)
Definition command_fence (o : Ownership) : H Record_ :=
  r ← record_of (o_allocation_id o);
  id ← lift (or_uncertain (parse_operation (o_operation_id o)));
  _ ← lift (check_history r History.Commands id);
  _ ← lift (command_admission o r);
  fence o.

Definition command_observation (c : Command.CommandRecord) (o : Ownership) : H CommandObservation :=
  n ← now; mret (Command.observation c o false n).

(** [Host::observe_command] *)
Definition observe_command (o : Ownership) (r : Record_) (c : Command.CommandRecord) (cancel : bool)
    : H CommandObservation :=
  let unobserved c current :=
    observation ← command_observation c o;
    mret (if current : bool then observation else
          {| co_ownership := co_ownership observation; co_simulated := co_simulated observation;
             co_observed_unix_ms := co_observed_unix_ms observation;
             co_command_digest := co_command_digest observation; co_receipt := None;
             co_not_started := co_not_started observation |}) in
  match (if Command.finished c || stopped r then None else manifest r) with
  | None => unobserved c (Command.finished c)
  | Some m =>
      client ← guest_client m;
      match client with
      | Err _ => unobserved c false
      | Ok client =>
          id ← lift (or_uncertain (parse_operation (o_operation_id o)));
          response ← (if cancel then client_cancel client id else client_inspect client id);
          match response with
          | Err _ => unobserved c false
          | Ok receipt =>
              _ ← lift (or_uncertain (Command.validate_receipt c id receipt));
              let c := Command.with_receipt c (Some receipt) in
              _ ← save_command o c;
              unobserved c true
          end
      end
  end.

(** [Host::inspect_or_cancel] *)
Definition inspect_or_cancel (request : CommandInspection) (cancel : bool) : H CommandObservation :=
  o ← owner_ (ci_ownership request);
  d ← lift (or_status (to_array32 "digest" (ci_command_digest request))
              (invalid_argument "invalid command digest"));
  _ ← command_gate o;
  r ← command_fence o;
  c ← match commands r !! o_operation_id o with
      | Some c =>
          _ ← lift (ensure (bool_decide (Command.digest c = d)) (already_exists "command digest changed"));
          mret c
      | None =>
          _ ← lift (ensure (Z.of_nat (size (commands r)) <? Command.MAX_COMMANDS)
                      (resource_exhausted "command journal full"));
          let c := Command.fenced d in
          _ ← save_command o c;
          mret c
      end;
  observe_command o r c cancel.

(** Whether a new command may be dispatched at the wall clock [n]. *)
Definition dispatchable (n : Z) (e : Execute) (r : Record_) : bool :=
  let remaining := default 0 (i64_checked_sub (e_deadline_unix_ms e) n) in
  let reserved := sum_by (fun c => Command.cmd_output_limit c.2) (entries (commands r)) in
  negb (stopped r) && negb (released r)
  && forallb (fun c => Command.finished c.2) (entries (commands r))
  && contains 1 Command.MAX_DURATION_MS remaining
  && (u64_saturating_add reserved (e_output_limit e) <=? MAX_RESERVED_OUTPUT).

(** The dispatch of a new command: its intent is retained before the guest is called. *)
Definition dispatch (o : Ownership) (e : Execute) (client : Context) : H CommandObservation :=
  _ ← deadline (o_claim_expires_unix_ms o);
  retained ← lift (or_uncertain (Command.pending e client));
  _ ← save_command o retained;
  _ ← deadline (o_claim_expires_unix_ms o);
  response ← client_execute client e;
  match response with
  | Err _ => command_observation retained o
  | Ok receipt =>
      _ ← lift (or_uncertain (Command.validate_receipt retained (e_operation_id e) receipt));
      let retained := Command.with_receipt retained (Some receipt) in
      _ ← save_command o retained;
      command_observation retained o
  end.

(** [Host::execute_command_sync] *)
Definition execute_command_sync (request : CommandRequest) : H CommandObservation :=
  o ← owner_ (cr_ownership request);
  wire ← lift (ok_or (cr_command request) (invalid_argument "command required"));
  e ← lift (or_status (try_execute wire) (invalid_argument "invalid command"));
  _ ← lift (ensure (bool_decide (to_string (e_operation_id e) = o_operation_id o)
                    && (e_output_limit e <=? Command.MAX_OUTPUT))
              (invalid_argument "command ownership or output budget mismatch"));
  d ← lift (or_uncertain (execute_digest e));
  _ ← command_gate o;
  r ← command_fence o;
  match commands r !! o_operation_id o with
  | Some previous =>
      _ ← lift (ensure (bool_decide (Command.digest previous = d))
                  (already_exists "command retry changed payload"));
      observe_command o r previous false
  | None =>
      _ ← lift (ensure (Z.of_nat (size (commands r)) <? Command.MAX_COMMANDS)
                  (resource_exhausted "command journal full"));
      n ← now;
      client ← match (if dispatchable n e r then manifest r else None) with
               | Some m => guest_client m
               | None => mret (Err "not eligible")
               end;
      match client with
      | Err _ =>
          let c := Command.fenced d in
          _ ← save_command o c;
          command_observation c o
      | Ok client => dispatch o e client
      end
  end.

(** ** history.rs *)

(** [Host::history_binding_sync] *)
Definition history_binding_sync (ownership : option LeaseOwnership) : H HistoryBindingObservation :=
  l ← lift (ok_or ownership (invalid_argument "history ownership required"));
  o ← lease_owner l;
  j ← journal_;
  _ ← lift (ok_or (records j !! l_allocation_id l) (not_found "allocation history missing"));
  _ ← deadline (l_claim_expires_unix_ms l);
  r ← record_of (l_allocation_id l);
  _ ← lift (ensure (same_allocation (owner r) o && negb (stopped r) && negb (released r))
              (failed_precondition "original live allocation required"));
  m ← lift (ok_or (manifest r) uncertain);
  client ← guest_client m;
  client ← lift (or_uncertain client);
  _ ← deadline (l_claim_expires_unix_ms l);
  n ← now;
  mret {| hb_ownership := ownership; hb_context := from_context client; hb_observed_unix_ms := n |}.

(** Room for a rewritten record, before the journal is touched. *)
Definition ensure_headroom (id : string) (next : Record_) : H unit :=
  j ← journal_;
  r ← lift (ok_or (records j !! id) uncertain);
  before ← lift (ok_or (to_vec r) uncertain);
  after ← lift (ok_or (to_vec next) uncertain);
  total ← lift (ok_or (to_vec j) uncertain);
  lift (ensure (u64_saturating_add (u64_saturating_sub (strlen total) (strlen before)) (strlen after)
                <=? MAX_BYTES) (resource_exhausted "host journal lacks retirement headroom")).

(** The live guest that a retirement which is not complete must reach. *)
Definition retirement_client (r : Record_) (v : Retirement) : H (option Context) :=
  if completed v then mret None else
  _ ← lift (ensure (negb (stopped r) && negb (released r))
              (failed_precondition "retirement requires original live guest"));
  m ← lift (ok_or (manifest r) uncertain);
  client ← guest_client m;
  client ← lift (or_uncertain client);
  _ ← lift (or_status (History.barrier_validate (barrier v) client (History.domain (barrier v)))
              (failed_precondition "retirement guest identity changed"));
  mret (Some client).

(** [Host::retire_history_sync] *)
Definition retire_history_sync (request : HistoryRequest) : H HistoryObservation :=
  l ← lift (ok_or (hr_ownership request) (invalid_argument "retirement ownership required"));
  o ← lease_owner l;
  wire ← lift (ok_or (hr_barrier request) (invalid_argument "history barrier required"));
  b ← lift (or_status (History.try_barrier wire) (invalid_argument "invalid history barrier"));
  j ← journal_;
  _ ← lift (ok_or (records j !! l_allocation_id l) (not_found "allocation history missing"));
  _ ← deadline (l_claim_expires_unix_ms l);
  r ← record_of (l_allocation_id l);
  _ ← lift (ensure (same_allocation (owner r) o)
              (failed_precondition "retirement allocation identity changed"));
  let '(next, prepared_) := prepare b (l_revision l) r in
  v ← lift (or_status prepared_ (failed_precondition "retirement unresolved or claim changed"));
  client ← retirement_client next v;
  _ ← (if bool_decide (History.domain (barrier v) = History.Files) && negb (completed v) then
         free ← on_system (ask AcquireFileWorker file_worker_free);
         lift (ensure free (resource_exhausted "allocation file worker busy"))
       else mret tt);
  _ ← ensure_headroom (l_allocation_id l) next;
  retained ← record_of (l_allocation_id l);
  _ ← write_record (l_allocation_id l)
        (set_slot retained (History.domain (barrier v)) (Some v));
  _ ← save;
  _ ← match client with
      | None => mret tt
      | Some client =>
          _ ← deadline (l_claim_expires_unix_ms l);
          answer ← client_retire client (barrier v);
          _ ← lift (or_uncertain answer);
          _ ← deadline (l_claim_expires_unix_ms l);
          retained ← record_of (l_allocation_id l);
          let '(retained, done) := complete v retained in
          _ ← write_record (l_allocation_id l) retained;
          _ ← lift (or_uncertain done);
          save
      end;
  _ ← deadline (l_claim_expires_unix_ms l);
  n ← now;
  mret {| ho_request := request; ho_completed := History.from_barrier (barrier v);
          ho_observed_unix_ms := n |}.

(** ** released_history.rs *)

(** [Host::retire_released_history_sync] *)
Definition retire_released_history_sync (request : ReleasedHistoryRequest)
    : H ReleasedHistoryObservation :=
  l ← lift (ok_or (rr_ownership request) (invalid_argument "original ownership required"));
  _ ← lift (ensure ((rr_reporting_epoch request =? epoch config) && (0 <? l_supervisor_epoch l)
                    && (l_supervisor_epoch l <=? rr_reporting_epoch request))
              (failed_precondition "invalid retirement epochs"));
  op ← on_system generate;
  o ← owner_ (Some (at_epoch (as_ownership l op) (rr_reporting_epoch request)));
  let o := at_epoch o (l_supervisor_epoch l) in
  d ← lift (match rr_domain request with
            | 1 => Ok History.Commands
            | 2 => Ok History.Files
            | _ => Err (invalid_argument "invalid retirement domain")
            end);
  through ← lift (or_status (parse_operation (rr_through request))
                    (invalid_argument "invalid retirement prefix"));
  _ ← lift (or_status (valid_id through) (invalid_argument "invalid retirement prefix"));
  j ← journal_;
  _ ← lift (ok_or (records j !! l_allocation_id l) (failed_precondition "retained ownership required"));
  _ ← deadline (l_claim_expires_unix_ms l);
  r ← record_of (l_allocation_id l);
  _ ← lift (ensure (same_allocation (owner r) o && stopped r)
              (failed_precondition "original owner is not fenced"));
  _ ← lift (check_retirement r);
  '(state, _) ← observe_record r;
  _ ← lift (ensure (cleanup_confirmed_state state) uncertain);
  _ ← deadline (l_claim_expires_unix_ms l);
  r ← record_of (l_allocation_id l);
  read ← on_system (ask (ReadReceipts (l_allocation_id l)) receipt_file);
  let '(next, reclaimed) := reclaim read d through (l_revision l) (rr_reporting_epoch request) r in
  done ← lift (or_status reclaimed (failed_precondition "unresolved history or changed claim"));
  _ ← ensure_headroom (l_allocation_id l) next;
  _ ← deadline (l_claim_expires_unix_ms l);
  _ ← write_record (l_allocation_id l) next;
  _ ← save;
  n ← now;
  mret {| ro_request := request; ro_completed_through := to_string done;
          ro_release_state := state; ro_observed_unix_ms := n |}.

(** ** retirement.rs *)

(** [retirement::empty]: the record of an allocation the host never heard of. *)
Definition empty_record (request : RetirementRequest) : Record_ :=
  let p := Authority.Retirement.permit (Authority.Retirement.intent request) in
  set_stopped (new_record {|
    o_host_id := to_string (Authority.host p); o_project_id := to_string (Authority.project p);
    o_sandbox_id := to_string (Authority.sandbox p);
    o_allocation_id := to_string (Authority.allocation p);
    o_operation_id := to_string (Authority.create_operation p);
    o_generation := Authority.generation p; o_supervisor_epoch := Authority.original_epoch p;
    o_claim_revision := Authority.Retirement.revision request;
    o_claim_expires_unix_ms := Authority.Retirement.expires_unix_ms request |}) true.

(** A launch lock that is busy is told apart from a refusal. *)
Definition launch_status (busy other : Status) (e : error Authority.Error) : Status :=
  match e with LockContended => busy | _ => other end.

(** The retirement recorded in the journal, with the launch authority held shared. *)
Definition record_retirement (request : RetirementRequest) : H unit :=
  let i := Authority.Retirement.intent request in
  let id := to_string (Authority.allocation (Authority.Retirement.permit i)) in
  j ← journal_;
  r ← match records j !! id with
      | Some r => mret r
      | None =>
          _ ← lift (ensure (Z.of_nat (size (records j)) <? MAX_RECORDS)
                      (resource_exhausted "host receipt capacity full"));
          mret (empty_record request)
      end;
  free ← on_system (ask TryGate gate_free);
  _ ← lift (ensure free (unavailable "allocation retirement busy"));
  _ ← lift (or_status (scope r request) (failed_precondition "retirement scope is not closed"));
  _ ← match retirement r with
      | None => mret tt
      | Some old =>
          n ← now;
          _ ← lift (or_status (Authority.Intent.request_validate request
                                 (Authority.Retirement.intent old) (epoch config)
                                 (Authority.Retirement.revision old) n)
                      (failed_precondition "retirement scope or claim changed"));
          lift (ensure (negb (Authority.Retirement.revision request
                              =? Authority.Retirement.revision old)
                        || bool_decide (request = old))
                  (failed_precondition "retirement claim changed without revision"))
      end;
  _ ← write_record id (set_stopped (set_retirement r (Some request)) true);
  save.

(** [Host::fence_allocation_sync] *)
Definition fence_allocation_sync (wire : AllocationFenceRequest) : H AllocationFenceObservation :=
  request ← lift (or_status (Authority.Intent.request_decode (af_request_json wire))
                    (invalid_argument "invalid retirement request"));
  let i := Authority.Retirement.intent request in
  let p := Authority.Retirement.permit i in
  _ ← lift (ensure (is_some authority && negb (Authority.Retirement.simulated i)
                    && bool_decide (Authority.host p = host config))
              (failed_precondition "registered physical retirement owner required"));
  _ ← deadline (Authority.Retirement.expires_unix_ms request);
  n ← now;
  _ ← lift (or_status (Authority.Intent.request_validate request i (epoch config) 1 n)
              (failed_precondition "invalid retirement claim"));
  j ← journal_;
  checkpoint ← lift (ok_or (launch_authority j) uncertain);
  let through := LaunchAuthority.registered_through checkpoint in
  guard ← launch (launch_status (unavailable "retirement authority busy")
                    (failed_precondition "retirement authority rejected"))
    (LaunchAuthority.authorize_retirement (allocations_root config) (host config) (epoch config)
       through i);
  _ ← holding (LaunchAuthority._lock guard) (record_retirement request);
  file ← launch (fun _ => uncertain)
    (LaunchAuthority.open (allocations_root config) (host config) (epoch config) through);
  _ ← launch (launch_status (unavailable "retirement authority fence busy") uncertain)
    (LaunchAuthority.fence file (epoch config) p (Authority.Retirement.retirement i));
  closed ← on_system (ask CloseReaders readers_closed);
  _ ← lift (ensure closed (unavailable "allocation readers still active"));
  pending ← on_system (ask PendingDownloads downloads_pending);
  _ ← lift (ensure (negb pending) (unavailable "allocation capture tickets still active"));
  _ ← deadline (Authority.Retirement.expires_unix_ms request);
  n ← now;
  mret {| fo_request := wire; fo_observed_unix_ms := n |}.
End host.

(** ** Start-up *)

Section open.
Context `{Env, UuidLib, Sha256, HexLib, Serde Authority.Retirement.Intent, Serde Authority.Saved,
          Serde LaunchAuthority.Required, Serde LaunchAuthority.Saved, Serde Manifest,
          Serde Files.Upload, Serde Files.FileRecord, Serde Journal}.

(** The configuration of [Host::open_with_artifacts]. *)
Definition config_ok (c : Config) : bool :=
  (0 <? epoch c) && negb (bool_decide (images c = ∅)) && (Z.of_nat (size (images c)) <=? 64)
  && forallb (fun e => Resources.valid_image_digest e.1) (entries (images c))
  && (0 <? cap_vcpu (capacity c)) && (0 <? cap_memory_mib (capacity c))
  && (0 <? cap_disk_mib (capacity c))
  && Guardian.is_absolute (state_root c) && Guardian.is_absolute (guardian_binary c).

(** The manifest that every configured image must make valid. *)
Definition trial_manifest (c : Config) (i : Image) (n : Z) (project : ProjectId) (sandbox : SandboxId)
    (allocation : AllocationId) (operation : OperationId) : Manifest := {|
  Guardian.launch_permit := None;
  Guardian.config := guardian_config c i;
  Guardian.start := {|
    Guardian.owner := {|
      Guardian.host := host c; Guardian.project := project; Guardian.sandbox := sandbox;
      Guardian.allocation := allocation; Guardian.create_operation := operation;
      Guardian.generation := 1; Guardian.epoch := epoch c |};
    Guardian.vcpu := 1; Guardian.memory_mib := 128; Guardian.disk_mib := 64;
    Guardian.expires_unix_ms := n + 1000 |}
|}.

(** [Host::open]; the four identities of the trial manifests are generated alike. *)
Definition open (c : Config) : ST System anyhow (option LaunchAuthority.AuthorityFile * Journal) :=
  _ ← lift (ensure is_root "real supervisor requires root");
  _ ← lift (ensure (config_ok c) "invalid real host configuration");
  _ ← lift (validate_images (images c));
  answer ← ask GuardianBinary preflight_reply;
  _ ← lift answer;
  _ ← Journal.for_each_st (fun e : string * Image =>
        id ← generate;
        n ← wall_ms;
        lift (Guardian.validate is_root
                (trial_manifest c e.2 n (from_uuid (uuid id)) (from_uuid (uuid id))
                   (from_uuid (uuid id)) id))) (entries (images c));
  j ← Journal.open c;
  Journal.open_authority c j.
End open.
