(* ===== verification/HostFiles.v ===== *)
(** * The host's side of an upload
    (host/files.rs and guest/files.rs of crates/sandbox-supervisor/src, and
    [FileRecord::observation] of sandbox-protocol/src/supervisor_files.rs)

    The controls of an upload are requests of the host: its record is admitted to the
    journal, and every control is on disk, before the guest hears of it. *)

From S2P Require Import Prelude Ext Ids GuestModel GuestWire Wire FileWire Fs HostModel HostEnv HostOps.
From S2P Require Authority LaunchAuthority Resources Guardian Command Files History Journal.
#[local] Existing Instances Files.Upload_eq_dec.
Import Files(Upload, FileRecord, u_operation_id, u_size, upload_validate, upload_digest).

(** ** Messages (proto/supervisor.proto) *)

Record FileRequest : Type := { fr_ownership : option Ownership; fr_upload : option fw.FileUpload }.
Record FileWriteRequest : Type := { fw_request : option FileRequest; fw_offset : Z; fw_data : bytes }.
Record FileObservation : Type := {
  fb_ownership : option Ownership;
  fb_simulated : bool;
  fb_observed_unix_ms : Z;
  fb_upload_digest : bytes;
  fb_context : option w.Context;
  fb_state : Z;
  fb_not_started : bool;
  fb_stored : option Z;
}.

Inductive FileAction : Type := Begin | Inspect | Commit | Abort | Write (offset : Z) (data : bytes).

(** [FileRecord::observation] *)
Definition file_observation `{UuidLib} (f : FileRecord) (o : Ownership) (simulated : bool) (n : Z) (stored : option Z)
    : FileObservation := {|
  fb_ownership := Some o; fb_simulated := simulated; fb_observed_unix_ms := n;
  fb_upload_digest := Files.digest f; fb_context := from_context <$> Files.context f;
  fb_state := Files.state f; fb_not_started := Files.not_started f; fb_stored := stored
|}.
(** [result.state = 0] *)
Definition without_state (b : FileObservation) : FileObservation := {|
  fb_ownership := fb_ownership b; fb_simulated := fb_simulated b;
  fb_observed_unix_ms := fb_observed_unix_ms b; fb_upload_digest := fb_upload_digest b;
  fb_context := fb_context b; fb_state := 0; fb_not_started := fb_not_started b; fb_stored := fb_stored b
|}.

Definition request_commit (f : FileRecord) : FileRecord := {|
  Files.digest := Files.digest f; Files.context := Files.context f; Files.size := Files.size f;
  Files.not_started := Files.not_started f; Files.commit_requested := true;
  Files.abort_requested := Files.abort_requested f; Files.state := Files.state f
|}.
Definition request_abort (f : FileRecord) : FileRecord := {|
  Files.digest := Files.digest f; Files.context := Files.context f; Files.size := Files.size f;
  Files.not_started := Files.not_started f; Files.commit_requested := Files.commit_requested f;
  Files.abort_requested := true; Files.state := Files.state f
|}.

Section host.
Context `{Env, UuidLib, Sha256, HexLib, Serde Authority.Retirement.Intent,
          Serde Authority.Retirement.Request, Serde Authority.Saved,
          Serde LaunchAuthority.Required, Serde LaunchAuthority.Saved, Serde Manifest,
          Serde Upload, Serde FileRecord, Serde Journal,
          Serde Record_, Serde Authority.Permit, Serde (list Authority.Permit), Serde Execute}.
Context (config : Config) (authority : option LaunchAuthority.AuthorityFile).

(** ** guest/files.rs *)

(** [GuestClient::file_receipt]; an invalid upload is not sent. *)
Definition file_receipt (client : Context) (u : Upload) (call : H (result anyhow fw.FileReceipt))
    : H (result anyhow Files.Receipt) :=
  match upload_validate u with
  | Err m => mret (Err m)
  | Ok _ =>
      answer ← call;
      mret (wire ← answer;
            receipt ← try_file_receipt wire;
            d ← upload_digest u;
            _ ← ensure (bool_decide (Files.f_context receipt = client)
                        && bool_decide (Files.f_upload receipt = u)
                        && bool_decide (Files.f_digest receipt = d))
                  "file receipt ownership or payload mismatch";
            Ok receipt)
  end.

(** [GuestClient::begin_upload], [commit_upload] and [abort_upload] *)
Definition client_control (k : control_kind) (client : Context) (u : Upload)
    : H (result anyhow Files.Receipt) :=
  match (match k with
         | CBegin => upload_validate u
         | CCommit | CAbort => _ ← FileWire.operation u; Ok tt
         end) with
  | Err m => mret (Err m)
  | Ok _ => file_receipt client u
              (on_system (ask (GuestUpload k client u) (fun t => upload_reply t k client u)))
  end.
(** [GuestClient::inspect_upload] *)
Definition client_inspect_upload (client : Context) (u : Upload) : H (result anyhow Files.Receipt) :=
  match FileWire.operation u with
  | Err m => mret (Err m)
  | Ok _ => file_receipt client u
              (on_system (ask (GuestInspectUpload client u) (fun t => inspect_upload_reply t client u)))
  end.
(** [GuestClient::write_file] *)
Definition client_write_file (client : Context) (u : Upload) (offset : Z) (data : bytes)
    : H (result anyhow Z) :=
  match (operation ← FileWire.operation u;
         _ ← ensure (negb (bool_decide (data = "")) && (strlen data <=? Files.MAX_CHUNK_BYTES)
                     && is_some_and (fun n => n <=? u_size u) (u64_checked_add offset (strlen data)))
               "invalid upload chunk";
         Ok operation) with
  | Err m => mret (Err m)
  | Ok operation =>
      answer ← on_system (ask (GuestWrite client u offset data) (fun t => write_reply t client u offset data));
      mret (progress ← answer;
            _ ← ensure (bool_decide (fw.p_operation progress = Some operation)
                        && (offset + strlen data <=? fw.stored progress)
                        && (fw.stored progress <=? u_size u)) "file progress mismatch";
            Ok (fw.stored progress))
  end.

(** ** host/files.rs *)

(** [Host::save_file] *)
Definition save_file (o : Ownership) (f : FileRecord) : H unit :=
  _ ← lift (or_uncertain (Files.record_validate f));
  r ← record_of (o_allocation_id o);
  _ ← match files r !! o_operation_id o with
      | Some old =>
          after ← lift (ok_or (to_vec f) uncertain);
          before ← lift (ok_or (to_vec old) uncertain);
          lift (ensure (strlen after <=? strlen before) uncertain)
      | None => mret tt
      end;
  _ ← write_record (o_allocation_id o) (set_files r (<[o_operation_id o := f]> (files r)));
  save.

(** The record with a new file, and its revision. *)
Definition with_file (r : Record_) (op : string) (f : FileRecord) (revision : Z) : Record_ :=
  set_files (set_revisions r (<[op := revision]> (revisions r))) (<[op := f]> (files r)).

(** [Host::admit_file]: admission and its revision share one durable write. *)
Definition admit_file (o : Ownership) (r : Record_) (f : FileRecord) : H unit :=
  _ ← deadline (o_claim_expires_unix_ms o);
  _ ← lift (or_uncertain (Files.record_validate f));
  j ← journal_;
  _ ← lift (ensure (Z.of_nat (size (revisions r)) <? 64)
              (resource_exhausted "operation fence capacity full"));
  _ ← lift (ensure ((Z.of_nat (size (files r)) <? Files.MAX_FILES)
                    && (host_files (records j) <? Files.MAX_HOST_FILES)
                    && (u64_saturating_add (reserved_bytes (files r)) (Files.size f) <=? Files.MAX_RESERVED_BYTES))
              (resource_exhausted "retained file capacity full"));
  _ ← lift (ensure (is_none (revisions r !! o_operation_id o) && is_none (commands r !! o_operation_id o))
              (already_exists "operation already has another purpose"));
  let next := with_file r (o_operation_id o) f I64_MAX in
  before ← lift (ok_or (to_vec r) uncertain);
  after ← lift (ok_or (to_vec next) uncertain);
  total ← lift (ok_or (to_vec j) uncertain);
  _ ← lift (ensure (u64_saturating_add
                      (u64_saturating_add (u64_saturating_sub (strlen total) (strlen before)) (strlen after))
                      (256 * 1024) <=? MAX_BYTES)
              (resource_exhausted "host journal lacks file admission headroom"));
  retained ← lift (ok_or (records j !! o_allocation_id o) uncertain);
  _ ← write_record (o_allocation_id o) (with_file retained (o_operation_id o) f (o_claim_revision o));
  save.

Definition answer_file (o : Ownership) (f : FileRecord) (stored : option Z) : H FileObservation :=
  n ← now; mret (file_observation f o false n stored).
Definition answer_unknown (o : Ownership) (f : FileRecord) : H FileObservation :=
  b ← answer_file o f None; mret (without_state b).

(** What the guest answered to a control is folded into the record before it is reported. *)
Definition observe_file (o : Ownership) (u : Upload) (f : FileRecord) (response : result anyhow Files.Receipt)
    : H FileObservation :=
  match response with
  | Ok receipt =>
      let '(f, observed) := Files.observe u receipt f in
      _ ← lift (or_uncertain observed);
      _ ← save_file o f;
      answer_file o f None
  | Err _ => answer_unknown o f
  end.

(** A control or a chunk may be asked of an upload that is staging, and not decided. *)
Definition undecided (f : FileRecord) : bool :=
  negb (Files.commit_requested f) && negb (Files.abort_requested f) && (Files.state f =? 1).

(** What is asked of the guest: each control once, after its intent is on disk; anything
    else only inspects. *)
Definition act_on_file (o : Ownership) (u : Upload) (f : FileRecord) (client : Context) (action : FileAction)
    (new : bool) : H FileObservation :=
  let inspect := response ← client_inspect_upload client u; observe_file o u f response in
  match action with
  | Begin =>
      if new then response ← client_control CBegin client u; observe_file o u f response else inspect
  | Commit =>
      if undecided f then
        let f := request_commit f in
        _ ← save_file o f;
        response ← client_control CCommit client u;
        observe_file o u f response
      else inspect
  | Abort =>
      if negb (Files.abort_requested f) then
        let f := request_abort f in
        _ ← save_file o f;
        response ← client_control CAbort client u;
        observe_file o u f response
      else inspect
  | Write offset data =>
      if undecided f then
        response ← client_write_file client u offset data;
        match response with
        | Ok stored => answer_file o f (Some stored)
        | Err _ => observe_file o u f (Err "file chunk outcome unknown")
        end
      else inspect
  | Inspect => inspect
  end.

(** The guest's client, while the allocation is neither stopped nor released. *)
Definition file_client (r : Record_) : H (option Context) :=
  match (if negb (stopped r) && negb (released r) then manifest r else None) with
  | Some m => client ← guest_client m; mret (match client with Ok c => Some c | Err _ => None end)
  | None => mret None
  end.

(** The retained file, or the one to be admitted: without a guest, or for anything but a
    beginning, a fence against the operation ever starting. *)
Definition file_for (r : Record_) (op : string) (u : Upload) (d : bytes) (action : FileAction)
    (client : option Context) : result Status FileRecord :=
  match files r !! op with
  | Some f =>
      _ ← or_status (Files.validate_identity f (u_operation_id u) u)
            (already_exists "file descriptor changed");
      Ok f
  | None =>
      match action, client with
      | Begin, Some c => or_uncertain (Files.file_pending u c)
      | _, _ => Ok (Files.file_fenced d)
      end
  end.

(** [Host::file_sync] *)
Definition file_sync (request : FileRequest) (action : FileAction) : H FileObservation :=
  o ← owner_ config (fr_ownership request);
  wire ← lift (ok_or (fr_upload request) (invalid_argument "file descriptor required"));
  u ← lift (or_status (try_upload wire) (invalid_argument "invalid file descriptor"));
  _ ← lift (ensure (bool_decide (to_string (u_operation_id u) = o_operation_id o))
              (invalid_argument "file operation mismatch"));
  _ ← lift (match action with
            | Write offset data =>
                ensure (is_some_and (fun n => n <=? u_size u) (u64_checked_add offset (strlen data)))
                  (invalid_argument "chunk exceeds declared size")
            | _ => Ok tt
            end);
  d ← lift (or_uncertain (upload_digest u));
  _ ← gate config authority o;
  r ← record_of (o_allocation_id o);
  _ ← lift (check_history r History.Files (u_operation_id u));
  free ← on_system (ask AcquireFileWorker file_worker_free);
  _ ← lift (ensure free (resource_exhausted "allocation file worker busy"));
  client ← file_client r;
  f ← lift (file_for r (o_operation_id o) u d action client);
  let new := is_none (files r !! o_operation_id o) in
  _ ← (if new then admit_file o r f else _ ← fence o; mret tt);
  if Files.file_finished f then answer_file o f None else
  match client with
  | None => answer_unknown o f
  | Some client =>
      _ ← lift (ensure (bool_decide (Files.context f = Some client)) uncertain);
      _ ← deadline (o_claim_expires_unix_ms o);
      act_on_file o u f client action new
  end.

(** [Host::file_write_sync] *)
Definition file_write_sync (request : FileWriteRequest) : H FileObservation :=
  r ← lift (ok_or (fw_request request) (invalid_argument "file request required"));
  _ ← lift (ensure (negb (bool_decide (fw_data request = ""))
                    && (strlen (fw_data request) <=? Files.MAX_CHUNK_BYTES)
                    && is_some_and (fun n => n <=? Files.MAX_FILE_BYTES)
                         (u64_checked_add (fw_offset request) (strlen (fw_data request))))
              (invalid_argument "invalid file chunk"));
  file_sync r (Write (fw_offset request) (fw_data request)).
End host.
