(* ===== verification/JournalLaws.v ===== *)
(** * What a crash may leave of the journal

    [retains d o]: after a crash of the directory [d] (or now) the journal file reads as
    [o]. [Journal.save] replaces it in one step, and has replaced it on disk when it
    succeeds. *)

From S2P Require Import Prelude Ext Ids Fs FsLaws Store HostModel HostEnv.
From S2P Require Authority LaunchAuthority Guardian Journal.
Import Journal.

#[export] Instance journal_layout : Layout.
Proof.
  refine {| main := HOST_JSON; side := []; staging := JOURNAL_NEXT |};
    [done|intros Hn; by apply not_elem_of_nil in Hn..].
Defined.
Abbreviation written := (Store.written LaunchAuthority.MODE_PRIVATE_FILE) (only parsing).

(** [serde_json] on the journal: what was written reads back; [poisoned] is skipped, and
    reads as its default. *)
Class JournalSerde `{Serde Journal} := {
  journal_reads_back j b : poisoned j = false -> to_vec j = Some b -> from_slice b = Some j;
  journal_default b j : from_slice b = Some j -> poisoned j = false;
}.

Section laws.
Context `{JournalSerde}.

Lemma core_file n : n = HOST_JSON -> n ∈ main :: side.
Proof. intros ->. left. Qed.
Lemma core_host m m' : core m = core m' -> m !! HOST_JSON = m' !! HOST_JSON.
Proof. exact (core_main m m'). Qed.
Lemma other_file n : n <> HOST_JSON -> n ∉ main :: side.
Proof. intros Hn [?|Hs]%elem_of_cons; [done|by apply not_elem_of_nil in Hs]. Qed.
Lemma no_side d : side_on_disk d.
Proof. intros n j Hn. by apply not_elem_of_nil in Hn. Qed.

(** The journal file in one image of the directory. *)
Definition reads (nm : gmap string N) (ino : gmap N inode) (o : option Journal) : Prop :=
  match o with
  | None => nm !! HOST_JSON = None
  | Some j => exists i x, nm !! HOST_JSON = Some i /\ ino !! i = Some x /\
      private_regular (meta x) = true /\ strlen (content x) <= MAX_BYTES /\
      from_slice (content x) = Some j
  end.
Definition retains (d : Dir) (o : option Journal) : Prop :=
  exists m, image d m /\ reads m (inodes d) o.

Lemma journal_reads_core d0 d m m0 o :
  dir_ok d0 -> (forall j x, inodes d0 !! j = Some x -> inodes d !! j = Some x) ->
  image d0 m0 -> core m = core m0 -> reads m (inodes d) o -> reads m0 (inodes d0) o.
Proof.
  intros Hok Hin Hm Hc. apply core_host in Hc. destruct o as [j|]; cbn; [|by rewrite Hc].
  intros (i & x & Hi & Hx & Hr). rewrite Hc in Hi. exists i, x. split; [done|].
  destruct (ok_names _ Hok _ _ _ Hm Hi) as [x' Hx']. pose proof (Hin _ _ Hx').
  simplify_eq. by split.
Qed.

Lemma retains_extends d0 d o : dir_ok d0 -> extends d0 d -> retains d o -> retains d0 o.
Proof.
  intros Hok He (m & Hm & Hr). destruct (ext_images _ _ He _ Hm) as (m0 & Hm0 & Hc).
  exists m0. split; [done|]. eapply journal_reads_core; [done|apply He|done..].
Qed.

(** The file of a completed write reads as what was written. *)
Lemma reads_written d0 d b j m o :
  written b d0 d -> poisoned j = false -> to_vec j = Some b -> strlen b <= MAX_BYTES ->
  core m = core (names d) -> reads m (inodes d) o <-> o = Some j.
Proof.
  intros Hw Hp Hb Hl Hc. destruct (wr_state _ _ _ _ Hw) as (i & Hn & Hi).
  apply core_host in Hc. injection Hn as Hn. change main with HOST_JSON in Hn. rewrite Hn in Hc.
  pose proof (journal_reads_back _ _ Hp Hb) as Hf. split.
  - destruct o as [j'|]; cbn; [|congruence]. intros (i' & x & Hi' & Hx & _ & _ & Hj).
    rewrite Hc in Hi'. injection Hi' as <-. rewrite Hi in Hx. injection Hx as <-.
    cbn in Hj. congruence.
  - intros ->. exists i, (private_new LaunchAuthority.MODE_PRIVATE_FILE b). by split_and!.
Qed.

Lemma retains_written d0 d b j o :
  dir_ok d0 -> written b d0 d -> poisoned j = false -> to_vec j = Some b -> strlen b <= MAX_BYTES ->
  retains d o -> retains d0 o \/ o = Some j.
Proof.
  intros Hok Hw Hp Hb Hl (m & Hm & Hr). destruct (wr_images _ _ _ _ Hw _ Hm) as [(m0 & Hm0 & Hc)|Hc].
  - left. exists m0. split; [done|]. eapply journal_reads_core; [done|apply Hw|done..].
  - right. by eapply (reads_written d0 d b j m o).
Qed.

(** ** Crashes *)

Lemma retains_crash k junk d o : dir_ok d -> retains (crash k junk d) o -> retains d o.
Proof.
  intros Hok (m & Hm%crash_image_before & Hr). exists m. split; [done|].
  destruct o as [j|]; [|done]. destruct Hr as (i & x & Hi & Hx & Hr). exists i, x. split; [done|].
  split; [|done]. rewrite <- Hx. symmetry.
  apply (crash_keeps k junk d m HOST_JSON); [done|done|by exists i|by apply core_file|done].
Qed.

(** What reads the same in every image survives any crash. *)
Lemma retains_crashed k junk d j :
  dir_ok d -> (forall m, image d m -> reads m (inodes d) (Some j)) -> retains (crash k junk d) (Some j).
Proof.
  intros Hok Ha. exists (names (crash k junk d)). split; [apply image_names|].
  pose proof (crash_image_before _ _ _ _ (image_names (crash k junk d))) as Hm.
  destruct (Ha _ Hm) as (i & x & Hi & Hx & Hr). exists i, x. split; [done|]. split; [|done].
  rewrite <- Hx. apply (crash_keeps k junk d (names (crash k junk d)) HOST_JSON);
    [done|done|by exists i|by apply core_file|done].
Qed.

Lemma retains_same d d' o :
  inodes d' = inodes d -> synced_names d' = synced_names d -> pending d' = pending d ->
  retains d' o -> retains d o.
Proof.
  intros Hi Hs Hp (m & Hm & Hr). exists m. rewrite <- Hi. split; [|done].
  by apply (image_same d d').
Qed.

(** ** save *)

Lemma look_open_optional d name (Q : option N -> Prop) :
  (forall o, o = names d !! name -> Q o) -> look d (open_optional name) Q.
Proof.
  intros HQ. unfold open_optional. looking. destruct (names d !! name) as [i|]; inv_ok.
  - by apply HQ.
  - by apply HQ.
Qed.

Lemma look_true {A} d (m : IO A) : look d m (fun _ => True) -> forall Q,
  (forall r, Q r d) -> wp m Q d.
Proof. intros Hm Q HQ. by eapply wp_look. Qed.

Lemma wp_journal_discard d0 Q :
  dir_ok d0 ->
  (forall r d, extends d0 d -> Q r d) -> wp discard_staging Q d0.
Proof.
  intros Hok HQ. unfold discard_staging. pose proof (extends_refl d0 Hok) as He.
  apply wp_bind, look_true; [by apply look_open_optional|].
  intros [[file|]|e]; [|by apply wp_ret, HQ|by apply HQ].
  apply wp_bind, look_true; [unfold fstat; by looking|]. intros [m|e]; [|by apply HQ].
  apply wp_bind, look_true; [unfold file_len; by looking|]. intros [n|e]; [|by apply HQ].
  apply wp_bind, look_true; [by looking|]. intros [[]|e]; [|by apply HQ].
  apply wp_bind, look_true; [unfold symlink_metadata; by looking|]. intros [o|e]; [|by apply HQ].
  apply wp_bind, look_true; [by looking|]. intros [o'|e]; [|by apply HQ].
  apply wp_bind, look_true; [by looking|]. intros [[]|e]; [|by apply HQ].
  apply wp_syscall; [by intros; apply HQ|]. intros d' [] Hd. inv_ok. simplify_eq.
  apply HQ. by apply extends_unlink, other_file.
Qed.

(** A failed save may or may not have replaced the journal; a successful one has. *)
Lemma wp_save_file j d0 :
  dir_ok d0 ->
  wp (save_file j) (fun r d => dir_ok d /\
    (forall o, retains d o -> (retains d0 o /\ r <> Ok tt) \/ o = Some (set_poisoned j false)) /\
    (r = Ok tt -> forall k junk, retains (crash k junk d) (Some (set_poisoned j false)))) d0.
Proof.
  intros Hok. unfold save_file. set (j0 := set_poisoned j false).
  pose proof (extends_refl d0 Hok) as He.
  assert (HE : forall (r : result (error Authority.Error) unit) d, extends d0 d -> r <> Ok tt -> dir_ok d /\
    (forall o, retains d o -> (retains d0 o /\ r <> Ok tt) \/ o = Some j0) /\
    (r = Ok tt -> forall k junk, retains (crash k junk d) (Some j0))).
  { intros r d Hd Hr. split_and!; [apply Hd| |done]. intros o Ho. left. split; [|done]. by eapply retains_extends. }
  apply wp_bind, wp_lift. destruct (to_vec j0) as [b|] eqn:Hb; cbn; [|by apply HE].
  apply wp_bind. eapply wp_look;
    [apply (look_ensure _ _ _ (fun _ => strlen b <= MAX_BYTES)); intros; by bools|by intros; apply HE|].
  intros [] Hl. apply wp_bind, wp_journal_discard; [done|]. intros [[]|e] d1 He1; [|by apply HE].
  change (wp (publish LaunchAuthority.MODE_PRIVATE_FILE b : Journal.IO unit) (fun r d => dir_ok d /\
    (forall o, retains d o -> (retains d0 o /\ r <> Ok tt) \/ o = Some j0) /\
    (r = Ok tt -> forall k junk, retains (crash k junk d) (Some j0))) d1).
  apply (wp_publish _ _ d0); [done|apply no_side|done| |].
  - intros r d [Hd|Hw]; [by apply HE|]. split_and!; [apply Hw| |done]. intros o Ho.
    destruct (retains_written d0 d b j0 o) as [?|?]; [done..|by left|by right].
  - intros d Hw Hi. split_and!; [apply Hw| |intros _ k junk].
    + intros o (m & Hm & Hr). right. apply Hi in Hm as ->. by eapply (reads_written d0 d b j0 (names d) o).
    + apply retains_crashed; [apply Hw|]. intros m ->%Hi. by apply (reads_written d0 d b j0 (names d)).
Qed.

Definition state (s : System) : Dir := dir (state_dir s).

Lemma save_spec j s s' j' r :
  dir_ok (state s) -> save j s = (s', (j', r)) ->
  dir_ok (state s') /\ launch_dir s' = launch_dir s /\ trace s' = trace s /\
  (poisoned j = true -> s' = s /\ j' = j /\ r <> Ok tt) /\
  (poisoned j = false ->
     j' = set_poisoned j (negb (is_ok r)) /\
     (forall o, retains (state s') o -> (retains (state s) o /\ r <> Ok tt) \/ o = Some j) /\
     (r = Ok tt -> forall k junk, retains (crash k junk (state s')) (Some j))).
Proof.
  intros Hok. unfold save. destruct (poisoned j) eqn:Hp; [by intros [= <- <- <-]|].
  pose proof (wp_save_file j (state s) Hok (state_dir s) eq_refl) as Hw.
  destruct (save_file j (state_dir s)) as [w r0]. cbn in Hw. intros [= <- <- <-].
  destruct Hw as (Hd & Ho & Hc). split_and!; try done. intros _.
  assert (set_poisoned j false = j) as Hj by (destruct j; cbn in *; by subst).
  rewrite Hj in Ho, Hc. split_and!; [by destruct r0| |intros Hr; destruct r0 as [[]|e]; [by apply Hc|done]].
  intros o Hr. destruct (Ho o Hr) as [[? Hne]|?]; [left|by right]. split; [done|]. by destruct r0 as [[]|].
Qed.

(** C5. The host's journal is replaced atomically and durably: whatever call fails while it
    is written, and whenever the machine crashes afterwards, the disk holds the journal of
    before or the new one, whole. An acknowledged save survives every crash. A save that
    failed leaves the journal poisoned, and a poisoned journal writes nothing any more. *)
Theorem journal_save_atomic_and_durable j s s' j' r k junk :
  dir_ok (state s) -> poisoned j = false -> save j s = (s', (j', r)) ->
  (forall o, retains (crash k junk (state s')) o -> retains (state s) o \/ o = Some j) /\
  (r = Ok tt -> j' = j /\ retains (crash k junk (state s')) (Some j) /\
     forall o, retains (crash k junk (state s')) o -> o = Some j) /\
  (r <> Ok tt -> poisoned j' = true /\ forall s2, exists e, save j' s2 = (s2, (j', Err e))).
Proof.
  intros Hok Hp Hs. destruct (save_spec _ _ _ _ _ Hok Hs) as (Hok' & _ & _ & _ & Hu).
  destruct (Hu Hp) as (-> & Ho & Hc). split_and!.
  - intros o Hr. apply retains_crash in Hr; [|done]. destruct (Ho o Hr) as [[? _]|?]; [by left|by right].
  - intros ->. split_and!; [by destruct j; cbn in *; subst|by apply Hc|].
    intros o Hr. apply retains_crash in Hr; [|done]. by destruct (Ho o Hr) as [[_ ?]|?].
  - intros Hr. destruct r as [[]|e]; [done|]. split; [done|]. intros s2. unfold save. cbn. by eexists.
Qed.
End laws.
