(* ===== verification/HostSpec.v ===== *)
(** * What the host promises: intents before effects

    An abstract machine: the retained records, and the log of what was asked of the
    outside. A guardian is spawned, a command sent to a guest, or an upload begun,
    committed or aborted, only from a record that holds the intent, and only once; a record
    never forgets an intent it may have acted on. [HostLaws] shows that every record map the host may hold, in memory or on disk
    after a crash, is a state of this machine. *)

From S2P Require Import Prelude Ext Ids GuestModel Wire HostModel HostEnv.
From S2P Require Authority Guardian Command Files History Idempotency.
#[local] Existing Instance Guardian.Manifest_eq_dec.

Abbreviation records_map := (gmap string Record_) (only parsing).
Definition astate : Type := records_map * list effect.

Section spec.
Context `{Env, UuidLib, Serde Execute, Serde Files.Upload, Sha256}.

(** ** Vocabulary *)

Definition key_of (m : Manifest) : string :=
  to_string (Guardian.allocation (Guardian.owner (Guardian.start m))).

(** The allocations spawned, the operations sent to a guest, and the controls of uploads, in
    a log. *)
Definition spawn_key (e : effect) : option string :=
  match e with Spawn m => Some (key_of m) | _ => None end.
Definition execute_key (e : effect) : option (string * string) :=
  match e with
  | GuestExecute c x => Some (to_string (allocation_id c), to_string (e_operation_id x))
  | _ => None
  end.
Definition upload_id (c : Context) (u : Files.Upload) : string * string :=
  (to_string (allocation_id c), to_string (Files.u_operation_id u)).
Definition upload_key (e : effect) : option (string * string * control_kind) :=
  match e with GuestUpload k c u => Some (upload_id c u, k) | _ => None end.
Definition spawned (tr : list effect) : list string := omap spawn_key tr.
Definition executed (tr : list effect) : list (string * string) := omap execute_key tr.
Definition uploaded (tr : list effect) : list (string * string * control_kind) := omap upload_key tr.

(** The allocation that an effect acts on; other questions start and change nothing. *)
Definition acts_key (e : effect) : option string :=
  match e with
  | Spawn m => Some (key_of m)
  | GuestExecute c _ | GuestUpload _ c _ | GuestWrite c _ _ _ => Some (to_string (allocation_id c))
  | _ => None
  end.
Definition tracked (e : effect) : bool := is_some (acts_key e).

(** No chunk of an upload was sent after its end was asked for, and no commit after an abort. *)
Fixpoint ends_in_order (tr : list effect) : Prop :=
  match tr with
  | [] => True
  | e :: tr =>
      match e with
      | GuestWrite c u _ _ =>
          (upload_id c u, CCommit) ∉ uploaded tr /\ (upload_id c u, CAbort) ∉ uploaded tr
      | GuestUpload CCommit c u => (upload_id c u, CAbort) ∉ uploaded tr
      | _ => True
      end /\ ends_in_order tr
  end.

(** A receipt of a stopped allocation of which everything was cleaned up. *)
Definition cleaned_up (r : Guardian.Receipt) : Prop :=
  Guardian.r_state r = Guardian.Stopped /\ Guardian.r_cleanup_confirmed r = true.
(** The guardian was just asked to stop. *)
Definition stop_asked (m : Manifest) (tr : list effect) : Prop := exists t, tr = Control m Guardian.Stop :: t.
(** A fence was answered with a receipt. When it followed a stop, the receipt says that
    everything was cleaned up; when it followed the finding that no guest is live, the receipt
    is what [Manifest::fence_unstarted] gave. *)
Definition confirmed (m : Manifest) (tr : list effect) : Prop :=
  exists after before r, tr = after ++ FenceUnstarted m :: before /\ fence_reply before m = Ok r /\
    (stop_asked m before -> cleaned_up r).

(** A retired operation is below a floor that the record keeps. *)
Definition retired (d : Domain) (r : Record_) (id : OperationId) : bool :=
  is_some_and (fun v => History.covers (barrier v) id) (slot r d)
  || is_some_and (fun v => id_leb id (rel_through v)) (released_slot r d).
Definition retired_name (d : Domain) (r : Record_) (op : string) : Prop :=
  exists id, parse_operation op = Ok id /\ retired d r id = true.

(** The record of a command holds the intent to send [x] to the guest [ctx]. *)
Definition intent (c : Command.CommandRecord) (ctx : Context) (x : Execute) : Prop :=
  Command.not_started c = false /\ Command.context c = Some ctx /\
  execute_digest x = Ok (Command.digest c).

(** What may happen to a command in one change: nothing, new evidence that answers its
    intent, or, once it is finished, retirement. *)
Definition command_kept (r' : Record_) (op : string) (c : Command.CommandRecord) : Prop :=
  commands r' !! op = Some c \/
  (Command.finished c = false /\ exists id v, parse_operation op = Ok id /\
     Command.validate_receipt c id v = Ok tt /\
     commands r' !! op = Some (Command.with_receipt c (Some v))) \/
  (Command.finished c = true /\ retired_name History.Commands r' op /\ commands r' !! op = None).

(** The record of an upload holds the intent to control it at the guest [ctx]. *)
Definition file_intent (k : control_kind) (f : Files.FileRecord) (ctx : Context) (u : Files.Upload) : Prop :=
  Files.not_started f = false /\ Files.context f = Some ctx /\ Files.upload_digest u = Ok (Files.digest f) /\
  match k with
  | CBegin => True
  | CCommit => Files.commit_requested f = true
  | CAbort => Files.abort_requested f = true
  end.

(** A transfer ends only as the host asked for. *)
Definition file_sound (f : Files.FileRecord) : Prop :=
  (Files.not_started f = true -> Files.state f = 0 /\ Files.commit_requested f = false /\
     Files.abort_requested f = false /\ Files.context f = None) /\
  (contains 2 3 (Files.state f) = true -> Files.commit_requested f = true) /\
  (Files.state f = 5 -> Files.abort_requested f = true).

(** What may happen to an upload's record: an end is asked for, the guest is heard of, or,
    once it is settled, retirement. *)
Record file_grows (f f' : Files.FileRecord) : Prop := {
  fg_digest : Files.digest f' = Files.digest f;
  fg_context : Files.context f' = Files.context f;
  fg_size : Files.size f' = Files.size f;
  fg_not_started : Files.not_started f' = Files.not_started f;
  fg_commit : Files.commit_requested f = true -> Files.commit_requested f' = true;
  fg_abort : Files.abort_requested f = true -> Files.abort_requested f' = true;
  fg_finished : Files.file_finished f = true ->
    Files.state f' = Files.state f /\ Files.commit_requested f' = Files.commit_requested f /\
    Files.abort_requested f' = Files.abort_requested f;
  fg_sound : file_sound f -> file_sound f';
}.
Definition file_settled (f : Files.FileRecord) : bool :=
  Files.not_started f || (Files.state f =? 3) || (Files.state f =? 5).
Definition file_kept (r' : Record_) (op : string) (f : Files.FileRecord) : Prop :=
  (exists f', files r' !! op = Some f' /\ file_grows f f') \/
  (file_settled f = true /\ retired_name History.Files r' op /\ files r' !! op = None).

(** A floor is kept in the slot of its domain. *)
Definition slots_ok (r : Record_) : Prop :=
  forall d v, slot r d = Some v -> History.domain (barrier v) = d.

(** A change of a record that loses nothing. *)
Record keeps (r r' : Record_) : Prop := {
  kp_owner : owner r' = owner r;
  kp_create : create r' = create r;
  kp_manifest : manifest r' = manifest r;
  kp_released : released r' = released r;
  kp_dispatched : dispatched r = true -> dispatched r' = true;
  kp_stopped : stopped r = true -> stopped r' = true;
  kp_commands : forall op c, commands r !! op = Some c -> command_kept r' op c;
  kp_absent : forall op, commands r !! op = None -> commands r' !! op = None;
  kp_files : forall op f, files r !! op = Some f -> file_kept r' op f;
  kp_no_file : forall op, files r !! op = None -> files r' !! op = None;
  kp_retired : forall d id, retired d r id = true -> retired d r' id = true;
  kp_slots : slots_ok r -> slots_ok r';
}.

(** A record of an allocation that nothing was done for. *)
Definition blank (r : Record_) : Prop :=
  create r = None /\ manifest r = None /\ dispatched r = false /\ released r = false /\
  commands r = ∅ /\ files r = ∅ /\ command_history r = None /\ file_history r = None.

(** No other allocation of the sandbox can be alive. *)
Definition no_rival (R : records_map) (key : string) (r : Record_) : Prop :=
  forall k r', R !! k = Some r' -> k <> key -> o_sandbox_id (owner r') = o_sandbox_id (owner r) ->
    stopped r' = true /\ (is_Some (manifest r') -> released r' = true) /\
    o_generation (owner r') < o_generation (owner r).

(** ** Steps *)

Inductive astep : astate -> astate -> Prop :=
| a_ask R tr e : tracked e = false -> astep (R, tr) (R, e :: tr)
| a_enter R tr key r :
    R !! key = None -> blank r -> o_allocation_id (owner r) = key -> astep (R, tr) (<[key := r]> R, tr)
| a_keep R tr key r r' : R !! key = Some r -> keeps r r' -> astep (R, tr) (<[key := r']> R, tr)
| a_create R tr key r c m :
    R !! key = Some r -> create r = None -> stopped r = false -> key_of m = key ->
    no_rival R key r -> astep (R, tr) (<[key := set_create r c m]> R, tr)
| a_release R tr key r m :
    R !! key = Some r -> manifest r = Some m -> confirmed m tr ->
    astep (R, tr) (<[key := set_released (set_stopped r true) true]> R, tr)
| a_spawn R tr key r m :
    R !! key = Some r -> is_Some (create r) -> manifest r = Some m -> key_of m = key ->
    dispatched r = true -> stopped r = false -> key ∉ spawned tr ->
    astep (R, tr) (R, Spawn m :: tr)
| a_command R tr key r op c :
    R !! key = Some r -> commands r !! op = None -> ~ retired_name History.Commands r op ->
    Command.receipt c = None -> (Command.not_started c = false -> stopped r = false) ->
    astep (R, tr) (<[key := set_commands r (<[op := c]> (commands r))]> R, tr)
| a_execute R tr key r c ctx x :
    R !! key = Some r -> commands r !! to_string (e_operation_id x) = Some c -> intent c ctx x ->
    to_string (allocation_id ctx) = key -> stopped r = false ->
    (key, to_string (e_operation_id x)) ∉ executed tr ->
    astep (R, tr) (R, GuestExecute ctx x :: tr)
| a_file R tr key r op f :
    R !! key = Some r -> files r !! op = None -> ~ retired_name History.Files r op -> file_sound f ->
    (Files.not_started f = false -> stopped r = false) ->
    Z.of_nat (size (files r)) < Files.MAX_FILES -> host_files R < Files.MAX_HOST_FILES ->
    astep (R, tr) (<[key := set_files r (<[op := f]> (files r))]> R, tr)
| a_control R tr key r k f ctx u :
    R !! key = Some r -> files r !! to_string (Files.u_operation_id u) = Some f -> file_intent k f ctx u ->
    to_string (allocation_id ctx) = key -> stopped r = false -> (upload_id ctx u, k) ∉ uploaded tr ->
    (k = CCommit -> Files.abort_requested f = false /\
       ~ retired_name History.Files r (to_string (Files.u_operation_id u))) ->
    astep (R, tr) (R, GuestUpload k ctx u :: tr)
| a_chunk R tr key r f ctx u offset data :
    R !! key = Some r -> files r !! to_string (Files.u_operation_id u) = Some f -> file_intent CBegin f ctx u ->
    Files.commit_requested f = false -> Files.abort_requested f = false ->
    ~ retired_name History.Files r (to_string (Files.u_operation_id u)) ->
    to_string (allocation_id ctx) = key -> stopped r = false ->
    astep (R, tr) (R, GuestWrite ctx u offset data :: tr).

(** ** What holds of every state *)

(** An allocation that was spawned has its creation and its dispatch on record. *)
Definition spawn_recorded (R : records_map) (m : Manifest) : Prop :=
  exists r, R !! key_of m = Some r /\ is_Some (create r) /\ manifest r = Some m /\ dispatched r = true.

(** A command that was sent has its intent on record, or was retired. *)
Definition execute_recorded (R : records_map) (ctx : Context) (x : Execute) : Prop :=
  exists r, R !! to_string (allocation_id ctx) = Some r /\
    ((exists c, commands r !! to_string (e_operation_id x) = Some c /\ intent c ctx x) \/
     retired_name History.Commands r (to_string (e_operation_id x))).

(** An upload that was begun, committed or aborted has that on record, or was retired. *)
Definition upload_recorded (R : records_map) (k : control_kind) (ctx : Context) (u : Files.Upload) : Prop :=
  exists r, R !! to_string (allocation_id ctx) = Some r /\
    ((exists f, files r !! to_string (Files.u_operation_id u) = Some f /\ file_intent k f ctx u) \/
     retired_name History.Files r (to_string (Files.u_operation_id u))).

(** The uploads of a state: intents are on record and happen once, chunks come before them,
    transfers end as they were asked to, and there is room for them. *)
Record files_legal (s : astate) : Prop := {
  lf_upload : forall k ctx u, GuestUpload k ctx u ∈ s.2 -> upload_recorded s.1 k ctx u;
  lf_once : NoDup (uploaded s.2);
  lf_order : ends_in_order s.2;
  lf_sound : forall k r op f, s.1 !! k = Some r -> files r !! op = Some f -> file_sound f;
  lf_room : forall k r, s.1 !! k = Some r -> Z.of_nat (size (files r)) <= Files.MAX_FILES;
  lf_host : host_files s.1 <= Files.MAX_HOST_FILES;
}.

Record legal (s : astate) : Prop := {
  lg_owner : forall k r, s.1 !! k = Some r -> o_allocation_id (owner r) = k;
  lg_slots : forall k r, s.1 !! k = Some r -> slots_ok r;
  lg_keyed : forall k r m, s.1 !! k = Some r -> manifest r = Some m -> key_of m = k;
  lg_spawn : forall m, Spawn m ∈ s.2 -> spawn_recorded s.1 m;
  lg_spawn_once : NoDup (spawned s.2);
  lg_execute : forall ctx x, GuestExecute ctx x ∈ s.2 -> execute_recorded s.1 ctx x;
  lg_execute_once : NoDup (executed s.2);
  lg_release : forall k r, s.1 !! k = Some r -> released r = true ->
    stopped r = true /\ exists m, manifest r = Some m /\ confirmed m s.2;
  lg_sandbox : forall k k' r r', s.1 !! k = Some r -> s.1 !! k' = Some r' -> k <> k' ->
    o_sandbox_id (owner r) = o_sandbox_id (owner r') -> is_Some (manifest r) -> is_Some (manifest r') ->
    released r = true \/ released r' = true;
  lg_files : files_legal s;
}.

(** *** Preservation *)

Lemma stop_asked_dec m tr : stop_asked m tr \/ ~ stop_asked m tr.
Proof.
  unfold stop_asked. destruct tr as [|e t]; [right; by intros [? ?]|].
  destruct e; try (right; by intros [? [=]]). destruct (decide (m0 = m)) as [->|Hx]; [|right; by intros [? [=]]].
  destruct a; try (right; by intros [? [=]]). left. by exists t.
Qed.
Lemma confirmed_cons m tr e : confirmed m tr -> confirmed m (e :: tr).
Proof. intros (a & b & r & -> & ?). by exists (e :: a), b, r. Qed.

Lemma spawn_in m tr : Spawn m ∈ tr -> key_of m ∈ spawned tr.
Proof. intros Hm. apply list_elem_of_omap. by exists (Spawn m). Qed.
Lemma spawned_in k tr : k ∈ spawned tr -> exists m, Spawn m ∈ tr /\ key_of m = k.
Proof.
  intros (e & He & Hk)%list_elem_of_omap. destruct e; cbn in Hk; simplify_eq. eauto.
Qed.
Lemma executed_in k tr :
  k ∈ executed tr -> exists ctx x, GuestExecute ctx x ∈ tr /\
    k = (to_string (allocation_id ctx), to_string (e_operation_id x)).
Proof.
  intros (e & He & Hk)%list_elem_of_omap. destruct e; cbn in Hk; simplify_eq. eauto.
Qed.

Lemma uploaded_in i k tr :
  (i, k) ∈ uploaded tr -> exists ctx u, GuestUpload k ctx u ∈ tr /\ i = upload_id ctx u.
Proof.
  intros (e & He & Hk)%list_elem_of_omap. destruct e; cbn in Hk; simplify_eq. eauto.
Qed.

Lemma retired_name_keeps d r r' op : keeps r r' -> retired_name d r op -> retired_name d r' op.
Proof. intros Hk (id & Hi & Hr). exists id. split; [done|]. by apply (kp_retired _ _ Hk). Qed.

Lemma intent_receipt c ctx x v : intent c ctx x -> intent (Command.with_receipt c v) ctx x.
Proof. done. Qed.

Lemma file_intent_grows k f f' ctx u : file_grows f f' -> file_intent k f ctx u -> file_intent k f' ctx u.
Proof.
  intros [Hd Hc _ Hn Hcr Har _ _] (? & ? & ? & Hk). unfold file_intent. rewrite Hd, Hc, Hn.
  split_and!; [done..|]. destruct k; auto.
Qed.

(** *** Uploads *)

Lemma sum_entries {A} (f : string * A -> Z) (m : gmap string A) :
  sum_by f (entries m) = sum_by f (map_to_list m).
Proof. apply sum_by_perm, Idempotency.sort_keys_perm. Qed.
Lemma host_files_insert R key r0 r :
  R !! key = Some r0 ->
  host_files (<[key := r]> R) = host_files R - Z.of_nat (size (files r0)) + Z.of_nat (size (files r)).
Proof.
  intros Hr. unfold host_files. rewrite !sum_entries.
  by rewrite (sum_map_update (fun e => Z.of_nat (size (files e.2))) R key r0 r).
Qed.

Lemma keeps_fewer_files r r' : keeps r r' -> (size (files r') <= size (files r))%nat.
Proof.
  intros Hk. rewrite <- !size_dom. apply subseteq_size. intros op [f Hf]%elem_of_dom.
  apply elem_of_dom. destruct (files r !! op) eqn:Ho; [done|].
  rewrite (kp_no_file _ _ Hk _ Ho) in Hf. done.
Qed.

Lemma recorded_insert R key r0 r k ctx u :
  R !! key = Some r0 ->
  (forall op f, files r0 !! op = Some f -> file_kept r op f) ->
  (forall op, retired_name History.Files r0 op -> retired_name History.Files r op) ->
  upload_recorded R k ctx u -> upload_recorded (<[key := r]> R) k ctx u.
Proof.
  intros Hr Hk Hret (r1 & Hr1 & Hrec). unfold upload_recorded.
  destruct (decide (to_string (allocation_id ctx) = key)) as [Heq|Hne].
  2: { exists r1. by rewrite lookup_insert_ne. }
  exists r. rewrite Heq, lookup_insert_eq. rewrite Heq, Hr in Hr1. simplify_eq. split; [done|].
  destruct Hrec as [(f & Hf & Hi)|Hrt]; [|right; by apply Hret].
  destruct (Hk _ _ Hf) as [(f' & Hf' & Hg)|(_ & Hrt & _)]; [|by right].
  left. exists f'. split; [done|by eapply file_intent_grows].
Qed.

(** Changing a record without new files, and logging an effect. *)
Lemma files_replace R tr key r0 r :
  files_legal (R, tr) -> R !! key = Some r0 ->
  (forall op f, files r0 !! op = Some f -> file_kept r op f) ->
  (forall op, files r0 !! op = None -> files r !! op = None) ->
  (forall op, retired_name History.Files r0 op -> retired_name History.Files r op) ->
  (size (files r) <= size (files r0))%nat ->
  files_legal (<[key := r]> R, tr).
Proof.
  intros [Lu Lo Lc Ls Lr Lh] Hr Hk Hn Hret Hsz. cbn in *. split; cbn; [|done|done|..].
  - intros k ctx u Hin. by eapply recorded_insert, Lu.
  - intros k r' op f. rewrite lookup_insert_Some. intros [[<- <-]|[_ Hk']] Hf; [|by eapply Ls].
    destruct (files r0 !! op) as [f0|] eqn:Hf0; [|rewrite (Hn _ Hf0) in Hf; done].
    destruct (Hk _ _ Hf0) as [(f' & Hf' & Hg)|(_ & _ & Hf')]; [|congruence].
    simplify_eq. eapply fg_sound; [done|by eapply Ls].
  - intros k r'. rewrite lookup_insert_Some. intros [[<- <-]|[_ Hk']]; [|by eapply Lr].
    pose proof (Lr _ _ Hr). lia.
  - rewrite (host_files_insert _ _ r0) by done. lia.
Qed.

Lemma file_grows_refl f : file_grows f f.
Proof. by split. Qed.
Lemma file_grows_trans f1 f2 f3 : file_grows f1 f2 -> file_grows f2 f3 -> file_grows f1 f3.
Proof.
  intros [Hd1 Hc1 Hz1 Hn1 Hk1 Ha1 Hf1 Hs1] [Hd2 Hc2 Hz2 Hn2 Hk2 Ha2 Hf2 Hs2].
  split; try congruence; auto. intros Hf. destruct (Hf1 Hf) as (Hst & Hco & Hab).
  assert (Files.file_finished f2 = true) as Hf'.
  { unfold Files.file_finished in *. by rewrite Hn1, Hst. }
  destruct (Hf2 Hf') as (? & ? & ?). split_and!; congruence.
Qed.
Lemma files_kept_same r r' op f : files r' = files r -> files r !! op = Some f -> file_kept r' op f.
Proof. intros Hf Ho. left. exists f. rewrite Hf. split; [done|apply file_grows_refl]. Qed.
Lemma files_unchanged R tr key r0 r :
  files_legal (R, tr) -> R !! key = Some r0 -> files r = files r0 -> file_history r = file_history r0 ->
  released_files r = released_files r0 -> files_legal (<[key := r]> R, tr).
Proof.
  intros Hl Hr Hf Hh Hrl. apply (files_replace _ _ _ r0); [done..| | | |by rewrite Hf].
  - intros op f. by apply files_kept_same.
  - by rewrite Hf.
  - unfold retired_name, retired. cbn. by rewrite Hh, Hrl.
Qed.

Lemma files_logged R tr e :
  files_legal (R, tr) ->
  (forall k ctx u, e = GuestUpload k ctx u -> upload_recorded R k ctx u /\ (upload_id ctx u, k) ∉ uploaded tr /\
     (k = CCommit -> (upload_id ctx u, CAbort) ∉ uploaded tr)) ->
  (forall ctx u o b, e = GuestWrite ctx u o b ->
     (upload_id ctx u, CCommit) ∉ uploaded tr /\ (upload_id ctx u, CAbort) ∉ uploaded tr) ->
  files_legal (R, e :: tr).
Proof.
  intros [Lu Lo Lc Ls Lr Lh] Hu Hc. cbn in *. split; cbn; [| | |done..].
  - intros k ctx u [<-|Hin]%elem_of_cons; [by apply Hu|by apply Lu].
  - destruct e; try exact Lo. cbn. constructor; [|done]. by eapply Hu.
  - split; [|done]. destruct e; try done; [case_match; try done; by eapply Hu|by eapply Hc].
Qed.

(** An undecided upload was neither committed nor aborted. *)
Lemma not_uploaded R tr key r f k op :
  files_legal (R, tr) -> R !! key = Some r -> files r !! op = Some f -> ~ retired_name History.Files r op ->
  match k with
  | CBegin => False
  | CCommit => Files.commit_requested f = false
  | CAbort => Files.abort_requested f = false
  end -> (key, op, k) ∉ uploaded tr.
Proof.
  intros Hl Hr Hf Hret Hk (ctx & u & Hin & [= -> ->])%uploaded_in.
  destruct (lf_upload _ Hl _ _ _ Hin) as (r' & Hr' & [(f' & Hf' & _ & _ & _ & Hi)|?]); cbn in Hr'; simplify_eq; [|done].
  destruct k; [done|congruence..].
Qed.
Lemma not_begun R tr key r k op :
  files_legal (R, tr) -> R !! key = Some r -> files r !! op = None -> ~ retired_name History.Files r op ->
  (key, op, k) ∉ uploaded tr.
Proof.
  intros Hl Hr Hf Hret (ctx & u & Hin & [= -> ->])%uploaded_in.
  destruct (lf_upload _ Hl _ _ _ Hin) as (r' & Hr' & [(f' & Hf' & _)|?]); cbn in Hr'; by simplify_eq.
Qed.

(** Admission of a file. *)
Lemma files_admitted R tr key r op f :
  files_legal (R, tr) -> R !! key = Some r -> files r !! op = None -> file_sound f ->
  Z.of_nat (size (files r)) < Files.MAX_FILES -> host_files R < Files.MAX_HOST_FILES ->
  files_legal (<[key := set_files r (<[op := f]> (files r))]> R, tr).
Proof.
  intros [Lu Lo Lc Ls Lr Lh] Hr Hf Hs Hroom Hhost. cbn in *. split; cbn; [|done|done|..].
  - intros k ctx u Hin. eapply recorded_insert; [done| |done|by apply Lu].
    intros op' f' Hf'. left. exists f'. cbn. rewrite lookup_insert_ne by congruence.
    split; [done|apply file_grows_refl].
  - intros k r' op' f'. rewrite lookup_insert_Some. intros [[<- <-]|[_ Hk']] Hf'; [|by eapply Ls].
    cbn in Hf'. apply lookup_insert_Some in Hf' as [[<- <-]|[_ Hf']]; [done|by eapply Ls].
  - intros k r'. rewrite lookup_insert_Some. intros [[<- <-]|[_ Hk']]; [|by eapply Lr].
    cbn. rewrite map_size_insert_None by done. lia.
  - rewrite (host_files_insert _ _ r) by done. cbn. rewrite map_size_insert_None by done. lia.
Qed.

Lemma files_step s s' : files_legal s -> astep s s' -> files_legal s'.
Proof.
  intros Hl Hs. revert Hl. destruct Hs as [R tr e He|R tr key r Hn Hb Ho|R tr key r r' Hr Hk|R tr key r c m Hr _ _ _ _
    |R tr key r m Hr Hm _|R tr key r m _ _ _ _ _ _ _|R tr key r op c Hr _ _ _ _|R tr key r c ctx x _ _ _ _ _ _
    |R tr key r op f Hr Hf Hret Hso Hst Hroom Hhost|R tr key r k f ctx u Hr Hf Hi Ha Hst Hn Hkc
    |R tr key r f ctx u off data Hr Hf Hi Hc Hab Hret Ha Hst]; intros Hl.
  - apply files_logged; [done|..]; intros; by subst e.
  - destruct Hb as (_ & _ & _ & _ & _ & Hf & _). destruct Hl as [Lu Lo Lc Ls Lr Lh]. cbn in *. split; cbn; [|done|done|..].
    + intros k ctx u Hin. destruct (Lu _ _ _ Hin) as (r1 & Hr1 & Hrec). exists r1.
      by rewrite lookup_insert_ne by (intros ->; congruence).
    + intros k r' op f. rewrite lookup_insert_Some. intros [[<- <-]|[_ Hk']] Hf'; [|by eapply Ls].
      rewrite Hf in Hf'. by rewrite lookup_empty in Hf'.
    + intros k r'. rewrite lookup_insert_Some. intros [[<- <-]|[_ Hk']]; [|by eapply Lr]. by rewrite Hf, map_size_empty.
    + unfold host_files in *. rewrite sum_entries in *. rewrite sum_map_insert by done. cbn. by rewrite Hf, map_size_empty.
  - eapply (files_replace _ _ _ r); [done|done|apply Hk|apply Hk| |by apply keeps_fewer_files].
    intros op. by apply retired_name_keeps.
  - by apply (files_unchanged _ _ _ r).
  - by apply (files_unchanged _ _ _ r).
  - by apply files_logged.
  - by apply (files_unchanged _ _ _ r).
  - by apply files_logged.
  - by apply files_admitted.
  - apply files_logged; [done| |done]. intros k' ctx' u' [= <- <- <-]. split; [|split; [done|]].
    + exists r. rewrite Ha. split; [done|]. left. by exists f.
    + intros Hk. destruct (Hkc Hk) as [Hab Hret]. unfold upload_id. rewrite Ha. by eapply not_uploaded.
  - apply files_logged; [done|done|]. intros ctx' u' o' b' [= <- <- _ _]. unfold upload_id. rewrite Ha.
    by split; eapply not_uploaded.
Qed.

(** *** Allocations and commands *)

(** Changing one record. *)
Lemma legal_insert R tr key r0 r :
  legal (R, tr) -> R !! key = r0 ->
  o_allocation_id (owner r) = key -> slots_ok r ->
  (forall m, manifest r = Some m -> key_of m = key) ->
  (forall m, Spawn m ∈ tr -> key_of m = key -> spawn_recorded R m ->
     is_Some (create r) /\ manifest r = Some m /\ dispatched r = true) ->
  (forall ctx x, GuestExecute ctx x ∈ tr -> to_string (allocation_id ctx) = key ->
     execute_recorded R ctx x ->
     (exists c, commands r !! to_string (e_operation_id x) = Some c /\ intent c ctx x) \/
     retired_name History.Commands r (to_string (e_operation_id x))) ->
  (released r = true -> stopped r = true /\ exists m, manifest r = Some m /\ confirmed m tr) ->
  (is_Some (manifest r) -> released r = false -> forall k' r', R !! k' = Some r' -> k' <> key ->
     o_sandbox_id (owner r') = o_sandbox_id (owner r) -> is_Some (manifest r') -> released r' = true) ->
  files_legal (<[key := r]> R, tr) ->
  legal (<[key := r]> R, tr).
Proof.
  intros Hl Hr0 Ho Hsl Hm Hs He Hrel Hsb Hfl. destruct Hl as [Lo Lsl Lk Ls Lso Le Leo Lr Lsb _]. cbn in *. split; cbn; [..|done].
  - intros k r'. rewrite lookup_insert_Some. intros [[<- <-]|[_ Hk]]; eauto.
  - intros k r'. rewrite lookup_insert_Some. intros [[<- <-]|[_ Hk]]; eauto.
  - intros k r' m. rewrite lookup_insert_Some. intros [[<- <-]|[_ Hk]]; eauto.
  - intros m Hin. pose proof (Ls _ Hin) as Hrec. destruct (decide (key_of m = key)) as [Hk|Hk].
    + exists r. rewrite Hk, lookup_insert_eq. split; [done|]. eauto.
    + destruct Hrec as (r' & Hr' & Hrest). exists r'. by rewrite lookup_insert_ne.
  - done.
  - intros ctx x Hin. pose proof (Le _ _ Hin) as Hrec.
    destruct (decide (to_string (allocation_id ctx) = key)) as [Hk|Hk].
    + exists r. rewrite Hk, lookup_insert_eq. split; [done|]. eauto.
    + destruct Hrec as (r' & Hr' & Hrest). exists r'. by rewrite lookup_insert_ne.
  - done.
  - intros k r'. rewrite lookup_insert_Some. intros [[<- <-]|[_ Hk]]; eauto.
  - intros k k' r1 r2. rewrite !lookup_insert_Some.
    intros [[<- <-]|[Hk Hr1]] [[<- <-]|[Hk' Hr2]] Hne Hsame Hm1 Hm2; [done|..|by eauto].
    + destruct (released r) eqn:Hrr; [by left|right]. by eapply (Hsb Hm1 eq_refl k' r2).
    + destruct (released r) eqn:Hrr; [by right|left]. by eapply (Hsb Hm2 eq_refl k r1).
Qed.

Lemma legal_keep R tr key r r' :
  legal (R, tr) -> R !! key = Some r -> keeps r r' -> files_legal (<[key := r']> R, tr) ->
  legal (<[key := r']> R, tr).
Proof.
  intros Hl Hr Hk Hfl. eapply legal_insert; [done|exact Hr|..|exact Hfl].
  - rewrite (kp_owner _ _ Hk). by apply (lg_owner _ Hl).
  - apply (kp_slots _ _ Hk), (lg_slots _ Hl _ _ Hr).
  - intros m. rewrite (kp_manifest _ _ Hk). by apply (lg_keyed _ Hl key r).
  - intros m _ Hm (r1 & Hr1 & Hc & Hma & Hd). rewrite Hm in Hr1. cbn in Hr1. simplify_eq.
    rewrite (kp_create _ _ Hk), (kp_manifest _ _ Hk). by split_and!; [..|apply Hk].
  - intros ctx x _ Hx (r1 & Hr1 & Hi). rewrite Hx in Hr1. cbn in Hr1. simplify_eq.
    destruct Hi as [(c & Hc & Hi)|Hret]; [|by right; eapply retired_name_keeps].
    destruct (kp_commands _ _ Hk _ _ Hc) as [?|[(_ & id & v & _ & _ & ?)|(_ & ? & _)]]; eauto.
  - rewrite (kp_released _ _ Hk), (kp_manifest _ _ Hk). intros Hrl.
    destruct (lg_release _ Hl key r Hr Hrl) as [Hst Hm]. split; [by apply Hk|done].
  - rewrite (kp_manifest _ _ Hk), (kp_released _ _ Hk), (kp_owner _ _ Hk). intros Hm Hrl k1 r1 Hr1 Hne Hs Hm1.
    destruct (lg_sandbox _ Hl k1 key r1 r) as [?|?]; try done. cbn in *. congruence.
Qed.

Lemma legal_log R tr e :
  legal (R, tr) ->
  (forall m, e = Spawn m -> spawn_recorded R m /\ key_of m ∉ spawned tr) ->
  (forall ctx x, e = GuestExecute ctx x -> execute_recorded R ctx x /\
     (to_string (allocation_id ctx), to_string (e_operation_id x)) ∉ executed tr) ->
  files_legal (R, e :: tr) -> legal (R, e :: tr).
Proof.
  intros [Lo Lsl Lk Ls Lso Le Leo Lr Lsb _] Hs Hx Hfl. cbn in *. split; cbn; [done|done|done|..|done|done].
  - intros m [<-|Hin]%elem_of_cons; [by apply Hs|eauto].
  - destruct e; try exact Lso. cbn. constructor; [|done]. by eapply Hs.
  - intros ctx x [<-|Hin]%elem_of_cons; [by apply Hx|eauto].
  - destruct e; try exact Leo. cbn. constructor; [|done]. by eapply Hx.
  - intros k r Hk Hr. destruct (Lr k r Hk Hr) as (Hst & m & Hm & Hc).
    split; [done|]. exists m. split; [done|by apply confirmed_cons].
Qed.

Lemma legal_step s s' : legal s -> astep s s' -> legal s'.
Proof.
  intros Hl Hs. pose proof (files_step _ _ (lg_files _ Hl) Hs) as Hfl. revert Hl Hfl.
  destruct Hs as [R tr e He|R tr key r Hn Hb Ho|R tr key r r' Hr Hk|R tr key r c m Hr Hc Hst Hm Hnr
    |R tr key r m Hr Hm Hcf|R tr key r m Hr Hc Hm Hk Hd Hst Hf|R tr key r op c Hr Hc Hret Hrc Hns
    |R tr key r c ctx x Hr Hc Hi Ha Hst Hf|R tr key r op f Hr _ _ _ _ _ _|R tr key r k f ctx u _ _ _ _ _ _ _
    |R tr key r f ctx u off data _ _ _ _ _ _ _ _]; intros Hl Hfl.
  - apply legal_log; [done|..|done]; intros; by subst e.
  - destruct Hb as (Hc & Hm & Hd & Hrl & Hcm & _ & Hch & Hfh). eapply legal_insert; [done|exact Hn|done|..|exact Hfl].
    + intros d v. destruct d; cbn; congruence.
    + by rewrite Hm.
    + intros m _ Hkm (r1 & Hr1 & _). rewrite Hkm in Hr1. cbn in Hr1. congruence.
    + intros ctx x _ Hkm (r1 & Hr1 & _). rewrite Hkm in Hr1. cbn in Hr1. congruence.
    + by rewrite Hrl.
    + rewrite Hm. by intros [? ?].
  - by eapply legal_keep.
  - eapply legal_insert; [done|exact Hr|exact (lg_owner _ Hl _ _ Hr)|exact (lg_slots _ Hl _ _ Hr)|..|exact Hfl]; cbn.
    + by intros m' [= <-].
    + intros m' _ Hkm (r1 & Hr1 & [? Hc1] & _). rewrite Hkm in Hr1. cbn in Hr1. by simplify_eq.
    + intros ctx x _ Hx (r1 & Hr1 & Hi). rewrite Hx in Hr1. cbn in Hr1. by simplify_eq.
    + intros Hrl. destruct (lg_release _ Hl key r Hr Hrl). congruence.
    + intros _ _ k r1 Hr1 Hne Hs Hm1. by apply (Hnr k r1).
  - eapply legal_insert; [done|exact Hr|exact (lg_owner _ Hl _ _ Hr)|exact (lg_slots _ Hl _ _ Hr)|..|exact Hfl]; cbn.
    + intros m' Hm'. by apply (lg_keyed _ Hl key r).
    + intros m' _ Hkm (r1 & Hr1 & Hrest). rewrite Hkm in Hr1. cbn in Hr1. by simplify_eq.
    + intros ctx x _ Hx (r1 & Hr1 & Hi). rewrite Hx in Hr1. cbn in Hr1. by simplify_eq.
    + intros _. split; [done|]. by exists m.
    + done.
  - apply legal_log; [done| |done|done]. intros m' [= <-]. split; [|by rewrite Hk].
    exists r. by rewrite Hk.
  - eapply legal_insert; [done|exact Hr|exact (lg_owner _ Hl _ _ Hr)|exact (lg_slots _ Hl _ _ Hr)|..|exact Hfl]; cbn.
    + intros m. by apply (lg_keyed _ Hl key r).
    + intros m _ Hkm (r1 & Hr1 & Hrest). rewrite Hkm in Hr1. cbn in Hr1. by simplify_eq.
    + intros ctx x _ Hx (r1 & Hr1 & Hi). rewrite Hx in Hr1. cbn in Hr1. simplify_eq.
      destruct Hi as [(c' & Hc' & Hi)|Hi]; [|by right]. left. exists c'.
      rewrite lookup_insert_ne by congruence. done.
    + by apply (lg_release _ Hl key r).
    + intros Hm Hrl k1 r1 Hr1 Hne Hs Hm1.
      destruct (lg_sandbox _ Hl k1 key r1 r) as [?|?]; try done. cbn in *. congruence.
  - apply legal_log; [done|done| |done]. intros ctx' x' [= <- <-]. rewrite Ha. split; [|done].
    exists r. rewrite Ha. split; [done|]. left. by exists c.
  - eapply legal_insert; [done|exact Hr|exact (lg_owner _ Hl _ _ Hr)|exact (lg_slots _ Hl _ _ Hr)|..|exact Hfl]; cbn.
    + intros m. by apply (lg_keyed _ Hl key r).
    + intros m _ Hkm (r1 & Hr1 & Hrest). rewrite Hkm in Hr1. cbn in Hr1. by simplify_eq.
    + intros ctx x _ Hx (r1 & Hr1 & Hi). rewrite Hx in Hr1. cbn in Hr1. by simplify_eq.
    + by apply (lg_release _ Hl key r).
    + intros Hm Hrl k1 r1 Hr1 Hne Hs Hm1.
      destruct (lg_sandbox _ Hl k1 key r1 r) as [?|?]; try done. cbn in *. congruence.
  - by apply legal_log.
  - by apply legal_log.
Qed.
(** ** Sets of states that no step leaves *)

Class Closed (P : astate -> Prop) := {
  closed_step s s' : P s -> astep s s' -> P s';
  closed_legal s : P s -> legal s;
}.

#[export] Instance legal_closed : Closed legal.
Proof. split; [exact legal_step|done]. Qed.

(** The states that steps from the initial one lead to. *)
Definition reachable (s : astate) : Prop := rtc astep (∅, []) s.

Lemma legal_initial : legal (∅, []).
Proof.
  split; cbn; try (intros; done); try constructor; cbn; try done; try constructor;
    intros; match goal with H : _ ∈ [] |- _ => by apply not_elem_of_nil in H end.
Qed.

#[export] Instance reachable_closed : Closed reachable.
Proof.
  split; [intros s s' Hs Hst; by eapply rtc_r|].
  intros s Hs. unfold reachable in Hs. remember (∅, []) as s0 eqn:Heq.
  assert (legal s0) as Hl by (subst; apply legal_initial). clear Heq.
  induction Hs as [|s1 s2 s3 Hst _ IH]; [done|]. apply IH. by eapply legal_step.
Qed.

(** What a record may become. *)
Record later (r r' : Record_) : Prop := {
  lt_stopped : stopped r = true -> stopped r' = true;
  lt_commands : forall op c, commands r !! op = Some c -> Command.finished c = true ->
    commands r' !! op = Some c \/ retired_name History.Commands r' op;
  lt_files : forall op f, files r !! op = Some f -> file_kept r' op f;
  lt_retired : forall d op, retired_name d r op -> retired_name d r' op;
}.

Lemma later_same r r' :
  (stopped r = true -> stopped r' = true) -> commands r' = commands r -> files r' = files r ->
  (forall d, slot r' d = slot r d) -> (forall d, released_slot r' d = released_slot r d) -> later r r'.
Proof.
  intros Hs Hc Hf Hh Hr. split; [done|by rewrite Hc; left| |].
  - intros op f. by apply files_kept_same.
  - intros d op. unfold retired_name, retired. by rewrite Hh, Hr.
Qed.

Lemma later_keeps r r' : keeps r r' -> later r r'.
Proof.
  intros Hk. split; [apply Hk| |apply Hk|by intros d op; apply retired_name_keeps].
  intros op c Hc Hf. destruct (kp_commands _ _ Hk _ _ Hc) as [?|[(Hn & _)|(_ & ? & _)]];
    [by left|congruence|by right].
Qed.

Lemma astep_later R tr R' tr' key r :
  astep (R, tr) (R', tr') -> R !! key = Some r -> exists r', R' !! key = Some r' /\ later r r'.
Proof.
  intros Hs Hr.
  assert (forall r', r' = r -> later r r') as Hid by (by intros ? ->; apply later_same).
  assert (forall k r0 r1, R !! k = Some r0 -> later r0 r1 ->
            exists r', <[k := r1]> R !! key = Some r' /\ later r r') as Hins.
  { intros k r0 r1 Hk Hl. destruct (decide (k = key)) as [->|Hne].
    - simplify_eq. rewrite lookup_insert_eq. eauto.
    - rewrite lookup_insert_ne by done. eauto. }
  inversion Hs; subst; try (by eauto); try (eapply Hins; [done|]).
  - exists r. rewrite lookup_insert_ne by congruence. eauto.
  - by apply later_keeps.
  - by apply later_same.
  - by apply later_same.
  - split; cbn; [done| | |done].
    + intros op' c' Hc' _. left. by rewrite lookup_insert_ne by congruence.
    + intros op' f. by apply files_kept_same.
  - split; cbn; [done|by left| |done].
    intros op' f' Hf'. left. exists f'. cbn. rewrite lookup_insert_ne by congruence. split; [done|apply file_grows_refl].
Qed.

(** The effects on one allocation. *)
Definition acts_on (key : string) (e : effect) : bool := bool_decide (acts_key e = Some key).

Lemma untracked_acts key e : tracked e = false -> acts_on key e = false.
Proof. unfold tracked, acts_on. intros Ht. by destruct (acts_key e). Qed.
Lemma acts_other key key' e : acts_key e = Some key' -> key' <> key -> acts_on key e = false.
Proof. unfold acts_on. intros -> Hne. apply bool_decide_eq_false_2. congruence. Qed.

(** The allocation is stopped, and its effects are [l]. *)
Definition stopped_with (key : string) (l : list effect) (s : astate) : Prop :=
  legal s /\ (exists r, s.1 !! key = Some r /\ stopped r = true) /\ List.filter (acts_on key) s.2 = l.

#[export] Instance stopped_closed key l : Closed (stopped_with key l).
Proof.
  split; [|by intros s [? _]]. intros [R tr] [R' tr'] (Hl & (r & Hr & Hst) & Hf) Hs. cbn in *.
  destruct (astep_later _ _ _ _ _ _ Hs Hr) as (r' & Hr' & Hlt).
  split; [by eapply legal_step|]. split; [exists r'; split; [done|by apply Hlt]|]. cbn.
  assert (Hne : forall e k r0, acts_key e = Some k -> R !! k = Some r0 -> stopped r0 = false -> acts_on key e = false).
  { intros e k r0 He Hk Hs0. apply (acts_other _ k); [done|congruence]. }
  inversion Hs; subst; try done; cbn [List.filter].
  - by rewrite untracked_acts.
  - by erewrite Hne.
  - by erewrite Hne.
  - by erewrite Hne.
  - by erewrite Hne.
Qed.

(** A finished command keeps its evidence until it is retired. *)
Definition evidence_kept (key op : string) (c : Command.CommandRecord) (s : astate) : Prop :=
  legal s /\ Command.finished c = true /\
  exists r, s.1 !! key = Some r /\ (commands r !! op = Some c \/ retired_name History.Commands r op).

#[export] Instance evidence_closed key op c : Closed (evidence_kept key op c).
Proof.
  split; [|by intros s [? _]]. intros [R tr] [R' tr'] (Hl & Hf & r & Hr & Hc) Hs. cbn in *.
  destruct (astep_later _ _ _ _ _ _ Hs Hr) as (r' & Hr' & Hlt).
  split; [by eapply legal_step|]. split; [done|]. exists r'. split; [done|].
  destruct Hc as [Hc|Hc]; [by eapply lt_commands|right; by eapply lt_retired].
Qed.

(** The record of an upload grows until it is retired. *)
Definition upload_kept (key op : string) (f : Files.FileRecord) (s : astate) : Prop :=
  legal s /\ exists r, s.1 !! key = Some r /\
    ((exists f', files r !! op = Some f' /\ file_grows f f') \/ retired_name History.Files r op).

#[export] Instance upload_closed key op f : Closed (upload_kept key op f).
Proof.
  split; [|by intros s [? _]]. intros [R tr] [R' tr'] (Hl & r & Hr & Hf) Hs. cbn in *.
  destruct (astep_later _ _ _ _ _ _ Hs Hr) as (r' & Hr' & Hlt).
  split; [by eapply legal_step|]. exists r'. split; [done|].
  destruct Hf as [(f' & Hf' & Hg)|Hret]; [|right; by eapply lt_retired].
  destruct (lt_files _ _ Hlt _ _ Hf') as [(f2 & Hf2 & Hg2)|(_ & Hret & _)]; [|by right].
  left. exists f2. split; [done|by eapply file_grows_trans].
Qed.
End spec.
