(* ===== verification/RecordLaws.v ===== *)
(** * Changes of one record

    The pure functions of [HostModel] that rewrite a record, against [HostSpec.keeps]: they
    drop a command or a file only when it is resolved and a floor of the record covers it. *)

From S2P Require Import Prelude Ext Ids GuestModel Wire HostModel HostEnv HostSpec.
From S2P Require Authority Guardian Command Files History Idempotency.

#[local] Existing Instance History.Domain_eq_dec.

Lemma elem_of_entries {A} (m : gmap string A) k a : (k, a) ∈ entries m <-> m !! k = Some a.
Proof. unfold entries. rewrite Idempotency.sort_keys_perm. apply elem_of_map_to_list. Qed.

Lemma entries_fst {A} (m : gmap string A) k : k ∈ (entries m).*1 <-> is_Some (m !! k).
Proof.
  rewrite list_elem_of_fmap. split.
  - intros ([k' a] & -> & Hk). apply elem_of_entries in Hk. by exists a.
  - intros [a Ha]. exists (k, a). by rewrite elem_of_entries.
Qed.

Section laws.
Context `{Env, UuidLaws, Sha256, HexLib, Serde Authority.Retirement.Intent, Serde Manifest,
          Serde Files.Upload, Serde Files.FileRecord, Serde Execute}.

(** Everything of a record that its operations may not depend on. *)
Record frame (r r' : Record_) : Prop := {
  fr_owner : owner r' = owner r;
  fr_create : create r' = create r;
  fr_manifest : manifest r' = manifest r;
  fr_released : released r' = released r;
  fr_dispatched : dispatched r = true -> dispatched r' = true;
  fr_stopped : stopped r = true -> stopped r' = true;
}.

Lemma frame_refl r : frame r r.
Proof. by split. Qed.
Lemma frame_trans r1 r2 r3 : frame r1 r2 -> frame r2 r3 -> frame r1 r3.
Proof. intros [] []. split; try congruence; auto. Qed.

Lemma keeps_frame r r' :
  frame r r' -> commands r' = commands r -> files r' = files r ->
  (forall d id, retired d r id = true -> retired d r' id = true) ->
  (slots_ok r -> slots_ok r') -> keeps r r'.
Proof.
  intros [] Hc Hf Hr Hs. split; try done; [|by rewrite Hc| |by rewrite Hf].
  - intros op c Ho. left. by rewrite Hc.
  - intros op f. by apply files_kept_same.
Qed.

Lemma keeps_same r r' :
  frame r r' -> commands r' = commands r -> files r' = files r -> command_history r' = command_history r ->
  file_history r' = file_history r -> released_commands r' = released_commands r ->
  released_files r' = released_files r -> keeps r r'.
Proof.
  intros Hf Hc Hfi Hh Hfh Hr Hrf. apply keeps_frame; [done..| |].
  - intros d id. unfold retired. destruct d; cbn; by rewrite ?Hh, ?Hr, ?Hfh, ?Hrf.
  - intros Hs [] v; cbn; rewrite ?Hh, ?Hfh; [apply (Hs History.Commands)|apply (Hs History.Files)].
Qed.

Lemma slots_set r r' d v :
  slots_ok r -> (forall d', d' <> d -> slot r' d' = slot r d') -> slot r' d = Some v ->
  History.domain (barrier v) = d -> slots_ok r'.
Proof.
  intros Hs Hne Hd Hb d' v' Hv. destruct (decide (d' = d)) as [->|Hn]; [congruence|].
  rewrite Hne in Hv by done. by apply Hs.
Qed.

(** ** history.rs *)

Lemma frame_set_slot r d v : frame r (set_slot r d v).
Proof. by destruct d. Qed.
Lemma frame_set_released_slot r d v : frame r (set_released_slot r d v).
Proof. by destruct d. Qed.
Lemma frame_remove d r id : frame r (remove_operation d r id).
Proof. by destruct d. Qed.
Lemma slot_set_slot r d v : slot (set_slot r d v) d = v.
Proof. by destruct d. Qed.

Lemma id_leb_trans {k} (a b c : Id k) : id_leb a b = true -> id_leb b c = true -> id_leb a c = true.
Proof. unfold id_leb. rewrite !N.leb_le. lia. Qed.
Lemma id_leb_max (a b : OperationId) : id_leb a (id_max a b) = true /\ id_leb b (id_max a b) = true.
Proof. unfold id_max, id_leb. destruct (N.leb_spec (uuid a) (uuid b)); rewrite !N.leb_le; lia. Qed.

(** A higher barrier covers what the old one covered. *)
Lemma keeps_set_slot r d v :
  History.domain (barrier v) = d ->
  is_none_or (fun old => id_leb (History.through (barrier old)) (History.through (barrier v))) (slot r d) = true ->
  keeps r (set_slot r d (Some v)).
Proof.
  intros Hd Hle. apply keeps_frame; [apply frame_set_slot|by destruct d|by destruct d| |].
  2: { intros Hs. eapply (slots_set r _ d v); [done| |apply slot_set_slot|done].
       intros d' Hne. by destruct d, d'. }
  intros d' id. clear Hd. unfold retired. assert (released_slot (set_slot r d (Some v)) d' = released_slot r d') as ->.
  { by destruct d, d'. }
  intros [Hc|Hc]%orb_true_iff; apply orb_true_iff; [left|by right].
  destruct (decide (d' = d)) as [->|Hne]; [|by destruct d, d'].
  rewrite slot_set_slot. destruct (slot r d) as [old|]; [|done]. cbn in *. unfold History.covers in *.
  by eapply id_leb_trans.
Qed.

(** [prepare] moves the floor up, or not at all; it refuses while anything below the new
    floor is unresolved. *)
Lemma prepare_ok b rev r r' v :
  prepare b rev r = (r', Ok v) ->
  r' = set_slot r (History.domain b) (Some v) /\
  is_none_or (fun old => id_leb (History.through (barrier old)) (History.through (barrier v)))
    (slot r (History.domain b)) = true /\
  requested_through v = History.through b /\ id_leb (History.through b) (History.through (barrier v)) = true /\
  ((exists old, slot r (History.domain b) = Some old /\ barrier v = barrier old /\ completed v = completed old) \/
   (barrier v = b /\ completed v = false /\ eligible r b = Ok tt)).
Proof.
  unfold prepare. intros Hp. inv_st.
  destruct (slot r (History.domain b)) as [old|] eqn:Hs; cbn.
  - inv_st. bools. destruct (id_leb (History.through b) (History.through (barrier old))) eqn:Hle; inv_st; cbn.
    + split_and!; [done|by apply N.leb_refl|done|done|]. left. by exists old.
    + split_and!; [done| |done|by apply N.leb_refl|by right].
      unfold id_leb in *. apply N.leb_gt in Hle. apply N.leb_le. lia.
  - inv_st. split_and!; [done|done|done|by apply N.leb_refl|by right].
Qed.
(** *** Removal of operations *)

Definition remove_all (d : Domain) (r : Record_) (names : list string) : Record_ :=
  foldl (remove_operation d) r names.

Lemma frame_remove_all d r names : frame r (remove_all d r names).
Proof.
  unfold remove_all. revert r. induction names as [|n l IH]; intros r; cbn; [apply frame_refl|].
  eapply frame_trans; [apply (frame_remove d r n)|apply IH].
Qed.
Lemma remove_all_floors d r names :
  command_history (remove_all d r names) = command_history r /\
  file_history (remove_all d r names) = file_history r /\
  released_commands (remove_all d r names) = released_commands r /\
  released_files (remove_all d r names) = released_files r.
Proof.
  unfold remove_all. revert r. induction names as [|n l IH]; intros r; cbn; [done|].
  destruct (IH (remove_operation d r n)) as (-> & -> & -> & ->). by destruct d.
Qed.
Lemma remove_all_slot d r names : slot (remove_all d r names) d = slot r d.
Proof. destruct (remove_all_floors d r names) as (Hc & Hf & _). by destruct d. Qed.

Lemma remove_all_commands r names op :
  commands (remove_all History.Commands r names) !! op = if decide (op ∈ names) then None else commands r !! op.
Proof.
  unfold remove_all. revert r. induction names as [|n l IH]; intros r; cbn [foldl].
  - by rewrite decide_False by apply not_elem_of_nil.
  - rewrite IH. cbn. destruct (decide (op ∈ l)) as [Hin|Hin].
    + by rewrite decide_True by (by right).
    + destruct (decide (op = n)) as [->|Hne].
      * rewrite lookup_delete_eq. by rewrite decide_True by left.
      * rewrite lookup_delete_ne by done. rewrite decide_False; [done|].
        by intros [?|?]%elem_of_cons.
Qed.
Lemma remove_all_files r names op :
  files (remove_all History.Files r names) !! op = if decide (op ∈ names) then None else files r !! op.
Proof.
  unfold remove_all. revert r. induction names as [|n l IH]; intros r; cbn [foldl].
  - by rewrite decide_False by apply not_elem_of_nil.
  - rewrite IH. cbn. destruct (decide (op ∈ l)) as [Hin|Hin].
    + by rewrite decide_True by (by right).
    + destruct (decide (op = n)) as [->|Hne].
      * rewrite lookup_delete_eq. by rewrite decide_True by left.
      * rewrite lookup_delete_ne by done. rewrite decide_False; [done|].
        by intros [?|?]%elem_of_cons.
Qed.
Lemma remove_all_other r names :
  commands (remove_all History.Files r names) = commands r /\
  files (remove_all History.Commands r names) = files r.
Proof.
  revert r. induction names as [|n l IH]; intros r; [done|].
  destruct (IH (remove_operation History.Files r n)) as [Hc _].
  destruct (IH (remove_operation History.Commands r n)) as [_ Hf]. split; [exact Hc|exact Hf].
Qed.

(** A removal is harmless when what is removed is resolved, and a floor remembers it. *)
Lemma keeps_removal d r r' names :
  frame r r' -> commands r' = commands (remove_all d r names) -> files r' = files (remove_all d r names) ->
  (forall d id, retired d r id = true -> retired d r' id = true) -> (slots_ok r -> slots_ok r') ->
  (forall op, op ∈ names -> retired_name d r' op) ->
  match d with
  | History.Commands => forall op c, op ∈ names -> commands r !! op = Some c -> Command.finished c = true
  | History.Files => forall op f, op ∈ names -> files r !! op = Some f -> file_settled f = true
  end -> keeps r r'.
Proof.
  intros [] Hc Hf Hret Hsl Hn Hres. destruct d.
  - destruct (remove_all_other r names) as [_ Ho]. rewrite Ho in Hf. split; try done.
    + intros op c Hop. unfold command_kept. rewrite Hc, remove_all_commands.
      destruct (decide (op ∈ names)) as [Hin|]; [|by left]. right; right. eauto.
    + intros op Hop. rewrite Hc, remove_all_commands. by case_decide.
    + intros op f. by apply files_kept_same.
    + by rewrite Hf.
  - destruct (remove_all_other r names) as [Ho _]. rewrite Ho in Hc. split; try done.
    + intros op c Hop. left. by rewrite Hc.
    + by rewrite Hc.
    + intros op f Hop. unfold file_kept. rewrite Hf, remove_all_files.
      destruct (decide (op ∈ names)) as [Hin|]; [right; eauto|].
      left. exists f. split; [done|apply file_grows_refl].
    + intros op Hop. rewrite Hf, remove_all_files. by case_decide.
Qed.

Lemma foldl_judged d r (l : list (string * bool)) :
  foldl (fun r e => if e.2 : bool then remove_operation d r e.1 else r) r l =
  remove_all d r (List.filter snd l).*1.
Proof.
  unfold remove_all. revert r. induction l as [|[n b] l IH]; intros r; cbn; [done|]. rewrite IH. by destruct b.
Qed.

(** The names that a barrier covers. *)
Lemma judge_names_ok b names l :
  judge_names b names = Ok l ->
  forall n, n ∈ (List.filter snd l).*1 <->
    n ∈ names /\ exists id, parse_operation n = Ok id /\ History.covers b id = true.
Proof.
  revert l. induction names as [|n0 names IH]; intros l H'; cbn in H'.
  - inv_ok. intros n. cbn. split; [by intros ?%not_elem_of_nil|by intros [?%not_elem_of_nil _]].
  - apply bind_ok in H' as (id0 & Hid & H'). apply bind_ok in H' as (rest & Hrest & H').
    apply (f_equal (fun x => match x with Ok l => l | Err _ => [] end)) in H'. cbn in H'. subst l.
    intros n. specialize (IH _ Hrest n). cbn. destruct (History.covers b id0) eqn:Hc; cbn.
    + rewrite !elem_of_cons, IH. split; [intros [->|(? & ?)]; eauto|].
      intros [[->|?] ?]; [by left|by right].
    + rewrite elem_of_cons, IH. split; [intros (? & ?); eauto|].
      intros [[->|?] (id & Hid' & Hc')]; [congruence|eauto].
Qed.

(** What a barrier covers is resolved. *)
Lemma eligible_commands r b :
  eligible r b = Ok tt -> History.domain b = History.Commands ->
  forall op c id, commands r !! op = Some c -> parse_operation op = Ok id ->
    History.covers b id = true -> Command.finished c = true.
Proof.
  unfold eligible. intros He Hd op c id Hop Hid Hc. rewrite Hd in He.
  apply for_each_ok in He. rewrite Forall_forall in He. apply elem_of_entries in Hop.
  specialize (He _ Hop). cbn in He. rewrite Hid in He. cbn in He. rewrite Hc in He.
  apply bind_ok in He as (? & Hf & _). by inv_ok.
Qed.

Lemma eligible_files r b :
  eligible r b = Ok tt -> History.domain b = History.Files ->
  forall op f id, files r !! op = Some f -> parse_operation op = Ok id ->
    History.covers b id = true -> file_settled f = true.
Proof.
  unfold eligible. intros He Hd op f id Hop Hid Hc. rewrite Hd in He.
  apply for_each_ok in He. rewrite Forall_forall in He. apply elem_of_entries in Hop.
  specialize (He _ Hop). cbn in He. rewrite Hid in He. cbn in He. rewrite Hc in He.
  apply bind_ok in He as (? & _ & He). apply bind_ok in He as (? & Hf & _). by inv_ok.
Qed.

(** [complete] removes what its barrier covers, or nothing. *)
Lemma complete_ok v r r' res :
  complete v r = (r', res) ->
  (r' = r /\ res <> Ok tt) \/
  exists cur names, res = Ok tt /\ slot r (History.domain (barrier v)) = Some cur /\
    barrier cur = barrier v /\ eligible r (barrier v) = Ok tt /\
    (forall n, n ∈ names <-> n ∈ operation_names r (History.domain (barrier v)) /\
       exists id, parse_operation n = Ok id /\ History.covers (barrier v) id = true) /\
    r' = set_slot (remove_all (History.domain (barrier v)) r names) (History.domain (barrier v))
           (Some (set_completed cur)).
Proof.
  unfold complete, lift, get, put, mbind, ST_bind. cbn. set (d := History.domain (barrier v)).
  destruct (slot r d) as [cur|] eqn:Hs; cbn; [|intros [= <- <-]; by left].
  next_ensure Hb; cbn; [|intros [= <- <-]; by left]. bools.
  destruct (eligible r (barrier v)) as [[]|] eqn:He; [|intros [= <- <-]; by left].
  destruct (judge_names (barrier v) (operation_names r d)) as [l|] eqn:Hj; [|intros [= <- <-]; by left].
  rewrite foldl_judged. rewrite remove_all_slot, Hs. cbn. intros [= <- <-]. right.
  exists cur, (List.filter snd l).*1. split_and!; try done. by apply judge_names_ok.
Qed.

Lemma keeps_complete v r r' res : complete v r = (r', res) -> keeps r r'.
Proof.
  intros [[-> _]|(cur & names & _ & Hs & Hb & He & Hn & ->)]%complete_ok.
  { apply keeps_same; [apply frame_refl|done..]. }
  set (d := History.domain (barrier v)) in *.
  assert (frame r (set_slot (remove_all d r names) d (Some (set_completed cur)))) as Hf.
  { eapply frame_trans; [apply frame_remove_all|apply frame_set_slot]. }
  assert (forall d' id, retired d' r id = true ->
    retired d' (set_slot (remove_all d r names) d (Some (set_completed cur))) id = true) as Hret.
  { destruct (remove_all_floors d r names) as (Hch & Hfh & Hrc & Hrf). intros d' id. unfold retired.
    destruct d, d'; cbn in *; rewrite ?Hrc, ?Hch, ?Hfh, ?Hrf; [by rewrite Hs|done|done|by rewrite Hs]. }
  assert (slots_ok r -> slots_ok (set_slot (remove_all d r names) d (Some (set_completed cur)))) as Hsl.
  { intros Hso. eapply (slots_set r _ d); [done| |apply slot_set_slot|cbn; by rewrite Hb].
    intros d' Hne. destruct (remove_all_floors d r names) as (Hc1 & Hf1 & _).
    clear Hn He Hret Hf Hb Hs Hso. destruct d, d'; cbn in *; congruence. }
  eapply (keeps_removal d _ _ names); [done|by destruct d|by destruct d|done|done|..].
  - intros op (_ & id & Hid & Hc)%Hn. exists id. split; [done|]. unfold retired.
    rewrite slot_set_slot. cbn. by rewrite Hb, Hc.
  - destruct d eqn:Hd; intros op x (_ & id & Hid & Hc)%Hn Hop; [by eapply eligible_commands|by eapply eligible_files].
Qed.

(** ** released_history.rs *)

Lemma covered_names_ok through names l :
  covered_names through names = Ok l ->
  forall n, n ∈ l <-> n ∈ names /\ exists id, parse_operation n = Ok id /\ id_leb id through = true.
Proof.
  revert l. induction names as [|n0 names IH]; intros l H'; cbn in H'.
  - inv_ok. intros n. split; [by intros ?%not_elem_of_nil|by intros [?%not_elem_of_nil _]].
  - apply bind_ok in H' as (id0 & Hid & H'). apply bind_ok in H' as (? & _ & H').
    apply bind_ok in H' as (rest & Hrest & H').
    apply (f_equal (fun x => match x with Ok l => l | Err _ => [] end)) in H'. cbn in H'. subst l.
    intros n. specialize (IH _ Hrest n). destruct (id_leb id0 through) eqn:Hc.
    + rewrite !elem_of_cons, IH. split; [intros [->|(? & ?)]; eauto|].
      intros [[->|?] ?]; [by left|by right].
    + rewrite elem_of_cons, IH. split; [intros (? & ?); eauto|].
      intros [[->|?] (id & Hid' & Hc')]; [congruence|eauto].
Qed.

Lemma eligible_released_commands read r names :
  eligible_released read r History.Commands names = Ok tt ->
  forall op c, op ∈ names -> commands r !! op = Some c -> Command.finished c = true.
Proof.
  unfold eligible_released. intros He op c Hin Hop. apply bind_ok in He as (boot & _ & He).
  apply for_each_ok in He. rewrite Forall_forall in He. specialize (He _ Hin). cbn in He.
  apply bind_ok in He as (ev & Hev & _). unfold command_evidence in Hev. rewrite Hop in Hev. cbn in Hev.
  apply bind_ok in Hev as (? & Hf & _). by inv_ok.
Qed.

Lemma eligible_released_files read r names :
  eligible_released read r History.Files names = Ok tt ->
  forall op f, op ∈ names -> files r !! op = Some f -> file_settled f = true.
Proof.
  unfold eligible_released. intros He op f Hin Hop. apply bind_ok in He as (boot & _ & He).
  apply for_each_ok in He. rewrite Forall_forall in He. specialize (He _ Hin). cbn in He.
  apply bind_ok in He as (ev & Hev & _). unfold file_evidence in Hev. rewrite Hop in Hev. cbn in Hev.
  apply bind_ok in Hev as (? & _ & Hev). unfold file_settled.
  destruct (Files.not_started f); [done|]. apply bind_ok in Hev as (? & Hf & _). by inv_ok.
Qed.

(** [reclaim] removes what the floor covers, and moves the floor up. *)
Lemma reclaim_ok read d through rev e r r' t :
  reclaim read d through rev e r = (r', Ok t) ->
  stopped r = true /\ id_leb through t = true /\
  is_none_or (fun old => id_leb (rel_through old) t) (released_slot r d) = true /\
  exists names, eligible_released read r d names = Ok tt /\
    (forall n, n ∈ names <-> n ∈ operation_names r d /\
       exists id, parse_operation n = Ok id /\ id_leb id t = true) /\
    r' = set_released_slot (remove_all d r names) d
           (Some {| rel_version := 1; rel_through := t; rel_requested_through := through;
                    rel_revision := rev; rel_reporting_epoch := e |}).
Proof.
  unfold reclaim, covered. intros Hr.
  apply st_bind_ok in Hr as (? & [] & Hv & Hr). apply st_lift_ok in Hv as [-> _].
  apply st_bind_ok in Hr as (? & r0 & Hg & Hr). apply st_get_ok in Hg as [-> ->].
  apply st_bind_ok in Hr as (? & [] & Hv & Hr). apply st_lift_ok in Hv as [-> Hv%ensure_ok]. bools.
  apply st_bind_ok in Hr as (s1 & completed & Hc & Hr).
  assert (s1 = r /\ id_leb through completed = true /\
    is_none_or (fun old => id_leb (rel_through old) completed) (released_slot r d) = true) as (-> & Hle & Hold).
  { destruct (released_slot r d) as [old|]; inv_st; cbn; [|by split_and!; [|apply N.leb_refl|]].
    destruct (id_leb_max through (rel_through old)). by split_and!. }
  inv_st. split_and!; try done. eexists. split_and!; [done| |reflexivity]. by apply covered_names_ok.
Qed.

Lemma keeps_reclaim read d through rev e r r' t :
  reclaim read d through rev e r = (r', Ok t) -> keeps r r'.
Proof.
  intros (_ & _ & Hold & names & He & Hn & ->)%reclaim_ok. match goal with |- context [Some ?v] => set (rel := v) end.
  assert (frame r (set_released_slot (remove_all d r names) d (Some rel))) as Hf.
  { eapply frame_trans; [apply frame_remove_all|apply frame_set_released_slot]. }
  assert (forall d' id, retired d' r id = true ->
    retired d' (set_released_slot (remove_all d r names) d (Some rel)) id = true) as Hret.
  { destruct (remove_all_floors d r names) as (Hch & Hfh & Hrc & Hrf). intros d' id. unfold retired.
    destruct d, d'; cbn in *; rewrite ?Hch, ?Hrc, ?Hfh, ?Hrf; try done;
      intros [Hr|Hr]%orb_true_iff; apply orb_true_iff; try (by left); right;
      solve [destruct (released_commands r); [cbn in *; by eapply id_leb_trans|done]
            |destruct (released_files r); [cbn in *; by eapply id_leb_trans|done]]. }
  assert (slots_ok r -> slots_ok (set_released_slot (remove_all d r names) d (Some rel))) as Hsl.
  { destruct (remove_all_floors d r names) as (Hc1 & Hf1 & _). intros Hso d' v Hv. apply (Hso d').
    rewrite <- Hv. destruct d, d'; cbn in *; congruence. }
  eapply (keeps_removal d _ _ names); [done|by destruct d|by destruct d|done|done|..].
  - intros op (_ & id & Hid & Hc)%Hn. exists id. split; [done|]. unfold retired.
    apply orb_true_iff. right. by destruct d.
  - destruct d; intros op x Hin Hop; [by eapply eligible_released_commands|by eapply eligible_released_files].
Qed.
End laws.
