(* ===== verification/HostLaws.v ===== *)
(** * The host implements its specification

    [inv P h]: every record map the host may hold, in memory or on disk after a crash, is
    with the log a state in [P], for a set [P] that the steps of [HostSpec] do not leave.
    Every operation keeps [inv P], whatever it is asked, whatever fails and whatever the
    outside answers: each write of a record is a step, and each spawn or dispatch happens
    when every such record map already holds the intent. *)

From S2P Require Import Prelude Ext Ids GuestModel GuestWire Wire Fs FsLaws Store HostModel HostEnv HostSpec JournalLaws HostOps.
From S2P Require Authority LaunchAuthority Resources Guardian Command Files History Journal.

(** The records of a journal that may not exist yet. *)
Definition recs (o : option Journal) : gmap string Record_ := default ∅ (records <$> o).

Section laws.
Context `{Env, UuidLaws, Sha256, HexLib, Serde Authority.Retirement.Intent,
          Serde Authority.Retirement.Request, Serde Authority.Saved,
          Serde LaunchAuthority.Required, Serde LaunchAuthority.Saved, Serde Manifest,
          Serde Files.Upload, Serde Files.FileRecord, Serde Journal, JournalSerde0 : !JournalSerde,
          Serde Record_, Serde Authority.Permit, Serde (list Authority.Permit), Serde Execute}.
Context (P : astate -> Prop) `{!Closed P}.

(** ** The invariant *)

Record sys_inv (s : System) : Prop := {
  si_ok : dir_ok (state s);
  si_disk : forall o, retains (state s) o -> P (recs o, trace s);
  si_log : exists R, P (R, trace s);
}.
Record inv (h : Host) : Prop := {
  in_sys : sys_inv (system h);
  in_memory : poisoned (journal h) = false -> P (records (journal h), trace (system h));
}.

(** The disk holds what memory holds. *)
Definition synced (h : Host) : Prop :=
  poisoned (journal h) = false /\ forall o, retains (state (system h)) o -> o = Some (journal h).

(** Nothing happened but questions that start nothing. *)
Definition asked (s s' : System) : Prop :=
  state s' = state s /\
  exists new, trace s' = new ++ trace s /\ Forall (fun e => tracked e = false) new.
Definition same (h h' : Host) : Prop := journal h' = journal h /\ asked (system h) (system h').

Lemma asked_refl s : asked s s.
Proof. split; [done|]. by exists []. Qed.
Lemma asked_trans s1 s2 s3 : asked s1 s2 -> asked s2 s3 -> asked s1 s3.
Proof.
  intros (Hs1 & l1 & Ht1 & Hf1) (Hs2 & l2 & Ht2 & Hf2). split; [congruence|].
  exists (l2 ++ l1). split; [rewrite Ht2, Ht1; apply app_assoc|by apply Forall_app].
Qed.
Lemma same_refl h : same h h.
Proof. split; [done|apply asked_refl]. Qed.
Lemma same_trans h1 h2 h3 : same h1 h2 -> same h2 h3 -> same h1 h3.
Proof. intros [Hj1 Ha1] [Hj2 Ha2]. split; [congruence|by eapply asked_trans]. Qed.

Lemma asks_closed R tr new :
  P (R, tr) -> Forall (fun e => tracked e = false) new -> P (R, new ++ tr).
Proof. intros HP. induction 1; [done|]. eapply closed_step; [done|]. by constructor. Qed.

Lemma sys_inv_asked s s' : asked s s' -> sys_inv s -> sys_inv s'.
Proof.
  intros (Hs & new & Ht & Hf) [Hok Hd [R HR]]. split; rewrite ?Hs, ?Ht; [done| |].
  - intros o Ho. apply asks_closed; auto.
  - exists R. by apply asks_closed.
Qed.
Lemma inv_same h h' : same h h' -> inv h -> inv h'.
Proof.
  intros [Hj Ha] [Hs Hm]. split; [by eapply sys_inv_asked|]. rewrite Hj. intros Hp.
  destruct Ha as (_ & new & Ht & Hf). rewrite Ht. apply asks_closed; auto.
Qed.

(** Nothing that starts or changes anything was logged. *)
Lemma untracked_same {A} (f : effect -> option A) h h' :
  (forall e, tracked e = false -> f e = None) -> same h h' ->
  omap f (trace (system h')) = omap f (trace (system h)).
Proof.
  intros Hf (_ & _ & new & -> & Hn). rewrite omap_app.
  assert (omap f new = []) as ->; [|done].
  induction Hn as [|e l He _ IH]; [done|]. cbn. by rewrite IH, Hf.
Qed.
Lemma spawned_same h h' : same h h' -> spawned (trace (system h')) = spawned (trace (system h)).
Proof. apply untracked_same. by intros []. Qed.
Lemma executed_same h h' : same h h' -> executed (trace (system h')) = executed (trace (system h)).
Proof. apply untracked_same. by intros []. Qed.
Lemma uploaded_same h h' : same h h' -> uploaded (trace (system h')) = uploaded (trace (system h)).
Proof. apply untracked_same. by intros []. Qed.
Lemma synced_same h h' : same h h' -> synced h -> synced h'.
Proof. intros (Hj & Hs & _) [Hp Ho]. unfold synced. by rewrite Hj, Hs. Qed.

(** The record of an allocation, in a memory that may be saved. *)
Definition mem (h : Host) (id : string) (r : Record_) : Prop :=
  poisoned (journal h) = false /\ records (journal h) !! id = Some r.
Lemma mem_same h h' id r : same h h' -> mem h id r -> mem h' id r.
Proof. intros [Hj _]. unfold mem. by rewrite Hj. Qed.

(** ** Specifications *)

Definition spec {A} (m : ST Host Status A) (Q : A -> Host -> Prop) (h : Host) : Prop :=
  inv h -> inv (m h).1 /\ forall a, (m h).2 = Ok a -> Q a (m h).1.

Lemma spec_mono {A} (m : ST Host Status A) Q Q' h :
  spec m Q' h -> (forall a h', Q' a h' -> Q a h') -> spec m Q h.
Proof. intros Hm HQ Hi. destruct (Hm Hi) as [Hi' Ha]. split; [done|]. eauto. Qed.
Lemma spec_bind {A B} (m : ST Host Status A) (k : A -> ST Host Status B) Q h :
  spec m (fun a h' => spec (k a) Q h') h -> spec (m ≫= k) Q h.
Proof.
  intros Hm Hi. destruct (Hm Hi) as [Hi' Ha]. unfold mbind, ST_bind.
  destruct (m h) as [h' [a|e]]; cbn in *; [by apply (Ha a eq_refl)|by split].
Qed.
Lemma spec_ret {A} (a : A) (Q : A -> Host -> Prop) h : Q a h -> spec (mret a) Q h.
Proof. intros HQ Hi. split; [done|]. by intros ? [= <-]. Qed.
Lemma spec_fail {A} e (Q : A -> Host -> Prop) h : spec (fail e) Q h.
Proof. intros Hi. by split. Qed.
Lemma spec_lift {A} (r : result Status A) (Q : A -> Host -> Prop) h :
  (forall a, r = Ok a -> Q a h) -> spec (lift r) Q h.
Proof. intros HQ Hi. by split. Qed.
Lemma spec_ensure c e (Q : unit -> Host -> Prop) h :
  (c = true -> Q tt h) -> spec (lift (ensure c e)) Q h.
Proof. intros HQ. apply spec_lift. intros [] Hc%ensure_ok. auto. Qed.
Lemma spec_get (Q : Host -> Host -> Prop) h : Q h h -> spec get Q h.
Proof. intros HQ Hi. split; [done|]. by intros ? [= <-]. Qed.

Lemma spec_inv {A} (m : ST Host Status A) (Q : A -> Host -> Prop) h :
  (inv h -> spec m Q h) -> spec m Q h.
Proof. intros Hm Hi. by apply Hm. Qed.

(** An effect happens when every journal that may be found allows it. *)
Definition after (h : Host) (e : effect) : Host :=
  {| journal := journal h; system := log (system h) e |}.
Lemma spec_effect {A} (e : effect) (f : list effect -> A) (Q : A -> Host -> Prop) h :
  synced h ->
  (P (records (journal h), trace (system h)) -> P (records (journal h), e :: trace (system h))) ->
  Q (f (trace (system h))) (after h e) -> spec (on_system (ask e f)) Q h.
Proof.
  intros [Hp Hs] Hstep HQ [[Hok Hd Hlog] Hm]. unfold on_system, ask. cbn.
  split; [|by intros ? [= <-]]. pose proof (Hstep (Hm Hp)) as Hn.
  split; [split; [done| |by eexists]|by intros _]. cbn. intros o Ho. by rewrite (Hs o Ho).
Qed.

(** *** Operations that only ask *)

Definition quiet {A} (m : ST Host Status A) (Q : A -> Prop) : Prop :=
  forall h, same h (m h).1 /\ forall a, (m h).2 = Ok a -> Q a.

Lemma spec_quiet {A} (m : ST Host Status A) (R : A -> Prop) (Q : A -> Host -> Prop) h :
  quiet m R -> (forall a h', R a -> same h h' -> Q a h') -> spec m Q h.
Proof. intros Hm HQ Hi. destruct (Hm h) as [Hs Ha]. split; [by eapply inv_same|eauto]. Qed.

Lemma quiet_mono {A} (m : ST Host Status A) (Q Q' : A -> Prop) :
  quiet m Q' -> (forall a, Q' a -> Q a) -> quiet m Q.
Proof. intros Hm HQ h. destruct (Hm h). split; eauto. Qed.
Lemma quiet_bind {A B} (m : ST Host Status A) (k : A -> ST Host Status B) Q R :
  quiet m R -> (forall a, R a -> quiet (k a) Q) -> quiet (m ≫= k) Q.
Proof.
  intros Hm Hk h. destruct (Hm h) as [Hs Ha]. unfold mbind, ST_bind.
  destruct (m h) as [h' [a|e]]; cbn in *; [|by split].
  destruct (Hk a (Ha a eq_refl) h') as [Hs' Hb]. split; [by eapply same_trans|done].
Qed.
Lemma quiet_seq {A B} (m : ST Host Status A) (k : A -> ST Host Status B) Q :
  quiet m (fun _ => True) -> (forall a, quiet (k a) Q) -> quiet (m ≫= k) Q.
Proof. intros Hm Hk. by eapply quiet_bind. Qed.
Lemma quiet_ret {A} (a : A) (Q : A -> Prop) : Q a -> quiet (mret a) Q.
Proof. intros HQ h. split; [apply same_refl|]. by intros ? [= <-]. Qed.
Lemma quiet_fail {A} e (Q : A -> Prop) : quiet (fail e) Q.
Proof. intros h. split; [apply same_refl|done]. Qed.
Lemma quiet_lift {A} (r : result Status A) (Q : A -> Prop) :
  (forall a, r = Ok a -> Q a) -> quiet (lift r) Q.
Proof. intros HQ h. split; [apply same_refl|done]. Qed.
Lemma quiet_ask {A} (e : effect) (f : list effect -> A) (Q : A -> Prop) :
  tracked e = false -> (forall t, Q (f t)) -> quiet (on_system (ask e f)) Q.
Proof.
  intros He HQ h. unfold on_system, ask. cbn. split; [|by intros ? [= <-]].
  split; [done|]. split; [done|]. exists [e]. by repeat constructor.
Qed.
Lemma quiet_launch {A} f (m : Journal.IO A) : quiet (launch f m) (fun _ => True).
Proof.
  intros h. unfold launch, on_system, on_launch. destruct (m _) as [w r]. cbn.
  split; [|done]. split; [done|]. split; [done|]. by exists [].
Qed.
Lemma quiet_now : quiet now (fun _ => True).
Proof. by apply quiet_ask. Qed.
Lemma quiet_deadline until : quiet (deadline until) (fun _ => True).
Proof. eapply quiet_bind; [apply quiet_now|]. intros n _. by apply quiet_lift. Qed.
Lemma quiet_journal : quiet journal_ (fun j => poisoned j = false).
Proof.
  intros h. unfold journal_, get, mbind, ST_bind. destruct (poisoned (journal h)) eqn:Hp; cbn;
    (split; [apply same_refl|]); [done|]. by intros ? [= <-].
Qed.

Lemma spec_journal (Q : Journal -> Host -> Prop) h :
  (poisoned (journal h) = false -> Q (journal h) h) -> spec journal_ Q h.
Proof.
  intros HQ Hi. unfold journal_, get, mbind, ST_bind. destruct (poisoned (journal h)) eqn:Hp; cbn;
    (split; [done|]); [done|]. intros ? [= <-]. by apply HQ.
Qed.
Lemma spec_record_of id (Q : Record_ -> Host -> Prop) h :
  (forall r, mem h id r -> Q r h) -> spec (record_of id) Q h.
Proof.
  intros HQ. apply spec_bind, spec_journal. intros Hp. apply spec_lift.
  intros r Hr%ok_or_ok. by apply HQ.
Qed.

(** *** Writes *)

Definition with_record (h : Host) (id : string) (r : Record_) : Host :=
  {| journal := set_records (journal h) (<[id := r]> (records (journal h))); system := system h |}.

(** A change of the record map in memory is a step, if memory may still be saved. *)
Lemma spec_write id r (Q : unit -> Host -> Prop) h :
  (poisoned (journal h) = false -> P (records (journal h), trace (system h)) ->
     P (<[id := r]> (records (journal h)), trace (system h))) ->
  Q tt (with_record h id r) -> spec (write_record id r) Q h.
Proof.
  intros HP HQ Hi. unfold write_record, get, set_journal, modify, mbind, ST_bind. cbn.
  split; [|by intros [] _]. destruct Hi as [Hs Hm]. split; [done|]. cbn. auto.
Qed.

Lemma spec_write_keeps id r0 r (Q : unit -> Host -> Prop) h :
  mem h id r0 -> keeps r0 r -> Q tt (with_record h id r) -> spec (write_record id r) Q h.
Proof.
  intros [Hp Hr] Hk HQ. apply spec_write; [|done]. intros _ HP.
  eapply closed_step; [exact HP|]. by eapply a_keep.
Qed.

Lemma mem_with h id r : poisoned (journal h) = false -> mem (with_record h id r) id r.
Proof. intros Hp. split; [done|]. cbn. apply lookup_insert_eq. Qed.

(** A successful save puts memory on disk. *)
Lemma spec_save (Q : unit -> Host -> Prop) h :
  (forall h', synced h' -> journal h' = journal h -> trace (system h') = trace (system h) -> Q tt h') ->
  spec save Q h.
Proof.
  intros HQ [[Hok Hd Hlog] Hm]. unfold save. destruct (Journal.save (journal h) (system h)) as [s [j r]] eqn:Hs.
  pose proof (save_spec _ _ _ _ _ Hok Hs) as (Hok' & _ & Ht & Hbad & Hgood). cbn.
  destruct (poisoned (journal h)) eqn:Hp.
  - destruct (Hbad eq_refl) as (-> & -> & Hr). split.
    { split; [by split|]. cbn. by rewrite Hp. }
    destruct r as [[]|e]; [by destruct Hr|done].
  - destruct (Hgood eq_refl) as (-> & Ho & _). split.
    + split; [split|]; cbn; rewrite ?Ht; [done| |done|].
      * intros o Hr. destruct (Ho o Hr) as [[Hr' _]| ->]; [by apply Hd|exact (Hm eq_refl)].
      * intros _. exact (Hm eq_refl).
    + intros [] Hr. destruct r as [[]|e]; [|done]. apply HQ; cbn; [| |done].
      * split; [done|]. intros o Hr'. destruct (Ho o Hr') as [[_ Hne]| ->]; [by destruct Hne|].
        cbn. by destruct (journal h); cbn in *; subst.
      * by destruct (journal h); cbn in *; subst.
Qed.

(** A scope of the launch authority changes neither the journal nor the log. *)
Lemma spec_holding {A} lock (body : ST Host Status A) (Q : A -> Host -> Prop) h :
  spec body (fun a h' => forall h'', same h' h'' -> Q a h'') h -> spec (holding lock body) Q h.
Proof.
  intros Hb Hi. destruct (Hb Hi) as [Hi' Ha]. unfold holding. destruct (body h) as [h' r]. cbn in *.
  assert (same h' {| journal := journal h'; system := set_launch_dir (system h') (release lock (launch_dir (system h'))) |})
    as Hs by (split; [done|]; split; [done|]; by exists []).
  split; [by eapply inv_same|]. intros a Hr. by eapply Ha.
Qed.
Lemma spec_with_guard {A} g (body : ST Host Status A) (Q : A -> Host -> Prop) h :
  spec body (fun a h' => forall h'', same h' h'' -> Q a h'') h -> spec (with_guard g body) Q h.
Proof.
  intros Hb. destruct g as [g|]; [by apply spec_holding|]. eapply spec_mono; [exact Hb|].
  intros a h' HQ. apply HQ, same_refl.
Qed.
End laws.
