(* ===== verification/HostRefines.v ===== *)
(** * Every operation of the host keeps the invariant

    One lemma per function of [HostOps], in its order: [spec m Q h] says that [m] keeps
    [inv P] whatever happens, and what holds when it succeeds. *)

From S2P Require Import Prelude Ext Ids GuestModel GuestWire Wire Fs Store HostModel HostEnv HostSpec RecordLaws JournalLaws HostOps HostLaws.
From S2P Require Authority LaunchAuthority Resources Guardian Command Files History Journal.

(** Follow operations that only ask, forgetting what they answer. *)
Ltac quiet_step :=
  first
    [ apply quiet_now | apply quiet_deadline | apply quiet_launch
    | apply quiet_ask; [reflexivity|done]
    | apply quiet_ret; done
    | apply quiet_fail
    | apply quiet_lift; done
    | apply quiet_seq; [|intros ?]
    | case_match ].
Ltac quiets := repeat quiet_step.


(** Carry a fact about a record over the questions asked since. *)
Ltac carry H :=
  repeat match goal with Hs : same _ _ |- _ => eapply mem_same in H; [|exact Hs] end.

Section refines.
Context `{Env, UuidLaws, Sha256, HexLib, Serde Authority.Retirement.Intent,
          Serde Authority.Retirement.Request, Serde Authority.Saved,
          Serde LaunchAuthority.Required, Serde LaunchAuthority.Saved, Serde Manifest,
          Serde Files.Upload, Serde Files.FileRecord, Serde Journal, JournalSerde0 : !JournalSerde,
          Serde Record_, Serde Authority.Permit, Serde (list Authority.Permit), Serde Execute}.
Context (config : Config) (authority : option LaunchAuthority.AuthorityFile).
Context (P : astate -> Prop) `{!Closed P}.
Abbreviation spec := (spec P) (only parsing).
Abbreviation done_ := (fun _ _ => True) (only parsing).
Abbreviation spec_quiet := (spec_quiet P) (only parsing).
Abbreviation spec_record_of := (spec_record_of P) (only parsing).
Abbreviation spec_write := (spec_write P) (only parsing).
Abbreviation spec_write_keeps := (spec_write_keeps P) (only parsing).
Abbreviation spec_save := (spec_save P) (only parsing).
Abbreviation spec_holding := (spec_holding P) (only parsing).
Abbreviation spec_with_guard := (spec_with_guard P) (only parsing).

(** The next operation of a specification only asks. *)
Ltac asks :=
  apply spec_bind; eapply (spec_quiet _ (fun _ => True)); [solve [quiets]|intros ? ? _ ?].

Lemma spec_true {A} (m : ST Host Status A) (Q : A -> Host -> Prop) h : spec m Q h -> spec m done_ h.
Proof. intros Hm. by eapply spec_mono. Qed.

(** ** Admission *)

Lemma quiet_owner o :
  quiet (owner_ config o) (fun o' => o = Some o').
Proof.
  unfold owner_. eapply (quiet_bind _ _ _ (fun o' => o = Some o')).
  { apply quiet_lift. by intros o' Ho%ok_or_ok. }
  intros o' Ho. apply quiet_seq; [by apply quiet_lift|]. intros _. apply quiet_seq; [by apply quiet_lift|]. intros _.
  apply quiet_seq; [apply quiet_deadline|]. intros _. by apply quiet_ret.
Qed.

Lemma blank_new o : blank (new_record o).
Proof. done. Qed.

Lemma spec_enter id r h :
  blank r -> o_allocation_id (owner r) = id -> records (journal h) !! id = None ->
  spec (_ ← write_record id r; save) done_ h.
Proof.
  intros Hb Ho Hn. apply spec_bind, spec_write.
  - intros _ HP. eapply closed_step; [exact HP|]. by constructor.
  - by apply spec_save.
Qed.

Lemma spec_gate o h : spec (gate config authority o) done_ h.
Proof.
  unfold gate. apply spec_bind, spec_journal. intros Hp.
  destruct (records (journal h) !! o_allocation_id o) as [r|] eqn:Hr.
  { apply spec_bind, spec_lift. intros _ _. by apply spec_lift. }
  apply spec_bind, spec_lift. intros _ _. destruct authority; [|by apply spec_enter].
  apply spec_bind, spec_lift. intros c _. apply spec_bind, spec_lift. intros alc _.
  apply spec_bind. eapply spec_quiet; [apply quiet_launch|]. intros [permit guard] h' _ Hs.
  apply spec_holding. apply spec_bind, spec_lift. intros _ _.
  eapply spec_mono; [apply spec_enter; [done|done|]|done]. destruct Hs as [-> _]. done.
Qed.

(** The facts a fenced record comes with. *)
Definition fenced (o : Ownership) (r : Record_) (h : Host) : Prop :=
  mem h (o_allocation_id o) r /\ same_allocation (owner r) o = true.

Lemma fenced_same o r h h' : same h h' -> fenced o r h -> fenced o r h'.
Proof. intros Hs [Hm Ho]. split; [by eapply mem_same|done]. Qed.

Lemma spec_fence o h :
  spec (fence o) (fun r h' => fenced o r h' /\
    (forall r0, mem h (o_allocation_id o) r0 -> r = set_revisions r0 (revisions r)) /\ synced h') h.
Proof.
  unfold fence. asks. apply spec_bind, spec_record_of. intros r [Hp Hr].
  apply spec_bind, spec_ensure. intros Ho. apply spec_bind, spec_lift. intros _ _.
  apply spec_bind, spec_ensure. intros _.
  apply spec_bind. eapply spec_write_keeps; [by split|by apply keeps_same|].
  apply spec_bind, spec_ensure. intros _.
  apply spec_bind. eapply spec_write_keeps; [by apply mem_with|by apply keeps_same|].
  apply spec_bind, spec_save. intros h1 Hs Hj Ht. apply spec_ret.
  split; [|split; [|done]].
  - split; [|done]. split; [apply Hs|]. rewrite Hj. cbn. apply lookup_insert_eq.
  - intros r0 Hr0. match goal with H : same h _ |- _ => eapply mem_same in Hr0; [|exact H] end.
    destruct Hr0 as [_ Hr0]. by simplify_eq.
Qed.

Lemma spec_mark_stopped id h :
  spec (mark_stopped id) (fun _ h' => synced h' /\
    forall r, mem h id r -> mem h' id (set_stopped r true)) h.
Proof.
  unfold mark_stopped. apply spec_bind, spec_record_of. intros r Hm.
  apply spec_bind. eapply spec_write_keeps; [done|by apply keeps_same|].
  apply spec_save. intros h' Hs Hj _. split; [done|].
  intros r' [_ Hr']. destruct Hm as [Hp Hr]. simplify_eq.
  split; [apply Hs|]. rewrite Hj. cbn. apply lookup_insert_eq.
Qed.

Lemma spec_mark_released id m h :
  (forall r, mem h id r -> manifest r = Some m) -> confirmed m (trace (system h)) ->
  spec (mark_released id) done_ h.
Proof.
  intros Hm Hc. unfold mark_released. apply spec_bind, spec_record_of. intros r Hr.
  destruct (released r); [by apply spec_ret|].
  apply spec_bind, spec_write; [|by apply spec_save].
  intros _ HP. eapply closed_step; [exact HP|]. destruct (Hr) as [Hp Hl]. eapply a_release; eauto.
Qed.

(** ** Observation *)

Lemma quiet_control m a : quiet (control_ m a) (fun _ => True).
Proof. by apply quiet_ask. Qed.
Lemma quiet_observation o r s receipt : quiet (observation o r s receipt) (fun _ => True).
Proof. unfold observation. quiets. Qed.

Lemma quiet_bind_guest m : quiet (bind_guest m) (fun _ => True).
Proof. unfold bind_guest. apply quiet_seq; [apply quiet_control|intros ?]. quiets. Qed.
(** The last question of it is not a stop. *)
Lemma bind_guest_asks m h : ~ stop_asked m (trace (system (bind_guest m h).1)).
Proof.
  unfold bind_guest, control_, on_system, control, ask, now, mbind, ST_bind. cbn.
  destruct (control_reply _ _ _) as [response|]; [|by intros [t Ht]].
  destruct (Guardian.error response), (Guardian.receipt response) as [receipt|]; try by intros [t Ht].
  destruct (_ && _); by intros [t Ht].
Qed.
Lemma spec_bind_guest m h (Q : option Guardian.Receipt -> Host -> Prop) :
  (forall o h', same h h' -> ~ stop_asked m (trace (system h')) -> Q o h') -> spec (bind_guest m) Q h.
Proof.
  intros HQ Hi. destruct (quiet_bind_guest m h) as [Hs _]. split; [by eapply inv_same|]. intros o _.
  by apply HQ, bind_guest_asks.
Qed.

Lemma spec_fence_unstarted m h (Q : result Guardian.CleanupError Guardian.Receipt -> Host -> Prop) :
  (forall a h', same h h' ->
     (forall r, a = Ok r -> (stop_asked m (trace (system h)) -> cleaned_up r) -> confirmed m (trace (system h'))) ->
     Q a h') ->
  spec (fence_unstarted m) Q h.
Proof.
  intros HQ. set (a := fence_reply (trace (system h)) m).
  set (h' := {| journal := journal h; system := log (system h) (FenceUnstarted m) |}).
  assert (Hs : same h h').
  { split; [done|]. split; [done|]. exists [FenceUnstarted m]. by repeat constructor. }
  change (fence_unstarted m) with (fun h0 : Host =>
    ({| journal := journal h0; system := log (system h0) (FenceUnstarted m) |},
     Ok (fence_reply (trace (system h0)) m)) : Host * result Status _).
  intros Hi. split; [by apply (inv_same P h h')|].
  intros b Hb. apply (f_equal (fun r => match r with Ok x => x | Err _ => a end)) in Hb. cbn in Hb. subst b.
  apply (HQ a h' Hs). intros r Hr Hc. by exists [], (trace (system h)), r.
Qed.

(** [r] may differ from the record in memory in its stop fence. *)
Definition about (r : Record_) (h : Host) : Prop :=
  exists r0, mem h (o_allocation_id (owner r)) r0 /\ manifest r0 = manifest r.

Lemma about_same r h h' : same h h' -> about r h -> about r h'.
Proof. intros Hs (r0 & Hm & ?). exists r0. split; [by eapply mem_same|done]. Qed.
Lemma about_manifest r h m : about r h -> manifest r = Some m ->
  forall r', mem h (o_allocation_id (owner r)) r' -> manifest r' = Some m.
Proof. intros (r0 & [_ Hr0] & Hm) Hr r' [_ Hr']. congruence. Qed.

Lemma spec_observe_record r h : about r h -> spec (observe_record r) done_ h.
Proof.
  intros Ha. unfold observe_record, cleanup. apply spec_bind, spec_lift. intros _ _.
  destruct (stopped r).
  - apply spec_bind. destruct (manifest r) as [m|] eqn:Hm.
    + asks. eapply about_same in Ha; [|eassumption].
      apply spec_bind, spec_fence_unstarted. intros answer h1 Hs1 Hc.
      eapply about_same in Ha; [|exact Hs1]. apply spec_bind.
      destruct answer as [receipt|e]; [|apply spec_fail]. apply spec_ret.
      apply spec_bind, spec_lift. intros [] He%ensure_ok. bools. apply spec_bind.
      eapply spec_mono; [eapply spec_mark_released; [by eapply about_manifest|by apply (Hc receipt)]|].
      intros _ h2 _. apply spec_ret. by apply spec_ret.
    + eapply (spec_quiet _ (fun _ => True)); [solve [quiets]|]. intros. by apply spec_ret.
  - destruct (manifest r) as [m|] eqn:Hm; [|by apply spec_ret].
    apply spec_bind, spec_bind_guest. intros live h1 Hs1 Hno.
    eapply about_same in Ha; [|exact Hs1]. destruct live; [by apply spec_ret|].
    apply spec_bind, spec_fence_unstarted. intros answer h2 Hs2 Hc.
    eapply about_same in Ha; [|exact Hs2]. apply spec_bind.
    destruct answer as [receipt|e]; [|apply spec_fail]. apply spec_ret. apply spec_bind.
    eapply spec_mono; [eapply spec_mark_released; [by eapply about_manifest|by apply (Hc receipt)]|].
    intros _ h3 _. by apply spec_ret.
Qed.

Lemma spec_report o r h : about r h -> spec (report o r) done_ h.
Proof.
  intros Ha. apply spec_bind. eapply spec_mono; [by apply spec_observe_record|].
  intros [s receipt] h' _. eapply spec_quiet; [apply quiet_observation|done].
Qed.

Lemma fenced_key o r : same_allocation (owner r) o = true -> o_allocation_id (owner r) = o_allocation_id o.
Proof. unfold same_allocation. intros Hs. by bools. Qed.
Lemma fenced_about o r h : fenced o r h -> about r h.
Proof. intros [Hm Ho]. exists r. by rewrite (fenced_key _ _ Ho). Qed.
Lemma stopped_about o r h :
  same_allocation (owner r) o = true -> mem h (o_allocation_id o) (set_stopped r true) ->
  about (set_stopped r true) h.
Proof. intros Ho Hm. exists (set_stopped r true). cbn. by rewrite (fenced_key _ _ Ho). Qed.

(** A stop that is reported. *)
Lemma spec_stop_and_report o r h : fenced o r h -> spec (stop_and_report o r) done_ h.
Proof.
  intros [Hm Ho]. unfold stop_and_report. apply spec_bind.
  eapply spec_mono; [by apply spec_mark_stopped|]. intros _ h' [_ Hr].
  apply spec_report. eapply stopped_about; [done|by apply Hr].
Qed.
(** ** create *)

Lemma legal_mem h : inv P h -> poisoned (journal h) = false -> legal (records (journal h), trace (system h)).
Proof. intros [_ Hm] Hp. by apply (closed_legal (P:=P)), Hm. Qed.

(** An allocation without a creation was not spawned. *)
Lemma not_spawned R tr key r : legal (R, tr) -> R !! key = Some r -> create r = None -> key ∉ spawned tr.
Proof.
  intros Hl Hr Hc (m & Hm & Hk)%spawned_in. destruct (lg_spawn _ Hl m Hm) as (r' & Hr' & [? ?] & _).
  cbn in Hr'. congruence.
Qed.

Lemma no_rival_of o R r :
  existsb (unreleased_generation o) (entries R) = false -> same_allocation (owner r) o = true ->
  no_rival R (o_allocation_id o) r.
Proof.
  intros He Ho k r' Hr' Hne Hs. assert (unreleased_generation o (k, r') = false) as Hu.
  { destruct (unreleased_generation o (k, r')) eqn:Hu; [|done].
    assert (existsb (unreleased_generation o) (entries R) = true); [|congruence].
    apply List.existsb_exists. exists (k, r'). split; [|done].
    by apply list_elem_of_In, elem_of_entries. }
  unfold same_allocation in Ho. unfold unreleased_generation in Hu. cbn in Hu. bools.
  rewrite bool_decide_eq_false_2, bool_decide_eq_true_2 in Hu by congruence. cbn in Hu. bools.
  split_and!; [done| |lia]. intros [m Hm]. rewrite Hm in *. cbn in *.
  match goal with H : negb (released r') = false |- _ => by apply negb_false_iff in H end.
Qed.

(** What the creation of a record leaves. *)
Definition launching (id : string) (r : Record_) (m : Manifest) (h : Host) : Prop :=
  mem h id r /\ is_Some (create r) /\ manifest r = Some m /\ key_of m = id /\ stopped r = false /\
  id ∉ spawned (trace (system h)).

Lemma launching_same id r m h h' : same h h' -> launching id r m h -> launching id r m h'.
Proof.
  intros Hs (Hm & ? & ? & ? & ? & Hn). split_and!; try done; [by eapply mem_same|].
  by rewrite (spawned_same _ _ Hs).
Qed.

Lemma spec_admit o request m r h :
  fenced o r h -> create r = None -> stopped r = false -> key_of m = o_allocation_id o ->
  spec (admit_start config o request m)
    (fun r' h' => r' = set_create r request m /\ launching (o_allocation_id o) r' m h') h.
Proof.
  intros [[Hp Hr] Ho] Hc Hst Hk. unfold admit_start. apply spec_inv. intros Hi.
  pose proof (legal_mem _ Hi Hp) as Hl.
  apply spec_bind, spec_journal. intros _. apply spec_bind, spec_ensure. intros He%negb_true_iff.
  apply spec_bind, spec_lift. intros _ _. apply spec_bind, spec_lift. intros r' Hr'%ok_or_ok. simplify_eq.
  apply spec_bind, spec_write.
  { intros _ HP. eapply closed_step; [exact HP|]. apply a_create; try done. by apply no_rival_of. }
  apply spec_bind, spec_save. intros h' Hs Hj Ht. apply spec_ret. split; [done|].
  split_and!; try done; [split; [apply Hs|]; rewrite Hj; cbn; apply lookup_insert_eq|].
  rewrite Ht. by eapply not_spawned.
Qed.

Lemma quiet_manifest_for o request :
  quiet (manifest_for config authority o request) (fun m => key_of m = o_allocation_id o).
Proof.
  unfold manifest_for. do 4 (apply quiet_seq; [by apply quiet_lift|intros ?]).
  apply quiet_seq; [apply quiet_deadline|intros _].
  apply quiet_seq; [quiets|intros permit].
  apply quiet_seq; [by apply quiet_lift|intros project].
  apply quiet_seq; [by apply quiet_lift|intros sandbox].
  eapply (quiet_bind _ _ _ (fun id => to_string id = o_allocation_id o)).
  { apply quiet_lift. intros id Hid%map_err_ok. by apply parse_ok in Hid as [-> _]. }
  intros id Hid. apply quiet_seq; [by apply quiet_lift|intros operation]. by apply quiet_ret.
Qed.

Lemma spec_mark_dispatched id r m h :
  launching id r m h ->
  spec (mark_dispatched id) (fun _ h' => synced h' /\ launching id (set_dispatched r true) m h') h.
Proof.
  intros (Hm & Hc & Hma & Hk & Hst & Hn). unfold mark_dispatched.
  apply spec_bind, spec_record_of. intros r' [_ Hr']. destruct (Hm) as [Hp Hr]. simplify_eq.
  apply spec_bind. eapply spec_write_keeps; [done|by apply keeps_same|].
  apply spec_save. intros h' Hs Hj Ht. split; [done|]. split_and!; try done; [|by rewrite Ht].
  split; [apply Hs|]. rewrite Hj. cbn. apply lookup_insert_eq.
Qed.

Lemma spec_spawn id r m h (Q : bool -> Host -> Prop) :
  synced h -> launching id r m h -> dispatched r = true ->
  (forall b h', mem h' id r -> Q b h') ->
  spec (on_system (ask (Spawn m) (fun t => HostEnv.spawned t m))) Q h.
Proof.
  intros Hs (Hm & Hc & Hma & Hk & Hst & Hn) Hd HQ. apply spec_effect; [done| |by apply HQ].
  intros HP. eapply closed_step; [exact HP|]. destruct Hm as [_ Hr]. by eapply a_spawn.
Qed.

Lemma spec_await_ready n o r m h : spec (await_ready n o r m) done_ h.
Proof.
  eapply (spec_quiet _ (fun _ => True)); [|done]. induction n as [|n IH]; cbn [await_ready].
  all: apply quiet_seq; [apply quiet_bind_guest|intros [receipt|]]; [apply quiet_observation|].
  all: apply quiet_seq; [by apply quiet_ask|intros late].
  - apply quiet_fail.
  - destruct late; [apply quiet_fail|done].
Qed.
Lemma spec_launch_admitted o r m h :
  launching (o_allocation_id o) r m h -> same_allocation (owner r) o = true ->
  spec (launch_admitted o r m) done_ h.
Proof.
  intros Hl Ho. unfold launch_admitted. asks. eapply launching_same in Hl; [|eassumption].
  apply spec_bind. eapply (spec_quiet _ (fun _ => True)); [solve [quiets]|]. intros ok h1 _ Hs1.
  eapply launching_same in Hl; [|exact Hs1]. destruct ok; cbn [negb].
  2: { apply spec_stop_and_report. split; [apply Hl|done]. }
  apply spec_bind. eapply spec_mono; [by apply spec_mark_dispatched|]. intros _ h2 [Hsy Hl2].
  apply spec_bind, (spec_spawn _ _ _ _ _ Hsy Hl2 eq_refl). intros [] h3 Hm3; [apply spec_await_ready|].
  unfold stop_and_report. apply spec_bind. eapply spec_mono; [by apply spec_mark_stopped|].
  intros _ h4 [_ Hm4]. apply spec_report. exists (set_stopped (set_dispatched r true) true). cbn.
  rewrite (fenced_key _ _ Ho). split; [by apply Hm4|done].
Qed.

Lemma spec_create_sync request h : spec (create_sync config authority request) done_ h.
Proof.
  unfold create_sync. apply spec_bind. eapply spec_quiet; [apply quiet_owner|]. intros o h0 _ _.
  apply spec_bind. eapply (spec_quiet _ (fun _ => True)); [unfold authorize_create; solve [quiets]|].
  intros guard h1 _ _. apply spec_with_guard. apply spec_bind.
  eapply spec_mono; [apply spec_gate|]. intros _ h2 _.
  apply spec_bind. eapply spec_mono; [apply spec_fence|]. intros r h3 [Hf _].
  destruct (create r) as [original|] eqn:Hc.
  { apply spec_bind, spec_lift. intros _ _. eapply spec_mono; [by eapply spec_report, fenced_about|done]. }
  apply spec_bind, spec_ensure. intros Hst%negb_true_iff.
  apply spec_bind. eapply spec_quiet; [apply quiet_manifest_for|]. intros m h4 Hk Hs4.
  eapply fenced_same in Hf; [|exact Hs4]. apply spec_bind.
  eapply spec_mono; [by apply (spec_admit _ _ _ r)|]. intros r' h5 [-> Hl].
  eapply spec_mono; [apply spec_launch_admitted; [done|]|done]. by destruct Hf.
Qed.

Lemma spec_inspect_sync o stop h : spec (inspect_sync config authority o stop) done_ h.
Proof.
  unfold inspect_sync. apply spec_bind. eapply spec_quiet; [apply quiet_owner|]. intros o' h0 _ _.
  apply spec_bind. eapply spec_mono; [apply spec_gate|]. intros _ h1 _.
  apply spec_bind. eapply spec_mono; [apply spec_fence|]. intros r h2 [[Hm Ho] _].
  apply spec_bind. destruct stop.
  - apply spec_bind. eapply spec_mono; [by apply spec_mark_stopped|]. intros _ h3 [_ Hr].
    apply spec_ret. apply spec_report. eapply stopped_about; [done|by apply Hr].
  - apply spec_ret, spec_report. by eapply fenced_about.
Qed.

(** ** Leases and maintenance *)

Lemma spec_record_lease o l until h :
  spec (record_lease o l until) (fun r h' => fenced o r h') h.
Proof.
  unfold record_lease. apply spec_bind, spec_record_of. intros r Hm.
  apply spec_bind, spec_ensure. intros Ho. bools. apply spec_bind, spec_lift. intros _ _.
  apply spec_bind. eapply spec_write_keeps; [done|by apply keeps_same|].
  apply spec_bind, spec_save. intros h' Hs Hj _. apply spec_ret. split; [|done].
  split; [apply Hs|]. rewrite Hj. cbn. apply lookup_insert_eq.
Qed.

Lemma quiet_lease_owner l : quiet (lease_owner config l) (fun _ => True).
Proof.
  unfold lease_owner. apply quiet_seq; [by apply quiet_ask|intros op].
  eapply quiet_mono; [apply quiet_owner|done].
Qed.

Lemma spec_lease_sync l until h : spec (lease_sync config l until) done_ h.
Proof.
  unfold lease_sync. apply spec_bind, spec_lift. intros l' _.
  apply spec_bind. eapply spec_quiet; [apply quiet_lease_owner|]. intros o h0 _ _. asks.
  apply spec_bind, spec_journal. intros Hp. case_match.
  { eapply (spec_quiet _ (fun _ => True)); [solve [quiets]|done]. }
  asks. apply spec_bind. eapply spec_mono; [apply spec_record_lease|]. intros r h2 Hf.
  apply spec_bind. eapply (spec_quiet _ (fun _ => True)).
  { repeat case_match; quiets. }
  intros _ h3 _ Hs. eapply fenced_same in Hf; [|exact Hs]. apply spec_bind.
  eapply spec_mono; [by eapply spec_observe_record, fenced_about|]. intros [s receipt] h4 _.
  eapply (spec_quiet _ (fun _ => True)); [solve [quiets]|done].
Qed.

Lemma spec_reconcile_one cursor h : spec (reconcile_one cursor) done_ h.
Proof.
  unfold reconcile_one. apply spec_inv. intros Hi. apply spec_bind, spec_journal. intros Hp.
  pose proof (legal_mem _ Hi Hp) as Hl. apply spec_bind.
  eapply (spec_quiet _ (fun _ => True)); [apply quiet_now|]. intros n h1 _ Hs1.
  apply spec_bind. eapply (spec_quiet _ (fun _ => True)); [by apply quiet_ask|]. intros read h2 _ Hs2.
  destruct (_ !! _) as [r|] eqn:Ht; [|by apply spec_ret].
  apply list_elem_of_lookup_2, list_elem_of_In, List.filter_In in Ht as [Ht _].
  apply list_elem_of_In, list_elem_of_fmap in Ht as ([k r'] & Hk & Ht). cbn in Hk. subst r'.
  apply elem_of_entries in Ht.
  apply spec_bind. eapply (spec_quiet _ (fun _ => True)); [by apply quiet_ask|]. intros free h3 _ Hs3.
  destruct free; [|by apply spec_ret].
  assert (Hm : mem h k r) by done.
  eapply mem_same in Hm; [|eapply same_trans; [exact Hs1|eapply same_trans; [exact Hs2|exact Hs3]]].
  assert (Ha : about r h3).
  { exists r. by rewrite (lg_owner _ Hl _ _ Ht). }
  intros Hi3. destruct (spec_observe_record r h3 Ha Hi3) as [Hi4 _]. unfold ignoring.
  destruct (observe_record r h3) as [h4 res]. by split.
Qed.

Lemma spec_previous_allocation request h :
  spec (previous_allocation config request) done_ h.
Proof.
  unfold previous_allocation. apply spec_bind, spec_lift. intros o _. apply spec_bind, spec_lift. intros _ _.
  apply spec_bind. eapply spec_quiet; [apply quiet_owner|]. intros _ h0 _ _.
  apply spec_bind, spec_journal. intros _. do 2 (apply spec_bind, spec_lift; intros ? _).
  asks. apply spec_bind, spec_lift. intros _ _. asks.
  apply spec_bind, spec_record_of. intros r Hm. apply spec_bind, spec_ensure. intros Ho. bools.
  apply spec_bind, spec_lift. intros _ _. apply spec_bind.
  eapply spec_mono; [eapply spec_observe_record, fenced_about; by split|]. intros [s receipt] h5 _.
  apply spec_bind, spec_lift. intros _ _. asks. asks. by apply spec_ret.
Qed.
(** ** The guest client *)

Lemma quiet_guest_client m :
  quiet (guest_client m) (fun c => match c with Ok ctx => to_string (allocation_id ctx) = key_of m | Err _ => True end).
Proof.
  unfold guest_client. apply quiet_seq; [apply quiet_control|intros reply]. case_match; [|by apply quiet_ret].
  apply quiet_seq; [apply quiet_now|intros n]. case_match; [by apply quiet_ret|].
  case_match; [|by apply quiet_ret]. apply quiet_seq; [by apply quiet_ask|intros identity].
  apply quiet_ret. by destruct identity.
Qed.

Lemma quiet_client_inspect c id : quiet (client_inspect c id) (fun _ => True).
Proof. unfold client_inspect. quiets. Qed.
Lemma quiet_client_cancel c id : quiet (client_cancel c id) (fun _ => True).
Proof. unfold client_cancel. quiets. Qed.
Lemma quiet_client_retire c b : quiet (client_retire c b) (fun _ => True).
Proof. unfold client_retire. quiets. Qed.

(** ** Commands *)

Lemma spec_command_gate o h : spec (command_gate config authority o) done_ h.
Proof.
  unfold command_gate. apply spec_bind. eapply spec_mono; [apply spec_gate|]. intros _ h1 _.
  apply spec_bind, spec_record_of. intros r _. by apply spec_lift.
Qed.

Lemma check_history_retired r d id u :
  check_history r d id = Ok u -> retired d r id = false.
Proof.
  unfold check_history, check_released. intros Hc. inv_ok. bools. unfold retired.
  apply orb_false_iff. by split.
Qed.

Lemma spec_command_fence o h :
  spec (command_fence o) (fun r h' => fenced o r h' /\ ~ retired_name History.Commands r (o_operation_id o)) h.
Proof.
  unfold command_fence. apply spec_bind, spec_record_of. intros r Hm.
  apply spec_bind, spec_lift. intros id Hid%map_err_ok. apply spec_bind, spec_lift.
  intros [] Hc%check_history_retired. apply spec_bind, spec_lift. intros _ _.
  eapply spec_mono; [apply spec_fence|]. intros r' h' (Hf & Hr & _). split; [done|].
  rewrite (Hr r Hm). intros (id' & Hid' & Hret). simplify_eq.
  change (retired History.Commands r id' = true) in Hret. congruence.
Qed.

Lemma quiet_command_observation c o : quiet (command_observation c o) (fun _ => True).
Proof. unfold command_observation. quiets. Qed.

Definition with_command (r : Record_) (op : string) (c : Command.CommandRecord) : Record_ :=
  set_commands r (<[op := c]> (commands r)).

(** A command joins the record, or evidence joins a command. *)
Lemma spec_save_command o c r h (Q : unit -> Host -> Prop) :
  mem h (o_allocation_id o) r ->
  (forall R tr, R !! o_allocation_id o = Some r ->
     astep (R, tr) (<[o_allocation_id o := with_command r (o_operation_id o) c]> R, tr)) ->
  (forall h', synced h' -> trace (system h') = trace (system h) ->
     mem h' (o_allocation_id o) (with_command r (o_operation_id o) c) -> Q tt h') ->
  spec (save_command o c) Q h.
Proof.
  intros Hm Hstep HQ. unfold save_command. apply spec_bind, spec_record_of. intros r' [_ Hr'].
  destruct Hm as [Hp Hr]. simplify_eq. apply spec_bind, spec_write.
  { intros _ HP. eapply closed_step; [exact HP|]. by apply Hstep. }
  apply spec_save. intros h' Hs Hj Ht. apply HQ; [done|done|]. split; [apply Hs|].
  rewrite Hj. cbn. apply lookup_insert_eq.
Qed.

Lemma step_new_command o c r :
  commands r !! o_operation_id o = None -> ~ retired_name History.Commands r (o_operation_id o) ->
  Command.receipt c = None -> (Command.not_started c = false -> stopped r = false) ->
  forall R tr, R !! o_allocation_id o = Some r ->
    astep (R, tr) (<[o_allocation_id o := with_command r (o_operation_id o) c]> R, tr).
Proof. intros ? ? ? ? R tr Hr. by apply a_command. Qed.

Lemma keeps_receipt r op id c v :
  commands r !! op = Some c -> Command.finished c = false -> parse_operation op = Ok id ->
  Command.validate_receipt c id v = Ok tt -> keeps r (with_command r op (Command.with_receipt c (Some v))).
Proof.
  intros Hc Hf Hid Hv. split; try done; cbn.
  - intros op' c' Hc'. unfold command_kept. cbn. destruct (decide (op = op')) as [<-|Hne].
    + simplify_eq. right; left. split; [done|]. exists id, v. by rewrite lookup_insert_eq.
    + left. by rewrite lookup_insert_ne.
  - intros op' Hn. by rewrite lookup_insert_ne by congruence.
  - intros op' f. by apply files_kept_same.
Qed.

Lemma spec_observe_command o r c cancel h r0 :
  mem h (o_allocation_id o) r0 -> commands r0 !! o_operation_id o = Some c ->
  spec (observe_command o r c cancel) done_ h.
Proof.
  intros Hm Hc. unfold observe_command.
  assert (forall c b h', spec (observation ← command_observation c o;
      mret (if b : bool then observation else
            {| co_ownership := co_ownership observation; co_simulated := co_simulated observation;
               co_observed_unix_ms := co_observed_unix_ms observation;
               co_command_digest := co_command_digest observation; co_receipt := None;
               co_not_started := co_not_started observation |})) done_ h') as Hun.
  { intros c' b h'. eapply (spec_quiet _ (fun _ => True)); [|done].
    apply quiet_seq; [apply quiet_command_observation|intros ?]. by apply quiet_ret. }
  destruct (Command.finished c) eqn:Hf; cbn [orb]; [exact (Hun c true h)|].
  destruct (stopped r); [exact (Hun c false h)|]. destruct (manifest r) as [m|]; [|exact (Hun c false h)].
  apply spec_bind. eapply spec_quiet; [apply quiet_guest_client|]. intros client h1 _ Hs1.
  eapply mem_same in Hm; [|exact Hs1]. destruct client as [client|e]; [|exact (Hun c false h1)].
  apply spec_bind, spec_lift. intros id Hid%map_err_ok. apply spec_bind.
  eapply (spec_quiet _ (fun _ => True)).
  { destruct cancel; [apply quiet_client_cancel|apply quiet_client_inspect]. }
  intros response h2 _ Hs2. eapply mem_same in Hm; [|exact Hs2].
  destruct response as [receipt|e]; [|exact (Hun c false h2)]. apply spec_bind, spec_lift. intros [] Hv%map_err_ok.
  apply spec_bind. eapply spec_save_command; [done| |].
  - intros R tr Hr. eapply a_keep; [done|]. by eapply keeps_receipt.
  - intros h3 _ _ _. exact (Hun _ true h3).
Qed.

Lemma spec_inspect_or_cancel request cancel h :
  spec (inspect_or_cancel config authority request cancel) done_ h.
Proof.
  unfold inspect_or_cancel. apply spec_bind. eapply spec_quiet; [apply quiet_owner|]. intros o h0 _ _.
  apply spec_bind, spec_lift. intros d _.
  apply spec_bind. eapply spec_mono; [apply spec_command_gate|]. intros _ h1 _.
  apply spec_bind. eapply spec_mono; [apply spec_command_fence|]. intros r h2 [[Hm Ho] Hret].
  apply spec_bind. destruct (commands r !! o_operation_id o) as [c|] eqn:Hc.
  - apply spec_bind, spec_lift. intros _ _. apply spec_ret. by eapply spec_observe_command.
  - apply spec_bind, spec_lift. intros _ _. apply spec_bind.
    eapply spec_save_command; [done|by apply step_new_command|]. intros h3 _ _ Hm3. apply spec_ret.
    eapply spec_observe_command; [done|]. cbn. apply lookup_insert_eq.
Qed.

(** An operation without a command was not sent. *)
Lemma not_executed R tr key r op :
  legal (R, tr) -> R !! key = Some r -> commands r !! op = None -> ~ retired_name History.Commands r op ->
  (key, op) ∉ executed tr.
Proof.
  intros Hl Hr Hc Hret (ctx & x & Hin & [= -> ->])%executed_in.
  destruct (lg_execute _ Hl _ _ Hin) as (r' & Hr' & [(c & Hc' & _)|?]); cbn in Hr'; by simplify_eq.
Qed.

Lemma spec_dispatch o e client r h :
  mem h (o_allocation_id o) r -> commands r !! o_operation_id o = None ->
  ~ retired_name History.Commands r (o_operation_id o) -> stopped r = false ->
  to_string (allocation_id client) = o_allocation_id o ->
  parse_operation (o_operation_id o) = Ok (e_operation_id e) ->
  spec (dispatch o e client) done_ h.
Proof.
  intros Hm Hc Hret Hst Hk Hid. unfold dispatch. apply spec_inv. intros Hi.
  assert (to_string (e_operation_id e) = o_operation_id o) as Hop.
  { unfold parse_operation in Hid. apply map_err_ok, parse_ok in Hid as [-> _]. done. }
  assert (Hn : (o_allocation_id o, o_operation_id o) ∉ executed (trace (system h))).
  { destruct Hm as [Hp Hr]. eapply not_executed; [by apply legal_mem|done..]. }
  clear Hi. apply spec_bind. eapply spec_quiet; [apply quiet_deadline|]. intros _ h1 _ Hs1.
  eapply mem_same in Hm; [|exact Hs1]. rewrite <- (executed_same _ _ Hs1) in Hn.
  apply spec_bind, spec_lift. intros c Hpend%map_err_ok.
  unfold Command.pending in Hpend. apply bind_ok in Hpend as (d & Hd & Hpend). inv_ok.
  match goal with |- context [save_command o ?x] => set (c := x) end.
  apply spec_bind. eapply spec_save_command; [done|by apply step_new_command|].
  intros h2 Hsy Ht2 Hm2. rewrite <- Ht2 in Hn.
  apply spec_bind. eapply spec_quiet; [apply quiet_deadline|]. intros _ h3 _ Hs3.
  eapply mem_same in Hm2; [|exact Hs3]. eapply synced_same in Hsy; [|exact Hs3].
  rewrite <- (executed_same _ _ Hs3) in Hn.
  assert (Hrest : forall response h4, mem h4 (o_allocation_id o) (with_command r (o_operation_id o) c) ->
    spec (match response : result anyhow Receipt with
          | Err _ => command_observation c o
          | Ok receipt =>
              _ ← lift (or_uncertain (Command.validate_receipt c (e_operation_id e) receipt));
              let retained := Command.with_receipt c (Some receipt) in
              _ ← save_command o retained;
              command_observation retained o
          end) done_ h4).
  { intros [receipt|err] h4 Hm4.
    2: { by eapply spec_quiet; [apply quiet_command_observation|]. }
    apply spec_bind, spec_lift. intros [] Hv%map_err_ok. apply spec_bind.
    eapply spec_save_command; [exact Hm4| |].
    - intros R tr Hr. eapply a_keep; [done|].
      eapply (keeps_receipt _ _ (e_operation_id e)); [cbn; apply lookup_insert_eq|done..].
    - intros h5 _ _ _. by eapply spec_quiet; [apply quiet_command_observation|]. }
  apply spec_bind. unfold client_execute. destruct (execute_validate e) as [[]|err];
    [|apply spec_ret; exact (Hrest (Err err) h3 Hm2)].
  apply spec_bind, spec_effect; [done| |apply spec_ret; by refine (Hrest _ _ _)].
  intros HP. eapply closed_step; [exact HP|]. destruct Hm2 as [_ Hr2].
  eapply a_execute; [exact Hr2|rewrite Hop; cbn; apply lookup_insert_eq|done|done|done|].
  by rewrite Hop.
Qed.

Lemma try_execute_canonical v e : try_execute v = Ok e -> canonical (e_operation_id e) = true.
Proof.
  unfold try_execute. intros Hv. inv_ok.
  match goal with H : parse _ _ = _ |- _ => by apply parse_ok in H as [_ ?] end.
Qed.

Lemma spec_execute_command_sync request h :
  spec (execute_command_sync config authority request) done_ h.
Proof.
  unfold execute_command_sync. apply spec_bind. eapply spec_quiet; [apply quiet_owner|]. intros o h0 _ _.
  apply spec_bind, spec_lift. intros wire _. apply spec_bind, spec_lift. intros e He%map_err_ok.
  apply spec_bind, spec_ensure. intros Hown. bools. apply spec_bind, spec_lift. intros d _.
  apply spec_bind. eapply spec_mono; [apply spec_command_gate|]. intros _ h1 _.
  apply spec_bind. eapply spec_mono; [apply spec_command_fence|]. intros r h2 [[Hm Ho] Hret].
  destruct (commands r !! o_operation_id o) as [c|] eqn:Hc.
  { apply spec_bind, spec_lift. intros _ _. by eapply spec_observe_command. }
  apply spec_bind, spec_lift. intros _ _. apply spec_bind.
  eapply spec_quiet; [apply quiet_now|]. intros n h3 _ Hs3. apply spec_inv. intros Hi.
  assert (Hl : legal (records (journal h3), trace (system h3))).
  { apply legal_mem; [done|]. eapply mem_same in Hm; [|exact Hs3]. apply Hm. }
  clear Hi. eapply mem_same in Hm; [|exact Hs3]. apply spec_bind.
  eapply (spec_quiet _ (fun client => match client with
    | Ok ctx => stopped r = false /\ to_string (allocation_id ctx) = o_allocation_id o
    | Err _ => True
    end)).
  { destruct (dispatchable n e r) eqn:Hd; [|by apply quiet_ret].
    destruct (manifest r) as [m|] eqn:Hma; [|by apply quiet_ret].
    eapply quiet_mono; [apply quiet_guest_client|]. intros [ctx|err]; [|done]. intros Hk.
    unfold dispatchable in Hd. bools. split; [done|]. rewrite Hk.
    destruct Hm as [_ Hr]. exact (lg_keyed _ Hl _ _ _ Hr Hma). }
  intros client h4 Hcl Hs4. eapply mem_same in Hm; [|exact Hs4]. destruct client as [ctx|err].
  - destruct Hcl as [Hst Hk]. eapply spec_dispatch; try done.
    pose proof (try_execute_canonical _ _ He) as Hcan.
    match goal with H : to_string (e_operation_id e) = _ |- _ => rewrite <- H end.
    unfold parse_operation. by rewrite parse_to_string.
  - apply spec_bind. eapply spec_save_command; [done|by apply step_new_command|]. intros h5 _ _ _.
    eapply spec_quiet; [apply quiet_command_observation|done].
Qed.

(** ** History *)

Lemma spec_history_binding_sync l h : spec (history_binding_sync config l) done_ h.
Proof.
  unfold history_binding_sync. apply spec_bind, spec_lift. intros l' _.
  apply spec_bind. eapply spec_quiet; [apply quiet_lease_owner|]. intros o h0 _ _.
  apply spec_bind, spec_journal. intros _. apply spec_bind, spec_lift. intros _ _. asks.
  apply spec_bind, spec_record_of. intros r _. do 2 (apply spec_bind, spec_lift; intros ? _).
  apply spec_bind. eapply spec_quiet; [apply quiet_guest_client|]. intros client h1 _ _.
  apply spec_bind, spec_lift. intros ctx _.
  eapply (spec_quiet _ (fun _ => True)); [solve [quiets]|done].
Qed.

Lemma quiet_ensure_headroom id r : quiet (ensure_headroom id r) (fun _ => True).
Proof.
  unfold ensure_headroom. eapply quiet_bind; [apply quiet_journal|intros j _]. quiets.
Qed.

Lemma quiet_retirement_client r v : quiet (retirement_client r v) (fun _ => True).
Proof.
  unfold retirement_client. case_match; [by apply quiet_ret|].
  do 2 (apply quiet_seq; [by apply quiet_lift|intros ?]).
  eapply quiet_bind; [apply quiet_guest_client|intros client _]. quiets.
Qed.

Lemma spec_retire_history_sync request h : spec (retire_history_sync config request) done_ h.
Proof.
  unfold retire_history_sync. apply spec_bind, spec_lift. intros l _.
  apply spec_bind. eapply spec_quiet; [apply quiet_lease_owner|]. intros o h0 _ _.
  do 2 (apply spec_bind, spec_lift; intros ? _).
  apply spec_bind, spec_journal. intros _. apply spec_bind, spec_lift. intros _ _. asks.
  apply spec_bind, spec_record_of. intros r Hm. apply spec_bind, spec_lift. intros _ _.
  apply spec_inv. intros Hi.
  assert (Hsl : slots_ok r).
  { destruct (Hm) as [Hp Hr]. exact (lg_slots _ (legal_mem _ Hi Hp) _ _ Hr). }
  clear Hi. match goal with |- context [prepare ?b ?n r] => destruct (prepare b n r) as [next res] eqn:Hpr end.
  apply spec_bind, spec_lift. intros v Hv%map_err_ok. subst res.
  apply prepare_ok in Hpr as (-> & Hle & _ & _ & Hbar).
  assert (Hdom : History.domain (barrier v) = History.domain a0).
  { destruct Hbar as [(old & Hold & -> & _)|(-> & _)]; [by apply Hsl|done]. }
  apply spec_bind. eapply spec_quiet; [apply quiet_retirement_client|]. intros client h2 _ Hs2.
  apply spec_bind. eapply (spec_quiet _ (fun _ => True)); [case_match; quiets|]. intros _ h3 _ Hs3.
  apply spec_bind. eapply spec_quiet; [apply quiet_ensure_headroom|]. intros _ h4 _ Hs4.
  eapply mem_same in Hm; [|eapply same_trans; [exact Hs2|eapply same_trans; [exact Hs3|exact Hs4]]].
  apply spec_bind, spec_record_of. intros r' [_ Hr']. destruct (Hm) as [_ Hr]. simplify_eq.
  apply spec_bind. eapply spec_write_keeps; [done|apply keeps_set_slot; [done|by rewrite Hdom]|].
  apply spec_bind, spec_save. intros h5 _ Hj5 _. apply spec_bind.
  assert (Hend : forall h, spec (_ ← deadline (l_claim_expires_unix_ms l); n ← now;
      mret {| ho_request := request; ho_completed := History.from_barrier (barrier v);
              ho_observed_unix_ms := n |}) done_ h).
  { intros hx. eapply (spec_quiet _ (fun _ => True)); [solve [quiets]|done]. }
  destruct client as [client|]; [|apply spec_ret, Hend]. asks.
  apply spec_bind. eapply spec_quiet; [apply quiet_client_retire|]. intros answer h7 _ _.
  apply spec_bind, spec_lift. intros _ _. asks.
  apply spec_bind, spec_record_of. intros r9 Hm9. destruct (complete v r9) as [r2 res] eqn:Hco.
  apply spec_bind. eapply spec_write_keeps; [done|by eapply keeps_complete|].
  apply spec_bind, spec_lift. intros _ _. apply spec_save. intros h9 _ _ _. apply Hend.
Qed.

Lemma spec_retire_released_history_sync request h :
  spec (retire_released_history_sync config request) done_ h.
Proof.
  unfold retire_released_history_sync. do 2 (apply spec_bind, spec_lift; intros ? _). asks.
  apply spec_bind. eapply spec_quiet; [apply quiet_owner|]. intros o0 h1 [= <-] _.
  do 3 (apply spec_bind, spec_lift; intros ? _).
  apply spec_bind, spec_journal. intros _. apply spec_bind, spec_lift. intros _ _. asks.
  apply spec_bind, spec_record_of. intros r Hm. apply spec_bind, spec_ensure. intros Ho. bools.
  apply spec_bind, spec_lift. intros _ _. apply spec_bind.
  eapply spec_mono; [eapply spec_observe_record|].
  { exists r. split; [|done]. match goal with H : same_allocation _ _ = true |- _ => apply fenced_key in H; cbn in H; by rewrite H end. }
  intros [s receipt] h3 _. apply spec_bind, spec_lift. intros _ _. asks.
  apply spec_bind, spec_record_of. intros r' Hm'. asks.
  match goal with |- context [reclaim ?f ?d ?t ?n ?e r'] => destruct (reclaim f d t n e r') as [next res] eqn:Hre end.
  apply spec_bind, spec_lift. intros t Ht%map_err_ok. subst res.
  apply spec_bind. eapply spec_quiet; [apply quiet_ensure_headroom|]. intros _ h6 _ Hs6. asks.
  apply spec_bind. eapply spec_write_keeps; [|by eapply keeps_reclaim|].
  { carry Hm'. exact Hm'. }
  apply spec_bind, spec_save. intros h8 _ _ _.
  eapply (spec_quiet _ (fun _ => True)); [solve [quiets]|done].
Qed.

(** ** Retirement and the launch authority *)

Lemma spec_record_retirement request h : spec (record_retirement config request) done_ h.
Proof.
  unfold record_retirement. apply spec_bind, spec_journal. intros Hp. apply spec_bind.
  set (id := to_string _). set (Q := fun (r : Record_) (h : Host) =>
    mem h id r \/ (records (journal h) !! id = None /\ blank r /\ o_allocation_id (owner r) = id)).
  assert (HQ : forall r h h', same h h' -> Q r h -> Q r h').
  { intros r h1 h2 Hs [Hm|Hn]; [left; by eapply mem_same|]. right. destruct Hs as [-> _]. done. }
  assert (Hrest : forall r h, Q r h -> spec (_ ← write_record id (set_stopped (set_retirement r (Some request)) true); save) done_ h).
  { intros r h1 [Hm|(Hn & Hb & Ho)].
    - apply spec_bind. eapply spec_write_keeps; [done|by apply keeps_same|]. by apply spec_save.
    - by apply spec_enter. }
  eapply (spec_mono _ _ _ Q).
  { destruct (records (journal h) !! id) as [r|] eqn:Hr; [apply spec_ret; by left|].
    apply spec_bind, spec_lift. intros _ _. apply spec_ret. right. by split_and!. }
  intros r h1 Hr. asks. eapply HQ in Hr; [|eassumption]. do 2 (apply spec_bind, spec_lift; intros ? _).
  apply spec_bind. eapply (spec_quiet _ (fun _ => True)); [case_match; quiets|].
  intros _ h3 _ Hs. apply Hrest. by eapply HQ.
Qed.

Lemma spec_fence_allocation_sync wire h : spec (fence_allocation_sync config authority wire) done_ h.
Proof.
  unfold fence_allocation_sync. do 2 (apply spec_bind, spec_lift; intros ? _). asks. asks.
  apply spec_bind, spec_lift. intros _ _. apply spec_bind, spec_journal. intros _.
  apply spec_bind, spec_lift. intros c _. apply spec_bind. eapply spec_quiet; [apply quiet_launch|].
  intros guard h1 _ _. apply spec_bind, spec_holding.
  eapply spec_mono; [apply spec_record_retirement|]. intros _ h2 _ h3 _.
  eapply (spec_quiet _ (fun _ => True)); [solve [quiets]|done].
Qed.

Lemma spec_allocation_authority_sync request h :
  spec (allocation_authority_sync config authority request) done_ h.
Proof.
  unfold allocation_authority_sync. do 2 (apply spec_bind, spec_lift; intros ? _).
  apply spec_bind, spec_journal. intros _. apply spec_bind.
  eapply (spec_quiet _ (fun _ => True)); [case_match; quiets|]. intros c h1 _ _.
  do 2 (apply spec_bind, spec_lift; intros ? _). apply spec_bind. case_match; [apply spec_ret, spec_ret; done|].
  apply spec_bind, spec_get, spec_bind. intros [Hs Hm]. split; [by split|].
  intros [] _. cbn. apply spec_save. intros h2 _ _ _. by apply spec_ret.
Qed.
End refines.
