(* ===== verification/HostUploads.v ===== *)
(** * The host's uploads keep the invariant

    A control reaches the guest only when every journal that a crash may leave holds its
    intent, and only if it was never sent before; a chunk only while no end was asked for. *)

From S2P Require Import Prelude Ext Ids GuestModel GuestWire Wire FileWire Fs Store HostModel HostEnv HostSpec RecordLaws JournalLaws HostOps HostLaws HostRefines HostFiles.
From S2P Require Authority LaunchAuthority Resources Guardian Command Files History Journal.
Import Files(Upload, FileRecord, u_operation_id, u_size, upload_digest).

(** ** What may become of a record *)

Lemma unfinished f : Files.file_finished f = false -> Files.not_started f = false.
Proof. unfold Files.file_finished. intros Hf. by bools. Qed.
Lemma grows_commit f : Files.file_finished f = false -> file_grows f (request_commit f).
Proof.
  intros Hf. pose proof (unfinished _ Hf) as Hn. split; try done; [congruence|].
  intros (_ & _ & Ha). split_and!; [cbn; congruence|done|exact Ha].
Qed.
Lemma grows_abort f : Files.file_finished f = false -> file_grows f (request_abort f).
Proof.
  intros Hf. pose proof (unfinished _ Hf) as Hn. split; try done; [congruence|].
  intros (_ & Hc & _). split_and!; [cbn; congruence|exact Hc|done].
Qed.

Section uploads.
Context `{Env, UuidLaws, Sha256, HexLib, Serde Authority.Retirement.Intent,
          Serde Authority.Retirement.Request, Serde Authority.Saved,
          Serde LaunchAuthority.Required, Serde LaunchAuthority.Saved, Serde Manifest,
          Serde Upload, Serde FileRecord, Serde Journal, JournalSerde0 : !JournalSerde,
          Serde Record_, Serde Authority.Permit, Serde (list Authority.Permit), Serde Execute}.
Context (config : Config) (authority : option LaunchAuthority.AuthorityFile).
Context (P : astate -> Prop) `{!Closed P}.
Abbreviation spec := (spec P) (only parsing).
Abbreviation done_ := (fun _ _ => True) (only parsing).
Abbreviation spec_quiet := (spec_quiet P) (only parsing).
Abbreviation spec_record_of := (spec_record_of P) (only parsing).
Abbreviation spec_write := (spec_write P) (only parsing).
Abbreviation spec_write_keeps := (spec_write_keeps P) (only parsing).
Abbreviation spec_save := (spec_save P) (only parsing).

(** The next operation of a specification only asks. *)
Ltac asks :=
  apply spec_bind; eapply (spec_quiet _ (fun _ => True)); [solve [quiets]|intros ? ? _ ?].

Lemma grows_observe u receipt f f' : Files.observe u receipt f = (f', Ok tt) -> file_grows f f'.
Proof.
  unfold Files.observe. intros Ho. inv_st. bools.
  assert (Hs : Files.file_finished f = true -> Files.state f = Files.file_state_number (Files.f_state receipt)).
  { intros Hf. rewrite Hf in *. cbn in *. by bools. }
  split; try done; [intros Hf; by rewrite (Hs Hf)|].
  intros _. unfold file_sound. cbn. destruct (Files.f_state receipt); cbn in *; bools; split_and!; congruence.
Qed.

Lemma keeps_file r op f0 f :
  files r !! op = Some f0 -> file_grows f0 f -> keeps r (set_files r (<[op := f]> (files r))).
Proof.
  intros Hf Hg. split; try done; cbn.
  - intros op' c Hc. by left.
  - intros op' f' Hf'. left. cbn. destruct (decide (op = op')) as [<-|Hne].
    + simplify_eq. exists f. by rewrite lookup_insert_eq.
    + exists f'. rewrite lookup_insert_ne by done. split; [done|apply file_grows_refl].
  - intros op' Hn. by rewrite lookup_insert_ne by congruence.
Qed.

(** ** Records *)

(** The record of an upload, in a memory that may be saved. *)
Definition held (h : Host) (key op : string) (r : Record_) (f : FileRecord) : Prop :=
  mem h key r /\ files r !! op = Some f.
Lemma held_same h h' key op r f : same h h' -> held h key op r f -> held h' key op r f.
Proof. intros Hs [Hm Hf]. split; [by eapply mem_same|done]. Qed.

Lemma spec_save_file o f0 f r h (Q : unit -> Host -> Prop) :
  held h (o_allocation_id o) (o_operation_id o) r f0 -> file_grows f0 f ->
  (forall h', synced h' -> trace (system h') = trace (system h) ->
     held h' (o_allocation_id o) (o_operation_id o) (set_files r (<[o_operation_id o := f]> (files r))) f -> Q tt h') ->
  spec (save_file o f) Q h.
Proof.
  intros [Hm Hf] Hg HQ. unfold save_file. apply spec_bind, spec_lift. intros _ _.
  apply spec_bind, spec_record_of. intros r' [_ Hr']. destruct (Hm) as [Hp Hr]. simplify_eq.
  apply spec_bind. rewrite Hf. do 2 (apply spec_bind, spec_lift; intros ? _). apply spec_lift. intros _ _.
  apply spec_bind. eapply spec_write_keeps; [done|by eapply keeps_file|].
  apply spec_save. intros h' Hsy Hj Ht. apply HQ; [done|done|]. split; [|cbn; apply lookup_insert_eq].
  split; [apply Hsy|]. rewrite Hj. cbn. apply lookup_insert_eq.
Qed.

(** Admission: the file and its revision reach the disk in one write. *)
Lemma spec_admit_file o r f h :
  mem h (o_allocation_id o) r -> files r !! o_operation_id o = None ->
  ~ retired_name History.Files r (o_operation_id o) -> file_sound f ->
  (Files.not_started f = false -> stopped r = false) ->
  spec (admit_file o r f) (fun _ h' => synced h' /\
    uploaded (trace (system h')) = uploaded (trace (system h)) /\
    held h' (o_allocation_id o) (o_operation_id o)
      (with_file r (o_operation_id o) f (o_claim_revision o)) f) h.
Proof.
  intros Hm Hn Hret Hso Hst. unfold admit_file. apply spec_bind.
  eapply spec_quiet; [apply quiet_deadline|]. intros _ h1 _ Hs1. rewrite <- (uploaded_same _ _ Hs1).
  eapply mem_same in Hm as [Hp Hr]; [|exact Hs1]. apply spec_bind, spec_lift. intros _ _.
  apply spec_bind, spec_journal. intros _. apply spec_bind, spec_lift. intros _ _.
  apply spec_bind, spec_ensure. intros Hroom. bools. apply spec_bind, spec_lift. intros _ _.
  do 3 (apply spec_bind, spec_lift; intros ? _). apply spec_bind, spec_lift. intros _ _.
  apply spec_bind, spec_lift. intros r' Hr'%ok_or_ok. simplify_eq. apply spec_bind, spec_write.
  - intros _ HP. eapply closed_step in HP; [|by eapply (a_file _ _ _ _ (o_operation_id o) f)].
    eapply closed_step in HP; [|eapply a_keep; [apply lookup_insert_eq|
      apply (keeps_same _ (with_file r (o_operation_id o) f (o_claim_revision o))); done]].
    by rewrite insert_insert_eq in HP.
  - apply spec_save. intros h' Hsy Hj Ht. split; [done|]. split; [by rewrite Ht|].
    split; [split; [apply Hsy|]|cbn; apply lookup_insert_eq]. rewrite Hj. cbn. apply lookup_insert_eq.
Qed.

(** ** Answers *)

Definition on_file (o : Ownership) (r : Record_) (f : FileRecord) (h : Host) : Prop :=
  held h (o_allocation_id o) (o_operation_id o) r f.

(** What was answered is what the disk holds; an unknown state says nothing. *)
Definition answers (b : FileObservation) (f : FileRecord) : Prop :=
  fb_upload_digest b = Files.digest f /\ fb_not_started b = Files.not_started f /\
  fb_context b = from_context <$> Files.context f /\ (fb_state b = 0 \/ fb_state b = Files.state f).
Definition answered (o : Ownership) (b : FileObservation) (h : Host) : Prop :=
  synced h /\ exists r f, on_file o r f h /\ answers b f.

Lemma spec_answer_file o f stored r h :
  synced h -> on_file o r f h -> spec (answer_file o f stored) (answered o) h.
Proof.
  intros Hsy Hh. unfold answer_file. apply spec_bind. eapply spec_quiet; [apply quiet_now|].
  intros n h1 _ Hs1. apply spec_ret. split; [by eapply synced_same|]. exists r, f.
  split; [by eapply held_same|]. split_and!; [done..|by right].
Qed.
Lemma spec_answer_unknown o f r h :
  synced h -> on_file o r f h -> spec (answer_unknown o f) (answered o) h.
Proof.
  intros Hsy Hh. unfold answer_unknown. apply spec_bind. eapply spec_mono; [by eapply spec_answer_file|].
  intros b h1 (Hsy1 & r1 & f1 & Hh1 & Hd & Hn & Hc & _). apply spec_ret. split; [done|]. exists r1, f1.
  split; [done|]. split_and!; [done..|by left].
Qed.

Lemma spec_observe_file o u f response r h :
  synced h -> on_file o r f h -> spec (observe_file o u f response) (answered o) h.
Proof.
  intros Hsy Hh. unfold observe_file. destruct response as [receipt|e]; [|by eapply spec_answer_unknown].
  destruct (Files.observe u receipt f) as [f' observed] eqn:Ho. apply spec_bind, spec_lift.
  intros [] ->%map_err_ok. apply grows_observe in Ho. apply spec_bind. eapply spec_save_file; [exact Hh|done|].
  intros h' Hsy' _ Hh'. by eapply spec_answer_file.
Qed.

Lemma quiet_client_inspect_upload client u : quiet (client_inspect_upload client u) (fun _ => True).
Proof. unfold client_inspect_upload, file_receipt. quiets. Qed.

Lemma quiet_file_client r :
  quiet (file_client r) (fun client => forall ctx, client = Some ctx ->
    stopped r = false /\ exists m, manifest r = Some m /\ to_string (allocation_id ctx) = key_of m).
Proof.
  unfold file_client. destruct (stopped r); cbn [negb andb]; [by apply quiet_ret|].
  destruct (negb (released r)); [|by apply quiet_ret]. destruct (manifest r) as [m|]; [|by apply quiet_ret].
  eapply quiet_bind; [apply quiet_guest_client|]. intros [ctx|e] Hc; apply quiet_ret; [|done].
  intros ctx' [= <-]. split; [done|]. by exists m.
Qed.
(** ** Controls and chunks *)

(** An upload that the guest [client] may be asked about. *)
Record ready (o : Ownership) (u : Upload) (client : Context) (r : Record_) (f : FileRecord) : Prop := {
  rd_op : to_string (u_operation_id u) = o_operation_id o;
  rd_key : to_string (allocation_id client) = o_allocation_id o;
  rd_live : stopped r = false;
  rd_intent : file_intent CBegin f client u;
  rd_open : Files.file_finished f = false;
  rd_kept : ~ retired_name History.Files r (o_operation_id o);
}.
Lemma spec_client_control k o u client r f h :
  ready o u client r f -> file_intent k f client u -> synced h -> on_file o r f h ->
  (upload_id client u, k) ∉ uploaded (trace (system h)) ->
  (k = CCommit -> Files.abort_requested f = false) ->
  spec (client_control k client u) (fun _ h' => synced h' /\ on_file o r f h') h.
Proof.
  intros [Hop Hk Hst _ _ Hret] Hi Hsy Hh Hn Hc. unfold client_control, file_receipt.
  destruct (match k with CBegin => _ | _ => _ end) as [?|e]; [|by apply spec_ret].
  destruct (Files.upload_validate u) as [[]|e]; [|by apply spec_ret].
  apply spec_bind, spec_effect; [done| |by apply spec_ret].
  intros HP. eapply closed_step; [exact HP|]. destruct Hh as [[_ Hr] Hf].
  eapply a_control; [exact Hr|by rewrite Hop|done..|]. rewrite Hop. auto.
Qed.

Lemma spec_client_write_file o u client offset data r f h :
  ready o u client r f -> undecided f = true -> synced h -> on_file o r f h ->
  spec (client_write_file client u offset data) (fun _ h' => synced h' /\ on_file o r f h') h.
Proof.
  intros [Hop Hk Hst Hi _ Hret] Hu Hsy Hh. unfold client_write_file. unfold undecided in Hu. bools.
  destruct (mbind _ _) as [op|e]; [|by apply spec_ret].
  apply spec_bind, spec_effect; [done| |by apply spec_ret].
  intros HP. eapply closed_step; [exact HP|]. destruct Hh as [[_ Hr] Hf].
  eapply a_chunk; [exact Hr|by rewrite Hop|done|done|done|by rewrite Hop|done..].
Qed.

(** Asking for an end: the request is on disk, and was never sent. *)
Lemma spec_request o u client k f f' r h :
  ready o u client r f -> on_file o r f h -> file_grows f f' -> Files.file_finished f' = false ->
  file_intent k f' client u ->
  match k with
  | CBegin => False
  | CCommit => Files.commit_requested f = false
  | CAbort => Files.abort_requested f = false
  end ->
  (k = CCommit -> Files.abort_requested f' = false) ->
  spec (_ ← save_file o f'; response ← client_control k client u; observe_file o u f' response) (answered o) h.
Proof.
  intros Hrd Hh Hg Hopen Hi Hk Hkc. apply spec_inv. intros Hinv.
  assert (Hn : (upload_id client u, k) ∉ uploaded (trace (system h))).
  { destruct Hh as [[Hp Hr] Hf]. unfold upload_id. rewrite (rd_op _ _ _ _ _ Hrd), (rd_key _ _ _ _ _ Hrd).
    eapply not_uploaded; [apply (lg_files _ (legal_mem _ _ Hinv Hp))|done|done|apply Hrd|done]. }
  apply spec_bind. eapply spec_save_file; [exact Hh|done|]. intros h1 Hsy Ht Hh1.
  rewrite <- Ht in Hn. apply spec_bind. eapply spec_mono.
  - eapply spec_client_control; [|exact Hi|exact Hsy|exact Hh1|exact Hn|exact Hkc].
    destruct Hrd as [Hop Hkey Hst _ _ Hret]. split; try done. by destruct Hi as (? & ? & ? & _).
  - intros response h2 [Hsy2 Hh2]. by eapply spec_observe_file.
Qed.

Lemma spec_act_on_file o u client action new r f h :
  ready o u client r f -> synced h -> on_file o r f h ->
  (new = true -> (upload_id client u, CBegin) ∉ uploaded (trace (system h))) ->
  spec (act_on_file o u f client action new) (answered o) h.
Proof.
  intros Hrd Hsy Hh Hnew.
  assert (Hinspect : spec (response ← client_inspect_upload client u; observe_file o u f response) (answered o) h).
  { apply spec_bind. eapply spec_quiet; [apply quiet_client_inspect_upload|]. intros response h1 _ Hs1.
    eapply spec_observe_file; [by eapply synced_same|eapply held_same; [exact Hs1|exact Hh]]. }
  pose proof (rd_open _ _ _ _ _ Hrd) as Hopen.
  pose proof (rd_intent _ _ _ _ _ Hrd) as (Hns & Hctx & Hd & _).
  destruct action as [| | | |offset data]; cbn [act_on_file]; [|exact Hinspect|..].
  - destruct new; [|exact Hinspect]. apply spec_bind. eapply spec_mono.
    + eapply spec_client_control; [exact Hrd|apply Hrd|exact Hsy|exact Hh|by apply Hnew|done].
    + intros response h1 [Hsy1 Hh1]. by eapply spec_observe_file.
  - destruct (undecided f) eqn:Hu; [|exact Hinspect].
    unfold undecided in Hu. bools.
    eapply (spec_request _ _ _ CCommit); [exact Hrd|exact Hh|by apply grows_commit|done..].
  - destruct (Files.abort_requested f) eqn:Ha; cbn [negb]; [exact Hinspect|].
    eapply (spec_request _ _ _ CAbort); [exact Hrd|exact Hh|by apply grows_abort|done..].
  - destruct (undecided f) eqn:Hu; [|exact Hinspect]. apply spec_bind.
    eapply spec_mono; [by eapply spec_client_write_file|].
    intros [stored|e] h1 [Hsy1 Hh1]; [by eapply spec_answer_file|by eapply spec_observe_file].
Qed.

(** What [file_for] finds or makes. *)
Lemma file_for_ok r op u d action client f :
  file_for r op u d action client = Ok f -> upload_digest u = Ok d ->
  (files r !! op = Some f /\ Files.digest f = d) \/
  (files r !! op = None /\ file_sound f /\ Files.digest f = d /\
   (Files.not_started f = true \/ exists c, client = Some c /\ Files.context f = Some c)).
Proof.
  unfold file_for. intros Hf Hd. destruct (files r !! op) as [f0|].
  - left. apply bind_ok in Hf as ([] & Hv%map_err_ok & [= ->]).
    unfold Files.validate_identity in Hv. rewrite bool_decide_eq_true_2 in Hv by done.
    rewrite Hd in Hv. cbn in Hv. by apply ensure_ok, bool_decide_eq_true in Hv as ->.
  - right. assert (forall c, or_uncertain (Files.file_pending u c) = Ok f ->
      file_sound f /\ Files.digest f = d /\ Files.context f = Some c) as Hp.
    { intros c Hp%map_err_ok. unfold Files.file_pending in Hp. rewrite Hd in Hp. cbn in Hp.
      apply bind_ok in Hp as (? & _ & Hp). by simplify_eq/=. }
    assert (Ok (E := Status) (Files.file_fenced d) = Ok f -> file_sound f /\ Files.digest f = d /\ Files.not_started f = true)
      as Hfe by by intros [= <-].
    split; [done|]. destruct action, client as [c|];
      first [destruct (Hfe Hf) as (? & ? & ?); by split_and!; [..|left]
            |destruct (Hp c Hf) as (? & ? & ?); split_and!; [done..|right; by exists c]].
Qed.

Lemma check_history_name r d id op u :
  check_history r d id = Ok u -> parse_operation op = Ok id -> ~ retired_name d r op.
Proof. intros Hc%check_history_retired Hid (id' & Hid' & Hr). congruence. Qed.

(** What follows admission, or the fence of a retained file. *)
Lemma spec_file_tail o u client action new r f h :
  synced h -> on_file o r f h -> to_string (u_operation_id u) = o_operation_id o ->
  upload_digest u = Ok (Files.digest f) -> ~ retired_name History.Files r (o_operation_id o) ->
  (forall c, client = Some c -> stopped r = false /\ to_string (allocation_id c) = o_allocation_id o) ->
  (new = true -> (o_allocation_id o, o_operation_id o, CBegin) ∉ uploaded (trace (system h))) ->
  spec (if Files.file_finished f then answer_file o f None else
        match client with
        | None => answer_unknown o f
        | Some client =>
            _ ← lift (ensure (bool_decide (Files.context f = Some client)) uncertain);
            _ ← deadline (o_claim_expires_unix_ms o);
            act_on_file o u f client action new
        end) (answered o) h.
Proof.
  intros Hsy Hh Hop Hd Hret Hcl Hnew. destruct (Files.file_finished f) eqn:Hfi; [by eapply spec_answer_file|].
  destruct client as [c|]; [|by eapply spec_answer_unknown]. destruct (Hcl c eq_refl) as [Hst Hk].
  apply spec_bind, spec_ensure. intros Hctx. bools. apply spec_bind.
  eapply spec_quiet; [apply quiet_deadline|]. intros _ h1 _ Hs1.
  eapply spec_act_on_file; [|by eapply synced_same|eapply held_same; [exact Hs1|exact Hh]|].
  - pose proof (unfinished _ Hfi). by split.
  - unfold upload_id. rewrite (uploaded_same _ _ Hs1), Hop, Hk. exact Hnew.
Qed.

(** Admission of a file that is new, or the fence of one that is retained. *)
Lemma spec_file_admission o r f h :
  mem h (o_allocation_id o) r -> ~ retired_name History.Files r (o_operation_id o) ->
  (files r !! o_operation_id o = Some f \/ files r !! o_operation_id o = None /\ file_sound f /\
     (Files.not_started f = false -> stopped r = false)) ->
  let new := is_none (files r !! o_operation_id o) in
  spec (if new then admit_file o r f else _ ← fence o; mret tt) (fun _ h' =>
    synced h' /\ (new = true -> uploaded (trace (system h')) = uploaded (trace (system h))) /\
    exists r', on_file o r' f h' /\ stopped r' = stopped r /\
      ~ retired_name History.Files r' (o_operation_id o)) h.
Proof.
  intros Hm Hret [Hf|(Hf & Hso & Hst)]; rewrite Hf; cbn.
  - apply spec_bind. eapply spec_mono; [apply (spec_fence P)|]. intros r' h' ([Hm' _] & Hr & Hsy).
    apply spec_ret. split; [done|]. split; [done|]. exists r'. rewrite (Hr r Hm) in *. by split_and!.
  - eapply spec_mono; [by eapply spec_admit_file|]. cbn beta. intros _ h' (Hsy & Ht & Hh).
    split; [done|]. split; [done|]. by exists (with_file r (o_operation_id o) f (o_claim_revision o)).
Qed.

Lemma spec_file_sync request action h :
  spec (file_sync config authority request action)
    (fun b h' => exists o, fr_ownership request = Some o /\ answered o b h') h.
Proof.
  unfold file_sync. apply spec_bind. eapply spec_quiet; [apply quiet_owner|]. intros o h0 Ho _.
  apply spec_bind, spec_lift. intros wire _. apply spec_bind, spec_lift. intros u Hu%map_err_ok.
  apply spec_bind, spec_ensure. intros Hop. bools. apply spec_bind, spec_lift. intros _ _.
  apply spec_bind, spec_lift. intros d Hd%map_err_ok.
  apply spec_bind. eapply spec_mono; [apply (spec_gate _ _ P)|]. intros _ h1 _.
  apply spec_bind, spec_record_of. intros r Hm. apply spec_bind, spec_lift. intros v Hv.
  assert (Hret : ~ retired_name History.Files r (o_operation_id o)).
  { eapply check_history_name; [exact Hv|]. rewrite <- Hop. unfold parse_operation.
    apply upload_wire_exact in Hu as (_ & _ & Hcan & _). by rewrite parse_to_string. }
  asks. apply spec_bind, spec_lift. intros _ _. apply spec_inv. intros Hi.
  match goal with Hs : same h1 ?x |- _ => eapply mem_same in Hm; [|exact Hs] end.
  destruct (Hm) as [Hp Hr]. pose proof (legal_mem _ _ Hi Hp) as Hl. clear Hi.
  apply spec_bind. eapply spec_quiet; [apply quiet_file_client|]. intros client h2 Hcl Hs2.
  pose proof (uploaded_same _ _ Hs2) as Ht2. eapply mem_same in Hm; [|exact Hs2].
  apply spec_bind, spec_lift. intros f Hf. pose proof (file_for_ok _ _ _ _ _ _ _ Hf Hd) as Hff. clear Hf.
  assert (Hdf : Files.digest f = d) by (by destruct Hff as [[_ ?]|(_ & _ & ? & _)]). subst d.
  apply spec_bind. eapply spec_mono; [apply spec_file_admission; [exact Hm|exact Hret|]|].
  - destruct Hff as [[? _]|(? & ? & _ & Hst)]; [by left|right]. split_and!; [done|done|]. intros Hns.
    destruct Hst as [?|(c & -> & _)]; [congruence|]. by apply (Hcl c).
  - intros _ h3 (Hsy & Ht & r' & Hh & Hst & Hret').
    eapply spec_mono; [eapply spec_file_tail; [done|done|done|done|done|..]|intros b h4 Hb; by exists o].
    + intros c ->. destruct (Hcl c eq_refl) as [Hs (m & Hma & Hk)]. rewrite Hst, Hk.
      split; [done|]. by eapply (lg_keyed _ Hl).
    + intros Hnew. rewrite (Ht Hnew), Ht2. eapply not_begun; [apply Hl|exact Hr| |done].
      by apply is_none_true.
Qed.

Lemma spec_file_write_sync request h : spec (file_write_sync config authority request) done_ h.
Proof.
  unfold file_write_sync. apply spec_bind, spec_lift. intros r _. apply spec_bind, spec_lift. intros _ _.
  eapply spec_mono; [apply spec_file_sync|done].
Qed.
End uploads.
