(* ===== verification/HostBoot.v ===== *)
(** * Start-up keeps the invariant

    [HostOps.open] reads what a crash left, refuses what it cannot account for, stops every
    allocation of an earlier epoch, and has that on disk before it returns. *)

From S2P Require Import Prelude Ext Ids GuestModel Wire Fs FsLaws Store HostModel HostEnv HostSpec RecordLaws JournalLaws HostOps HostLaws.
From S2P Require Authority LaunchAuthority Resources Guardian Command Files History Journal.

(** Every record stopped. *)
Definition stop_all (R : gmap string Record_) : gmap string Record_ := (fun r => set_stopped r true) <$> R.

Section boot.
Context `{Env, UuidLaws, Sha256, HexLib, Serde Authority.Retirement.Intent, Serde Authority.Saved,
          Serde LaunchAuthority.Required, Serde LaunchAuthority.Saved, Serde Manifest,
          Serde Files.Upload, Serde Files.FileRecord, Serde Journal, JournalSerde0 : !JournalSerde,
          Serde Execute}.
Context (P : astate -> Prop) `{!Closed P}.
Abbreviation sys_inv := (sys_inv P) (only parsing).

(** ** A logic for start-up *)

Definition sspec {A} (m : ST System anyhow A) (Q : A -> System -> Prop) (s : System) : Prop :=
  sys_inv s -> sys_inv (m s).1 /\ forall a, (m s).2 = Ok a -> Q a (m s).1.

Lemma sspec_bind {A B} (m : ST System anyhow A) (k : A -> ST System anyhow B) Q s :
  sspec m (fun a s' => sspec (k a) Q s') s -> sspec (m ≫= k) Q s.
Proof.
  intros Hm Hi. destruct (Hm Hi) as [Hi' Ha]. unfold mbind, ST_bind.
  destruct (m s) as [s' [a|e]]; cbn in *; [by apply (Ha a eq_refl)|by split].
Qed.
Lemma sspec_mono {A} (m : ST System anyhow A) (Q Q' : A -> System -> Prop) s :
  sspec m Q' s -> (forall a s', Q' a s' -> Q a s') -> sspec m Q s.
Proof. intros Hm HQ Hi. destruct (Hm Hi) as [Hi' Ha]. split; [done|]. eauto. Qed.
Lemma sspec_ret {A} (a : A) (Q : A -> System -> Prop) s : Q a s -> sspec (mret a) Q s.
Proof. intros HQ Hi. split; [done|]. by intros ? [= <-]. Qed.
Lemma sspec_lift {A} (r : result anyhow A) (Q : A -> System -> Prop) s :
  (forall a, r = Ok a -> Q a s) -> sspec (lift r) Q s.
Proof. intros HQ Hi. by split. Qed.
Lemma sspec_ensure c e (Q : unit -> System -> Prop) s :
  (c = true -> Q tt s) -> sspec (lift (ensure c e)) Q s.
Proof. intros HQ. apply sspec_lift. intros [] Hc%ensure_ok. auto. Qed.

Lemma sspec_inv {A} (m : ST System anyhow A) (Q : A -> System -> Prop) s :
  (sys_inv s -> sspec m Q s) -> sspec m Q s.
Proof. intros Hm Hi. by apply Hm. Qed.
Lemma sspec_get (Q : System -> System -> Prop) s : Q s s -> sspec get Q s.
Proof. intros HQ Hi. split; [done|]. by intros ? [= <-]. Qed.

(** Operations that only ask. *)
Definition calm {A} (m : ST System anyhow A) : Prop := forall s, asked s (m s).1.

Lemma sspec_calm {A} (m : ST System anyhow A) (Q : A -> System -> Prop) s :
  calm m -> (forall a s', asked s s' -> Q a s') -> sspec m Q s.
Proof. intros Hm HQ Hi. pose proof (Hm s). split; [by eapply sys_inv_asked|eauto]. Qed.
Lemma calm_bind {A B} (m : ST System anyhow A) (k : A -> ST System anyhow B) :
  calm m -> (forall a, calm (k a)) -> calm (m ≫= k).
Proof.
  intros Hm Hk s. specialize (Hm s). unfold mbind, ST_bind.
  destruct (m s) as [s' [a|e]]; cbn in *; [|done]. eapply asked_trans; [exact Hm|apply Hk].
Qed.
Lemma calm_ret {A} (a : A) : calm (mret a).
Proof. intros s. apply asked_refl. Qed.
Lemma calm_lift {A} (r : result anyhow A) : calm (lift r).
Proof. intros s. apply asked_refl. Qed.
Lemma calm_ask {A} e (f : list effect -> A) : tracked e = false -> calm (ask e f).
Proof. intros He s. split; [done|]. exists [e]. by repeat constructor. Qed.
Lemma calm_launch {A} f (m : Journal.IO A) : calm (on_launch f m).
Proof. intros s. unfold on_launch. destruct (m _) as [w r]. split; [done|]. by exists []. Qed.
Lemma calm_held {A} lock (m : ST System anyhow A) : calm m -> calm (held lock m).
Proof. intros Hm s. specialize (Hm s). unfold held. destruct (m s) as [s' r]. exact Hm. Qed.
Lemma calm_each {A} (f : A -> ST System anyhow unit) l :
  (forall a, calm (f a)) -> calm (Journal.for_each_st f l).
Proof.
  intros Hf. induction l as [|a l IH]; [apply calm_ret|]. apply calm_bind; [apply Hf|done].
Qed.

Ltac calms :=
  repeat first
    [ apply calm_ret | apply calm_lift | apply calm_launch | apply calm_ask; reflexivity
    | apply calm_held | apply calm_bind; [|intros ?] | case_match ].

(** Calls on the state directory that leave the journal alone. *)
Lemma sys_extends s d :
  sys_inv s -> extends (state s) d -> forall w, dir w = d -> sys_inv (set_state_dir s w).
Proof.
  intros [Hok Hd Hl] He w Hw. split; cbn; unfold state in *; cbn; rewrite ?Hw; [apply He| |done].
  intros o Ho. apply Hd. by eapply retains_extends.
Qed.

Lemma sspec_state {A} f (m : Journal.IO A) (R : A -> Dir -> Prop) (Q : A -> System -> Prop) s :
  (dir_ok (state s) -> wp m (fun r d => extends (state s) d /\ forall a, r = Ok a -> R a d) (state s)) ->
  (forall a s', R a (state s') -> trace s' = trace s -> Q a s') ->
  sspec (on_state f m) Q s.
Proof.
  intros Hm HQ Hi. specialize (Hm (si_ok _ _ Hi) (state_dir s) eq_refl). unfold on_state.
  destruct (m (state_dir s)) as [w r]. destruct Hm as [He Ha]. cbn in *.
  split; [by eapply sys_extends|]. intros a Hr%map_err_ok. apply HQ; [by apply Ha|done].
Qed.

(** ** journal.rs: open *)

Lemma wp_private_dir path d0 :
  dir_ok d0 ->
  wp (Journal.private_dir path) (fun r d => extends d0 d /\ forall a, r = Ok a -> True) d0.
Proof.
  intros Hok. unfold Journal.private_dir. pose proof (extends_refl d0 Hok) as He.
  apply wp_bind, wp_syscall; [by intros|]. intros d [] Hd. simplify_eq.
  assert (extends d0 (match dir_meta d0 with Some _ => d0 | None => LaunchAuthority.make_root d0 end)) as He'.
  { destruct (dir_meta d0); [done|]. by apply extends_same. }
  apply wp_bind, look_true; [by looking|]. intros [m|e]; [|by split].
  apply wp_bind, look_true; [by looking|]. intros [[]|e]; [|by split].
  apply wp_bind, look_true; [by looking|]. intros [w|e]; [|by split].
  apply look_true; [by looking|]. intros r. by split.
Qed.

Lemma wp_open_lock md d0 :
  dir_ok d0 ->
  wp (open_or_create Journal.HOST_LOCK true md : Journal.IO N)
    (fun r d => extends d0 d /\ forall a, r = Ok a -> True) d0.
Proof.
  intros Hok. pose proof (extends_refl d0 Hok) as He. apply wp_syscall; [by intros|].
  intros d i Hd. split; [|done]. destruct (names d0 !! Journal.HOST_LOCK); cbn in Hd; inv_ok; simplify_eq; [done|].
  by apply extends_link, other_file.
Qed.

Lemma wp_flock i ex d0 :
  dir_ok d0 ->
  wp (flock i ex : Journal.IO bool) (fun r d => extends d0 d /\ forall a, r = Ok a -> True) d0.
Proof.
  intros Hok. apply wp_syscall; [intros; by split; [apply extends_refl|]|].
  intros d b [= Hd]. split; [|done]. pose proof (extends_try_lock i ex d0 Hok). by rewrite Hd in *.
Qed.

(** What is read is what a crash would leave of the names as they are. *)
Lemma wp_read_journal c d0 :
  dir_ok d0 ->
  wp (Journal.read_journal c) (fun r d => extends d0 d /\ forall o, r = Ok o -> retains d o) d0.
Proof.
  intros Hok. unfold Journal.read_journal. pose proof (extends_refl d0 Hok) as He.
  eapply wp_look with (R := fun o => retains d0 o); [|by intros|].
  2: { intros o Ho. split; [done|]. by intros ? [= <-]. }
  apply look_bind, look_open_optional. intros found Hf. symmetry in Hf. destruct found as [i|].
  2: { apply look_ret. exists (names d0). by split; [apply image_names|]. }
  unfold fstat, Journal.file_len, LaunchAuthority.read_at_most, read_to_end. looking. inv_ok. simplify_eq.
  destruct (inodes d0 !! i) as [x|] eqn:Hx; [|done]. cbn in *. simplify_eq. bools.
  exists (names d0). split; [apply image_names|]. exists i, x. split_and!; try done.
  match goal with H : from_slice _ = Some _ |- _ => rewrite (proj2 (Z.leb_le _ _)) in H by lia; done end.
Qed.

(** *** Stopping every record *)

Lemma stop_all_lookup R k : stop_all R !! k = (fun r => set_stopped r true) <$> R !! k.
Proof. apply lookup_fmap. Qed.

Lemma closed_stop_all R tr : P (R, tr) -> P (stop_all R, tr).
Proof.
  intros HP. set (f := fun r => set_stopped r true).
  assert (Hs : forall ks, P (foldr (alter f) R ks, tr)).
  { induction ks as [|k ks IH]; [done|]. cbn. set (R' := foldr _ _ _) in *.
    destruct (R' !! k) as [r|] eqn:Hr.
    - replace (alter f k R') with (<[k := f r]> R').
      + eapply closed_step; [exact IH|]. eapply a_keep; [done|]. by apply keeps_same.
      + apply map_eq. intros j. destruct (decide (k = j)) as [<-|Hne].
        * by rewrite lookup_insert_eq, lookup_alter_eq, Hr.
        * by rewrite lookup_insert_ne, lookup_alter_ne.
    - replace (alter f k R') with R'; [done|]. apply map_eq. intros j.
      destruct (decide (k = j)) as [<-|Hne]; [by rewrite lookup_alter_eq, Hr|by rewrite lookup_alter_ne]. }
  assert (Hl : forall ks j, foldr (alter f) R ks !! j = if decide (j ∈ ks) then f <$> R !! j else R !! j).
  { induction ks as [|k ks IH]; intros j; [done|]. cbn. destruct (decide (k = j)) as [<-|Hne].
    - rewrite lookup_alter_eq, IH, (decide_True (P := k ∈ k :: ks)) by left.
      case_decide; [|done]. by destruct (R !! k).
    - rewrite lookup_alter_ne, IH by done. repeat case_decide; try done.
      + match goal with H : ~ _ ∈ k :: ks |- _ => destruct H; by right end.
      + match goal with H : _ ∈ k :: ks |- _ => by apply elem_of_cons in H as [?|?] end. }
  replace (stop_all R) with (foldr (alter f) R (map_to_list R).*1); [apply Hs|].
  apply map_eq. intros j. rewrite Hl, stop_all_lookup. case_decide as Hj; [done|].
  destruct (R !! j) as [r|] eqn:Hr; [|done]. destruct Hj. apply list_elem_of_fmap. exists (j, r).
  split; [done|]. by apply elem_of_map_to_list.
Qed.
(** *** The journal that start-up ends with *)

(** Every allocation that is not new is stopped, in memory and on disk. *)
Definition booted (j : Journal) (s : System) : Prop :=
  poisoned j = false /\ (forall o, retains (state s) o -> o = Some j) /\
  P (records j, trace s) /\ forall k r, records j !! k = Some r -> stopped r = true.

Lemma booted_asked j s s' : asked s s' -> booted j s -> booted j s'.
Proof.
  intros (Hs & new & Ht & Hf) (Hp & Hd & HP & Hst). split; [done|]. rewrite Hs, Ht.
  split_and!; [done|by apply asks_closed|done].
Qed.

Lemma sspec_save_or_drop j s (Q : Journal -> System -> Prop) :
  poisoned j = false -> P (records j, trace s) ->
  (forall s', (forall o, retains (state s') o -> o = Some j) -> trace s' = trace s -> Q j s') ->
  sspec (Journal.save_or_drop j) Q s.
Proof.
  intros Hp HP HQ [Hok Hd Hl]. unfold Journal.save_or_drop.
  destruct (Journal.save j s) as [s' [j' r]] eqn:Hs.
  pose proof (save_spec _ _ _ _ _ Hok Hs) as (Hok' & _ & Ht & _ & Hgood).
  destruct (Hgood Hp) as (-> & Ho & _). cbn. split.
  - split; cbn; rewrite ?Ht; [done| |done]. intros o Hr.
    destruct (Ho o Hr) as [[Hr' _]| ->]; [by apply Hd|done].
  - destruct r as [[]|e]; [|done]. cbn. intros a [= <-].
    assert (set_poisoned j false = j) as -> by (destruct j; cbn in *; by subst).
    apply HQ; [|done]. intros o Hr. by destruct (Ho o Hr) as [[_ ?]|?].
Qed.

(** A journal that was found, or made for a host that has none. *)
Definition found (j : Journal) (s : System) : Prop := poisoned j = false /\ P (records j, trace s).
Lemma found_asked j s s' : asked s s' -> found j s -> found j s'.
Proof. intros (Hs & new & Ht & Hf) [Hp HP]. split; [done|]. rewrite Ht. by apply asks_closed. Qed.

Lemma sspec_fresh_journal c s :
  P (∅, trace s) -> sspec (Journal.fresh_journal c) found s.
Proof.
  intros HP. unfold Journal.fresh_journal. apply sspec_bind, sspec_get, sspec_bind.
  eapply (sspec_state _ _ (fun _ _ => True)).
  { intros Hok. apply look_true; [by looking|]. intros r. by split; [apply extends_refl|]. }
  intros n s1 _ Ht1. apply sspec_bind, sspec_lift. intros _ _.
  apply sspec_bind, sspec_calm; [calms|]. intros checkpoint s2 Ha.
  apply sspec_ret. eapply found_asked; [exact Ha|]. split; [done|]. by rewrite Ht1.
Qed.

Lemma calm_open_record c cp e : calm (Journal.open_record c cp e).
Proof. unfold Journal.open_record, Journal.validate_metadata. calms. Qed.

Lemma sspec_journal_open c s : sspec (Journal.open c) booted s.
Proof.
  unfold Journal.open. apply sspec_bind.
  eapply (sspec_state _ _ (fun _ _ => True)); [intros; by apply wp_private_dir|]. intros _ s1 _ _.
  apply sspec_bind. eapply (sspec_state _ _ (fun _ _ => True)); [intros; by apply wp_open_lock|].
  intros lock s2 _ _. apply sspec_bind.
  eapply (sspec_state _ _ (fun _ _ => True)); [intros; by apply wp_flock|]. intros locked s3 _ _.
  apply sspec_bind, sspec_lift. intros _ _. apply sspec_bind.
  eapply sspec_state; [intros; by apply wp_read_journal|]. intros o s4 Ho Ht4.
  apply sspec_bind, sspec_inv. intros Hi4. pose proof (si_disk _ _ Hi4 _ Ho) as HP.
  eapply (sspec_mono _ _ found).
  { destruct o as [j|]; [|by apply sspec_fresh_journal]. apply sspec_ret. split; [|done].
    destruct Ho as (m & _ & i & x & _ & _ & _ & _ & Hj). by eapply journal_default. }
  intros j s5 Hf5. apply sspec_bind, sspec_lift. intros _ _.
  apply sspec_bind, sspec_calm; [apply calm_each; intros; apply calm_open_record|].
  intros _ s6 Ha6. eapply found_asked in Hf5 as [Hp HP5]; [|exact Ha6].
  apply sspec_save_or_drop; [done|by apply closed_stop_all|]. intros s7 Hd7 Ht7.
  split_and!; [done|done|rewrite Ht7; by apply closed_stop_all|]. cbn. intros k r Hr.
  apply lookup_fmap_Some in Hr as (r0 & <- & _). done.
Qed.

Lemma sspec_open_authority c j s :
  booted j s -> sspec (Journal.open_authority c j) (fun r s' => booted r.2 s') s.
Proof.
  intros Hb. unfold Journal.open_authority. apply sspec_bind, sspec_lift. intros _ _.
  destruct (launch_authority j) as [retained|]; [|by apply sspec_ret].
  apply sspec_bind, sspec_lift. intros _ _.
  apply sspec_bind, sspec_calm; [apply calm_launch|]. intros authority s1 Ha1.
  apply sspec_bind, sspec_calm; [apply calm_launch|]. intros current s2 Ha2.
  apply sspec_bind, sspec_lift. intros _ _.
  apply sspec_bind, sspec_calm; [calms|]. intros _ s3 Ha3.
  apply sspec_bind, sspec_calm; [apply calm_launch|]. intros cp s4 Ha4.
  eapply booted_asked in Hb; [|exact Ha1]. eapply booted_asked in Hb; [|exact Ha2].
  eapply booted_asked in Hb; [|exact Ha3]. eapply booted_asked in Hb; [|exact Ha4].
  destruct Hb as (Hp & Hd & HP & Hst). apply sspec_bind, sspec_save_or_drop; [done|done|].
  intros s5 Hd5 Ht5. apply sspec_ret. cbn. split_and!; [done|done|by rewrite Ht5|done].
Qed.

(** ** Host::open *)

Lemma sspec_open c s : sspec (open c) (fun r s' => booted r.2 s') s.
Proof.
  unfold open. do 3 (apply sspec_bind, sspec_lift; intros _ _).
  apply sspec_bind, sspec_calm; [by apply calm_ask|]. intros answer s1 _.
  apply sspec_bind, sspec_lift. intros _ _.
  apply sspec_bind, sspec_calm; [apply calm_each; intros; unfold generate, wall_ms; calms|]. intros _ s2 _.
  apply sspec_bind. eapply sspec_mono; [apply sspec_journal_open|]. intros j s3 Hb.
  by apply sspec_open_authority.
Qed.
End boot.
