(* ===== verification/HostTheorems.v ===== *)
(** * The host as a whole: requests, crashes, restarts

    A machine runs one host process, or none. Whatever is asked of the host, whatever its
    system calls and its guardians answer, and whenever the process is killed or the
    machine crashes, the promises of [HostSpec] hold. *)

From S2P Require Import Prelude Ext Ids GuestModel GuestWire Wire Fs FsLaws Store HostModel HostEnv HostSpec RecordLaws JournalLaws HostOps HostLaws HostRefines HostFiles HostUploads HostBoot.
From S2P Require Authority LaunchAuthority Resources Guardian Command Files History Journal Idempotency.

(** The requests of the supervisor's protocol that the model covers, and maintenance. *)
Inductive call : Type :=
| CCreate (r : CreateRequest)
| CInspect (o : option Ownership)
| CStop (o : option Ownership)
| CLease (l : option LeaseOwnership) (until : option Z)
| CReconcile (cursor : nat)
| CPrevious (r : PreviousAllocationRequest)
| CAuthority (r : AllocationAuthorityRequest)
| CExecute (r : CommandRequest)
| CInspectCommand (r : CommandInspection)
| CCancelCommand (r : CommandInspection)
| CBinding (l : option LeaseOwnership)
| CRetireHistory (r : HistoryRequest)
| CRetireReleased (r : ReleasedHistoryRequest)
| CFence (r : AllocationFenceRequest)
| CBeginFile (r : FileRequest)
| CInspectFile (r : FileRequest)
| CCommitFile (r : FileRequest)
| CAbortFile (r : FileRequest)
| CWriteFile (r : FileWriteRequest).

Inductive event : Type :=
| Call (c : call)
| Boot (c : Config)
| Kill
| Crash (k l : nat) (junk : N -> bytes) (later later_launch : nat -> option bytes).

Record Machine : Type := {
  process : option (Config * option LaunchAuthority.AuthorityFile * Journal);
  below : System;
}.

(** A process that dies loses its locks; what it wrote stays in the page cache. *)
Definition drop_locks (w : World) : World := set_dir w (with_locks (dir w) ∅).
Definition crash_world (k : nat) (junk : N -> bytes) (later : nat -> option bytes) (w : World) : World := {|
  dir := crash k junk (dir w); clock := 0; faults := later; root_user := root_user w;
  canonical_root := canonical_root w
|}.

Section machine.
Context `{Env, UuidLib, Sha256, HexLib, Serde Authority.Retirement.Intent,
          Serde Authority.Retirement.Request, Serde Authority.Saved,
          Serde LaunchAuthority.Required, Serde LaunchAuthority.Saved, Serde Manifest,
          Serde Files.Upload, Serde Files.FileRecord, Serde Journal,
          Serde Record_, Serde Authority.Permit, Serde (list Authority.Permit), Serde Execute}.

Definition run_call (c : Config) (a : option LaunchAuthority.AuthorityFile) (x : call) (h : Host) : Host :=
  match x with
  | CCreate r => (create_sync c a r h).1
  | CInspect o => (inspect_sync c a o false h).1
  | CStop o => (inspect_sync c a o true h).1
  | CLease l until => (lease_sync c l until h).1
  | CReconcile cursor => (reconcile_one cursor h).1
  | CPrevious r => (previous_allocation c r h).1
  | CAuthority r => (allocation_authority_sync c a r h).1
  | CExecute r => (execute_command_sync c a r h).1
  | CInspectCommand r => (inspect_or_cancel c a r false h).1
  | CCancelCommand r => (inspect_or_cancel c a r true h).1
  | CBinding l => (history_binding_sync c l h).1
  | CRetireHistory r => (retire_history_sync c r h).1
  | CRetireReleased r => (retire_released_history_sync c r h).1
  | CFence r => (fence_allocation_sync c a r h).1
  | CBeginFile r => (file_sync c a r Begin h).1
  | CInspectFile r => (file_sync c a r Inspect h).1
  | CCommitFile r => (file_sync c a r Commit h).1
  | CAbortFile r => (file_sync c a r Abort h).1
  | CWriteFile r => (file_write_sync c a r h).1
  end.

Definition run (e : event) (m : Machine) : Machine :=
  match e, process m with
  | Call x, Some (c, a, j) =>
      let h := run_call c a x {| journal := j; system := below m |} in
      {| process := Some (c, a, journal h); below := system h |}
  | Call _, None => m
  | Boot c, None =>
      match open c (below m) with
      | (s, Ok (a, j)) => {| process := Some (c, a, j); below := s |}
      | (s, Err _) =>
          {| process := None;
             below := {| state_dir := drop_locks (state_dir s); launch_dir := drop_locks (launch_dir s);
                         trace := trace s |} |}
      end
  | Boot _, Some _ => m
  | Kill, _ =>
      {| process := None;
         below := {| state_dir := drop_locks (state_dir (below m));
                     launch_dir := drop_locks (launch_dir (below m)); trace := trace (below m) |} |}
  | Crash k l junk later later_launch, _ =>
      {| process := None;
         below := {| state_dir := crash_world k junk later (state_dir (below m));
                     launch_dir := crash_world l junk later_launch (launch_dir (below m));
                     trace := trace (below m) |} |}
  end.
Definition runs (es : list event) (m : Machine) : Machine := foldl (fun m e => run e m) m es.
End machine.
#[global] Arguments run : simpl never.

(** A machine on which no host ever ran. *)
Definition fresh `{Serde Journal} (m : Machine) : Prop :=
  process m = None /\ trace (below m) = [] /\ dir_ok (state (below m)) /\
  forall nm, image (state (below m)) nm -> nm !! Journal.HOST_JSON = None.

Section theorems.
Context `{Env, UuidLaws, Sha256, HexLib, Serde Authority.Retirement.Intent,
          Serde Authority.Retirement.Request, Serde Authority.Saved,
          Serde LaunchAuthority.Required, Serde LaunchAuthority.Saved, Serde Manifest,
          Serde Files.Upload, Serde Files.FileRecord, Serde Journal, JournalSerde0 : !JournalSerde,
          Serde Record_, Serde Authority.Permit, Serde (list Authority.Permit), Serde Execute}.

Section closed.
Context (P : astate -> Prop) `{!Closed P}.

Definition machine_inv (m : Machine) : Prop :=
  match process m with
  | Some (_, _, j) => inv P {| journal := j; system := below m |}
  | None => sys_inv P (below m)
  end.

Lemma machine_sys m : machine_inv m -> sys_inv P (below m).
Proof. unfold machine_inv. destruct (process m) as [[[c a] j]|]; [by intros [Hs _]|done]. Qed.

Lemma run_call_inv c a x h : inv P h -> inv P (run_call c a x h).
Proof.
  intros Hi. destruct x; cbn.
  - by apply spec_create_sync.
  - by apply spec_inspect_sync.
  - by apply spec_inspect_sync.
  - by apply spec_lease_sync.
  - by apply spec_reconcile_one.
  - by apply spec_previous_allocation.
  - by apply spec_allocation_authority_sync.
  - by apply spec_execute_command_sync.
  - by apply spec_inspect_or_cancel.
  - by apply spec_inspect_or_cancel.
  - by apply spec_history_binding_sync.
  - by apply spec_retire_history_sync.
  - by apply spec_retire_released_history_sync.
  - by apply spec_fence_allocation_sync.
  - by apply spec_file_sync.
  - by apply spec_file_sync.
  - by apply spec_file_sync.
  - by apply spec_file_sync.
  - by apply spec_file_write_sync.
Qed.

Lemma sys_inv_unlocked s l :
  sys_inv P s -> sys_inv P {| state_dir := drop_locks (state_dir s); launch_dir := l; trace := trace s |}.
Proof.
  intros [Hok Hd Hl]. split; cbn; [|intros o Ho; apply Hd|done].
  - by apply (ext_ok (state s)), extends_same.
  - by eapply (retains_same (state s)).
Qed.

Lemma sys_inv_crash s l k junk later :
  sys_inv P s ->
  sys_inv P {| state_dir := crash_world k junk later (state_dir s); launch_dir := l; trace := trace s |}.
Proof.
  intros [Hok Hd Hl]. split; cbn; [by apply dir_ok_crash|intros o Ho; apply Hd|done].
  by apply (retains_crash k junk).
Qed.

Lemma booted_inv j s : sys_inv P s -> booted P j s -> inv P {| journal := j; system := s |}.
Proof. intros Hs (_ & _ & HP & _). by split. Qed.

Lemma run_inv e m : machine_inv m -> machine_inv (run e m).
Proof.
  intros Hm. pose proof (machine_sys _ Hm) as Hs. unfold machine_inv in Hm.
  destruct e as [x|c| |k l junk later later_launch]; unfold run.
  - destruct (process m) as [[[c a] j]|] eqn:Hp; [|unfold machine_inv; by rewrite Hp].
    pose proof (run_call_inv c a x _ Hm) as Hi.
    unfold machine_inv. cbn. by destruct (run_call c a x _).
  - destruct (process m) as [[[c' a] j]|] eqn:Hp; [unfold machine_inv; by rewrite Hp|].
    destruct (sspec_open P c (below m) Hs) as [Hs' Hb].
    destruct (open c (below m)) as [s [[a j]|err]]; cbn in *.
    + apply booted_inv; [done|]. exact (Hb _ eq_refl).
    + by apply sys_inv_unlocked.
  - by apply sys_inv_unlocked.
  - by apply sys_inv_crash.
Qed.

Lemma runs_inv es m : machine_inv m -> machine_inv (runs es m).
Proof.
  revert m. induction es as [|e es IH]; intros m Hm; [done|]. apply IH. by apply run_inv.
Qed.

Lemma fresh_inv m : fresh m -> P (∅, []) -> machine_inv m.
Proof.
  intros (Hp & Ht & Hok & Hn) HP. unfold machine_inv. rewrite Hp. split; rewrite ?Ht; [done| |by exists ∅].
  intros [j|] (nm & Hm & Hr); [|done]. destruct Hr as (i & x & Hi & _). rewrite Hn in Hi by done. done.
Qed.

(** Every record map that a crash, or the process, may go on from. *)
Lemma machine_possible m o k junk :
  machine_inv m -> retains (crash k junk (state (below m))) o -> P (recs o, trace (below m)).
Proof.
  intros Hm Ho. pose proof (machine_sys _ Hm) as Hs. apply (si_disk _ _ Hs).
  apply (retains_crash k junk); [apply Hs|done].
Qed.
Lemma machine_memory m c a j :
  machine_inv m -> process m = Some (c, a, j) -> poisoned j = false -> P (records j, trace (below m)).
Proof. unfold machine_inv. intros Hm Hp Hj. rewrite Hp in Hm. by apply (in_memory _ _ Hm). Qed.
End closed.
Lemma fresh_legal es m : fresh m -> machine_inv legal (runs es m).
Proof. intros Hf. apply runs_inv; [apply _|]. by apply fresh_inv; [|apply legal_initial]. Qed.

Lemma legal_log_of m : machine_inv legal m -> exists R, legal (R, trace (below m)).
Proof. intros Hm. destruct (si_log _ _ (machine_sys _ _ Hm)) as [R HR]. by exists R. Qed.

(** *** Stops *)

Lemma spec_run {A} P (m : ST Host Status A) Q h h' a :
  spec P m Q h -> inv P h -> m h = (h', Ok a) -> inv P h' /\ Q a h'.
Proof. intros Hm Hi Hr. specialize (Hm Hi). rewrite Hr in Hm. cbn in Hm. naive_solver. Qed.
Lemma quiet_run {A} P `{!Closed P} (m : ST Host Status A) Q h h' a :
  quiet m Q -> inv P h -> m h = (h', Ok a) -> inv P h' /\ Q a.
Proof.
  intros Hm Hi Hr. destruct (Hm h) as [Hs Ha]. rewrite Hr in *. cbn in *.
  split; [by eapply inv_same|by apply Ha].
Qed.

(** Memory and disk agree that the allocation is stopped. *)
Lemma synced_stopped key r h :
  inv legal h -> synced h -> mem h key r -> stopped r = true ->
  inv (stopped_with key (List.filter (acts_on key) (trace (system h)))) h.
Proof.
  intros [[Hok Hd Hl] Hm] [Hp Hs] [_ Hr] Hst.
  assert (Hall : stopped_with key (List.filter (acts_on key) (trace (system h))) (records (journal h), trace (system h))).
  { split; [by apply Hm|]. split; [by exists r|done]. }
  split; [split; [done| |by eexists]|done]. intros o Ho. by rewrite (Hs o Ho).
Qed.

Lemma stop_fences c a o h h' obs :
  inv legal h -> inspect_sync c a (Some o) true h = (h', Ok obs) ->
  inv (stopped_with (o_allocation_id o) (List.filter (acts_on (o_allocation_id o)) (trace (system h')))) h'.
Proof.
  intros Hi. unfold inspect_sync. intros Hr.
  apply st_bind_ok in Hr as (h1 & o1 & E1 & Hr).
  destruct (quiet_run legal _ _ _ _ _ (quiet_owner c (Some o)) Hi E1) as [Hi1 [= <-]].
  apply st_bind_ok in Hr as (h2 & [] & E2 & Hr).
  destruct (spec_run legal _ _ _ _ _ (spec_gate c a legal o h1) Hi1 E2) as [Hi2 _].
  apply st_bind_ok in Hr as (h3 & r & E3 & Hr).
  destruct (spec_run legal _ _ _ _ _ (spec_fence legal o h2) Hi2 E3) as [Hi3 [[Hm Ho] _]].
  apply st_bind_ok in Hr as (h4 & r' & E4 & Hr).
  apply st_bind_ok in E4 as (h5 & [] & E5 & E4). apply st_ret_ok in E4 as [-> ->].
  destruct (spec_run legal _ _ _ _ _ (spec_mark_stopped legal (o_allocation_id o) h3) Hi3 E5) as [Hi5 [Hsy Hst]].
  pose proof (Hst _ Hm) as Hm5.
  pose proof (synced_stopped _ _ _ Hi5 Hsy Hm5 eq_refl) as Hs5.
  destruct (spec_run _ _ _ _ _ _ (spec_report (stopped_with (o_allocation_id o) _) o _ h5
    (stopped_about o r h5 Ho Hm5)) Hs5 Hr) as [Hs6 _].
  destruct (si_log _ _ (in_sys _ _ Hs6)) as [R (_ & _ & Hl)]. cbn in Hl. by rewrite Hl.
Qed.

Lemma stopped_forever key l es m :
  machine_inv (stopped_with key l) m -> List.filter (acts_on key) (trace (below (runs es m))) = l.
Proof.
  intros Hm. pose proof (runs_inv (stopped_with key l) es m Hm) as Hr.
  destruct (si_log _ _ (machine_sys _ _ Hr)) as [R (_ & _ & Hl)]. exact Hl.
Qed.

(** C4. Once a stop of an allocation was answered, no guardian of it is ever spawned and no
    command, control of an upload or chunk is ever sent to its guest again: whatever the host is asked afterwards, whatever
    its system calls answer, and however often it is killed, crashes or starts again. *)
Theorem stop_is_permanent es es' m c a j o obs :
  fresh m -> process (runs es m) = Some (c, a, j) ->
  (inspect_sync c a (Some o) true {| journal := j; system := below (runs es m) |}).2 = Ok obs ->
  let stopped_ := run (Call (CStop (Some o))) (runs es m) in
  List.filter (acts_on (o_allocation_id o)) (trace (below (runs es' stopped_))) =
  List.filter (acts_on (o_allocation_id o)) (trace (below stopped_)).
Proof.
  intros Hf Hp Hok. cbn zeta. set (h := {| journal := j; system := _ |}) in Hok.
  assert (Hi : inv legal h).
  { pose proof (fresh_legal es m Hf) as Hm. unfold machine_inv in Hm. by rewrite Hp in Hm. }
  assert (Hrun : run (Call (CStop (Some o))) (runs es m) =
    {| process := Some (c, a, journal (inspect_sync c a (Some o) true h).1);
       below := system (inspect_sync c a (Some o) true h).1 |}).
  { unfold run. by rewrite Hp. }
  destruct (inspect_sync c a (Some o) true h) as [h' r] eqn:Hins. cbn in Hok, Hrun. subst r.
  pose proof (stop_fences c a o h h' obs Hi Hins) as Hst.
  apply stopped_forever. rewrite Hrun. cbn. unfold machine_inv. cbn. by destruct h'.
Qed.

(** C6. A host that starts again never resumes what it finds: after a successful start, no
    allocation of its journal is spawned, or sent a command or an upload, ever again. *)
Theorem restart_stops_everything es es' m c a j key r :
  fresh m -> process (runs es m) = None ->
  process (run (Boot c) (runs es m)) = Some (c, a, j) -> records j !! key = Some r ->
  let booted_ := run (Boot c) (runs es m) in
  List.filter (acts_on key) (trace (below (runs es' booted_))) =
  List.filter (acts_on key) (trace (below booted_)).
Proof.
  intros Hf Hn Hp Hr. cbn zeta. pose proof (fresh_legal es m Hf) as Hm. unfold machine_inv in Hm.
  rewrite Hn in Hm. destruct (sspec_open legal c (below (runs es m)) Hm) as [Hs Hb].
  unfold run in *. rewrite Hn in *.
  destruct (open c (below (runs es m))) as [s [[a' j']|err]] eqn:Ho; cbn in *; [|done].
  simplify_eq. destruct (Hb _ eq_refl) as (Hpo & Hd & HP & Hst). cbn in *.
  apply stopped_forever. unfold machine_inv. cbn.
  apply (synced_stopped key r {| journal := j; system := s |}); [by split|by split|by split|by eapply Hst].
Qed.

(** C9. The outcome of a command is permanent: once the journal holds a resolved command
    record and nothing is in flight, every journal that any later events and any crash leave
    holds exactly that record, or a floor below which the operation was retired. *)
Theorem evidence_is_permanent es es' m c a j key r op cmd k junk o :
  fresh m -> process (runs es m) = Some (c, a, j) ->
  synced {| journal := j; system := below (runs es m) |} ->
  records j !! key = Some r -> commands r !! op = Some cmd -> Command.finished cmd = true ->
  retains (crash k junk (state (below (runs es' (runs es m))))) o ->
  exists r', recs o !! key = Some r' /\ (commands r' !! op = Some cmd \/ retired_name History.Commands r' op).
Proof.
  intros Hf Hp [Hpo Hs] Hr Hc Hfi Ho. pose proof (fresh_legal es m Hf) as Hm.
  assert (Hl : legal (records j, trace (below (runs es m)))) by (by eapply machine_memory).
  assert (He : evidence_kept key op cmd (records j, trace (below (runs es m)))).
  { split; [done|]. split; [done|]. exists r. split; [done|by left]. }
  assert (Hmi : machine_inv (evidence_kept key op cmd) (runs es m)).
  { unfold machine_inv. rewrite Hp. split; [|by intros _]. split; [|intros o' Ho'|by eexists].
    - apply (machine_sys _ _ Hm).
    - by rewrite (Hs o' Ho'). }
  pose proof (machine_possible _ _ _ _ _ (runs_inv _ es' _ Hmi) Ho) as (_ & _ & Hx). exact Hx.
Qed.

(** C1. The host refines its abstract specification: from a machine on which no host ever
    ran, under any sequence of requests, faults, kills, crashes and restarts, the records
    that a crash would leave on disk, with the log of what was done to the outside, are a
    state that the steps of [HostSpec.astep] reach. *)
Theorem host_refines_specification es m o k junk :
  fresh m -> retains (crash k junk (state (below (runs es m)))) o ->
  reachable (recs o, trace (below (runs es m))).
Proof.
  intros Hf Ho. apply (machine_possible reachable (runs es m) o k junk); [|done].
  apply runs_inv; [apply _|]. apply fresh_inv; [done|]. apply rtc_refl.
Qed.

(** C3. No allocation is spawned twice, by any sequence of requests, faults, kills, crashes
    and restarts. *)
Theorem spawned_at_most_once es m : fresh m -> NoDup (spawned (trace (below (runs es m)))).
Proof.
  intros Hf. destruct (legal_log_of _ (fresh_legal es m Hf)) as [R HR]. exact (lg_spawn_once _ HR).
Qed.

(** C2. No command is sent to a guest twice: each allocation and operation appears at most
    once among the executions of the log, over any requests, faults, crashes and restarts. *)
Theorem executed_at_most_once es m : fresh m -> NoDup (executed (trace (below (runs es m)))).
Proof.
  intros Hf. destruct (legal_log_of _ (fresh_legal es m Hf)) as [R HR]. exact (lg_execute_once _ HR).
Qed.

(** Intent is on disk before anything is done: whatever a crash leaves of the journal,
    every guardian that was ever spawned is recorded as dispatched, every command that was
    ever sent is recorded with its context and digest, and so is every upload that was ever
    begun, committed or aborted, with that request, unless the operation was retired. *)
Theorem intent_outlives_crashes es m k junk o :
  fresh m -> retains (crash k junk (state (below (runs es m)))) o ->
  (forall x, Spawn x ∈ trace (below (runs es m)) -> spawn_recorded (recs o) x) /\
  (forall ctx x, GuestExecute ctx x ∈ trace (below (runs es m)) -> execute_recorded (recs o) ctx x) /\
  (forall kind ctx u, GuestUpload kind ctx u ∈ trace (below (runs es m)) -> upload_recorded (recs o) kind ctx u).
Proof.
  intros Hf Ho. pose proof (machine_possible legal _ _ _ _ (fresh_legal es m Hf) Ho) as Hl.
  split_and!; [exact (lg_spawn _ Hl)|exact (lg_execute _ Hl)|exact (lf_upload _ (lg_files _ Hl))].
Qed.

Lemma ends_in_order_suffix l l' : ends_in_order (l ++ l') -> ends_in_order l'.
Proof. induction l as [|e l IH]; [done|]. intros Ho. by apply IH, Ho. Qed.

(** C11. The host drives an upload in order, over any requests, faults, crashes and restarts:
    each upload is begun, committed and aborted at the guest at most once each, no chunk of
    it is sent once its commit or its abort was, and no commit once its abort was. *)
Theorem uploads_driven_in_order es m :
  fresh m ->
  NoDup (uploaded (trace (below (runs es m)))) /\
  (forall later ctx u offset data earlier kind,
     trace (below (runs es m)) = later ++ GuestWrite ctx u offset data :: earlier -> kind <> CBegin ->
     (upload_id ctx u, kind) ∉ uploaded earlier) /\
  (forall later ctx u earlier,
     trace (below (runs es m)) = later ++ GuestUpload CCommit ctx u :: earlier ->
     (upload_id ctx u, CAbort) ∉ uploaded earlier).
Proof.
  intros Hf. destruct (legal_log_of _ (fresh_legal es m Hf)) as [R HR]. pose proof (lg_files _ HR) as Hl.
  pose proof (lf_order _ Hl) as Ho. cbn in Ho. split; [exact (lf_once _ Hl)|]. split.
  - intros later ctx u offset data earlier kind Ht Hk. rewrite Ht in Ho.
    apply ends_in_order_suffix in Ho as [[Hc Ha] _]. by destruct kind.
  - intros later ctx u earlier Ht. rewrite Ht in Ho. by apply ends_in_order_suffix in Ho as [Ha _].
Qed.

Lemma grown_answer b f f' :
  answers b f -> file_grows f f' ->
  Files.digest f' = fb_upload_digest b /\ Files.not_started f' = fb_not_started b /\
  from_context <$> Files.context f' = fb_context b /\
  (contains 3 5 (fb_state b) = true -> Files.state f' = fb_state b).
Proof.
  intros (Hd & Hn & Hc & Hs) Hg. destruct Hg as [Hgd Hgc _ Hgn _ _ Hgf _]. split_and!; try congruence.
  intros Hf. destruct Hs as [Hs|Hs]; [by rewrite Hs in Hf|].
  destruct (Hgf ltac:(unfold Files.file_finished; rewrite <- Hs, Hf; apply orb_true_r)) as [? _]. congruence.
Qed.

(** C12. An answer to a control of an upload is final: whatever happens after it, every
    journal that a crash may leave holds the record of that upload, under the digest and the
    boot that were answered, and in the state that was answered if it is a terminal one,
    until the operation is retired. *)
Theorem upload_answer_is_final es es' m c a j request action b h k junk o :
  fresh m -> process (runs es m) = Some (c, a, j) ->
  file_sync c a request action {| journal := j; system := below (runs es m) |} = (h, Ok b) ->
  let answered_ := {| process := Some (c, a, journal h); below := system h |} in
  retains (crash k junk (state (below (runs es' answered_)))) o ->
  exists own r, fr_ownership request = Some own /\ recs o !! o_allocation_id own = Some r /\
    ((exists f, files r !! o_operation_id own = Some f /\
        Files.digest f = fb_upload_digest b /\ Files.not_started f = fb_not_started b /\
        from_context <$> Files.context f = fb_context b /\
        (contains 3 5 (fb_state b) = true -> Files.state f = fb_state b)) \/
     retired_name History.Files r (o_operation_id own)).
Proof.
  intros Hf Hp Hb. cbn zeta. intros Ho.
  assert (Hi : inv legal {| journal := j; system := below (runs es m) |}).
  { pose proof (fresh_legal es m Hf) as Hm. unfold machine_inv in Hm. by rewrite Hp in Hm. }
  destruct (spec_run legal _ _ _ _ _ (spec_file_sync c a legal request action _) Hi Hb)
    as [Hi' (own & Hown & [Hpo Hs] & r & f & [[_ Hr] Hfi] & Hans)].
  assert (Hk : upload_kept (o_allocation_id own) (o_operation_id own) f (records (journal h), trace (system h))).
  { split; [by apply (in_memory _ _ Hi')|]. exists r. split; [done|]. left. exists f.
    split; [done|apply file_grows_refl]. }
  assert (Hm : machine_inv (upload_kept (o_allocation_id own) (o_operation_id own) f)
                 {| process := Some (c, a, journal h); below := system h |}).
  { split; [split; cbn; [apply Hi'| |by eexists]|by intros _]. intros o' Ho'. by rewrite (Hs o' Ho'). }
  pose proof (machine_possible _ _ _ _ _ (runs_inv _ es' _ Hm) Ho) as (_ & r' & Hr' & Hkept).
  exists own, r'. split; [done|]. split; [done|].
  destruct Hkept as [(f' & Hf' & Hg)|?]; [left|by right]. exists f'. split; [done|by eapply grown_answer].
Qed.

(** In every journal that a crash may leave, a transfer shows as committing or committed
    only if the host asked for its commit, and as aborted only if it asked for that; an
    operation fenced before it started never starts; an allocation retains at most 16 files,
    and the host at most 1024. *)
Theorem retained_files_as_asked es m k junk o key r :
  fresh m -> retains (crash k junk (state (below (runs es m)))) o -> recs o !! key = Some r ->
  (forall op f, files r !! op = Some f -> file_sound f) /\
  Z.of_nat (size (files r)) <= 16 /\ host_files (recs o) <= 1024.
Proof.
  intros Hf Ho Hr. pose proof (machine_possible legal _ _ _ _ (fresh_legal es m Hf) Ho) as Hl.
  pose proof (lg_files _ Hl) as Hfl. split_and!.
  - intros op f. by apply (lf_sound _ Hfl key).
  - exact (lf_room _ Hfl _ _ Hr).
  - exact (lf_host _ Hfl).
Qed.

(** C8. Capacity is released only on proof: an allocation that any journal on disk shows as
    released is stopped, and the fence of its manifest was answered with a receipt that says
    [Stopped] and confirms the cleanup. After a stop the host looks at the receipt itself,
    whatever the guardian answers. Only where it asked for no stop but found no live guest does
    it rely on the contract of [Manifest::fence_unstarted] that such a receipt is what Ok means,
    which [GuardianTheorems.fence_answers_cleaned_up] proves of the guardian's code. *)
Theorem release_is_confirmed es m k junk o key r :
  (forall before x v, ~ stop_asked x before -> fence_reply before x = Ok v -> cleaned_up v) ->
  fresh m -> retains (crash k junk (state (below (runs es m)))) o ->
  recs o !! key = Some r -> released r = true ->
  stopped r = true /\ exists x v after before, manifest r = Some x /\ key_of x = key /\
    trace (below (runs es m)) = after ++ FenceUnstarted x :: before /\ fence_reply before x = Ok v /\ cleaned_up v.
Proof.
  intros Hfence Hf Ho Hr Hrl. pose proof (machine_possible legal _ _ _ _ (fresh_legal es m Hf) Ho) as Hl.
  destruct (lg_release _ Hl _ _ Hr Hrl) as (Hst & x & Hx & after & before & v & Ht & Hv & Hc). split; [done|].
  exists x, v, after, before. split_and!; [done|by apply (lg_keyed _ Hl key r)|done|done|].
  destruct (stop_asked_dec x before) as [Hs|Hs]; [by apply Hc|by apply (Hfence before x)].
Qed.

(** C7. Two allocations of one sandbox are never live together: of any two records of the
    same sandbox with a manifest, one is released, in every journal that a crash may leave. *)
Theorem one_live_allocation_per_sandbox es m k junk o key key' r r' :
  fresh m -> retains (crash k junk (state (below (runs es m)))) o ->
  recs o !! key = Some r -> recs o !! key' = Some r' -> key <> key' ->
  o_sandbox_id (owner r) = o_sandbox_id (owner r') ->
  is_Some (manifest r) -> is_Some (manifest r') -> released r = true \/ released r' = true.
Proof.
  intros Hf Ho. pose proof (machine_possible legal _ _ _ _ (fresh_legal es m Hf) Ho) as Hl.
  exact (lg_sandbox _ Hl key key' r r').
Qed.
End theorems.

(** ** Retirement of operation history

    What [history::complete] and [released_history::reclaim] leave of a record: the
    operations below the floor go, resolved, and never come back; all others stay as they
    were. *)

(** What a record keeps of one operation of a domain. *)
Definition kept (r : Record_) (d : Domain) (op : string)
    : option Command.CommandRecord * option Files.FileRecord :=
  match d with
  | History.Commands => (commands r !! op, None)
  | History.Files => (None, files r !! op)
  end.

(** The domain whose history is not retired. *)
Definition other (d : Domain) : Domain :=
  match d with History.Commands => History.Files | History.Files => History.Commands end.

Section retirement.
Context `{UuidLib, Sha256, HexLib, Serde Authority.Retirement.Intent, Serde Manifest,
          Serde Files.Upload, Serde Files.FileRecord}.

Lemma elem_of_operation_names r d op :
  op ∈ operation_names r d <->
  match d with History.Commands => is_Some (commands r !! op) | History.Files => is_Some (files r !! op) end.
Proof. destruct d; apply entries_fst. Qed.

Lemma remove_all_kept d r names op :
  kept (remove_all d r names) d op = if decide (op ∈ names) then (None, None) else kept r d op.
Proof. destruct d; cbn; rewrite ?remove_all_commands, ?remove_all_files; by case_decide. Qed.

Lemma remove_all_kept_other d r names op :
  kept (remove_all d r names) (other d) op = kept r (other d) op.
Proof. destruct (remove_all_other r names) as [Hc Hf]. destruct d; cbn; by rewrite ?Hc, ?Hf. Qed.

Lemma kept_set_slot r d v d' op : kept (set_slot r d v) d' op = kept r d' op.
Proof. by destruct d, d'. Qed.
Lemma kept_set_released_slot r d v d' op : kept (set_released_slot r d v) d' op = kept r d' op.
Proof. by destruct d, d'. Qed.

(** An operation is kept or gone, and no name is read as two identities. *)
Lemma names_removed d r r' (names : list string) (covers : OperationId -> bool) :
  (forall n, n ∈ names <-> n ∈ operation_names r d /\ exists id, parse_operation n = Ok id /\ covers id = true) ->
  (forall op, kept r' d op = if decide (op ∈ names) then (None, None) else kept r d op) ->
  forall op id, parse_operation op = Ok id ->
    kept r' d op = if covers id : bool then (None, None) else kept r d op.
Proof.
  intros Hn Hk op id Hid. rewrite Hk. destruct (covers id) eqn:Hc; case_decide as Hin; try done.
  - destruct (decide (op ∈ operation_names r d)) as [Ho|Ho].
    + destruct Hin. apply Hn. split; [done|by exists id].
    + rewrite elem_of_operation_names in Ho.
      destruct d; cbn in *; by apply eq_None_not_Some in Ho as ->.
  - apply Hn in Hin as (_ & id' & Hid' & Hc'). congruence.
Qed.

Lemma check_refuses r d id :
  is_some_and (fun v => History.covers (barrier v) id) (slot r d) = true
  \/ is_some_and (fun v => id_leb id (rel_through v)) (released_slot r d) = true ->
  exists e, check_history r d id = Err e.
Proof.
  unfold check_history, check_released. destruct (check_retirement r) as [[]|e]; cbn; [|by exists e].
  intros [Hs|Hs]; rewrite Hs; [|by eexists].
  destruct (is_some_and (fun v => id_leb id (rel_through v)) (released_slot r d)); by eexists.
Qed.

(** C18. [history::complete] retires exactly the history below its floor: every retained
    operation that the barrier covers is gone and everything else of the record's history
    is as it was, in either domain; a command is retired only when it is resolved, a file
    only when it never started, was committed or was aborted; and the record refuses, from then on, every identity that the barrier covers. *)
Theorem complete_retires_exactly v r r' :
  complete v r = (r', Ok tt) ->
  let d := History.domain (barrier v) in
  (forall op id, parse_operation op = Ok id ->
     kept r' d op = if History.covers (barrier v) id then (None, None) else kept r d op) /\
  (forall op, kept r' (other d) op = kept r (other d) op) /\
  (forall op c id, d = History.Commands -> commands r !! op = Some c -> parse_operation op = Ok id ->
     History.covers (barrier v) id = true -> Command.finished c = true) /\
  (forall op f id, d = History.Files -> files r !! op = Some f -> parse_operation op = Ok id ->
     History.covers (barrier v) id = true -> file_settled f = true) /\
  (forall id, History.covers (barrier v) id = true -> exists e, check_history r' d id = Err e).
Proof.
  intros [[_ ?]|(cur & names & _ & Hs & Hb & He & Hn & ->)]%complete_ok; [done|]. cbn zeta.
  set (d := History.domain (barrier v)) in *. split_and!.
  - eapply names_removed; [exact Hn|]. intros op. rewrite kept_set_slot. apply remove_all_kept.
  - intros op. rewrite kept_set_slot. apply remove_all_kept_other.
  - intros op c id Hd Hop Hid Hc. by eapply eligible_commands.
  - intros op f id Hd Hop Hid Hc. by eapply eligible_files.
  - intros id Hc. apply check_refuses. left. rewrite slot_set_slot. cbn. by rewrite Hb.
Qed.

(** [released_history::reclaim] of a destroyed allocation retires exactly the history
    below the floor it returns: only of a stopped allocation, never below the floor asked
    for nor below an earlier one, only resolved commands and settled files; what it covers is gone and
    refused from then on, and everything above it and in the other domain is as it was. *)
Theorem reclaim_retires_exactly read d through rev e r r' t :
  reclaim read d through rev e r = (r', Ok t) ->
  stopped r = true /\ id_leb through t = true /\
  is_none_or (fun old => id_leb (rel_through old) t) (released_slot r d) = true /\
  (forall op id, parse_operation op = Ok id ->
     kept r' d op = if id_leb id t then (None, None) else kept r d op) /\
  (forall op, kept r' (other d) op = kept r (other d) op) /\
  (forall op c id, d = History.Commands -> commands r !! op = Some c -> parse_operation op = Ok id ->
     id_leb id t = true -> Command.finished c = true) /\
  (forall op f id, d = History.Files -> files r !! op = Some f -> parse_operation op = Ok id ->
     id_leb id t = true -> file_settled f = true) /\
  (forall id, id_leb id t = true -> exists s, check_history r' d id = Err s).
Proof.
  intros (Hst & Hle & Hold & names & He & Hn & ->)%reclaim_ok. split_and!; try done.
  - eapply (names_removed d r _ names (fun id => id_leb id t)); [exact Hn|].
    intros op. rewrite kept_set_released_slot. apply remove_all_kept.
  - intros op. rewrite kept_set_released_slot. apply remove_all_kept_other.
  - intros op c id -> Hop Hid Hc. eapply eligible_released_commands; [exact He| |exact Hop].
    apply Hn. split; [apply elem_of_operation_names; by exists c|by exists id].
  - intros op f id -> Hop Hid Hc. eapply eligible_released_files; [exact He| |exact Hop].
    apply Hn. split; [apply elem_of_operation_names; by exists f|by exists id].
  - intros id Hc. apply check_refuses. right. destruct d; cbn; exact Hc.
Qed.
End retirement.

(** ** Admission respects the host's capacity

    [admit_start] adds what every unreleased allocation reserves, with saturating sums, and
    refuses a start that does not fit beside them. *)

(** What the records reserve, without saturation. *)
Definition reserved_sum (f : Guardian.Start -> Z) (R : gmap string Record_) : Z :=
  sum_by (fun e => reserved f e.2) (entries R).

(** What a typed record reserves is not negative. *)
Definition charges_typed (f : Guardian.Start -> Z) (R : gmap string Record_) : Prop :=
  forall k r, R !! k = Some r -> 0 <= reserved f r.

Lemma reserved_insert f R k r0 r :
  R !! k = Some r0 -> reserved_sum f (<[k := r]> R) = reserved_sum f R - reserved f r0 + reserved f r.
Proof.
  intros Hr. unfold reserved_sum. rewrite !sum_entries.
  by rewrite (sum_map_update (fun e => reserved f e.2) R k r0 r).
Qed.

Lemma total_reserved_min f R :
  charges_typed f R -> total_reserved f R = Z.min U64_MAX (reserved_sum f R).
Proof.
  intros Ht. unfold total_reserved, reserved_sum, u64_saturating_add.
  assert (Hl : Forall (fun e : string * Record_ => 0 <= reserved f e.2) (entries R)).
  { apply Forall_forall. intros [k r] He. apply elem_of_entries in He. by apply (Ht k). }
  clear Ht. assert (Hacc : forall acc, 0 <= acc <= U64_MAX ->
    foldl (fun acc (e : string * Record_) => clamp 0 U64_MAX (acc + reserved f e.2)) acc (entries R) =
    Z.min U64_MAX (acc + sum_by (fun e => reserved f e.2) (entries R))).
  { induction Hl as [|e l He Hl IH]; intros acc Ha; cbn [foldl].
    - unfold sum_by. cbn. lia.
    - pose proof (sum_by_nonneg _ _ Hl) as Hn. rewrite IH by (unfold clamp; lia).
      change (sum_by ?g (e :: l)) with (reserved f e.2 + sum_by g l). cbn beta in *.
      unfold sum_by in *. cbn. unfold clamp. lia. }
  rewrite Hacc by (unfold U64_MAX; lia). f_equal.
Qed.

Section admission.
Context `{Env, UuidLib, Sha256, HexLib, Serde Authority.Retirement.Intent,
          Serde Authority.Retirement.Request, Serde Authority.Saved,
          Serde LaunchAuthority.Required, Serde LaunchAuthority.Saved, Serde Manifest,
          Serde Files.Upload, Serde Files.FileRecord, Serde Journal,
          Serde Record_, Serde Authority.Permit, Serde (list Authority.Permit), Serde GuestModel.Execute}.

Lemma fits_sum f cap R k r0 r m :
  charges_typed f R -> R !! k = Some r0 -> manifest r = Some m ->
  0 < f (Guardian.start m) -> f (Guardian.start m) <= u64_saturating_sub cap (total_reserved f R) ->
  cap <= U64_MAX -> reserved_sum f (<[k := r]> R) <= cap.
Proof.
  intros Ht Hr Hm Hpos Hfit Hcap. rewrite total_reserved_min in Hfit by done.
  rewrite (reserved_insert f R k r0 r Hr). pose proof (Ht _ _ Hr).
  assert (reserved f r <= f (Guardian.start m)).
  { unfold reserved. rewrite Hm. destruct (released r); lia. }
  unfold u64_saturating_sub, clamp in Hfit. lia.
Qed.

Lemma save_records (h h' : Host) : save h = (h', Ok tt) -> records (journal h') = records (journal h).
Proof.
  unfold save, Journal.save. destruct (poisoned (journal h)); [done|].
  destruct (Journal.save_file _ _) as [w [[]|e]]; [|done]. by intros [= <-].
Qed.
Lemma write_records (h h' : Host) id r :
  write_record id r h = (h', Ok tt) -> records (journal h') = <[id := r]> (records (journal h)).
Proof. unfold write_record, set_journal, modify, get, mbind, ST_bind. by intros [= <-]. Qed.

(** C10. Admission never overcommits the host: when [admit_start] accepts a start, what all
    unreleased allocations reserve, counted without saturation, fits the configured
    processors, memory and disk. *)
Theorem admission_respects_capacity config o request m h h' r :
  admit_start config o request m h = (h', Ok r) ->
  0 < Guardian.vcpu (Guardian.start m) -> 0 <= Guardian.memory_mib (Guardian.start m) ->
  0 <= Guardian.disk_mib (Guardian.start m) ->
  cap_vcpu (capacity config) <= U64_MAX -> cap_memory_mib (capacity config) <= U64_MAX ->
  cap_disk_mib (capacity config) <= U64_MAX ->
  (forall f, f ∈ [Guardian.vcpu; memory_charge; disk_charge] -> charges_typed f (records (journal h))) ->
  reserved_sum Guardian.vcpu (records (journal h')) <= cap_vcpu (capacity config) /\
  reserved_sum memory_charge (records (journal h')) <= cap_memory_mib (capacity config) /\
  reserved_sum disk_charge (records (journal h')) <= cap_disk_mib (capacity config).
Proof.
  intros Ha Hv Hm Hd Hcv Hcm Hcd Ht. unfold admit_start in Ha.
  apply st_bind_ok in Ha as (h1 & j & Hj & Ha). unfold journal_ in Hj.
  apply st_bind_ok in Hj as (? & ? & Hg & Hj). apply st_get_ok in Hg as [-> ->].
  destruct (poisoned (journal h)); [by apply st_fail_ok in Hj|]. apply st_ret_ok in Hj as [-> ->].
  apply st_bind_ok in Ha as (? & [] & Hx & Ha). apply st_lift_ok in Hx as [-> _].
  apply st_bind_ok in Ha as (? & [] & Hx & Ha). apply st_lift_ok in Hx as [-> Hfit%ensure_ok]. bools.
  apply st_bind_ok in Ha as (? & r0 & Hx & Ha). apply st_lift_ok in Hx as [-> Hr%ok_or_ok].
  apply st_bind_ok in Ha as (h2 & [] & Hw & Ha). apply st_bind_ok in Ha as (h3 & [] & Hs & Ha).
  apply st_ret_ok in Ha as [-> ->]. apply write_records in Hw. apply save_records in Hs.
  rewrite Hs, Hw.
  split_and!; eapply fits_sum; try done; try (apply Ht; set_solver); unfold memory_charge, disk_charge in *; cbn; lia.
Qed.
End admission.
