(* ===== verification/HostSample.v ===== *)
(** * The host's theorems at a concrete machine

    A host without launch permits, on an empty state directory: it admits an allocation,
    spawns its guardian, sends a command, drives an upload, is stopped, crashes and starts
    again. *)

From S2P Require Import Prelude Ext Ids GuestModel GuestWire Wire Fs FsLaws Store Reference FileWire HostModel HostEnv HostSpec RecordLaws JournalLaws HostOps HostLaws HostRefines HostFiles HostBoot HostTheorems.
From S2P Require Authority LaunchAuthority Resources Guardian Command Files History Journal.
Import Ref.
#[local] Existing Instance LaunchAuthority.Checkpoint_eq_dec.
#[local] Existing Instance Guardian.State_eq_dec.

(** ** Serialization

    Manifests and executions have codecs. A journal is encoded by the part of it that such
    a host uses; a journal that uses more is refused. *)

#[export] Instance Journal_eq_dec : EqDecision Journal.
Proof. solve_decision. Defined.

#[export] Program Instance Ownership_codec : Codec Ownership := codec_inj
  (fun o => (o_host_id o, o_project_id o, o_sandbox_id o, o_allocation_id o, o_operation_id o,
             o_generation o, o_supervisor_epoch o, o_claim_revision o, o_claim_expires_unix_ms o))
  (fun t => let '(h, p, s, a, op, g, e, r, x) := t in
    Some {| o_host_id := h; o_project_id := p; o_sandbox_id := s; o_allocation_id := a;
            o_operation_id := op; o_generation := g; o_supervisor_epoch := e;
            o_claim_revision := r; o_claim_expires_unix_ms := x |}) _.
Next Obligation. by intros []. Qed.
#[export] Program Instance Resources_codec : Codec wResources := codec_inj
  (fun r => (res_vcpu r, res_memory_mib r, res_disk_mib r))
  (fun t => Some {| res_vcpu := t.1.1; res_memory_mib := t.1.2; res_disk_mib := t.2 |}) _.
Next Obligation. by intros []. Qed.
#[export] Program Instance Create_codec : Codec CreateRequest := codec_inj
  (fun c => (c_launch_permit_json c, c_ownership c, c_image_digest c, c_resources c, c_allocation_expires_unix_ms c))
  (fun t => let '(p, o, i, r, x) := t in
    Some {| c_launch_permit_json := p; c_ownership := o; c_image_digest := i; c_resources := r;
            c_allocation_expires_unix_ms := x |}) _.
Next Obligation. by intros []. Qed.
#[export] Program Instance Artifact_codec : Codec Guardian.Artifact := codec_inj
  (fun a => (Guardian.path a, Guardian.artifact_sha256 a))
  (fun t => Some {| Guardian.path := t.1; Guardian.artifact_sha256 := t.2 |}) _.
Next Obligation. by intros []. Qed.
#[export] Program Instance Guardian_config_codec : Codec Guardian.Config := codec_inj
  (fun c => (Guardian.state_root c, Guardian.cgroup_parent c, Guardian.firecracker c, Guardian.jailer c,
             Guardian.kernel c, Guardian.rootfs c, Guardian.jail_uid c, Guardian.jail_gid c))
  (fun t => let '(s, g, f, j, k, r, u, i) := t in
    Some {| Guardian.state_root := s; Guardian.cgroup_parent := g; Guardian.firecracker := f;
            Guardian.jailer := j; Guardian.kernel := k; Guardian.rootfs := r;
            Guardian.jail_uid := u; Guardian.jail_gid := i |}) _.
Next Obligation. by intros []. Qed.
#[export] Program Instance Owner_codec : Codec Guardian.Owner := codec_inj
  (fun o => (Guardian.host o, Guardian.project o, Guardian.sandbox o, Guardian.allocation o,
             Guardian.create_operation o, Guardian.generation o, Guardian.epoch o))
  (fun t => let '(h, p, s, a, op, g, e) := t in
    Some {| Guardian.host := h; Guardian.project := p; Guardian.sandbox := s; Guardian.allocation := a;
            Guardian.create_operation := op; Guardian.generation := g; Guardian.epoch := e |}) _.
Next Obligation. by intros []. Qed.
#[export] Program Instance Start_codec : Codec Guardian.Start := codec_inj
  (fun s => (Guardian.owner s, Guardian.vcpu s, Guardian.memory_mib s, Guardian.disk_mib s, Guardian.expires_unix_ms s))
  (fun t => let '(o, v, m, d, x) := t in
    Some {| Guardian.owner := o; Guardian.vcpu := v; Guardian.memory_mib := m; Guardian.disk_mib := d;
            Guardian.expires_unix_ms := x |}) _.
Next Obligation. by intros []. Qed.
#[export] Program Instance Manifest_codec : Codec Guardian.Manifest := codec_inj
  (fun m => (Guardian.launch_permit m, Guardian.config m, Guardian.start m))
  (fun t => Some {| Guardian.launch_permit := t.1.1; Guardian.config := t.1.2; Guardian.start := t.2 |}) _.
Next Obligation. by intros []. Qed.
#[export] Program Instance Context_codec : Codec Context := codec_inj
  (fun c => (allocation_id c, generation c, boot_id c))
  (fun t => Some {| allocation_id := t.1.1; generation := t.1.2; boot_id := t.2 |}) _.
Next Obligation. by intros []. Qed.

#[export] Program Instance File_record_codec : Codec Files.FileRecord := codec_inj
  (fun f => (Files.digest f, Files.context f, Files.size f, Files.not_started f, Files.commit_requested f,
             Files.abort_requested f, Files.state f))
  (fun t => let '(d, c, z, n, k, a, s) := t in
    Some {| Files.digest := d; Files.context := c; Files.size := z; Files.not_started := n;
            Files.commit_requested := k; Files.abort_requested := a; Files.state := s |}) _.
Next Obligation. by intros []. Qed.

(** The part of a command without its evidence, and the part of a record that matters. *)
Definition command_part (c : Command.CommandRecord) :=
  (Command.digest c, Command.context c, Command.cmd_deadline_unix_ms c, Command.cmd_output_limit c,
   Command.not_started c).
Definition command_of (t : bytes * option Context * Z * Z * bool) : Command.CommandRecord :=
  let '(d, c, x, l, n) := t in
  {| Command.digest := d; Command.context := c; Command.cmd_deadline_unix_ms := x;
     Command.cmd_output_limit := l; Command.not_started := n; Command.receipt := None |}.
Definition record_part (r : Record_) :=
  (owner r, create r, manifest r, dispatched r, stopped r, released r, map_to_list (revisions r),
   map_to_list (command_part <$> commands r), map_to_list (files r)).
Definition record_of_part (t : Ownership * option CreateRequest * option Guardian.Manifest * bool * bool *
    bool * list (string * Z) * list (string * (bytes * option Context * Z * Z * bool))
    * list (string * Files.FileRecord)) : Record_ :=
  let '(o, c, m, d, s, rl, rv, cs, fs) := t in
  {| owner := o; retirement := None; metadata_retirement := None; revisions := list_to_map rv;
     create := c; manifest := m; dispatched := d; stopped := s; released := rl;
     commands := command_of <$> (list_to_map cs : gmap string _); files := list_to_map fs; archives := ∅;
     command_history := None; file_history := None; released_commands := None;
     released_files := None; lease_revision := 0; lease_request := None |}.
Definition journal_part (j : Journal) :=
  (version j, journal_host j, journal_epoch j, map_to_list (record_part <$> records j)).
Definition journal_of_part (t : Z * HostId * Z * list (string * _)) : Journal :=
  let '(v, h, e, rs) := t in
  {| launch_authority := None; version := v; journal_host := h; journal_epoch := e;
     records := record_of_part <$> (list_to_map rs : gmap string _); poisoned := false |}.

(** Whether the part is all there is. *)
Definition none {A} (m : gmap string A) : bool := match map_to_list m with [] => true | _ => false end.
Definition simple_command (c : Command.CommandRecord) : bool := is_none (Command.receipt c).
Definition simple_record (r : Record_) : bool :=
  is_none (retirement r) && is_none (metadata_retirement r) && none (archives r)
  && is_none (command_history r) && is_none (file_history r) && is_none (released_commands r)
  && is_none (released_files r) && (lease_revision r =? 0) && is_none (lease_request r)
  && forallb (fun e => simple_command e.2) (map_to_list (commands r)).
Definition simple_journal (j : Journal) : bool :=
  is_none (launch_authority j) && forallb (fun e => simple_record e.2) (map_to_list (records j)).

Lemma none_empty {A} (m : gmap string A) : none m = true -> m = ∅.
Proof. unfold none. destruct (map_to_list m) eqn:Hm; [|done]. by intros _; apply map_to_list_empty_iff. Qed.
Lemma back_and_forth {A B} (f : A -> B) (g : B -> A) (ok : A -> bool) (m : gmap string A) :
  (forall a, ok a = true -> g (f a) = a) -> forallb (fun e => ok e.2) (map_to_list m) = true ->
  g <$> (list_to_map (map_to_list (f <$> m)) : gmap string B) = m.
Proof.
  intros Hgf Hok. rewrite list_to_map_to_list, <- map_fmap_compose.
  rewrite <- (map_fmap_id m) at 2. apply map_fmap_ext. intros k a Hk. apply Hgf.
  rewrite forallb_forall in Hok. by apply (Hok (k, a)), list_elem_of_In, elem_of_map_to_list.
Qed.
Lemma command_back c : simple_command c = true -> command_of (command_part c) = c.
Proof. intros Hc%is_none_true. destruct c. cbn in *. by subst. Qed.
Lemma record_back r : simple_record r = true -> record_of_part (record_part r) = r.
Proof.
  unfold simple_record. intros Hr. bools. destruct r. cbn in *.
  repeat match goal with
    | h : is_none _ = true |- _ => apply is_none_true in h
    | h : none _ = true |- _ => apply none_empty in h
    end.
  subst. unfold record_of_part, record_part. cbn. f_equal; [apply list_to_map_to_list| |apply list_to_map_to_list].
  by apply (back_and_forth _ _ simple_command); [apply command_back|].
Qed.
Lemma journal_back j : simple_journal j = true -> poisoned j = false -> journal_of_part (journal_part j) = j.
Proof.
  unfold simple_journal. intros Hj Hp. bools. destruct j. cbn in *.
  repeat match goal with h : is_none _ = true |- _ => apply is_none_true in h end.
  subst. unfold journal_of_part, journal_part. cbn. f_equal.
  by apply (back_and_forth _ _ simple_record); [apply record_back|].
Qed.

#[export] Instance Journal_serde : Serde Journal := {|
  to_vec j := if simple_journal j then Some (enc (journal_part j)) else None;
  from_slice b := match dec b with Some (t, EmptyString) => Some (journal_of_part t) | _ => None end
|}.
#[export] Instance Journal_serde_laws : JournalSerde.
Proof.
  split.
  - intros j b Hp. unfold to_vec, from_slice, Journal_serde. destruct (simple_journal j) eqn:Hj; [|done].
    intros Hb. apply (f_equal (default "")) in Hb. unfold default, id in Hb. subst b.
    rewrite <- (string_app_nil_r (enc (journal_part j))), dec_enc. by rewrite journal_back.
  - intros b j. unfold from_slice, Journal_serde. destruct (dec b) as [[[[[v h] e] rs] [|]]|]; [|done..]. by intros [= <-].
Qed.

#[export] Instance Manifest_serde : Serde Guardian.Manifest := serde (fun _ => true).
#[export] Instance Execute_serde : Serde Execute := {|
  to_vec e := Some (enc (e_operation_id e, e_argv e, e_cwd e));
  from_slice _ := None
|}.

#[export] Instance Upload_serde : Serde Files.Upload := {|
  to_vec u := Some (enc (Files.u_path u, Files.u_size u, Files.u_sha256 u, Files.u_mode u)); from_slice _ := None
|}.
(** A record's text: a request makes it shorter, and its state is one digit. *)
Definition flag (b : bool) : string := if b then "true" else "false".
#[export] Instance File_record_serde : Serde Files.FileRecord := {|
  to_vec f := Some (enc (Files.digest f, Files.context f, Files.size f) +:+ flag (Files.not_started f)
                    +:+ flag (Files.commit_requested f) +:+ flag (Files.abort_requested f)
                    +:+ String (Ascii.ascii_of_nat (48 + Z.to_nat (Files.state f))) "");
  from_slice _ := None
|}.
#[export] Instance Record_serde : Serde Record_ := {| to_vec r := Some (enc (record_part r)); from_slice _ := None |}.

(** Nothing of these is written or read by such a host. *)
Definition refusing {A} : Serde A := {| to_vec _ := None; from_slice _ := None |}.
#[export] Instance sample_serde1 : Serde Authority.Retirement.Request := refusing.
#[export] Instance sample_serde2 : Serde Authority.Saved := refusing.
#[export] Instance sample_serde3 : Serde LaunchAuthority.Required := refusing.
#[export] Instance sample_serde4 : Serde LaunchAuthority.Saved := refusing.
#[export] Instance sample_serde8 : Serde Authority.Permit := refusing.
#[export] Instance sample_serde9 : Serde (list Authority.Permit) := refusing.

(** ** The outside *)

Definition NOW : Z := 1000000.
Definition receipt_of (m : Guardian.Manifest) (st : Guardian.State) : Guardian.Receipt := {|
  Guardian.r_version := 1; Guardian.r_owner := Guardian.owner (Guardian.start m);
  Guardian.r_digest := match Guardian.digest m with Ok d => d | Err _ => "" end;
  Guardian.r_host_boot_id := "boot"; Guardian.r_state := st;
  Guardian.r_cleanup_confirmed := bool_decide (st = Guardian.Stopped);
  Guardian.r_renewal_revision := 0; Guardian.r_expires_unix_ms := NOW + 5000;
  Guardian.r_guardian_host_pid := Some 7; Guardian.r_guardian_start_ticks := Some 1;
  Guardian.r_firecracker_namespace_pid := Some 2; Guardian.r_cgroup_inode := Some 3;
  Guardian.r_reason := None; Guardian.r_identity_digest := None;
  Guardian.r_identity_expires_unix_ms := None; Guardian.r_guest_boot_id := Some "guest"
|}.

(** A guest that does what it is told with uploads. *)
Definition guest_receipt (k : control_kind) (c : Context) (u : Files.Upload) : result anyhow fw.FileReceipt :=
  d ← Files.upload_digest u;
  Ok (from_file_receipt {|
    Files.f_version := 1; Files.f_context := c; Files.f_upload := u; Files.f_digest := d;
    Files.f_state := match k with CBegin => Files.Staging | CCommit => Files.Committed | CAbort => Files.Aborted end |}).
Definition guest_progress (u : Files.Upload) (offset : Z) (data : bytes) : result anyhow fw.FileProgress :=
  operation ← FileWire.operation u;
  Ok {| fw.p_operation := Some operation; fw.stored := offset + strlen data |}.

#[export] Instance sample_env : Env := {|
  is_root := true;
  clock_answer _ := NOW;
  generated t := sample_id (900 + N.of_nat (length t));
  receipt_file _ m := Ok (receipt_of m Guardian.Stopped);
  prepared _ _ := true;
  HostEnv.spawned _ _ := true;
  control_reply _ m _ := Ok {| Guardian.receipt := Some (receipt_of m Guardian.Running); Guardian.error := None |};
  fence_reply _ m := Ok (receipt_of m Guardian.Stopped);
  directory_exists _ _ := Ok false;
  group_exists _ _ := Ok false;
  identity_reply _ _ _ := Ok tt;
  session_reply _ _ _ := Ok tt;
  removed_reply _ _ _ := Ok tt;
  preflight_reply _ := Ok tt;
  execute_reply _ _ _ := Err "timed out";
  inspect_reply _ _ _ := Err "timed out";
  cancel_reply _ _ _ := Err "timed out";
  retire_reply _ _ _ := Err "timed out";
  upload_reply _ k c u := guest_receipt k c u;
  inspect_upload_reply _ _ _ := Err "timed out";
  write_reply _ _ u offset data := guest_progress u offset data;
  file_worker_free _ := true;
  passed_early _ := false;
  gate_free _ := true;
  readers_closed _ := true;
  downloads_pending _ := false;
|}.

(** ** The machine *)

Definition hex64 : string := "00112233445566778899aabbccddeeff00112233445566778899aabbccddeeff".
Definition artifact (p : string) : Guardian.Artifact :=
  {| Guardian.path := p; Guardian.artifact_sha256 := hex64 |}.
Definition host_config (e : Z) : Config := {|
  capabilities := None; launch_permits_required := false; host := sample_id 1; epoch := e;
  state_root := "/hudson"; cgroup_parent := "/sys/fs/cgroup/hudson"; guardian_binary := "/bin/guardian";
  firecracker := artifact "/fc"; jailer := artifact "/jailer";
  images := {[ "sha256:" +:+ hex64 := {| kernel := artifact "/kernel"; rootfs := artifact "/rootfs" |} ]};
  jail_uid := 65534; jail_gid := 65534;
  capacity := {| cap_vcpu := 4; cap_memory_mib := 4096; cap_disk_mib := 8192 |}
|}.

Definition no_dir (meta : option Metadata) : Dir := {|
  dir_meta := meta; device := 5; inodes := ∅; synced_names := ∅; pending := []; fresh_ino := 1; locks := ∅
|}.
Definition world (meta : option Metadata) (root : string) : World := {|
  dir := no_dir meta; clock := 0; faults := fun _ => None; root_user := true; canonical_root := root
|}.
Definition new_machine : Machine := {|
  process := None;
  below := {| state_dir := world None "/hudson"; launch_dir := world None "/hudson/a"; trace := [] |}
|}.

Lemma new_machine_fresh : fresh new_machine.
Proof.
  assert (forall m, image (no_dir None) m -> m = ∅) as Hm by (intros m [k ->]; cbn; by rewrite take_nil).
  split; [done|]. split; [done|]. split; [split|].
  - by intros j [x Hx].
  - by intros m n j ->%Hm Hj.
  - by intros m n j ->%Hm [x Hx].
  - by intros nm ->%Hm.
Qed.

Definition ownership (op : N) (rev : Z) : Ownership := {|
  o_host_id := to_string (sample_id 1 : HostId); o_project_id := to_string (sample_id 2 : ProjectId);
  o_sandbox_id := to_string (sample_id 3 : SandboxId);
  o_allocation_id := to_string (sample_id 4 : AllocationId);
  o_operation_id := to_string (sample_id op : OperationId); o_generation := 1; o_supervisor_epoch := 7;
  o_claim_revision := rev; o_claim_expires_unix_ms := NOW + 1000
|}.
Definition create_request : CreateRequest := {|
  c_launch_permit_json := ""; c_ownership := Some (ownership 5 1);
  c_image_digest := "sha256:" +:+ hex64;
  c_resources := Some {| res_vcpu := 1; res_memory_mib := 512; res_disk_mib := 1024 |};
  c_allocation_expires_unix_ms := NOW + 5000
|}.
Definition command_request : CommandRequest := {|
  cr_ownership := Some (ownership 6 1);
  cr_command := Some (from_execute {|
    e_operation_id := sample_id 6; e_argv := ["/bin/true"]; e_env := ∅; e_cwd := "/";
    e_deadline_unix_ms := NOW + 2000; e_output_limit := 4096 |})
|}.

(** A closed equation of evaluated runs, left to the kernel's virtual machine. *)
Local Ltac evaluated := lazymatch goal with |- _ = ?b => vm_cast_no_check (@eq_refl _ b) end.

Lemma has_some {A} (o : option A) : match o with Some _ => true | None => false end = true -> is_Some o.
Proof. by destruct o. Qed.

Definition key : string := to_string (sample_id 4 : AllocationId).
Definition start_events : list event :=
  [Boot (host_config 7); Call (CCreate create_request); Call (CExecute command_request)].
Definition started : Machine := runs start_events new_machine.

Lemma started_effects :
  spawned (trace (below started)) = [key] /\ length (executed (trace (below started))) = 1%nat.
Proof. split; evaluated. Qed.

(** The journal of a process, and the one a crash leaves when nothing more reached the disk. *)
Definition process_journal (m : Machine) : Journal :=
  match process m with
  | Some (_, _, j) => j
  | None => journal_of_part (1, sample_id 1, 0, [])
  end.
Definition lost : nat -> option bytes := fun _ => None.
Definition zeros : N -> bytes := fun _ => "".

(** A decision procedure for [retains] of the names as they are. *)
Definition holds_now (d : Dir) (j : Journal) : bool :=
  negb (poisoned j) &&
  match names d !! Journal.HOST_JSON with
  | Some i =>
      match inodes d !! i with
      | Some x => Journal.private_regular (meta x) && (strlen (content x) <=? MAX_BYTES)
                  && bool_decide (to_vec j = Some (content x))
      | None => false
      end
  | None => false
  end.
Lemma retains_now d j : holds_now d j = true -> retains d (Some j).
Proof.
  unfold holds_now. intros Hd. exists (names d). split; [apply image_names|]. unfold reads.
  apply andb_true_iff in Hd as [Hp Hd].
  destruct (names d !! Journal.HOST_JSON) as [i|] eqn:Hi; [|done].
  destruct (inodes d !! i) as [x|] eqn:Hx; [|done]. bools. exists i, x.
  split_and!; try done. by apply journal_reads_back.
Qed.

Lemma started_survives :
  retains (crash 0 zeros (state (below started))) (Some (process_journal started)).
Proof. apply retains_now. evaluated. Qed.

Lemma host_refines_specification_witness :
  spawned (trace (below started)) = [key] /\
  reachable (records (process_journal started), trace (below started)).
Proof.
  split; [evaluated|].
  exact (host_refines_specification start_events new_machine (Some (process_journal started)) 0 zeros
    new_machine_fresh started_survives).
Defined.

Lemma spawned_at_most_once_witness : NoDup (spawned (trace (below started))).
Proof. exact (spawned_at_most_once start_events new_machine new_machine_fresh). Defined.

Lemma executed_at_most_once_witness :
  length (executed (trace (below started))) = 1%nat /\ NoDup (executed (trace (below started))).
Proof.
  split; [evaluated|]. exact (executed_at_most_once start_events new_machine new_machine_fresh).
Defined.

(** The manifest that was spawned. *)
Definition the_manifest : Guardian.Manifest :=
  match omap (fun e => match e with Spawn m => Some m | _ => None end) (trace (below started)) with
  | m :: _ => m
  | [] => trial_manifest (host_config 7) {| kernel := artifact "/kernel"; rootfs := artifact "/rootfs" |} 0
            (sample_id 1) (sample_id 1) (sample_id 1) (sample_id 1)
  end.
Lemma spawned_manifest : Spawn the_manifest ∈ trace (below started).
Proof.
  apply (list_elem_of_lookup_2 _ 13). evaluated.
Qed.

Lemma intent_outlives_crashes_witness : spawn_recorded (records (process_journal started)) the_manifest.
Proof.
  exact (proj1 (intent_outlives_crashes start_events new_machine 0 zeros (Some (process_journal started))
    new_machine_fresh started_survives) the_manifest spawned_manifest).
Defined.

(** An upload: begun, written, committed, and an abort that comes too late. *)
Definition the_upload : Files.Upload := {|
  Files.u_operation_id := sample_id 9; Files.u_path := "src/a.txt"; Files.u_size := 3;
  Files.u_sha256 := sha256 "abc"; Files.u_mode := Files.MODE_ORDINARY
|}.
Definition file_request (rev : Z) : FileRequest :=
  {| fr_ownership := Some (ownership 9 rev); fr_upload := Some (from_upload the_upload) |}.
Definition upload_events : list event :=
  start_events ++ [Call (CBeginFile (file_request 1));
    Call (CWriteFile {| fw_request := Some (file_request 1); fw_offset := 0; fw_data := "abc" |});
    Call (CCommitFile (file_request 2)); Call (CAbortFile (file_request 3))].
Definition uploading : Machine := runs upload_events new_machine.
Definition upload_name : string := to_string (Files.u_operation_id the_upload).
Definition is_chunk (e : effect) : bool := match e with GuestWrite _ _ _ _ => true | _ => false end.

Lemma uploads_driven_in_order_witness :
  uploaded (trace (below uploading)) = [(key, upload_name, CCommit); (key, upload_name, CBegin)] /\
  length (List.filter is_chunk (trace (below uploading))) = 1%nat /\
  NoDup (uploaded (trace (below uploading))).
Proof.
  split; [evaluated|]. split; [evaluated|].
  exact (proj1 (uploads_driven_in_order upload_events new_machine new_machine_fresh)).
Defined.

(** Stopped, then crashed and started again at the next epoch. *)
Definition stop_ownership : Ownership := ownership 8 2.
Definition stopped_machine : Machine := run (Call (CStop (Some stop_ownership))) started.
Definition later_events : list event :=
  [Call (CCreate create_request); Crash 0 0 zeros lost lost; Boot (host_config 8);
   Call (CExecute command_request)].

Lemma stopped_survives :
  retains (crash 0 zeros (state (below stopped_machine))) (Some (process_journal stopped_machine)).
Proof. apply retains_now. evaluated. Qed.

Definition record_at (m : Machine) (k : string) : Record_ :=
  default (new_record stop_ownership) (records (process_journal m) !! k).
Lemma has_record m k :
  bool_decide (is_Some (records (process_journal m) !! k)) = true ->
  records (process_journal m) !! k = Some (record_at m k).
Proof. unfold record_at. rewrite bool_decide_eq_true. by intros [r ->]. Qed.

Lemma uploading_survives :
  retains (crash 0 zeros (state (below uploading))) (Some (process_journal uploading)).
Proof. apply retains_now. evaluated. Qed.

Lemma retained_files_as_asked_witness :
  Files.state <$> files (record_at uploading key) !! upload_name = Some 3 /\
  (forall op f, files (record_at uploading key) !! op = Some f -> file_sound f).
Proof.
  split; [evaluated|].
  assert (Hr : recs (Some (process_journal uploading)) !! key = Some (record_at uploading key))
    by (apply has_record; evaluated).
  exact (proj1 (retained_files_as_asked upload_events new_machine 0 zeros (Some (process_journal uploading))
    key (record_at uploading key) new_machine_fresh uploading_survives Hr)).
Defined.

Lemma release_is_confirmed_witness :
  exists x v after before, manifest (record_at stopped_machine key) = Some x /\ key_of x = key /\
    trace (below stopped_machine) = after ++ FenceUnstarted x :: before /\ fence_reply before x = Ok v /\ cleaned_up v.
Proof.
  assert (Hr : recs (Some (process_journal stopped_machine)) !! key = Some (record_at stopped_machine key))
    by (apply has_record; evaluated).
  assert (Hrl : released (record_at stopped_machine key) = true) by evaluated.
  assert (Hfence : forall before x v, ~ stop_asked x before -> fence_reply before x = Ok v -> cleaned_up v).
  { intros before x v _ [= <-]. split; reflexivity. }
  exact (proj2 (release_is_confirmed (start_events ++ [Call (CStop (Some stop_ownership))]) new_machine 0 zeros
    (Some (process_journal stopped_machine)) key (record_at stopped_machine key)
    Hfence new_machine_fresh stopped_survives Hr Hrl)).
Defined.

(** The sandbox's next generation, in an allocation of its own. *)
Definition next_ownership : Ownership := {|
  o_host_id := o_host_id stop_ownership; o_project_id := o_project_id stop_ownership;
  o_sandbox_id := o_sandbox_id stop_ownership;
  o_allocation_id := to_string (sample_id 14 : AllocationId);
  o_operation_id := to_string (sample_id 15 : OperationId); o_generation := 2; o_supervisor_epoch := 7;
  o_claim_revision := 1; o_claim_expires_unix_ms := NOW + 1000
|}.
Definition next_create : CreateRequest := {|
  c_launch_permit_json := ""; c_ownership := Some next_ownership;
  c_image_digest := c_image_digest create_request; c_resources := c_resources create_request;
  c_allocation_expires_unix_ms := NOW + 5000
|}.
Definition two_events : list event :=
  start_events ++ [Call (CStop (Some stop_ownership)); Call (CCreate next_create)].
Definition two_machine : Machine := runs two_events new_machine.
Definition next_key : string := o_allocation_id next_ownership.

Lemma two_survive :
  retains (crash 0 zeros (state (below two_machine))) (Some (process_journal two_machine)).
Proof. apply retains_now. evaluated. Qed.

Lemma one_live_allocation_per_sandbox_witness :
  length (spawned (trace (below two_machine))) = 2%nat /\
  (released (record_at two_machine key) = true \/ released (record_at two_machine next_key) = true).
Proof.
  split; [evaluated|].
  assert (E1 : recs (Some (process_journal two_machine)) !! key = Some (record_at two_machine key))
    by (apply has_record; evaluated).
  assert (E2 : recs (Some (process_journal two_machine)) !! next_key = Some (record_at two_machine next_key))
    by (apply has_record; evaluated).
  assert (E3 : is_Some (manifest (record_at two_machine key))) by (apply has_some; evaluated).
  assert (E4 : is_Some (manifest (record_at two_machine next_key))) by (apply has_some; evaluated).
  assert (E5 : o_sandbox_id (owner (record_at two_machine key)) =
               o_sandbox_id (owner (record_at two_machine next_key))) by evaluated.
  assert (E6 : key <> next_key) by (by vm_compute).
  exact (one_live_allocation_per_sandbox two_events new_machine 0 zeros (Some (process_journal two_machine))
    key next_key _ _ new_machine_fresh two_survive E1 E2 E6 E5 E3 E4).
Defined.

(** A process, its configuration and its authority. *)
Definition process_config (m : Machine) : Config :=
  match process m with Some (c, _, _) => c | None => host_config 0 end.
Definition process_authority (m : Machine) : option LaunchAuthority.AuthorityFile :=
  match process m with Some (_, a, _) => a | None => None end.
Definition alive (m : Machine) : bool := match process m with Some _ => true | None => false end.
Lemma alive_process m :
  alive m = true -> process m = Some (process_config m, process_authority m, process_journal m).
Proof. unfold alive, process_config, process_authority, process_journal. by destruct (process m) as [[[c a] j]|]. Qed.
Lemma started_process :
  process started = Some (process_config started, process_authority started, process_journal started).
Proof. apply alive_process. evaluated. Qed.

Lemma stop_is_permanent_witness :
  length (List.filter (acts_on (o_allocation_id stop_ownership)) (trace (below stopped_machine))) = 2%nat /\
  List.filter (acts_on (o_allocation_id stop_ownership)) (trace (below (runs later_events stopped_machine))) =
  List.filter (acts_on (o_allocation_id stop_ownership)) (trace (below stopped_machine)).
Proof.
  split; [evaluated|].
  assert (Hok : is_ok (inspect_sync (process_config started) (process_authority started) (Some stop_ownership) true
    {| journal := process_journal started; system := below started |}).2 = true) by evaluated.
  apply is_ok_true in Hok as [obs Hobs].
  exact (stop_is_permanent start_events later_events new_machine _ _
    (process_journal started) stop_ownership obs new_machine_fresh started_process Hobs).
Defined.

Lemma not_alive m : alive m = false -> process m = None.
Proof. unfold alive. by destruct (process m). Qed.

(** The machine crashes while the allocation runs. *)
Definition crash_events : list event := start_events ++ [Crash 0 0 zeros lost lost].
Definition crashed : Machine := runs crash_events new_machine.
Definition rebooted : Machine := run (Boot (host_config 8)) crashed.

Lemma boot_process c m :
  process m = None -> alive (run (Boot c) m) = true ->
  process (run (Boot c) m) =
  Some (c, process_authority (run (Boot c) m), process_journal (run (Boot c) m)).
Proof.
  intros Hm Ha. unfold alive, process_authority, process_journal, run in *. rewrite Hm in *.
  by destruct (open c (below m)) as [s [[a j]|e]].
Qed.
Lemma crashed_process : process crashed = None.
Proof. apply not_alive. evaluated. Qed.
Lemma rebooted_process :
  process rebooted = Some (host_config 8, process_authority rebooted, process_journal rebooted).
Proof. apply boot_process; [exact crashed_process|evaluated]. Qed.

Lemma restart_stops_everything_witness :
  length (List.filter (acts_on key) (trace (below rebooted))) = 2%nat /\
  List.filter (acts_on key) (trace (below (runs [Call (CCreate create_request); Call (CExecute command_request)] rebooted))) =
  List.filter (acts_on key) (trace (below rebooted)).
Proof.
  split; [evaluated|].
  assert (E3 : records (process_journal rebooted) !! key = Some (record_at rebooted key))
    by (apply has_record; evaluated).
  exact (restart_stops_everything crash_events [Call (CCreate create_request); Call (CExecute command_request)]
    new_machine (host_config 8) (process_authority rebooted) (process_journal rebooted) key
    (record_at rebooted key) new_machine_fresh crashed_process rebooted_process E3).
Defined.

(** A cancellation before the command: the operation is fenced, and stays so. *)
Definition cancel_events : list event :=
  [Boot (host_config 7); Call (CCreate create_request);
   Call (CCancelCommand {| ci_ownership := Some (ownership 6 1);
                           ci_command_digest := "00112233445566778899aabbccddeeff" |})].
Definition cancelled : Machine := runs cancel_events new_machine.
Definition fence_record : Command.CommandRecord := Command.fenced "00112233445566778899aabbccddeeff".

(** With nothing in flight, the disk holds one journal. *)
Lemma synced_now m :
  pending (state (below m)) = [] -> poisoned (process_journal m) = false ->
  holds_now (state (below m)) (process_journal m) = true ->
  synced {| journal := process_journal m; system := below m |}.
Proof.
  intros Hp Hj Hd. split; [done|]. cbn. intros o (nm & [k ->] & Hr).
  rewrite Hp, take_nil in Hr. unfold holds_now, names in Hd. rewrite Hp in Hd.
  change (apply_ops ?nm []) with nm in Hr, Hd. apply andb_true_iff in Hd as [_ Hd].
  destruct (synced_names (state (below m)) !! Journal.HOST_JSON) as [i|] eqn:Hi; [|done].
  destruct (inodes (state (below m)) !! i) as [x|] eqn:Hx; [|done]. bools.
  assert (Hb : from_slice (content x) = Some (process_journal m)) by by apply journal_reads_back.
  destruct o as [j|]; unfold reads in Hr; [|congruence]. destruct Hr as (i' & x' & Hi' & Hx' & _ & _ & Hj').
  congruence.
Qed.

Lemma cancelled_synced : synced {| journal := process_journal cancelled; system := below cancelled |}.
Proof. apply synced_now; evaluated. Qed.

(** The command is executed all the same, and the machine crashes and starts again. *)
Definition after_fence : list event :=
  [Call (CExecute command_request); Crash 0 0 zeros lost lost; Boot (host_config 8)].
Definition fenced_machine : Machine := runs after_fence cancelled.
Lemma fence_survives_now :
  retains (crash 0 zeros (state (below fenced_machine))) (Some (process_journal fenced_machine)).
Proof. apply retains_now. evaluated. Qed.

Lemma evidence_is_permanent_witness :
  exists r, records (process_journal fenced_machine) !! key = Some r /\
    (commands r !! to_string (sample_id 6 : OperationId) = Some fence_record \/
     retired_name History.Commands r (to_string (sample_id 6 : OperationId))).
Proof.
  assert (E0 : process cancelled = Some (process_config cancelled, process_authority cancelled,
    process_journal cancelled)) by (apply alive_process; evaluated).
  assert (E1 : records (process_journal cancelled) !! key = Some (record_at cancelled key))
    by (apply has_record; evaluated).
  assert (E2 : commands (record_at cancelled key) !! to_string (sample_id 6 : OperationId) = Some fence_record)
    by evaluated.
  exact (evidence_is_permanent cancel_events after_fence new_machine _ _
    (process_journal cancelled) key (record_at cancelled key) _ fence_record 0 zeros
    (Some (process_journal fenced_machine)) new_machine_fresh E0 cancelled_synced
    E1 E2 eq_refl fence_survives_now).
Defined.

(** The commit is answered, and the machine crashes after a late abort. *)
Definition written_events : list event :=
  start_events ++ [Call (CBeginFile (file_request 1));
    Call (CWriteFile {| fw_request := Some (file_request 1); fw_offset := 0; fw_data := "abc" |})].
Definition written : Machine := runs written_events new_machine.
Abbreviation committing :=
  (file_sync (process_config written) (process_authority written) (file_request 2) Commit
    {| journal := process_journal written; system := below written |}) (only parsing).
Definition answer_or {E A} (default : A) (r : result E A) : A :=
  match r with Ok a => a | Err _ => default end.
Lemma ok_pair {S E A} (p : S * result E A) default :
  is_ok p.2 = true -> p = (p.1, Ok (answer_or default p.2)).
Proof. by destruct p as [s [a|e]]. Qed.
Definition no_answer : FileObservation :=
  file_observation (Files.file_fenced "") (ownership 9 2) false 0 None.
Abbreviation commit_answer := (answer_or no_answer committing.2) (only parsing).
Definition commit_answered : Machine := {|
  process := Some (process_config written, process_authority written, journal committing.1);
  below := system committing.1
|}.
Definition after_commit : list event :=
  [Call (CAbortFile (file_request 3)); Crash 0 0 zeros lost lost; Boot (host_config 8)].
Definition after_answer : Machine := runs after_commit commit_answered.

Lemma upload_answer_is_final_witness :
  fb_state commit_answer = 3 /\ process (runs [Call (CAbortFile (file_request 3)); Crash 0 0 zeros lost lost] commit_answered) = None /\
  exists own r, fr_ownership (file_request 2) = Some own /\
    records (process_journal after_answer) !! o_allocation_id own = Some r /\
    ((exists f, files r !! o_operation_id own = Some f /\ Files.digest f = fb_upload_digest commit_answer /\
        Files.not_started f = fb_not_started commit_answer /\
        from_context <$> Files.context f = fb_context commit_answer /\
        (contains 3 5 (fb_state commit_answer) = true -> Files.state f = fb_state commit_answer)) \/
     retired_name History.Files r (o_operation_id own)).
Proof.
  split; [evaluated|]. split; [apply not_alive; evaluated|].
  assert (E0 : process written = Some (process_config written, process_authority written, process_journal written))
    by (apply alive_process; evaluated).
  assert (Hok : is_ok committing.2 = true) by evaluated.
  pose proof (ok_pair committing no_answer Hok) as Hr.
  assert (Hs : retains (crash 0 zeros (state (below after_answer))) (Some (process_journal after_answer)))
    by (apply retains_now; evaluated).
  exact (upload_answer_is_final written_events after_commit new_machine _ _ (process_journal written)
    (file_request 2) Commit commit_answer committing.1 0 zeros (Some (process_journal after_answer))
    new_machine_fresh E0 Hr Hs).
Defined.

(** ** One operation at a time *)

(** A second sandbox is admitted beside the running one. *)
Definition second_ownership : Ownership := {|
  o_host_id := o_host_id next_ownership; o_project_id := o_project_id next_ownership;
  o_sandbox_id := to_string (sample_id 20 : SandboxId);
  o_allocation_id := o_allocation_id next_ownership; o_operation_id := o_operation_id next_ownership;
  o_generation := 1; o_supervisor_epoch := 7; o_claim_revision := 1; o_claim_expires_unix_ms := NOW + 1000
|}.
Definition second_manifest : Guardian.Manifest :=
  trial_manifest (host_config 7) {| kernel := artifact "/kernel"; rootfs := artifact "/rootfs" |} NOW
    (sample_id 2) (sample_id 20) (sample_id 14) (sample_id 15).
Definition before_admission : Host := {|
  journal := set_records (process_journal started)
    (<[next_key := new_record second_ownership]> (records (process_journal started)));
  system := below started
|}.
Definition admission := admit_start (host_config 7) second_ownership next_create second_manifest before_admission.

Definition typed_now (f : Guardian.Start -> Z) (R : gmap string Record_) : bool :=
  forallb (fun e => 0 <=? reserved f e.2) (map_to_list R).
Lemma typed_charges f R : typed_now f R = true -> charges_typed f R.
Proof.
  intros Ht k r Hr. unfold typed_now in Ht. rewrite forallb_forall in Ht.
  apply elem_of_map_to_list, list_elem_of_In, Ht in Hr. cbn in Hr. lia.
Qed.

Lemma admission_respects_capacity_witness :
  reserved_sum Guardian.vcpu (records (journal admission.1)) = 2 /\
  reserved_sum Guardian.vcpu (records (journal admission.1)) <= cap_vcpu (capacity (host_config 7)).
Proof.
  split; [evaluated|].
  assert (Hok : is_ok admission.2 = true) by evaluated. apply is_ok_true in Hok as [r Hr].
  assert (Ha : admission = (admission.1, Ok r)) by (rewrite <- Hr; by destruct admission).
  unfold admission at 1 in Ha.
  assert (Ht : forall f, f ∈ [Guardian.vcpu; memory_charge; disk_charge] ->
    charges_typed f (records (journal before_admission))).
  { intros f Hf. apply typed_charges.
    rewrite !elem_of_cons, elem_of_nil in Hf. destruct Hf as [->|[->|[->|[]]]]; evaluated. }
  assert (Hm : 0 < Guardian.vcpu (Guardian.start second_manifest) /\
    0 <= Guardian.memory_mib (Guardian.start second_manifest) /\
    0 <= Guardian.disk_mib (Guardian.start second_manifest)) by (split_and!; by vm_compute).
  assert (Hc : cap_vcpu (capacity (host_config 7)) <= U64_MAX /\
    cap_memory_mib (capacity (host_config 7)) <= U64_MAX /\
    cap_disk_mib (capacity (host_config 7)) <= U64_MAX) by (split_and!; by vm_compute).
  destruct Hm as (Hm1 & Hm2 & Hm3), Hc as (Hc1 & Hc2 & Hc3).
  exact (proj1 (admission_respects_capacity (host_config 7) second_ownership next_create second_manifest
    before_admission admission.1 r Ha Hm1 Hm2 Hm3 Hc1 Hc2 Hc3 Ht)).
Defined.

(** The fenced command is retired: while the guest lives, and when it is gone. *)
Definition sample_floor : Retirement := {|
  barrier := {| History.version := 1;
                History.context := {| allocation_id := sample_id 4; generation := 1; boot_id := "boot" |};
                History.domain := History.Commands; History.through := sample_id 7 |};
  revision := 1; requested_through := sample_id 7; completed := false
|}.
Definition before_retirement : Record_ :=
  set_slot (record_at cancelled key) History.Commands (Some sample_floor).
Definition retirement_result := complete sample_floor before_retirement.
Definition fenced_name : string := to_string (sample_id 6 : OperationId).

Lemma complete_retires_exactly_witness :
  commands before_retirement !! fenced_name = Some fence_record /\
  kept retirement_result.1 History.Commands fenced_name = (None, None).
Proof.
  split; [evaluated|].
  assert (Ha : retirement_result = (retirement_result.1, Ok tt)) by evaluated.
  unfold retirement_result at 1 in Ha.
  assert (Hp : parse_operation fenced_name = Ok (sample_id 6 : OperationId)) by evaluated.
  exact (proj1 (complete_retires_exactly _ _ _ Ha) fenced_name (sample_id 6) Hp).
Defined.

Definition before_reclaim : Record_ := set_stopped (record_at cancelled key) true.
Definition no_receipt (m : Guardian.Manifest) : result anyhow Guardian.Receipt :=
  Ok (receipt_of m Guardian.Stopped).
Definition reclaimed := reclaim no_receipt History.Commands (sample_id 7) 1 7 before_reclaim.

Lemma reclaim_retires_exactly_witness :
  commands before_reclaim !! fenced_name = Some fence_record /\
  kept reclaimed.1 History.Commands fenced_name = (None, None).
Proof.
  split; [evaluated|].
  assert (Ha : reclaimed = (reclaimed.1, Ok (sample_id 7 : OperationId))) by evaluated.
  unfold reclaimed at 1 in Ha.
  assert (Hp : parse_operation fenced_name = Ok (sample_id 6 : OperationId)) by evaluated.
  destruct (reclaim_retires_exactly _ _ _ _ _ _ _ _ Ha) as (_ & _ & _ & Hk & _).
  exact (Hk fenced_name (sample_id 6) Hp).
Defined.

(** The running journal, saved once more. *)
Definition saved_again := Journal.save (process_journal started) (below started).
Lemma started_dir_ok : dir_ok (state (below started)).
Proof.
  pose proof (fresh_legal start_events new_machine new_machine_fresh) as Hm.
  exact (si_ok _ _ (machine_sys _ _ Hm)).
Qed.

Lemma journal_save_atomic_and_durable_witness :
  retains (crash 0 zeros (state saved_again.1)) (Some (process_journal started)).
Proof.
  assert (Hp : poisoned (process_journal started) = false) by evaluated.
  assert (Hr : is_ok saved_again.2.2 = true) by evaluated. apply is_ok_true in Hr as [[] Hr].
  assert (Ha : saved_again = (saved_again.1, (saved_again.2.1, Ok tt)))
    by (rewrite <- Hr; by destruct saved_again as [? []]).
  unfold saved_again at 1 in Ha.
  destruct (journal_save_atomic_and_durable _ _ _ _ _ 0 zeros started_dir_ok Hp Ha) as (_ & Hok & _).
  exact (proj1 (proj2 (Hok eq_refl))).
Defined.
