(* ===== verification/GuestEnv.v ===== *)
(** * What the guest agent runs on

    The agent's state directory, its control groups, its clock and its launcher. A restart
    of the agent finds the files as they were, since the agent refuses to open under
    another boot of the guest; what may go wrong is that a call fails or that the agent is
    killed between two calls, which [fault] decides, and that anything outside answers as it
    likes. As in [HostEnv], the log of the calls is part of the state, and [GuestEnv]
    answers the next call from it. *)

From S2P Require Import Prelude Ext Ids.

(** What a path of the state directory names. [Special] is what is neither a regular file
    nor a directory: a symbolic link, a pipe, a device. *)
Inductive node : Type := File (content : bytes) | Directory | Special.
#[export] Instance node_eq_dec : EqDecision node.
Proof. solve_decision. Defined.

Inductive action : Type :=
| Syscall
| ReadClock
| GenerateId
| ReadEvents (group : string)
| ReadAt
| Query
| Launch (id : OperationId)
| Publish (id : OperationId) (path : string) (content : bytes).   (** a staged file got its name in the workspace *)

(** A call that does not succeed: it fails, or the agent is killed; a write may have written
    some bytes by then. *)
Record Fault : Type := { kills : bool; written : nat }.

Inductive failure : Type := Killed | Failed (message : anyhow).

Class GuestEnv := {
  fault : list action -> option Fault;
  clock_answer : list action -> Z;
  generated : list action -> OperationId;
  (** [/proc/sys/kernel/random/boot_id], trimmed *)
  boot_answer : list action -> string;
  (** [fs::canonicalize(&config.cgroup_root)] *)
  canonical_groups : list action -> string -> string;
  (** whether [cgroup.procs] of the root is empty, and the launcher is a file *)
  groups_idle : list action -> bool;
  launcher_is_file : list action -> bool;
  lock_free : list action -> bool;
  (** whether [cgroup.events] of a group says [populated 0] *)
  unpopulated : list action -> string -> bool;
  (** whether the launcher could be spawned *)
  launched : list action -> OperationId -> bool;
  (** how many bytes [read_at] returns of those it could *)
  read_count : list action -> nat -> nat;
  (** the order in which [read_dir] lists a directory *)
  listing : list action -> list string -> list string;
  listing_perm : forall t l, listing t l ≡ₚ l;
  read_count_le : forall t n, (read_count t n <= n)%nat;
}.

Record Guest : Type := {
  files : gmap string node;   (** the state directory *)
  groups : gset string;       (** the groups under the control group root, by name *)
  trace : list action;        (** the calls so far, the last one first *)
}.
Definition set_files (g : Guest) (m : gmap string node) : Guest :=
  {| files := m; groups := groups g; trace := trace g |}.
Definition set_groups (g : Guest) (s : gset string) : Guest :=
  {| files := files g; groups := s; trace := trace g |}.
Definition record (g : Guest) (a : action) : Guest :=
  {| files := files g; groups := groups g; trace := a :: trace g |}.

Abbreviation G A := (ST Guest failure A) (only parsing).

(** An error that the code handles; nobody handles being killed. *)
Definition attempt {S A} (m : ST S failure A) : ST S failure (result anyhow A) := fun s =>
  match m s with
  | (s', Ok a) => (s', Ok (Ok a))
  | (s', Err (Failed e)) => (s', Ok (Err e))
  | (s', Err Killed) => (s', Err Killed)
  end.
Definition checked {S A} (r : result anyhow A) : ST S failure A := lift (map_err Failed r).

Section calls.
Context `{GuestEnv}.

Definition broken (f : Fault) : failure := if kills f then Killed else Failed "i/o error".

(** A call of the file system: it fails, or does [f]. *)
Definition syscall {A} (f : Guest -> result anyhow (Guest * A)) : G A := fun g =>
  match fault (trace g) with
  | Some e => (record g Syscall, Err (broken e))
  | None =>
      match f (record g Syscall) with
      | Ok (g', a) => (g', Ok a)
      | Err e => (record g Syscall, Err (Failed e))
      end
  end.
Definition ask {A} (a : action) (answer : list action -> A) : G A := fun g =>
  (record g a, Ok (answer (trace g))).

(** Calls whose effect is not part of the state: [fsync], directories and files that only
    exist to be there, settings of a control group. *)
Definition unseen : G unit := syscall (fun g => Ok (g, tt)).

Definition now_ms : G Z := ask ReadClock clock_answer.
Definition generate : G OperationId := ask GenerateId generated.

(** [OpenOptions::new().write(true).create_new(true).open(name)] *)
Definition create_new (name : string) : G unit := syscall (fun g =>
  match files g !! name with
  | Some _ => Err "file exists"
  | None => Ok (set_files g (<[name := File ""]> (files g)), tt)
  end).

Fixpoint prefix (n : nat) (s : bytes) : bytes :=
  match n, s with
  | S n, String c s => String c (prefix n s)
  | _, _ => ""
  end.

Fixpoint drop_bytes (n : nat) (s : bytes) : bytes :=
  match n, s with S n, String _ s => drop_bytes n s | _, _ => s end.

(** Appending to a file the agent holds open; the file may have lost its name. *)
Definition append (name : string) (b : bytes) (g : Guest) : Guest :=
  match files g !! name with
  | Some (File c) => set_files g (<[name := File (c +:+ b)]> (files g))
  | _ => g
  end.
Definition write_all (name : string) (b : bytes) : G unit := fun g =>
  match fault (trace g) with
  | Some e => (append name (prefix (written e) b) (record g Syscall), Err (broken e))
  | None => (append name b (record g Syscall), Ok tt)
  end.

Definition rename (old new : string) : G unit := syscall (fun g =>
  match files g !! old, files g !! new with
  | None, _ => Err "not found"
  | Some _, Some Directory => Err "is a directory"
  | Some n, _ => Ok (set_files g (<[new := n]> (delete old (files g))), tt)
  end).

Definition remove_file (name : string) : G unit := syscall (fun g =>
  match files g !! name with
  | None => Err "not found"
  | Some Directory => Err "is a directory"
  | Some _ => Ok (set_files g (delete name (files g)), tt)
  end).

(** [fs::read_dir(dir)?.take(limit).collect()] *)
Definition read_dir (limit : nat) : G (list string) := syscall (fun g =>
  Ok (g, take limit (listing (trace g) (map_to_list (files g)).*1))).

(** [fs::symlink_metadata(name)?.is_dir()] *)
Definition is_dir (name : string) : G bool := syscall (fun g =>
  match files g !! name with
  | None => Err "not found"
  | Some n => Ok (g, bool_decide (n = Directory))
  end).

(** [read_json]: at most 16384 bytes. *)
Definition MAX_JSON : Z := 16384.
Definition read_json {A} `{Serde A} (name : string) : G A :=
  bytes ← syscall (fun g =>
    match files g !! name with
    | Some (File c) => Ok (g, c)
    | Some _ => Err "not a file"
    | None => Err "not found"
    end);
  _ ← checked (ensure (strlen bytes <=? MAX_JSON) "receipt metadata is too large");
  checked (ok_or (from_slice bytes) "invalid receipt metadata").

(** [write_json], through a staging file of a fresh name. *)
Definition write_json `{UuidLib} {A} `{Serde A} (name : string) (value : A) : G unit :=
  id ← generate;
  let temp := to_string id +:+ ".tmp" in
  _ ← create_new temp;
  bytes ← checked (ok_or (to_vec value) "serde_json");
  _ ← write_all temp bytes;
  _ ← unseen;
  _ ← rename temp name;
  unseen.

(** *** Control groups *)

Definition absent (group : string) : G bool := syscall (fun g => Ok (g, bool_decide (group ∉ groups g))).
Definition create_group (group : string) : G unit := syscall (fun g =>
  if decide (group ∈ groups g) then Err "file exists"
  else Ok (set_groups g ({[group]} ∪ groups g), tt)).
(** [remove_empty]: the group is gone when it and its descendants could be removed. *)
Definition remove_group (group : string) : G unit := syscall (fun g =>
  Ok (set_groups g (groups g ∖ {[group]}), tt)).

(** Three seconds, at 20 milliseconds a round. *)
Definition CLEANUP_ROUNDS : nat := 151.
Fixpoint await_empty (n : nat) (group : string) : G unit :=
  match n with
  | O => checked (Err "process tree cleanup unconfirmed")
  | S n =>
      _ ← unseen;
      empty ← ask (ReadEvents group) (fun t => unpopulated t group);
      if empty : bool then mret tt else await_empty n group
  end.

(** [cleanup] *)
Definition cleanup (group : string) : G unit :=
  gone ← absent group;
  if gone : bool then mret tt else
  _ ← unseen;
  _ ← await_empty CLEANUP_ROUNDS group;
  remove_group group.
End calls.
#[global] Arguments syscall : simpl never.
#[global] Arguments ask : simpl never.
#[global] Arguments attempt : simpl never.
#[global] Arguments checked : simpl never.
#[global] Arguments write_json : simpl never.
#[global] Arguments read_json : simpl never.
#[global] Arguments cleanup : simpl never.
