(* ===== verification/Runner.v ===== *)
(** * The guest agent's command runner (crates/sandbox-guest/src/runner.rs)

    A handler that holds the registry's lock from its first to its last access is one step.
    The task that executes a command runs beside the handlers, and is cut into the steps
    between which they may come: its start, what a capture reads and what it publishes, the
    end of its wait, the end of its captures, its cleanup and its commit. *)

From S2P Require Import Prelude Ext Ids GuestModel GuestWire GuestEnv.
From S2P Require History.

Record Config : Type := { cgroup_root : string; launcher : string; context : Context }.

Record Registry : Type := {
  barrier : option History.Barrier;
  receipts : gmap OperationId Receipt;
  active : option (OperationId * bool);   (** the command, and what its watch channel holds *)
  failed : bool;
  closed : bool;
}.

Record ExitReport : Type := { x_version : Z; x_exit_code : option Z; x_signal : option Z }.
Record Envelope : Type := { request_ : Execute; cgroup_ : string; report_ : string }.

(** Where a capture is: it waits for input, it has written what it will publish, or it
    ended. *)
Inductive progress : Type := Reading | Unpublished | Finished | Broken.
#[export] Instance progress_eq_dec : EqDecision progress.
Proof. solve_decision. Defined.
Record Capture : Type := { counted : Output; progress_ : progress }.

Definition Outcome : Type := State * option ExitReport * Output * Output.

(** Where the task of a command is. *)
Inductive Phase : Type :=
| Starting
| Running
| Draining (state : State) (cleaned : result anyhow unit)
| Returned (outcome : result anyhow Outcome)
| Cleaned (outcome : result anyhow Outcome) (cleaned : bool).

Record Task : Type := {
  request : Execute; phase : Phase;
  budget : Z;                           (** the counter that both captures share *)
  out : Capture; err : Capture;
}.

Record Agent : Type := { config : Config; registry : Registry; task : option Task; guest : Guest }.
Abbreviation R A := (ST Agent failure A) (only parsing).

(** *** Assignments *)

Definition set_barrier (r : Registry) v : Registry :=
  {| barrier := v; receipts := receipts r; active := active r; failed := failed r; closed := closed r |}.
Definition set_receipts (r : Registry) v : Registry :=
  {| barrier := barrier r; receipts := v; active := active r; failed := failed r; closed := closed r |}.
Definition set_active (r : Registry) v : Registry :=
  {| barrier := barrier r; receipts := receipts r; active := v; failed := failed r; closed := closed r |}.
Definition set_failed (r : Registry) v : Registry :=
  {| barrier := barrier r; receipts := receipts r; active := active r; failed := v; closed := closed r |}.
Definition set_closed (r : Registry) v : Registry :=
  {| barrier := barrier r; receipts := receipts r; active := active r; failed := failed r; closed := v |}.

Definition set_state (r : Receipt) s (code signal : option Z) (reason : option string) : Receipt := {|
  r_version := r_version r; r_context := r_context r; r_operation_id := r_operation_id r;
  r_digest := r_digest r; r_state := s; r_deadline_unix_ms := r_deadline_unix_ms r;
  r_output_limit := r_output_limit r; r_cancel_requested := r_cancel_requested r;
  r_cleanup_confirmed := r_cleanup_confirmed r; r_exit_code := code; r_signal := signal;
  r_stdout := r_stdout r; r_stderr := r_stderr r; r_reason := reason
|}.
Definition set_cleanup (r : Receipt) v : Receipt := {|
  r_version := r_version r; r_context := r_context r; r_operation_id := r_operation_id r;
  r_digest := r_digest r; r_state := r_state r; r_deadline_unix_ms := r_deadline_unix_ms r;
  r_output_limit := r_output_limit r; r_cancel_requested := r_cancel_requested r;
  r_cleanup_confirmed := v; r_exit_code := r_exit_code r; r_signal := r_signal r;
  r_stdout := r_stdout r; r_stderr := r_stderr r; r_reason := r_reason r
|}.
Definition set_cancel (r : Receipt) : Receipt := {|
  r_version := r_version r; r_context := r_context r; r_operation_id := r_operation_id r;
  r_digest := r_digest r; r_state := r_state r; r_deadline_unix_ms := r_deadline_unix_ms r;
  r_output_limit := r_output_limit r; r_cancel_requested := true;
  r_cleanup_confirmed := r_cleanup_confirmed r; r_exit_code := r_exit_code r; r_signal := r_signal r;
  r_stdout := r_stdout r; r_stderr := r_stderr r; r_reason := r_reason r
|}.
Definition set_output (r : Receipt) (o e : Output) : Receipt := {|
  r_version := r_version r; r_context := r_context r; r_operation_id := r_operation_id r;
  r_digest := r_digest r; r_state := r_state r; r_deadline_unix_ms := r_deadline_unix_ms r;
  r_output_limit := r_output_limit r; r_cancel_requested := r_cancel_requested r;
  r_cleanup_confirmed := r_cleanup_confirmed r; r_exit_code := r_exit_code r; r_signal := r_signal r;
  r_stdout := o; r_stderr := e; r_reason := r_reason r
|}.

Definition set_phase (t : Task) (p : Phase) : Task :=
  {| request := request t; phase := p; budget := budget t; out := out t; err := err t |}.

Definition on_guest {A} (m : ST Guest failure A) : R A := fun a =>
  let '(g, r) := m (guest a) in
  ({| config := config a; registry := registry a; task := task a; guest := g |}, r).
Definition update (f : Registry -> Registry) : R unit := modify (fun a =>
  {| config := config a; registry := f (registry a); task := task a; guest := guest a |}).
Definition set_task (t : option Task) : R unit := modify (fun a =>
  {| config := config a; registry := registry a; task := t; guest := guest a |}).
Definition put_receipt (id : OperationId) (r : Receipt) : R unit :=
  update (fun g => set_receipts g (<[id := r]> (receipts g))).
Definition registry_ : R Registry := a ← get; mret (registry a).
Definition config_ : R Config := a ← get; mret (config a).

(** *** Names *)

Definition LOCK : string := "lock".
Definition CONTEXT_JSON : string := "context.json".

(** [Path::extension] of a file name: what follows its last dot, which is not its first byte. *)
Definition rsplit_dot : string -> option (string * string) := rsplit_once 46.
Definition extension (name : string) : option string :=
  match rsplit_dot name with
  | Some (String _ _, e) => Some e
  | _ => None
  end.

(** [name.strip_suffix(suffix)] *)
Fixpoint strip_suffix (suffix s : string) : option string :=
  if decide (s = suffix) then Some "" else
  match s with
  | EmptyString => None
  | String c s' => String c <$> strip_suffix suffix s'
  end.

Definition MAX_ENTRIES : nat := 642.   (* MAX_RECORDS * 5 + 2 *)

Section runner.
Context `{GuestEnv, UuidLib, Sha256, Serde Receipt, Serde History.Binding, Serde ExitReport,
          Serde Envelope, Serde Execute}.

Definition receipt_path (id : OperationId) : string := to_string id +:+ ".json".
Definition group (id : OperationId) : string := to_string id.

(** ** History *)

(** [history_entries] *)
Definition history_entries : G (list string) :=
  entries ← read_dir (MAX_ENTRIES + 1);
  _ ← checked (ensure (length entries <=? MAX_ENTRIES)%nat "too many retained state files");
  mret entries.

Definition SUFFIXES : list string := [".json"; ".stdout"; ".stderr"; ".exit"; ".tmp"].
Fixpoint find_stem (suffixes : list string) (name : string) : option string :=
  match suffixes with
  | [] => None
  | s :: suffixes =>
      match strip_suffix s name with Some stem => Some stem | None => find_stem suffixes name end
  end.

(** [history_id] *)
Definition history_id (name : string) : result anyhow (option OperationId) :=
  if bool_decide (name = LOCK) || bool_decide (name = CONTEXT_JSON) then Ok None else
  stem ← ok_or (find_stem SUFFIXES name) "unexpected command state entry";
  id ← map_err (fun _ => "malformed operation identity") (parse KOperation stem);
  Ok (Some id).
Definition covered (b : History.Barrier) (id : option OperationId) : bool :=
  is_some_and (History.covers b) id.

(** [validate_history_entries] *)
Fixpoint validate_history_entries (entries : list string) (b : History.Barrier) : G unit :=
  match entries with
  | [] => mret tt
  | name :: entries =>
      id ← checked (history_id name);
      _ ← match id with
          | Some id =>
              if History.covers b id then
                gone ← absent (group id);
                _ ← checked (ensure gone "retired command cgroup remains");
                d ← is_dir name;
                checked (ensure (negb d) "unexpected directory in command history")
              else mret tt
          | None => mret tt
          end;
      validate_history_entries entries b
  end.

(** The unlinks of [prune_history]: a name that is gone already is no error. *)
Definition remove_if_present (name : string) : G unit := syscall (fun g =>
  match files g !! name with
  | None => Ok (g, tt)
  | Some Directory => Err "is a directory"
  | Some _ => Ok (set_files g (delete name (files g)), tt)
  end).
Fixpoint unlink_covered (entries : list string) (b : History.Barrier) : G unit :=
  match entries with
  | [] => mret tt
  | name :: entries =>
      id ← checked (history_id name);
      _ ← (if covered b id then remove_if_present name else mret tt);
      unlink_covered entries b
  end.
(** [prune_history] *)
Definition prune_history (entries : list string) (b : History.Barrier) : G unit :=
  _ ← validate_history_entries entries b;
  _ ← unlink_covered entries b;
  unseen.

(** ** Opening *)

(** A receipt of an earlier agent whose command may still run. *)
Definition interrupted (r : Receipt) : bool := negb (terminal (r_state r)) || negb (r_cleanup_confirmed r).
Definition recovered (r : Receipt) : Receipt :=
  set_state (set_cleanup r true) Unknown None None (Some "agent_restart_after_launch_intent").

(** One entry of the state directory: the loop body of [Runner::open]. *)
Definition recover_entry (c : Config) (name : string) (kept : Z * gmap OperationId Receipt)
    : G (Z * gmap OperationId Receipt) :=
  if bool_decide (extension name = Some "tmp") then _ ← remove_file name; mret kept else
  if bool_decide (name = CONTEXT_JSON) || negb (bool_decide (extension name = Some "json")) then mret kept else
  receipt ← read_json name;
  _ ← checked (ensure ((r_version receipt =? 1) && bool_decide (r_context receipt = context c)
                       && bool_decide (name = receipt_path (r_operation_id receipt)))
                 "invalid receipt ownership");
  _ ← checked (receipt_validate receipt);
  reserved ← checked (ok_or (u64_checked_add kept.1 (r_output_limit receipt)) "output reservation overflow");
  _ ← checked (ensure ((reserved <=? MAX_RESERVED_OUTPUT) && (Z.of_nat (size kept.2) <? MAX_RECORDS))
                 "retention capacity exceeded");
  receipt ← (if interrupted receipt then
               _ ← cleanup (group (r_operation_id receipt));
               _ ← write_json name (recovered receipt);
               mret (recovered receipt)
             else mret receipt);
  _ ← checked (ensure (negb (is_some (kept.2 !! r_operation_id receipt))) "duplicate receipt");
  mret (reserved, <[r_operation_id receipt := receipt]> kept.2).
Fixpoint recover (c : Config) (entries : list string) (kept : Z * gmap OperationId Receipt)
    : G (Z * gmap OperationId Receipt) :=
  match entries with
  | [] => mret kept
  | name :: entries => kept ← recover_entry c name kept; recover c entries kept
  end.

(** [context_path.exists()]: an error counts as absence. *)
Definition exists_ (name : string) : G bool :=
  r ← attempt (syscall (fun g => Ok (g, is_some (files g !! name))));
  mret (match r with Ok b => b | Err _ => false end).

Definition open_lock : G unit := syscall (fun g =>
  match files g !! LOCK with
  | None => Ok (set_files g (<[LOCK := File ""]> (files g)), tt)
  | Some Directory => Err "is a directory"
  | Some _ => Ok (g, tt)
  end).

(** The context of the state directory, read or written: what it retires. *)
Definition open_context (c : Config) : G (option History.Barrier) :=
  found ← exists_ CONTEXT_JSON;
  if found : bool then
    binding ← read_json CONTEXT_JSON;
    checked (History.binding_validate binding (context c) History.Commands)
  else
    n ← syscall (fun g => Ok (g, size (files g)));
    _ ← checked (ensure (n =? 1)%nat "state directory has no context");
    _ ← write_json CONTEXT_JSON (History.Legacy (context c));
    mret None.

(** [Runner::open] *)
Definition open (c : Config) : G (Config * Registry) :=
  _ ← checked (ensure (0 <? generation (context c)) "invalid allocation generation");
  _ ← unseen;
  boot ← ask Query boot_answer;
  _ ← checked (ensure (bool_decide (boot_id (context c) = boot)) "guest boot identity mismatch");
  _ ← unseen;
  root ← ask Query (fun t => canonical_groups t (cgroup_root c));
  _ ← checked (ensure (String.prefix "/sys/fs/cgroup/" root) "a dedicated guest cgroup subtree is required");
  _ ← unseen;
  idle ← ask Query groups_idle;
  _ ← checked (ensure idle "agent must remain outside workload cgroup");
  is_file ← ask Query launcher_is_file;
  _ ← checked (ensure (starts_with_slash (launcher c) && is_file) "launcher must be an absolute file path");
  _ ← unseen;
  _ ← unseen;
  _ ← open_lock;
  free ← ask Query lock_free;
  _ ← checked (ensure free "guest state is already owned");
  floor ← open_context c;
  _ ← match floor with
      | Some b => entries ← history_entries; prune_history entries b
      | None => mret tt
      end;
  entries ← history_entries;
  kept ← recover c entries (0, ∅);
  orphans ← syscall (fun g => Ok (g, size (groups g)));
  _ ← checked (ensure (orphans =? 0)%nat "unreconciled workload cgroup remains");
  mret ({| cgroup_root := root; launcher := launcher c; context := context c |},
        {| barrier := floor; receipts := kept.2; active := None; failed := false; closed := false |}).

(** ** Requests *)

(** What a receipt needs for its command to be retired. *)
Definition resolved (r : Receipt) : bool :=
  terminal (r_state r) && negb (bool_decide (r_state r = Unknown)) && r_cleanup_confirmed r.

(** Retirement above the floor: a failure after the barrier is being written is final. *)
Definition fail_registry {A} (e : anyhow) : R A :=
  _ ← update (fun r => set_failed r true); checked (Err e).
Definition retire_above (requested : History.Barrier) (r : Registry) : R History.Barrier :=
  _ ← checked (ensure (is_none_or (fun x : OperationId * bool => negb (History.covers requested x.1)) (active r))
                 "active command cannot be retired");
  _ ← checked (ensure (forallb (fun e : OperationId * Receipt => resolved e.2)
                         (List.filter (fun e : OperationId * Receipt => History.covers requested (r_operation_id e.2))
                            (map_to_list (receipts r))))
                 "unresolved command history cannot be retired");
  entries ← on_guest history_entries;
  _ ← on_guest (validate_history_entries entries requested);
  written ← attempt (on_guest (write_json CONTEXT_JSON (History.Retired requested)));
  match written with
  | Err e => fail_registry e
  | Ok _ =>
      _ ← update (fun r => set_barrier r (Some requested));
      pruned ← attempt (on_guest (prune_history entries requested));
      match pruned with
      | Err e => fail_registry e
      | Ok _ =>
          _ ← update (fun r => set_receipts r
                 (base.filter (fun e : OperationId * Receipt => History.covers requested e.1 = false) (receipts r)));
          mret requested
      end
  end.

(** [Runner::retire_history] *)
Definition retire_history (requested : History.Barrier) : R History.Barrier :=
  c ← config_;
  _ ← checked (History.barrier_validate requested (context c) History.Commands);
  r ← registry_;
  _ ← checked (ensure (negb (failed r) && negb (closed r)) "runner requires recovery or is shutting down");
  match barrier r with
  | Some current =>
      if id_leb (History.through requested) (History.through current) then mret current
      else retire_above requested r
  | None => retire_above requested r
  end.

(** What [start] retains of a request before anything runs. *)
Definition launch_intent (c : Config) (e : Execute) (d : bytes) : Receipt := {|
  r_version := 1; r_context := context c; r_operation_id := e_operation_id e; r_digest := d;
  r_state := LaunchIntent; r_deadline_unix_ms := e_deadline_unix_ms e;
  r_output_limit := e_output_limit e; r_cancel_requested := false; r_cleanup_confirmed := false;
  r_exit_code := None; r_signal := None; r_stdout := output_default; r_stderr := output_default;
  r_reason := None
|}.
Definition reserved (r : Registry) : Z := sum_by (fun e => r_output_limit e.2) (map_to_list (receipts r)).
Definition new_capture : Capture := {| counted := output_default; progress_ := Reading |}.
Definition new_task (e : Execute) : Task :=
  {| request := e; phase := Starting; budget := e_output_limit e; out := new_capture; err := new_capture |}.

(** [Runner::start] *)
Definition start (e : Execute) : R Receipt :=
  _ ← checked (execute_validate e);
  d ← checked (execute_digest e);
  r ← registry_;
  _ ← checked (ensure (negb (is_some_and (fun b => History.covers b (e_operation_id e)) (barrier r)))
                 "command history retired");
  match receipts r !! e_operation_id e with
  | Some existing =>
      _ ← checked (ensure (bool_decide (r_digest existing = d)) "operation payload conflict");
      mret existing
  | None =>
      _ ← checked (ensure (negb (closed r)) "runner is shutting down");
      _ ← checked (ensure (negb (failed r)) "runner requires host recovery");
      _ ← checked (ensure (is_none (active r)) "another command is active");
      now ← on_guest now_ms;
      remaining ← checked (ok_or (i64_checked_sub (e_deadline_unix_ms e) now) "invalid deadline");
      _ ← checked (ensure ((0 <? remaining) && (remaining <=? 6 * 60 * 60 * 1000))
                     "deadline must be in the next six hours");
      _ ← checked (ensure (Z.of_nat (size (receipts r)) <? MAX_RECORDS) "receipt capacity exhausted");
      _ ← checked (ensure (reserved r + e_output_limit e <=? MAX_RESERVED_OUTPUT)
                     "output reservation capacity exhausted");
      c ← config_;
      let receipt := launch_intent c e d in
      _ ← on_guest (write_json (receipt_path (e_operation_id e)) receipt);
      _ ← put_receipt (e_operation_id e) receipt;
      _ ← update (fun r => set_active r (Some (e_operation_id e, false)));
      _ ← set_task (Some (new_task e));
      mret receipt
  end.

(** [Runner::inspect] *)
Definition inspect (id : OperationId) : R (option Receipt) := r ← registry_; mret (receipts r !! id).

(** [Runner::cancel] *)
Definition cancel (id : OperationId) : R Receipt :=
  r ← registry_;
  receipt ← checked (ok_or (receipts r !! id) "unknown operation");
  if terminal (r_state receipt) then mret receipt else
  let receipt := set_cancel receipt in
  _ ← on_guest (write_json (receipt_path id) receipt);
  _ ← put_receipt id receipt;
  match active r with
  | Some (current, _) =>
      _ ← checked (ensure (bool_decide (current = id)) "operation is not owned");
      _ ← update (fun r => set_active r (Some (current, true)));
      mret receipt
  | None => mret receipt
  end.

(** ** The task of a command *)

Definition name_of (id : OperationId) (suffix : string) : string := to_string id +:+ suffix.

(** [Runner::execute] up to the spawned launcher, or its early outcome. *)
Definition begin_execution (e : Execute) : R (option Outcome) :=
  r ← registry_;
  if is_some_and (fun x : OperationId * bool => x.2) (active r)
  then mret (Some (Cancelled, None, output_default, output_default)) else
  now ← on_guest now_ms;
  if e_deadline_unix_ms e <=? now then mret (Some (TimedOut, None, output_default, output_default)) else
  let id := e_operation_id e in
  c ← config_;
  let cgroup := cgroup_root c +:+ "/" +:+ group id in
  _ ← on_guest (create_group (group id));
  _ ← on_guest unseen;
  _ ← on_guest (create_new (name_of id ".stdout"));
  _ ← on_guest (create_new (name_of id ".stderr"));
  _ ← checked (ok_or (to_vec {| request_ := e; cgroup_ := cgroup; report_ := name_of id ".exit" |}) "serde_json");
  spawned ← on_guest (ask (Launch id) (fun t => launched t id));
  _ ← checked (ensure spawned "launcher not spawned");
  _ ← on_guest now_ms;
  mret None.

(** The task's first step. *)
Definition begin_task (t : Task) : R unit :=
  outcome ← attempt (begin_execution (request t));
  set_task (Some (set_phase t (match outcome with
    | Ok None => Running
    | Ok (Some o) => Returned (Ok o)
    | Err e => Returned (Err e)
    end))).

(** Why the wait of [execute] ends. *)
Inductive Stop : Type := CancelSignal | Deadline | WallClock | CaptureFailure | ChildExit (success : bool).

Definition stopped_state (s : Stop) : State :=
  match s with
  | CancelSignal => Cancelled
  | Deadline | WallClock => TimedOut
  | CaptureFailure => Unknown
  | ChildExit success => if success then Exited else Unknown
  end.

(** The end of the wait, and the cleanup that follows it. The monotonic deadline, the pipes
    and the child may end it at any time; the channel and the wall clock are consulted. *)
Definition stop_waiting (t : Task) (s : Stop) : R unit :=
  r ← registry_;
  now ← on_guest now_ms;
  let holds := match s with
    | CancelSignal => is_some_and (fun x : OperationId * bool => x.2) (active r)
    | WallClock => e_deadline_unix_ms (request t) <=? now
    | Deadline | CaptureFailure | ChildExit _ => true
    end in
  if holds then
    cleaned ← attempt (on_guest (cleanup (group (e_operation_id (request t)))));
    set_task (Some (set_phase t (Draining (stopped_state s) cleaned)))
  else mret tt.

(** The end of [execute]: both captures must have finished within two seconds, and the
    launcher's report must be there when the command exited. *)
Definition finish_execution (t : Task) (state : State) (cleaned : result anyhow unit) : R Outcome :=
  _ ← checked (ensure (bool_decide (progress_ (out t) = Finished) && bool_decide (progress_ (err t) = Finished))
                 "output completion unconfirmed");
  _ ← checked cleaned;
  report ← (if bool_decide (state = Exited) then
              result ← on_guest (read_json (name_of (e_operation_id (request t)) ".exit"));
              _ ← checked (ensure ((x_version result =? 1)
                                   && xorb (is_some (x_exit_code result)) (is_some (x_signal result)))
                             "invalid command exit report");
              mret (Some result)
            else mret None);
  mret (state, report, counted (out t), counted (err t)).
Definition finish_task (t : Task) (state : State) (cleaned : result anyhow unit) : R unit :=
  outcome ← attempt (finish_execution t state cleaned);
  set_task (Some (set_phase t (Returned outcome))).

(** [Runner::run] after [execute]: the cleanup, then the commit. *)
Definition clean_task (t : Task) (outcome : result anyhow Outcome) : R unit :=
  cleaned ← attempt (on_guest (cleanup (group (e_operation_id (request t)))));
  set_task (Some (set_phase t (Cleaned outcome (is_ok cleaned)))).

Definition concluded (receipt : Receipt) (outcome : result anyhow Outcome) (cleaned : bool) : Receipt :=
  let receipt := set_cleanup receipt cleaned in
  match outcome with
  | Ok (state, report, stdout, stderr) =>
      if cleaned then
        set_output (set_state receipt state (r ← report; x_exit_code r) (r ← report; x_signal r)
                      (r_reason receipt)) stdout stderr
      else set_state receipt Unknown (r_exit_code receipt) (r_signal receipt)
             (Some "execution_or_cleanup_unconfirmed")
  | Err _ => set_state receipt Unknown (r_exit_code receipt) (r_signal receipt)
               (Some "execution_or_cleanup_unconfirmed")
  end.
Definition commit_task (t : Task) (outcome : result anyhow Outcome) (cleaned : bool) : R unit :=
  let id := e_operation_id (request t) in
  r ← registry_;
  _ ← set_task None;
  match receipts r !! id with
  | None => update (fun r => set_failed r true)
  | Some receipt =>
      let receipt := concluded receipt outcome cleaned in
      _ ← put_receipt id receipt;
      committed ← attempt (on_guest (write_json (receipt_path id) receipt));
      _ ← match committed with
          | Ok _ => mret tt
          | Err _ =>
              _ ← put_receipt id (set_state receipt Unknown None None (Some "receipt_commit_unconfirmed"));
              update (fun r => set_failed r true)
          end;
      _ ← (if cleaned then mret tt else update (fun r => set_failed r true));
      update (fun r => set_active r None)
  end.

(** *** Captures *)

Definition capture_of (t : Task) (stdout : bool) : Capture := if stdout then out t else err t.
Definition set_capture (t : Task) (stdout : bool) (b : Z) (c : Capture) : Task :=
  if stdout then {| request := request t; phase := phase t; budget := b; out := c; err := err t |}
  else {| request := request t; phase := phase t; budget := b; out := out t; err := c |}.
Definition stream_suffix (stdout : bool) : string := if stdout then ".stdout" else ".stderr".

(** [capture] reads at most 8192 bytes at a time; none at the end of the stream. *)
Definition BUFFER : Z := 8192.
Definition capture_read (t : Task) (stdout : bool) (bytes : bytes) : R unit :=
  let c := capture_of t stdout in
  let id := e_operation_id (request t) in
  let count := strlen bytes in
  if count =? 0 then
    synced ← attempt (on_guest unseen);
    set_task (Some (set_capture t stdout (budget t)
      {| counted := counted c; progress_ := if is_ok synced then Finished else Broken |}))
  else
    let before := budget t in
    let keep := Z.min count before in
    let b := u64_saturating_sub before count in
    written ← attempt (on_guest (write_all (name_of id (stream_suffix stdout)) (prefix (Z.to_nat keep) bytes)));
    set_task (Some (set_capture t stdout b match written with
      | Ok _ => {| counted := {| seen := u64_saturating_add (seen (counted c)) count;
                                 stored := stored (counted c) + keep;
                                 truncated := truncated (counted c) || (keep <? count) |};
                   progress_ := Unpublished |}
      | Err _ => {| counted := counted c; progress_ := Broken |}
      end)).
(** What was written is published under the registry's lock. *)
Definition capture_publish (t : Task) (stdout : bool) : R unit :=
  let c := capture_of t stdout in
  let id := e_operation_id (request t) in
  r ← registry_;
  match receipts r !! id with
  | None => set_task (Some (set_capture t stdout (budget t) {| counted := counted c; progress_ := Broken |}))
  | Some receipt =>
      _ ← put_receipt id (if stdout then set_output receipt (counted c) (r_stderr receipt)
                          else set_output receipt (r_stdout receipt) (counted c));
      set_task (Some (set_capture t stdout (budget t) {| counted := counted c; progress_ := Reading |}))
  end.
(** A read of the pipe that fails. *)
Definition capture_fail (t : Task) (stdout : bool) : R unit :=
  let c := capture_of t stdout in
  set_task (Some (set_capture t stdout (budget t) {| counted := counted c; progress_ := Broken |})).

(** ** Output *)

Record ReadOutput : Type := { o_operation_id : string; o_stream : Z; o_offset : Z; o_limit : Z }.
Record OutputChunk : Type := {
  k_operation_id : string; k_stream : Z; k_offset : Z; k_data : bytes; k_next_offset : Z;
  k_at_end : bool; k_complete : bool
}.

(** [w::Stream::try_from] and the refusal of [Unspecified]. *)
Definition stream_of_number (n : Z) : result anyhow bool :=
  match n with
  | 0 => Err "unspecified output stream"
  | 1 => Ok true
  | 2 => Ok false
  | _ => Err "unknown enumeration value"
  end.

(** The retained file, opened without following a link; [None] when nothing was retained. *)
Definition open_output (name : string) (stored : Z) : G (option bytes) := syscall (fun g =>
  match files g !! name with
  | Some (File c) => Ok (g, Some c)
  | Some _ => Err "invalid retained output file"
  | None => if stored =? 0 then Ok (g, None) else Err "not found"
  end).

(** [Runner::output] *)
Definition output (q : ReadOutput) : R OutputChunk :=
  id ← checked (map_err (fun _ => "malformed operation identity") (parse KOperation (o_operation_id q)));
  _ ← checked (ensure ((0 <? o_limit q) && (o_limit q <=? MAX_CHUNK)) "invalid output length");
  stdout ← checked (stream_of_number (o_stream q));
  found ← inspect id;
  receipt ← checked (ok_or found "unknown operation");
  let kept := stored (if stdout : bool then r_stdout receipt else r_stderr receipt) in
  _ ← checked (ensure (o_offset q <=? r_output_limit receipt) "output offset outside reservation");
  file ← on_guest (open_output (name_of id (stream_suffix stdout)) kept);
  data ← match file with
    | Some content =>
        _ ← checked (ensure (strlen content <=? r_output_limit receipt) "invalid retained output file");
        _ ← checked (ensure ((kept <=? strlen content) && (o_offset q <=? kept)) "offset past retained output");
        let n := Z.to_nat (Z.min (kept - o_offset q) (o_limit q)) in
        let available := prefix n (drop_bytes (Z.to_nat (o_offset q)) content) in
        _ ← on_guest unseen;
        count ← on_guest (ask ReadAt (fun t => read_count t (String.length available)));
        mret (prefix count available)
    | None =>
        _ ← checked (ensure (o_offset q =? 0) "offset past retained output");
        mret ""
    end;
  let len := match file with Some _ => kept | None => 0 end in
  let next := o_offset q + strlen data in
  mret {| k_operation_id := to_string id; k_stream := o_stream q; k_offset := o_offset q; k_data := data;
          k_next_offset := next; k_at_end := len <=? next; k_complete := resolved receipt |}.

(** ** Shutdown *)

(** [Runner::shutdown] up to its wait: admission is closed, and the command is cancelled. *)
Definition shutdown : R (option OperationId) :=
  _ ← update (fun r => set_closed r true);
  r ← registry_;
  match active r with
  | None => mret None
  | Some (id, _) => _ ← cancel id; mret (Some id)
  end.
(** One round of its wait: whether it is over. *)
Definition shutdown_poll (id : OperationId) : R bool :=
  found ← inspect id;
  receipt ← checked (ok_or found "missing shutdown receipt");
  if terminal (r_state receipt) then
    _ ← checked (ensure (r_cleanup_confirmed receipt) "shutdown cleanup unconfirmed"); mret true
  else mret false.
End runner.
