(* ===== verification/GuestServer.v ===== *)
(** * The guest agent's requests (crates/sandbox-guest/src/server.rs)

    [dispatch] for an agent that serves commands only, and the life of such an agent:
    requests, the steps of its task, shutdown, death and restart. *)

From S2P Require Import Prelude Ext Ids GuestModel GuestWire GuestEnv Runner.
From S2P Require History.

Inductive Action : Type :=
| AHello
| AExecute (e : w.Execute)
| AInspect (operation_id : string)
| ACancel (operation_id : string)
| AOutput (q : ReadOutput)
| ARetireHistory (b : History.wBarrier)
| AFile.   (** one of the eight actions of the file service *)

Inductive ErrorCode : Type := Invalid | NotFound | Rejected | Uncertain.
Inductive Result_ : Type :=
| RHello
| RReceipt (r : w.Receipt)
| ROutput (c : OutputChunk)
| RError (c : ErrorCode)
| RHistoryRetired (b : History.wBarrier).

Record Request : Type := {
  q_version : Z; q_request_id : string; q_context : option w.Context; q_action : option Action
}.
Record Response : Type := {
  p_version : Z; p_request_id : string; p_context : option w.Context; p_result : option Result_
}.

Section server.
Context `{GuestEnv, UuidLib, Sha256, Serde Receipt, Serde History.Binding, Serde ExitReport,
          Serde Envelope, Serde Execute}.

Definition receipt_or (e : ErrorCode) (m : R Receipt) : R Result_ :=
  r ← attempt m;
  mret (match r with Ok r => RReceipt (from_receipt r) | Err _ => RError e end).

(** The answer to one action. *)
Definition perform (a : Action) : R Result_ :=
  match a with
  | ARetireHistory v =>
      r ← attempt (
        b ← checked (History.try_barrier v);
        c ← config_;
        _ ← checked (History.barrier_validate b (context c) (History.domain b));
        match History.domain b with
        | History.Commands => retire_history b
        | History.Files => checked (Err "file service unavailable")
        end);
      mret (match r with Ok b => RHistoryRetired (History.from_barrier b) | Err _ => RError Uncertain end)
  | AHello => mret RHello
  | AExecute v =>
      match try_execute v with
      | Ok e => receipt_or Uncertain (start e)
      | Err _ => mret (RError Invalid)
      end
  | AInspect id =>
      match parse KOperation id with
      | Ok id =>
          r ← inspect id;
          mret (match r with Some r => RReceipt (from_receipt r) | None => RError NotFound end)
      | Err _ => mret (RError Invalid)
      end
  | ACancel id =>
      match parse KOperation id with
      | Ok id => receipt_or Uncertain (cancel id)
      | Err _ => mret (RError Invalid)
      end
  | AFile => mret (RError Rejected)
  | AOutput q =>
      r ← attempt (output q);
      mret (match r with Ok c => ROutput c | Err _ => RError Rejected end)
  end.

(** [dispatch]; an error drops the connection without an answer. *)
Definition dispatch (q : Request) : R Response :=
  _ ← checked (ensure (q_version q =? VERSION) "unsupported guest protocol");
  _ ← checked (map_err (fun _ => "malformed operation identity") (parse KOperation (q_request_id q)));
  v ← checked (ok_or (q_context q) "missing context");
  asked ← checked (try_context v);
  action ← checked (ok_or (q_action q) "missing action");
  c ← config_;
  let actual := context c in
  _ ← checked (ensure (bool_decide (allocation_id asked = allocation_id actual)
                       && (generation asked =? generation actual)) "wrong allocation context");
  _ ← checked (ensure (bool_decide (boot_id asked = boot_id actual)
                       || match action with AHello => bool_decide (boot_id asked = "") | _ => false end)
                 "wrong boot identity");
  result ← perform action;
  mret {| p_version := VERSION; p_request_id := q_request_id q;
          p_context := Some (from_context actual); p_result := Some result |}.

(** ** The agent's life *)

(** A step of the task, when the task is at its place. *)
Inductive task_step : Type :=
| Begin
| Read (stdout : bool) (bytes : bytes)
| ReadError (stdout : bool)
| Publish (stdout : bool)
| StopWaiting (s : Stop)
| Finish
| Clean
| Commit.

(** Captures live until the task has committed. *)
Definition capturing (p : Phase) : bool := match p with Starting => false | _ => true end.

Definition step_task (s : task_step) : R unit :=
  a ← get;
  match task a with
  | None => mret tt
  | Some t =>
      match s, phase t with
      | Begin, Starting => begin_task t
      | StopWaiting s, Running => stop_waiting t s
      | Finish, Draining state cleaned => finish_task t state cleaned
      | Clean, Returned outcome => clean_task t outcome
      | Commit, Cleaned outcome cleaned => commit_task t outcome cleaned
      | Read stdout bytes, (Running | Draining _ _) =>
          if bool_decide (progress_ (capture_of t stdout) = Reading) && (strlen bytes <=? BUFFER)
          then capture_read t stdout bytes else mret tt
      | ReadError stdout, (Running | Draining _ _) =>
          if bool_decide (progress_ (capture_of t stdout) = Reading) then capture_fail t stdout else mret tt
      | Publish stdout, (Running | Draining _ _ | Returned _ | Cleaned _ _) =>
          if bool_decide (progress_ (capture_of t stdout) = Unpublished) then capture_publish t stdout else mret tt
      | _, _ => mret tt
      end
  end.

Inductive event : Type :=
| Serve (q : Request)
| Step (s : task_step)
| Shutdown
| Die
| Open (c : Config)
| Report (id : OperationId) (content : bytes).   (** a launcher's report, as its command left it *)

Record Machine : Type := { agent : option (Config * Registry * option Task); world : Guest }.

(** The agent after a handler; it is gone when it was killed inside. *)
Definition handle {A} (m : R A) (c : Config) (r : Registry) (t : option Task) (g : Guest) : Machine :=
  match m {| config := c; registry := r; task := t; guest := g |} with
  | (a, Err Killed) => {| agent := None; world := guest a |}
  | (a, _) => {| agent := Some (config a, registry a, task a); world := guest a |}
  end.

(** Launchers started so far. *)
Definition launches (t : list action) : list OperationId :=
  omap (fun a => match a with Launch id => Some id | _ => None end) t.

Definition run (e : event) (m : Machine) : Machine :=
  match e, agent m with
  | Serve q, Some (c, r, t) => handle (dispatch q) c r t (world m)
  | Step s, Some (c, r, t) => handle (step_task s) c r t (world m)
  | Shutdown, Some (c, r, t) => handle shutdown c r t (world m)
  | Die, _ => {| agent := None; world := world m |}
  | Open c, None =>
      match open c (world m) with
      | (g, Ok (c, r)) => {| agent := Some (c, r, None); world := g |}
      | (g, Err _) => {| agent := None; world := g |}
      end
  | Report id content, _ =>
      {| agent := agent m;
         world := if bool_decide (id ∈ launches (trace (world m)))
                  then set_files (world m) (<[name_of id ".exit" := File content]> (files (world m)))
                  else world m |}
  | _, _ => m
  end.
Definition runs (es : list event) (m : Machine) : Machine := foldl (fun m e => run e m) m es.
End server.
