(* ===== verification/RunnerLaws.v ===== *)
(** * Reasoning about the guest agent

    [gwp cov m Q g]: whatever fails, [m] run from [g] launches nothing, leaves the context
    file and the control groups alone but for removals, and removes no receipt file but of
    an operation that [cov] covers; and when it succeeds, [Q] holds. *)

From S2P Require Import Prelude Ext Ids GuestModel GuestWire GuestEnv Runner GuestServer.
From S2P Require History.

(** The types of a receipt's identifiers and of its digest. *)
Definition receipt_typed `{UuidLib} (r : Receipt) : bool :=
  canonical (r_operation_id r) && canonical (allocation_id (r_context r)) && (strlen (r_digest r) =? 32)
  && (0 <=? stored (r_stdout r)) && (0 <=? stored (r_stderr r)).

(** The parts of [Receipt::validate]. *)
Definition header_ok (version : Z) (c : Context) : bool :=
  (version =? 1) && (0 <? generation c) && negb (bool_decide (boot_id c = "")) && (strlen (boot_id c) <=? 64).
Definition output_ok (o : Output) : bool :=
  (stored o <=? seen o) && eqb (truncated o) (stored o <? seen o).
Definition stats_ok (limit : Z) (o e : Output) : bool :=
  output_ok o && output_ok e && is_some_and (fun n => n <=? limit) (u64_checked_add (stored o) (stored e)).
Definition exit_ok (s : State) (code signal : option Z) : bool :=
  if bool_decide (s = Exited)
  then xorb (is_some code) (is_some signal) && is_none_or (contains 0 255) code && is_none_or (contains 1 64) signal
  else is_none code && is_none signal.
Definition state_ok (s : State) (cleaned cancelled : bool) : bool :=
  match s with
  | LaunchIntent => negb cleaned
  | Exited | TimedOut => cleaned
  | Cancelled => cleaned && cancelled
  | Unknown => true
  end.
Record valid_parts (r : Receipt) : Prop := {
  vp_header : header_ok (r_version r) (r_context r) = true;
  vp_limit : contains 1 MAX_OUTPUT (r_output_limit r) = true;
  vp_stats : stats_ok (r_output_limit r) (r_stdout r) (r_stderr r) = true;
  vp_reason : is_none_or (fun s => strlen s <=? 256) (r_reason r) = true;
  vp_exit : exit_ok (r_state r) (r_exit_code r) (r_signal r) = true;
  vp_state : state_ok (r_state r) (r_cleanup_confirmed r) (r_cancel_requested r) = true;
}.
Lemma receipt_validate_parts r : receipt_validate r = Ok tt <-> valid_parts r.
Proof.
  unfold receipt_validate. split.
  - intros Hv. apply bind_ok in Hv as ([] & Hh%ensure_ok & Hv). apply bind_ok in Hv as ([] & Ho%ensure_ok & Hv).
    apply bind_ok in Hv as ([] & He & Hv). apply bind_ok in Hv as ([] & Hl%ensure_ok & Hv).
    apply bind_ok in Hv as ([] & Ht%ensure_ok & Hc%ensure_ok).
    split; unfold header_ok, stats_ok, output_ok, exit_ok, state_ok.
    + exact Hh.
    + by bools.
    + clear -Ho. repeat (apply andb_true_iff in Ho as [Ho ?]). repeat (apply andb_true_iff; split); done.
    + by repeat (apply andb_true_iff in Ho as [Ho ?]).
    + destruct (bool_decide (r_state r = Exited)); [|by apply ensure_ok in He].
      apply bind_ok in He as ([] & Hx%ensure_ok & Hy%ensure_ok). rewrite Hx. exact Hy.
    + clear -Hl Ht Hc. by destruct (r_state r), (r_cleanup_confirmed r), (r_cancel_requested r).
  - intros [Hh Hl Ho Hr He Hs]. unfold header_ok, stats_ok, output_ok, exit_ok in *.
    repeat (apply andb_true_iff in Ho as [Ho ?]). repeat match goal with h : _ && _ = true |- _ => apply andb_true_iff in h as [? ?] end.
    repeat match goal with h : _ = true |- context [ensure _ _] => progress rewrite ?h end. cbn.
    destruct (bool_decide (r_state r = Exited)) eqn:Hx;
      repeat match goal with h : _ && _ = true |- _ => apply andb_true_iff in h as [? ?] end;
      repeat match goal with h : _ = true |- context [ensure _ _] => progress rewrite ?h; cbn end;
      by destruct (r_state r), (r_cleanup_confirmed r), (r_cancel_requested r).
Qed.

(** [serde_json] on what the agent writes: it reads back, and an identifier that was read
    passed its own [TryFrom<String>]. *)
Class RunnerSerde `{UuidLib, Serde Receipt, Serde History.Binding} := {
  binding_reads_back (b : History.Binding) x : to_vec b = Some x -> from_slice x = Some b;
  receipt_read x r : from_slice x = Some r -> receipt_typed r = true;
}.

(** ** Names *)

Lemma rsplit_dot_app a e :
  rsplit_dot e = None -> rsplit_dot (a +:+ String "." e) = Some (a, e).
Proof. unfold rsplit_dot. intros He. induction a as [|c a IH]; cbn; [by rewrite He|by rewrite IH]. Qed.

Lemma strip_suffix_app a s : s <> "" -> strip_suffix s (a +:+ s) = Some a.
Proof.
  intros Hs. induction a as [|c a IH]; cbn [String.append].
  - destruct s; [done|]. cbn. by rewrite decide_True.
  - cbn [strip_suffix]. rewrite IH. rewrite decide_False; [done|].
    intros Heq. apply (f_equal String.length) in Heq. cbn in Heq. rewrite length_pos_string_app in Heq. lia.
Qed.

(** ** Handlers *)

Section rwp.
Context {S : Type}.
Definition rwp {A} (m : ST S failure A) (Q : result failure A -> S -> Prop) (s : S) : Prop :=
  Q (m s).2 (m s).1.

Lemma rwp_mono {A} (m : ST S failure A) (Q Q' : result failure A -> S -> Prop) s :
  rwp m Q s -> (forall r s', Q r s' -> Q' r s') -> rwp m Q' s.
Proof. unfold rwp. auto. Qed.
Lemma rwp_bind {A B} (m : ST S failure A) (k : A -> ST S failure B) Q s :
  rwp m (fun r s' => match r with Ok a => rwp (k a) Q s' | Err e => Q (Err e) s' end) s -> rwp (m ≫= k) Q s.
Proof. unfold rwp, mbind, ST_bind. by destruct (m s) as [s' [a|e]]. Qed.
Lemma rwp_ret {A} (a : A) Q s : Q (Ok a) s -> rwp (mret a : ST S failure A) Q s.
Proof. done. Qed.
Lemma rwp_get Q s : Q (Ok s) s -> rwp (get : ST S failure S) Q s.
Proof. done. Qed.
Lemma rwp_modify f Q s : Q (Ok tt) (f s) -> rwp (modify f : ST S failure unit) Q s.
Proof. done. Qed.
Lemma rwp_checked {A} (r : result anyhow A) (Q : result failure A -> S -> Prop) s :
  (forall a, r = Ok a -> Q (Ok a) s) -> (forall e, Q (Err (Failed e)) s) -> rwp (checked r) Q s.
Proof. unfold rwp, checked, lift. destruct r; cbn; auto. Qed.
Lemma rwp_attempt {A} (m : ST S failure A) (Q : result failure (result anyhow A) -> S -> Prop) s :
  rwp m (fun r s' => match r with
                    | Ok a => Q (Ok (Ok a)) s'
                    | Err (Failed e) => Q (Ok (Err e)) s'
                    | Err Killed => Q (Err Killed) s'
                    end) s -> rwp (attempt m) Q s.
Proof. unfold rwp, attempt. by destruct (m s) as [s' [a|[|e]]]. Qed.
End rwp.

Section laws.
Context `{GuestEnv, UuidLaws, Sha256, Serde Receipt, Serde History.Binding, RunnerSerde0 : !RunnerSerde,
          Serde ExitReport, Serde Envelope, Serde Execute}.

Lemma receipt_path_inj a b :
  canonical a = true -> canonical b = true -> receipt_path a = receipt_path b -> a = b.
Proof.
  intros Ha Hb Heq%(f_equal (strip_suffix ".json")). unfold receipt_path in Heq.
  rewrite !strip_suffix_app in Heq by done. apply (inj Some) in Heq. by apply (to_string_inj KOperation).
Qed.

Lemma path_context id : receipt_path id <> CONTEXT_JSON.
Proof. done. Qed.
Lemma name_context id s : name_of id s <> CONTEXT_JSON.
Proof. done. Qed.
Lemma name_extension (i : OperationId) e : rsplit_dot e = None -> extension (to_string i +:+ String "." e) = Some e.
Proof. intros He. unfold extension. by rewrite rsplit_dot_app. Qed.
Lemma path_extension id : extension (receipt_path id) = Some "json".
Proof. by apply (name_extension id). Qed.
Lemma report_extension id : extension (name_of id ".exit") = Some "exit".
Proof. by apply (name_extension id). Qed.
(** The context, receipts and reports are told apart by their extensions. *)
Definition ordinary (n : string) : Prop := n <> CONTEXT_JSON /\ extension n <> Some "exit".
Lemma temp_ordinary (i : OperationId) : ordinary (to_string i +:+ ".tmp").
Proof. split; [done|]. by rewrite (name_extension i "tmp"). Qed.
Lemma path_ordinary id : ordinary (receipt_path id).
Proof. split; [done|]. by rewrite path_extension. Qed.
Lemma stream_ordinary id b : ordinary (name_of id (stream_suffix b)).
Proof. split; [done|]. destruct b; unfold name_of, stream_suffix; [rewrite (name_extension id "stdout")|rewrite (name_extension id "stderr")]; done. Qed.
Lemma path_temp id (i : OperationId) : receipt_path id <> to_string i +:+ ".tmp".
Proof. intros Heq%(f_equal extension). by rewrite path_extension, (name_extension i "tmp") in Heq. Qed.
Lemma path_history id i : canonical id = true -> history_id (receipt_path id) = Ok (Some i) -> i = id.
Proof.
  intros Hc. unfold history_id. rewrite !bool_decide_eq_false_2 by done. cbn [orb].
  unfold find_stem, SUFFIXES, receipt_path. rewrite strip_suffix_app by done. cbn.
  rewrite parse_to_string by done. cbn. by intros [= ->].
Qed.

(** ** Calm calls *)

(** What a call may do to the receipts, the reports and the control groups. *)
Record steady (cov : OperationId -> bool) (g g' : Guest) : Prop := {
  sd_launches : launches (trace g') = launches (trace g);
  sd_receipts : forall id, canonical id = true -> cov id = false ->
    is_Some (files g !! receipt_path id) -> is_Some (files g' !! receipt_path id);
  sd_reports : forall id x, files g' !! name_of id ".exit" = Some x -> files g !! name_of id ".exit" = Some x;
  sd_groups : groups g' ⊆ groups g;
}.
(** ... when it leaves the context file alone. *)
Definition calm (cov : OperationId -> bool) (g g' : Guest) : Prop :=
  steady cov g g' /\ files g' !! CONTEXT_JSON = files g !! CONTEXT_JSON.

Lemma steady_trans cov g1 g2 g3 : steady cov g1 g2 -> steady cov g2 g3 -> steady cov g1 g3.
Proof. intros [Hl1 Hr1 Hx1 Hg1] [Hl2 Hr2 Hx2 Hg2]. split; [congruence|auto..|set_solver]. Qed.
Lemma calm_refl cov g : calm cov g g.
Proof. by split. Qed.
Lemma calm_trans cov g1 g2 g3 : calm cov g1 g2 -> calm cov g2 g3 -> calm cov g1 g3.
Proof. intros [Hs1 Hc1] [Hs2 Hc2]. split; [by eapply steady_trans|congruence]. Qed.
Lemma calm_weaken (cov cov' : OperationId -> bool) g g' :
  (forall id, cov' id = false -> cov id = false) -> calm cov g g' -> calm cov' g g'.
Proof. intros Hc [[Hl Hr Hx Hg] Hn]. split; [|done]. split; auto. Qed.

Lemma steady_insert cov g n x : extension n <> Some "exit" -> steady cov g (set_files g (<[n := x]> (files g))).
Proof.
  intros Hn. split; cbn; [done| | |done].
  - intros id _ _ Hi. destruct (decide (n = receipt_path id)) as [->|Hne].
    + by rewrite lookup_insert_eq.
    + by rewrite lookup_insert_ne.
  - intros id y. rewrite lookup_insert_ne; [done|]. intros ->. by rewrite report_extension in Hn.
Qed.
Lemma calm_insert cov g n x : ordinary n -> calm cov g (set_files g (<[n := x]> (files g))).
Proof. intros [Hc Hn]. split; [by apply steady_insert|]. cbn. by rewrite lookup_insert_ne. Qed.
Lemma calm_delete cov g n :
  n <> CONTEXT_JSON -> (forall id, canonical id = true -> n = receipt_path id -> cov id = true) ->
  calm cov g (set_files g (delete n (files g))).
Proof.
  intros Hn Hc. split; [|cbn; by rewrite lookup_delete_ne]. split; cbn; [done| | |done].
  - intros id Hid Hcov Hi. rewrite lookup_delete_ne; [done|]. intros ->. specialize (Hc id Hid eq_refl). congruence.
  - intros id x [_ Hx]%lookup_delete_Some. exact Hx.
Qed.
Lemma calm_append cov g n b : ordinary n -> calm cov g (append n b g).
Proof.
  intros Hn. unfold append. destruct (files g !! n) as [[c| |]|]; try apply calm_refl. by apply calm_insert.
Qed.

Definition silent (a : action) : bool := match a with Launch _ => false | _ => true end.
Lemma calm_record cov g a : silent a = true -> calm cov g (record g a).
Proof. intros Ha. split; [|done]. split; cbn; [|done..]. by destruct a. Qed.

Definition gwp (cov : OperationId -> bool) {A} (m : ST Guest failure A) (Q : A -> Guest -> Prop) (g : Guest) : Prop :=
  calm cov g (m g).1 /\ forall a, (m g).2 = Ok a -> Q a (m g).1.

Lemma gwp_mono cov {A} (m : ST Guest failure A) (Q Q' : A -> Guest -> Prop) g :
  gwp cov m Q g -> (forall a g', Q a g' -> Q' a g') -> gwp cov m Q' g.
Proof. intros [Hc Hq] Hi. split; [done|]. auto. Qed.
Lemma gwp_weaken (cov cov' : OperationId -> bool) {A} (m : ST Guest failure A) Q g :
  (forall id, cov' id = false -> cov id = false) -> gwp cov m Q g -> gwp cov' m Q g.
Proof. intros Hc [Hm HQ]. split; [by eapply calm_weaken|done]. Qed.
Lemma gwp_bind cov {A B} (m : ST Guest failure A) (k : A -> ST Guest failure B) Q g :
  gwp cov m (fun a g' => gwp cov (k a) Q g') g -> gwp cov (m ≫= k) Q g.
Proof.
  unfold gwp, mbind, ST_bind. intros [Hc Hk]. destruct (m g) as [g' [a|e]]; cbn in *; [|by split].
  destruct (Hk a eq_refl) as [Hc' HQ]. split; [by eapply calm_trans|done].
Qed.
Lemma gwp_ret cov {A} (a : A) (Q : A -> Guest -> Prop) g :
  Q a g -> gwp cov (mret a : ST Guest failure A) Q g.
Proof. intros HQ. split; [apply calm_refl|]. by intros ? [= <-]. Qed.
Lemma gwp_checked cov {A} (r : result anyhow A) (Q : A -> Guest -> Prop) g :
  (forall a, r = Ok a -> Q a g) -> gwp cov (checked r) Q g.
Proof.
  intros HQ. split; [apply calm_refl|]. unfold checked, lift. cbn. destruct r as [a|e]; [|done].
  intros ? [= <-]. by apply HQ.
Qed.
Lemma gwp_syscall cov {A} (f : Guest -> result anyhow (Guest * A)) (Q : A -> Guest -> Prop) g :
  (forall g' a, f (record g Syscall) = Ok (g', a) -> calm cov g g' /\ Q a g') ->
  gwp cov (syscall f) Q g.
Proof.
  intros Hf. unfold gwp, syscall. pose proof (calm_record cov g Syscall eq_refl) as Hr.
  destruct (fault (trace g)) as [e|]; [by split|].
  destruct (f (record g Syscall)) as [[g' a]|e]; [|by split].
  destruct (Hf _ _ eq_refl). split; [done|]. by intros ? [= <-].
Qed.
Lemma gwp_ask cov {A} (a : action) (answer : list action -> A) (Q : A -> Guest -> Prop) g :
  silent a = true -> Q (answer (trace g)) (record g a) -> gwp cov (ask a answer) Q g.
Proof. intros Ha HQ. split; [by apply calm_record|]. by intros ? [= <-]. Qed.
Lemma gwp_unseen cov (Q : unit -> Guest -> Prop) g : Q tt (record g Syscall) -> gwp cov unseen Q g.
Proof. intros HQ. apply gwp_syscall. intros g' a [= <- <-]. split; [by apply calm_record|done]. Qed.
Lemma gwp_attempt cov {A} (m : ST Guest failure A) (Q : result anyhow A -> Guest -> Prop) g :
  (forall e g', Q (Err e) g') -> gwp cov m (fun a g' => Q (Ok a) g') g -> gwp cov (attempt m) Q g.
Proof.
  intros HE [Hc HQ]. unfold gwp, attempt in *. destruct (m g) as [g' [a|[|e]]]; cbn in *; (split; [done|]); [|done|].
  - intros ? [= <-]. by apply HQ.
  - intros ? [= <-]. apply HE.
Qed.

(** *** The file system *)

Lemma calm_recorded cov g g' : calm cov (record g Syscall) g' -> calm cov g g'.
Proof. apply calm_trans. by apply calm_record. Qed.

Lemma gwp_create_new cov n (Q : unit -> Guest -> Prop) g :
  ordinary n ->
  (forall g', files g !! n = None -> files g' = <[n := File ""]> (files g) -> groups g' = groups g -> Q tt g') ->
  gwp cov (create_new n) Q g.
Proof.
  intros Hn HQ. apply gwp_syscall. cbn. intros g' a. destruct (files g !! n) eqn:Hf; [done|].
  intros [= <- <-]. split; [by apply calm_recorded, (calm_insert _ (record g Syscall))|by apply HQ].
Qed.

Lemma gwp_write_all cov n b (Q : unit -> Guest -> Prop) g :
  ordinary n ->
  (forall g', files g' = files (append n b g) -> groups g' = groups g -> Q tt g') -> gwp cov (write_all n b) Q g.
Proof.
  intros Hn HQ. unfold gwp, write_all. destruct (fault (trace g)) as [e|]; cbn.
  - split; [|done]. by apply calm_recorded, calm_append.
  - split; [by apply calm_recorded, calm_append|]. intros [] _. apply HQ; unfold append; cbn;
      by destruct (files g !! n) as [[]|].
Qed.

Lemma rwp_gwp cov {A} (m : ST Guest failure A) (Q : A -> Guest -> Prop) (Q' : result failure A -> Guest -> Prop) g :
  gwp cov m Q g ->
  (forall a g', calm cov g g' -> Q a g' -> Q' (Ok a) g') ->
  (forall e g', calm cov g g' -> Q' (Err e) g') -> rwp m Q' g.
Proof.
  intros [Hc HQ] HO HE. unfold rwp. destruct (m g) as [g' [a|e]]; cbn in *; [by apply HO, HQ|by apply HE].
Qed.

(** [write_json]: what it may have done when it fails, and has done when it succeeds. *)
Definition json_written {A} `{Serde A} (n : string) (v : A) (g : Guest) (r : result failure unit) (g' : Guest) : Prop :=
  steady (fun _ => false) g g' /\
  (files g' !! n = files g !! n /\ r <> Ok tt \/ exists x, to_vec v = Some x /\ files g' !! n = Some (File x)) /\
  (n <> CONTEXT_JSON -> files g' !! CONTEXT_JSON = files g !! CONTEXT_JSON).
Lemma rwp_syscall {A} (f : Guest -> result anyhow (Guest * A)) (Q : result failure A -> Guest -> Prop) g :
  (forall e, Q (Err e) (record g Syscall)) ->
  (forall g' a, f (record g Syscall) = Ok (g', a) -> Q (Ok a) g') -> rwp (syscall f) Q g.
Proof.
  intros HE HO. unfold rwp, syscall. destruct (fault (trace g)); [apply HE|].
  destruct (f (record g Syscall)) as [[g' a]|e]; [by apply HO|apply HE].
Qed.
Lemma rwp_write_all n b (Q : result failure unit -> Guest -> Prop) g :
  (forall e c, Q (Err e) (append n c (record g Syscall))) -> Q (Ok tt) (append n b (record g Syscall)) ->
  rwp (write_all n b) Q g.
Proof. intros HE HO. unfold rwp, write_all. destruct (fault (trace g)); [apply HE|exact HO]. Qed.

Lemma rwp_ask {A} (a : action) (answer : list action -> A) (Q : result failure A -> Guest -> Prop) g :
  Q (Ok (answer (trace g))) (record g a) -> rwp (ask a answer) Q g.
Proof. done. Qed.

(** The state directory with a staging file in it, or as before. *)
Definition staged (temp : string) (g g' : Guest) : Prop :=
  launches (trace g') = launches (trace g) /\ groups g' = groups g /\
  (files g' = files g \/ exists c, files g' = <[temp := File c]> (files g)).

Lemma staged_written {A} `{Serde A} n (v : A) (i : OperationId) g g' r :
  extension n = Some "json" -> staged (to_string i +:+ ".tmp") g g' -> r <> Ok tt -> json_written n v g r g'.
Proof.
  intros Hn (Hl & Hg & Hf) Hr. set (temp := to_string i +:+ ".tmp") in *.
  assert (Hother : forall m, extension m <> Some "tmp" -> files g' !! m = files g !! m).
  { intros m Hm. destruct Hf as [->|[c ->]]; [done|]. rewrite lookup_insert_ne; [done|]. intros <-.
    unfold temp in Hm. by rewrite (name_extension i "tmp") in Hm. }
  split; [split|]; [done|..|by rewrite Hg|split].
  - intros id _ _ Hi. rewrite Hother; [done|]. by rewrite path_extension.
  - intros id x. rewrite Hother; [done|]. by rewrite report_extension.
  - left. split; [|done]. apply Hother. by rewrite Hn.
  - intros _. by apply Hother.
Qed.

Lemma rwp_write_json {A} `{Serde A} n (v : A) g :
  extension n = Some "json" -> rwp (write_json n v) (json_written n v g) g.
Proof.
  intros Hn. unfold write_json. apply rwp_bind, rwp_ask.
  set (i := generated _). set (temp := to_string i +:+ ".tmp").
  assert (HE : forall g' (r : result failure unit), staged temp g g' -> r <> Ok tt -> json_written n v g r g')
    by (intros; by eapply staged_written).
  apply rwp_bind, rwp_syscall; [intros e; apply HE; [by repeat split; left|done]|]. cbn. intros g1 [] Hc.
  destruct (files g !! temp) eqn:Ht; [done|]. injection Hc as <-.
  apply rwp_bind, rwp_checked; [|intros e; apply HE; [by repeat split; right; exists ""|done]].
  intros x Hx%ok_or_ok.
  assert (Ha : forall c, append temp c (record (set_files (record (record g GenerateId) Syscall)
      (<[temp:=File ""]> (files g))) Syscall) =
    set_files (record (record (record g GenerateId) Syscall) Syscall) (<[temp := File c]> (files g))).
  { intros c. unfold append. cbn. rewrite lookup_insert_eq. by rewrite insert_insert_eq. }
  apply rwp_bind, rwp_write_all; rewrite ?Ha; [intros e c; rewrite Ha; apply HE; [by repeat split; right; eexists|done]|].
  set (g2 := set_files _ _). assert (Hg2 : staged temp g g2) by (by repeat split; right; eexists).
  apply rwp_bind, rwp_syscall; [by intros e; apply HE|]. cbn. intros g3 [] [= <-].
  apply rwp_bind, rwp_syscall; [by intros e; apply HE|]. cbn. intros g4 [] Hr. rewrite lookup_insert_eq in Hr.
  assert (Hf : launches (trace g4) = launches (trace g) /\ groups g4 = groups g /\
    files g4 = <[n := File x]> (delete temp (<[temp := File x]> (files g)))).
  { destruct (<[temp:=File x]> (files g) !! n) as [[]|]; simplify_eq; done. }
  assert (Hw : forall r g', launches (trace g') = launches (trace g4) -> groups g' = groups g4 ->
    files g' = files g4 -> json_written n v g r g').
  { intros r g' Hl' Hg' Hf'. destruct Hf as (Hl & Hg & Hf). rewrite Hf, delete_insert_eq in Hf'.
    split; [split|]; [congruence|..|by rewrite Hg', Hg|split].
    - intros id _ _ Hi. rewrite Hf'. destruct (decide (n = receipt_path id)) as [->|]; [by rewrite lookup_insert_eq|].
      rewrite lookup_insert_ne, lookup_delete_ne by (done || by apply not_eq_sym, path_temp). done.
    - intros id y. rewrite Hf'. rewrite lookup_insert_ne by (intros ->; by rewrite report_extension in Hn).
      by intros [_ ?]%lookup_delete_Some.
    - right. exists x. split; [done|]. by rewrite Hf', lookup_insert_eq.
    - intros Hc. rewrite Hf', lookup_insert_ne by done. by rewrite lookup_delete_ne. }
  apply rwp_syscall; [by intros e; apply Hw|]. cbn. intros g5 [] [= <-]. by apply Hw.
Qed.

Lemma gwp_remove_file cov n (Q : unit -> Guest -> Prop) g :
  n <> CONTEXT_JSON -> (forall id, canonical id = true -> n = receipt_path id -> cov id = true) ->
  (forall g', Q tt g') -> gwp cov (remove_file n) Q g.
Proof.
  intros Hn Hc HQ. apply gwp_syscall. cbn. intros g' [] Hr. split; [|apply HQ].
  destruct (files g !! n) as [[]|]; try done; injection Hr as <-;
    by apply calm_recorded, (calm_delete _ (record g Syscall)).
Qed.
Lemma gwp_remove_if_present cov n (Q : unit -> Guest -> Prop) g :
  n <> CONTEXT_JSON -> (forall id, canonical id = true -> n = receipt_path id -> cov id = true) ->
  (forall g', Q tt g') -> gwp cov (remove_if_present n) Q g.
Proof.
  intros Hn Hc HQ. apply gwp_syscall. cbn. intros g' [] Hr. split; [|apply HQ].
  destruct (files g !! n) as [[]|]; try done; injection Hr as <-; first
    [by apply calm_recorded, (calm_delete _ (record g Syscall))|by apply calm_record].
Qed.

(** Calls that only look. *)
Lemma gwp_looks cov {A} (f : Guest -> result anyhow (Guest * A)) (Q : A -> Guest -> Prop) g :
  (forall g1 g' a, f g1 = Ok (g', a) -> g' = g1) ->
  (forall a, f (record g Syscall) = Ok (record g Syscall, a) -> Q a (record g Syscall)) ->
  gwp cov (syscall f) Q g.
Proof.
  intros Hf HQ. apply gwp_syscall. intros g' a Hr. pose proof (Hf _ _ _ Hr) as ->.
  split; [by apply calm_record|by apply HQ].
Qed.

Lemma gwp_read_dir cov n (Q : list string -> Guest -> Prop) g :
  (forall l, l ≡ₚ (map_to_list (files g)).*1 -> Q (take n l) (record g Syscall)) -> gwp cov (read_dir n) Q g.
Proof.
  intros HQ. apply gwp_looks; [by intros ? ? ? [= <- _]|]. intros a [= <-]. apply HQ, listing_perm.
Qed.
Lemma gwp_read_json {A} `{Serde A} cov n (Q : A -> Guest -> Prop) g :
  (forall x v, files g !! n = Some (File x) -> from_slice x = Some v -> Q v (record g Syscall)) ->
  gwp cov (read_json n) Q g.
Proof.
  intros HQ. unfold read_json. apply gwp_bind, gwp_looks.
  { intros g1 g' a. destruct (files g1 !! n) as [[]|]; try done. by intros [= <- _]. }
  intros x. cbn. destruct (files g !! n) as [[y| |]|] eqn:Hf; try done. intros [= <-].
  apply gwp_bind, gwp_checked. intros _ _. apply gwp_checked. intros v Hv%ok_or_ok. by eapply HQ.
Qed.

Lemma gwp_await_empty cov n i (Q : unit -> Guest -> Prop) g :
  (forall g', Q tt g') -> gwp cov (await_empty n i) Q g.
Proof.
  intros HQ. revert g. induction n as [|n IH]; intros g; cbn [await_empty]; [by apply gwp_checked|].
  apply gwp_bind, gwp_unseen, gwp_bind, gwp_ask; [done|]. destruct (unpopulated _ _); [by apply gwp_ret|apply IH].
Qed.
(** A confirmed cleanup leaves no group. *)
Lemma gwp_cleanup cov i (Q : unit -> Guest -> Prop) g :
  (forall g', i ∉ groups g' -> Q tt g') -> gwp cov (cleanup i) Q g.
Proof.
  intros HQ. unfold cleanup. apply gwp_bind, gwp_looks; [by intros ? ? ? [= <- _]|]. intros b [= <-].
  case_bool_decide as Hi; [by apply gwp_ret, HQ|].
  apply gwp_bind, gwp_unseen, gwp_bind, gwp_await_empty. intros g1.
  apply gwp_syscall. cbn. intros g' [] [= <-]. split; [|apply HQ; cbn; set_solver].
  apply calm_recorded. split; [|done]. split; cbn; [done..|set_solver].
Qed.

(** *** History *)

Lemma gwp_history_entries cov (Q : list string -> Guest -> Prop) g :
  (forall l, (forall n, is_Some (files g !! n) <-> n ∈ l) -> Q l (record g Syscall)) -> gwp cov history_entries Q g.
Proof.
  intros HQ. unfold history_entries. apply gwp_bind, gwp_read_dir. intros l Hl.
  apply gwp_bind, gwp_checked. intros [] Hn%ensure_ok. apply gwp_ret.
  assert (take (MAX_ENTRIES + 1) l = l) as ->.
  { apply take_ge. apply Nat.leb_le in Hn. rewrite length_take in Hn. unfold MAX_ENTRIES in *. lia. }
  apply HQ. intros n. rewrite Hl, list_elem_of_fmap. split.
  - intros [x Hx]. exists (n, x). by rewrite elem_of_map_to_list.
  - intros ([n' x] & -> & Hx). rewrite elem_of_map_to_list in Hx. by exists x.
Qed.

Lemma gwp_validate_history cov l b (Q : unit -> Guest -> Prop) g :
  (forall g', Q tt g') -> gwp cov (validate_history_entries l b) Q g.
Proof.
  intros HQ. revert g. induction l as [|n l IH]; intros g; cbn [validate_history_entries]; [by apply gwp_ret|].
  apply gwp_bind, gwp_checked. intros [id|] _; [|apply gwp_bind, gwp_ret, IH].
  destruct (History.covers b id); [|apply gwp_bind, gwp_ret, IH].
  apply gwp_bind, gwp_bind, gwp_looks; [by intros ? ? ? [= <- _]|]. intros gone _.
  apply gwp_bind, gwp_checked. intros _ _. apply gwp_bind, gwp_looks.
  { intros g1 g' a. destruct (files g1 !! n); [by intros [= <- _]|done]. }
  intros d _. apply gwp_checked. intros _ _. apply IH.
Qed.

(** Only what the barrier covers is removed. *)
Lemma gwp_prune cov l b (Q : unit -> Guest -> Prop) g :
  (forall id, History.covers b id = true -> cov id = true) ->
  (forall g', Q tt g') -> gwp cov (prune_history l b) Q g.
Proof.
  intros Hcov HQ. unfold prune_history. apply gwp_bind, gwp_validate_history. intros g1. apply gwp_bind.
  assert (Hu : forall g, gwp cov (unlink_covered l b) (fun _ _ => True) g).
  { induction l as [|n l IH]; intros g2; cbn [unlink_covered]; [by apply gwp_ret|].
    apply gwp_bind, gwp_checked. intros i Hi. apply gwp_bind.
    destruct (covered b i) eqn:Hb; [|by apply gwp_ret]. apply gwp_remove_if_present; [| |intros; apply IH].
    - intros ->. unfold history_id in Hi. cbn in Hi. by injection Hi as <-.
    - intros id Hid ->. destruct i as [i|]; [|done]. apply path_history in Hi as ->; [|done]. by apply Hcov. }
  eapply gwp_mono; [apply Hu|]. intros _ g2 _. by apply gwp_unseen.
Qed.

(** ** Receipts *)

(** A receipt under its key, of this guest. *)
Record receipt_ok (c : Context) (id : OperationId) (r : Receipt) : Prop := {
  ro_id : r_operation_id r = id;
  ro_typed : receipt_typed r = true;
  ro_valid : receipt_validate r = Ok tt;
  ro_context : r_context r = c;
}.
Lemma ro_canonical c id r : receipt_ok c id r -> canonical id = true.
Proof. intros [<- Ht _ _]. unfold receipt_typed in Ht. by bools. Qed.

Lemma recovered_ok c id r : receipt_ok c id r -> receipt_ok c id (recovered r).
Proof.
  intros [Hi Ht Hv Hc]. split; [done..| |done]. rewrite receipt_validate_parts in *. destruct Hv. by split.
Qed.

(** What the agent keeps in memory. *)
Definition kept_ok (c : Context) (k : Z * gmap OperationId Receipt) : Prop :=
  k.1 = sum_by (fun e => r_output_limit e.2) (map_to_list k.2) /\ k.1 <= MAX_RESERVED_OUTPUT /\
  Z.of_nat (size k.2) <= MAX_RECORDS /\
  forall id r, k.2 !! id = Some r -> receipt_ok c id r /\ interrupted r = false.

Lemma reserved_new (m : gmap OperationId Receipt) id r :
  m !! id = None ->
  sum_by (fun e => r_output_limit e.2) (map_to_list (<[id := r]> m)) =
  r_output_limit r + sum_by (fun e => r_output_limit e.2) (map_to_list m).
Proof. apply sum_map_insert. Qed.

Lemma kept_ok_insert c k n id r :
  kept_ok c k -> k.2 !! id = None -> receipt_ok c id r -> interrupted r = false ->
  n = k.1 + r_output_limit r -> n <= MAX_RESERVED_OUTPUT -> Z.of_nat (size k.2) < MAX_RECORDS ->
  kept_ok c (n, <[id := r]> k.2).
Proof.
  intros (Hs & Hl & Hz & Hr) Hk Hro Hi -> Hn Hsz. split_and!; cbn.
  - rewrite reserved_new by done. lia.
  - done.
  - rewrite map_size_insert_None by done. lia.
  - intros id' r' [[-> ->]|[_ Hr']]%lookup_insert_Some; [done|by apply Hr].
Qed.

(** [write_json] of a receipt is calm. *)
Lemma gwp_write_receipt cov id (r : Receipt) (Q : unit -> Guest -> Prop) g :
  (forall g', is_Some (files g' !! receipt_path id) -> Q tt g') -> gwp cov (write_json (receipt_path id) r) Q g.
Proof.
  intros HQ. pose proof (rwp_write_json (receipt_path id) r g (path_extension id)) as (Hs & Hw & Hc).
  split.
  - split; [|by apply Hc]. destruct Hs. split; [done| |done..]. intros; by auto.
  - intros [] Ho. apply HQ. destruct Hw as [[_ Hne]|(x & _ & ->)]; [by rewrite Ho in Hne|done].
Qed.

(** Every receipt in memory has its file. *)
Definition filed (m : gmap OperationId Receipt) (g : Guest) : Prop :=
  forall id, canonical id = true -> is_Some (m !! id) -> is_Some (files g !! receipt_path id).
Lemma filed_calm m g g' : calm (fun _ => false) g g' -> filed m g -> filed m g'.
Proof. intros [[_ Hr _ _] _] Hf id Hid Hm. by apply Hr, Hf. Qed.
Lemma gwp_calm cov {A} (m : ST Guest failure A) (Q : A -> Guest -> Prop) g :
  gwp cov m (fun a g' => calm cov g g' -> Q a g') g -> gwp cov m Q g.
Proof. intros [Hc HQ]. split; [done|]. intros a Ha. by apply HQ. Qed.

Definition none_covered : OperationId -> bool := fun _ => false.

Lemma gwp_recover_entry (c : Config) n k (Q : Z * gmap OperationId Receipt -> Guest -> Prop) g :
  kept_ok (context c) k -> filed k.2 g ->
  (forall k' g', kept_ok (context c) k' -> filed k'.2 g' -> k.2 ⊆ k'.2 ->
     (extension n = Some "json" -> n <> CONTEXT_JSON -> exists id, is_Some (k'.2 !! id) /\ n = receipt_path id) ->
     Q k' g') ->
  gwp none_covered (recover_entry c n k) Q g.
Proof.
  intros Hk Hf HQ. unfold recover_entry. case_bool_decide as Ht.
  { apply gwp_bind, gwp_calm, gwp_remove_file.
    - intros ->. by compute in Ht.
    - intros id _ ->. by rewrite path_extension in Ht.
    - intros g' Hc. apply gwp_ret, HQ; [done|by eapply filed_calm|done|]. intros Hj. by rewrite Ht in Hj. }
  destruct (bool_decide (n = CONTEXT_JSON) || negb (bool_decide (extension n = Some "json"))) eqn:Hn.
  { apply gwp_ret, HQ; [done..|]. intros Hj Hc. rewrite !bool_decide_eq_false_2, bool_decide_eq_true_2 in Hn by done. done. }
  apply orb_false_iff in Hn as [_ Hn]. bools.
  apply gwp_bind, gwp_read_json. intros x r Hx Hr%receipt_read.
  apply gwp_bind, gwp_checked. intros [] Hv%ensure_ok. bools. subst n.
  apply gwp_bind, gwp_checked. intros [] Hval.
  apply gwp_bind, gwp_checked. intros m Hm%ok_or_ok. apply u64_checked_add_some in Hm as [-> _].
  apply gwp_bind, gwp_checked. intros [] Hs%ensure_ok. bools.
  assert (Hro : receipt_ok (context c) (r_operation_id r) r) by by split.
  assert (Hfr : is_Some (files (record g Syscall) !! receipt_path (r_operation_id r))) by (by exists (File x)).
  apply gwp_bind.
  assert (Hnext : forall r' g', receipt_ok (context c) (r_operation_id r) r' -> interrupted r' = false ->
      r_output_limit r' = r_output_limit r -> calm none_covered (record g Syscall) g' ->
      gwp none_covered (
        _ ← checked (ensure (negb (is_some (k.2 !! r_operation_id r'))) "duplicate receipt");
        mret (k.1 + r_output_limit r, <[r_operation_id r' := r']> k.2)) Q g').
  { intros r' g' Hr' Hi Hl Hc. pose proof (ro_id _ _ _ Hr') as Hid. rewrite Hid.
    apply gwp_bind, gwp_checked. intros [] Hd%ensure_ok. apply gwp_ret.
    assert (k.2 !! r_operation_id r = None) as Hnone by (by destruct (k.2 !! r_operation_id r)).
    apply HQ; cbn.
    - apply kept_ok_insert; [done..|by rewrite Hl|done|lia].
    - intros id Hid' Hi'. destruct Hc as [[_ Hrec _ _] _]. apply Hrec; [done..|].
      apply lookup_insert_is_Some' in Hi' as [<-|Hi']; [exact Hfr|by apply Hf].
    - by apply insert_subseteq.
    - intros _ _. exists (r_operation_id r). split; [|done]. rewrite lookup_insert_eq. by eexists. }
  destruct (interrupted r) eqn:Hi; [|apply gwp_ret, Hnext; [done..|apply calm_refl]].
  apply gwp_bind, gwp_calm, gwp_cleanup. intros g1 _ Hc1. apply gwp_bind, gwp_calm, gwp_write_receipt.
  intros g2 _ Hc2. apply gwp_ret. apply (Hnext (recovered r)); [by apply recovered_ok|done..|by eapply calm_trans].
Qed.

Lemma gwp_recover (c : Config) l k (Q : Z * gmap OperationId Receipt -> Guest -> Prop) g :
  kept_ok (context c) k -> filed k.2 g ->
  (forall k' g', kept_ok (context c) k' -> filed k'.2 g' -> k.2 ⊆ k'.2 ->
     (forall n, n ∈ l -> extension n = Some "json" -> n <> CONTEXT_JSON ->
        exists id, is_Some (k'.2 !! id) /\ n = receipt_path id) -> Q k' g') ->
  gwp none_covered (recover c l k) Q g.
Proof.
  revert k g. induction l as [|n l IH]; intros k g Hk Hf HQ; cbn [recover].
  { apply gwp_ret, HQ; [done..|]. by intros n ?%not_elem_of_nil. }
  apply gwp_bind, gwp_recover_entry; [done..|]. intros k1 g1 Hk1 Hf1 Hs1 Hn1.
  apply IH; [done..|]. intros k2 g2 Hk2 Hf2 Hs2 Hn2. apply HQ; [done..|by etrans|].
  intros m [->|Hm]%elem_of_cons Hj Hc; [|by apply Hn2].
  destruct (Hn1 Hj Hc) as (id & [r Hr] & ->). exists id. split; [|done]. exists r. by eapply lookup_weaken.
Qed.

(** ** What the disk remembers *)

(** The operations that the context file retires. *)
Definition floor (g : Guest) (id : OperationId) : bool :=
  match files g !! CONTEXT_JSON with
  | Some (File x) =>
      match from_slice x with
      | Some (History.Retired b) => History.covers b id
      | _ => false
      end
  | _ => false
  end.

(** Every launch is on record: its receipt file is there, or it was retired. *)
Definition on_record (g : Guest) : Prop := forall id, id ∈ launches (trace g) ->
  canonical id = true /\ (is_Some (files g !! receipt_path id) \/ floor g id = true).

Lemma floor_same g g' : files g' !! CONTEXT_JSON = files g !! CONTEXT_JSON -> floor g' = floor g.
Proof. intros Hc. unfold floor. by rewrite Hc. Qed.

Lemma on_record_calm g g' : calm (floor g) g g' -> on_record g -> on_record g'.
Proof.
  intros [[Hl Hr _ _] Hc] Ho id Hid. rewrite Hl in Hid. destruct (Ho id Hid) as [Hcan Hd]. split; [done|].
  rewrite (floor_same _ _ Hc). destruct (floor g id) eqn:Hf; [by right|]. destruct Hd; [left|done]. by apply Hr.
Qed.
Lemma on_record_none g g' : calm none_covered g g' -> on_record g -> on_record g'.
Proof. intros Hc. apply on_record_calm. by eapply calm_weaken. Qed.

(** Since [g0] nothing was launched, and no report appeared. *)
Definition came (g0 g : Guest) : Prop :=
  launches (trace g) = launches (trace g0) /\
  forall id x, files g !! name_of id ".exit" = Some x -> files g0 !! name_of id ".exit" = Some x.
Lemma came_steady cov g0 g g' : came g0 g -> steady cov g g' -> came g0 g'.
Proof. intros [Hl Hx] [Hl' _ Hx' _]. split; [congruence|]. auto. Qed.

(** Start-up: whatever happens, the record stays; success is [Q]. *)
Definition starts (g0 : Guest) {A} (m : ST Guest failure A) (Q : A -> Guest -> Prop) (g : Guest) : Prop :=
  on_record g -> came g0 g ->
  on_record (m g).1 /\ came g0 (m g).1 /\
  forall a, (m g).2 = Ok a -> Q a (m g).1.

Lemma starts_bind g0 {A B} (m : ST Guest failure A) (k : A -> ST Guest failure B) Q g :
  starts g0 m (fun a g' => starts g0 (k a) Q g') g -> starts g0 (m ≫= k) Q g.
Proof.
  unfold starts, mbind, ST_bind. intros Hm Ho Hl. destruct (Hm Ho Hl) as (Ho' & Hl' & Hk).
  destruct (m g) as [g' [a|e]]; cbn in *; [by apply Hk|by split_and!].
Qed.
Lemma starts_gwp g0 {A} (m : ST Guest failure A) Q g :
  gwp (floor g) m (fun a g' => calm (floor g) g g' -> Q a g') g -> starts g0 m Q g.
Proof.
  intros [Hc HQ] Ho Hl. split_and!; [by eapply on_record_calm|by eapply came_steady, Hc|].
  intros a Ha. by apply HQ.
Qed.
Lemma starts_calm g0 {A} (m : ST Guest failure A) Q g :
  gwp none_covered m (fun a g' => calm none_covered g g' -> Q a g') g -> starts g0 m Q g.
Proof.
  intros Hm. apply starts_gwp, (gwp_weaken none_covered); [done|]. apply gwp_calm.
  eapply gwp_mono; [exact Hm|]. intros a g' HQ Hc _. by apply HQ.
Qed.
Lemma starts_now g0 {A} (m : ST Guest failure A) Q g :
  (on_record g -> starts g0 m Q g) -> starts g0 m Q g.
Proof. intros Hm Ho Hl. by apply Hm. Qed.
Lemma starts_ret g0 {A} (a : A) (Q : A -> Guest -> Prop) g : Q a g -> starts g0 (mret a : ST Guest failure A) Q g.
Proof. intros HQ. apply starts_calm, gwp_ret. by intros _. Qed.

Lemma size_one {A} (m : gmap string A) i j : size m = 1%nat -> is_Some (m !! i) -> is_Some (m !! j) -> i = j.
Proof.
  intros Hm [x Hi] [y Hj]. destruct (decide (i = j)) as [|Hne]; [done|].
  assert (size (delete i m) = 0%nat) as He%map_size_empty_iff by (rewrite map_size_delete, Hi; lia).
  assert (delete i m !! j = Some y) as Hd by (by rewrite lookup_delete_ne).
  by rewrite He, lookup_empty in Hd.
Qed.

(** What is remembered in memory is what the disk says. *)
Definition floor_of (b : option History.Barrier) : OperationId -> bool :=
  fun id => is_some_and (fun b => History.covers b id) b.

Lemma gwp_exists cov n (Q : bool -> Guest -> Prop) g :
  (forall b g', files g' = files g -> (b = true -> is_Some (files g !! n)) -> Q b g') -> gwp cov (exists_ n) Q g.
Proof.
  intros HQ. pose proof (calm_record cov g Syscall eq_refl) as Hc.
  unfold exists_, attempt, syscall, gwp, mbind, ST_bind. destruct (fault (trace g)) as [[[] k]|]; cbn.
  - by split.
  - split; [done|]. intros b [= <-]. by apply HQ.
  - split; [done|]. intros b [= <-]. apply HQ; [done|]. by destruct (files g !! n).
Qed.

Lemma starts_open_context g0 (c : Config) (Q : option History.Barrier -> Guest -> Prop) g :
  is_Some (files g !! LOCK) ->
  (forall b g', floor g' = floor_of b -> Q b g') -> starts g0 (open_context c) Q g.
Proof.
  intros Hlock HQ. unfold open_context. apply starts_bind, starts_calm, gwp_exists.
  intros [] g1 Hg1 Hex _.
  - apply starts_bind, starts_calm, gwp_read_json. intros x b Hx Hb Hc1.
    assert (Hfl : forall g', files g' !! CONTEXT_JSON = files g1 !! CONTEXT_JSON ->
      floor g' = match b with History.Retired r => History.covers r | _ => fun _ => false end).
    { intros g' Hg'. unfold floor. rewrite Hg', Hx, Hb. by destruct b. }
    apply starts_calm, gwp_checked. intros f Hv [_ Hc2]. apply HQ. rewrite Hfl by done.
    destruct b as [c'|r]; cbn in Hv; inv_ok; done.
  - apply starts_bind, starts_calm, gwp_looks; [by intros ? ? ? [= <- _]|]. intros n [= <-] _.
    apply starts_bind, starts_calm, gwp_checked. intros [] Hn%ensure_ok%Nat.eqb_eq _.
    set (g2 := record g1 Syscall). assert (Hl2 : is_Some (files g2 !! LOCK)) by (cbn; by rewrite Hg1).
    assert (Hnone : forall m, is_Some (files g2 !! m) -> m = LOCK) by (intros m Hm; by eapply size_one).
    apply starts_bind. unfold starts. intros Ho Hl.
    assert (Hno : forall id, id ∉ launches (trace g2)).
    { intros id Hid. destruct (Ho id Hid) as [_ [Hf|Hf]]; [by apply Hnone in Hf|].
      unfold floor in Hf. destruct (files g2 !! CONTEXT_JSON) eqn:Hc; [|done].
      apply mk_is_Some, Hnone in Hc. done. }
    pose proof (rwp_write_json CONTEXT_JSON (History.Legacy (context c)) g2 eq_refl) as (Hst & Hw & _).
    pose proof (sd_launches _ _ _ Hst) as Hsl.
    destruct (write_json CONTEXT_JSON (History.Legacy (context c)) g2) as [g3 r] eqn:Hg3. cbn in *.
    assert (Ho3 : on_record g3) by (intros id Hid; rewrite Hsl in Hid; by destruct (Hno id)).
    pose proof (came_steady _ _ _ _ Hl Hst) as Hcame.
    split_and!; [done..|]. intros [] ->. apply starts_ret; [|done..].
    apply HQ. destruct Hw as [[_ ?]|(x & Hx & Hf)]; [done|].
    unfold floor. rewrite Hf, (binding_reads_back _ _ Hx). done.
Qed.

(** [Runner::open]: a receipt or a barrier answers for every launch of earlier agents, and
    nothing of theirs runs. *)
Record opened (c : Config) (g : Guest) (c' : Config) (r : Registry) : Prop := {
  op_context : context c' = context c;
  op_idle : active r = None /\ failed r = false /\ closed r = false;
  op_floor : floor g = floor_of (barrier r);
  op_kept : kept_ok (context c) (reserved r, receipts r);
  op_filed : filed (receipts r) g;
  op_known : forall id, id ∈ launches (trace g) -> is_Some (receipts r !! id) \/ floor g id = true;
  op_groups : groups g = ∅;
}.
Lemma starts_open (c : Config) g :
  starts g (open c) (fun cr g' => opened c g' cr.1 cr.2) g.
Proof.
  unfold open.
  assert (Hskip : forall A B (r : result anyhow A) (k : A -> G B) Q g1,
    (forall a, r = Ok a -> starts g (k a) Q g1) -> starts g (checked r ≫= k) Q g1).
  { intros A B r k Q g1 Hk. apply starts_bind, starts_calm, gwp_checked. intros a Ha _. by apply Hk. }
  assert (Hunseen : forall B (k : unit -> G B) Q g1,
    (forall g2, starts g (k tt) Q g2) -> starts g (unseen ≫= k) Q g1).
  { intros B k Q g1 Hk. apply starts_bind, starts_calm, gwp_unseen. intros _. apply Hk. }
  assert (Hask : forall A B (f : list action -> A) (k : A -> G B) Q g1,
    (forall a g2, starts g (k a) Q g2) -> starts g (ask Query f ≫= k) Q g1).
  { intros A B f k Q g1 Hk. apply starts_bind, starts_calm, gwp_ask; [done|]. intros _. apply Hk. }
  apply Hskip. intros _ _. apply Hunseen. intros g1. apply Hask. intros boot g2. apply Hskip. intros _ _.
  apply Hunseen. intros g3. apply Hask. intros root g4. apply Hskip. intros _ _. apply Hunseen. intros g5.
  apply Hask. intros idle g6. apply Hskip. intros _ _. apply Hask. intros is_file g7. apply Hskip. intros _ _.
  apply Hunseen. intros g8. apply Hunseen. intros g9.
  apply starts_bind, starts_calm, gwp_syscall. intros g10 [] Hlock.
  assert (calm none_covered g9 g10 /\ is_Some (files g10 !! LOCK)) as [Hc10 Hl10].
  { cbn in Hlock. destruct (files g9 !! LOCK) as [[]|] eqn:Hk; simplify_eq; cbn.
    - split; [by apply calm_record|]. by rewrite Hk.
    - split; [by apply calm_record|]. by rewrite Hk.
    - split; [by apply calm_recorded, (calm_insert _ (record g9 Syscall))|]. by rewrite lookup_insert_eq. }
  split; [done|]. intros _. apply starts_bind, starts_calm, gwp_ask; [done|]. intros _.
  apply Hskip. intros _ _. apply starts_bind, starts_open_context; [done|]. intros b g11 Hb.
  apply starts_bind, starts_gwp.
  assert (Hpruned : forall Q : unit -> Guest -> Prop, (forall g', Q tt g') -> gwp (floor g11)
    match b with Some b => entries ← history_entries; prune_history entries b | None => mret tt end Q g11).
  { intros Q HQ. destruct b as [b|]; [|by apply gwp_ret].
    apply gwp_bind, gwp_history_entries. intros l _. apply gwp_prune; [|done]. intros id Hid. by rewrite Hb. }
  refine (Hpruned _ _). intros g12 [_ Hc12]. apply floor_same in Hc12. rewrite Hb in Hc12.
  apply starts_now. intros Ho12.
  apply starts_bind, starts_calm, gwp_history_entries. intros l Hl Hc.
  apply starts_bind, starts_calm, gwp_recover.
  { split_and!; cbn; [done..|]. by intros id r ?%lookup_empty_Some. }
  { by intros id _ [? Hi]. }
  intros k g13 Hk Hfiled _ Hall Hc13.
  apply starts_bind, starts_calm, gwp_looks; [by intros ? ? ? [= <- _]|]. intros n [= <-] _.
  apply Hskip. intros _ Hn%ensure_ok%Nat.eqb_eq. apply starts_ret. cbn.
  pose proof (calm_trans _ _ _ _ Hc Hc13) as [[Hl13 _ _ _] Hf13]. apply floor_same in Hf13.
  destruct Hk as (Hsum & Hle & Hsz & Hok). split; cbn.
  - done.
  - done.
  - change (floor (record g13 Syscall)) with (floor g13). by rewrite Hf13.
  - split_and!; [done|cbn; unfold reserved; cbn; by rewrite <- Hsum|done|done].
  - exact Hfiled.
  - intros id Hid. change (id ∈ launches (trace g13)) in Hid. rewrite Hl13 in Hid. change (floor (record g13 Syscall)) with (floor g13). rewrite Hf13.
    destruct (Ho12 id Hid) as [Hcan [Hp|]]; [left|by right].
    apply Hl in Hp. apply Hall in Hp as (i & Hi & Heq); [|apply path_extension|done].
    destruct Hi as [r Hr]. destruct (Hok i r Hr) as [Hro _]. apply receipt_path_inj in Heq as ->;
      [by exists r|done|by eapply ro_canonical].
  - by apply leibniz_equiv, fin_sets.size_empty_iff.
Qed.
End laws.
