(* ===== verification/RunnerInv.v ===== *)
(** * What the guest agent keeps true

    [agent_ok Hon]: of an agent at rest between two steps. [Hon] says that launchers report
    exit statuses as processes have them; what needs it says so. *)

From S2P Require Import Prelude Ext Ids GuestModel GuestWire GuestEnv Runner GuestServer RunnerLaws.
From S2P Require History.

Definition in_range (x : ExitReport) : bool :=
  is_none_or (contains 0 255) (x_exit_code x) && is_none_or (contains 1 64) (x_signal x).

(** What a capture has counted. *)
Definition flow_ok (o : Output) : Prop := 0 <= stored o /\ output_ok o = true.

(** A command that is being executed. *)
Definition task_id (t : Task) : OperationId := e_operation_id (request t).

Section invariant.
Context `{GuestEnv, UuidLaws, Sha256, Sha256Laws0 : !Sha256Laws, Serde Receipt, Serde History.Binding,
          RunnerSerde0 : !RunnerSerde, Serde ExitReport, Serde Envelope, Serde Execute}.
Context (Hon : Prop).

(** A receipt in memory. *)
Record mem_ok (c : Context) (id : OperationId) (r : Receipt) : Prop := {
  mo_id : r_operation_id r = id;
  mo_typed : receipt_typed r = true;
  mo_context : r_context r = c;
  mo_limit : contains 1 MAX_OUTPUT (r_output_limit r) = true;
  mo_valid : Hon -> receipt_validate r = Ok tt;
}.

Definition outcome_ok (limit : Z) (cancelled : bool) (o : Outcome) : Prop :=
  let '(s, rep, so, se) := o in
  flow_ok so /\ flow_ok se /\ stored so + stored se <= limit /\ s <> LaunchIntent /\
  (s = Cancelled -> cancelled = true) /\ (Hon -> exit_ok s (rep ≫= x_exit_code) (rep ≫= x_signal) = true).
Definition phase_ok (limit : Z) (cancelled : bool) (p : Phase) : Prop :=
  match p with
  | Starting | Running => True
  | Draining s _ => s <> LaunchIntent /\ (s = Cancelled -> cancelled = true)
  | Returned (Ok o) | Cleaned (Ok o) _ => outcome_ok limit cancelled o
  | Returned (Err _) | Cleaned (Err _) _ => True
  end.

(** The receipt of the command that is being executed, and its captures. *)
Record running_ok (t : Task) (cancelled : bool) (rc : Receipt) : Prop := {
  rn_state : r_state rc = LaunchIntent /\ r_cleanup_confirmed rc = false /\ r_exit_code rc = None /\
             r_signal rc = None /\ r_reason rc = None;
  rn_cancel : cancelled = true -> r_cancel_requested rc = true;
  rn_limit : r_output_limit rc = e_output_limit (request t);
  rn_budget : 0 <= budget t /\ budget t + stored (counted (out t)) + stored (counted (err t)) <= r_output_limit rc;
  rn_counted : flow_ok (counted (out t)) /\ flow_ok (counted (err t));
  rn_published : flow_ok (r_stdout rc) /\ flow_ok (r_stderr rc) /\
    stored (r_stdout rc) <= stored (counted (out t)) /\ stored (r_stderr rc) <= stored (counted (err t));
  rn_phase : phase_ok (r_output_limit rc) cancelled (phase t);
}.

Record task_ok (r : Registry) (g : Guest) (t : Task) : Prop := {
  tk_running : exists f rc, active r = Some (task_id t, f) /\ receipts r !! task_id t = Some rc /\ running_ok t f rc;
  tk_starting : phase t = Starting -> task_id t ∉ launches (trace g);
  tk_cleaned : forall o, phase t = Cleaned o true -> group (task_id t) ∉ groups g;
}.

Definition reports_ok (g : Guest) : Prop := forall id x rep,
  files g !! name_of id ".exit" = Some (File x) -> from_slice x = Some rep -> in_range rep = true.

(** A control group belongs to the command that is being executed, or to one whose cleanup
    is not confirmed. *)
Definition group_owned (r : Registry) (t : option Task) (i : string) : Prop :=
  (exists t', t = Some t' /\ i = group (task_id t') /\ phase t' <> Starting) \/
  (exists id rc, i = group id /\ receipts r !! id = Some rc /\ terminal (r_state rc) = true /\
     r_cleanup_confirmed rc = false).

Record agent_ok (c : Config) (r : Registry) (t : option Task) (g : Guest) : Prop := {
  ao_record : on_record g;
  ao_floor : forall id, floor_of (barrier r) id = true -> floor g id = true;
  ao_exact : failed r = false -> forall id, floor g id = floor_of (barrier r) id;
  ao_filed : forall id, is_Some (receipts r !! id) -> is_Some (files g !! receipt_path id) \/ floor g id = true;
  ao_known : forall id, id ∈ launches (trace g) -> is_Some (receipts r !! id) \/ floor_of (barrier r) id = true;
  ao_once : NoDup (launches (trace g));
  ao_receipts : forall id rc, receipts r !! id = Some rc -> mem_ok (context c) id rc;
  ao_size : Z.of_nat (size (receipts r)) <= MAX_RECORDS;
  ao_reserved : reserved r <= MAX_RESERVED_OUTPUT;
  ao_task : forall t', t = Some t' -> task_ok r g t';
  ao_idle : active r = None -> t = None;
  ao_pending : forall id rc, receipts r !! id = Some rc -> terminal (r_state rc) = false ->
    exists t', t = Some t' /\ task_id t' = id;
  ao_groups : forall i, i ∈ groups g -> group_owned r t i;
  ao_context : Hon -> header_ok 1 (context c) = true;
  ao_typed : canonical (allocation_id (context c)) = true;
  ao_reports : Hon -> reports_ok g;
}.

Lemma mo_canonical c id r : mem_ok c id r -> canonical id = true.
Proof. intros [<- Ht _ _ _]. unfold receipt_typed in Ht. by bools. Qed.

Lemma floor_calm g g' id : calm (floor g) g g' -> floor g' id = floor g id.
Proof. intros [_ Hc]. by rewrite (floor_same g g'). Qed.

(** Calm calls keep the invariant. *)
Lemma agent_ok_calm c r t g g' : agent_ok c r t g -> calm (floor g) g g' -> agent_ok c r t g'.
Proof.
  intros [Hrec Hfl Hex Hfi Hkn Hno Hre Hsz Hrs Htk Hid' Hpe Hgr Hcx Hty Hrp] Hc.
  pose proof (fun id => floor_calm g g' id Hc) as Hf. pose proof Hc as [[Hl Hr Hx Hg] _]. split; try done.
  - by eapply on_record_calm.
  - intros id Hid. rewrite Hf. by apply Hfl.
  - intros Hfd id. rewrite Hf. by apply Hex.
  - intros id Hid. rewrite Hf. destruct (floor g id) eqn:Hfid; [by right|left].
    apply Hr; [|done|destruct (Hfi id Hid); congruence]. destruct Hid as [rc Hrc]. by eapply mo_canonical, Hre.
  - rewrite Hl. exact Hkn.
  - by rewrite Hl.
  - intros t' ->. destruct (Htk t' eq_refl) as [Hrun Hst Hcl]. split; [done|by rewrite Hl|].
    intros o Ho Hi. by apply (Hcl o Ho), Hg.
  - intros i Hi. by apply Hgr, Hg.
  - intros Hh id x rep Hf' Hs. by apply (Hrp Hh id x rep); [apply Hx|].
Qed.

(** ** Handlers *)

Definition ok (a : Agent) : Prop := agent_ok (config a) (registry a) (task a) (guest a).
Definition with_guest (a : Agent) (g : Guest) : Agent :=
  {| config := config a; registry := registry a; task := task a; guest := g |}.

(** What an agent that was killed leaves behind. *)
Record world_ok (g : Guest) : Prop := {
  wo_record : on_record g;
  wo_once : NoDup (launches (trace g));
  wo_reports : Hon -> reports_ok g;
}.
Lemma ok_world a : ok a -> world_ok (guest a).
Proof. by intros []. Qed.

(** A handler that keeps [ok] and, when it succeeds, has [Q]. *)
Definition kept {A} (Q : A -> Agent -> Prop) (r : result failure A) (a : Agent) : Prop :=
  match r with
  | Ok x => ok a /\ Q x a
  | Err (Failed _) => ok a
  | Err Killed => world_ok (guest a)
  end.

Lemma kept_err {A} (Q : A -> Agent -> Prop) e a : ok a -> kept Q (Err e) a.
Proof. destruct e; [apply ok_world|done]. Qed.
Lemma kept_ok_ {A} (Q : A -> Agent -> Prop) x a : ok a -> Q x a -> kept Q (Ok x) a.
Proof. by split. Qed.
Lemma kept_mono {A} (Q Q' : A -> Agent -> Prop) r a :
  kept Q r a -> (forall x, r = Ok x -> ok a -> Q x a -> Q' x a) -> kept Q' r a.
Proof. destruct r as [x|[]]; cbn; [|done..]. intros [Ho HQ] Hi. split; [done|]. by apply Hi. Qed.

Lemma rwp_update f (Q : result failure unit -> Agent -> Prop) a :
  Q (Ok tt) {| config := config a; registry := f (registry a); task := task a; guest := guest a |} ->
  rwp (update f) Q a.
Proof. done. Qed.
Lemma rwp_set_task t (Q : result failure unit -> Agent -> Prop) a :
  Q (Ok tt) {| config := config a; registry := registry a; task := t; guest := guest a |} -> rwp (set_task t) Q a.
Proof. done. Qed.
Lemma rwp_registry (Q : result failure Registry -> Agent -> Prop) a : Q (Ok (registry a)) a -> rwp registry_ Q a.
Proof. done. Qed.
Lemma rwp_config (Q : result failure Config -> Agent -> Prop) a : Q (Ok (config a)) a -> rwp config_ Q a.
Proof. done. Qed.
Lemma rwp_on_guest {A} (m : ST Guest failure A) (Q : result failure A -> Agent -> Prop) a :
  rwp m (fun r g => Q r (with_guest a g)) (guest a) -> rwp (on_guest m) Q a.
Proof. unfold rwp, on_guest. by destruct (m (guest a)). Qed.

(** A calm call inside a handler. *)
Lemma rwp_calm {A} (m : ST Guest failure A) (Q0 : A -> Guest -> Prop) (Q : result failure A -> Agent -> Prop) a :
  ok a -> gwp (floor (guest a)) m Q0 (guest a) ->
  (forall x g, ok (with_guest a g) -> calm (floor (guest a)) (guest a) g -> Q0 x g -> Q (Ok x) (with_guest a g)) ->
  (forall e g, ok (with_guest a g) -> calm (floor (guest a)) (guest a) g -> Q (Err e) (with_guest a g)) ->
  rwp (on_guest m) Q a.
Proof.
  intros Hok Hm HO HE. apply rwp_on_guest. eapply rwp_gwp; [exact Hm|..].
  - intros x g Hc HQ. apply HO; [by eapply agent_ok_calm|done..].
  - intros e g Hc. apply HE; [by eapply agent_ok_calm|done].
Qed.

Lemma rwp_check {A B} (r : result anyhow A) (k : A -> R B) (Q : B -> Agent -> Prop) a :
  ok a -> (forall x, r = Ok x -> rwp (k x) (kept Q) a) -> rwp (checked r ≫= k) (kept Q) a.
Proof. intros Hok Hk. apply rwp_bind, rwp_checked; [done|]. intros e. by apply kept_err. Qed.
Lemma rwp_call {A B} (m : ST Guest failure A) (Q0 : A -> Guest -> Prop) (k : A -> R B) (Q : B -> Agent -> Prop) a :
  ok a -> gwp (floor (guest a)) m Q0 (guest a) ->
  (forall x g, ok (with_guest a g) -> calm (floor (guest a)) (guest a) g -> Q0 x g ->
     rwp (k x) (kept Q) (with_guest a g)) ->
  rwp (on_guest m ≫= k) (kept Q) a.
Proof.
  intros Hok Hm Hk. apply rwp_bind. eapply rwp_calm; [done|exact Hm|done|]. intros e g Hg _. by apply kept_err.
Qed.
End invariant.
#[global] Arguments kept : simpl never.
