(* ===== verification/RunnerKeeps.v ===== *)
(** * Every step of the guest agent keeps its invariant *)

From S2P Require Import Prelude Ext Ids GuestModel GuestWire GuestEnv Runner GuestServer RunnerLaws RunnerInv.
From S2P Require History.

Section keeps.
Context `{GuestEnv, UuidLaws, Sha256, Sha256Laws0 : !Sha256Laws, Serde Receipt, Serde History.Binding,
          RunnerSerde0 : !RunnerSerde, Serde ExitReport, Serde Envelope, Serde Execute}.
Context (Hon : Prop).
Abbreviation ok := (ok Hon).
Abbreviation kept := (kept Hon).
Abbreviation agent_ok := (agent_ok Hon).

(** ** Receipts that change *)

Lemma receipt_split r : valid_parts r <-> receipt_validate r = Ok tt.
Proof. by rewrite receipt_validate_parts. Qed.

Lemma stats_flow limit o e :
  flow_ok o -> flow_ok e -> stored o + stored e <= limit -> limit <= MAX_OUTPUT -> stats_ok limit o e = true.
Proof.
  intros [Ho1 Ho2] [He1 He2] Hs Hl. unfold stats_ok. rewrite Ho2, He2. cbn.
  unfold u64_checked_add, in_u64, U64_MAX, MAX_OUTPUT in *.
  destruct (_ && _) eqn:Hb; cbn; bools; [lia|]. destruct Hb; lia.
Qed.

Lemma launch_intent_ok (c : Config) e d :
  (Hon -> header_ok 1 (context c) = true) -> canonical (allocation_id (context c)) = true ->
  canonical (e_operation_id e) = true -> execute_validate e = Ok tt -> execute_digest e = Ok d ->
  mem_ok Hon (context c) (e_operation_id e) (launch_intent c e d).
Proof.
  intros Hh Ha Hid Hv Hd.
  assert (Hlim : contains 1 MAX_OUTPUT (e_output_limit e) = true).
  { unfold execute_validate in Hv. inv_ok. by bools. }
  unfold execute_digest in Hd. inv_ok. split; [done| |done|done|].
  - unfold receipt_typed. cbn. rewrite Hid, Ha, sha256_len. done.
  - intros Hon'. apply receipt_split. split; cbn; [by apply Hh|done| |done..].
    apply contains_spec in Hlim. change (stats_ok (e_output_limit e) output_default output_default = true).
    apply stats_flow; [by split|by split|cbn; lia|lia].
Qed.

(** ** Requests *)

Lemma spec_inspect id a : ok a -> rwp (inspect id) (kept (fun o a' => a' = a /\ o = receipts (registry a) !! id)) a.
Proof. intros Hok. unfold inspect. apply rwp_bind, rwp_registry, rwp_ret. by apply kept_ok_. Qed.

(** A new receipt of a command that starts. *)
Lemma agent_ok_start c r g e d :
  agent_ok c r None g -> receipts r !! e_operation_id e = None ->
  floor_of (barrier r) (e_operation_id e) = false -> Z.of_nat (size (receipts r)) < MAX_RECORDS ->
  reserved r + e_output_limit e <= MAX_RESERVED_OUTPUT ->
  mem_ok Hon (context c) (e_operation_id e) (launch_intent c e d) ->
  is_Some (files g !! receipt_path (e_operation_id e)) ->
  agent_ok c {| barrier := barrier r; receipts := <[e_operation_id e := launch_intent c e d]> (receipts r);
                active := Some (e_operation_id e, false); failed := failed r; closed := closed r |}
    (Some (new_task e)) g.
Proof.
  intros [Hrec Hfl Hex Hfi Hkn Hno Hre Hsz Hrs Htk Hidl Hpe Hgr Hcx Hty Hrp] Hnew Hcov Hsize Hres Hmem Hfile.
  split; cbn; try done.
  - intros id [<-|Hid]%lookup_insert_is_Some'; [by left|by apply Hfi].
  - intros id Hid. rewrite lookup_insert_is_Some'. destruct (Hkn id Hid); [by left; right|by right].
  - intros id rc [[<- <-]|[_ Hrc]]%lookup_insert_Some; [done|by apply Hre].
  - rewrite map_size_insert_None by done. lia.
  - unfold reserved. cbn. rewrite reserved_new by done. unfold reserved in Hres. cbn. lia.
  - intros t' [= <-]. split; [|intros _ Hin|done].
    + exists false, (launch_intent c e d). unfold task_id. cbn. rewrite lookup_insert_eq. split_and!; [done..|].
      pose proof (mo_limit _ _ _ _ Hmem) as Hlim. apply contains_spec in Hlim. cbn in Hlim.
      split; cbn; [done..| |done|done|done]. lia.
    + destruct (Hkn _ Hin) as [[rc Hrc]|Hc]; unfold task_id in *; cbn in *; congruence.
  - intros id rc [[<- <-]|[_ Hrc]]%lookup_insert_Some Ht; [by exists (new_task e)|].
    by destruct (Hpe id rc Hrc Ht) as (t' & ? & _).
  - intros i Hi. destruct (Hgr i Hi) as [(t' & ? & _)|(id & rc & -> & Hrc & Ht & Hcl)]; [done|]. right.
    exists id, rc. cbn. rewrite lookup_insert_ne; [done|]. intros Heq. rewrite Heq in Hnew. congruence.
Qed.

Lemma spec_start e a :
  canonical (e_operation_id e) = true -> ok a ->
  rwp (start e) (kept (fun rc a' =>
    receipts (registry a') !! e_operation_id e = Some rc /\ execute_digest e = Ok (r_digest rc) /\
    (receipts (registry a) !! e_operation_id e = None -> rc = launch_intent (config a) e (r_digest rc)) /\
    config a' = config a)) a.
Proof.
  intros Hid Hok. unfold start.
  apply rwp_check; [done|]. intros [] Hv. apply rwp_check; [done|]. intros d Hd.
  apply rwp_bind, rwp_registry. apply rwp_check; [done|]. intros [] Hcov%ensure_ok. bools.
  destruct (receipts (registry a) !! e_operation_id e) as [existing|] eqn:Hex.
  { apply rwp_check; [done|]. intros [] He%ensure_ok. bools. apply rwp_ret, kept_ok_; [done|]. by subst d. }
  apply rwp_check; [done|]. intros [] _. apply rwp_check; [done|]. intros [] _.
  apply rwp_check; [done|]. intros [] Hact%ensure_ok.
  apply (rwp_call _ _ (fun _ _ => True)); [done|by apply gwp_ask|]. intros now g1 Hok1 _ _.
  apply rwp_check; [done|]. intros remaining _. apply rwp_check; [done|]. intros [] _.
  apply rwp_check; [done|]. intros [] Hsize%ensure_ok. apply rwp_check; [done|]. intros [] Hres%ensure_ok. bools.
  apply rwp_bind, rwp_config. cbn.
  apply (rwp_call _ _ (fun _ g' => is_Some (files g' !! receipt_path (e_operation_id e))));
    [done|by apply gwp_write_receipt|]. intros [] g2 Hok2 _ Hfile. cbn in *.
  apply rwp_bind, rwp_update, rwp_bind, rwp_update, rwp_bind, rwp_set_task, rwp_ret. cbn.
  apply kept_ok_; cbn; [|by rewrite lookup_insert_eq].
  unfold RunnerInv.ok in *. cbn in *.
  assert (task a = None) as Hidle by (apply (ao_idle _ _ _ _ _ Hok2); by destruct (active (registry a))).
  rewrite Hidle in Hok2.
  apply (agent_ok_start _ (registry a)); try done. destruct Hok2. by apply launch_intent_ok.
Qed.

(** ** The command that is being executed *)

Lemma reserved_replace (m : gmap OperationId Receipt) id rc rc' :
  m !! id = Some rc -> r_output_limit rc' = r_output_limit rc ->
  sum_by (fun e => r_output_limit e.2) (map_to_list (<[id := rc']> m)) =
  sum_by (fun e => r_output_limit e.2) (map_to_list m).
Proof.
  intros Hm Hl. rewrite <- (insert_id m id rc) at 2 by done. rewrite <- !(insert_delete_eq m id).
  rewrite !reserved_new by apply lookup_delete_eq. lia.
Qed.

(** A step of the task: its phase and captures, and its receipt. *)
Lemma agent_ok_step c r t g r' t' rc rc' f' :
  agent_ok c r (Some t) g -> receipts r !! task_id t = Some rc ->
  barrier r' = barrier r -> failed r' = failed r -> receipts r' = <[task_id t := rc']> (receipts r) ->
  active r' = Some (task_id t, f') -> request t' = request t -> running_ok Hon t' f' rc' ->
  mem_ok Hon (context c) (task_id t) rc' -> r_output_limit rc' = r_output_limit rc ->
  (phase t' = Starting -> phase t = Starting) -> (phase t <> Starting -> phase t' <> Starting) ->
  (forall o, phase t' = Cleaned o true -> group (task_id t) ∉ groups g) ->
  agent_ok c r' (Some t') g.
Proof.
  intros [Hrec Hfl Hex Hfi Hkn Hno Hre Hsz Hrs Htk Hidl Hpe Hgr Hcx Hty Hrp] Hrc Hb Hfd Hr Ha Hq Hrun Hmem Hlim Hs1 Hs2 Hcl.
  assert (Hdom : forall id, is_Some (receipts r' !! id) <-> is_Some (receipts r !! id)).
  { intros id. rewrite Hr, lookup_insert_is_Some'. split; [intros [<-|]|]; [by exists rc|done|by right]. }
  assert (Hid : task_id t' = task_id t) by (unfold task_id; by rewrite Hq).
  split; rewrite ?Hb, ?Hfd; try done.
  - intros id Hi. by apply Hfi, Hdom.
  - intros id Hi. rewrite Hdom. by apply Hkn.
  - intros id x. rewrite Hr. intros [[<- <-]|[_ Hx]]%lookup_insert_Some; [done|by apply Hre].
  - rewrite Hr, map_size_insert_Some; [done|by exists rc].
  - unfold reserved. rewrite Hr, (reserved_replace _ _ rc) by done. exact Hrs.
  - intros t'' [= <-]. split; rewrite Hid.
    + exists f', rc'. rewrite Hr, lookup_insert_eq. done.
    + intros Hp. apply (tk_starting _ _ _ _ (Htk t eq_refl)), Hs1, Hp.
    + exact Hcl.
  - by rewrite Ha.
  - intros id x. rewrite Hr. intros [[<- <-]|[Hne Hx]]%lookup_insert_Some Ht; [by exists t'|].
    destruct (Hpe id x Hx Ht) as (t2 & [= ->] & Hid2). by exists t'.
  - intros i Hi. destruct (Hgr i Hi) as [(t2 & [= ->] & -> & Hp)|(id & x & -> & Hx & Ht & Hc)].
    + left. exists t'. rewrite Hid. split_and!; [done..|by apply Hs2].
    + right. exists id, x. split_and!; [done| |done..]. rewrite Hr.
      rewrite lookup_insert_ne; [done|]. intros <-. rewrite Hrc in Hx. injection Hx as <-.
      destruct (tk_running _ _ _ _ (Htk t eq_refl)) as (f & y & _ & Hy & Hrn). rewrite Hrc in Hy. injection Hy as <-.
      destruct (rn_state _ _ _ _ Hrn) as [Hs _]. by rewrite Hs in Ht.
Qed.

(** ... of its phase and captures only. *)
Lemma agent_ok_task c r t g t' f rc :
  agent_ok c r (Some t) g -> active r = Some (task_id t, f) -> receipts r !! task_id t = Some rc ->
  request t' = request t -> running_ok Hon t' f rc ->
  (phase t' = Starting -> phase t = Starting) -> (phase t <> Starting -> phase t' <> Starting) ->
  (forall o, phase t' = Cleaned o true -> group (task_id t) ∉ groups g) ->
  agent_ok c r (Some t') g.
Proof.
  intros Hok Ha Hrc Hq Hrun Hs1 Hs2 Hcl. apply (agent_ok_step c r t g r t' rc rc f); try done.
  - by rewrite insert_id.
  - by apply (ao_receipts _ _ _ _ _ Hok).
Qed.

(** A receipt of a running command stays valid when only its cancellation or its output change. *)
Lemma mem_ok_running c t f rc f' rc' :
  mem_ok Hon c (task_id t) rc -> running_ok Hon t f rc -> running_ok Hon t f' rc' ->
  r_version rc' = r_version rc -> r_operation_id rc' = r_operation_id rc -> r_context rc' = r_context rc ->
  r_digest rc' = r_digest rc -> mem_ok Hon c (task_id t) rc'.
Proof.
  intros [Hi Ht Hc Hl Hv] Hrun Hrun' Hver Hop Hcx Hdg.
  pose proof (rn_limit _ _ _ _ Hrun) as Hl1. pose proof (rn_limit _ _ _ _ Hrun') as Hl2.
  destruct (rn_published _ _ _ _ Hrun') as (Ho & He & Hso & Hse).
  destruct (rn_budget _ _ _ _ Hrun') as [Hb1 Hb2].
  split; [by rewrite Hop| |by rewrite Hcx|by rewrite Hl2, <- Hl1|].
  - unfold receipt_typed in *. rewrite Hop, Hcx, Hdg. destruct Ho as [Ho _], He as [He _].
    apply andb_true_iff in Ht as [[Ht _]%andb_true_iff _]. rewrite Ht. cbn.
    by rewrite !(proj2 (Z.leb_le _ _)).
  - intros Hh. specialize (Hv Hh). apply receipt_split in Hv. apply receipt_split. destruct Hv as [Hhd _ _ _ _ _].
    destruct (rn_state _ _ _ _ Hrun') as (Hs & Hcl & Hx & Hsg & Hrs).
    assert (Hlim : contains 1 MAX_OUTPUT (r_output_limit rc') = true) by (by rewrite Hl2, <- Hl1).
    split; rewrite ?Hs, ?Hcl, ?Hx, ?Hsg, ?Hrs, ?Hver, ?Hcx; try done.
    apply contains_spec in Hlim. apply stats_flow; [done..|lia|lia].
Qed.

Lemma running_cancel t f rc : running_ok Hon t f rc -> running_ok Hon t true (set_cancel rc).
Proof.
  intros [Hs Hc Hl Hb Hco Hp Hph]. split; try done. cbn.
  destruct (phase t) as [| |s x|[[[[s rep] so] se]|]|[[[[s rep] so] se]|]]; cbn in *; naive_solver.
Qed.

Lemma spec_cancel id a :
  ok a -> rwp (cancel id) (kept (fun rc a' => receipts (registry a') !! id = Some rc)) a.
Proof.
  intros Hok. unfold cancel. apply rwp_bind, rwp_registry. apply rwp_check; [done|]. intros rc Hrc%ok_or_ok.
  destruct (terminal (r_state rc)) eqn:Ht; [by apply rwp_ret, kept_ok_|].
  destruct (ao_pending _ _ _ _ _ Hok id rc Hrc Ht) as (t & Htk & <-).
  apply (rwp_call _ _ (fun _ _ => True)); [done|by apply gwp_write_receipt|]. intros [] g Hok' _ _.
  unfold RunnerInv.ok in Hok'. cbn in Hok'. rewrite Htk in Hok'.
  destruct (tk_running _ _ _ _ (ao_task _ _ _ _ _ Hok' t eq_refl)) as (f & rc' & Ha & Hrc' & Hrun).
  rewrite Hrc in Hrc'. injection Hrc' as <-.
  apply rwp_bind, rwp_update. cbn. rewrite Ha. rewrite bool_decide_eq_true_2 by done.
  apply rwp_bind, rwp_ret, rwp_bind, rwp_update, rwp_ret. cbn. apply kept_ok_; cbn; [|by rewrite lookup_insert_eq].
  unfold RunnerInv.ok. cbn. rewrite Htk.
  pose proof (running_cancel _ _ _ Hrun) as Hrun'.
  apply (agent_ok_step _ (registry a) t _ _ t rc (set_cancel rc) true); try done.
  - eapply mem_ok_running; [|exact Hrun|exact Hrun'|done..]. by apply (ao_receipts _ _ _ _ _ Hok').
  - apply (tk_cleaned _ _ _ _ (ao_task _ _ _ _ _ Hok' t eq_refl)).
Qed.

(** ** Retirement *)

Lemma agent_ok_failed c r t g : agent_ok c r t g -> agent_ok c (set_failed r true) t g.
Proof.
  intros [Hrec Hfl Hex Hfi Hkn Hno Hre Hsz Hrs Htk Hidl Hpe Hgr Hcx Hty Hrp]. split; try done.
  intros t' Ht. by destruct (Htk t' Ht).
Qed.

(** The barrier rises on the disk, and perhaps in memory. *)
Lemma agent_ok_raise c r t g g' b fd :
  agent_ok c r t g -> steady none_covered g g' ->
  (forall id, floor g id = true -> floor g' id = true) ->
  (forall id, floor_of (barrier r) id = true -> floor_of b id = true) ->
  (forall id, floor_of b id = true -> floor g' id = true) ->
  (fd = false -> forall id, floor g' id = floor_of b id) ->
  agent_ok c (set_failed (set_barrier r b) fd) t g'.
Proof.
  intros [Hrec Hfl Hex Hfi Hkn Hno Hre Hsz Hrs Htk Hidl Hpe Hgr Hcx Hty Hrp] [Hl Hr Hx Hg] Hup Hb Hlo He.
  split; cbn; try done.
  - intros id Hid. rewrite Hl in Hid. destruct (Hrec id Hid) as [Hc [Hf|Hf]]; (split; [done|]); [left; by apply Hr|right; by apply Hup].
  - intros id Hid. destruct (Hfi id Hid) as [Hf|Hf]; [left|right; by apply Hup].
    apply Hr; [|done..]. destruct Hid as [rc Hrc]. by eapply mo_canonical, Hre.
  - rewrite Hl. intros id Hid. destruct (Hkn id Hid); [by left|right; by apply Hb].
  - by rewrite Hl.
  - intros t' ->. destruct (Htk t' eq_refl) as [Hrun Hst Hcl]. split; [done|by rewrite Hl|].
    intros o Ho Hi. by apply (Hcl o Ho), Hg.
  - intros i Hi. by apply Hgr, Hg.
  - intros Hh id x rep Hf' Hs. by apply (Hrp Hh id x rep); [apply Hx|].
Qed.

Lemma reserved_filter (P : OperationId * Receipt -> Prop) `{forall x, Decision (P x)} (m : gmap OperationId Receipt) :
  (forall id rc, m !! id = Some rc -> 0 <= r_output_limit rc) ->
  sum_by (fun e => r_output_limit e.2) (map_to_list (base.filter P m)) <=
  sum_by (fun e => r_output_limit e.2) (map_to_list m).
Proof. apply (sum_map_filter (fun e => r_output_limit e.2)). Qed.

(** What the barrier covers is forgotten: its cleanup was confirmed. *)
Lemma agent_ok_forget c r t g b :
  agent_ok c r t g -> barrier r = Some b ->
  (forall id f, active r = Some (id, f) -> History.covers b id = false) ->
  (forall id rc, receipts r !! id = Some rc -> History.covers b id = true -> resolved rc = true) ->
  agent_ok c (set_receipts r (base.filter (fun e : OperationId * Receipt => History.covers b e.1 = false) (receipts r))) t g.
Proof.
  intros [Hrec Hfl Hex Hfi Hkn Hno Hre Hsz Hrs Htk Hidl Hpe Hgr Hcx Hty Hrp] Hb Hact Hres.
  assert (Hsub : forall id rc, base.filter (fun e : OperationId * Receipt => History.covers b e.1 = false) (receipts r) !! id
    = Some rc <-> receipts r !! id = Some rc /\ History.covers b id = false) by (intros; by rewrite map_lookup_filter_Some).
  split; cbn; try done.
  - intros id [rc [Hrc _]%Hsub]. apply Hfi. by exists rc.
  - intros id Hid. destruct (Hkn id Hid) as [[rc Hrc]|]; [|by right]. destruct (History.covers b id) eqn:Hc.
    + right. by rewrite Hb.
    + left. exists rc. by apply Hsub.
  - intros id rc [Hrc _]%Hsub. by apply Hre.
  - pose proof (map_size_filter (fun e : OperationId * Receipt => History.covers b e.1 = false) (receipts r)). lia.
  - etrans; [|exact Hrs]. apply reserved_filter. intros id rc Hrc. pose proof (mo_limit _ _ _ _ (Hre id rc Hrc)) as Hl.
    apply contains_spec in Hl. lia.
  - intros t' Ht. destruct (Htk t' Ht) as [(f & rc & Ha & Hrc & Hrun) Hst Hcl]. split; [|done..].
    exists f, rc. split_and!; [done| |done]. apply Hsub. split; [done|by eapply Hact].
  - intros id rc [Hrc _]%Hsub. by apply Hpe.
  - intros i Hi. destruct (Hgr i Hi) as [|(id & rc & -> & Hrc & Ht & Hc)]; [by left|right]. exists id, rc.
    split_and!; [done| |done..]. apply Hsub. split; [done|]. destruct (History.covers b id) eqn:Hcov; [|done].
    specialize (Hres id rc Hrc Hcov). unfold resolved in Hres. by rewrite Hc, andb_false_r in Hres.
Qed.

Definition retired (requested b : History.Barrier) (a : Agent) : Prop :=
  barrier (registry a) = Some b /\ forall id, History.covers requested id = true -> History.covers b id = true.

Lemma rwp_fail_registry {A} (e : anyhow) (Q : A -> Agent -> Prop) a : ok a -> rwp (fail_registry e) (kept Q) a.
Proof.
  intros Hok. apply rwp_bind, rwp_update, rwp_checked; [done|]. intros e'.
  by apply kept_err, agent_ok_failed.
Qed.

Lemma spec_retire_above requested a :
  ok a -> failed (registry a) = false ->
  (forall id, floor_of (barrier (registry a)) id = true -> History.covers requested id = true) ->
  rwp (retire_above requested (registry a)) (kept (retired requested)) a.
Proof.
  intros Hok Hf Hup. unfold retire_above.
  apply rwp_check; [done|]. intros [] Hact%ensure_ok. apply rwp_check; [done|]. intros [] Hres%ensure_ok.
  apply (rwp_call _ _ (fun _ _ => True)); [done|by apply gwp_history_entries|]. intros l g1 Hok1 _ _.
  apply (rwp_call _ _ (fun _ _ => True)); [done|by apply gwp_validate_history|]. intros [] g2 Hok2 _ _.
  assert (Hfl : forall id, floor g2 id = true -> History.covers requested id = true).
  { intros id Hid. apply Hup. rewrite <- Hid. symmetry. by apply (ao_exact _ _ _ _ _ Hok2). }
  apply rwp_bind, rwp_attempt, rwp_on_guest. eapply rwp_mono; [by apply rwp_write_json|].
  intros r g3 (Hst & Hw & _). cbn in Hst, Hw.
  assert (Hnew : (forall id, floor g3 id = floor g2 id) /\ r <> Ok tt \/ forall id, floor g3 id = History.covers requested id).
  { destruct Hw as [[Hs Hr]|(x & Hx & Hs)]; [left|right; intros id].
    - split; [|done]. intros id. by rewrite (floor_same g2 g3).
    - unfold floor. by rewrite Hs, (binding_reads_back _ _ Hx). }
  assert (Hgrow : forall id, floor g2 id = true -> floor g3 id = true).
  { intros id Hid. destruct Hnew as [[Hn _]|Hn]; rewrite Hn; [done|by apply Hfl]. }
  assert (Hfailed : agent_ok (config a) (set_failed (set_barrier (registry a) (barrier (registry a))) true) (task a) g3).
  { apply (agent_ok_raise _ _ _ g2); try done. intros id Hid. apply Hgrow. by apply (ao_floor _ _ _ _ _ Hok2). }
  destruct r as [[]|[|e]].
  - destruct Hnew as [[_ ?]|Hnew]; [done|]. apply rwp_bind, rwp_update.
    set (a3 := {| config := _ |}).
    assert (Hok3 : ok a3) by
      (apply (agent_ok_raise _ _ _ g2 g3 (Some requested) (failed (registry a))); try done; intros; by rewrite Hnew).
    apply rwp_bind, rwp_attempt.
    eapply rwp_calm; [done|apply (gwp_prune _ _ _ (fun _ _ => True)); [intros; by rewrite Hnew|done]|..].
    + intros [] g4 Hok4 _ _. apply rwp_bind, rwp_update, rwp_ret, kept_ok_; [|by split].
      apply (agent_ok_forget _ _ _ _ requested Hok4); [done|..].
      * intros id f Ha. cbn in Ha. rewrite Ha in Hact. by apply negb_true_iff in Hact.
      * intros id rc Hrc Hc. cbn in Hrc. rewrite forallb_forall in Hres. apply (Hres (id, rc)), filter_In.
        split; [by apply list_elem_of_In, elem_of_map_to_list|]. cbn.
        by rewrite (mo_id _ _ _ _ (ao_receipts _ _ _ _ _ Hok id rc Hrc)).
    + intros [|e] g4 Hok4 _; [by apply ok_world in Hok4|by apply rwp_fail_registry].
  - by destruct Hfailed.
  - unfold fail_registry. apply rwp_bind, rwp_update, rwp_checked; [done|]. intros e'. exact Hfailed.
Qed.

Lemma spec_retire_history requested a :
  ok a -> rwp (retire_history requested) (kept (retired requested)) a.
Proof.
  intros Hok. unfold retire_history. apply rwp_bind, rwp_config. apply rwp_check; [done|]. intros [] _.
  apply rwp_bind, rwp_registry. apply rwp_check; [done|]. intros [] Hf%ensure_ok. bools.
  assert (Hle : forall b id i : OperationId, (uuid b <= uuid i)%N -> (uuid id <= uuid b)%N -> id_leb id i = true).
  { intros b id i Hbi Hib. apply N.leb_le. lia. }
  destruct (barrier (registry a)) as [b|] eqn:Hb; [|apply spec_retire_above; [done..|]; by rewrite Hb].
  destruct (id_leb (History.through requested) (History.through b)) eqn:Hc.
  - apply rwp_ret, kept_ok_; [done|]. split; [done|]. intros id Hid%N.leb_le. apply N.leb_le in Hc.
    by eapply Hle.
  - apply spec_retire_above; [done..|]. rewrite Hb. intros id Hid%N.leb_le. apply N.leb_gt in Hc.
    apply (Hle (History.through b)); [lia|done].
Qed.

(** ** Output and shutdown *)

Lemma gwp_open_output cov n k (Q : option bytes -> Guest -> Prop) g :
  (forall o, Q o (record g Syscall)) -> gwp cov (open_output n k) Q g.
Proof.
  intros HQ. apply gwp_looks; [|by intros].
  intros g1 g' o. destruct (files g1 !! n) as [[]|]; [by intros [= <- _]|done..|].
  destruct (k =? 0); [by intros [= <- _]|done].
Qed.

Lemma spec_output q a : ok a -> rwp (output q) (kept (fun _ _ => True)) a.
Proof.
  intros Hok. unfold output.
  apply rwp_check; [done|]. intros id _. apply rwp_check; [done|]. intros [] _.
  apply rwp_check; [done|]. intros b _. apply rwp_bind. eapply rwp_mono; [by apply spec_inspect|].
  intros [o|[]] a' Hk; [|done..]. destruct Hk as (_ & -> & ->).
  apply rwp_check; [done|]. intros rc _. apply rwp_check; [done|]. intros [] _.
  apply (rwp_call _ _ (fun _ _ => True)); [done|by apply gwp_open_output|]. intros file g Hok' _ _.
  apply rwp_bind, (rwp_mono _ (kept (fun _ _ => True))).
  - destruct file as [content|].
    + apply rwp_check; [done|]. intros [] _. apply rwp_check; [done|]. intros [] _.
      apply (rwp_call _ _ (fun _ _ => True)); [done|by apply gwp_unseen|]. intros [] g1 Hok1 _ _.
      apply (rwp_call _ _ (fun _ _ => True)); [done|by apply gwp_ask|]. intros n g2 Hok2 _ _.
      by apply rwp_ret, kept_ok_.
    + apply rwp_check; [done|]. intros [] _. by apply rwp_ret, kept_ok_.
  - intros [d|[]] a2 Hk; [|done..]. apply rwp_ret, kept_ok_; [apply Hk|done].
Qed.

Lemma spec_shutdown a : ok a -> rwp shutdown (kept (fun _ _ => True)) a.
Proof.
  intros Hok. unfold shutdown. apply rwp_bind, rwp_update, rwp_bind, rwp_registry. cbn.
  set (a' := {| config := config a |}).
  assert (Hok' : ok a') by (destruct Hok as [Hrec Hfl Hex Hfi Hkn Hno Hre Hsz Hrs Htk Hidl Hpe Hgr Hcx Hty Hrp];
    split; try done; intros t Ht; by destruct (Htk t Ht)).
  destruct (active (registry a)) as [[id f]|]; [|by apply rwp_ret, kept_ok_].
  apply rwp_bind. eapply rwp_mono; [by apply spec_cancel|]. intros [rc|[]] a2 Hk; [|done..].
  apply rwp_ret, kept_ok_; [apply Hk|done].
Qed.
End keeps.
