(* ===== verification/RunnerTask.v ===== *)
(** * Every step of a command's task keeps the agent's invariant *)

From S2P Require Import Prelude Ext Ids GuestModel GuestWire GuestEnv Runner GuestServer RunnerLaws RunnerInv RunnerKeeps.
From S2P Require History.

Section task.
Context `{GuestEnv, UuidLaws, Sha256, Sha256Laws0 : !Sha256Laws, Serde Receipt, Serde History.Binding,
          RunnerSerde0 : !RunnerSerde, Serde ExitReport, Serde Envelope, Serde Execute}.
Context (Hon : Prop).
Abbreviation ok := (ok Hon).
Abbreviation kept := (kept Hon).
Abbreviation agent_ok := (agent_ok Hon).
Abbreviation world_ok := (world_ok Hon).
Abbreviation nothing := (fun _ _ => True).

Lemma agent_ok_world c r t g : agent_ok c r t g -> world_ok g.
Proof. by intros []. Qed.

(** The receipt of the command that is being executed. *)
Lemma agent_ok_running c r t g :
  agent_ok c r (Some t) g ->
  exists f rc, active r = Some (task_id t, f) /\ receipts r !! task_id t = Some rc /\ running_ok Hon t f rc.
Proof. intros Hok. exact (tk_running _ _ _ _ (ao_task _ _ _ _ _ Hok t eq_refl)). Qed.

(** A new phase of the task. *)
Lemma agent_ok_phase c r t g p :
  agent_ok c r (Some t) g -> p <> Starting ->
  (forall f rc, active r = Some (task_id t, f) -> running_ok Hon t f rc -> phase_ok Hon (r_output_limit rc) f p) ->
  (forall o, p = Cleaned o true -> group (task_id t) ∉ groups g) ->
  agent_ok c r (Some (set_phase t p)) g.
Proof.
  intros Hok Hp Hph Hcl. destruct (agent_ok_running _ _ _ _ Hok) as (f & rc & Ha & Hrc & Hrun).
  pose proof (Hph f rc Ha Hrun) as Hp'. apply (agent_ok_task _ _ _ t _ _ f rc); try done.
  destruct Hrun. by split.
Qed.

(** ** The start *)

Lemma agent_ok_group c r t g :
  agent_ok c r (Some t) g -> phase t = Running ->
  agent_ok c r (Some t) (set_groups g ({[group (task_id t)]} ∪ groups g)).
Proof.
  intros [Hrec Hfl Hex Hfi Hkn Hno Hre Hsz Hrs Htk Hidl Hpe Hgr Hcx Hty Hrp] Hp. split; try done.
  - intros t' [= <-]. destruct (Htk t eq_refl) as [Hrun Hst Hcl]. split; [done..|]. intros o. by rewrite Hp.
  - cbn. intros i [->%elem_of_singleton|Hi]%elem_of_union; [|by apply Hgr]. left. exists t. by rewrite Hp.
Qed.

Lemma agent_ok_launch c r t g :
  agent_ok c r (Some t) g -> phase t = Running -> task_id t ∉ launches (trace g) ->
  agent_ok c r (Some t) (record g (Launch (task_id t))).
Proof.
  intros Hok Hp Hnew. destruct (agent_ok_running _ _ _ _ Hok) as (f & rc & Ha & Hrc & Hrun).
  destruct Hok as [Hrec Hfl Hex Hfi Hkn Hno Hre Hsz Hrs Htk Hidl Hpe Hgr Hcx Hty Hrp].
  assert (Hs : is_Some (receipts r !! task_id t)) by (by exists rc).
  split; try done; cbn.
  - intros id [->|Hid]%elem_of_cons; [|by apply Hrec]. split; [by eapply mo_canonical, Hre|by apply Hfi].
  - intros id [->|Hid]%elem_of_cons; [by left|by apply Hkn].
  - by constructor.
  - intros t' [= <-]. destruct (Htk t eq_refl) as [Hrun' Hst Hcl]. split; [done| |done]. by rewrite Hp.
Qed.

Section start.
Context (c : Config) (r : Registry) (t : Task).
Abbreviation t' := (set_phase t Running).

(** The command is on its way and has not been launched. *)
Definition begun (g : Guest) : Prop := agent_ok c r (Some t') g /\ task_id t ∉ launches (trace g).
Lemma begun_calm g g' : begun g -> calm (floor g) g g' -> begun g'.
Proof. intros [Hok Hn] Hc. split; [by eapply agent_ok_calm|]. by rewrite (sd_launches _ _ _ (proj1 Hc)). Qed.
Lemma begun_start g : agent_ok c r (Some t) g -> phase t = Starting -> begun g.
Proof.
  intros Hok Hp. split; [|by apply (tk_starting _ _ _ _ (ao_task _ _ _ _ _ Hok t eq_refl))].
  by apply agent_ok_phase.
Qed.

Definition started (res : result failure (option Outcome)) (a : Agent) : Prop :=
  config a = c /\ registry a = r /\ task a = Some t /\ agent_ok c r (Some t') (guest a) /\
  forall o, res = Ok (Some o) -> forall f rc, active r = Some (task_id t, f) -> running_ok Hon t f rc ->
    outcome_ok Hon (r_output_limit rc) f o.

Lemma begun_call {A B} (m : ST Guest failure A) Q0 (k : A -> R B) (Q : result failure B -> Agent -> Prop) a :
  begun (guest a) -> gwp (floor (guest a)) m Q0 (guest a) ->
  (forall x g, begun g -> Q0 x g -> rwp (k x) Q (with_guest a g)) ->
  (forall e g, begun g -> Q (Err e) (with_guest a g)) -> rwp (on_guest m ≫= k) Q a.
Proof.
  intros Hb Hm Hk He. apply rwp_bind, rwp_on_guest. eapply rwp_gwp; [exact Hm|..].
  - intros x g Hc HQ. apply Hk; [by eapply begun_calm|done].
  - intros e g Hc. apply He. by eapply begun_calm.
Qed.

Lemma spec_begin_execution a :
  config a = c -> registry a = r -> task a = Some t -> begun (guest a) ->
  rwp (begin_execution (request t)) started a.
Proof.
  intros Hc Hr Ht Hb.
  assert (Herr : forall e g, begun g -> started (Err e) (with_guest a g)) by (intros e g []; by split_and!).
  unfold begin_execution. apply rwp_bind, rwp_registry. rewrite Hr.
  assert (Hearly : forall s g, begun g -> s = TimedOut \/
      s = Cancelled /\ is_some_and (fun x : OperationId * bool => x.2) (active r) = true ->
    started (Ok (Some (s, None, output_default, output_default))) (with_guest a g)).
  { intros s g [] Hs. split_and!; [done..|]. intros o [= <-] f rc Ha Hrun. split_and!; [by split..| | | |].
    - destruct (rn_budget _ _ _ _ Hrun), (rn_counted _ _ _ _ Hrun) as [[] []]. cbn. lia.
    - by destruct Hs as [->|[-> _]].
    - intros ->. destruct Hs as [|[_ Hs]]; [done|]. by rewrite Ha in Hs.
    - by destruct Hs as [->|[-> _]]. }
  destruct (is_some_and _ (active r)) eqn:Hf; [apply rwp_ret|].
  { destruct a. apply (Hearly Cancelled _ Hb). by right. }
  apply (begun_call _ nothing); [done|by apply gwp_ask| |done]. intros now g1 Hb1 _.
  destruct (_ <=? now); [apply rwp_ret, Hearly; [done|by left]|].
  apply rwp_bind, rwp_config. cbn.
  apply rwp_bind, rwp_on_guest, rwp_syscall.
  { intros e. by apply Herr, (begun_calm g1), calm_record. }
  intros g2 [] Hg2. cbn in Hg2. destruct (decide _); [done|]. injection Hg2 as <-.
  assert (Hb2 : begun (set_groups (record g1 Syscall) ({[group (task_id t)]} ∪ groups g1))).
  { split; [|apply Hb1]. apply (agent_ok_group _ _ t' (record g1 Syscall)); [|done].
    by apply (begun_calm g1), calm_record. }
  assert (Hstream : forall b g, begun g -> gwp (floor g) (create_new (name_of (task_id t) (stream_suffix b))) nothing g).
  { intros b g _. by apply gwp_create_new; [apply stream_ordinary|]. }
  apply (begun_call _ nothing); [done|by apply gwp_unseen| |done]. intros [] g3 Hb3 _.
  apply (begun_call _ nothing); [done|by apply (Hstream true)| |done]. intros [] g4 Hb4 _.
  apply (begun_call _ nothing); [done|by apply (Hstream false)| |done]. intros [] g5 Hb5 _.
  apply rwp_bind, rwp_checked; [intros x _|intros e; by apply (Herr _ g5)].
  apply rwp_bind, rwp_on_guest, rwp_ask.
  set (g6 := record g5 (Launch (task_id t))). assert (Hb6 : agent_ok c r (Some t') g6) by (destruct Hb5; by apply (agent_ok_launch _ _ t')).
  apply rwp_bind, rwp_checked; [intros [] _|intros e; by split_and!].
  apply rwp_bind, rwp_on_guest, rwp_ask, rwp_ret. split_and!; [done..|by eapply agent_ok_calm, calm_record|done].
Qed.
End start.

Lemma spec_begin_task t a :
  ok a -> task a = Some t -> phase t = Starting -> rwp (begin_task t) (kept nothing) a.
Proof.
  intros Hok Ht Hp. unfold begin_task. apply rwp_bind, rwp_attempt.
  eapply rwp_mono; [apply (spec_begin_execution (config a) (registry a) t); [done..|]|].
  { apply begun_start; [|done]. unfold RunnerInv.ok in Hok. by rewrite Ht in Hok. }
  assert (Hnext : forall p a', config a' = config a -> registry a' = registry a ->
      agent_ok (config a) (registry a) (Some (set_phase t Running)) (guest a') -> p <> Starting ->
      (forall f rc, active (registry a) = Some (task_id t, f) -> running_ok Hon t f rc -> phase_ok Hon (r_output_limit rc) f p) ->
      (forall o, p <> Cleaned o true) -> rwp (set_task (Some (set_phase t p))) (kept nothing) a').
  { intros p a' Hc Hr Hok' Hne Hph Hcl. apply rwp_set_task, kept_ok_; [|done]. unfold RunnerInv.ok. cbn.
    rewrite Hc, Hr. apply (agent_ok_phase _ _ _ _ p) in Hok'; [exact Hok'|done| |by intros o ?%Hcl].
    intros f rc Ha Hrun. apply (Hph f rc Ha). destruct Hrun. by split; try rewrite Hp. }
  intros res a' (Hc & Hr & _ & Hok' & Ho). destruct res as [[o|]|[|e]].
  - apply Hnext; try done. intros f rc Ha Hrun. by apply (Ho o eq_refl f rc).
  - by apply Hnext.
  - by apply agent_ok_world in Hok'.
  - by apply Hnext.
Qed.

(** ** The wait and its end *)

(** Handlers that leave all but the guest alone. *)
Definition framed {A} (m : R A) : Prop := forall a,
  config (m a).1 = config a /\ registry (m a).1 = registry a /\ task (m a).1 = task a.
Lemma framed_bind {A B} (m : R A) (k : A -> R B) : framed m -> (forall x, framed (k x)) -> framed (m ≫= k).
Proof.
  intros Hm Hk a. unfold mbind, ST_bind. specialize (Hm a). destruct (m a) as [a' [x|e]]; [|done].
  cbn in *. destruct Hm as (Hc & Hr & Ht). rewrite <- Hc, <- Hr, <- Ht. apply Hk.
Qed.
Lemma framed_checked {A} (r : result anyhow A) : framed (checked r).
Proof. done. Qed.
Lemma framed_on_guest {A} (m : ST Guest failure A) : framed (on_guest m).
Proof. intros a. unfold on_guest. by destruct (m (guest a)). Qed.
Lemma framed_ret {A} (x : A) : framed (mret x).
Proof. done. Qed.
Lemma rwp_framed {A} (m : R A) (Q : result failure A -> Agent -> Prop) a :
  framed m -> rwp m (fun r a' => config a' = config a -> registry a' = registry a -> task a' = task a -> Q r a') a ->
  rwp m Q a.
Proof. intros Hf Hm. destruct (Hf a) as (Hc & Hr & Ht). by apply Hm. Qed.

Lemma set_phase_kept t p a :
  ok a -> task a = Some t -> p <> Starting ->
  (forall f rc, active (registry a) = Some (task_id t, f) -> running_ok Hon t f rc -> phase_ok Hon (r_output_limit rc) f p) ->
  (forall o, p = Cleaned o true -> group (task_id t) ∉ groups (guest a)) ->
  rwp (set_task (Some (set_phase t p))) (kept nothing) a.
Proof.
  unfold RunnerInv.ok. intros Hok Ht. rewrite Ht in Hok. intros Hp Hph Hcl.
  apply rwp_set_task, kept_ok_; [|done]. by apply agent_ok_phase.
Qed.

(** A call whose error the task handles. *)
Lemma rwp_try {A B} (m : ST Guest failure A) (Q0 : A -> Guest -> Prop) (k : result anyhow A -> R B) (Q : B -> Agent -> Prop) a :
  ok a -> gwp (floor (guest a)) m Q0 (guest a) ->
  (forall x g, ok (with_guest a g) -> (forall v, x = Ok v -> Q0 v g) -> rwp (k x) (kept Q) (with_guest a g)) ->
  rwp (attempt (on_guest m) ≫= k) (kept Q) a.
Proof.
  intros Hok Hm Hk. apply rwp_bind, rwp_attempt. eapply rwp_calm; [done|exact Hm|..].
  - intros x g Hg _ HQ. apply Hk; [done|]. by intros v [= <-].
  - intros [|e] g Hg _; [by apply ok_world in Hg|by apply Hk].
Qed.

Lemma spec_stop_waiting t s a :
  ok a -> task a = Some t -> rwp (stop_waiting t s) (kept nothing) a.
Proof.
  intros Hok Ht. unfold stop_waiting. apply rwp_bind, rwp_registry.
  apply (rwp_call _ _ nothing); [done|by apply gwp_ask|]. intros now g1 Hok1 _ _.
  destruct (match s with CancelSignal => _ | _ => _ end) eqn:Hs; [|by apply rwp_ret, kept_ok_].
  apply (rwp_try _ nothing); [done|by apply gwp_cleanup|]. intros x g2 Hok2 _.
  apply set_phase_kept; [done..| |done]. intros f rc Ha Hrun. split; [by destruct s as [| | | |[]]|].
  cbn in Ha. rewrite Ha in Hs. by destruct s as [| | | |[]].
Qed.

Lemma framed_finish t state cleaned : framed (finish_execution t state cleaned).
Proof.
  apply framed_bind; [done|]. intros _. apply framed_bind; [done|]. intros _. apply framed_bind; [|done].
  destruct (bool_decide _); [|done]. apply framed_bind; [apply framed_on_guest|]. intros rep. by apply framed_bind.
Qed.

Lemma spec_finish_execution t state cleaned a :
  ok a -> phase t = Draining state cleaned ->
  rwp (finish_execution t state cleaned) (kept (fun o a' =>
    forall f rc, running_ok Hon t f rc -> outcome_ok Hon (r_output_limit rc) f o)) a.
Proof.
  intros Hok Hp. unfold finish_execution. apply rwp_check; [done|]. intros [] _. apply rwp_check; [done|]. intros [] _.
  apply rwp_bind, (rwp_mono _ (kept (fun rep a' =>
    Hon -> exit_ok state (rep ≫= x_exit_code) (rep ≫= x_signal) = true))).
  - case_bool_decide as Hs.
    + apply (rwp_call _ _ (fun rep g => Hon -> in_range rep = true)); [done| |].
      { apply gwp_read_json. intros x v Hx Hv Hh. by apply (ao_reports _ _ _ _ _ Hok Hh (task_id t) x). }
      intros rep g Hg _ Hr. apply rwp_check; [done|]. intros [] Hx%ensure_ok. apply rwp_ret, kept_ok_; [done|].
      intros Hh. specialize (Hr Hh). unfold in_range in Hr. unfold exit_ok. bools.
      rewrite bool_decide_eq_true_2 by done. cbn.
      repeat match goal with h : _ = true |- _ => rewrite h; clear h end. done.
    + apply rwp_ret, kept_ok_; [done|]. intros _. unfold exit_ok. by rewrite bool_decide_eq_false_2.
  - intros [rep|[]] a' Hk; [|done..]. destruct Hk as (Hok' & Hx). apply rwp_ret, kept_ok_; [done|].
    intros f rc Hrun. destruct (rn_counted _ _ _ _ Hrun), (rn_budget _ _ _ _ Hrun).
    pose proof (rn_phase _ _ _ _ Hrun) as Hph. rewrite Hp in Hph. destruct Hph. split_and!; try done. lia.
Qed.

Lemma spec_finish_task t state cleaned a :
  ok a -> task a = Some t -> phase t = Draining state cleaned ->
  rwp (finish_task t state cleaned) (kept nothing) a.
Proof.
  intros Hok Ht Hp. unfold finish_task. apply rwp_bind, rwp_attempt, rwp_framed; [apply framed_finish|].
  eapply rwp_mono; [by apply spec_finish_execution|]. intros [o|[|e]] a' Hk _ _ Ht'; rewrite Ht in Ht'.
  - destruct Hk as (Hok' & Ho). apply set_phase_kept; [done..| |done]. intros f rc _. apply Ho.
  - exact Hk.
  - by apply set_phase_kept.
Qed.

(** ** Cleanup and commit *)

Lemma spec_clean_task t o a :
  ok a -> task a = Some t -> phase t = Returned o -> rwp (clean_task t o) (kept nothing) a.
Proof.
  intros Hok Ht Hp. unfold clean_task.
  apply (rwp_try _ (fun _ g => group (task_id t) ∉ groups g)); [done|by apply gwp_cleanup|].
  intros x g Hok' Hx. apply set_phase_kept; [done..| |].
  - intros f rc _ Hrun. pose proof (rn_phase _ _ _ _ Hrun) as Hph. rewrite Hp in Hph. by destruct o.
  - intros o' [= _ Hc]. destruct x as [[]|]; [by apply (Hx tt)|done].
Qed.

(** The receipt with which a command ends. *)
Lemma concluded_ok c t o b f rc :
  mem_ok Hon c (task_id t) rc -> running_ok Hon t f rc -> phase t = Cleaned o b ->
  mem_ok Hon c (task_id t) (concluded rc o b) /\ terminal (r_state (concluded rc o b)) = true /\
  r_cleanup_confirmed (concluded rc o b) = b /\ r_output_limit (concluded rc o b) = r_output_limit rc.
Proof.
  intros [Hi Ht Hc Hl Hv] Hrun Hp. pose proof (rn_phase _ _ _ _ Hrun) as Hph. rewrite Hp in Hph.
  destruct Hrun as [(Hs & Hcl & Hx & Hsg & Hrs) Hcan _ [Hb1 Hb2] Hco (Hfo & Hfe & Hso & Hse) _].
  apply contains_spec in Hl as Hl'.
  assert (Hst : stats_ok (r_output_limit rc) (r_stdout rc) (r_stderr rc) = true) by (apply stats_flow; [done..|lia|lia]).
  assert (Hunknown : let u := set_state (set_cleanup rc b) Unknown (r_exit_code rc) (r_signal rc)
      (Some "execution_or_cleanup_unconfirmed") in
    mem_ok Hon c (task_id t) u /\ terminal (r_state u) = true /\ r_cleanup_confirmed u = b /\ r_output_limit u = r_output_limit rc).
  { split_and!; [|done..]. split; [done..|]. intros Hh. specialize (Hv Hh). apply receipt_split in Hv. apply receipt_split.
    destruct Hv. split; cbn; try done. by rewrite Hx, Hsg. }
  unfold concluded. destruct o as [[[[s rep] so] se]|e]; [|exact Hunknown]. destruct b; [|exact Hunknown].
  destruct Hph as (Hfs & Hfr & Hsum & Hne & Hcc & Hex). split_and!; [|by destruct s|done..].
  split; [done| |done..|].
  - unfold receipt_typed in *. cbn. destruct Hfs as [Hs1 _], Hfr as [Hs2 _].
    apply andb_true_iff in Ht as [[Ht _]%andb_true_iff _]. rewrite Ht. cbn. by rewrite !(proj2 (Z.leb_le _ _)).
  - intros Hh. specialize (Hv Hh). apply receipt_split in Hv. apply receipt_split. destruct Hv as [Hhd _ _ _ _ _].
    split; cbn; try done.
    + apply stats_flow; [done..|lia].
    + by rewrite Hrs.
    + by apply Hex.
    + destruct s; try done. by rewrite Hcan by (by apply Hcc).
Qed.

(** The command that is being executed ends. *)
Lemma agent_ok_end c r t g r' rc rc' :
  agent_ok c r (Some t) g -> receipts r !! task_id t = Some rc ->
  barrier r' = barrier r -> receipts r' = <[task_id t := rc']> (receipts r) -> active r' = None ->
  (failed r' = false -> failed r = false) -> mem_ok Hon (context c) (task_id t) rc' ->
  r_output_limit rc' = r_output_limit rc -> terminal (r_state rc') = true ->
  (r_cleanup_confirmed rc' = true -> group (task_id t) ∉ groups g) -> agent_ok c r' None g.
Proof.
  intros [Hrec Hfl Hex Hfi Hkn Hno Hre Hsz Hrs Htk Hidl Hpe Hgr Hcx Hty Hrp] Hrc Hb Hr Ha Hfd Hmem Hlim Hterm Hcl.
  assert (Hdom : forall id, is_Some (receipts r' !! id) <-> is_Some (receipts r !! id)).
  { intros id. rewrite Hr, lookup_insert_is_Some'. split; [intros [<-|]|]; [by exists rc|done|by right]. }
  split; rewrite ?Hb; try done.
  - intros Hf. by apply Hex, Hfd.
  - intros id Hi. by apply Hfi, Hdom.
  - intros id Hi. rewrite Hdom. by apply Hkn.
  - intros id x. rewrite Hr. intros [[<- <-]|[_ Hx]]%lookup_insert_Some; [done|by apply Hre].
  - rewrite Hr, map_size_insert_Some; [done|by exists rc].
  - unfold reserved. rewrite Hr, (reserved_replace _ _ rc) by done. exact Hrs.
  - intros id x. rewrite Hr. intros [[<- <-]|[Hne Hx]]%lookup_insert_Some Ht; [congruence|].
    by destruct (Hpe id x Hx Ht) as (t2 & [= <-] & Hid).
  - intros i Hi. right. destruct (Hgr i Hi) as [(t2 & [= <-] & -> & _)|(id & x & -> & Hx & Ht & Hc)].
    + exists (task_id t), rc'. rewrite Hr, lookup_insert_eq. split_and!; [done..|].
      destruct (r_cleanup_confirmed rc'); [|done]. by specialize (Hcl eq_refl).
    + exists id, x. rewrite Hr, lookup_insert_ne; [done|]. intros <-. rewrite Hrc in Hx. injection Hx as <-.
      destruct (tk_running _ _ _ _ (Htk t eq_refl)) as (f & y & _ & Hy & Hrn). rewrite Hrc in Hy. injection Hy as <-.
      destruct (rn_state _ _ _ _ Hrn) as [Hs _]. by rewrite Hs in Ht.
Qed.

Lemma uncommitted_ok c id rc :
  mem_ok Hon c id rc -> mem_ok Hon c id (set_state rc Unknown None None (Some "receipt_commit_unconfirmed")).
Proof.
  intros [Hi Ht Hc Hl Hv]. split; [done..|]. intros Hh. specialize (Hv Hh). apply receipt_split in Hv. apply receipt_split.
  destruct Hv. by split.
Qed.

Lemma spec_commit_task t o b a :
  ok a -> task a = Some t -> phase t = Cleaned o b -> rwp (commit_task t o b) (kept nothing) a.
Proof.
  intros Hok Ht Hp. unfold RunnerInv.ok in Hok. rewrite Ht in Hok.
  destruct (agent_ok_running _ _ _ _ Hok) as (f & rc & Ha & Hrc & Hrun).
  destruct (concluded_ok (context (config a)) t o b f rc) as (Hmem & Hterm & Hcl & Hlim); [|done..|].
  { by apply (ao_receipts _ _ _ _ _ Hok). }
  assert (Hgone : b = true -> group (task_id t) ∉ groups (guest a)).
  { intros ->. by apply (tk_cleaned _ _ _ _ (ao_task _ _ _ _ _ Hok t eq_refl) o). }
  unfold commit_task. apply rwp_bind, rwp_registry, rwp_bind, rwp_set_task.
  change (e_operation_id (request t)) with (task_id t). rewrite Hrc. apply rwp_bind, rwp_update.
  set (rc' := concluded rc o b) in *. apply rwp_bind, rwp_attempt, rwp_on_guest. cbn.
  eapply rwp_gwp; [by apply (gwp_write_receipt _ _ _ nothing)|..].
  - intros [] g Hc _. pose proof (agent_ok_calm _ _ _ _ _ _ Hok Hc) as Hok'. destruct Hc as [[_ _ _ Hg] _].
    apply rwp_bind, rwp_ret.
    assert (Hend : forall fd, (fd = false -> failed (registry a) = false) ->
      agent_ok (config a) (set_active (set_failed (set_receipts (registry a)
        (<[task_id t := rc']> (receipts (registry a)))) fd) None) None g).
    { intros fd Hfd. apply (agent_ok_end _ (registry a) t _ _ rc rc'); try done. rewrite Hcl. intros Hb Hi.
      by apply (Hgone Hb), Hg. }
    destruct b.
    + apply rwp_bind, rwp_ret, rwp_update, kept_ok_; [|done]. by apply (Hend (failed (registry a))).
    + apply rwp_bind, rwp_update, rwp_update, kept_ok_; [|done]. by apply (Hend true).
  - intros [|e] g Hc; pose proof (agent_ok_calm _ _ _ _ _ _ Hok Hc) as Hok'; [by apply agent_ok_world in Hok'|].
    destruct Hc as [[_ _ _ Hg] _]. apply rwp_bind, rwp_bind, rwp_update, rwp_update.
    set (rc2 := set_state rc' _ _ _ _).
    assert (Hend : agent_ok (config a) (set_active (set_failed (set_receipts (registry a)
        (<[task_id t := rc2]> (<[task_id t := rc']> (receipts (registry a))))) true) None) None g).
    { apply (agent_ok_end _ (registry a) t _ _ rc rc2); try done; [by apply insert_insert_eq|by apply uncommitted_ok|].
      change (r_cleanup_confirmed rc2) with (r_cleanup_confirmed rc'). rewrite Hcl. intros Hb Hi. by apply (Hgone Hb), Hg. }
    apply rwp_bind. destruct b; [apply rwp_ret|apply rwp_update]; (apply rwp_update, kept_ok_; [exact Hend|done]).
Qed.

(** ** Captures *)

(** What a capture has counted grows, within the budget. *)
Lemma running_capture t f rc stdout b c' :
  running_ok Hon t f rc -> flow_ok (counted c') ->
  stored (counted (capture_of t stdout)) <= stored (counted c') -> 0 <= b ->
  b + stored (counted c') <= budget t + stored (counted (capture_of t stdout)) ->
  running_ok Hon (set_capture t stdout b c') f rc.
Proof.
  intros [Hs Hc Hl Hb Hco Hp Hph] Hf Hle Hb0 Hsum. destruct Hco as [Hfo Hfe].
  destruct stdout; (split; cbn in *; [done..|lia|by split|split_and!; lia || apply Hp|done]).
Qed.

Lemma agent_ok_capture c r t g stdout b c' :
  agent_ok c r (Some t) g -> flow_ok (counted c') ->
  stored (counted (capture_of t stdout)) <= stored (counted c') -> 0 <= b ->
  b + stored (counted c') <= budget t + stored (counted (capture_of t stdout)) ->
  agent_ok c r (Some (set_capture t stdout b c')) g.
Proof.
  intros Hok Hf Hle Hb Hsum. destruct (agent_ok_running _ _ _ _ Hok) as (f & rc & Ha & Hrc & Hrun).
  assert (phase (set_capture t stdout b c') = phase t) as Hp by (by destruct stdout).
  apply (agent_ok_task _ _ _ t _ _ f rc); rewrite ?Hp; try done.
  - by destruct stdout.
  - by apply running_capture.
  - apply (tk_cleaned _ _ _ _ (ao_task _ _ _ _ _ Hok t eq_refl)).
Qed.

(** The capture and the budget of the task as they are. *)
Lemma capture_counts c r t g stdout :
  agent_ok c r (Some t) g ->
  flow_ok (counted (capture_of t stdout)) /\ 0 <= budget t <= MAX_OUTPUT /\
  budget t + stored (counted (capture_of t stdout)) <= MAX_OUTPUT.
Proof.
  intros Hok. destruct (agent_ok_running _ _ _ _ Hok) as (f & rc & Ha & Hrc & Hrun).
  pose proof (mo_limit _ _ _ _ (ao_receipts _ _ _ _ _ Hok _ _ Hrc)) as Hl. apply contains_spec in Hl.
  destruct (rn_budget _ _ _ _ Hrun) as [Hb Hsum], (rn_counted _ _ _ _ Hrun) as [Ho He].
  pose proof (proj1 Ho). pose proof (proj1 He). destruct stdout; cbn; split_and!; try done; lia.
Qed.

Lemma capture_stays t stdout p a :
  ok a -> task a = Some t ->
  rwp (set_task (Some (set_capture t stdout (budget t)
    {| counted := counted (capture_of t stdout); progress_ := p |}))) (kept nothing) a.
Proof.
  unfold RunnerInv.ok. intros Hok Ht. rewrite Ht in Hok.
  apply rwp_set_task, kept_ok_; [|done]. destruct (capture_counts _ _ _ _ stdout Hok) as (Hf & Hb & _).
  apply agent_ok_capture; cbn; try done; lia.
Qed.

(** [capture] counts what it reads and what it keeps of it. *)
Lemma flow_read o n k :
  flow_ok o -> k <= n -> 0 <= k -> stored o + k <= MAX_OUTPUT ->
  flow_ok {| seen := u64_saturating_add (seen o) n; stored := stored o + k;
             truncated := truncated o || (k <? n) |}.
Proof.
  intros [Hs Ho] Hk Hk0 Hm. split; cbn; [lia|]. unfold output_ok in *. cbn.
  unfold u64_saturating_add, clamp, U64_MAX, MAX_OUTPUT in *.
  apply andb_true_iff in Ho as [Hle%Z.leb_le Ht%eqb_prop].
  apply andb_true_iff. split; [apply Z.leb_le; lia|]. rewrite Ht. apply eqb_true_iff.
  destruct (Z.ltb_spec (stored o) (seen o)), (Z.ltb_spec k n); cbn; symmetry; (apply Z.ltb_lt || apply Z.ltb_ge); lia.
Qed.

Lemma rwp_try_calm {A B} (m : ST Guest failure A) (k : result anyhow A -> R B) (Q : B -> Agent -> Prop) a :
  ok a -> gwp (floor (guest a)) m nothing (guest a) ->
  (forall x g, ok (with_guest a g) -> rwp (k x) (kept Q) (with_guest a g)) ->
  rwp (attempt (on_guest m) ≫= k) (kept Q) a.
Proof. intros Hok Hm Hk. by apply (rwp_try m nothing); [..|intros x g Hg _; apply Hk]. Qed.

Lemma spec_capture_fail t stdout a : ok a -> task a = Some t -> rwp (capture_fail t stdout) (kept nothing) a.
Proof. intros Hok Ht. by apply capture_stays. Qed.

Lemma spec_capture_read t stdout x a : ok a -> task a = Some t -> rwp (capture_read t stdout x) (kept nothing) a.
Proof.
  intros Hok Ht. unfold capture_read. destruct (strlen x =? 0) eqn:Hx.
  - apply rwp_try_calm; [done|by apply gwp_unseen|]. intros y g Hg. by apply capture_stays.
  - apply rwp_try_calm; [done|by apply gwp_write_all; [apply stream_ordinary|]|]. intros y g Hg.
    apply rwp_set_task, kept_ok_; [|done]. unfold RunnerInv.ok in *. cbn in *. rewrite Ht in Hg.
    destruct (capture_counts _ _ _ _ stdout Hg) as (Hf & Hb & Hm).
    assert (Hn : 0 <= strlen x) by (unfold strlen; lia). set (n := strlen x) in *.
    assert (Hsub : u64_saturating_sub (budget t) n + Z.min n (budget t) = budget t /\ 0 <= u64_saturating_sub (budget t) n).
    { unfold u64_saturating_sub, clamp, U64_MAX, MAX_OUTPUT in *. lia. }
    destruct y as [[]|]; apply agent_ok_capture; cbn; try done; try lia.
    apply flow_read; [done|lia..].
Qed.

Lemma running_publish t f rc stdout p :
  running_ok Hon t f rc ->
  running_ok Hon (set_capture t stdout (budget t) {| counted := counted (capture_of t stdout); progress_ := p |}) f
    (if stdout then set_output rc (counted (capture_of t stdout)) (r_stderr rc)
     else set_output rc (r_stdout rc) (counted (capture_of t stdout))).
Proof.
  intros [Hs Hc Hl Hb Hco Hp Hph]. destruct Hco as [Hfo Hfe], Hp as (Hpo & Hpe & Hso & Hse).
  destruct stdout; (split; cbn in *; [done..|by split|split_and!; done || lia|done]).
Qed.

Lemma spec_capture_publish t stdout a : ok a -> task a = Some t -> rwp (capture_publish t stdout) (kept nothing) a.
Proof.
  unfold RunnerInv.ok. intros Hok Ht. rewrite Ht in Hok.
  destruct (agent_ok_running _ _ _ _ Hok) as (f & rc & Ha & Hrc & Hrun).
  unfold capture_publish. apply rwp_bind, rwp_registry. change (e_operation_id (request t)) with (task_id t). rewrite Hrc.
  apply rwp_bind, rwp_update, rwp_set_task, kept_ok_; [|done]. unfold RunnerInv.ok. cbn.
  pose proof (running_publish _ _ _ stdout Reading Hrun) as Hrun'.
  assert (phase (set_capture t stdout (budget t) {| counted := counted (capture_of t stdout); progress_ := Reading |})
    = phase t) as Hp by (by destruct stdout).
  eapply (agent_ok_step _ _ (registry a) t _ _ _ rc); rewrite ?Hp; try done.
  - by destruct stdout.
  - eapply mem_ok_running; [by apply (ao_receipts _ _ _ _ _ Hok)|exact Hrun| |by destruct stdout..].
    destruct Hrun'. split; try done; by destruct stdout.
  - by destruct stdout.
  - apply (tk_cleaned _ _ _ _ (ao_task _ _ _ _ _ Hok t eq_refl)).
Qed.

(** ** All of them *)

Lemma spec_step_task s a : ok a -> rwp (step_task s) (kept nothing) a.
Proof.
  intros Hok. unfold step_task. apply rwp_bind, rwp_get. destruct (task a) as [t|] eqn:Ht; [|by apply rwp_ret, kept_ok_].
  assert (Hnone : rwp (mret tt) (kept nothing) a) by (by apply rwp_ret, kept_ok_).
  destruct s, (phase t) eqn:Hp; try exact Hnone; try (case_match; [|exact Hnone]).
  - by apply spec_begin_task.
  - by apply spec_capture_read.
  - by apply spec_capture_read.
  - by apply spec_capture_fail.
  - by apply spec_capture_fail.
  - by apply spec_capture_publish.
  - by apply spec_capture_publish.
  - by apply spec_capture_publish.
  - by apply spec_capture_publish.
  - by apply spec_stop_waiting.
  - by apply spec_finish_task.
  - by apply spec_clean_task.
  - by apply spec_commit_task.
Qed.
End task.
