(* ===== verification/RunnerTheorems.v ===== *)
(** * The guest agent through its lives: requests, steps of its task, deaths and restarts *)

From S2P Require Import Prelude Ext Ids GuestModel GuestWire GuestEnv Runner GuestServer RunnerLaws RunnerInv RunnerKeeps RunnerTask.
From S2P Require History Command.

Section machine.
Context `{GuestEnv, UuidLaws, Sha256, Sha256Laws0 : !Sha256Laws, Serde Receipt, Serde History.Binding,
          RunnerSerde0 : !RunnerSerde, Serde ExitReport, Serde Envelope, Serde Execute}.

Section invariant.
Context (Hon : Prop).
Abbreviation nothing := (fun _ _ => True).

(** An agent is opened for an allocation whose identifier is one; and, under [Hon], for a
    generation and a boot that exist, with launchers that report what processes do. *)
Definition event_ok (e : event) : Prop :=
  match e with
  | Open c => canonical (allocation_id (context c)) = true /\ (Hon -> header_ok 1 (context c) = true)
  | Report _ x => Hon -> forall rep, from_slice x = Some rep -> in_range rep = true
  | Serve _ | Step _ | Shutdown | Die => True
  end.

Definition machine_ok (m : Machine) : Prop :=
  match agent m with
  | Some (c, r, t) => agent_ok Hon c r t (world m)
  | None => world_ok Hon (world m)
  end.

(** *** Requests *)

(** A receipt that is given out is one of the agent's. *)
Definition answered (x : Result_) (a : Agent) : Prop :=
  match x with
  | RReceipt v => exists id rc, receipts (registry a) !! id = Some rc /\ v = from_receipt rc
  | _ => True
  end.

Lemma receipt_or_kept e m (Q : Receipt -> Agent -> Prop) a :
  rwp m (kept Hon Q) a -> (forall rc a', Q rc a' -> exists id, receipts (registry a') !! id = Some rc) ->
  rwp (receipt_or e m) (kept Hon answered) a.
Proof.
  intros Hm HQ. apply rwp_bind, rwp_attempt. eapply rwp_mono; [exact Hm|].
  intros [rc|[|x]] a' Hk; [|exact Hk|by apply rwp_ret, kept_ok_].
  destruct Hk as [Hok Hrc]. apply rwp_ret, kept_ok_; [done|]. destruct (HQ _ _ Hrc) as [id Hid]. by exists id, rc.
Qed.

Lemma spec_perform x a : ok Hon a -> rwp (perform x) (kept Hon answered) a.
Proof.
  intros Hok. destruct x as [|v|s|s|q|v|]; cbn [perform].
  - by apply rwp_ret, kept_ok_.
  - destruct (try_execute v) as [e|] eqn:He; [|by apply rwp_ret, kept_ok_].
    apply execute_wire_exact in He as (_ & _ & Hc). eapply receipt_or_kept; [by apply spec_start|].
    intros rc a' (Hrc & _). by eexists.
  - destruct (parse KOperation s) as [id|]; [|by apply rwp_ret, kept_ok_].
    apply rwp_bind. eapply rwp_mono; [by apply spec_inspect|]. intros [o|[]] a' Hk; [|done..].
    destruct Hk as (_ & -> & ->). apply rwp_ret, kept_ok_; [done|].
    destruct (receipts (registry a) !! id) as [rc|] eqn:Hrc; [|done]. by exists id, rc.
  - destruct (parse KOperation s) as [id|]; [|by apply rwp_ret, kept_ok_].
    eapply receipt_or_kept; [by apply spec_cancel|]. intros rc a' Hrc. by exists id.
  - apply rwp_bind, rwp_attempt. eapply rwp_mono; [by apply spec_output|].
    intros [c|[|e]] a' Hk; [|exact Hk|by apply rwp_ret, kept_ok_]. apply rwp_ret, kept_ok_; [apply Hk|done].
  - apply rwp_bind, rwp_attempt. apply (rwp_mono _ (kept Hon nothing)).
    + apply rwp_check; [done|]. intros b _. apply rwp_bind, rwp_config. apply rwp_check; [done|]. intros [] _.
      destruct (History.domain b); [|by apply rwp_checked; [|intros e; apply kept_err]].
      eapply rwp_mono; [by apply spec_retire_history|]. intros r a' Hk. by eapply kept_mono.
    + intros [b|[|e]] a' Hk; [|exact Hk|by apply rwp_ret, kept_ok_]. apply rwp_ret, kept_ok_; [apply Hk|done].
  - by apply rwp_ret, kept_ok_.
Qed.

Lemma spec_guest_dispatch q a :
  ok Hon a -> rwp (dispatch q) (kept Hon (fun p a' => forall x, p_result p = Some x -> answered x a')) a.
Proof.
  intros Hok. unfold dispatch. do 5 (apply rwp_check; [done|]; intros ? _).
  apply rwp_bind, rwp_config. do 2 (apply rwp_check; [done|]; intros ? _).
  apply rwp_bind. eapply rwp_mono; [by apply spec_perform|]. intros [x'|[]] a' Hk; [|exact Hk..].
  apply rwp_ret, kept_ok_; [apply Hk|]. cbn. intros y [= ->]. apply Hk.
Qed.

(** *** Events *)

Lemma handle_ok {A} (m : R A) c r t g :
  rwp m (kept Hon nothing) {| config := c; registry := r; task := t; guest := g |} -> machine_ok (handle m c r t g).
Proof.
  unfold rwp, handle. destruct (m _) as [a [x|[|e]]]; cbn; intros Hk; [apply Hk|exact Hk..].
Qed.

Lemma handle_kept {A} (m : R A) (Q : A -> Agent -> Prop) c r t g :
  rwp m (kept Hon Q) {| config := c; registry := r; task := t; guest := g |} -> machine_ok (handle m c r t g).
Proof. intros Hm. apply handle_ok. eapply rwp_mono; [exact Hm|]. intros x a Hk. by eapply kept_mono. Qed.

(** A report that a launcher leaves. *)
Section report.
Context (id : OperationId) (x : bytes).
Definition reported (g : Guest) : Guest := set_files g (<[name_of id ".exit" := File x]> (files g)).
Lemma reported_context g : files (reported g) !! CONTEXT_JSON = files g !! CONTEXT_JSON.
Proof. cbn. by rewrite lookup_insert_ne by apply name_context. Qed.
Lemma reported_receipt g i : files (reported g) !! receipt_path i = files g !! receipt_path i.
Proof.
  cbn. rewrite lookup_insert_ne; [done|]. intros Heq%(f_equal extension).
  by rewrite report_extension, path_extension in Heq.
Qed.
Lemma reported_record g : on_record g -> on_record (reported g).
Proof.
  intros Ho i Hi. rewrite reported_receipt, (floor_same _ _ (reported_context g)). by apply Ho.
Qed.
Lemma reported_reports g :
  (forall rep, from_slice x = Some rep -> in_range rep = true) -> reports_ok g -> reports_ok (reported g).
Proof.
  intros Hx Hr i y rep. cbn. intros [[_ [= ->]]|[_ Hf]]%lookup_insert_Some; [by apply Hx|by eapply Hr].
Qed.

Lemma reported_world g :
  (Hon -> forall rep, from_slice x = Some rep -> in_range rep = true) -> world_ok Hon g -> world_ok Hon (reported g).
Proof.
  intros Hx [Hrec Hno Hrp]. split; [by apply reported_record|done|]. intros Hh. by apply reported_reports; auto.
Qed.
Lemma reported_agent c r t g :
  (Hon -> forall rep, from_slice x = Some rep -> in_range rep = true) ->
  agent_ok Hon c r t g -> agent_ok Hon c r t (reported g).
Proof.
  intros Hx [Hrec Hfl Hex Hfi Hkn Hno Hre Hsz Hrs Htk Hidl Hpe Hgr Hcx Hty Hrp].
  pose proof (floor_same _ _ (reported_context g)) as Hf. split; try done.
  - by apply reported_record.
  - by rewrite Hf.
  - by rewrite Hf.
  - intros i. rewrite reported_receipt, Hf. apply Hfi.
  - intros t' Ht. by destruct (Htk t' Ht).
  - intros Hh. by apply reported_reports; auto.
Qed.
End report.

Lemma came_reports g g' : came g g' -> reports_ok g -> reports_ok g'.
Proof. intros [_ Hx] Hr id x rep Hf. apply Hr with (id := id). by apply Hx. Qed.

(** An agent that has opened. *)
Lemma opened_ok c c' r g :
  opened c g c' r -> world_ok Hon g -> canonical (allocation_id (context c)) = true ->
  (Hon -> header_ok 1 (context c) = true) -> agent_ok Hon c' r None g.
Proof.
  intros [Hc (Ha & Hf & Hcl) Hfl (_ & Hres & Hsz & Hk) Hfi Hkn Hg] [Hrec Hno Hrp] Hty Hh. cbn in *.
  rewrite <- Hc in *. split; try done.
  - intros id. by rewrite Hfl.
  - intros _ id. by rewrite Hfl.
  - intros id [rc Hrc]. left. destruct (Hk id rc Hrc) as [Hro _]. apply Hfi; [by eapply ro_canonical|by exists rc].
  - intros id Hid. rewrite <- Hfl. by apply Hkn.
  - intros id rc Hrc. destruct (Hk id rc Hrc) as [[Hi Ht Hv Hcx] _]. split; try done.
    apply receipt_split in Hv. by destruct Hv.
  - intros id rc Hrc Ht. destruct (Hk id rc Hrc) as [_ Hi]. unfold interrupted in Hi. by rewrite Ht in Hi.
  - intros i. rewrite Hg. by intros ?%not_elem_of_empty.
Qed.

(** Every event keeps the invariant. *)
Lemma run_ok e m : event_ok e -> machine_ok m -> machine_ok (run e m).
Proof.
  unfold machine_ok at 1. destruct m as [[[[c r] t]|] g]; cbn [agent world]; intros He Hm; destruct e as [q|s| | |c'|id x]; cbn [run agent world].
  - by eapply handle_kept, spec_guest_dispatch.
  - by eapply handle_kept, spec_step_task.
  - by eapply handle_kept, spec_shutdown.
  - by eapply agent_ok_world.
  - done.
  - case_bool_decide; [|done]. by apply (reported_agent id x).
  - done.
  - done.
  - done.
  - done.
  - destruct (starts_open c' g (wo_record _ _ Hm)) as (Hrec & Hcame & Ho); [by split|].
    assert (Hw : world_ok Hon (open c' g).1).
    { destruct Hm as [_ Hno Hrp]. split; [done|by rewrite (proj1 Hcame)|]. intros Hh. by eapply came_reports; auto. }
    destruct (open c' g) as [g' [[c'' r]|]]; cbn in *; [|done]. destruct He as [Hty Hh].
    by apply (opened_ok c'); [apply (Ho (c'', r))|..].
  - case_bool_decide; [|done]. by apply (reported_world id x).
Qed.

Lemma runs_ok es m : Forall event_ok es -> machine_ok m -> machine_ok (runs es m).
Proof.
  revert m. induction es as [|e es IH]; intros m Hes Hm; [done|]. apply Forall_cons in Hes as [He Hes].
  by apply IH, run_ok.
Qed.

(** A machine on which no agent has run. *)
Definition new_machine : Machine := {| agent := None; world := {| files := ∅; groups := ∅; trace := [] |} |}.
Lemma new_machine_ok : machine_ok new_machine.
Proof.
  split; cbn; [by intros id ?%not_elem_of_nil|constructor|]. intros _ id x rep. cbn. by rewrite lookup_empty.
Qed.
Lemma reachable_ok es : Forall event_ok es -> machine_ok (runs es new_machine).
Proof. intros Hes. apply runs_ok; [done|apply new_machine_ok]. Qed.

End invariant.

(** ** The agents of a machine *)

(** The identifier of an allocation is one. *)
Definition typed_event (e : event) : Prop :=
  match e with Open c => canonical (allocation_id (context c)) = true | _ => True end.
(** ... and agents are opened for a generation and a boot, and launchers report honestly. *)
Definition honest_event : event -> Prop := event_ok True.

Lemma typed_reachable es : Forall typed_event es -> machine_ok False (runs es new_machine).
Proof.
  intros Hes. apply reachable_ok. eapply Forall_impl; [exact Hes|]. intros [| | | |c|id x] He; cbn; [done..|by split|by intros []].
Qed.
Lemma honest_reachable es : Forall honest_event es -> machine_ok True (runs es new_machine).
Proof. apply reachable_ok. Qed.
Lemma honest_typed es : Forall honest_event es -> Forall typed_event es.
Proof. intros Hes. eapply Forall_impl; [exact Hes|]. intros [] He; try done. apply He. Qed.
Lemma machine_agent Hon m c r t : machine_ok Hon m -> agent m = Some (c, r, t) -> agent_ok Hon c r t (world m).
Proof. unfold machine_ok. by intros Hm Ha; rewrite Ha in Hm. Qed.
Lemma machine_world Hon m : machine_ok Hon m -> world_ok Hon (world m).
Proof. unfold machine_ok. destruct (agent m) as [[[c r] t]|]; [apply agent_ok_world|done]. Qed.

(** C19. Whatever the requests, failures, deaths of the agent and restarts: the launcher of a
    command is started at most once, also when the request is repeated, when its receipt
    could not be written, or when the agent died right after. *)
Theorem command_launched_at_most_once es :
  Forall typed_event es -> NoDup (launches (trace (world (runs es new_machine)))).
Proof. intros Hes. exact (wo_once _ _ (machine_world _ _ (typed_reachable es Hes))). Qed.

(** Every launch is preceded by a record that outlives it: at any moment, for every
    command that was ever launched, the state directory holds its receipt file, or a barrier
    that retires it. *)
Theorem launch_always_on_record es id :
  Forall typed_event es -> id ∈ launches (trace (world (runs es new_machine))) ->
  is_Some (files (world (runs es new_machine)) !! receipt_path id) \/
  floor (world (runs es new_machine)) id = true.
Proof. intros Hes Hid. apply (wo_record _ _ (machine_world _ _ (typed_reachable es Hes)) id Hid). Qed.

(** C21. The receipts in an agent's memory are always receipts: each one passes the
    validation that the host applies, names its own operation and is bound to the agent's
    allocation, generation and boot. *)
Theorem receipts_always_valid es c r t id rc :
  Forall honest_event es -> agent (runs es new_machine) = Some (c, r, t) -> receipts r !! id = Some rc ->
  receipt_validate rc = Ok tt /\ receipt_typed rc = true /\ r_operation_id rc = id /\ r_context rc = context c.
Proof.
  intros Hes Ha Hrc. pose proof (machine_agent _ _ _ _ _ (honest_reachable es Hes) Ha) as Hok.
  destruct (ao_receipts _ _ _ _ _ Hok id rc Hrc) as [Hi Ht Hc _ Hv]. split_and!; auto.
Qed.

(** A receipt that confirms its cleanup means it: the command's control group is gone,
    and it stays gone. Conversely a group that exists belongs to the command that is being
    executed, or to a finished one that says its cleanup is not confirmed. *)
Theorem confirmed_cleanup_left_nothing es c r t id rc :
  Forall typed_event es -> agent (runs es new_machine) = Some (c, r, t) -> receipts r !! id = Some rc ->
  r_cleanup_confirmed rc = true -> group id ∉ groups (world (runs es new_machine)).
Proof.
  intros Hes Ha Hrc Hcl Hg. pose proof (machine_agent _ _ _ _ _ (typed_reachable es Hes) Ha) as Hok.
  pose proof (fun i x => ao_receipts _ _ _ _ _ Hok i x) as Hmem.
  assert (Hinj : forall i, is_Some (receipts r !! i) -> group id = group i -> id = i).
  { intros i [x Hx]. apply (to_string_inj KOperation); by eapply mo_canonical, Hmem. }
  destruct (ao_groups _ _ _ _ _ Hok _ Hg) as [(t' & -> & Heq & _)|(i & x & Heq & Hx & _ & Hn)].
  - destruct (agent_ok_running _ _ _ _ _ Hok) as (f & y & _ & Hy & Hrun). apply Hinj in Heq as ->; [|by exists y].
    destruct (rn_state _ _ _ _ Hrun) as (_ & Hn & _). congruence.
  - apply Hinj in Heq as ->; [congruence|by exists x].
Qed.

(** What the agent retains is bounded: at most 128 receipts, whose reservations sum up
    to at most 64 MiB, and no command's two streams together keep more than it reserved,
    also while both captures write. *)
Theorem retention_bounded es c r t :
  Forall typed_event es -> agent (runs es new_machine) = Some (c, r, t) ->
  Z.of_nat (size (receipts r)) <= 128 /\ reserved r <= 64 * 1024 * 1024 /\
  forall t', t = Some t' -> exists rc, receipts r !! task_id t' = Some rc /\
    0 <= budget t' /\
    budget t' + stored (counted (out t')) + stored (counted (err t')) <= r_output_limit rc <= MAX_OUTPUT /\
    stored (r_stdout rc) + stored (r_stderr rc) <= r_output_limit rc.
Proof.
  intros Hes Ha. pose proof (machine_agent _ _ _ _ _ (typed_reachable es Hes) Ha) as Hok.
  split_and!; [apply (ao_size _ _ _ _ _ Hok)|apply (ao_reserved _ _ _ _ _ Hok)|]. intros t' ->.
  destruct (agent_ok_running _ _ _ _ _ Hok) as (f & rc & _ & Hrc & Hrun). exists rc.
  pose proof (mo_limit _ _ _ _ (ao_receipts _ _ _ _ _ Hok _ _ Hrc)) as Hl. apply contains_spec in Hl.
  destruct (rn_budget _ _ _ _ Hrun) as [Hb Hs], (rn_published _ _ _ _ Hrun) as (_ & _ & Hpo & Hpe).
  split_and!; try done; lia.
Qed.

(** C23. A restart resumes nothing and forgets nothing: an agent that has opened executes no
    command and finds no control group left; each of its receipts is final with confirmed
    cleanup; and every command launched by the agents before it has a receipt or is retired. *)
Theorem restart_recovers es c c' r t :
  Forall typed_event es -> agent (runs es new_machine) = None ->
  agent (run (Open c) (runs es new_machine)) = Some (c', r, t) ->
  let g := world (run (Open c) (runs es new_machine)) in
  t = None /\ groups g = ∅ /\
  (forall id rc, receipts r !! id = Some rc -> terminal (r_state rc) = true /\ r_cleanup_confirmed rc = true) /\
  (forall id, id ∈ launches (trace g) -> is_Some (receipts r !! id) \/ floor_of (barrier r) id = true).
Proof.
  intros Hes Ha. pose proof (machine_world _ _ (typed_reachable es Hes)) as [Hrec _ _].
  destruct (runs es new_machine) as [ag g]. cbn in *. subst ag.
  destruct (starts_open c g) as (_ & _ & Ho); [done|by split|]. cbn [run agent].
  change (agent {| agent := None; world := g |}) with (None : option (Config * Registry * option Task)). cbn [world].
  destruct (open c g) as [g' [[c2 r2]|]]; [|done]. cbn in *. intros [= -> -> <-].
  destruct (Ho (c', r) eq_refl) as [_ _ Hfl (_ & _ & _ & Hk) _ Hkn Hg]. split_and!; [done..| |].
  - intros id rc Hrc. destruct (Hk id rc Hrc) as [_ Hi]. unfold interrupted in Hi. by bools.
  - intros id Hid. cbn [snd] in Hfl, Hkn. rewrite <- Hfl. by apply Hkn.
Qed.

(** ** What the host is told *)

Lemma mem_ok_decodes c id rc : mem_ok True c id rc -> try_receipt (from_receipt rc) = Ok rc.
Proof.
  intros [Hi Ht Hc Hl Hv]. apply receipt_wire_exact. unfold receipt_typed in Ht. bools. split_and!; auto.
Qed.

(** Every receipt that the agent answers with, to whatever request, decodes on the
    host's side to exactly the receipt that the agent retains. *)
Theorem answered_receipts_decode es c r t q p x a' :
  Forall honest_event es -> agent (runs es new_machine) = Some (c, r, t) ->
  dispatch q {| config := c; registry := r; task := t; guest := world (runs es new_machine) |} = (a', Ok p) ->
  p_result p = Some (RReceipt x) ->
  exists id rc, receipts (registry a') !! id = Some rc /\ try_receipt x = Ok rc.
Proof.
  intros Hes Ha Hd Hp. pose proof (machine_agent _ _ _ _ _ (honest_reachable es Hes) Ha) as Hok.
  pose proof (spec_guest_dispatch True q {| config := c; registry := r; task := t; guest := world (runs es new_machine) |} Hok) as Hs.
  unfold rwp in Hs. rewrite Hd in Hs. destruct Hs as [Hok' Hx]. destruct (Hx _ Hp) as (id & rc & Hrc & ->).
  exists id, rc. split; [done|]. eapply mem_ok_decodes, (ao_receipts _ _ _ _ _ Hok'), Hrc.
Qed.

(** An answer to a command: what [start] returned. *)
Lemma dispatch_execute q v p a a' x :
  q_action q = Some (AExecute v) -> dispatch q a = (a', Ok p) -> p_result p = Some (RReceipt x) ->
  exists e rc, try_execute v = Ok e /\ start e a = (a', Ok rc) /\ x = from_receipt rc.
Proof.
  intros Hq. unfold dispatch. rewrite Hq.
  assert (Hck : forall A B (y : result anyhow A) (k : A -> R B) b z, (checked y ≫= k) a = (b, Ok z) ->
    exists u, y = Ok u /\ k u a = (b, Ok z)).
  { intros A B y k b z. unfold checked, lift, mbind, ST_bind. destruct y as [u|]; cbn; [|done]. intros Hk. by exists u. }
  do 3 (intros (? & _ & Hd)%Hck; revert Hd). intros (? & _ & Hd)%Hck. revert Hd. intros (y & Hy & Hd)%Hck.
  cbn in Hy. injection Hy as <-. revert Hd.
  change ((config_ ≫= ?k) a) with (k (config a) a). cbn beta zeta.
  do 2 (intros (? & _ & Hd)%Hck; revert Hd).
  unfold mbind at 1, ST_bind at 1. cbn [perform].
  destruct (try_execute v) as [e|] eqn:He; cbn [mret ST_ret].
  - unfold receipt_or, mbind at 1, ST_bind at 1, attempt. destruct (start e a) as [a1 [rc|[|m]]] eqn:Hst; cbn.
    + intros [= <- <-]. cbn. intros [= <-]. by exists e, rc.
    + done.
    + intros [= <- <-]. done.
  - intros [= <- <-]. done.
Qed.

(** C22. The agent and the host agree on commands: when the agent answers a request to execute
    with a receipt, that receipt decodes, is for the operation that was asked for, for the
    payload that was asked for (by its digest) and for this agent's allocation and boot; and
    if the command is new to the agent, the receipt passes the host's comparison with the
    intent that the host retained before it sent the command. *)
Theorem execute_answer_matches_intent es c r t q v p x a' :
  Forall honest_event es -> agent (runs es new_machine) = Some (c, r, t) ->
  q_action q = Some (AExecute v) ->
  dispatch q {| config := c; registry := r; task := t; guest := world (runs es new_machine) |} = (a', Ok p) ->
  p_result p = Some (RReceipt x) ->
  exists e rc, try_execute v = Ok e /\ try_receipt x = Ok rc /\
    r_operation_id rc = e_operation_id e /\ execute_digest e = Ok (r_digest rc) /\ r_context rc = context c /\
    (receipts r !! e_operation_id e = None ->
     forall intent, Command.pending e (context c) = Ok intent ->
       Command.validate_receipt intent (e_operation_id e) rc = Ok tt).
Proof.
  intros Hes Ha Hq Hd Hp. pose proof (machine_agent _ _ _ _ _ (honest_reachable es Hes) Ha) as Hok.
  destruct (dispatch_execute _ _ _ _ _ _ Hq Hd Hp) as (e & rc & He & Hs & ->).
  apply execute_wire_exact in He as Hwire. destruct Hwire as (_ & _ & Hid).
  pose proof (spec_start True e {| config := c; registry := r; task := t; guest := world (runs es new_machine) |} Hid Hok) as Hspec. unfold rwp in Hspec. rewrite Hs in Hspec.
  destruct Hspec as (Hok' & Hrc & Hdg & Hnew & Hcfg). cbn in Hnew, Hcfg.
  pose proof (ao_receipts _ _ _ _ _ Hok' _ _ Hrc) as Hmem. pose proof (mem_ok_decodes _ _ _ Hmem) as Hdec.
  destruct Hmem as [Hi _ Hc _ Hv].
  exists e, rc. split_and!; try done; [by rewrite Hc; apply (f_equal context) in Hcfg|].
  intros Hnone intent Hi'. specialize (Hnew Hnone). unfold Command.pending in Hi'. rewrite Hdg in Hi'. injection Hi' as <-.
  unfold Command.validate_receipt. rewrite Hv by done. rewrite Hnew. cbn.
  by rewrite !bool_decide_eq_true_2, !Z.eqb_refl by done.
Qed.
End machine.
