(* ===== verification/RunnerLive.v ===== *)
(** * Commands end

    What every handler and every step of the task does to the progress of a command, and that
    the deadline alone takes a command from its admission to a final receipt. *)

From S2P Require Import Prelude Ext Ids GuestModel GuestWire GuestEnv Runner GuestServer RunnerLaws RunnerInv RunnerKeeps RunnerTask RunnerTheorems.
From S2P Require History.

(** How far the task is from its end. *)
Definition rank (p : Phase) : nat :=
  match p with Starting => 5 | Running => 4 | Draining _ _ => 3 | Returned _ => 2 | Cleaned _ _ => 1 end.

(** The receipt of the command is final, or was final when it was retired. *)
Definition ended (r : Registry) (id : OperationId) : Prop :=
  (exists rc, receipts r !! id = Some rc /\ terminal (r_state rc) = true) \/ floor_of (barrier r) id = true.
Definition at_most (id : OperationId) (n : nat) (r : Registry) (t : option Task) : Prop :=
  (exists t', t = Some t' /\ task_id t' = id /\ (rank (phase t') <= n)%nat) \/ ended r id.

Section live.
Context `{GuestEnv, UuidLaws, Sha256, Sha256Laws0 : !Sha256Laws, Serde Receipt, Serde History.Binding,
          RunnerSerde0 : !RunnerSerde, Serde ExitReport, Serde Envelope, Serde Execute}.
Abbreviation ok := (ok False).

(** No command goes back. *)
Definition onward (a a' : Agent) : Prop := forall id n,
  at_most id n (registry a) (task a) -> at_most id n (registry a') (task a').

(** Handlers of which only what they do to the registry and to the task matters. *)
Definition same (a a' : Agent) : Prop := registry a' = registry a /\ task a' = task a.
Definition to (a : Agent) {A} (_ : result failure A) (a' : Agent) : Prop := onward a a'.
Lemma onward_same a a' : same a a' -> onward a a'.
Proof. intros [Hr Ht] id n. by rewrite Hr, Ht. Qed.
Lemma rwp_same {A} (x : A) a0 a : same a0 a -> rwp (mret x : R A) (to a0) a.
Proof. apply onward_same. Qed.
Lemma rwp_skip a0 {A B} (m : R A) (k : A -> R B) a :
  framed m -> same a0 a -> (forall x a', same a0 a' -> rwp (k x) (to a0) a') -> rwp (m ≫= k) (to a0) a.
Proof.
  intros Hf [Hr0 Ht0] Hk. destruct (Hf a) as (_ & Hr & Ht). apply rwp_bind. unfold rwp at 1.
  assert (Hs : same a0 (m a).1) by (split; congruence).
  destruct (m a) as [a' [x|e]]; [by apply Hk|by apply onward_same].
Qed.
Lemma rwp_known a0 {A B} (r : result anyhow A) (k : A -> R B) a :
  same a0 a -> (forall x, r = Ok x -> rwp (k x) (to a0) a) -> rwp (checked r ≫= k) (to a0) a.
Proof. intros Hs Hk. apply rwp_bind, rwp_checked; [done|]. intros e. by apply onward_same. Qed.
Lemma framed_attempt {A} (m : R A) : framed m -> framed (attempt m).
Proof. intros Hf a. specialize (Hf a). unfold attempt. by destruct (m a) as [a' [x|[|e]]]. Qed.

Lemma ended_put r id rc rc' i :
  receipts r !! id = Some rc -> terminal (r_state rc) = false ->
  ended r i -> ended (set_receipts r (<[id := rc']> (receipts r))) i.
Proof.
  intros Hrc Ht [(x & Hx & Hf)|Hf]; [left|by right]. exists x. split; [|done]. cbn.
  rewrite lookup_insert_ne; [done|]. intros <-. congruence.
Qed.

(** ** Requests *)

Lemma live_start e a : ok a -> rwp (start e) (to a) a.
Proof.
  intros Hok. unfold start. assert (Hs0 : same a a) by done.
  apply rwp_known; [done|]. intros [] _. apply rwp_known; [done|]. intros d _.
  apply rwp_bind, rwp_registry. apply rwp_known; [done|]. intros [] _.
  destruct (receipts (registry a) !! e_operation_id e) as [rc|] eqn:Hnew.
  { apply rwp_known; [done|]. intros [] _. by apply rwp_same. }
  do 2 (apply rwp_known; [done|]; intros [] _). apply rwp_known; [done|]. intros [] Hact%ensure_ok.
  assert (Hidle : task a = None) by (apply (ao_idle _ _ _ _ _ Hok); by destruct (active (registry a))).
  apply rwp_skip; [apply framed_on_guest|done|]. intros now a1 Hs1. apply rwp_known; [done|]. intros x _.
  do 3 (apply rwp_known; [done|]; intros [] _). apply rwp_bind, rwp_config.
  apply rwp_skip; [apply framed_on_guest|done|]. intros [] a2 [Hr2 Ht2].
  apply rwp_bind, rwp_update, rwp_bind, rwp_update, rwp_bind, rwp_set_task, rwp_ret.
  intros id n [(t & Ht & _)|He]; [congruence|right]. cbn. rewrite Hr2.
  destruct He as [(rc & Hrc & Hf)|Hf]; [left; cbn|by right]. exists rc. split; [|done].
  rewrite lookup_insert_ne; [done|]. intros Heq. rewrite Heq in Hnew. congruence.
Qed.

Lemma live_cancel id a : rwp (cancel id) (to a) a.
Proof.
  unfold cancel. assert (Hs0 : same a a) by done. apply rwp_bind, rwp_registry.
  apply rwp_known; [done|]. intros rc Hrc%ok_or_ok. destruct (terminal (r_state rc)) eqn:Ht; [by apply rwp_same|].
  apply rwp_skip; [apply framed_on_guest|done|]. intros [] a1 [Hr1 Ht1].
  apply rwp_bind, rwp_update.
  set (a2 := {| config := _ |}). assert (Hto2 : onward a a2).
  { intros i n [Ht'|He]; [left|right]; cbn; rewrite ?Ht1, ?Hr1; [done|]. by eapply ended_put. }
  cbn. destruct (active (registry a)) as [[i f]|]; [|by apply rwp_ret].
  apply rwp_bind, rwp_checked; [|done]. intros [] _. by apply rwp_bind, rwp_update, rwp_ret.
Qed.

Lemma live_retire_above b a :
  (forall id, floor_of (barrier (registry a)) id = true -> History.covers b id = true) ->
  rwp (retire_above b (registry a)) (to a) a.
Proof.
  intros Hup. unfold retire_above. assert (Hs0 : same a a) by done.
  do 2 (apply rwp_known; [done|]; intros [] _). apply rwp_skip; [apply framed_on_guest|done|]. intros l a1 Hs1.
  apply rwp_skip; [apply framed_on_guest|done|]. intros [] a2 Hs2.
  apply rwp_skip; [apply framed_attempt, framed_on_guest|done|]. intros [[]|e] a3 [Hr3 Ht3].
  2: { by apply rwp_bind, rwp_update, rwp_checked; intros; intros i n; cbn; rewrite Hr3, Ht3. }
  apply rwp_bind, rwp_update. set (a4 := {| config := _ |}).
  assert (Hto4 : onward a a4).
  { intros i n [Ht'|He]; [left|right]; cbn; rewrite ?Ht3, ?Hr3; [done|].
    destruct He as [He|Hf]; [by left|right]. by apply Hup. }
  apply rwp_bind. unfold rwp at 1. destruct (framed_attempt _ (framed_on_guest (prune_history l b)) a4) as (_ & Hr5 & Ht5).
  destruct (attempt _ a4) as [a5 [[[]|e]|e]]; cbn in Hr5, Ht5.
  - apply rwp_bind, rwp_update, rwp_ret. intros i n Hi. specialize (Hto4 i n Hi). cbn. rewrite Ht5, Hr5.
    destruct Hto4 as [Ht'|[(rc & Hrc & Hf)|Hf]]; [by left|right|by right; right]. cbn in Hrc |- *.
    destruct (History.covers b i) eqn:Hc; [by right|left]. exists rc. split; [|done]. cbn.
    by apply map_lookup_filter_Some.
  - apply rwp_bind, rwp_update, rwp_checked; intros; intros i n Hi; specialize (Hto4 i n Hi); cbn; by rewrite Ht5, Hr5.
  - intros i n Hi. specialize (Hto4 i n Hi). cbn. by rewrite Ht5, Hr5.
Qed.

Lemma live_retire_history b a : rwp (retire_history b) (to a) a.
Proof.
  unfold retire_history. assert (Hs0 : same a a) by done. apply rwp_bind, rwp_config. apply rwp_known; [done|]. intros [] _.
  apply rwp_bind, rwp_registry. apply rwp_known; [done|]. intros [] _.
  destruct (barrier (registry a)) as [old|] eqn:Hb.
  - destruct (id_leb _ _) eqn:Hle; [by apply rwp_same|]. apply live_retire_above. rewrite Hb. intros id Hid%N.leb_le.
    apply N.leb_gt in Hle. apply N.leb_le. lia.
  - apply live_retire_above. by rewrite Hb.
Qed.

Lemma framed_output q : framed (output q).
Proof.
  unfold output. do 3 (apply framed_bind; [done|]; intros ?). apply framed_bind; [done|]. intros o.
  do 2 (apply framed_bind; [done|]; intros ?). apply framed_bind; [apply framed_on_guest|]. intros file.
  apply framed_bind; [|done]. destruct file as [c|]; [|by apply framed_bind].
  do 2 (apply framed_bind; [done|]; intros ?). do 2 (apply framed_bind; [apply framed_on_guest|]; intros ?). done.
Qed.

Lemma live_shutdown a : rwp shutdown (to a) a.
Proof.
  unfold shutdown. apply rwp_bind, rwp_update, rwp_bind, rwp_registry. set (a1 := {| config := _ |}).
  assert (Hto1 : onward a a1) by (intros i n Hi; exact Hi).
  destruct (active (registry a1)) as [[id f]|]; [|by apply rwp_ret].
  apply rwp_bind. eapply rwp_mono; [apply live_cancel|]. intros [rc|e] a2 H2'; [apply rwp_ret|]; intros i n Hi;
    by apply H2', Hto1.
Qed.

Lemma rwp_onward {A} (m : R A) {B} (k : result anyhow A -> R B) a :
  rwp m (to a) a -> (forall x, framed (k x)) -> rwp (attempt m ≫= k) (to a) a.
Proof.
  intros Hm Hk. apply rwp_bind, rwp_attempt. eapply rwp_mono; [exact Hm|]. intros [x|[|e]] a' Ha; [|exact Ha|].
  - destruct (Hk (Ok x) a') as (_ & Hr & Ht). intros i n Hi. rewrite Hr, Ht. by apply Ha.
  - destruct (Hk (Err e) a') as (_ & Hr & Ht). intros i n Hi. rewrite Hr, Ht. by apply Ha.
Qed.
Lemma rwp_to_framed {A} (m : R A) a : framed m -> rwp m (to a) a.
Proof. intros Hf. destruct (Hf a) as (_ & Hr & Ht). by apply onward_same. Qed.

Lemma live_perform x a : ok a -> rwp (perform x) (to a) a.
Proof.
  intros Hok. destruct x as [|v|s|s|q|v|]; cbn [perform]; try by apply rwp_to_framed.
  - destruct (try_execute v) as [e|]; [|by apply rwp_to_framed]. apply rwp_onward; [by apply live_start|done].
  - destruct (parse KOperation s) as [id|]; by apply rwp_to_framed.
  - destruct (parse KOperation s) as [id|]; [|by apply rwp_to_framed]. apply rwp_onward; [by apply live_cancel|done].
  - apply rwp_onward; [apply rwp_to_framed, framed_output|done].
  - apply rwp_onward; [|done]. assert (Hs0 : same a a) by done. apply rwp_known; [done|]. intros b _.
    apply rwp_bind, rwp_config. apply rwp_known; [done|]. intros [] _.
    destruct (History.domain b); [apply live_retire_history|by apply rwp_to_framed].
Qed.

Lemma live_dispatch q a : ok a -> rwp (dispatch q) (to a) a.
Proof.
  intros Hok. unfold dispatch. assert (Hs0 : same a a) by done. do 5 (apply rwp_known; [done|]; intros ? _).
  apply rwp_bind, rwp_config. do 2 (apply rwp_known; [done|]; intros ? _).
  apply rwp_bind. eapply rwp_mono; [by apply live_perform|]. intros [r|e] a' Ha; [by apply rwp_ret|exact Ha].
Qed.

(** ** Steps *)

(** The place that a step of the task leaves behind, whatever ends it. *)
Definition leaves (s : task_step) : option nat :=
  match s with
  | Begin => Some 4 | StopWaiting Deadline => Some 3 | Finish => Some 2 | Clean => Some 1 | Commit => Some 0
  | _ => None
  end%nat.

(** What a step does to the registry and to the task when the agent survives it. *)
Definition advance (s : task_step) (a : Agent) {A} (r : result failure A) (a' : Agent) : Prop :=
  r <> Err Killed -> onward a a' /\ forall id n, leaves s = Some n ->
    at_most id (S n) (registry a) (task a) -> at_most id n (registry a') (task a').

(** The task is at a later place. *)
Definition moved (t : Task) (k : nat) (a : Agent) {A} (r : result failure A) (a' : Agent) : Prop :=
  r <> Err Killed -> registry a' = registry a /\
  exists p, task a' = Some (set_phase t p) /\ (rank p <= k)%nat.
Lemma moved_advance s t k a {A} (r : result failure A) a' :
  task a = Some t -> leaves s = Some k \/ leaves s = None -> (k <= rank (phase t))%nat -> moved t k a r a' ->
  advance s a r a'.
Proof.
  intros Ht Hs Hk Hm Hr. destruct (Hm Hr) as (Hreg & p & Hp & Hle).
  assert (Hgo : forall id n, at_most id (S n) (registry a) (task a) -> (k <= n)%nat -> at_most id n (registry a') (task a')).
  { intros id n [(t' & Ht' & Hid & _)|He] Hn; [left|right; by rewrite Hreg].
    rewrite Ht in Ht'. injection Ht' as <-. exists (set_phase t p). split_and!; [done..|]. cbn. lia. }
  split.
  - intros id n Ha. destruct (decide (k <= n)%nat) as [Hn|Hn].
    + apply Hgo; [|done]. destruct Ha as [(t' & ? & ? & ?)|]; [left; exists t'; split_and!; [done..|lia]|by right].
    + destruct Ha as [(t' & Ht' & _ & Hle')|He]; [|right; by rewrite Hreg].
      rewrite Ht in Ht'. injection Ht' as <-. lia.
  - intros id n Hn Ha. destruct Hs as [Hs|Hs]; rewrite Hs in Hn; [injection Hn as <-|done]. by apply Hgo.
Qed.

(** What the task tries before it moves leaves the registry and the task alone. *)
Lemma rwp_moved t k a0 {A} (m : R A) (f : result anyhow A -> Phase) a :
  framed m -> same a0 a -> (forall x, (rank (f x) <= k)%nat) ->
  rwp (x ← attempt m; set_task (Some (set_phase t (f x)))) (moved t k a0) a.
Proof.
  intros Hf [Hr0 _] Hp. destruct (Hf a) as (_ & Hr & _). apply rwp_bind, rwp_attempt. unfold rwp at 1.
  assert (Hset : forall x a', registry a' = registry a -> rwp (set_task (Some (set_phase t (f x)))) (moved t k a0) a').
  { intros x a' Hr'. apply rwp_set_task. intros _. cbn. split; [congruence|]. by exists (f x). }
  destruct (m a) as [a' [x|[|e]]]; cbn in Hr |- *; by apply Hset || by intros [].
Qed.

Lemma framed_begin e : framed (begin_execution e).
Proof.
  unfold begin_execution. apply framed_bind; [done|]. intros r. destruct (is_some_and _ _); [done|].
  apply framed_bind; [apply framed_on_guest|]. intros now. destruct (_ <=? now); [done|].
  apply framed_bind; [done|]. intros c. do 4 (apply framed_bind; [apply framed_on_guest|]; intros ?).
  apply framed_bind; [done|]. intros _. apply framed_bind; [apply framed_on_guest|]. intros b.
  apply framed_bind; [done|]. intros _. apply framed_bind; [apply framed_on_guest|]. done.
Qed.

Lemma live_stop_waiting t s a :
  rwp (stop_waiting t s) (fun r a' => r <> Err Killed -> same a a' /\ leaves (StopWaiting s) = None \/ moved t 3 a r a') a.
Proof.
  unfold stop_waiting. apply rwp_bind, rwp_registry, rwp_bind, rwp_on_guest, rwp_ask.
  set (a1 := with_guest a _). assert (Hs1 : same a a1) by done.
  assert (Hgo : rwp (cleaned ← attempt (on_guest (cleanup (group (e_operation_id (request t)))));
      set_task (Some (set_phase t (Draining (stopped_state s) cleaned)))) (moved t 3 a) a1).
  { by apply rwp_moved; [apply framed_on_guest|..]. }
  assert (Hmono : rwp (cleaned ← attempt (on_guest (cleanup (group (e_operation_id (request t)))));
      set_task (Some (set_phase t (Draining (stopped_state s) cleaned))))
      (fun r a' => r <> Err Killed -> same a a' /\ leaves (StopWaiting s) = None \/ moved t 3 a r a') a1).
  { eapply rwp_mono; [exact Hgo|]. by right. }
  destruct s; try exact Hmono.
  - destruct (is_some_and _ _); [exact Hmono|]. apply rwp_ret. by left.
  - destruct (_ <=? _); [exact Hmono|]. apply rwp_ret. by left.
Qed.

Lemma live_commit t o b a :
  ok a -> task a = Some t -> phase t = Cleaned o b -> rwp (commit_task t o b) (fun r a' => advance Commit a r a') a.
Proof.
  intros Hok Ht Hp. unfold RunnerInv.ok in Hok. rewrite Ht in Hok.
  destruct (agent_ok_running _ _ _ _ _ Hok) as (f & rc & _ & Hrc & Hrun).
  destruct (concluded_ok False (context (config a)) t o b f rc) as (_ & Hterm & _ & _); [|done..|].
  { by apply (ao_receipts _ _ _ _ _ Hok). }
  set (rc' := concluded rc o b) in *.
  (* What every end of the commit has. *)
  assert (Hend : forall A (r : result failure A) a', barrier (registry a') = barrier (registry a) ->
      (exists x, terminal (r_state x) = true /\ receipts (registry a') = <[task_id t := x]> (receipts (registry a))) ->
      advance Commit a r a').
  { intros A r a' Hb (x & Hx & Hm) _.
    assert (He : forall id n, at_most id n (registry a) (task a) -> ended (registry a') id).
    { intros id n Ha. unfold ended. rewrite Hm, Hb. destruct (decide (id = task_id t)) as [->|Hne].
      - left. exists x. by rewrite lookup_insert_eq.
      - rewrite lookup_insert_ne by done. destruct Ha as [(t' & Ht' & Hid & _)|He]; [|exact He]. congruence. }
    split; [intros id n Ha|intros id n _ Ha]; right; by eapply He. }
  unfold commit_task. apply rwp_bind, rwp_registry, rwp_bind, rwp_set_task.
  change (e_operation_id (request t)) with (task_id t). rewrite Hrc. apply rwp_bind, rwp_update, rwp_bind, rwp_attempt, rwp_on_guest.
  unfold rwp at 1. cbn. destruct (write_json _ _ _) as [g [[]|[|e]]]; cbn.
  - apply rwp_bind, rwp_ret. destruct b; [apply rwp_bind, rwp_ret, rwp_update|apply rwp_bind, rwp_update, rwp_update];
      (apply Hend; [done|]; by exists rc').
  - by intros [].
  - apply rwp_bind, rwp_bind, rwp_update, rwp_update.
    destruct b; [apply rwp_bind, rwp_ret, rwp_update|apply rwp_bind, rwp_update, rwp_update];
      (apply Hend; [done|]; exists (set_state rc' Unknown None None (Some "receipt_commit_unconfirmed")); split; [done|]; apply insert_insert_eq).
Qed.

(** A capture leaves its task's place. *)
Lemma onward_capture t stdout b c a a' :
  task a = Some t -> task a' = Some (set_capture t stdout b c) ->
  (forall id, ended (registry a) id -> ended (registry a') id) -> onward a a'.
Proof.
  intros Ht Ht' He id n [(t0 & Ht0 & Hid & Hn)|Ha]; [left|right; by apply He].
  rewrite Ht in Ht0. injection Ht0 as <-. exists (set_capture t stdout b c). by destruct stdout.
Qed.

Lemma live_capture_read t stdout x a : task a = Some t -> rwp (capture_read t stdout x) (fun r a' => r <> Err Killed -> onward a a') a.
Proof.
  intros Ht. unfold capture_read. destruct (_ =? 0).
  all: apply rwp_bind, rwp_attempt, rwp_on_guest; unfold rwp at 1; cbn beta.
  - destruct (unseen _) as [g [[]|[|e]]]; cbn; [|by intros []|]; apply rwp_set_task; intros _; by eapply onward_capture.
  - destruct (write_all _ _ _) as [g [[]|[|e]]]; cbn; [|by intros []|]; apply rwp_set_task; intros _; by eapply onward_capture.
Qed.

Lemma live_capture_publish t stdout a : ok a -> task a = Some t -> rwp (capture_publish t stdout) (to a) a.
Proof.
  unfold RunnerInv.ok. intros Hok Ht. rewrite Ht in Hok.
  destruct (agent_ok_running _ _ _ _ _ Hok) as (f & rc & _ & Hrc & Hrun).
  unfold capture_publish. apply rwp_bind, rwp_registry. change (e_operation_id (request t)) with (task_id t). rewrite Hrc.
  apply rwp_bind, rwp_update, rwp_set_task. eapply onward_capture; [done..|]. intros id. apply (ended_put _ _ rc); [done|].
  destruct (rn_state _ _ _ _ Hrun) as [Hs _]. by rewrite Hs.
Qed.

(** Steps that wait for their place. *)
Lemma advance_stays s a t :
  task a = Some t -> (forall n, leaves s = Some n -> rank (phase t) <> S n) ->
  rwp (mret tt) (fun r a' => advance s a r a') a.
Proof.
  intros Ht Hs. apply rwp_ret. intros _. split; [by apply onward_same|]. intros id n Hl [(t' & Ht' & Hid & Hn)|He]; [left|by right].
  rewrite Ht in Ht'. injection Ht' as <-. exists t. split_and!; [done..|]. specialize (Hs n Hl). lia.
Qed.

Lemma live_step_task s a : ok a -> rwp (step_task s) (fun r a' => advance s a r a') a.
Proof.
  intros Hok. unfold step_task. apply rwp_bind, rwp_get. destruct (task a) as [t|] eqn:Ht.
  2: { apply rwp_ret. intros _. split; [by apply onward_same|]. intros id n _ [(t & Ht' & _)|He]; [congruence|by right]. }
  assert (Hstay : (forall n, leaves s = Some n -> rank (phase t) <> S n) -> rwp (mret tt) (fun r a' => advance s a r a') a).
  { intros Hs. by apply (advance_stays s a t). }
  assert (Hcap : leaves s = None -> forall m : R unit, rwp m (fun r a' => r <> Err Killed -> onward a a') a ->
    rwp m (fun r a' => advance s a r a') a).
  { intros Hs m Hm. eapply rwp_mono; [exact Hm|]. intros r a' Ha Hr. split; [by apply Ha|]. intros id n. by rewrite Hs. }
  assert (Hmove : forall k (m : R unit), leaves s = Some k \/ leaves s = None -> (k <= rank (phase t))%nat -> rwp m (moved t k a) a ->
    rwp m (fun r a' => advance s a r a') a).
  { intros k m Hs Hk Hm. eapply rwp_mono; [exact Hm|]. intros r a' Ha. by apply (moved_advance s t k). }
  destruct s as [|b x|b|b|w| | |], (phase t) eqn:Hp; try (apply Hstay; intros n; try destruct w; by intros [= <-]);
    try (case_match; [|by apply Hstay]).
  - apply (Hmove 4%nat); [by left|cbn; lia|].
    apply (rwp_moved t 4 a (begin_execution (request t)) (fun outcome =>
      match outcome with Ok None => Running | Ok (Some o) => Returned (Ok o) | Err e => Returned (Err e) end));
      [apply framed_begin|done|]. intros [[o|]|e]; cbn; lia.
  - by apply Hcap, live_capture_read.
  - by apply Hcap, live_capture_read.
  - apply Hcap; [done|]. apply rwp_set_task. intros _. by eapply onward_capture.
  - apply Hcap; [done|]. apply rwp_set_task. intros _. by eapply onward_capture.
  - apply Hcap; [done|]. eapply rwp_mono; [by apply live_capture_publish|]. by intros.
  - apply Hcap; [done|]. eapply rwp_mono; [by apply live_capture_publish|]. by intros.
  - apply Hcap; [done|]. eapply rwp_mono; [by apply live_capture_publish|]. by intros.
  - apply Hcap; [done|]. eapply rwp_mono; [by apply live_capture_publish|]. by intros.
  - eapply rwp_mono; [apply live_stop_waiting|]. intros r a' Ha Hr. destruct (Ha Hr) as [[Hs Hl]|Hm].
    + split; [by apply onward_same|]. intros id n. by rewrite Hl.
    + apply (moved_advance _ t 3 a r a'); [done|destruct w; auto|rewrite Hp; cbn; lia|done|done].
  - apply (Hmove 2%nat); [by left|cbn; lia|]. by apply rwp_moved; [apply framed_finish|..].
  - apply (Hmove 1%nat); [by left|cbn; lia|]. by apply rwp_moved; [apply framed_on_guest|..].
  - by apply live_commit.
Qed.

(** ** Agents that are not killed *)

Definition survives {S A} (m : ST S failure A) : Prop := forall s, (m s).2 <> Err Killed.
Lemma survives_bind {S A B} (m : ST S failure A) (k : A -> ST S failure B) :
  survives m -> (forall x, survives (k x)) -> survives (m ≫= k).
Proof.
  intros Hm Hk s. unfold mbind, ST_bind. specialize (Hm s). destruct (m s) as [s' [x|e]]; [apply Hk|]. intros [= ->]. by apply Hm.
Qed.
Lemma survives_ret {S A} (x : A) : survives (mret x : ST S failure A).
Proof. done. Qed.
Lemma survives_checked {S A} (r : result anyhow A) : survives (checked r : ST S failure A).
Proof. intros s. unfold checked, lift. by destruct r. Qed.
Lemma survives_attempt {S A} (m : ST S failure A) : survives m -> survives (attempt m).
Proof. intros Hm s. specialize (Hm s). unfold attempt. by destruct (m s) as [s' [x|[]]]. Qed.
Lemma survives_on_guest {A} (m : ST Guest failure A) : survives m -> survives (on_guest m).
Proof. intros Hm a. specialize (Hm (guest a)). unfold on_guest. by destruct (m (guest a)). Qed.
Lemma survives_update f : survives (update f).
Proof. done. Qed.
Lemma survives_set_task t : survives (set_task t).
Proof. done. Qed.
Lemma survives_registry : survives registry_.
Proof. done. Qed.
Lemma survives_config : survives config_.
Proof. done. Qed.
Lemma survives_ask {A} a (f : list action -> A) : survives (ask a f).
Proof. done. Qed.

Context (spared : forall t f, fault t = Some f -> kills f = false).
Lemma survives_syscall {A} (f : Guest -> result anyhow (Guest * A)) : survives (syscall f).
Proof.
  intros g. unfold syscall. destruct (fault (trace g)) as [e|] eqn:He; cbn.
  - unfold broken. by rewrite (spared _ _ He).
  - by destruct (f _) as [[]|].
Qed.
Lemma survives_write_all n b : survives (write_all n b).
Proof.
  intros g. unfold write_all. destruct (fault (trace g)) as [e|] eqn:He; cbn; [|done].
  unfold broken. by rewrite (spared _ _ He).
Qed.

Ltac survive := intros; repeat match goal with
  | |- survives (_ ≫= _) => apply survives_bind; [|intros ?]
  | |- survives (mret _) => apply survives_ret
  | |- survives (checked _) => apply survives_checked
  | |- survives (attempt _) => apply survives_attempt
  | |- survives (on_guest _) => apply survives_on_guest
  | |- survives (update _) => apply survives_update
  | |- survives (put_receipt _ _) => apply survives_update
  | |- survives (set_task _) => apply survives_set_task
  | |- survives registry_ => apply survives_registry
  | |- survives config_ => apply survives_config
  | |- survives (ask _ _) => apply survives_ask
  | |- survives (syscall _) => apply survives_syscall
  | |- survives (write_all _ _) => apply survives_write_all
  | |- survives (if ?b then _ else _) => destruct b
  | |- survives (match ?x with _ => _ end) => destruct x
  | |- survives _ => solve [eauto with survive]
  end.
Create HintDb survive.

Lemma survives_read_json {A} `{Serde A} n : survives (read_json n : ST Guest failure A).
Proof. unfold read_json. survive. Qed.
Lemma survives_write_json {A} `{Serde A} n (v : A) : survives (write_json n v).
Proof. unfold write_json, generate, create_new, unseen, rename. survive. Qed.
Lemma survives_await_empty n i : survives (await_empty n i).
Proof. induction n; cbn [await_empty]; unfold unseen; survive. Qed.
#[local] Hint Resolve survives_read_json survives_write_json survives_await_empty : survive.
Lemma survives_cleanup i : survives (cleanup i).
Proof. unfold cleanup, absent, unseen, remove_group. survive. Qed.
Lemma survives_validate_history l b : survives (validate_history_entries l b).
Proof. induction l; cbn [validate_history_entries]; unfold absent, is_dir; survive. Qed.
Lemma survives_unlink l b : survives (unlink_covered l b).
Proof. induction l; cbn [unlink_covered]; unfold remove_if_present; survive. Qed.
#[local] Hint Resolve survives_cleanup survives_validate_history survives_unlink : survive.
Lemma survives_prune l b : survives (prune_history l b).
Proof. unfold prune_history, unseen. survive. Qed.
Lemma survives_entries : survives history_entries.
Proof. unfold history_entries, read_dir. survive. Qed.
#[local] Hint Resolve survives_prune survives_entries : survive.
Lemma survives_cancel id : survives (cancel id).
Proof. unfold cancel. survive. Qed.
#[local] Hint Resolve survives_cancel : survive.
Lemma survives_start e : survives (start e).
Proof. unfold start, now_ms. survive. Qed.
Lemma survives_retire b : survives (retire_history b).
Proof. unfold retire_history, retire_above, fail_registry. survive. Qed.
Lemma survives_output q : survives (output q).
Proof. unfold output, inspect, open_output, unseen. survive. Qed.
#[local] Hint Resolve survives_start survives_retire survives_output : survive.
Lemma survives_dispatch q : survives (dispatch q).
Proof. unfold dispatch. survive. unfold perform, receipt_or, inspect. survive. Qed.
Lemma survives_shutdown : survives shutdown.
Proof. unfold shutdown. survive. Qed.
Lemma survives_begin e : survives (begin_execution e).
Proof. unfold begin_execution, now_ms, create_group, create_new, unseen. survive. Qed.
Lemma survives_finish t s c : survives (finish_execution t s c).
Proof. unfold finish_execution. survive. Qed.
#[local] Hint Resolve survives_begin survives_finish : survive.
Lemma survives_step_task s : survives (step_task s).
Proof.
  unfold step_task. apply survives_bind; [done|]. intros a. destruct (task a) as [t|]; [|survive].
  destruct s, (phase t); unfold begin_task, capture_read, capture_fail, capture_publish, stop_waiting, finish_task,
    clean_task, commit_task, now_ms, unseen; survive.
Qed.

(** ** Progress of a machine *)

Definition progress (id : OperationId) (n : nat) (m : Machine) : Prop :=
  exists c r t, agent m = Some (c, r, t) /\ at_most id n r t.

Lemma handle_progress {A} (m : R A) c r t g id n k :
  survives m ->
  rwp m (fun x a' => x <> Err Killed -> at_most id n r t -> at_most id k (registry a') (task a'))
    {| config := c; registry := r; task := t; guest := g |} ->
  at_most id n r t -> progress id k (handle m c r t g).
Proof.
  unfold rwp, handle. intros Hs Hm Ha. specialize (Hs {| config := c; registry := r; task := t; guest := g |}).
  destruct (m _) as [a' [x|[|e]]]; cbn in *; [|done|]; eexists _, _, _; split; try done; by apply Hm.
Qed.
Lemma handle_onward {A} (m : R A) c r t g id n :
  survives m -> rwp m (to {| config := c; registry := r; task := t; guest := g |})
    {| config := c; registry := r; task := t; guest := g |} ->
  at_most id n r t -> progress id n (handle m c r t g).
Proof.
  intros Hs Hm. apply handle_progress; [done|]. eapply rwp_mono; [exact Hm|]. intros x a' Ha _. apply Ha.
Qed.

Lemma step_progress s c r t g id n k :
  agent_ok False c r t g -> at_most id n r t -> n = k \/ leaves s = Some k /\ n = S k ->
  progress id k (handle (step_task s) c r t g).
Proof.
  intros Hok Ha Hn. eapply handle_progress; [apply survives_step_task| |exact Ha].
  eapply rwp_mono; [by apply live_step_task|]. intros x a' Hx Hne. destruct (Hx Hne) as [Hto Hadv].
  destruct Hn as [->|[Hl ->]]; [apply Hto|by apply Hadv].
Qed.

Lemma run_progress e m id n :
  e <> Die -> machine_ok False m -> progress id n m -> progress id n (run e m).
Proof.
  intros He Hm (c & r & t & Ha & Hp). pose proof (machine_agent _ _ _ _ _ Hm Ha) as Hok.
  destruct m as [ag g]. cbn in Ha, Hok. subst ag. destruct e as [q|s| | |c'|i x]; cbn [run agent world].
  - apply handle_onward; [apply survives_dispatch|by apply live_dispatch|done].
  - eapply step_progress; [done..|by left].
  - apply handle_onward; [apply survives_shutdown|apply live_shutdown|done].
  - done.
  - by exists c, r, t.
  - by exists c, r, t.
Qed.

(** The steps of a task that nothing but its deadline stops. *)
Definition schedule : list event := Step <$> [Begin; StopWaiting Deadline; Finish; Clean; Commit].

Lemma schedule_runs es n m id :
  Forall typed_event es -> Die ∉ es -> drop (5 - n) schedule `sublist_of` es -> (n <= 5)%nat ->
  machine_ok False m -> progress id n m -> progress id 0 (runs es m).
Proof.
  revert n m. induction es as [|e es IH]; intros n m Hty Hdie Hsub Hn Hok Hp.
  - apply sublist_nil_r in Hsub. destruct n as [|n]; [done|]. exfalso.
    do 5 (destruct n as [|n]; [done|]). lia.
  - apply Forall_cons in Hty as [Hte Hty]. apply not_elem_of_cons in Hdie as [Hne Hdie].
    assert (Hok' : machine_ok False (run e m)).
    { apply run_ok; [|done]. destruct e; cbn; [done..|by split|by intros []]. }
    apply sublist_cons_r in Hsub as [Hsub|(l & Heq & Hsub)].
    + apply (IH n); [done..|]. by apply run_progress.
    + destruct Hp as (c & r & t & Ha & Hp). pose proof (machine_agent _ _ _ _ _ Hok Ha) as Hag.
      destruct m as [ag g]. cbn in Ha, Hag. subst ag.
      assert (Hgo : forall s k, n = S k -> e = Step s -> leaves s = Some k -> l = drop (5 - k) schedule ->
        progress id 0 (runs (e :: es) {| agent := Some (c, r, t); world := g |})).
      { intros s k -> -> Hl ->. apply (IH k); [done..|lia|done|]. cbn [run agent world].
        eapply step_progress; [done|exact Hp|by right]. }
      do 6 (destruct n as [|n]; [cbn in Heq; first [done|injection Heq as <- <-; by eapply Hgo]|]). lia.
Qed.

(** C20. Commands end. Take any agent with a command in execution, and any continuation in
    which the agent is not killed: whatever else happens (requests, failing calls, captures,
    shutdown, other reasons to stop), once the command's task has been scheduled through
    its places and its deadline has passed, the command has ended: its receipt is final, or
    was when it was retired. *)
Theorem every_command_ends es es' c r t :
  Forall typed_event es -> agent (runs es new_machine) = Some (c, r, Some t) ->
  Forall typed_event es' -> Die ∉ es' -> schedule `sublist_of` es' ->
  exists c' r' t', agent (runs es' (runs es new_machine)) = Some (c', r', t') /\ ended r' (task_id t).
Proof.
  intros Hes Ha Hes' Hdie Hsub.
  assert (Hp : progress (task_id t) 5 (runs es new_machine)).
  { exists c, r, (Some t). split; [done|]. left. exists t. split_and!; [done..|]. destruct (phase t); cbn; lia. }
  destruct (schedule_runs es' 5 (runs es new_machine) (task_id t)) as (c' & r' & t' & Ha' & Hend);
    [done|done|exact Hsub|lia|by apply typed_reachable|done|].
  exists c', r', t'. split; [done|]. destruct Hend as [(t0 & _ & _ & Hr)|]; [|done]. destruct (phase t0); cbn in Hr; lia.
Qed.
End live.
