(* ===== verification/RunnerSample.v ===== *)
(** * The guest agent's theorems at a concrete agent

    An agent opens on an empty state directory, executes a command to its end, dies and
    starts again; another command is interrupted by its agent's death. *)

From S2P Require Import Prelude Ext Ids GuestModel GuestWire GuestEnv Runner GuestServer RunnerLaws RunnerInv RunnerTheorems RunnerLive.
From S2P Require History Command.
Import Ref.

(** ** Serialization *)

#[export] Program Instance id_codec k : Codec (Id k) :=
  codec_inj (fun i => uuid i) (fun u => Some (from_uuid u)) _.
Next Obligation. by intros k []. Qed.
#[export] Program Instance context_codec : Codec Context := codec_inj
  (fun c => (allocation_id c, generation c, boot_id c))
  (fun t => Some {| allocation_id := t.1.1; generation := t.1.2; boot_id := t.2 |}) _.
Next Obligation. by intros []. Qed.
#[export] Program Instance state_codec : Codec State := codec_inj
  state_number (fun n => match state_of_number n with Ok s => Some s | Err _ => None end) _.
Next Obligation. by intros []. Qed.
#[export] Program Instance output_codec : Codec Output := codec_inj
  (fun o => (seen o, stored o, truncated o))
  (fun t => Some {| seen := t.1.1; stored := t.1.2; truncated := t.2 |}) _.
Next Obligation. by intros []. Qed.
#[export] Program Instance receipt_codec : Codec Receipt := codec_inj
  (fun r => (r_version r, r_context r, r_operation_id r, r_digest r, r_state r, r_deadline_unix_ms r, r_output_limit r,
             r_cancel_requested r, r_cleanup_confirmed r, r_exit_code r, r_signal r, r_stdout r, r_stderr r, r_reason r))
  (fun t => let '(v, c, i, d, s, x, l, cr, cc, ec, sg, o, e, rs) := t in
    Some {| r_version := v; r_context := c; r_operation_id := i; r_digest := d; r_state := s;
            r_deadline_unix_ms := x; r_output_limit := l; r_cancel_requested := cr; r_cleanup_confirmed := cc;
            r_exit_code := ec; r_signal := sg; r_stdout := o; r_stderr := e; r_reason := rs |}) _.
Next Obligation. by intros []. Qed.
#[export] Program Instance domain_codec : Codec History.Domain := codec_inj
  (fun d => match d with History.Commands => true | History.Files => false end)
  (fun b : bool => Some (if b then History.Commands else History.Files)) _.
Next Obligation. by intros []. Qed.
#[export] Program Instance barrier_codec : Codec History.Barrier := codec_inj
  (fun b => (History.version b, History.context b, History.domain b, History.through b))
  (fun t => let '(v, c, d, i) := t in
    Some {| History.version := v; History.context := c; History.domain := d; History.through := i |}) _.
Next Obligation. by intros []. Qed.
#[export] Program Instance binding_codec : Codec History.Binding := codec_inj
  (fun b => match b with History.Legacy c => inl c | History.Retired r => inr r end)
  (fun s => Some (match s with inl c => History.Legacy c | inr r => History.Retired r end)) _.
Next Obligation. by intros []. Qed.
#[export] Program Instance report_codec : Codec ExitReport := codec_inj
  (fun x => (x_version x, x_exit_code x, x_signal x))
  (fun t => Some {| x_version := t.1.1; x_exit_code := t.1.2; x_signal := t.2 |}) _.
Next Obligation. by intros []. Qed.

#[export] Instance receipt_serde : Serde Receipt := serde receipt_typed.
#[export] Instance binding_serde : Serde History.Binding := serde (fun _ => true).
#[export] Instance report_serde : Serde ExitReport := serde (fun _ => true).
#[export] Instance execute_serde : Serde Execute := {|
  to_vec e := Some (enc (e_operation_id e, e_argv e, e_cwd e, e_deadline_unix_ms e, e_output_limit e));
  from_slice _ := None
|}.
#[export] Instance envelope_serde : Serde Envelope := {|
  to_vec v := Some (enc (cgroup_ v, report_ v)); from_slice _ := None
|}.
#[export] Instance runner_serde : RunnerSerde.
Proof.
  split.
  - intros b x Hx. by apply (from_to (SerdeLaws := serde_laws (fun _ : History.Binding => true)) b x).
  - intros x r. apply (from_representable (SerdeLaws := serde_laws receipt_typed)).
Qed.

(** ** The outside *)

Definition NOW : Z := 1000000.
#[export] Program Instance calm_env : GuestEnv := {|
  fault _ := None;
  clock_answer t := NOW;
  generated t := sample_id (900 + N.of_nat (length t));
  boot_answer _ := "boot";
  canonical_groups _ p := p;
  groups_idle _ := true;
  launcher_is_file _ := true;
  lock_free _ := true;
  unpopulated _ _ := true;
  launched _ _ := true;
  read_count _ n := n;
  listing _ l := l;
|}.
Next Obligation. done. Qed.
Next Obligation. done. Qed.

(** ** The agent *)

Definition sample_context : Context := {| allocation_id := sample_id 4; generation := 1; boot_id := "boot" |}.
Definition sample_config : Config :=
  {| cgroup_root := "/sys/fs/cgroup/hudson"; launcher := "/sbin/agent"; context := sample_context |}.
Definition command (n : N) : Execute := {|
  e_operation_id := sample_id n; e_argv := ["/bin/true"]; e_env := ∅; e_cwd := "/";
  e_deadline_unix_ms := NOW + 2000; e_output_limit := 4
|}.
Definition asks (n : N) (x : Action) : Request := {|
  q_version := VERSION; q_request_id := to_string (sample_id n : OperationId);
  q_context := Some (from_context sample_context); q_action := Some x
|}.
Definition execute_request : Request := asks 50 (AExecute (from_execute (command 7))).
Definition exit_report : bytes := enc {| x_version := 1; x_exit_code := Some 0; x_signal := None |}.

Definition running_events : list event :=
  [Open sample_config; Serve execute_request; Step Begin; Step (Read true "hello"); Step (Publish true)].
Definition ending_events : list event :=
  [Report (sample_id 7) exit_report; Step (StopWaiting (ChildExit true)); Step (Read true ""); Step (Read false "");
   Step Finish; Step Clean; Step Commit].
Definition finished_events : list event := running_events ++ ending_events.
Abbreviation running_ := (runs running_events new_machine).
Abbreviation finished_ := (runs finished_events new_machine).

(** What can be read off a machine. *)
Definition registry_of (m : Machine) : option Registry := r ← agent m; Some r.1.2.
Definition receipt_at (m : Machine) (id : OperationId) : option Receipt := r ← registry_of m; receipts r !! id.
Example runs_well :
  (r ← receipt_at finished_ (sample_id 7); Some (r_state r, r_exit_code r, r_stdout r, r_cleanup_confirmed r)) =
  Some (Exited, Some 0, {| seen := 5; stored := 4; truncated := true |}, true).
Proof. vm_compute. reflexivity. Qed.

(** A closed equation of evaluated runs, left to the kernel's virtual machine. *)
Local Ltac evaluated := lazymatch goal with |- _ = ?b => vm_cast_no_check (@eq_refl _ b) end.

Lemma alive m : is_some (agent m) = true -> exists c r t, agent m = Some (c, r, t).
Proof. destruct (agent m) as [[[c r] t]|]; [by exists c, r, t|done]. Qed.
Definition executing (m : Machine) : bool :=
  match agent m with Some (_, _, Some _) => true | _ => false end.
Lemma alive_executing m : executing m = true -> exists c r t, agent m = Some (c, r, Some t).
Proof. unfold executing. destruct (agent m) as [[[c r] [t|]]|]; [by exists c, r, t|done..]. Qed.
Definition receipt_is (m : Machine) (id : OperationId) (f : Receipt -> bool) : bool :=
  is_some_and f (receipt_at m id).
Lemma has_receipt m id f :
  receipt_is m id f = true ->
  exists c r t rc, agent m = Some (c, r, t) /\ receipts r !! id = Some rc /\ f rc = true.
Proof.
  unfold receipt_is, receipt_at, registry_of. destruct (agent m) as [[[c r] t]|]; cbn; [|done].
  destruct (receipts r !! id) as [rc|] eqn:Hrc; cbn; [|done]. intros Hf. by exists c, r, t, rc.
Qed.

Lemma honest_open : honest_event (Open sample_config).
Proof. split; [evaluated|intros _; evaluated]. Qed.
Lemma typed_open : typed_event (Open sample_config).
Proof. exact (proj1 honest_open). Qed.
(** Events that are no more than they are. *)
Local Ltac plain := repeat (apply Forall_cons; split; [first [exact honest_open|exact typed_open|exact I]|]); by apply Forall_nil.
Lemma honest_running : Forall honest_event running_events.
Proof. plain. Qed.
Lemma report_decodes : from_slice exit_report = Some {| x_version := 1; x_exit_code := Some 0; x_signal := None |}.
Proof. evaluated. Qed.
Lemma honest_ending : Forall honest_event ending_events.
Proof.
  apply Forall_cons; split; [|plain].
  intros _ rep. rewrite report_decodes. by intros [= <-].
Qed.
Lemma honest_finished : Forall honest_event finished_events.
Proof. apply Forall_app; split; [apply honest_running|apply honest_ending]. Qed.

(** The agent dies while the command runs, another opens, and the command is asked for again. *)
Definition asked_again : list event :=
  running_events ++ [Die; Open sample_config; Serve execute_request; Step Begin].
Lemma typed_again : Forall typed_event asked_again.
Proof. plain. Qed.
Lemma launched_once : launches (trace (world (runs asked_again new_machine))) = [sample_id 7].
Proof. evaluated. Qed.

Lemma command_launched_at_most_once_witness :
  launches (trace (world (runs asked_again new_machine))) = [sample_id 7] /\
  NoDup (launches (trace (world (runs asked_again new_machine)))).
Proof. split; [exact launched_once|]. exact (command_launched_at_most_once asked_again typed_again). Defined.

Lemma launch_always_on_record_witness :
  is_Some (files (world (runs asked_again new_machine)) !! receipt_path (sample_id 7)) \/
  floor (world (runs asked_again new_machine)) (sample_id 7) = true.
Proof.
  apply (launch_always_on_record asked_again (sample_id 7) typed_again).
  rewrite launched_once. by apply list_elem_of_singleton.
Defined.

Lemma receipts_always_valid_witness : exists c r t rc,
  agent finished_ = Some (c, r, t) /\ receipts r !! sample_id 7 = Some rc /\ r_state rc = Exited /\
  receipt_validate rc = Ok tt.
Proof.
  destruct (has_receipt finished_ (sample_id 7) (fun rc => bool_decide (r_state rc = Exited)))
    as (c & r & t & rc & Ha & Hrc & Hf); [evaluated|].
  exists c, r, t, rc. split; [exact Ha|]. split; [exact Hrc|]. split; [by apply bool_decide_eq_true_1 in Hf|].
  exact (proj1 (receipts_always_valid _ c r t (sample_id 7) rc honest_finished Ha Hrc)).
Defined.

Lemma typed_finished : Forall typed_event finished_events.
Proof. apply honest_typed, honest_finished. Qed.
Lemma typed_running : Forall typed_event running_events.
Proof. apply honest_typed, honest_running. Qed.

Lemma confirmed_cleanup_left_nothing_witness :
  group (sample_id 7) ∈ groups (world running_) /\ group (sample_id 7) ∉ groups (world finished_).
Proof.
  split; [apply (bool_decide_eq_true_1 _); evaluated|].
  destruct (has_receipt finished_ (sample_id 7) r_cleanup_confirmed) as (c & r & t & rc & Ha & Hrc & Hf); [evaluated|].
  exact (confirmed_cleanup_left_nothing _ c r t (sample_id 7) rc typed_finished Ha Hrc Hf).
Defined.

Lemma retention_bounded_witness : exists c r t,
  agent running_ = Some (c, r, Some t) /\ reserved r <= 64 * 1024 * 1024 /\
  exists rc, receipts r !! task_id t = Some rc /\
    budget t + stored (counted (out t)) + stored (counted (err t)) <= r_output_limit rc.
Proof.
  destruct (alive_executing running_) as (c & r & t & Ha); [evaluated|]. exists c, r, t.
  destruct (retention_bounded running_events c r (Some t) typed_running Ha) as (_ & Hr & Ht).
  destruct (Ht t eq_refl) as (rc & Hrc & _ & [Hb _] & _). split; [exact Ha|]. split; [exact Hr|]. exists rc. exact (conj Hrc Hb).
Defined.

Definition died : list event := running_events ++ [Die].
Lemma typed_died : Forall typed_event died.
Proof. apply Forall_app; split; [exact typed_running|plain]. Qed.
Lemma gone_died : agent (runs died new_machine) = None.
Proof. apply is_none_true. evaluated. Qed.
Lemma restart_recovers_witness : exists c r t,
  agent (run (Open sample_config) (runs died new_machine)) = Some (c, r, t) /\ t = None /\
  groups (world (run (Open sample_config) (runs died new_machine))) = ∅.
Proof.
  destruct (alive (run (Open sample_config) (runs died new_machine))) as (c & r & t & Ha); [evaluated|].
  exists c, r, t. split; [exact Ha|].
  destruct (restart_recovers died sample_config c r t) as (Ht & Hg & _); [exact typed_died|exact gone_died|exact Ha|exact (conj Ht Hg)].
Defined.

(** An answer of an agent, if it is a receipt. *)
Definition ask_ (m : Machine) (q : Request) : option (Agent * Response * w.Receipt) :=
  x ← agent m;
  match dispatch q {| config := x.1.1; registry := x.1.2; task := x.2; guest := world m |} with
  | (a, Ok p) => match p_result p with Some (RReceipt v) => Some (a, p, v) | _ => None end
  | _ => None
  end.
Lemma asked m q : is_some (ask_ m q) = true -> exists c r t a p v,
  agent m = Some (c, r, t) /\ dispatch q {| config := c; registry := r; task := t; guest := world m |} = (a, Ok p) /\
  p_result p = Some (RReceipt v).
Proof.
  unfold ask_. destruct (agent m) as [[[c r] t]|]; cbn; [|done].
  destruct (dispatch q _) as [a [p|]] eqn:Hd; [|done]. destruct (p_result p) as [[]|] eqn:Hp; try done.
  intros _. by eexists c, r, t, a, p, _.
Qed.
Definition inspect_request : Request := asks 51 (AInspect (to_string (sample_id 7 : OperationId))).

Lemma answered_receipts_decode_witness : exists p v rc,
  p_result p = Some (RReceipt v) /\ try_receipt v = Ok rc.
Proof.
  destruct (asked finished_ inspect_request) as (c & r & t & a & p & v & Ha & Hd & Hp); [evaluated|].
  destruct (answered_receipts_decode _ c r t inspect_request p v a honest_finished Ha Hd Hp) as (id & rc & _ & Hrc).
  exists p, v, rc. exact (conj Hp Hrc).
Defined.

Definition opening : list event := [Open sample_config].
Abbreviation opened_ := (runs opening new_machine).
Lemma opened_receipts : is_none (receipt_at opened_ (sample_id 7)) = true.
Proof. evaluated. Qed.
Lemma context_opened c r t : agent opened_ = Some (c, r, t) -> context c = sample_context /\ receipts r !! sample_id 7 = None.
Proof.
  assert (Hc : match agent opened_ with
    | Some (c, r, _) => bool_decide (context c = sample_context) && is_none (receipts r !! sample_id 7)
    | None => false end = true) by evaluated.
  intros Ha. rewrite Ha in Hc. apply andb_true_iff in Hc as [Hc Hn].
  exact (conj (bool_decide_eq_true_1 _ Hc) (is_none_true _ Hn)).
Qed.
Lemma execute_decodes : try_execute (from_execute (command 7)) = Ok (command 7).
Proof. apply execute_wire_exact. split; [reflexivity|]. split; evaluated. Qed.

Lemma execute_answer_matches_intent_witness : exists rc intent,
  Command.pending (command 7) sample_context = Ok intent /\ Command.validate_receipt intent (sample_id 7) rc = Ok tt.
Proof.
  destruct (asked opened_ execute_request) as (c & r & t & a & p & v & Ha & Hd & Hp); [evaluated|].
  assert (Hes : Forall honest_event opening) by plain.
  destruct (context_opened c r t Ha) as [Hcx Hnone].
  destruct (execute_answer_matches_intent opening c r t execute_request _ p v a Hes Ha eq_refl Hd Hp)
    as (e & rc & He & _ & _ & Hdg & _ & Hv).
  rewrite execute_decodes in He. injection He as <-. rewrite Hcx in Hv.
  eexists rc, _. split; [|apply (Hv Hnone)]; unfold Command.pending; rewrite Hdg; reflexivity.
Defined.

(** What happens until the deadline has passed: another request, output that arrives, a
    cancellation that comes too late. *)
Definition late_events : list event :=
  [Serve inspect_request; Step Begin; Step (StopWaiting CancelSignal); Step (StopWaiting Deadline);
   Serve (asks 52 (ACancel (to_string (sample_id 7 : OperationId)))); Step Finish; Step Clean; Report (sample_id 7) "x";
   Step Commit].
Lemma calm_spared t f : fault t = Some f -> kills f = false.
Proof. discriminate. Qed.
Lemma late_typed : Forall typed_event late_events.
Proof. plain. Qed.
Lemma late_alive : Die ∉ late_events.
Proof. unfold late_events. rewrite !not_elem_of_cons. repeat (split; [discriminate|]). apply not_elem_of_nil. Qed.
Lemma late_schedule : schedule `sublist_of` late_events.
Proof. unfold late_events, schedule. cbn [fmap list_fmap]. repeat first [apply sublist_nil_l|apply sublist_skip|apply sublist_cons]. Qed.

Lemma every_command_ends_witness : exists r, ended r (sample_id 7).
Proof.
  assert (Hid : match agent running_ with Some (_, _, Some t) => bool_decide (task_id t = sample_id 7) | _ => false end = true)
    by evaluated.
  destruct (alive_executing running_) as (c & r & t & Ha); [evaluated|].
  rewrite Ha in Hid. apply bool_decide_eq_true_1 in Hid.
  destruct (every_command_ends calm_spared running_events late_events c r t typed_running Ha late_typed late_alive late_schedule)
    as (c' & r' & t' & _ & He).
  exists r'. rewrite <- Hid. exact He.
Defined.
