(* ===== verification/Transfers.v ===== *)
(** * The guest's file transfers (crates/sandbox-guest/src/files)

    One engine per workspace: uploads are staged in a private directory, and published into
    the workspace by one rename. The state directory is that of [GuestEnv], under the same
    faults and kills; the workspace belongs to the workload, so what opening or reading it
    gives is an answer from outside, and what is published to it is in the log. *)

From S2P Require Import Prelude Ext Ids GuestModel GuestEnv.
From S2P Require Files History Runner.
#[local] Existing Instances Files.State_eq_dec Files.Upload_eq_dec.
Import Runner(LOCK, CONTEXT_JSON).
Import Files(MAX_FILE_BYTES, MAX_CHUNK_BYTES, MAX_TRANSFERS, MAX_RESERVED_BYTES, Upload, u_operation_id, u_path, u_size, u_sha256, u_mode).

(** What the workspace answers. *)
Class WorkspaceEnv := {
  (** whether the workspace, its transfer directory or a parent directory could be opened *)
  directory_found : list action -> string -> bool;
  (** length and time stamps of a file of the workspace, [None] if it is not a regular file *)
  version_answer : list action -> string -> option (Z * Z);
  (** what reading it to the end gives *)
  read_answer : list action -> string -> bytes;
  (** the time stamps of a staging file *)
  stamp_answer : list action -> string -> Z;
  (** whether the destination may be replaced by a rename *)
  replaceable : list action -> string -> bool;
}.

Record Transfers : Type := {
  context : Context;
  barrier : option History.Barrier;
  receipts : gmap OperationId Files.Receipt;
  failed : bool;
  downloads : Z;   (** of its [Root] *)
}.
Record Engine : Type := { transfers : Transfers; disk : Guest }.
Abbreviation T A := (ST Engine failure A) (only parsing).

Definition set_barrier (t : Transfers) v : Transfers :=
  {| context := context t; barrier := v; receipts := receipts t; failed := failed t; downloads := downloads t |}.
Definition set_receipts (t : Transfers) v : Transfers :=
  {| context := context t; barrier := barrier t; receipts := v; failed := failed t; downloads := downloads t |}.
Definition set_failed (t : Transfers) v : Transfers :=
  {| context := context t; barrier := barrier t; receipts := receipts t; failed := v; downloads := downloads t |}.
Definition set_downloads (t : Transfers) v : Transfers :=
  {| context := context t; barrier := barrier t; receipts := receipts t; failed := failed t; downloads := v |}.
Definition set_state (r : Files.Receipt) s : Files.Receipt :=
  {| Files.f_version := Files.f_version r; Files.f_context := Files.f_context r; Files.f_upload := Files.f_upload r;
     Files.f_digest := Files.f_digest r; Files.f_state := s |}.

Definition on_disk {A} (m : ST Guest failure A) : T A := fun e =>
  let '(g, r) := m (disk e) in ({| transfers := transfers e; disk := g |}, r).
Definition update (f : Transfers -> Transfers) : T unit :=
  modify (fun e => {| transfers := f (transfers e); disk := disk e |}).
Definition self_ : T Transfers := e ← get; mret (transfers e).

Definition MAX_METADATA : Z := 16384.
Definition MAX_NAMES : nat := 387.   (* MAX_TRANSFERS * 3 + 3 *)

(** [path.rsplit_once('/').unwrap_or((".", path))]: the parent. *)
Definition parent_of (path : string) : string := match rsplit_once 47 path with Some (p, _) => p | None => "." end.

Section engine.
Context `{GuestEnv, WorkspaceEnv, UuidLib, Sha256, Serde Upload, Serde Files.Receipt, Serde History.Binding}.

(** ** fs.rs *)

Definition data_name (id : OperationId) : string := to_string id +:+ ".data".
Definition receipt_name (id : OperationId) : string := to_string id +:+ ".json".

(** [create] *)
Definition create (name : string) : G unit := create_new name.
(** [regular]: a regular file with one link; its content, as the file stays open. *)
Definition regular (name : string) : G bytes := syscall (fun g =>
  match files g !! name with
  | Some (File c) => Ok (g, c)
  | Some _ => Err "file must be regular and singly linked"
  | None => Err "not found"
  end).
Definition open_directory (path : string) (m : anyhow) : G unit :=
  _ ← unseen;
  found ← ask Query (fun t => directory_found t path);
  checked (ensure found m).

Definition open_lock : G unit :=
  r ← syscall (fun g =>
    match files g !! LOCK with
    | None => Ok (set_files g (<[LOCK := File ""]> (files g)), true)
    | Some _ => Ok (g, false)
    end);
  if r : bool then _ ← unseen; unseen
  else _ ← regular LOCK; mret tt.
(** [Root::open] *)
Definition open_root (path : string) : G unit :=
  _ ← checked (ensure (GuestModel.starts_with_slash path) "workspace root must be absolute");
  _ ← open_directory path "workspace root";
  _ ← unseen;   (* [mkdirat] of the transfer directory *)
  _ ← open_directory Files.STATE_DIRECTORY "transfer directory";
  _ ← open_lock;
  free ← ask Query lock_free;
  checked (ensure free "file workspace already owned").

(** [Root::names] *)
Definition names : G (list string) :=
  l ← read_dir (MAX_NAMES + 1);
  _ ← checked (ensure (length l <=? MAX_NAMES)%nat "too many file state entries");
  mret l.

(** [Root::parent] *)
Definition parent (path : string) : G unit :=
  _ ← checked (Files.validate_path path);
  open_directory (parent_of path) "workspace directory".

(** [Root::stage] *)
Definition stage (id : OperationId) : G bytes := regular (data_name id).
Definition stage_new (id : OperationId) : G unit := create (data_name id).

(** [Root::remove] *)
Definition remove (name : string) : G unit :=
  removed ← syscall (fun g =>
    match files g !! name with
    | None => Ok (g, false)
    | Some Directory => Err "is a directory"
    | Some _ => Ok (set_files g (delete name (files g)), true)
    end);
  if removed : bool then unseen else mret tt.

(** [Root::publish]: the rename that gives the staged file its name in the workspace. *)
Definition publish (id : OperationId) (path : string) : G unit :=
  ok ← ask Query (fun t => replaceable t path);
  _ ← syscall (fun g =>
    match files g !! data_name id with
    | Some (File c) =>
        if ok : bool then Ok (record (set_files g (delete (data_name id) (files g))) (Publish id path c), tt)
        else Err "rename"
    | _ => Err "not found"
    end);
  _ ← unseen;
  unseen.

(** [read_json] *)
Definition read_metadata {A} `{Serde A} (name : string) : G A :=
  bytes ← regular name;
  _ ← checked (ensure (strlen bytes <=? MAX_METADATA) "file metadata exceeds bound");
  checked (ok_or (from_slice bytes) "invalid file metadata").
(** [write_json] *)
Definition write_metadata {A} `{Serde A} (name : string) (value : A) : G unit :=
  bytes ← checked (ok_or (to_vec value) "serde_json");
  _ ← checked (ensure (strlen bytes <=? MAX_METADATA) "file metadata exceeds bound");
  id ← generate;
  let temp := to_string id +:+ ".tmp" in
  _ ← create temp;
  _ ← write_all temp bytes;
  _ ← unseen;
  _ ← rename temp name;
  unseen.

(** [version]: the length and the time stamps of an open file. *)
Definition version (name : string) (content : bytes) : G (Z * Z) :=
  _ ← unseen;
  stamp ← ask Query (fun t => stamp_answer t name);
  mret (strlen content, stamp).

(** ** History *)

Definition RETIRED_SUFFIXES : list string := [".json"; ".data"; ".tmp"].
(** [retired_name] *)
Definition retired_name (name : string) (b : History.Barrier) : result anyhow bool :=
  if bool_decide (name = LOCK) || bool_decide (name = CONTEXT_JSON) then Ok false else
  stem ← ok_or (Runner.find_stem RETIRED_SUFFIXES name) "unexpected transfer state entry";
  id ← map_err (fun _ => "malformed operation identity") (parse KOperation stem);
  Ok (History.covers b id).
Definition check_names (l : list string) (b : History.Barrier) : result anyhow unit :=
  for_each (fun name => _ ← retired_name name b; Ok tt) l.
Fixpoint remove_retired (l : list string) (b : History.Barrier) : G unit :=
  match l with
  | [] => mret tt
  | name :: l =>
      covered ← checked (retired_name name b);
      _ ← (if covered : bool then remove name else mret tt);
      remove_retired l b
  end.
(** [prune] *)
Definition prune (l : list string) (b : History.Barrier) : G unit :=
  _ ← checked (check_names l b);
  _ ← remove_retired l b;
  unseen.

(** ** Opening *)

(** A name of the state directory other than a receipt's. *)
Definition check_staged (name : string) : result anyhow unit :=
  stem ← ok_or (Runner.find_stem [".data"; ".tmp"] name) "unexpected transfer state entry";
  _ ← map_err (fun _ => "malformed operation identity") (parse KOperation stem);
  Ok tt.
(** One name: the body of the first loop of [Transfers::open]. *)
Definition recover_entry (c : Context) (name : string) (kept : Z * gmap OperationId Files.Receipt)
    : G (Z * gmap OperationId Files.Receipt) :=
  if bool_decide (name = LOCK) || bool_decide (name = CONTEXT_JSON) then mret kept else
  match Runner.strip_suffix ".json" name with
  | Some stem =>
      id ← checked (map_err (fun _ => "malformed operation identity") (parse KOperation stem));
      receipt ← read_metadata (A := Files.Receipt) name;
      _ ← checked (Files.receipt_validate receipt);
      _ ← checked (ensure (bool_decide (Files.f_context receipt = c)
                           && bool_decide (u_operation_id (Files.f_upload receipt) = id)) "file receipt identity mismatch");
      reserved ← checked (ok_or (u64_checked_add kept.1 (u_size (Files.f_upload receipt))) "file capacity overflow");
      _ ← checked (ensure ((reserved <=? MAX_RESERVED_BYTES) && (Z.of_nat (size kept.2) <? MAX_TRANSFERS))
                     "retained file transfer capacity exceeded");
      receipt ← (if bool_decide (Files.f_state receipt = Files.CommitIntent) then
                   _ ← write_metadata name (set_state receipt Files.Unknown);
                   mret (set_state receipt Files.Unknown)
                 else mret receipt);
      _ ← checked (ensure (negb (is_some (kept.2 !! id))) "duplicate file receipt");
      mret (reserved, <[id := receipt]> kept.2)
  | None => _ ← checked (check_staged name); mret kept
  end.
Fixpoint recover (c : Context) (l : list string) (kept : Z * gmap OperationId Files.Receipt)
    : G (Z * gmap OperationId Files.Receipt) :=
  match l with
  | [] => mret kept
  | name :: l => kept ← recover_entry c name kept; recover c l kept
  end.

(** Staging files without a receipt that stages them go; the others must fit theirs. *)
Definition sweep_entry (name : string) (m : gmap OperationId Files.Receipt) : G unit :=
  match Runner.strip_suffix ".data" name with
  | Some stem =>
      id ← checked (map_err (fun _ => "malformed operation identity") (parse KOperation stem));
      match m !! id with
      | Some r =>
          if bool_decide (Files.f_state r = Files.Staging) then
            content ← stage id;
            checked (ensure (strlen content <=? u_size (Files.f_upload r)) "oversized staging file")
          else remove name
      | None => remove name
      end
  | None => if is_some (Runner.strip_suffix ".tmp" name) then remove name else mret tt
  end.
Fixpoint sweep (l : list string) (m : gmap OperationId Files.Receipt) : G unit :=
  match l with
  | [] => mret tt
  | name :: l => _ ← sweep_entry name m; sweep l m
  end.
Fixpoint check_staging (l : list Files.Receipt) : G unit :=
  match l with
  | [] => mret tt
  | r :: l =>
      _ ← (if bool_decide (Files.f_state r = Files.Staging)
           then _ ← stage (u_operation_id (Files.f_upload r)); mret tt else mret tt);
      check_staging l
  end.

(** The context of the state directory, read or written: what it retires. *)
Definition open_context (c : Context) (l : list string) : G (option History.Barrier) :=
  if existsb (fun n => bool_decide (n = CONTEXT_JSON)) l then
    binding ← read_metadata (A := History.Binding) CONTEXT_JSON;
    checked (History.binding_validate binding c History.Files)
  else
    _ ← checked (ensure (forallb (fun n => bool_decide (n = LOCK)) l) "unbound file transfer state");
    _ ← write_metadata (A := History.Binding) CONTEXT_JSON (History.Legacy c);
    mret None.

(** [Transfers::open] *)
Definition open (path : string) (c : Context) : G Transfers :=
  _ ← checked (ensure ((0 <? generation c) && negb (bool_decide (boot_id c = "")) && (strlen (boot_id c) <=? 64))
                 "invalid transfer context");
  _ ← open_root path;
  l ← names;
  b ← open_context c l;
  _ ← match b with Some b => prune l b | None => mret tt end;
  l ← names;
  kept ← recover c l (0, ∅);
  _ ← sweep l kept.2;
  _ ← check_staging (map_to_list kept.2).*2;
  mret {| context := c; barrier := b; receipts := kept.2; failed := false; downloads := 0 |}.

(** ** Operations *)

(** [healthy] *)
Definition healthy : T unit := t ← self_; checked (ensure (negb (failed t)) "file engine requires recovery").
(** A failure that fences the engine. *)
Definition fencing {A} (m : T A) : T A :=
  r ← attempt m;
  match r with
  | Ok x => mret x
  | Err e => _ ← update (fun t => set_failed t true); checked (Err e)
  end.

(** [save] *)
Definition save (r : Files.Receipt) : T Files.Receipt :=
  let id := u_operation_id (Files.f_upload r) in
  _ ← fencing (on_disk (write_metadata (receipt_name id) r));
  _ ← update (fun t => set_receipts t (<[id := r]> (receipts t)));
  mret r.

(** [inspect] *)
Definition inspect (id : OperationId) : T (option Files.Receipt) :=
  _ ← healthy; t ← self_; mret (receipts t !! id).

Definition reserved (m : gmap OperationId Files.Receipt) : Z :=
  sum_by (fun e => u_size (Files.f_upload e.2)) (map_to_list m).
Definition staging (c : Context) (u : Upload) (d : bytes) : Files.Receipt :=
  {| Files.f_version := 1; Files.f_context := c; Files.f_upload := u; Files.f_digest := d; Files.f_state := Files.Staging |}.

(** [begin] *)
Definition begin (u : Upload) : T Files.Receipt :=
  _ ← healthy;
  _ ← checked (Files.upload_validate u);
  t ← self_;
  _ ← checked (ensure (negb (is_some_and (fun b => History.covers b (u_operation_id u)) (barrier t)))
                 "file operation history retired");
  d ← checked (Files.upload_digest u);
  match receipts t !! u_operation_id u with
  | Some r =>
      _ ← checked (ensure (bool_decide (Files.f_digest r = d) && bool_decide (Files.f_upload r = u)) "file operation conflicts");
      mret r
  | None =>
      _ ← checked (ensure ((Z.of_nat (size (receipts t)) <? MAX_TRANSFERS)
                           && (reserved (receipts t) + u_size u <=? MAX_RESERVED_BYTES)) "file transfer capacity exhausted");
      _ ← on_disk (parent (u_path u));
      _ ← fencing (on_disk (_ ← stage_new (u_operation_id u); _ ← unseen; unseen));
      save (staging (context t) u d)
  end.

(** [write_chunk] *)
Definition write_chunk (id : OperationId) (offset : Z) (data : bytes) : T Z :=
  _ ← healthy;
  _ ← checked (ensure (negb (bool_decide (data = "")) && (strlen data <=? MAX_CHUNK_BYTES)) "invalid file chunk length");
  t ← self_;
  r ← checked (ok_or (receipts t !! id) "file operation not found");
  _ ← checked (ensure (bool_decide (Files.f_state r = Files.Staging)) "file upload no longer writable");
  last ← checked (ok_or (u64_checked_add offset (strlen data)) "file offset overflow");
  _ ← checked (ensure (last <=? u_size (Files.f_upload r)) "chunk exceeds declared file size");
  content ← on_disk (stage id);
  _ ← on_disk unseen;
  let size := strlen content in
  _ ← checked (ensure ((size <=? u_size (Files.f_upload r)) && (offset <=? size)) "noncontiguous file chunk");
  let overlap := Z.to_nat (Z.min (size - offset) (strlen data)) in
  _ ← on_disk unseen;
  _ ← checked (ensure (bool_decide (prefix overlap (drop_bytes (Z.to_nat offset) content) = prefix overlap data))
                 "file chunk retry conflicts");
  _ ← (if (Z.of_nat overlap <? strlen data) then on_disk (write_all (data_name id) (drop_bytes overlap data)) else mret tt);
  _ ← on_disk unseen;
  mret (Z.max size last).

(** [commit] *)
Definition commit (id : OperationId) : T Files.Receipt :=
  _ ← healthy;
  t ← self_;
  r ← checked (ok_or (receipts t !! id) "file operation not found");
  if negb (bool_decide (Files.f_state r = Files.Staging)) then mret r else
  let u := Files.f_upload r in
  content ← on_disk (stage id);
  _ ← on_disk unseen;
  _ ← checked (ensure (strlen content =? u_size u) "incomplete file upload");
  before ← on_disk (version (data_name id) content);
  _ ← on_disk unseen;
  let copied := prefix (Z.to_nat (MAX_FILE_BYTES + 1)) content in
  after ← on_disk (version (data_name id) content);
  _ ← checked (ensure ((strlen copied =? u_size u) && bool_decide (after = before)
                       && bool_decide (sha256 copied = u_sha256 u)) "file upload digest mismatch");
  _ ← on_disk (parent (u_path u));
  _ ← on_disk unseen;
  _ ← on_disk unseen;
  _ ← save (set_state r Files.CommitIntent);
  published ← attempt (on_disk (publish id (u_path u)));
  match published with
  | Ok _ => save (set_state r Files.Committed)
  | Err e => _ ← save (set_state r Files.Unknown); checked (Err e)
  end.

(** [abort] *)
Definition abort (id : OperationId) : T Files.Receipt :=
  _ ← healthy;
  t ← self_;
  r ← checked (ok_or (receipts t !! id) "file operation not found");
  if bool_decide (Files.f_state r = Files.Staging) then
    _ ← save (set_state r Files.Aborted);
    _ ← on_disk (remove (data_name id));
    mret (set_state r Files.Aborted)
  else mret r.

(** [retire_history] *)
Definition resolved (r : Files.Receipt) : bool :=
  match Files.f_state r with Files.Committed | Files.Aborted => true | _ => false end.
Definition retire_above (requested : History.Barrier) (t : Transfers) : T History.Barrier :=
  _ ← checked (ensure (forallb (fun e : OperationId * Files.Receipt => resolved e.2)
                         (List.filter (fun e : OperationId * Files.Receipt =>
                            History.covers requested (u_operation_id (Files.f_upload e.2))) (map_to_list (receipts t))))
                 "unresolved file history cannot be retired");
  l ← on_disk names;
  _ ← checked (check_names l requested);
  _ ← fencing (on_disk (write_metadata CONTEXT_JSON (History.Retired requested)));
  _ ← update (fun t => set_barrier t (Some requested));
  _ ← fencing (on_disk (prune l requested));
  _ ← update (fun t => set_receipts t
         (base.filter (fun e : OperationId * Files.Receipt => History.covers requested e.1 = false) (receipts t)));
  mret requested.
Definition retire_history (requested : History.Barrier) : T History.Barrier :=
  _ ← healthy;
  t ← self_;
  _ ← checked (History.barrier_validate requested (context t) History.Files);
  match barrier t with
  | Some current =>
      if id_leb (History.through requested) (History.through current) then mret current else retire_above requested t
  | None => retire_above requested t
  end.

(** ** Downloads *)

Record Download : Type := { d_bytes : bytes; d_sha256 : bytes }.

(** [DownloadPermit::acquire], and its [Drop]. *)
Definition acquire : T unit :=
  t ← self_;
  _ ← checked (ensure (downloads t <? 8) "download capture capacity exhausted");
  update (fun t => set_downloads t (downloads t + 1)).
Definition release : T unit := update (fun t => set_downloads t (downloads t - 1)).

(** [version] of a workspace file. *)
Definition workspace_version (path : string) : G (Z * Z) :=
  _ ← unseen;
  v ← ask Query (fun t => version_answer t path);
  checked (ok_or v "file must be regular and singly linked").

(** [capture] *)
Definition capture (path : string) : T Download :=
  _ ← healthy;
  _ ← checked (Files.validate_path path);
  before ← on_disk (workspace_version path);
  _ ← checked (ensure (before.1 <=? MAX_FILE_BYTES) "download exceeds file limit");
  _ ← acquire;
  r ← attempt (
    _ ← on_disk unseen;
    all ← on_disk (ask Query (fun t => read_answer t path));
    let bytes := prefix (Z.to_nat (before.1 + 1)) all in
    after ← on_disk (workspace_version path);
    _ ← checked (ensure ((strlen bytes =? before.1) && bool_decide (after = before)) "file changed during capture");
    mret {| d_bytes := bytes; d_sha256 := sha256 bytes |});
  match r with
  | Ok d => mret d
  | Err e => _ ← release; checked (Err e)
  end.

(** [Download::size] and [Download::chunk] *)
Definition download_size (d : Download) : Z := strlen (d_bytes d).
Definition chunk (d : Download) (offset limit : Z) : result anyhow bytes :=
  _ ← ensure (contains 1 MAX_CHUNK_BYTES limit && (offset <=? download_size d)) "invalid download range";
  Ok (prefix (Z.to_nat limit) (drop_bytes (Z.to_nat offset) (d_bytes d))).
End engine.
