(* ===== verification/FileLaws.v ===== *)
(** * Reasoning about the file engine's calls

    [twp P m Q g]: whatever fails, [m] run from [g] publishes nothing and changes no file but
    those whose names are in [P]; and when it succeeds, [Q] holds. *)

From S2P Require Import Prelude Ext Ids GuestModel GuestEnv Transfers.
From S2P Require Files History Runner RunnerLaws.
Import Runner(LOCK, CONTEXT_JSON, extension).
Import RunnerLaws(name_extension, rwp, rwp_mono, rwp_bind, rwp_ret, rwp_checked, rwp_attempt, rwp_syscall).

(** What was published so far, the last one first. *)
Definition published (t : list action) : list (OperationId * string * bytes) :=
  omap (fun a => match a with Publish id path c => Some (id, path, c) | _ => None end) t.

(** Sets of file names. *)
Definition nowhere : string -> bool := fun _ => false.
Definition only (n : string) : string -> bool := fun m => bool_decide (m = n).
Definition temporary : string -> bool := fun n => bool_decide (extension n = Some "tmp").
Definition metadata : string -> bool := fun n => bool_decide (extension n = Some "json").
Definition harmless : string -> bool := fun n => negb (metadata n).
Definition either (P P' : string -> bool) : string -> bool := fun n => P n || P' n.

Definition within (P : string -> bool) (g g' : Guest) : Prop :=
  published (trace g') = published (trace g) /\ forall n, P n = false -> files g' !! n = files g !! n.

Lemma within_refl P g : within P g g.
Proof. done. Qed.
Lemma within_trans P g1 g2 g3 : within P g1 g2 -> within P g2 g3 -> within P g1 g3.
Proof. intros [Hp1 Hf1] [Hp2 Hf2]. split; [congruence|]. intros n Hn. by rewrite Hf2, Hf1. Qed.
Lemma within_weaken (P P' : string -> bool) g g' :
  (forall n, P n = true -> P' n = true) -> within P g g' -> within P' g g'.
Proof. intros Hi [Hp Hf]. split; [done|]. intros n Hn. apply Hf. destruct (P n) eqn:Hpn; [|done]. apply Hi in Hpn. congruence. Qed.
Lemma within_files P g g' :
  published (trace g') = published (trace g) -> files g' = files g -> within P g g'.
Proof. intros Hp Hf. split; [done|]. intros n _. by rewrite Hf. Qed.
Lemma within_insert (P : string -> bool) g n x : P n = true -> within P g (set_files g (<[n := x]> (files g))).
Proof. intros Hn. split; [done|]. intros m Hm. cbn. rewrite lookup_insert_ne; [done|]. congruence. Qed.
Lemma within_delete (P : string -> bool) g n : P n = true -> within P g (set_files g (delete n (files g))).
Proof. intros Hn. split; [done|]. intros m Hm. cbn. rewrite lookup_delete_ne; [done|]. congruence. Qed.
Lemma within_append (P : string -> bool) g n b : P n = true -> within P g (append n b g).
Proof. intros Hn. unfold append. destruct (files g !! n) as [[c| |]|]; try done. by apply within_insert. Qed.

Lemma within_insert_of (P : string -> bool) g1 g n x :
  published (trace g1) = published (trace g) -> files g1 = files g -> P n = true ->
  within P g (set_files g1 (<[n := x]> (files g))).
Proof.
  intros Hp Hf Hn. split; [done|]. intros m Hm. cbn. rewrite lookup_insert_ne; [done|]. congruence.
Qed.

(** Calls that only look. *)
Definition speaks (a : action) : bool := match a with Publish _ _ _ => true | _ => false end.
Lemma published_record g a : speaks a = false -> published (trace (record g a)) = published (trace g).
Proof. by destruct a. Qed.

Definition twp (P : string -> bool) {A} (m : ST Guest failure A) (Q : A -> Guest -> Prop) (g : Guest) : Prop :=
  within P g (m g).1 /\ forall a, (m g).2 = Ok a -> Q a (m g).1.

Section twp.
Context `{GuestEnv} (P : string -> bool).

Lemma twp_mono {A} (m : ST Guest failure A) (Q Q' : A -> Guest -> Prop) g :
  twp P m Q g -> (forall a g', within P g g' -> Q a g' -> Q' a g') -> twp P m Q' g.
Proof. intros [Hw HQ] Hi. split; [done|]. auto. Qed.
Lemma twp_weaken (P' : string -> bool) {A} (m : ST Guest failure A) (Q : A -> Guest -> Prop) g :
  (forall n, P' n = true -> P n = true) -> twp P' m Q g -> twp P m Q g.
Proof. intros Hi [Hw HQ]. split; [by eapply within_weaken|done]. Qed.
Lemma twp_bind {A B} (m : ST Guest failure A) (k : A -> ST Guest failure B) Q g :
  twp P m (fun a g' => twp P (k a) Q g') g -> twp P (m ≫= k) Q g.
Proof.
  unfold twp, mbind, ST_bind. intros [Hc Hk]. destruct (m g) as [g' [a|e]]; cbn in *; [|by split].
  destruct (Hk a eq_refl) as [Hc' HQ]. split; [by eapply within_trans|done].
Qed.
Lemma twp_ret {A} (a : A) (Q : A -> Guest -> Prop) g : Q a g -> twp P (mret a : ST Guest failure A) Q g.
Proof. intros HQ. split; [done|]. by intros ? [= <-]. Qed.
Lemma twp_checked {A} (r : result anyhow A) (Q : A -> Guest -> Prop) g :
  (forall a, r = Ok a -> Q a g) -> twp P (checked r) Q g.
Proof. intros HQ. split; [done|]. unfold checked, lift. cbn. destruct r as [a|e]; [|done]. intros ? [= <-]. by apply HQ. Qed.
Lemma twp_syscall {A} (f : Guest -> result anyhow (Guest * A)) (Q : A -> Guest -> Prop) g :
  (forall g' a, f (record g Syscall) = Ok (g', a) -> within P (record g Syscall) g' /\ Q a g') ->
  twp P (syscall f) Q g.
Proof.
  intros Hf. unfold twp, syscall. destruct (fault (trace g)) as [e|]; [by split|].
  destruct (f (record g Syscall)) as [[g' a]|e] eqn:Hr; [|by split].
  destruct (Hf _ _ eq_refl) as [[Hp Hw] HQ]. split; [by split|]. by intros ? [= <-].
Qed.
Lemma twp_looks {A} (f : Guest -> result anyhow (Guest * A)) (Q : A -> Guest -> Prop) g :
  (forall g1 g' a, f g1 = Ok (g', a) -> g' = g1) ->
  (forall a, f (record g Syscall) = Ok (record g Syscall, a) -> Q a (record g Syscall)) -> twp P (syscall f) Q g.
Proof.
  intros Hf HQ. apply twp_syscall. intros g' a Hr. pose proof (Hf _ _ _ Hr) as ->. split; [done|by apply HQ].
Qed.
Lemma twp_ask {A} (a : action) (answer : list action -> A) (Q : A -> Guest -> Prop) g :
  speaks a = false -> Q (answer (trace g)) (record g a) -> twp P (ask a answer) Q g.
Proof.
  intros Ha HQ. split; [|by intros ? [= <-]]. apply within_files; [|done]. by apply published_record.
Qed.
Lemma twp_unseen (Q : unit -> Guest -> Prop) g : Q tt (record g Syscall) -> twp P unseen Q g.
Proof. intros HQ. apply twp_looks; [by intros ??? [= <-]|]. intros [] _. exact HQ. Qed.
Lemma twp_attempt {A} (m : ST Guest failure A) (Q : result anyhow A -> Guest -> Prop) g :
  (forall e g', Q (Err e) g') -> twp P m (fun a g' => Q (Ok a) g') g -> twp P (attempt m) Q g.
Proof.
  intros HE [Hc HQ]. unfold twp, attempt in *. destruct (m g) as [g' [a|[|e]]]; cbn in *; (split; [done|]); [|done|].
  - intros ? [= <-]. by apply HQ.
  - intros ? [= <-]. apply HE.
Qed.
End twp.

(** Calls that change no file. *)
Definition quiet {A} (m : ST Guest failure A) : Prop := forall g, within nowhere g (m g).1.
Lemma twp_quiet P {A} (m : ST Guest failure A) (Q : A -> Guest -> Prop) g :
  quiet m -> (forall a g', within nowhere g g' -> Q a g') -> twp P m Q g.
Proof. intros Hm HQ. split; [eapply within_weaken; [|apply Hm]; done|]. intros a _. apply HQ, Hm. Qed.

Section calls.
Context `{GuestEnv, WorkspaceEnv, UuidLib}.

Lemma quiet_twp {A} (m : ST Guest failure A) : (forall g, twp nowhere m (fun _ _ => True) g) -> quiet m.
Proof. intros Hm g. apply Hm. Qed.
Lemma quiet_unseen : quiet unseen.
Proof. apply quiet_twp. intros g. by apply twp_unseen. Qed.
Lemma quiet_checked {A} (r : result anyhow A) : quiet (checked r).
Proof. apply quiet_twp. intros g. by apply twp_checked. Qed.
Lemma quiet_then {A B} (m : ST Guest failure A) (k : A -> ST Guest failure B) :
  quiet m -> (forall a, quiet (k a)) -> quiet (m ≫= k).
Proof. intros Hm Hk. apply quiet_twp. intros g. apply twp_bind, twp_quiet; [done|]. intros a g' _. split; [apply Hk|done]. Qed.
Lemma quiet_answer {A} a (f : list action -> A) : speaks a = false -> quiet (ask a f).
Proof. intros Ha. apply quiet_twp. intros g. by apply twp_ask. Qed.
Lemma quiet_mret {A} (a : A) : quiet (mret a).
Proof. intros g. apply within_refl. Qed.
Lemma quiet_parent path : quiet (parent path).
Proof.
  apply quiet_then; [apply quiet_checked|]. intros _. apply quiet_then; [apply quiet_unseen|]. intros _.
  apply quiet_then; [by apply quiet_answer|]. intros found. apply quiet_checked.
Qed.
Lemma quiet_version n c : quiet (version n c).
Proof. apply quiet_then; [apply quiet_unseen|]. intros _. apply quiet_then; [by apply quiet_answer|]. intros s. apply quiet_mret. Qed.
Lemma quiet_workspace_version path : quiet (workspace_version path).
Proof. apply quiet_then; [apply quiet_unseen|]. intros _. apply quiet_then; [by apply quiet_answer|]. intros s. apply quiet_checked. Qed.

Lemma twp_regular P n (Q : bytes -> Guest -> Prop) g :
  (forall c, files g !! n = Some (File c) -> Q c (record g Syscall)) -> twp P (regular n) Q g.
Proof.
  intros HQ. apply twp_looks.
  - intros g1 g' a. destruct (files g1 !! n) as [[]|]; try done. by intros [= <- _].
  - intros c. cbn. destruct (files g !! n) as [[y| |]|]; try done. intros [= <-]. by apply HQ.
Qed.
Lemma twp_create P n (Q : unit -> Guest -> Prop) g :
  P n = true ->
  (forall g', files g !! n = None -> files g' = <[n := File ""]> (files g) -> Q tt g') -> twp P (create n) Q g.
Proof.
  intros Hn HQ. apply twp_syscall. cbn. intros g' a. destruct (files g !! n) eqn:Hf; [done|].
  intros [= <- <-]. split; [by apply (within_insert P (record g Syscall))|by apply HQ].
Qed.
Lemma twp_write_all P n b (Q : unit -> Guest -> Prop) g :
  P n = true -> (forall g', files g' = files (append n b g) -> Q tt g') -> twp P (write_all n b) Q g.
Proof.
  intros Hn HQ. unfold twp, write_all. destruct (fault (trace g)) as [e|]; cbn;
    (split; [eapply within_trans, within_append; [|done]; done|]); [done|].
  intros [] _. apply HQ. unfold append. cbn. by destruct (files g !! n) as [[]|].
Qed.
Lemma twp_read_dir P n (Q : list string -> Guest -> Prop) g :
  (forall l, l ≡ₚ (map_to_list (files g)).*1 -> Q (take n l) (record g Syscall)) -> twp P (read_dir n) Q g.
Proof. intros HQ. apply twp_looks; [by intros ??? [= <- _]|]. intros a [= <-]. apply HQ, listing_perm. Qed.
Lemma twp_names P (Q : list string -> Guest -> Prop) g :
  (forall l, (forall n, is_Some (files g !! n) <-> n ∈ l) -> NoDup l -> Q l (record g Syscall)) -> twp P names Q g.
Proof.
  intros HQ. apply twp_bind, twp_read_dir. intros l Hl. apply twp_bind, twp_checked. intros [] Hn%ensure_ok.
  apply twp_ret. rewrite take_ge; [|rewrite length_take in Hn; apply Nat.leb_le in Hn; unfold MAX_NAMES in *; lia].
  apply HQ; [|rewrite Hl; apply NoDup_fst_map_to_list]. intros n. rewrite Hl, list_elem_of_fmap. split.
  - intros [x Hx]. exists (n, x). by rewrite elem_of_map_to_list.
  - intros ([n' x] & -> & Hx). rewrite elem_of_map_to_list in Hx. by exists x.
Qed.
Lemma twp_remove P n (Q : unit -> Guest -> Prop) g :
  P n = true -> (forall g', files g' = delete n (files g) -> Q tt g') -> twp P (remove n) Q g.
Proof.
  intros Hn HQ. apply twp_bind, twp_syscall. cbn. intros g' removed Hr.
  assert (within P (record g Syscall) g' /\ files g' = delete n (files g)) as [Hw Hf].
  { destruct (files g !! n) as [[]|] eqn:Hg; simplify_eq; (split; [|cbn]); try done.
    - by apply (within_delete P (record g Syscall)).
    - by apply (within_delete P (record g Syscall)).
    - symmetry. by apply delete_id. }
  split; [done|]. destruct removed; [|by apply twp_ret, HQ]. by apply twp_unseen, HQ.
Qed.
Lemma twp_read_metadata {A} `{Serde A} P n (Q : A -> Guest -> Prop) g :
  (forall x v, files g !! n = Some (File x) -> from_slice x = Some v -> Q v (record g Syscall)) ->
  twp P (read_metadata n) Q g.
Proof.
  intros HQ. apply twp_bind, twp_regular. intros x Hx. apply twp_bind, twp_checked. intros _ _.
  apply twp_checked. intros v Hv%ok_or_ok. by eapply HQ.
Qed.

(** *** Metadata *)

Lemma temporary_name (i : OperationId) : temporary (to_string i +:+ ".tmp") = true.
Proof. apply bool_decide_eq_true. by apply (name_extension i "tmp"). Qed.

(** [write_json]: when it fails, its file is the old one or the new one. *)
Definition written {A} `{Serde A} (n : string) (v : A) (g : Guest) (r : result failure unit) (g' : Guest) : Prop :=
  within (either (only n) temporary) g g' /\
  (files g' !! n = files g !! n /\ r <> Ok tt \/ exists x, to_vec v = Some x /\ files g' !! n = Some (File x)).

Lemma written_early {A} `{Serde A} n (v : A) g g' r :
  temporary n = false -> within temporary g g' -> r <> Ok tt -> written n v g r g'.
Proof.
  intros Hn Hw Hr. split; [|left; split; [by apply Hw|done]].
  eapply within_weaken; [|exact Hw]. intros m Hm. unfold either. by rewrite Hm, orb_true_r.
Qed.
Lemma rwp_write_metadata {A} `{Serde A} n (v : A) g :
  temporary n = false -> rwp (write_metadata n v) (written n v g) g.
Proof.
  intros Hn. unfold write_metadata.
  apply rwp_bind, rwp_checked; [|intros e; by apply written_early]. intros x Hx%ok_or_ok.
  apply rwp_bind, rwp_checked; [|intros e; by apply written_early]. intros [] _.
  apply rwp_bind, RunnerLaws.rwp_ask. set (i := generated _). set (temp := to_string i +:+ ".tmp").
  pose proof (temporary_name i) as Ht. fold temp in Ht. set (g0 := record g GenerateId).
  assert (HE : forall g' (r : result failure unit), published (trace g') = published (trace g) ->
      (files g' = files g \/ exists c, files g' = <[temp := File c]> (files g)) -> r <> Ok tt -> written n v g r g').
  { intros g' r Hp Hf Hr. apply written_early; [done| |done]. split; [done|]. intros m Hm.
    destruct Hf as [->|[c ->]]; [done|]. rewrite lookup_insert_ne; [done|]. congruence. }
  apply rwp_bind, rwp_syscall; [by intros e; apply HE; [|left|]|]. cbn. intros g1 [] Hc.
  destruct (files g !! temp) eqn:Hnone; [done|]. injection Hc as <-.
  apply rwp_bind, RunnerLaws.rwp_write_all.
  { intros e c. unfold append. cbn. rewrite lookup_insert_eq. apply HE; [done| |done]. right. exists c. cbn. by rewrite insert_insert_eq. }
  unfold append. cbn. rewrite lookup_insert_eq. cbn. rewrite insert_insert_eq.
  apply rwp_bind, rwp_syscall; [intros e; apply HE; [done|right; by exists x|done]|]. cbn. intros g3 [] [= <-].
  apply rwp_bind, rwp_syscall; [intros e; apply HE; [done|right; by exists x|done]|]. cbn. intros g4 [] Hr.
  rewrite lookup_insert_eq in Hr.
  assert (Hf : published (trace g4) = published (trace g) /\
    files g4 = <[n := File x]> (delete temp (<[temp := File x]> (files g)))).
  { destruct (<[temp:=File x]> (files g) !! n) as [[]|]; simplify_eq; done. }
  destruct Hf as [Hp Hf]. rewrite delete_insert_eq in Hf.
  assert (Hw : forall r g', published (trace g') = published (trace g) -> files g' = files g4 -> written n v g r g').
  { intros r g' Hp' Hf'. rewrite Hf in Hf'. split; [split; [done|]|].
    - intros m Hm. unfold either, only in Hm. bools. rewrite Hf', lookup_insert_ne, lookup_delete_ne; [done|congruence|done].
    - right. exists x. split; [done|]. by rewrite Hf', lookup_insert_eq. }
  apply rwp_syscall; [by intros e; apply Hw|]. cbn. intros g5 [] [= <-]. by apply Hw.
Qed.

(** *** Publishing *)

(** Either nothing happened, or the staged file was renamed into the workspace. *)
Definition moved (id : OperationId) (path : string) (g : Guest) (r : result failure unit) (g' : Guest) : Prop :=
  (published (trace g') = published (trace g) /\ files g' = files g /\ r <> Ok tt) \/
  exists c, files g !! data_name id = Some (File c) /\ files g' = delete (data_name id) (files g) /\
    published (trace g') = (id, path, c) :: published (trace g).
Lemma rwp_publish id path g : rwp (publish id path) (moved id path g) g.
Proof.
  unfold publish. apply rwp_bind, RunnerLaws.rwp_ask. set (ok := replaceable _ _).
  apply rwp_bind, rwp_syscall; [by intros e; left|]. cbn. intros g1 [] Hr.
  destruct (files g !! data_name id) as [[c| |]|] eqn:Hd; try done. destruct ok; [|done]. injection Hr as <-.
  assert (Hm : forall r g', published (trace g') = (id, path, c) :: published (trace g) ->
    files g' = delete (data_name id) (files g) -> moved id path g r g') by (intros r g' Hp Hf; right; by exists c).
  apply rwp_bind, rwp_syscall; [by intros e; apply Hm|]. cbn. intros g2 [] [= <-].
  apply rwp_syscall; [by intros e; apply Hm|]. cbn. intros g3 [] [= <-]. by apply Hm.
Qed.
End calls.
