(* ===== verification/FileInv.v ===== *)
(** * What the file engine keeps true

    [world_ok]: of the state directory and the log, also when no agent runs. [engine_ok]: of
    an engine between two operations; one that has failed answers nothing until it is opened
    again, so that little is asked of it. *)

From S2P Require Import Prelude Ext Ids GuestModel GuestEnv Transfers FileLaws.
From S2P Require Files History Runner RunnerLaws.
Import Runner(LOCK, CONTEXT_JSON, extension).
Import RunnerLaws(floor, floor_of, floor_same, name_extension, rwp, rwp_mono, rwp_bind, rwp_ret, rwp_checked, rwp_attempt).
Import Files(MAX_FILE_BYTES, MAX_CHUNK_BYTES, MAX_TRANSFERS, MAX_RESERVED_BYTES, Upload, u_operation_id, u_path, u_size, u_sha256, u_mode, f_state, f_upload, f_context, f_digest).
#[local] Existing Instances Files.State_eq_dec Files.Upload_eq_dec.

(** The types of an upload's and of a receipt's fields. *)
Definition upload_typed `{UuidLib} (u : Upload) : bool :=
  canonical (u_operation_id u) && (0 <=? u_size u) && (strlen (u_sha256 u) =? 32).
Definition file_typed `{UuidLib} (r : Files.Receipt) : bool :=
  upload_typed (f_upload r) && canonical (allocation_id (f_context r)) && (strlen (f_digest r) =? 32).

(** [serde_json] on what the engine writes. *)
Class FileSerde `{UuidLib, Serde Files.Receipt, Serde History.Binding} := {
  file_binding_back (b : History.Binding) x : to_vec b = Some x -> from_slice x = Some b;
  file_receipt_back r x : file_typed r = true -> to_vec r = Some x -> from_slice x = Some r;
  file_receipt_read x r : from_slice x = Some r -> file_typed r = true;
}.

(** An upload whose content may be in the workspace. *)
Definition went (s : Files.State) : bool :=
  match s with Files.CommitIntent | Files.Committed | Files.Unknown => true | _ => false end.
Definition describes `{Sha256} (r : Files.Receipt) (id : OperationId) (path : string) (c : bytes) : Prop :=
  u_operation_id (f_upload r) = id /\ u_path (f_upload r) = path /\ u_size (f_upload r) = strlen c /\
  u_sha256 (f_upload r) = sha256 c.

Section invariant.
Context `{GuestEnv, WorkspaceEnv, UuidLaws, Sha256, Sha256Laws0 : !Sha256Laws, Serde Upload, Serde Files.Receipt,
          Serde History.Binding, FileSerde0 : !FileSerde}.

(** The receipt of an operation on disk. *)
Definition filed (g : Guest) (id : OperationId) : option Files.Receipt :=
  match files g !! receipt_name id with Some (File x) => from_slice x | _ => None end.

Record world_ok (g : Guest) : Prop := {
  wo_once : NoDup ((published (trace g)).*1).*1;
  wo_record : forall id path c, (id, path, c) ∈ published (trace g) -> canonical id = true /\
    (floor g id = false -> exists r, filed g id = Some r /\ went (f_state r) = true /\ describes r id path c);
  wo_truth : forall id r, canonical id = true -> floor g id = false -> filed g id = Some r ->
    f_state r = Files.Committed -> exists path c, (id, path, c) ∈ published (trace g);
}.

Record mem_ok (c : Context) (id : OperationId) (r : Files.Receipt) : Prop := {
  mo_id : u_operation_id (f_upload r) = id;
  mo_typed : file_typed r = true;
  mo_context : f_context r = c;
  mo_valid : Files.receipt_validate r = Ok tt;
}.
Definition context_ok (c : Context) : bool :=
  (0 <? generation c) && negb (bool_decide (boot_id c = "")) && (strlen (boot_id c) <=? 64)
  && canonical (allocation_id c).

Record engine_ok (t : Transfers) (g : Guest) : Prop := {
  eo_world : world_ok g;
  eo_floor : failed t = false -> forall id, floor g id = floor_of (barrier t) id;
  eo_receipts : forall id r, receipts t !! id = Some r -> mem_ok (context t) id r;
  eo_filed : failed t = false -> forall id r, receipts t !! id = Some r -> filed g id = Some r /\ floor g id = false;
  eo_known : failed t = false -> forall id, canonical id = true -> floor g id = false -> is_Some (filed g id) ->
    is_Some (receipts t !! id);
  eo_size : Z.of_nat (size (receipts t)) <= MAX_TRANSFERS;
  eo_reserved : reserved (receipts t) <= MAX_RESERVED_BYTES;
  eo_context : context_ok (context t) = true;
}.

(** ** Names *)

Lemma receipt_name_json id : metadata (receipt_name id) = true.
Proof. apply bool_decide_eq_true. by apply (name_extension id "json"). Qed.
Lemma data_name_ext id : extension (data_name id) = Some "data".
Proof. by apply (name_extension id "data"). Qed.
Lemma receipt_name_temporary id : temporary (receipt_name id) = false.
Proof. apply bool_decide_eq_false. unfold receipt_name. by rewrite (name_extension id "json"). Qed.
Lemma receipt_name_inj a b :
  canonical a = true -> canonical b = true -> receipt_name a = receipt_name b -> a = b.
Proof.
  intros Ha Hb Heq%(f_equal (Runner.strip_suffix ".json")). unfold receipt_name in Heq.
  rewrite !RunnerLaws.strip_suffix_app in Heq by done. apply (inj Some) in Heq. by apply (to_string_inj KOperation).
Qed.
Lemma receipt_not_context id : receipt_name id <> CONTEXT_JSON.
Proof. done. Qed.
Lemma temporary_harmless n : temporary n = true -> metadata n = false.
Proof. unfold temporary, metadata. intros Ht. bools. apply bool_decide_eq_false. by rewrite Ht. Qed.
Lemma data_harmless id : metadata (data_name id) = false.
Proof. apply bool_decide_eq_false. by rewrite data_name_ext. Qed.

(** ** Changes that the invariants do not see *)

Definition safe (P : string -> bool) (g : Guest) : Prop :=
  P CONTEXT_JSON = false /\
  forall id, canonical id = true -> floor g id = false -> P (receipt_name id) = false.

Lemma harmless_safe (P : string -> bool) g : (forall n, P n = true -> metadata n = false) -> safe P g.
Proof.
  intros Hm. assert (Hn : forall n, metadata n = true -> P n = false).
  { intros n Hj. destruct (P n) eqn:Hp; [|done]. apply Hm in Hp. congruence. }
  split; [by apply Hn|]. intros id _ _. apply Hn, receipt_name_json.
Qed.
Lemma nowhere_safe g : safe nowhere g.
Proof. by apply harmless_safe. Qed.

Lemma within_floor P g g' : safe P g -> within P g g' -> floor g' = floor g.
Proof. intros [Hc _] [_ Hf]. apply floor_same. by apply Hf. Qed.
Lemma within_filed P g g' id :
  safe P g -> within P g g' -> canonical id = true -> floor g id = false -> filed g' id = filed g id.
Proof. intros [_ Hr] [_ Hf] Hc Hn. unfold filed. rewrite Hf; [done|]. by apply Hr. Qed.

Lemma world_within P g g' : safe P g -> within P g g' -> world_ok g -> world_ok g'.
Proof.
  intros Hs Hw [Ho Hr Ht]. pose proof (within_floor _ _ _ Hs Hw) as Hf. pose proof Hw as [Hp _].
  split; rewrite ?Hp, ?Hf; [done|..].
  - intros id path c Hin. destruct (Hr _ _ _ Hin) as [Hc Hrec]. split; [done|]. intros Hn.
    rewrite (within_filed P g) by done. by apply Hrec.
  - intros id r Hc Hn. rewrite (within_filed P g) by done. by apply Ht.
Qed.
Lemma engine_within P t g g' : safe P g -> within P g g' -> engine_ok t g -> engine_ok t g'.
Proof.
  intros Hs Hw [Hwo Hfl Hre Hfi Hkn Hsz Hrs Hcx]. pose proof (within_floor _ _ _ Hs Hw) as Hf. split; try done.
  - by eapply world_within.
  - by rewrite Hf.
  - intros Hfd id r Hr. destruct (Hfi Hfd id r Hr) as [Hd Hn]. rewrite Hf. split; [|done].
    rewrite (within_filed P g); [done..| |done]. destruct (Hre id r Hr) as [<- Ht _ _]. unfold file_typed, upload_typed in Ht. by bools.
  - intros Hfd id Hc. rewrite Hf. intros Hn. rewrite (within_filed P g) by done. by apply Hkn.
Qed.

Lemma fm_canonical c id r : mem_ok c id r -> canonical id = true.
Proof. intros [<- Ht _ _]. unfold file_typed, upload_typed in Ht. by bools. Qed.

(** Writing a receipt. *)
Definition allowed (g : Guest) (id : OperationId) (r : Files.Receipt) : Prop :=
  (forall path c, (id, path, c) ∈ published (trace g) -> went (f_state r) = true /\ describes r id path c) /\
  (f_state r = Files.Committed -> exists path c, (id, path, c) ∈ published (trace g)).

Definition at_receipt (id : OperationId) : string -> bool := either (only (receipt_name id)) temporary.
Lemma receipt_within id id' g g' :
  within (at_receipt id) g g' -> canonical id = true -> canonical id' = true -> id' <> id -> filed g' id' = filed g id'.
Proof.
  intros [_ Hf] Hc Hc' Hne. unfold filed. rewrite Hf; [done|]. unfold at_receipt, either, only.
  rewrite receipt_name_temporary, bool_decide_eq_false_2; [done|]. intros Heq. by apply receipt_name_inj in Heq.
Qed.
Lemma receipt_floor id g g' : within (at_receipt id) g g' -> floor g' = floor g.
Proof. intros [_ Hf]. apply floor_same, Hf. done. Qed.
Lemma world_put id r g g' :
  world_ok g -> within (at_receipt id) g g' -> canonical id = true -> filed g' id = Some r -> allowed g id r -> world_ok g'.
Proof.
  intros [Ho Hr Ht] Hw Hc Hd [Ha Hb]. pose proof (receipt_floor _ _ _ Hw) as Hf. pose proof Hw as [Hp _].
  split; rewrite ?Hp, ?Hf; [done|..].
  - intros i path c Hin. destruct (Hr _ _ _ Hin) as [Hic Hrec]. split; [done|]. intros Hn.
    destruct (decide (i = id)) as [->|Hne]; [exists r; split; [done|by apply Ha]|].
    rewrite (receipt_within id i g) by done. by apply Hrec.
  - intros i r' Hic Hn. destruct (decide (i = id)) as [->|Hne]; [rewrite Hd; intros [= <-]; by apply Hb|].
    rewrite (receipt_within id i g) by done. by apply Ht.
Qed.
(** A write that failed early. *)
Lemma receipt_early id g g' :
  within (at_receipt id) g g' -> files g' !! receipt_name id = files g !! receipt_name id ->
  within temporary g g'.
Proof.
  intros [Hp Hf] He. split; [done|]. intros n Hn. destruct (decide (n = receipt_name id)) as [->|Hne]; [done|].
  apply Hf. unfold at_receipt, either, only. by rewrite Hn, bool_decide_eq_false_2.
Qed.
Lemma temporary_safe g : safe temporary g.
Proof. apply harmless_safe, temporary_harmless. Qed.

(** ** Handlers *)

Definition ok (e : Engine) : Prop := engine_ok (transfers e) (disk e).
Definition with_disk (e : Engine) (g : Guest) : Engine := {| transfers := transfers e; disk := g |}.
Definition kept {A} (Q : A -> Engine -> Prop) (r : result failure A) (e : Engine) : Prop :=
  match r with
  | Ok x => ok e /\ Q x e
  | Err (Failed _) => ok e
  | Err Killed => world_ok (disk e)
  end.
Lemma ekept_err {A} (Q : A -> Engine -> Prop) x e : ok e -> kept Q (Err x) e.
Proof. destruct x; [by intros []|done]. Qed.
Lemma ekept_mono {A} (Q Q' : A -> Engine -> Prop) r e :
  kept Q r e -> (forall x, r = Ok x -> ok e -> Q x e -> Q' x e) -> kept Q' r e.
Proof. destruct r as [x|[]]; cbn; [|done..]. intros [Ho HQ] Hi. split; [done|]. by apply Hi. Qed.
Lemma kept_ret {A} (Q : A -> Engine -> Prop) x e : ok e -> Q x e -> rwp (mret x : ST Engine failure A) (kept Q) e.
Proof. by split. Qed.

Lemma ewp_check {A B} (r : result anyhow A) (k : A -> ST Engine failure B) (Q : B -> Engine -> Prop) e :
  ok e -> (forall x, r = Ok x -> rwp (k x) (kept Q) e) -> rwp (checked r ≫= k) (kept Q) e.
Proof. intros Hok Hk. apply rwp_bind, rwp_checked; [done|]. intros x. by apply ekept_err. Qed.
Lemma rwp_self {B} (k : Transfers -> ST Engine failure B) (Q : result failure B -> Engine -> Prop) e :
  rwp (k (transfers e)) Q e -> rwp (self_ ≫= k) Q e.
Proof. done. Qed.
Lemma ewp_update f (Q : result failure unit -> Engine -> Prop) e :
  Q (Ok tt) {| transfers := f (transfers e); disk := disk e |} -> rwp (update f) Q e.
Proof. done. Qed.
Lemma rwp_on_disk {A} (m : ST Guest failure A) (Q : result failure A -> Engine -> Prop) e :
  rwp m (fun r g => Q r (with_disk e g)) (disk e) -> rwp (on_disk m) Q e.
Proof. unfold rwp, on_disk. by destruct (m (disk e)). Qed.
Lemma rwp_twp P {A} (m : ST Guest failure A) (Q : A -> Guest -> Prop) (Q' : result failure A -> Guest -> Prop) g :
  twp P m Q g ->
  (forall a g', within P g g' -> Q a g' -> Q' (Ok a) g') ->
  (forall e g', within P g g' -> Q' (Err e) g') -> rwp m Q' g.
Proof.
  intros [Hc HQ] HO HE. unfold rwp. destruct (m g) as [g' [a|e]]; cbn in *; [by apply HO, HQ|by apply HE].
Qed.
(** A call that the invariant does not see. *)
Lemma ewp_call P {A B} (m : ST Guest failure A) (Q0 : A -> Guest -> Prop) (k : A -> ST Engine failure B)
    (Q : B -> Engine -> Prop) e :
  ok e -> safe P (disk e) -> twp P m Q0 (disk e) ->
  (forall x g, ok (with_disk e g) -> within P (disk e) g -> Q0 x g -> rwp (k x) (kept Q) (with_disk e g)) ->
  rwp (on_disk m ≫= k) (kept Q) e.
Proof.
  intros Hok Hs Hm Hk. apply rwp_bind, rwp_on_disk. eapply rwp_twp; [exact Hm|..].
  - intros a g Hw HQ. apply Hk; [by eapply engine_within|done..].
  - intros x g Hw. apply ekept_err. by eapply (engine_within P).
Qed.
Lemma rwp_quiet {A B} (m : ST Guest failure A) (k : A -> ST Engine failure B) (Q : B -> Engine -> Prop) e :
  ok e -> quiet m ->
  (forall x g, ok (with_disk e g) -> within nowhere (disk e) g -> rwp (k x) (kept Q) (with_disk e g)) ->
  rwp (on_disk m ≫= k) (kept Q) e.
Proof.
  intros Hok Hm Hk. eapply (ewp_call nowhere); [done|apply nowhere_safe|by apply (twp_quiet _ _ (fun _ _ => True))|].
  intros x g Hg Hw _. by apply Hk.
Qed.
Lemma rwp_healthy {B} (k : unit -> ST Engine failure B) (Q : B -> Engine -> Prop) e :
  ok e -> (failed (transfers e) = false -> rwp (k tt) (kept Q) e) -> rwp (healthy ≫= k) (kept Q) e.
Proof.
  intros Hok Hk. apply rwp_bind, rwp_self, rwp_checked; [|intros x; by apply ekept_err].
  intros [] Hf%ensure_ok. apply Hk. by destruct (failed (transfers e)).
Qed.
End invariant.
#[global] Arguments kept : simpl never.
