(* ===== verification/FileKeeps.v ===== *)
(** * Each operation of the file engine keeps its invariant *)

From S2P Require Import Prelude Ext Ids GuestModel GuestEnv Transfers FileLaws FileInv.
From S2P Require Files History Runner RunnerLaws.
Import Runner(LOCK, CONTEXT_JSON, extension).
Import RunnerLaws(floor, floor_of, floor_same, name_extension, rwp, rwp_mono, rwp_bind, rwp_ret, rwp_checked, rwp_attempt).
Import Files(MAX_FILE_BYTES, MAX_CHUNK_BYTES, MAX_TRANSFERS, MAX_RESERVED_BYTES, Upload, u_operation_id, u_path, u_size, u_sha256, u_mode, f_state, f_upload, f_context, f_digest).
#[local] Existing Instances Files.State_eq_dec Files.Upload_eq_dec.

(** A call that changes no file, and so not the one that [Hc] speaks of. *)
Ltac keep_file Hc l :=
  let Hw := fresh in
  apply rwp_quiet; [done|apply l|]; intros ? ? ? [_ Hw]; cbn [disk with_disk] in Hw;
  rewrite <- (Hw _ eq_refl) in Hc; clear Hw.

Section keeps.
Context `{GuestEnv, WorkspaceEnv, UuidLaws, Sha256, Sha256Laws0 : !Sha256Laws, Serde Upload, Serde Files.Receipt,
          Serde History.Binding, FileSerde0 : !FileSerde}.
Implicit Types (e : Engine) (g : Guest) (r : Files.Receipt).

(** ** Reservations *)

Lemma declared_new (m : gmap OperationId Files.Receipt) id r :
  m !! id = None -> reserved (<[id := r]> m) = u_size (f_upload r) + reserved m.
Proof. apply (sum_map_insert (fun x => u_size (f_upload x.2))). Qed.
Lemma reserved_set (m : gmap OperationId Files.Receipt) id r r' :
  m !! id = Some r -> u_size (f_upload r') = u_size (f_upload r) -> reserved (<[id := r']> m) = reserved m.
Proof.
  intros Hm Hs. rewrite <- (insert_delete_eq m id), declared_new by apply lookup_delete_eq.
  rewrite <- (insert_id m id r) at 2 by done. rewrite <- (insert_delete_eq m id), declared_new by apply lookup_delete_eq. lia.
Qed.
Lemma size_set (m : gmap OperationId Files.Receipt) id r r' :
  m !! id = Some r -> size (<[id := r']> m) = size m.
Proof. intros Hm. apply map_size_insert_Some. by exists r. Qed.
Lemma mem_size c id r : mem_ok c id r -> 0 <= u_size (f_upload r).
Proof. intros [_ Ht _ _]. unfold file_typed, upload_typed in Ht. bools. lia. Qed.
Lemma declared_filter c (m : gmap OperationId Files.Receipt) P `{!forall x, Decision (P x)} :
  (forall id r, m !! id = Some r -> mem_ok c id r) -> reserved (base.filter P m) <= reserved m.
Proof. intros Hm. apply (sum_map_filter (fun x => u_size (f_upload x.2))). intros id r Hr. by eapply mem_size, Hm. Qed.

(** ** Saving *)

Lemma engine_fail t g g' : engine_ok t g -> world_ok g' -> engine_ok (set_failed t true) g'.
Proof. intros [_ _ Hre _ _ Hsz Hrs Hcx] Hw. by split. Qed.
Lemma rwp_fencing {A} (m : ST Engine failure A) (Q : result failure A -> Engine -> Prop) e :
  rwp m (fun x e' => match x with
    | Err (Failed _) => Q x {| transfers := set_failed (transfers e') true; disk := disk e' |}
    | _ => Q x e'
    end) e -> rwp (fencing m) Q e.
Proof. unfold rwp, fencing, attempt, mbind, ST_bind. destruct (m e) as [e' [x|[|x]]]; cbn; done. Qed.

Lemma engine_put t g g' id r :
  engine_ok t g -> failed t = false -> mem_ok (context t) id r -> allowed g id r -> floor g id = false ->
  Z.of_nat (size (<[id := r]> (receipts t))) <= MAX_TRANSFERS -> reserved (<[id := r]> (receipts t)) <= MAX_RESERVED_BYTES ->
  within (at_receipt id) g g' -> filed g' id = Some r ->
  engine_ok (set_receipts t (<[id := r]> (receipts t))) g'.
Proof.
  intros [Hwo Hfl Hre Hfi Hkn _ _ Hcx] Hfd Hm Ha Hn Hsz Hrs Hw Hd. pose proof (fm_canonical _ _ _ Hm) as Hc.
  pose proof (receipt_floor _ _ _ Hw) as Hf. split; cbn; try done.
  - by eapply world_put.
  - intros _. rewrite Hf. by apply Hfl.
  - intros i x [[<- <-]|[_ Hx]]%lookup_insert_Some; [done|by apply Hre].
  - intros _ i x. rewrite Hf. intros [[<- <-]|[Hne Hx]]%lookup_insert_Some; [done|].
    destruct (Hfi Hfd i x Hx) as [Hdx Hnx]. split; [|done]. rewrite (receipt_within id i g) by (done || by eapply fm_canonical, Hre). done.
  - intros _ i Hi. rewrite Hf. intros Hnx Hdx. destruct (decide (i = id)) as [->|Hne].
    + rewrite lookup_insert_eq. by eexists.
    + rewrite lookup_insert_ne by done. rewrite (receipt_within id i g) in Hdx by done. by apply Hkn.
Qed.

Lemma spec_save_receipt r e :
  let id := u_operation_id (f_upload r) in let t := transfers e in
  ok e -> failed t = false -> mem_ok (context t) id r -> allowed (disk e) id r -> floor (disk e) id = false ->
  Z.of_nat (size (<[id := r]> (receipts t))) <= MAX_TRANSFERS -> reserved (<[id := r]> (receipts t)) <= MAX_RESERVED_BYTES ->
  rwp (save r) (kept (fun x e' => x = r /\ transfers e' = set_receipts t (<[id := r]> (receipts t)) /\
    within (at_receipt id) (disk e) (disk e'))) e.
Proof.
  intros id t Hok Hfd Hm Ha Hn Hsz Hrs. pose proof (fm_canonical _ _ _ Hm) as Hc. unfold save. fold id.
  apply rwp_bind, rwp_fencing, rwp_on_disk. eapply rwp_mono; [apply rwp_write_metadata, receipt_name_temporary|].
  intros o g' [Hw Ho].
  assert (Hd : forall x, to_vec r = Some x -> files g' !! receipt_name id = Some (File x) -> filed g' id = Some r).
  { intros x Hx Hf. unfold filed. rewrite Hf. apply file_receipt_back; [apply Hm|done]. }
  assert (Hwo : world_ok g').
  { destruct Ho as [[He _]|(x & Hx & Hf)].
    - eapply world_within; [apply temporary_safe|by eapply receipt_early|apply Hok].
    - eapply world_put; [apply Hok|done..|by eapply Hd|done]. }
  destruct o as [[]|[|x]]; [|done|].
  - destruct Ho as [[_ ?]|(x & Hx & Hf)]; [done|]. apply rwp_bind, ewp_update, kept_ret; cbn; [|done].
    eapply engine_put; [exact Hok|done..|by eapply Hd].
  - by eapply engine_fail.
Qed.

(** A receipt whose upload did not go is of an upload that was never published. *)
Lemma not_published e id r :
  ok e -> failed (transfers e) = false -> receipts (transfers e) !! id = Some r -> went (f_state r) = false ->
  forall path c, (id, path, c) ∉ published (trace (disk e)).
Proof.
  intros Hok Hf Hr Hw path c Hin. destruct (wo_record _ (eo_world _ _ Hok) _ _ _ Hin) as [_ Hrec].
  destruct (eo_filed _ _ Hok Hf _ _ Hr) as [Hd Hn]. destruct (Hrec Hn) as (r' & Hr' & Hw' & _). congruence.
Qed.

(** A change of state. *)
Lemma mem_ok_state c id r s : mem_ok c id r -> mem_ok c id (set_state r s).
Proof. by intros []. Qed.
Lemma spec_save_state r s e :
  let id := u_operation_id (f_upload r) in let t := transfers e in
  ok e -> failed t = false -> receipts t !! id = Some r -> allowed (disk e) id (set_state r s) ->
  rwp (save (set_state r s)) (kept (fun x e' => x = set_state r s /\
    transfers e' = set_receipts t (<[id := set_state r s]> (receipts t)) /\ within (at_receipt id) (disk e) (disk e'))) e.
Proof.
  intros id t Hok Hf Hr Ha. destruct (eo_filed _ _ Hok Hf _ _ Hr) as [_ Hn].
  apply (spec_save_receipt (set_state r s)); [done..| |done|done| |]; cbn; fold id t.
  - apply mem_ok_state. by apply Hok.
  - rewrite (size_set _ _ r) by done. apply Hok.
  - rewrite (reserved_set _ _ r) by done. apply Hok.
Qed.

(** ** Beginning *)

Lemma spec_inspect_upload id e (Q : option Files.Receipt -> Engine -> Prop) :
  ok e -> Q (receipts (transfers e) !! id) e -> rwp (inspect id) (kept Q) e.
Proof. intros Hok HQ. apply rwp_healthy; [done|]. intros _. apply rwp_self. by apply kept_ret. Qed.

Lemma staging_ok c u d :
  context_ok c = true -> upload_typed u = true -> Files.upload_digest u = Ok d ->
  mem_ok c (u_operation_id u) (staging c u d).
Proof.
  unfold context_ok. intros Hc Hu Hd. bools. split; [done| |done|].
  - unfold file_typed. cbn. rewrite Hu. bools. rewrite andb_true_l. apply andb_true_iff. split; [done|].
    apply Z.eqb_eq. unfold Files.upload_digest in Hd. inv_ok. apply sha256_len.
  - unfold Files.receipt_validate. cbn. apply bind_ok. exists tt. split; [|rewrite Hd; cbn; by apply ensure_ok, bool_decide_eq_true].
    apply ensure_ok. repeat (apply andb_true_iff; split); try (apply Z.leb_le || apply Z.ltb_lt); try done.
    by apply negb_true_iff, bool_decide_eq_false.
Qed.

Definition fresh_stage (id : OperationId) : G unit := _ ← stage_new id; _ ← unseen; unseen.
Lemma twp_fresh_stage id g : twp harmless (fresh_stage id) (fun _ _ => True) g.
Proof.
  apply twp_bind, twp_create; [unfold harmless; by rewrite data_harmless|]. intros g1 _ _.
  apply twp_bind, twp_unseen. by apply twp_unseen.
Qed.
Lemma safe_harmless g : safe harmless g.
Proof. apply harmless_safe. intros n. unfold harmless. by destruct (metadata n). Qed.

Definition admitted (u : Upload) (r : Files.Receipt) (e : Engine) : Prop :=
  receipts (transfers e) !! u_operation_id u = Some r /\ f_upload r = u /\ failed (transfers e) = false.

Lemma spec_begin u e : upload_typed u = true -> ok e -> rwp (begin u) (kept (admitted u)) e.
Proof.
  intros Hu Hok. pose proof Hu as Hu'. unfold upload_typed in Hu'. bools.
  apply rwp_healthy; [done|]. intros Hf. apply ewp_check; [done|]. intros [] Hv. apply rwp_self.
  apply ewp_check; [done|]. intros [] Hb%ensure_ok. apply ewp_check; [done|]. intros d Hd.
  set (id := u_operation_id u) in *. set (t := transfers e) in *.
  destruct (receipts t !! id) as [r|] eqn:Hr.
  { apply ewp_check; [done|]. intros [] Hs%ensure_ok. bools. by apply kept_ret. }
  apply ewp_check; [done|]. intros [] Hs%ensure_ok. bools.
  apply rwp_quiet; [done|apply quiet_parent|]. intros _ g1 Hok1 _.
  apply rwp_bind, rwp_fencing, rwp_on_disk. cbn [disk with_disk].
  eapply (rwp_twp harmless); [apply (twp_fresh_stage id)| |].
  2: { intros x g2 Hw. destruct x; [by eapply world_within; [apply safe_harmless| |apply Hok1]|].
       eapply engine_fail; [exact Hok1|]. eapply world_within; [apply safe_harmless|exact Hw|apply Hok1]. }
  intros _ g2 Hw _. apply (engine_within harmless _ g1 g2 (safe_harmless _) Hw) in Hok1.
  set (e2 := with_disk (with_disk e g1) g2).
  assert (Hfl : floor g2 id = false).
  { rewrite (eo_floor _ _ Hok1 Hf). exact Hb. }
  eapply rwp_mono; [apply (spec_save_receipt (staging (context t) u d) e2); [exact Hok1|exact Hf| | |exact Hfl|..]|].
  - apply staging_ok; [apply Hok|done..].
  - split; [|done]. intros path c Hin. exfalso. destruct (wo_record _ (eo_world _ _ Hok1) _ _ _ Hin) as [Hc Hrec].
    destruct (Hrec Hfl) as (r & Hr' & _). destruct (eo_known _ _ Hok1 Hf id Hc Hfl) as [r0 Hr0]; [by eexists|].
    cbn in Hr0. fold t in Hr0. congruence.
  - cbn. fold t id. rewrite map_size_insert_None by done. lia.
  - cbn. fold t id. rewrite declared_new by done. cbn. lia.
  - intros x e' Hk. eapply ekept_mono; [exact Hk|]. intros r _ _ (-> & Ht & _). unfold admitted. rewrite Ht. cbn. by rewrite lookup_insert_eq.
Qed.

(** ** Writing *)

Lemma twp_stage P id (Q : bytes -> Guest -> Prop) g :
  (forall c, files g !! data_name id = Some (File c) -> Q c (record g Syscall)) -> twp P (stage id) Q g.
Proof. apply twp_regular. Qed.
Lemma quiet_stage id : quiet (stage id).
Proof. apply quiet_twp. intros g. by apply twp_stage. Qed.

Lemma only_data_safe id g : safe (only (data_name id)) g.
Proof. apply harmless_safe. unfold only. intros n Hn. bools. subst. apply data_harmless. Qed.

Lemma spec_write_chunk id offset data e :
  ok e -> rwp (write_chunk id offset data) (kept (fun _ e' => transfers e' = transfers e)) e.
Proof.
  intros Hok. apply rwp_healthy; [done|]. intros _. apply ewp_check; [done|]. intros _ _. apply rwp_self.
  do 4 (apply ewp_check; [done|]; intros ? _).
  apply rwp_quiet; [done|apply quiet_stage|]. intros c g1 Hok1 _.
  apply rwp_quiet; [done|apply quiet_unseen|]. intros _ g2 Hok2 _. apply ewp_check; [done|]. intros _ _.
  apply rwp_quiet; [done|apply quiet_unseen|]. intros _ g3 Hok3 _. apply ewp_check; [done|]. intros _ _.
  apply rwp_bind, (rwp_mono _ (kept (fun _ e' => transfers e' = transfers e))).
  - case_match; [|by apply kept_ret]. apply rwp_on_disk. eapply (rwp_twp (only (data_name id))).
    + apply (twp_write_all _ _ _ (fun _ _ => True)); [by apply bool_decide_eq_true|done].
    + intros [] g4 Hw _. split; [|done]. eapply engine_within; [apply only_data_safe|exact Hw|done].
    + intros er g4 Hw. apply ekept_err. eapply engine_within; [apply only_data_safe|exact Hw|done].
  - intros [[]|er] e4 Hk; [|destruct er; exact Hk]. destruct Hk as [Hok4 Ht].
    apply rwp_quiet; [done|apply quiet_unseen|]. intros _ g5 Hok5 _. by apply kept_ret.
Qed.

(** ** Aborting *)

(** The receipt of an upload that is over. *)
Definition over (id : OperationId) (r : Files.Receipt) (e : Engine) : Prop :=
  receipts (transfers e) !! id = Some r /\ f_state r <> Files.Staging /\ failed (transfers e) = false.

Lemma spec_abort id e : ok e -> rwp (abort id) (kept (over id)) e.
Proof.
  intros Hok. apply rwp_healthy; [done|]. intros Hf. apply rwp_self.
  apply ewp_check; [done|]. intros r Hr%ok_or_ok. case_bool_decide as Hs; [|by apply kept_ret].
  assert (Hid : u_operation_id (f_upload r) = id) by by eapply mo_id, Hok.
  apply rwp_bind. eapply rwp_mono; [apply (spec_save_state r Files.Aborted e); [done|done|by rewrite Hid|]|].
  { split; [|done]. rewrite Hid. intros path c Hin. exfalso. eapply not_published; [done..| |exact Hin]. by rewrite Hs. }
  intros [x|x] e1 Hk; [|destruct x; exact Hk]. destruct Hk as (Hok1 & -> & Ht & _). rewrite Hid in Ht.
  apply (ewp_call (only (data_name id)) _ (fun _ _ => True)); [done|apply only_data_safe| |].
  { apply twp_remove; [by apply bool_decide_eq_true|done]. }
  intros _ g2 Hok2 _ _. apply kept_ret; [done|]. unfold over. cbn. rewrite Ht. cbn. by rewrite lookup_insert_eq.
Qed.

(** ** Committing *)

Lemma within_data id id' g g' :
  within (at_receipt id) g g' -> files g' !! data_name id' = files g !! data_name id'.
Proof.
  intros [_ Hf]. apply Hf. unfold at_receipt, either, only, temporary. rewrite data_name_ext.
  rewrite !bool_decide_eq_false_2; [done|done|]. intros Heq%(f_equal extension). unfold receipt_name in Heq.
  by rewrite data_name_ext, (name_extension id "json") in Heq.
Qed.

(** Publishing a verified upload whose intent is on disk. *)
Lemma engine_moved t g g' id r path o :
  engine_ok t g -> failed t = false -> receipts t !! id = Some r -> f_state r = Files.CommitIntent ->
  (forall path c, (id, path, c) ∉ published (trace g)) ->
  (forall c, files g !! data_name id = Some (File c) -> describes r id path c) ->
  moved id path g o g' -> engine_ok t g'.
Proof.
  intros Hok Hf Hr Hs Hno Hd [(Hp & Hfs & _)|(c & Hc & Hfs & Hp)].
  { eapply (engine_within nowhere); [apply nowhere_safe| |done]. by apply within_files. }
  destruct (eo_filed _ _ Hok Hf _ _ Hr) as [Hrd Hn]. pose proof (fm_canonical _ _ _ (eo_receipts _ _ Hok _ _ Hr)) as Hcan.
  assert (Hfile : forall n, metadata n = true -> files g' !! n = files g !! n).
  { intros n Hm. rewrite Hfs, lookup_delete_ne; [done|]. intros <-. by rewrite data_harmless in Hm. }
  assert (Hfl : floor g' = floor g) by (by apply floor_same, Hfile).
  assert (Hfd : forall i, filed g' i = filed g i) by (intros i; unfold filed; by rewrite Hfile by apply receipt_name_json).
  destruct Hok as [[Ho Hrec Htr] Hflo Hre Hfi Hkn Hsz Hrs Hcx]. split; rewrite ?Hfl; try done.
  - split; rewrite ?Hp, ?Hfl.
    + cbn. apply NoDup_cons. split; [|done]. rewrite list_elem_of_fmap. intros ([i p'] & Hi & Hin).
      apply list_elem_of_fmap in Hin as ([[i' p''] c'] & Heq & Hin). cbn in *. simplify_eq. by eapply Hno.
    + intros i p' c' [Heq|Hin]%elem_of_cons; [|rewrite Hfd; by apply Hrec]. simplify_eq. split; [done|]. intros _.
      exists r. rewrite Hfd, Hs. split_and!; [done..|by apply Hd].
    + intros i r' Hci Hni. rewrite Hfd. intros Hri Hsi. destruct (Htr i r' Hci Hni Hri Hsi) as (p' & c' & Hin).
      exists p', c'. by apply elem_of_cons; right.
  - intros _ i x Hx. rewrite Hfd. by apply Hfi.
  - intros _ i Hi. rewrite Hfd. by apply Hkn.
Qed.

Definition publish_then (id : OperationId) (r : Files.Receipt) : T Files.Receipt :=
  _ ← save (set_state r Files.CommitIntent);
  o ← attempt (on_disk (publish id (u_path (f_upload r))));
  match o with
  | Ok _ => save (set_state r Files.Committed)
  | Err e => _ ← save (set_state r Files.Unknown); checked (Err e)
  end.

(** The second receipt of a commit. *)
Lemma spec_conclude id r s e :
  ok e -> failed (transfers e) = false -> receipts (transfers e) !! id = Some (set_state r Files.CommitIntent) ->
  s = Files.Unknown \/ s = Files.Committed /\ (exists path c, (id, path, c) ∈ published (trace (disk e))) ->
  rwp (save (set_state r s)) (kept (over id)) e.
Proof.
  intros Hok Hf Hr Hs. set (r1 := set_state r Files.CommitIntent) in *.
  assert (Hid : u_operation_id (f_upload r1) = id) by by eapply mo_id, Hok.
  destruct (eo_filed _ _ Hok Hf _ _ Hr) as [Hd Hn].
  eapply rwp_mono; [apply (spec_save_state r1 s e); [done|done|by rewrite Hid|]|].
  - rewrite Hid. split; [|by destruct Hs as [->|[-> Hin]]; [|intros _]]. intros path c Hin. split; [by destruct Hs as [->|[-> _]]|].
    destruct (wo_record _ (eo_world _ _ Hok) _ _ _ Hin) as [_ Hrec]. destruct (Hrec Hn) as (r' & Hr' & _ & Hdesc).
    rewrite Hd in Hr'. injection Hr' as <-. exact Hdesc.
  - intros o e' Hk. eapply ekept_mono; [exact Hk|]. intros x _ _ (-> & Ht & _). rewrite Hid in Ht. unfold over. rewrite Ht. cbn.
    rewrite lookup_insert_eq. split_and!; [done| |done]. by destruct Hs as [->|[-> _]].
Qed.

Lemma spec_publish_then id r c e :
  ok e -> failed (transfers e) = false -> receipts (transfers e) !! id = Some r -> f_state r = Files.Staging ->
  files (disk e) !! data_name id = Some (File c) -> describes r id (u_path (f_upload r)) c ->
  rwp (publish_then id r) (kept (over id)) e.
Proof.
  intros Hok Hf Hr Hs Hc Hd. assert (Hid : u_operation_id (f_upload r) = id) by by eapply mo_id, Hok.
  assert (Hno : forall path c, (id, path, c) ∉ published (trace (disk e))) by (eapply not_published; [done..|by rewrite Hs]).
  apply rwp_bind. eapply rwp_mono; [apply (spec_save_state r Files.CommitIntent e); [done|done|by rewrite Hid|]|].
  { rewrite Hid. split; [|done]. intros path x Hin. by apply Hno in Hin. }
  intros [x|x] e1 Hk; [|destruct x; exact Hk]. destruct Hk as (Hok1 & -> & Ht & Hw). rewrite Hid in Ht, Hw.
  set (r1 := set_state r Files.CommitIntent) in *.
  assert (Hf1 : failed (transfers e1) = false) by (by rewrite Ht).
  assert (Hr1 : receipts (transfers e1) !! id = Some r1) by (rewrite Ht; cbn; by rewrite lookup_insert_eq).
  assert (Hno1 : forall path c, (id, path, c) ∉ published (trace (disk e1))) by (destruct Hw as [-> _]; exact Hno).
  assert (Hd1 : forall x, files (disk e1) !! data_name id = Some (File x) -> describes r1 id (u_path (f_upload r)) x).
  { intros x. rewrite (within_data id id _ _ Hw), Hc. by intros [= <-]. }
  apply rwp_bind, rwp_attempt, rwp_on_disk. eapply rwp_mono; [apply rwp_publish|]. intros o g2 Hm.
  assert (Hok2 : ok (with_disk e1 g2)) by (by eapply (engine_moved (transfers e1))).
  destruct o as [[]|[|er]]; [|apply Hok2|].
  - apply spec_conclude; [done..|right]. split; [done|]. destruct Hm as [(_ & _ & ?)|(x & _ & _ & Hp)]; [done|].
    exists (u_path (f_upload r)), x. cbn [disk with_disk]. rewrite Hp. by apply elem_of_cons; left.
  - apply rwp_bind. eapply rwp_mono; [apply spec_conclude; [done..|by left]|].
    intros [x|x] e3 Hk; [|destruct x; exact Hk]. apply rwp_checked; [done|]. intros z. apply ekept_err, Hk.
Qed.

Lemma prefix_all n (c : bytes) : (String.length c <= n)%nat -> prefix n c = c.
Proof.
  revert n. induction c as [|a c IH]; intros [|n]; cbn; [done..| |]; intros Hl; [lia|]. f_equal. apply IH. lia.
Qed.

Lemma spec_commit id e : ok e -> rwp (commit id) (kept (over id)) e.
Proof.
  intros Hok. apply rwp_healthy; [done|]. intros Hf. apply rwp_self.
  apply ewp_check; [done|]. intros r Hr%ok_or_ok. case_bool_decide as Hs; cbn [negb]; [|by apply kept_ret].
  pose proof (eo_receipts _ _ Hok _ _ Hr) as Hm. pose proof (mo_id _ _ _ Hm) as Hid.
  eapply (ewp_call nowhere); [done|apply nowhere_safe|apply (twp_stage _ id (fun c _ => files (disk e) !! data_name id = Some (File c)))|].
  { by intros c Hc. }
  intros c g1 Hok1 [_ Hw1] Hc. rewrite <- (Hw1 _ eq_refl) in Hc.
  keep_file Hc quiet_unseen.
  apply ewp_check; [done|]. intros [] Hsz%ensure_ok.
  keep_file Hc quiet_version.
  keep_file Hc quiet_unseen.
  keep_file Hc quiet_version.
  apply ewp_check; [done|]. intros [] Hsha%ensure_ok. bools.
  keep_file Hc quiet_parent.
  keep_file Hc quiet_unseen.
  keep_file Hc quiet_unseen.
  apply (spec_publish_then id r c); [done..|].
  assert (Hp : prefix (Z.to_nat (MAX_FILE_BYTES + 1)) c = c).
  { apply prefix_all. pose proof (mo_valid _ _ _ Hm) as Hv. unfold Files.receipt_validate, Files.upload_digest, Files.upload_validate in Hv.
    inv_ok. bools. unfold strlen in *. lia. }
  by rewrite Hp in *.
Qed.

(** ** Retiring *)

(** Removing what the new barrier covers. *)
Definition covered (b : History.Barrier) : string -> bool := fun n => bool_decide (retired_name n b = Ok true).

Lemma covered_receipt b id : canonical id = true -> covered b (receipt_name id) = History.covers b id.
Proof.
  intros Hc. unfold covered, retired_name, receipt_name. rewrite (bool_decide_eq_false_2 (_ = LOCK)), (bool_decide_eq_false_2 (_ = CONTEXT_JSON)) by done. cbn [orb].
  unfold RETIRED_SUFFIXES. cbn [Runner.find_stem]. rewrite RunnerLaws.strip_suffix_app by done. cbn.
  rewrite parse_to_string by done. cbn. destruct (History.covers b id); [by apply bool_decide_eq_true|by apply bool_decide_eq_false].
Qed.
Lemma covered_context b : covered b CONTEXT_JSON = false.
Proof. done. Qed.

Lemma twp_remove_retired l b (Q : unit -> Guest -> Prop) g :
  (forall g', (forall n, n ∈ l -> covered b n = true -> files g' !! n = None) ->
     (forall n, files g !! n = None -> files g' !! n = None) -> Q tt g') ->
  twp (covered b) (remove_retired l b) Q g.
Proof.
  revert g. induction l as [|n l IH]; intros g HQ; cbn [remove_retired].
  { apply twp_ret, HQ; [by intros n ?%not_elem_of_nil|done]. }
  apply twp_bind, twp_checked. intros c Hc. apply twp_bind. destruct c.
  - apply twp_remove; [by apply bool_decide_eq_true|]. intros g1 Hg1. apply IH. intros g2 Hl Hk.
    apply HQ.
    + intros m [->|Hm]%elem_of_cons Hcm; [|by apply Hl]. apply Hk. rewrite Hg1. apply lookup_delete_eq.
    + intros m Hm. apply Hk. rewrite Hg1. by apply lookup_delete_None; right.
  - apply twp_ret, IH. intros g2 Hl Hk. apply HQ; [|done].
    intros m [->|Hm]%elem_of_cons Hcm; [|by apply Hl]. unfold covered in Hcm. rewrite Hc in Hcm. by bools.
Qed.
Lemma twp_prune l b (Q : unit -> Guest -> Prop) g :
  (forall g', (forall n, n ∈ l -> covered b n = true -> files g' !! n = None) ->
     (forall n, files g !! n = None -> files g' !! n = None) -> Q tt g') ->
  twp (covered b) (prune l b) Q g.
Proof.
  intros HQ. apply twp_bind, twp_checked. intros _ _. apply twp_bind, twp_remove_retired.
  intros g1 Hl Hk. by apply twp_unseen, HQ.
Qed.
Lemma covered_safe b g : (forall id, floor g id = false -> History.covers b id = false) -> safe (covered b) g.
Proof.
  intros Hf. split; [apply covered_context|]. intros id Hc Hn. rewrite covered_receipt by done. by apply Hf.
Qed.

(** A new context file, which retires at least as much. *)
Definition at_context : string -> bool := either (only CONTEXT_JSON) temporary.
Lemma context_filed g g' id : within at_context g g' -> filed g' id = filed g id.
Proof.
  intros [_ Hf]. unfold filed. rewrite Hf; [done|]. unfold at_context, either, only.
  by rewrite receipt_name_temporary, bool_decide_eq_false_2.
Qed.
Lemma world_context g g' :
  world_ok g -> within at_context g g' -> (forall id, floor g id = true -> floor g' id = true) -> world_ok g'.
Proof.
  intros [Ho Hr Ht] Hw Hf. pose proof Hw as [Hp _].
  assert (Hn : forall id, floor g' id = false -> floor g id = false).
  { intros id Hid. destruct (floor g id) eqn:Hg; [|done]. apply Hf in Hg. congruence. }
  split; rewrite ?Hp; [done|..].
  - intros id path c Hin. destruct (Hr _ _ _ Hin) as [Hc Hrec]. split; [done|]. intros Hid.
    rewrite (context_filed g) by done. by apply Hrec, Hn.
  - intros id r Hc Hid. rewrite (context_filed g) by done. by apply Ht; [|apply Hn].
Qed.

(** A barrier above the one in force. *)
Lemma raises t b id :
  (forall c, barrier t = Some c -> id_leb (History.through b) (History.through c) = false) ->
  floor_of (barrier t) id = true -> History.covers b id = true.
Proof.
  unfold floor_of, History.covers. destruct (barrier t) as [c|]; cbn; [|done]. intros Hb Hc. specialize (Hb c eq_refl).
  unfold id_leb in *. apply N.leb_le in Hc. apply N.leb_gt in Hb. apply N.leb_le. lia.
Qed.

Definition retired (b x : History.Barrier) (e : Engine) : Prop :=
  barrier (transfers e) = Some x /\ forall id, History.covers b id = true -> History.covers x id = true.

(** Forgetting what the barrier on disk covers. *)
Lemma engine_forget t b g :
  world_ok g -> (forall id, floor g id = History.covers b id) ->
  (forall id r, receipts t !! id = Some r -> mem_ok (context t) id r) ->
  (forall id r, receipts t !! id = Some r -> floor g id = false -> filed g id = Some r) ->
  (forall id, canonical id = true -> floor g id = false -> is_Some (filed g id) -> is_Some (receipts t !! id)) ->
  Z.of_nat (size (receipts t)) <= MAX_TRANSFERS -> reserved (receipts t) <= MAX_RESERVED_BYTES ->
  context_ok (context t) = true ->
  engine_ok (set_receipts (set_barrier t (Some b))
    (base.filter (fun x : OperationId * Files.Receipt => History.covers b x.1 = false) (receipts t))) g.
Proof.
  intros Hw Hf Hm Hd Hk Hs Hr Hc. split; cbn; try done.
  - intros id r [Hx _]%map_lookup_filter_Some. by apply Hm.
  - intros _ id r [Hx Hn]%map_lookup_filter_Some. cbn in Hn. rewrite <- Hf in Hn. split; [by apply Hd|done].
  - intros _ id Hci Hn Hfi. destruct (Hk id Hci Hn Hfi) as [r Hx]. exists r. apply map_lookup_filter_Some.
    split; [done|]. cbn. by rewrite <- Hf.
  - etrans; [|exact Hs]. apply Nat2Z.inj_le, map_size_filter.
  - etrans; [by eapply declared_filter|done].
Qed.

(** After the new barrier was written: whatever fails, the engine needs another opening. *)
Lemma spec_forget b t g :
  engine_ok (set_failed t true) g -> (forall id, floor g id = History.covers b id) ->
  (forall id r, receipts t !! id = Some r -> floor g id = false -> filed g id = Some r) ->
  (forall id, canonical id = true -> floor g id = false -> is_Some (filed g id) -> is_Some (receipts t !! id)) ->
  forall l, rwp (_ ← fencing (on_disk (prune l b));
    _ ← update (fun t => set_receipts t (base.filter (fun x : OperationId * Files.Receipt => History.covers b x.1 = false) (receipts t)));
    mret b) (kept (fun x e => x = b /\ barrier (transfers e) = Some b))
    {| transfers := set_barrier t (Some b); disk := g |}.
Proof.
  intros Hok Hf Hd Hk l. assert (Hs : safe (covered b) g) by (apply covered_safe; intros id; by rewrite Hf).
  apply rwp_bind, rwp_fencing, rwp_on_disk. cbn [disk].
  eapply rwp_twp; [apply (twp_prune _ _ (fun _ _ => True)); done|..].
  - intros [] g' Hw _. apply rwp_bind, ewp_update, kept_ret; [|done]. pose proof (within_floor _ _ _ Hs Hw) as Hfl.
    apply (engine_forget t b g'); rewrite ?Hfl; [eapply world_within; [exact Hs|exact Hw|]; apply Hok|done|apply Hok|..|apply Hok|apply Hok|apply Hok].
    + intros id r Hr Hn. rewrite (within_filed (covered b) g); [by apply Hd|done..|by eapply fm_canonical, Hok|done].
    + intros id Hc Hn. rewrite (within_filed (covered b) g) by done. by apply Hk.
  - intros x g' Hw. assert (world_ok g') by (eapply world_within; [exact Hs|exact Hw|apply Hok]). destruct x; [done|].
    destruct Hok. by split.
Qed.

Lemma spec_retire_files_above b e :
  ok e -> failed (transfers e) = false ->
  (forall c, barrier (transfers e) = Some c -> id_leb (History.through b) (History.through c) = false) ->
  rwp (retire_above b (transfers e)) (kept (fun x e => x = b /\ barrier (transfers e) = Some b)) e.
Proof.
  intros Hok Hf Hup. apply ewp_check; [done|]. intros _ _.
  apply (ewp_call nowhere _ (fun _ _ => True)); [done|apply nowhere_safe|by apply twp_names|].
  intros l g1 Hok1 _ _. apply ewp_check; [done|]. intros _ _.
  assert (Hgrow : forall id, floor g1 id = true -> History.covers b id = true).
  { intros id. rewrite (eo_floor _ _ Hok1 Hf). by apply raises. }
  apply rwp_bind, rwp_fencing, rwp_on_disk. eapply rwp_mono; [by apply rwp_write_metadata|].
  cbn [disk with_disk]. intros o g2 [Hw Ho]. fold at_context in Hw.
  assert (Hnew : (forall id, floor g2 id = floor g1 id) /\ o <> Ok tt \/ forall id, floor g2 id = History.covers b id).
  { destruct Ho as [[Hs Hr]|(x & Hx & Hs)]; [left|right; intros id].
    - split; [|done]. intros id. by rewrite (floor_same g1 g2).
    - unfold floor. by rewrite Hs, (file_binding_back _ _ Hx). }
  assert (Hwo : world_ok g2).
  { apply (world_context g1); [apply Hok1|done|]. intros id Hid. destruct Hnew as [[Hn _]|Hn]; rewrite Hn; auto. }
  assert (Hfail : engine_ok (set_failed (transfers e) true) g2) by (by eapply engine_fail; [exact Hok1|]).
  destruct o as [[]|[|x]]; [|done|exact Hfail]. destruct Hnew as [[_ ?]|Hnew]; [done|].
  assert (Hlow : forall id, floor g2 id = false -> floor g1 id = false).
  { intros id. rewrite Hnew. intros Hid. destruct (floor g1 id) eqn:Hg; [|done]. apply Hgrow in Hg. congruence. }
  apply rwp_bind, ewp_update. apply (spec_forget b (transfers e) g2); [done..| |].
  - intros id r Hr _. rewrite (context_filed g1) by done. by apply (eo_filed _ _ Hok1 Hf).
  - intros id Hc Hn. rewrite (context_filed g1) by done. apply (eo_known _ _ Hok1 Hf); [done|by apply Hlow].
Qed.

Lemma spec_retire_files b e : ok e -> rwp (retire_history b) (kept (retired b)) e.
Proof.
  intros Hok. apply rwp_healthy; [done|]. intros Hf. apply rwp_self. apply ewp_check; [done|]. intros [] _.
  assert (Habove : (forall c, barrier (transfers e) = Some c -> id_leb (History.through b) (History.through c) = false) ->
    rwp (retire_above b (transfers e)) (kept (retired b)) e).
  { intros Hup. eapply rwp_mono; [by apply spec_retire_files_above|]. intros o e' Hk.
    eapply ekept_mono; [exact Hk|]. by intros x _ _ [-> Hb]. }
  destruct (barrier (transfers e)) as [c|] eqn:Hb; [|by apply Habove].
  destruct (id_leb _ _) eqn:Hc; [|apply Habove; by intros ? [= <-]].
  apply kept_ret; [done|]. split; [done|]. intros id. unfold History.covers, id_leb in *. rewrite !N.leb_le in *. lia.
Qed.

(** ** Capturing *)

Lemma engine_downloads t g n : engine_ok t g -> engine_ok (set_downloads t n) g.
Proof. by intros []. Qed.

(** Operations that leave the count of downloads alone, and succeed only if nothing failed. *)
Definition steady {A} (m : ST Engine failure A) : Prop := forall e,
  downloads (transfers (m e).1) = downloads (transfers e) /\
  forall a, (m e).2 = Ok a -> failed (transfers (m e).1) = failed (transfers e).
Lemma steady_bind {A B} (m : ST Engine failure A) (k : A -> ST Engine failure B) :
  steady m -> (forall a, steady (k a)) -> steady (m ≫= k).
Proof.
  intros Hm Hk e. unfold mbind, ST_bind. destruct (Hm e) as [Hd Hf]. destruct (m e) as [e' [a|x]]; cbn in *; [|done].
  destruct (Hk a e') as [Hd' Hf']. split; [congruence|]. intros b Hb. rewrite (Hf' b Hb). by apply (Hf a).
Qed.
Lemma steady_checked {A} (r : result anyhow A) : steady (checked r).
Proof. done. Qed.
Lemma steady_ret {A} (a : A) : steady (mret a : ST Engine failure A).
Proof. done. Qed.
Lemma steady_self : steady self_.
Proof. done. Qed.
Lemma steady_healthy : steady healthy.
Proof. done. Qed.
Lemma steady_on_disk {A} (m : ST Guest failure A) : steady (on_disk m).
Proof. intros e. unfold on_disk. by destruct (m (disk e)). Qed.
Lemma steady_update f :
  (forall t, downloads (f t) = downloads t /\ failed (f t) = failed t) -> steady (update f).
Proof. intros Hf e. split; [apply Hf|]. intros [] _. apply Hf. Qed.
Lemma steady_attempt {A} (m : ST Guest failure A) : steady (attempt (on_disk m)).
Proof. intros e. unfold attempt, on_disk. by destruct (m (disk e)) as [g [a|[|x]]]. Qed.
Lemma steady_fencing {A} (m : ST Engine failure A) : steady m -> steady (fencing m).
Proof.
  intros Hm e. destruct (Hm e) as [Hd Hf]. unfold fencing, attempt, mbind, ST_bind.
  destruct (m e) as [e' [a|[|x]]]; cbn in *; [|done..]. split; [done|]. intros b _. by apply (Hf a).
Qed.
Lemma steady_save r : steady (save r).
Proof.
  apply steady_bind; [apply steady_fencing, steady_on_disk|]. intros _.
  apply steady_bind; [by apply steady_update|]. intros _. apply steady_ret.
Qed.
Lemma rwp_steady {A} (m : ST Engine failure A) (Q : result failure A -> Engine -> Prop) e :
  steady m -> rwp m Q e -> rwp m (fun o e' => Q o e' /\ downloads (transfers e') = downloads (transfers e) /\
    forall a, o = Ok a -> failed (transfers e') = failed (transfers e)) e.
Proof. intros Hm HQ. split; [done|apply Hm]. Qed.
End keeps.

Create HintDb steady.
#[export] Hint Resolve steady_checked steady_ret steady_self steady_healthy steady_on_disk steady_save steady_attempt : steady.
Ltac steady := repeat first
  [ solve [auto with steady] | apply steady_fencing | apply steady_bind; [|intros ?]
  | by apply steady_update | progress cbv zeta | case_match ].

Section downloads.
Context `{GuestEnv, WorkspaceEnv, UuidLaws, Sha256, Sha256Laws0 : !Sha256Laws, Serde Upload, Serde Files.Receipt,
          Serde History.Binding, FileSerde0 : !FileSerde}.

Lemma steady_inspect id : steady (inspect id).
Proof. unfold inspect. steady. Qed.
Lemma steady_begin u : steady (begin u).
Proof. unfold begin. steady. Qed.
Lemma steady_write_chunk id offset data : steady (write_chunk id offset data).
Proof. unfold write_chunk. steady. Qed.
Lemma steady_commit id : steady (commit id).
Proof. unfold commit. steady. Qed.
Lemma steady_abort id : steady (abort id).
Proof. unfold abort. steady. Qed.
Lemma steady_retire_history b : steady (retire_history b).
Proof. unfold retire_history, retire_above. steady. Qed.

(** A capture takes one permit, unless it fails. *)
Definition captured (e : Engine) (d : Download) (e' : Engine) : Prop :=
  failed (transfers e') = failed (transfers e) /\
  downloads (transfers e') = downloads (transfers e) + 1 /\ downloads (transfers e) < 8 /\
  d_sha256 d = sha256 (d_bytes d) /\ strlen (d_bytes d) <= MAX_FILE_BYTES.

Definition read_workspace (path : string) (before : Z * Z) : T Download :=
  _ ← on_disk unseen;
  all ← on_disk (ask Query (fun t => read_answer t path));
  let bytes := prefix (Z.to_nat (before.1 + 1)) all in
  after ← on_disk (workspace_version path);
  _ ← checked (ensure ((strlen bytes =? before.1) && bool_decide (after = before)) "file changed during capture");
  mret {| d_bytes := bytes; d_sha256 := sha256 bytes |}.
Lemma spec_read_workspace path before e :
  ok e -> rwp (read_workspace path before)
    (kept (fun d _ => d_sha256 d = sha256 (d_bytes d) /\ strlen (d_bytes d) = before.1)) e.
Proof.
  intros Hok. apply rwp_quiet; [done|apply quiet_unseen|]. intros _ g1 Hok1 _.
  apply rwp_quiet; [done|by apply quiet_answer|]. intros all g2 Hok2 _. cbv zeta.
  apply rwp_quiet; [done|apply quiet_workspace_version|]. intros after g3 Hok3 _.
  apply ewp_check; [done|]. intros [] Hs%ensure_ok. bools. by apply kept_ret.
Qed.

Lemma spec_capture path e :
  ok e -> rwp (capture path) (fun o e' => kept (captured e) o e' /\
    (forall x, o = Err (Failed x) -> downloads (transfers e') = downloads (transfers e))) e.
Proof.
  intros Hok.
  assert (Hck : forall A (r : result anyhow A) (k : A -> T Download) e1, ok e1 -> downloads (transfers e1) = downloads (transfers e) ->
    (forall a, r = Ok a -> rwp (k a) (fun o e' => kept (captured e) o e' /\
      (forall x, o = Err (Failed x) -> downloads (transfers e') = downloads (transfers e))) e1) ->
    rwp (checked r ≫= k) (fun o e' => kept (captured e) o e' /\
      (forall x, o = Err (Failed x) -> downloads (transfers e') = downloads (transfers e))) e1).
  { intros A r k e1 Hok1 Hd Hk. apply rwp_bind, rwp_checked; [done|]. intros x. split; [by apply ekept_err|done]. }
  unfold capture, healthy. apply rwp_bind, rwp_self, rwp_checked; [|intros x; by split; [apply ekept_err|]].
  intros [] _. apply Hck; [done..|]. intros [] _.
  apply rwp_bind, rwp_on_disk. eapply (rwp_twp nowhere); [by apply twp_quiet with (Q := fun _ _ => True); [apply quiet_workspace_version|]|..].
  2: { intros x g Hw. split; [|done]. apply ekept_err. by eapply (engine_within nowhere _ _ _ (nowhere_safe _)). }
  intros before g1 Hw _. assert (Hok1 : ok (with_disk e g1)) by (by eapply (engine_within nowhere _ _ _ (nowhere_safe _))).
  apply Hck; [done..|]. intros [] Hlim%ensure_ok. bools.
  unfold acquire. apply rwp_bind, rwp_bind, rwp_self, rwp_bind, rwp_checked; [|intros x; by split; [apply ekept_err|]].
  intros [] Hcap%ensure_ok. bools. cbn in Hcap. apply ewp_update. cbn [transfers disk with_disk].
  set (e2 := {| transfers := set_downloads _ _ |}). assert (Hok2 : ok e2) by (by apply engine_downloads).
  fold (read_workspace path before).
  apply rwp_bind, rwp_attempt. eapply rwp_mono; [apply rwp_steady; [|apply (spec_read_workspace path before e2 Hok2)]|].
  { unfold read_workspace. steady. }
  intros [d|[|x]] e3 [Hk [Hd Hf]]; cbn in Hd.
  - apply rwp_ret. destruct Hk as [Hok3 [Hsha Hlen]]. split; [|done]. split; [done|]. split_and!; try done; [by apply (Hf d)|lia..].
  - split; [exact Hk|done].
  - unfold release. apply rwp_bind, ewp_update, rwp_checked; [done|]. intros y. split.
    + apply ekept_err. by apply engine_downloads.
    + intros _ _. cbn. lia.
Qed.
End downloads.
