(* ===== verification/FileOpen.v ===== *)
(** * Opening the file engine: what a restart finds

    [swp m Q g]: whatever fails, [m] run from [g] leaves a world that is [world_ok]; and when
    it succeeds, [Q] holds. *)

From S2P Require Import Prelude Ext Ids GuestModel GuestEnv Transfers FileLaws FileInv FileKeeps.
From S2P Require Files History Runner RunnerLaws.
Import Runner(LOCK, CONTEXT_JSON, extension).
Import RunnerLaws(floor, floor_of, floor_same, name_extension, rwp, rwp_mono, rwp_bind).
Import Files(MAX_FILE_BYTES, MAX_CHUNK_BYTES, MAX_TRANSFERS, MAX_RESERVED_BYTES, Upload, u_operation_id, u_path, u_size, u_sha256, u_mode, f_state, f_upload, f_context, f_digest).
#[local] Existing Instances Files.State_eq_dec Files.Upload_eq_dec.

Lemma strip_suffix_some s n a : Runner.strip_suffix s n = Some a -> n = a +:+ s.
Proof.
  revert a. induction n as [|c n IH]; intros a; cbn [Runner.strip_suffix]; (case_decide as Hd; [intros [= <-]; by rewrite <- Hd|]).
  - done.
  - destruct (Runner.strip_suffix s n) as [b|]; [|done]. cbn. intros [= <-]. cbn. f_equal. by apply IH.
Qed.

Section opening.
Context `{GuestEnv, WorkspaceEnv, UuidLaws, Sha256, Sha256Laws0 : !Sha256Laws, Serde Upload, Serde Files.Receipt,
          Serde History.Binding, FileSerde0 : !FileSerde}.

Definition swp {A} (m : ST Guest failure A) (Q : A -> Guest -> Prop) (g : Guest) : Prop :=
  world_ok g -> world_ok (m g).1 /\ forall a, (m g).2 = Ok a -> Q a (m g).1.

Lemma swp_bind {A B} (m : ST Guest failure A) (k : A -> ST Guest failure B) Q g :
  swp m (fun a g' => swp (k a) Q g') g -> swp (m ≫= k) Q g.
Proof.
  unfold swp, mbind, ST_bind. intros Hm Hw. destruct (Hm Hw) as [Hw' Hk].
  destruct (m g) as [g' [a|x]]; cbn in *; [by apply Hk|by split].
Qed.
Lemma swp_twp P {A} (m : ST Guest failure A) Q g :
  safe P g -> twp P m (fun a g' => within P g g' -> Q a g') g -> swp m Q g.
Proof. intros Hs [Hw HQ] Hok. split; [by eapply world_within|]. intros a Ha. by apply HQ. Qed.
Lemma swp_now {A} (m : ST Guest failure A) Q g : (world_ok g -> swp m Q g) -> swp m Q g.
Proof. intros Hm Hw. by apply Hm. Qed.
Lemma swp_ret {A} (a : A) (Q : A -> Guest -> Prop) g : Q a g -> swp (mret a) Q g.
Proof. intros HQ. eapply swp_twp; [apply nowhere_safe|]. by apply twp_ret. Qed.
Lemma swp_checked {A} (r : result anyhow A) (Q : A -> Guest -> Prop) g :
  (forall a, r = Ok a -> Q a g) -> swp (checked r) Q g.
Proof. intros HQ. eapply swp_twp; [apply nowhere_safe|]. apply twp_checked. intros a Ha _. by apply HQ. Qed.
Lemma swp_check {A B} (r : result anyhow A) (k : A -> ST Guest failure B) Q g :
  (forall a, r = Ok a -> swp (k a) Q g) -> swp (checked r ≫= k) Q g.
Proof. intros Hk. by apply swp_bind, swp_checked. Qed.
Lemma swp_rwp {A} (m : ST Guest failure A) (Q : A -> Guest -> Prop) g :
  rwp m (fun o g' => world_ok g -> world_ok g' /\ forall a, o = Ok a -> Q a g') g -> swp m Q g.
Proof. intros Hm Hw. by apply Hm. Qed.

(** ** Receipts *)

(** No receipt on disk is retired. *)
Definition uncovered (g : Guest) : Prop :=
  forall id, canonical id = true -> is_Some (files g !! receipt_name id) -> floor g id = false.

(** What was recovered so far is what the disk says. *)
Record recovered (c : Context) (k : Z * gmap OperationId Files.Receipt) (g : Guest) : Prop := {
  rc_sum : k.1 = reserved k.2;
  rc_reserved : k.1 <= MAX_RESERVED_BYTES;
  rc_size : Z.of_nat (size k.2) <= MAX_TRANSFERS;
  rc_receipts : forall id r, k.2 !! id = Some r ->
    mem_ok c id r /\ filed g id = Some r /\ floor g id = false /\ f_state r <> Files.CommitIntent;
  rc_uncovered : uncovered g;
}.
(** Nothing but receipts changed, and no new one appeared. *)
Definition settled (g g' : Guest) : Prop :=
  floor g' = floor g /\ forall id, canonical id = true -> is_Some (filed g' id) -> is_Some (filed g id).

Lemma settled_refl g : settled g g.
Proof. by split. Qed.
Lemma settled_trans g1 g2 g3 : settled g1 g2 -> settled g2 g3 -> settled g1 g3.
Proof. intros [Hf1 Hs1] [Hf2 Hs2]. split; [congruence|auto]. Qed.

Lemma recovered_within P c k g g' :
  safe P g -> within P g g' -> (forall n, P n = true -> metadata n = false) ->
  recovered c k g -> recovered c k g'.
Proof.
  intros Hs Hw Hm [Hsum Hr Hz Hk Hu]. pose proof (within_floor _ _ _ Hs Hw) as Hf. split; [done..| |].
  - intros id r Hx. destruct (Hk id r Hx) as (Ho & Hd & Hn & Hst). rewrite Hf. split_and!; [done| |done..].
    rewrite (within_filed P g); [done..|by eapply fm_canonical|done].
  - intros id Hc. rewrite Hf. destruct Hw as [_ Hw]. rewrite Hw; [by apply Hu|].
    destruct (P (receipt_name id)) eqn:Hp; [|done]. apply Hm in Hp. by rewrite receipt_name_json in Hp.
Qed.
Lemma recovered_put c k g g' id :
  within (at_receipt id) g g' -> canonical id = true -> k.2 !! id = None -> is_Some (files g !! receipt_name id) ->
  recovered c k g -> recovered c k g'.
Proof.
  intros Hw Hc Hn Hi [Hsum Hr Hz Hk Hu]. pose proof (receipt_floor _ _ _ Hw) as Hf. split; [done..| |].
  - intros i r Hx. destruct (Hk i r Hx) as (Ho & Hd & Hni & Hst). rewrite Hf. split_and!; [done| |done..].
    rewrite (receipt_within id i g); [done..|by eapply fm_canonical|congruence].
  - intros i Hci. rewrite Hf. destruct (decide (i = id)) as [->|Hne]; [intros _; by apply Hu|].
    destruct Hw as [_ Hw]. rewrite Hw; [by apply Hu|]. unfold at_receipt, either, only.
    rewrite receipt_name_temporary, bool_decide_eq_false_2; [done|]. intros Heq. by apply receipt_name_inj in Heq.
Qed.
Lemma recovered_insert c k g n id r :
  recovered c k g -> k.2 !! id = None -> mem_ok c id r -> filed g id = Some r -> f_state r <> Files.CommitIntent ->
  n = k.1 + u_size (f_upload r) -> n <= MAX_RESERVED_BYTES -> Z.of_nat (size k.2) < MAX_TRANSFERS ->
  recovered c (n, <[id := r]> k.2) g.
Proof.
  intros [Hsum Hr Hz Hk Hu] Hn Hm Hd Hs -> Hle Hlt. split; cbn; [|done|..|done].
  - rewrite declared_new by done. lia.
  - rewrite map_size_insert_None by done. lia.
  - intros i x [[<- <-]|[_ Hx]]%lookup_insert_Some; [|by apply Hk]. split_and!; [done..| |done].
    apply Hu; [by eapply fm_canonical|]. unfold filed in Hd. by destruct (files g !! receipt_name id) as [[]|].
Qed.

(** An interrupted commit becomes unknown. *)
Lemma swp_write_unknown c id r (Q : unit -> Guest -> Prop) g :
  mem_ok c id r -> filed g id = Some r -> floor g id = false -> f_state r = Files.CommitIntent ->
  (forall g', within (at_receipt id) g g' -> filed g' id = Some (set_state r Files.Unknown) -> Q tt g') ->
  swp (write_metadata (receipt_name id) (set_state r Files.Unknown)) Q g.
Proof.
  intros Hm Hd Hn Hs HQ. apply swp_rwp. eapply rwp_mono; [apply rwp_write_metadata, receipt_name_temporary|].
  intros o g' [Hw Ho] Hok. pose proof (fm_canonical _ _ _ Hm) as Hc.
  destruct Ho as [[He Hne]|(x & Hx & Hf)].
  - split; [|by intros [] ->]. eapply world_within; [apply temporary_safe|by eapply receipt_early|done].
  - assert (Hd' : filed g' id = Some (set_state r Files.Unknown)).
    { unfold filed. rewrite Hf. apply file_receipt_back; [apply (mo_typed _ _ _ Hm)|done]. }
    split; [|intros [] _; by apply HQ]. eapply world_put; [exact Hok|exact Hw|done..|]. split; [|done].
    intros path b Hin. split; [done|]. destruct (wo_record _ Hok _ _ _ Hin) as [_ Hrec].
    destruct (Hrec Hn) as (r' & Hr' & _ & Hdesc). rewrite Hd in Hr'. injection Hr' as <-. exact Hdesc.
Qed.

Lemma swp_recover_entry c n k (Q : Z * gmap OperationId Files.Receipt -> Guest -> Prop) g :
  recovered c k g ->
  (forall k' g', recovered c k' g' -> settled g g' -> k.2 ⊆ k'.2 ->
     (forall id, canonical id = true -> n = receipt_name id -> is_Some (k'.2 !! id)) -> Q k' g') ->
  swp (recover_entry c n k) Q g.
Proof.
  intros Hk HQ. unfold recover_entry.
  destruct (_ || _) eqn:Hl.
  { apply swp_ret, HQ; [done..|]. intros id _ ->. by rewrite !bool_decide_eq_false_2 in Hl by done. }
  destruct (Runner.strip_suffix ".json" n) as [stem|] eqn:Hstem.
  2: { apply swp_check. intros _ _. apply swp_ret, HQ; [done..|]. intros id _ ->. unfold receipt_name in Hstem.
       by rewrite RunnerLaws.strip_suffix_app in Hstem. }
  apply swp_check. intros id Hid. apply map_err_ok, parse_ok in Hid as [-> Hc].
  apply swp_bind. eapply (swp_twp nowhere); [apply nowhere_safe|]. apply twp_read_metadata. intros x r Hx Hr Hw0.
  set (g0 := record g Syscall) in *. apply strip_suffix_some in Hstem as ->. fold (receipt_name id) in *. assert (Hk0 : recovered c k g0) by (by eapply recovered_within; [apply nowhere_safe|exact Hw0|done|]).
  assert (Hd : filed g0 id = Some r) by (unfold filed; cbn; by rewrite Hx).
  apply swp_check. intros [] Hv. apply swp_check. intros [] Hi%ensure_ok. bools.
  assert (Hm : mem_ok c id r) by (split; [done|by eapply file_receipt_read|done..]).
  apply swp_check. intros m Hsum%ok_or_ok. apply u64_checked_add_some in Hsum as [-> _].
  apply swp_check. intros [] Hcap%ensure_ok. bools.
  assert (Hset0 : settled g g0) by done.
  assert (Hnext : forall r' g', mem_ok c id r' -> filed g' id = Some r' -> f_state r' <> Files.CommitIntent ->
      u_size (f_upload r') = u_size (f_upload r) -> settled g0 g' -> (k.2 !! id = None -> recovered c k g') ->
      swp (_ ← checked (ensure (negb (is_some (k.2 !! id))) "duplicate file receipt");
           mret (k.1 + u_size (f_upload r), <[id := r']> k.2)) Q g').
  { intros r' g' Hm' Hd' Hs' Hz' Hset' Hk'. apply swp_check. intros [] Hnew%ensure_ok.
    assert (k.2 !! id = None) as Hnone by (by destruct (k.2 !! id)). apply swp_ret, HQ; cbn.
    - apply recovered_insert; [by apply Hk'|done..|by rewrite Hz'|done|lia].
    - by eapply settled_trans.
    - by apply insert_subseteq.
    - intros i Hci Heq. apply receipt_name_inj in Heq as <-; [|done..]. rewrite lookup_insert_eq. by eexists. }
  apply swp_bind. case_bool_decide as Hs; [|by apply swp_ret, Hnext].
  assert (Hnone : k.2 !! id = None).
  { destruct (k.2 !! id) as [r0|] eqn:Hr0; [|done]. destruct (rc_receipts _ _ _ Hk0 _ _ Hr0) as (_ & Hd0 & _ & Hs0). congruence. }
  assert (Hfile : is_Some (files g0 !! receipt_name id)) by (exists (File x); exact Hx).
  apply swp_bind, (swp_write_unknown c id); [done..|by apply (rc_uncovered _ _ _ Hk0)|done|].
  intros g2 Hw2 Hd2. apply swp_ret, Hnext; [by apply mem_ok_state|done..| |].
  - split; [by eapply receipt_floor|]. intros i Hci. destruct (decide (i = id)) as [->|Hne]; [rewrite Hd; by eexists|].
    by rewrite (receipt_within id i g0).
  - intros _. by eapply recovered_put.
Qed.

Lemma swp_recover c l k (Q : Z * gmap OperationId Files.Receipt -> Guest -> Prop) g :
  recovered c k g ->
  (forall k' g', recovered c k' g' -> settled g g' -> k.2 ⊆ k'.2 ->
     (forall id, canonical id = true -> receipt_name id ∈ l -> is_Some (k'.2 !! id)) -> Q k' g') ->
  swp (recover c l k) Q g.
Proof.
  revert k g. induction l as [|n l IH]; intros k g Hk HQ; cbn [recover].
  { apply swp_ret, HQ; [done..|]. by intros id _ ?%not_elem_of_nil. }
  apply swp_bind, swp_recover_entry; [done|]. intros k1 g1 Hk1 Hs1 Hsub1 Hn1.
  apply IH; [done|]. intros k2 g2 Hk2 Hs2 Hsub2 Hn2. apply HQ; [done|by eapply settled_trans|by etrans|].
  intros id Hc [Heq|Hin]%elem_of_cons; [|by apply Hn2]. destruct (Hn1 id Hc (eq_sym Heq)) as [r Hr]. exists r. by eapply lookup_weaken.
Qed.

(** ** Staging files *)

Lemma suffix_harmless s n a :
  Runner.strip_suffix (String "." s) n = Some a -> Runner.rsplit_dot s = None -> s <> "json" -> metadata n = false.
Proof.
  intros Hn%strip_suffix_some Hs Hj. subst n. apply bool_decide_eq_false. unfold extension.
  rewrite RunnerLaws.rsplit_dot_app by done. destruct a; [done|]. congruence.
Qed.
Lemma twp_sweep_entry n m (Q : unit -> Guest -> Prop) g : (forall g', Q tt g') -> twp harmless (sweep_entry n m) Q g.
Proof.
  intros HQ. unfold sweep_entry. destruct (Runner.strip_suffix ".data" n) as [stem|] eqn:Hn.
  - apply suffix_harmless in Hn; [|done..]. assert (harmless n = true) by (unfold harmless; by rewrite Hn).
    apply twp_bind, twp_checked. intros id _. destruct (m !! id) as [r|]; [|by apply twp_remove].
    case_bool_decide; [|by apply twp_remove]. apply twp_bind, twp_stage. intros c _. by apply twp_checked; intros [] _.
  - destruct (is_some _) eqn:Ht; [|by apply twp_ret]. destruct (Runner.strip_suffix ".tmp" n) as [stem|] eqn:Hs; [|done].
    apply suffix_harmless in Hs; [|done..]. apply twp_remove; [unfold harmless; by rewrite Hs|done].
Qed.
Lemma twp_sweep l m (Q : unit -> Guest -> Prop) g : (forall g', Q tt g') -> twp harmless (sweep l m) Q g.
Proof.
  intros HQ. revert g. induction l as [|n l IH]; intros g; cbn [sweep]; [by apply twp_ret|].
  by apply twp_bind, twp_sweep_entry.
Qed.
Lemma twp_check_staging P l (Q : unit -> Guest -> Prop) g : (forall g', Q tt g') -> twp P (check_staging l) Q g.
Proof.
  intros HQ. revert g. induction l as [|r l IH]; intros g; cbn [check_staging]; [by apply twp_ret|].
  apply twp_bind. case_bool_decide; [|by apply twp_ret]. apply twp_bind, twp_stage. intros c _. by apply twp_ret.
Qed.

(** ** The context *)

Lemma lists_none (l : list string) g :
  (forall n, is_Some (files g !! n) <-> n ∈ l) -> forallb (fun n => bool_decide (n = LOCK)) l = true ->
  forall n, n <> LOCK -> files g !! n = None.
Proof.
  intros Hl Hf n Hn. destruct (files g !! n) eqn:Hg; [|done]. exfalso. apply mk_is_Some, Hl in Hg.
  rewrite forallb_forall in Hf. apply list_elem_of_In, Hf in Hg. by bools.
Qed.
Lemma swp_open_context c l (Q : option History.Barrier -> Guest -> Prop) g :
  (forall n, is_Some (files g !! n) <-> n ∈ l) ->
  (forall b g', floor g' = floor_of b -> (forall n, temporary n = false -> n <> CONTEXT_JSON -> files g' !! n = files g !! n) -> Q b g') ->
  swp (open_context c l) Q g.
Proof.
  intros Hl HQ. unfold open_context. destruct (existsb _ l).
  - apply swp_bind. eapply (swp_twp nowhere); [apply nowhere_safe|]. apply twp_read_metadata. intros x b Hx Hb _.
    apply swp_checked. intros f Hv. apply HQ; [|done]. unfold floor. cbn. rewrite Hx, Hb. destruct b as [c'|r]; cbn in Hv; inv_ok; done.
  - apply swp_check. intros [] Hf%ensure_ok. pose proof (lists_none _ _ Hl Hf) as Hnone.
    apply swp_bind, swp_rwp. eapply rwp_mono; [by apply rwp_write_metadata|]. intros o g' [Hw Ho] Hok. fold at_context in Hw.
    assert (Hno : forall id, floor g id = false) by (intros id; unfold floor; by rewrite Hnone).
    split; [eapply world_context; [done..|]; intros id; by rewrite Hno|]. intros [] ->. apply swp_ret, HQ.
    + destruct Ho as [[_ ?]|(x & Hx & Hs)]; [done|]. unfold floor. by rewrite Hs, (file_binding_back _ _ Hx).
    + intros n Ht Hn. destruct Hw as [_ Hw]. apply Hw. unfold at_context, either, only. by rewrite Ht, bool_decide_eq_false_2.
Qed.

(** ** Opening *)

Lemma twp_open_root path (Q : unit -> Guest -> Prop) g : (forall g', Q tt g') -> twp harmless (open_root path) Q g.
Proof.
  intros HQ. unfold open_root.
  assert (Hquiet : forall A B (m : ST Guest failure A) (k : A -> ST Guest failure B) Q' g1, quiet m ->
    (forall a g2, twp harmless (k a) Q' g2) -> twp harmless (m ≫= k) Q' g1).
  { intros A B m k Q' g1 Hm Hk. by apply twp_bind, twp_quiet. }
  assert (Hdir : forall p m, quiet (open_directory p m)).
  { intros p m. apply quiet_then; [apply quiet_unseen|]. intros _. apply quiet_then; [by apply quiet_answer|]. intros b. apply quiet_checked. }
  apply Hquiet; [apply quiet_checked|]. intros _ g1. apply Hquiet; [apply Hdir|]. intros _ g2.
  apply Hquiet; [apply quiet_unseen|]. intros _ g3. apply Hquiet; [apply Hdir|]. intros _ g4.
  apply twp_bind. unfold open_lock. apply twp_bind, twp_syscall. intros g5 r Hr.
  assert (within harmless (record g4 Syscall) g5) as Hw.
  { cbn in Hr. destruct (files g4 !! LOCK); simplify_eq; [done|]. by apply (within_insert _ (record g4 Syscall)). }
  split; [done|]. clear Hr Hw. assert (Hend : forall g6, twp harmless
    (free ← ask Query lock_free; checked (ensure free "file workspace already owned")) Q g6).
  { intros g6. apply Hquiet; [by apply quiet_answer|]. intros free g7. by apply twp_checked; intros [] _. }
  destruct r; [by apply twp_bind, twp_unseen, twp_unseen, Hend|].
  by apply twp_bind, twp_regular; intros c _; apply twp_ret, Hend.
Qed.

(** What the directory holds once the barrier is enforced. *)
Lemma swp_enforce b l (Q : unit -> Guest -> Prop) g :
  floor g = floor_of b -> (forall n, is_Some (files g !! n) -> metadata n = true -> n <> CONTEXT_JSON -> n ∈ l) ->
  (forall g', floor g' = floor_of b -> uncovered g' -> Q tt g') ->
  swp (match b with Some b => prune l b | None => mret tt end) Q g.
Proof.
  intros Hf Hl HQ. destruct b as [b|].
  - assert (Hs : safe (covered b) g) by (apply covered_safe; intros id; by rewrite Hf).
    apply (swp_twp (covered b)); [done|]. apply twp_prune. intros g' Hgone Hkeep Hw.
    pose proof (within_floor _ _ _ Hs Hw) as Hf'. apply HQ; [congruence|]. intros id Hc Hi. rewrite Hf', Hf. cbn.
    destruct (History.covers b id) eqn:Hcov; [|done]. exfalso.
    destruct (files g !! receipt_name id) eqn:Hg.
    + rewrite Hgone in Hi; [by destruct Hi| |by rewrite covered_receipt].
      apply Hl; [by eexists|apply receipt_name_json|apply receipt_not_context].
    + rewrite Hkeep in Hi by done. by destruct Hi.
  - apply swp_ret, HQ; [done|]. intros id _ _. by rewrite Hf.
Qed.

(** What an engine that has just opened knows. *)
Record opened (c : Context) (t : Transfers) (g : Guest) : Prop := {
  od_ok : engine_ok t g;
  od_context : context t = c;
  od_idle : downloads t = 0 /\ failed t = false;
  od_settled : forall id r, receipts t !! id = Some r -> f_state r <> Files.CommitIntent;
}.

Lemma recovered_engine c b k g :
  recovered c k g -> floor g = floor_of b -> context_ok c = true ->
  (forall id, canonical id = true -> is_Some (filed g id) -> is_Some (k.2 !! id)) -> world_ok g ->
  opened c {| context := c; barrier := b; receipts := k.2; failed := false; downloads := 0 |} g.
Proof.
  intros [Hsum Hr Hz Hk Hu] Hf Hc Hall Hw. split; [split; cbn|done|done|cbn]; try done.
  - intros _ id. by rewrite Hf.
  - intros id r Hx. by apply Hk.
  - intros _ id r Hx. destruct (Hk id r Hx) as (_ & Hd & Hn & _). by split.
  - intros _ id Hci _. by apply Hall.
  - by rewrite <- Hsum.
  - intros id r Hx. by destruct (Hk id r Hx) as (_ & _ & _ & Hs).
Qed.

Lemma nothing_recovered c g : uncovered g -> recovered c (0, ∅) g.
Proof. intros Hu. by split. Qed.

Lemma swp_open path c g :
  canonical (allocation_id c) = true -> swp (open path c) (opened c) g.
Proof.
  intros Hal. unfold open. apply swp_check. intros [] Hc%ensure_ok.
  assert (Hcx : context_ok c = true) by (unfold context_ok; by rewrite Hc, Hal).
  apply swp_bind. eapply (swp_twp harmless); [apply safe_harmless|]. apply twp_open_root. intros g1 _.
  apply swp_bind. eapply (swp_twp nowhere); [apply nowhere_safe|]. apply twp_names. intros l Hl _ _.
  set (g2 := record g1 Syscall) in *. apply swp_bind, swp_open_context; [exact Hl|]. intros b g3 Hb Hsame.
  apply swp_bind, swp_enforce; [done| |].
  { intros n Hi Hm Hn. apply Hl. change (is_Some (files g2 !! n)). rewrite <- Hsame; [done| |done].
    destruct (temporary n) eqn:Ht; [|done]. apply temporary_harmless in Ht. congruence. }
  intros g4 Hf4 Hu4. apply swp_bind. eapply (swp_twp nowhere); [apply nowhere_safe|]. apply twp_names. intros l' Hl' _ Hw5.
  set (g5 := record g4 Syscall) in *. assert (Hu5 : uncovered g5) by exact Hu4.
  apply swp_bind, swp_recover; [by apply nothing_recovered|]. intros k g6 Hk Hset _ Hall.
  apply swp_bind. eapply (swp_twp harmless); [apply safe_harmless|]. apply twp_sweep. intros g7 Hw7.
  apply swp_bind. eapply (swp_twp nowhere); [apply nowhere_safe|]. apply twp_check_staging. intros g8 Hw8.
  apply swp_now. intros Hok8. apply swp_ret.
  assert (Hw : within harmless g6 g8) by (eapply within_trans; [exact Hw7|]; by eapply within_weaken, Hw8).
  assert (Hm : forall n, harmless n = true -> metadata n = false) by (intros n; unfold harmless; by destruct (metadata n)).
  pose proof (within_floor _ _ _ (safe_harmless g6) Hw) as Hf8. destruct Hset as [Hf6 Hset].
  apply recovered_engine; [|by rewrite Hf8, Hf6|done| |done].
  - eapply recovered_within; [apply safe_harmless|exact Hw|done..].
  - intros id Hci Hi. apply Hall; [done|]. apply Hl'. change (is_Some (files g5 !! receipt_name id)).
    assert (is_Some (filed g5 id)) as Hi5.
    { apply Hset; [done|]. unfold filed in *. destruct Hw as [_ Hw]. rewrite Hw in Hi; [done|]. unfold harmless. by rewrite receipt_name_json. }
    unfold filed in Hi5. destruct (files g5 !! receipt_name id) as [x|]; [by exists x|by destruct Hi5].
Qed.
End opening.
