(* ===== verification/FileService.v ===== *)
(** * The guest's file service (crates/sandbox-guest/src/file_service.rs)

    One worker at a time runs an action on the engine; captures stay in memory for a minute
    and hold the engine's download permits. [call] is the whole of a request: its answer may
    be lost to the deadline although its work is done. *)

From S2P Require Import Prelude Ext Ids GuestModel GuestWire FileWire GuestEnv.
From S2P Require Files History Transfers.

(** The clocks and the worker. *)
Class ServiceEnv := {
  instant_answer : list action -> Z;          (** milliseconds of [Instant::now()] *)
  worker_free : list action -> bool;
  worker_late : list action -> bool;          (** the caller's deadline passed before the answer *)
}.

Record Capture : Type := { descriptor : fw.FileCapture; bytes_ : Transfers.Download; until : Z }.
Record Service : Type := {
  engine : Transfers.Engine; captures : gmap OperationId Capture; closed : bool
}.
Abbreviation S A := (ST Service failure A) (only parsing).

Inductive Action : Type :=
| BeginUpload (v : fw.FileUpload)
| WriteFile (v : fw.WriteFile)
| InspectUpload (v : fw.FileOperation)
| CommitUpload (v : fw.FileOperation)
| AbortUpload (v : fw.FileOperation)
| CaptureFile (path : string)
| ReadFile (v : fw.ReadFile)
| ReleaseFile (v : fw.FileHandle).
Inductive Answer : Type :=
| FileReceipt (r : fw.FileReceipt)
| FileProgress (p : fw.FileProgress)
| FileCaptured (c : fw.FileCapture)
| FileChunk (c : fw.FileChunk)
| FileReleased (h : fw.FileHandle).

Definition set_captures (s : Service) v : Service := {| engine := engine s; captures := v; closed := closed s |}.
Definition on_engine {A} (m : ST Transfers.Engine failure A) : S A := fun s =>
  let '(e, r) := m (engine s) in ({| engine := e; captures := captures s; closed := closed s |}, r).
Definition outside {A} (a : list action -> A) : S A :=
  on_engine (Transfers.on_disk (ask Query a)).

Section service.
Context `{GuestEnv, Transfers.WorkspaceEnv, ServiceEnv, UuidLib, Sha256, Serde Files.Upload, Serde Files.Receipt,
          Serde History.Binding}.

(** [State::prune]; a capture that goes gives its permit back. *)
Definition expired (now : Z) (s : Service) : nat :=
  size (base.filter (fun e : OperationId * Capture => until e.2 <= now) (captures s)).
Definition prune_at (now : Z) (s : Service) : Service :=
  let e := engine s in
  let t := Transfers.transfers e in
  {| engine := {| Transfers.transfers := Transfers.set_downloads t (Transfers.downloads t - Z.of_nat (expired now s));
                  Transfers.disk := Transfers.disk e |};
     captures := base.filter (fun e : OperationId * Capture => now < until e.2) (captures s);
     closed := closed s |}.
Definition prune : S unit := now ← outside instant_answer; modify (prune_at now).

(** [State::upload] *)
Definition upload (o : fw.FileOperation) : S Files.Receipt :=
  id ← checked (validate_operation o);
  found ← on_engine (Transfers.inspect id);
  r ← checked (ok_or found "upload not found");
  _ ← checked (ensure (bool_decide (Files.f_digest r = fw.digest o)) "upload digest conflicts");
  mret r.

(** [State::capture] *)
Definition capture (h : fw.FileHandle) : S (OperationId * Capture) :=
  id ← checked (validate_handle h);
  s ← get;
  c ← checked (ok_or (captures s !! id) "capture expired or not found");
  _ ← checked (ensure (bool_decide (fw.c_sha256 (descriptor c) = fw.h_sha256 h)) "capture digest conflicts");
  mret (id, c).

(** A capture that replaces another of its identifier drops it. *)
Definition keep_capture (id : OperationId) (c : Capture) : S unit :=
  s ← get;
  _ ← (if is_some (captures s !! id) then on_engine Transfers.release else mret tt);
  modify (fun s => set_captures s (<[id := c]> (captures s))).

(** [State::dispatch] *)
Definition dispatch (a : Action) : S Answer :=
  match a with
  | BeginUpload v =>
      u ← checked (try_upload v);
      r ← on_engine (Transfers.begin u);
      mret (FileReceipt (from_file_receipt r))
  | WriteFile v =>
      _ ← checked (validate_write v);
      o ← checked (ok_or (fw.operation v) "missing upload operation");
      r ← upload o;
      n ← on_engine (Transfers.write_chunk (Files.u_operation_id (Files.f_upload r)) (fw.offset v) (fw.data v));
      mret (FileProgress {| fw.p_operation := Some o; fw.stored := n |})
  | InspectUpload v => r ← upload v; mret (FileReceipt (from_file_receipt r))
  | CommitUpload v =>
      r ← upload v;
      r ← on_engine (Transfers.commit (Files.u_operation_id (Files.f_upload r)));
      mret (FileReceipt (from_file_receipt r))
  | AbortUpload v =>
      r ← upload v;
      r ← on_engine (Transfers.abort (Files.u_operation_id (Files.f_upload r)));
      mret (FileReceipt (from_file_receipt r))
  | CaptureFile path =>
      _ ← checked (Files.validate_path path);
      s ← get;
      _ ← checked (ensure (size (captures s) <? 8)%nat "capture capacity exhausted");
      d ← on_engine (Transfers.capture path);
      id ← on_engine (Transfers.on_disk generate);
      now ← on_engine (Transfers.on_disk now_ms);
      let c := {| fw.capture_id := to_string id; fw.c_path := path; fw.c_size := Transfers.download_size d;
                  fw.c_sha256 := Transfers.d_sha256 d; fw.expires_unix_ms := now + CAPTURE_TTL_SECS * 1000 |} in
      start ← outside instant_answer;
      _ ← keep_capture id {| descriptor := c; bytes_ := d; until := start + CAPTURE_TTL_SECS * 1000 |};
      mret (FileCaptured c)
  | ReadFile v =>
      _ ← checked (validate_read v);
      h ← checked (ok_or (fw.handle v) "missing capture handle");
      c ← capture h;
      data ← checked (Transfers.chunk (bytes_ c.2) (fw.r_offset v) (fw.limit v));
      let next := fw.r_offset v + strlen data in
      mret (FileChunk {| fw.k_handle := Some h; fw.k_offset := fw.r_offset v; fw.k_data := data; fw.next_offset := next;
                         fw.k_size := fw.c_size (descriptor c.2);
                         fw.at_end := next =? fw.c_size (descriptor c.2) |})
  | ReleaseFile v =>
      id ← checked (validate_handle v);
      s ← get;
      _ ← (if is_some (captures s !! id) then
             _ ← capture v;
             _ ← on_engine Transfers.release;
             modify (fun s => set_captures s (delete id (captures s)))
           else mret tt);
      mret (FileReleased v)
  end.

(** [FileService::run]: what a caller gets, and what was done. *)
Definition run {A} (work : S A) : S A :=
  s ← get;
  _ ← checked (ensure (negb (closed s)) "file service closed");
  free ← outside worker_free;
  _ ← checked (ensure free "file worker busy");
  _ ← prune;
  r ← attempt work;
  late ← outside worker_late;
  _ ← checked (ensure (negb late) "file outcome uncertain: worker deadline");
  checked r.
(** [FileService::call] and [FileService::retire_history] *)
Definition call (a : Action) : S Answer := run (dispatch a).
Definition retire_history (b : History.Barrier) : S History.Barrier := run (on_engine (Transfers.retire_history b)).

(** The reaper's round. *)
Definition reap : S unit := s ← get; if closed s then mret tt else prune.

(** [FileService::shutdown]; the worker may not give its permit back in time. *)
Definition shutdown : S unit :=
  _ ← modify (fun s => {| engine := engine s; captures := captures s; closed := true |});
  free ← outside worker_free;
  _ ← checked (ensure free "file worker shutdown unconfirmed");
  modify (fun s =>
    let e := engine s in
    let t := Transfers.transfers e in
    {| engine := {| Transfers.transfers := Transfers.set_downloads t (Transfers.downloads t - Z.of_nat (size (captures s)));
                    Transfers.disk := Transfers.disk e |};
       captures := ∅; closed := closed s |}).

(** [FileService::open] *)
Definition open (path : string) (c : Context) (g : Guest) : Guest * result failure Service :=
  match Transfers.open path c g with
  | (g, Ok t) => (g, Ok {| engine := {| Transfers.transfers := t; Transfers.disk := g |}; captures := ∅; closed := false |})
  | (g, Err e) => (g, Err e)
  end.

(** ** The service's life *)

Inductive event : Type :=
| Call (a : Action)
| Retire (b : History.Barrier)
| Reap
| Shutdown
| Die
| Open (path : string) (c : Context).

Inductive Machine : Type := Serving (s : Service) | Stopped (g : Guest).
Definition world (m : Machine) : Guest :=
  match m with Serving s => Transfers.disk (engine s) | Stopped g => g end.

(** The service after a handler; it is gone when the agent was killed inside. *)
Definition handled {A} (m : S A) (s : Service) : Machine :=
  match m s with
  | (s', Err Killed) => Stopped (Transfers.disk (engine s'))
  | (s', _) => Serving s'
  end.
Definition step (e : event) (m : Machine) : Machine :=
  match e, m with
  | Call a, Serving s => handled (call a) s
  | Retire b, Serving s => handled (retire_history b) s
  | Reap, Serving s => handled reap s
  | Shutdown, Serving s => handled shutdown s
  | Die, _ => Stopped (world m)
  | Open path c, Stopped g =>
      match open path c g with
      | (_, Ok s) => Serving s
      | (g', Err _) => Stopped g'
      end
  | _, _ => m
  end.
Definition steps (es : list event) (m : Machine) : Machine := foldl (fun m e => step e m) m es.
End service.
