(* ===== verification/FileServed.v ===== *)
(** * The file service keeps its engine's invariant and its captures *)

From S2P Require Import Prelude Ext Ids GuestModel GuestWire FileWire GuestEnv FileLaws FileInv FileKeeps FileOpen FileService.
From S2P Require Files History Runner RunnerLaws Transfers.
Import RunnerLaws(rwp, rwp_mono, rwp_bind, rwp_ret, rwp_checked, rwp_attempt).
Import Transfers(Engine, transfers, disk, receipts, downloads, failed, d_bytes, d_sha256).

(** A number of the wire is never negative. *)
Definition wire_typed (a : Action) : bool :=
  match a with
  | BeginUpload v => 0 <=? fw.size v
  | WriteFile v => 0 <=? fw.offset v
  | ReadFile v => 0 <=? fw.r_offset v
  | _ => true
  end.

Section service.
Context `{GuestEnv, Transfers.WorkspaceEnv, ServiceEnv, UuidLaws, Sha256, Sha256Laws0 : !Sha256Laws, Serde Files.Upload,
          Serde Files.Receipt, Serde History.Binding, FileSerde0 : !FileSerde}.
Implicit Type s : Service.

(** A capture, and what its descriptor says of it. *)
Record capture_ok (id : OperationId) (c : Capture) : Prop := {
  cp_id : fw.capture_id (descriptor c) = to_string id;
  cp_path : Files.validate_path (fw.c_path (descriptor c)) = Ok tt;
  cp_size : fw.c_size (descriptor c) = strlen (d_bytes (bytes_ c));
  cp_sha256 : fw.c_sha256 (descriptor c) = sha256 (d_bytes (bytes_ c));
  cp_bound : strlen (d_bytes (bytes_ c)) <= Files.MAX_FILE_BYTES;
}.
Record service_ok (s : Service) : Prop := {
  so_engine : ok (engine s);
  so_permits : downloads (transfers (engine s)) = Z.of_nat (size (captures s));
  so_bound : Z.of_nat (size (captures s)) <= 8;
  so_captures : forall id c, captures s !! id = Some c -> capture_ok id c;
}.

Definition with_engine (s : Service) (e : Engine) : Service :=
  {| engine := e; captures := captures s; closed := closed s |}.
Definition skept {A} (Q : A -> Service -> Prop) (r : result failure A) (s : Service) : Prop :=
  match r with
  | Ok x => service_ok s /\ Q x s
  | Err (Failed _) => service_ok s
  | Err Killed => world_ok (disk (engine s))
  end.
Abbreviation sp m Q s := (rwp m (skept Q) s).

Lemma skept_err {A} (Q : A -> Service -> Prop) x s : service_ok s -> skept Q (Err x) s.
Proof. destruct x; [by intros [[] _ _ _]|done]. Qed.
Lemma sp_ret {A} (x : A) (Q : A -> Service -> Prop) s : service_ok s -> Q x s -> sp (mret x) Q s.
Proof. by split. Qed.
Lemma sp_check {A B} (r : result anyhow A) (k : A -> ST Service failure B) (Q : B -> Service -> Prop) s :
  service_ok s -> (forall x, r = Ok x -> sp (k x) Q s) -> sp (checked r ≫= k) Q s.
Proof. intros Hok Hk. apply rwp_bind, rwp_checked; [done|]. intros x. by apply skept_err. Qed.
Lemma rwp_on_engine {A} (m : ST Engine failure A) (Q : result failure A -> Service -> Prop) s :
  rwp m (fun r e => Q r (with_engine s e)) (engine s) -> rwp (on_engine m) Q s.
Proof. unfold rwp, on_engine. by destruct (m (engine s)). Qed.

Lemma service_with s e :
  service_ok s -> ok e -> downloads (transfers e) = downloads (transfers (engine s)) -> service_ok (with_engine s e).
Proof. intros [Ho Hp Hb Hc] He Hd. split; [done| |done..]. cbn. congruence. Qed.
(** An operation of the engine. *)
Lemma sp_engine {A B} (m : ST Engine failure A) (Qe : A -> Engine -> Prop) (k : A -> ST Service failure B) Q s :
  service_ok s -> steady m -> rwp m (kept Qe) (engine s) ->
  (forall x e, service_ok (with_engine s e) -> Qe x e -> sp (k x) Q (with_engine s e)) ->
  sp (on_engine m ≫= k) Q s.
Proof.
  intros Hok Hst Hm Hk. apply rwp_bind, rwp_on_engine. eapply rwp_mono; [apply rwp_steady; [exact Hst|exact Hm]|].
  intros [x|x] e [Hkept [Hd _]].
  - apply Hk; [|apply Hkept]. apply service_with; [done|apply Hkept|done].
  - destruct x; [exact Hkept|]. by apply service_with.
Qed.
(** A question to what is outside. *)
Lemma sp_outside {A B} a (f : list action -> A) (k : A -> ST Service failure B) Q s :
  service_ok s -> speaks a = false -> (forall x g, service_ok (with_engine s (with_disk (engine s) g)) ->
    sp (k x) Q (with_engine s (with_disk (engine s) g))) ->
  sp (on_engine (Transfers.on_disk (ask a f)) ≫= k) Q s.
Proof.
  intros Hok Ha Hk. apply rwp_bind, rwp_on_engine, rwp_on_disk, RunnerLaws.rwp_ask. apply Hk.
  apply service_with; [done| |done]. eapply (engine_within nowhere); [apply nowhere_safe| |apply Hok].
  by apply (quiet_answer a f).
Qed.

(** ** Captures *)

Lemma filter_split (P P' : OperationId * Capture -> Prop) `{!forall x, Decision (P x), !forall x, Decision (P' x)} (m : gmap OperationId Capture) :
  (forall x, P x <-> ~ P' x) -> (size (base.filter P m) + size (base.filter P' m) = size m)%nat.
Proof.
  intros Hneg. rewrite <- (map_filter_union_complement P' m) at 3. rewrite map_size_disj_union by apply map_disjoint_filter_complement.
  rewrite Nat.add_comm. f_equal. f_equal. apply map_filter_ext. intros i x _. apply Hneg.
Qed.
Lemma prune_ok now s : service_ok s -> service_ok (prune_at now s).
Proof.
  intros [Ho Hp Hb Hc]. unfold prune_at. split; cbn.
  - by apply engine_downloads.
  - rewrite Hp. unfold expired.
    pose proof (filter_split (fun e => until e.2 <= now) (fun e => now < until e.2) (captures s)) as Hsum.
    rewrite <- Hsum; [lia|]. intros x. lia.
  - etrans; [|exact Hb]. apply Nat2Z.inj_le, map_size_filter.
  - intros id c [Hx _]%map_lookup_filter_Some. by apply Hc.
Qed.
Lemma sp_prune (Q : unit -> Service -> Prop) s : service_ok s -> (forall s', service_ok s' -> Q tt s') -> sp prune Q s.
Proof.
  intros Hok HQ. apply sp_outside; [done..|]. intros now g Hok'. apply prune_ok with (now := now) in Hok'.
  split; [exact Hok'|]. by apply HQ.
Qed.

Definition drop_permit (e : Engine) : Engine :=
  {| transfers := Transfers.set_downloads (transfers e) (downloads (transfers e) - 1); disk := disk e |}.
Lemma release_ok s id c :
  service_ok s -> captures s !! id = Some c ->
  service_ok {| engine := drop_permit (engine s); captures := delete id (captures s); closed := closed s |}.
Proof.
  intros [Ho Hp Hb Hc] Hid.
  assert (Hpos : size (captures s) <> 0%nat) by (apply map_size_ne_0_lookup; eauto).
  assert (Hsz : size (delete id (captures s)) = Nat.pred (size (captures s))) by (by rewrite map_size_delete, Hid).
  split; cbn.
  - by apply engine_downloads.
  - rewrite Hp, Hsz. lia.
  - rewrite Hsz. lia.
  - intros i x [_ Hx]%lookup_delete_Some. by apply Hc.
Qed.

(** A capture whose permit is already taken. *)
Definition kept_capture (id : OperationId) (c : Capture) (x : unit) (s : Service) : Prop := captures s !! id = Some c.
Lemma sp_keep_capture id c s :
  ok (engine s) -> downloads (transfers (engine s)) = Z.of_nat (size (captures s)) + 1 ->
  Z.of_nat (size (captures s)) < 8 -> (forall i x, captures s !! i = Some x -> capture_ok i x) -> capture_ok id c ->
  sp (keep_capture id c) (kept_capture id c) s.
Proof.
  intros Ho Hp Hb Hc Hn. unfold keep_capture.
  change (rwp (?m ≫= ?k) ?Q s) with (rwp (k s) Q s). cbn beta.
  assert (Hins : forall i x, <[id := c]> (captures s) !! i = Some x -> capture_ok i x).
  { intros i x [[<- <-]|[_ Hx]]%lookup_insert_Some; [done|by apply Hc]. }
  destruct (captures s !! id) as [old|] eqn:Hold; cbn [is_some].
  - apply rwp_bind, rwp_on_engine. unfold Transfers.release. apply ewp_update. cbn.
    split; [|by apply lookup_insert_eq]. split; cbn; [by apply engine_downloads| | |done].
    + rewrite map_size_insert_Some by eauto. lia.
    + rewrite map_size_insert_Some by eauto. lia.
  - apply rwp_bind, rwp_ret, RunnerLaws.rwp_modify. split; [|by apply lookup_insert_eq]. split; cbn; [done| | |done].
    + rewrite map_size_insert_None by done. lia.
    + rewrite map_size_insert_None by done. lia.
Qed.

(** ** Requests *)

Definition holds_receipt (s : Service) (r : Files.Receipt) : Prop :=
  failed (transfers (engine s)) = false /\
  receipts (transfers (engine s)) !! Files.u_operation_id (Files.f_upload r) = Some r.
(** The part of a capture that a request asks for. *)
Definition part (v : fw.ReadFile) (c : Capture) : bytes :=
  prefix (Z.to_nat (fw.limit v)) (drop_bytes (Z.to_nat (fw.r_offset v)) (d_bytes (bytes_ c))).
Definition answer_chunk (v : fw.ReadFile) (h : fw.FileHandle) (c : Capture) : fw.FileChunk :=
  {| fw.k_handle := Some h; fw.k_offset := fw.r_offset v; fw.k_data := part v c;
     fw.next_offset := fw.r_offset v + strlen (part v c); fw.k_size := fw.c_size (descriptor c);
     fw.at_end := fw.r_offset v + strlen (part v c) =? fw.c_size (descriptor c) |}.

(** What an answer speaks of. *)
Definition answered (a : Action) (x : Answer) (s : Service) : Prop :=
  match x with
  | FileReceipt v => exists r, holds_receipt s r /\ v = from_file_receipt r /\
      (forall u, a = BeginUpload u -> try_upload u = Ok (Files.f_upload r))
  | FileCaptured c => exists id cap, captures s !! id = Some cap /\ c = descriptor cap
  | FileChunk k => exists v h id cap, a = ReadFile v /\ fw.handle v = Some h /\ validate_read v = Ok id /\
      captures s !! id = Some cap /\ fw.h_sha256 h = fw.c_sha256 (descriptor cap) /\
      fw.r_offset v <= strlen (d_bytes (bytes_ cap)) /\ k = answer_chunk v h cap
  | FileProgress _ | FileReleased _ => True
  end.

Lemma with_engine_id s : with_engine s (engine s) = s.
Proof. by destruct s. Qed.
Lemma rwp_inspect id (Q : result failure (option Files.Receipt) -> Engine -> Prop) e :
  (failed (transfers e) = false -> Q (Ok (receipts (transfers e) !! id)) e) -> (forall x, Q (Err (Failed x)) e) ->
  rwp (Transfers.inspect id) Q e.
Proof.
  intros HO HE. unfold Transfers.inspect, Transfers.healthy. apply rwp_bind, rwp_self, rwp_checked; [|apply HE].
  intros [] Hf%ensure_ok. apply rwp_self, rwp_ret, HO.
  by destruct (failed (transfers e)).
Qed.
Lemma sp_upload {B} o (k : Files.Receipt -> ST Service failure B) Q s :
  service_ok s -> (forall r, holds_receipt s r -> sp (k r) Q s) -> sp (upload o ≫= k) Q s.
Proof.
  intros Hok Hk. apply rwp_bind, (rwp_mono _ (skept (fun r s' => s' = s /\ holds_receipt s r))).
  - apply sp_check; [done|]. intros id _. apply rwp_bind, rwp_on_engine, rwp_inspect; rewrite with_engine_id; [|intros x; by apply skept_err].
    intros Hf. apply sp_check; [done|]. intros r Hr%ok_or_ok. apply sp_check; [done|]. intros [] _.
    apply sp_ret; [done|]. split; [done|]. split; [done|].
    by rewrite (mo_id _ _ _ (eo_receipts _ _ (so_engine _ Hok) _ _ Hr)).
  - intros [r|x] s' Hkept; [|destruct x; exact Hkept]. destruct Hkept as (_ & -> & Hr). by apply Hk.
Qed.

(** A receipt that an operation of the engine gives. *)
Definition gives (m : ST Engine failure Files.Receipt) (P : Files.Receipt -> Prop) (s : Service) : Prop :=
  rwp m (kept (fun r e => failed (transfers e) = false /\
    receipts (transfers e) !! Files.u_operation_id (Files.f_upload r) = Some r /\ P r)) (engine s).
Lemma sp_receipt a (m : ST Engine failure Files.Receipt) s :
  service_ok s -> steady m -> gives m (fun r => forall u, a = BeginUpload u -> try_upload u = Ok (Files.f_upload r)) s ->
  sp (r ← on_engine m; mret (FileReceipt (from_file_receipt r))) (answered a) s.
Proof.
  intros Hok Hst Hm. eapply sp_engine; [done..|exact Hm|]. intros r e Hok' (Hf & Hr & Hu). apply sp_ret; [done|]. by exists r.
Qed.
Lemma over_gives m id s (P : Files.Receipt -> Prop) :
  (forall r, P r) -> rwp m (kept (over id)) (engine s) -> gives m P s.
Proof.
  intros HP Hm. eapply rwp_mono; [exact Hm|]. intros o e Hk. eapply ekept_mono; [exact Hk|].
  intros r _ Hok (Hr & _ & Hf). split_and!; [done| |done]. by rewrite (mo_id _ _ _ (eo_receipts _ _ Hok _ _ Hr)).
Qed.
Lemma upload_typed_wire v u : try_upload v = Ok u -> 0 <= fw.size v -> upload_typed u = true.
Proof.
  intros (-> & _ & Hc & Hs)%upload_wire_exact Hz. unfold upload_typed. rewrite Hc, Hs. cbn in Hz.
  rewrite andb_true_r. by apply Z.leb_le.
Qed.

Lemma sp_capture_lookup {B} h (k : OperationId * Capture -> ST Service failure B) Q s :
  service_ok s -> (forall id c, validate_handle h = Ok id -> captures s !! id = Some c ->
    fw.c_sha256 (descriptor c) = fw.h_sha256 h -> sp (k (id, c)) Q s) -> sp (capture h ≫= k) Q s.
Proof.
  intros Hok Hk. apply rwp_bind, (rwp_mono _ (skept (fun x s' => s' = s /\ validate_handle h = Ok x.1 /\
    captures s !! x.1 = Some x.2 /\ fw.c_sha256 (descriptor x.2) = fw.h_sha256 h))).
  - apply sp_check; [done|]. intros id Hid. apply rwp_bind, RunnerLaws.rwp_get. apply sp_check; [done|]. intros c Hc%ok_or_ok.
    apply sp_check; [done|]. intros [] Hsha%ensure_ok. bools. by apply sp_ret.
  - intros [[id c]|x] s' Hkept; [|destruct x; exact Hkept]. destruct Hkept as (_ & -> & Hid & Hc & Hsha). by apply Hk.
Qed.

Lemma sp_capture_file path s : service_ok s -> sp (dispatch (CaptureFile path)) (answered (CaptureFile path)) s.
Proof.
  intros Hok. cbn [dispatch]. apply sp_check; [done|]. intros [] Hpath. apply rwp_bind, RunnerLaws.rwp_get.
  apply sp_check; [done|]. intros [] Hcap%ensure_ok%Nat.ltb_lt.
  apply rwp_bind, rwp_on_engine. eapply rwp_mono; [by apply spec_capture, Hok|].
  intros [d|x] e [Hk Hd]; [|destruct x; [exact Hk|apply service_with; [done|exact Hk|by eapply Hd]]].
  destruct Hk as [Hoke (_ & Hp & _ & Hsha & Hlen)].
  set (s1 := with_engine s e). assert (Hs1 : ok (engine s1)) by exact Hoke.
  apply rwp_bind, rwp_on_engine, rwp_on_disk, RunnerLaws.rwp_ask. set (id := generated _).
  apply rwp_bind, rwp_on_engine, rwp_on_disk, RunnerLaws.rwp_ask. set (now := clock_answer _). cbv zeta.
  apply rwp_bind, rwp_on_engine, rwp_on_disk, RunnerLaws.rwp_ask. set (start := instant_answer _).
  set (cap := {| descriptor := _ |}). set (s2 := with_engine _ _).
  assert (Hs2 : ok (engine s2)).
  { eapply (engine_within nowhere); [apply nowhere_safe| |exact Hs1]. by apply within_files. }
  apply rwp_bind. eapply rwp_mono.
  - apply (sp_keep_capture id cap s2); [exact Hs2|..].
    + cbn. rewrite Hp. f_equal. apply Hok.
    + cbn. lia.
    + apply Hok.
    + split; try done.
  - intros [[]|x] s3 Hk; [|destruct x; exact Hk]. destruct Hk as [Hok3 Hin]. apply sp_ret; [done|]. by exists id, cap.
Qed.

Lemma sp_release h s : service_ok s -> sp (dispatch (ReleaseFile h)) (answered (ReleaseFile h)) s.
Proof.
  intros Hok. cbn [dispatch]. apply sp_check; [done|]. intros id Hid. apply rwp_bind, RunnerLaws.rwp_get.
  apply rwp_bind, (rwp_mono _ (skept (fun _ _ => True))).
  - destruct (captures s !! id) as [c|] eqn:Hc; cbn [is_some]; [|by apply sp_ret].
    apply sp_capture_lookup; [done|]. intros i x _ _ _. apply rwp_bind, rwp_on_engine, ewp_update, RunnerLaws.rwp_modify.
    split; [|done]. by apply (release_ok s id c).
  - intros [[]|x] s' Hk; [|destruct x; exact Hk]. apply sp_ret; [apply Hk|done].
Qed.

Lemma sp_dispatch a s : wire_typed a = true -> service_ok s -> sp (dispatch a) (answered a) s.
Proof.
  intros Ht Hok. destruct a as [v|v|v|v|v|path|v|v]; cbn [dispatch wire_typed] in *; [..|by apply sp_capture_file| |].
  - apply sp_check; [done|]. intros u Hu. apply sp_receipt; [done|apply steady_begin|].
    assert (upload_typed u = true) as Hty by (eapply upload_typed_wire; [done|by apply Z.leb_le]).
    eapply rwp_mono; [by apply spec_begin, Hok|]. intros o e Hk. eapply ekept_mono; [exact Hk|].
    intros r _ _ (Hr & Hup & Hf). split_and!; [done|by rewrite Hup|]. intros x [= <-]. by rewrite Hup.
  - apply sp_check; [done|]. intros _ _. apply sp_check; [done|]. intros o _. apply sp_upload; [done|]. intros r Hr.
    eapply sp_engine; [done|apply steady_write_chunk|by apply spec_write_chunk, Hok|]. intros n e Hok' _. by apply sp_ret.
  - apply sp_upload; [done|]. intros r Hr. apply sp_ret; [done|]. by exists r.
  - apply sp_upload; [done|]. intros r Hr. apply sp_receipt; [done|apply steady_commit|].
    eapply over_gives; [|by apply spec_commit, Hok]. done.
  - apply sp_upload; [done|]. intros r Hr. apply sp_receipt; [done|apply steady_abort|].
    eapply over_gives; [|by apply spec_abort, Hok]. done.
  - apply sp_check; [done|]. intros id Hid. apply sp_check; [done|]. intros h Hh%ok_or_ok.
    apply sp_capture_lookup; [done|]. intros i c Hi Hc Hsha. apply sp_check; [done|]. intros data Hdata. cbv zeta.
    assert (i = id) as ->. { unfold validate_read in Hid. rewrite Hh in Hid. cbn in Hid. rewrite Hi in Hid. cbn in Hid. by inv_ok. }
    unfold Transfers.chunk in Hdata. apply bind_ok in Hdata as ([] & Hr%ensure_ok & [= <-]). bools.
    apply sp_ret; [done|]. by exists v, h, id, c.
  - by apply sp_release.
Qed.

Lemma sp_run {A} (m : ST Service failure A) (Q : A -> Service -> Prop) s :
  service_ok s -> (forall x s1 g, Q x s1 -> Q x (with_engine s1 (with_disk (engine s1) g))) ->
  (forall s1, service_ok s1 -> sp m Q s1) -> sp (run m) Q s.
Proof.
  intros Hok Hst Hm. apply rwp_bind, RunnerLaws.rwp_get. apply sp_check; [done|]. intros [] _.
  apply sp_outside; [done..|]. intros free g Hok1. apply sp_check; [done|]. intros [] _.
  apply rwp_bind. eapply rwp_mono; [apply (sp_prune (fun _ _ => True)); done|].
  intros [[]|x] s2 Hk; [|destruct x; exact Hk]. destruct Hk as [Hok2 _].
  apply rwp_bind, rwp_attempt. eapply rwp_mono; [by apply Hm|].
  intros [y|[|x]] s3 Hk; [|exact Hk|]; (apply sp_outside; [apply Hk|done|]); intros late g3 Hok3.
  - apply sp_check; [done|]. intros [] _. split; [done|]. apply Hst, Hk.
  - apply sp_check; [done|]. intros [] _. by apply skept_err.
Qed.
Lemma answered_disk a x s g : answered a x s -> answered a x (with_engine s (with_disk (engine s) g)).
Proof. by destruct x. Qed.
Lemma sp_call a s : wire_typed a = true -> service_ok s -> sp (call a) (answered a) s.
Proof. intros Ht Hok. apply sp_run; [done|apply answered_disk|]. intros s1 Hok1. by apply sp_dispatch. Qed.
Lemma sp_retire_history b s : service_ok s -> sp (retire_history b) (fun _ _ => True) s.
Proof.
  intros Hok. apply sp_run; [done..|]. intros s1 Hok1. apply rwp_on_engine. eapply rwp_mono.
  - apply rwp_steady; [apply steady_retire_history|by apply spec_retire_files, Hok1].
  - intros [x|x] e [Hk [Hd _]]; [split; [|done]; apply service_with; [done|apply Hk|done]|].
    destruct x; [exact Hk|by apply service_with].
Qed.
Lemma sp_reap s : service_ok s -> sp reap (fun _ _ => True) s.
Proof.
  intros Hok. apply rwp_bind, RunnerLaws.rwp_get. destruct (closed s); [by apply sp_ret|by apply sp_prune].
Qed.
Lemma sp_shutdown s : service_ok s -> sp shutdown (fun _ _ => True) s.
Proof.
  intros Hok. apply rwp_bind, RunnerLaws.rwp_modify.
  set (s1 := {| engine := engine s |}). assert (Hok1 : service_ok s1) by (by destruct Hok).
  apply sp_outside; [done..|]. intros free g Hok2. apply sp_check; [done|]. intros [] _. apply RunnerLaws.rwp_modify.
  destruct Hok2 as [Ho Hp _ _].
  split; [|done]. split; cbn; [by apply engine_downloads| |done|].
  - cbn in Hp. rewrite Hp. rewrite map_size_empty. lia.
  - intros id c. by rewrite lookup_empty.
Qed.
End service.
#[global] Arguments skept : simpl never.
