(* ===== verification/FileTheorems.v ===== *)
(** * The file service through its lives: requests, deaths and restarts *)

From S2P Require Import Prelude Ext Ids GuestModel GuestWire FileWire GuestEnv FileLaws FileInv FileKeeps FileOpen FileService FileServed.
From S2P Require Files History RunnerLaws Transfers FileDownloads.

(** ** Chunks: how an upload is staged and how a capture is read *)

Module Chunks.
Import RunnerLaws(rwp, rwp_mono, rwp_bind, rwp_ret, rwp_checked).
Import Files(u_size, f_state, f_upload).
Import Transfers(Engine, transfers, disk, receipts, on_disk, data_name, d_bytes).
#[local] Existing Instances Files.State_eq_dec.

(** ** Strings *)

Lemma drop_length n (c : bytes) : String.length (drop_bytes n c) = (String.length c - n)%nat.
Proof. revert n. induction c as [|a c IH]; intros [|n]; cbn; [done..|by rewrite IH]. Qed.
Lemma prefix_length n (c : bytes) : String.length (prefix n c) = Nat.min n (String.length c).
Proof. revert n. induction c as [|a c IH]; intros [|n]; cbn; [done..|by rewrite IH]. Qed.
Lemma prefix_drop n (c : bytes) : prefix n c +:+ drop_bytes n c = c.
Proof. revert n. induction c as [|a c IH]; intros [|n]; cbn; [done..|by rewrite IH]. Qed.
Lemma drop_app n (c d : bytes) : (n <= String.length c)%nat -> drop_bytes n (c +:+ d) = drop_bytes n c +:+ d.
Proof. revert n. induction c as [|a c IH]; intros [|n]; cbn; intros Hn; [done|lia|done|]. apply IH. lia. Qed.
Lemma drop_drop n k (c : bytes) : drop_bytes n (drop_bytes k c) = drop_bytes (k + n) c.
Proof. revert k. induction c as [|a c IH]; intros [|k]; cbn; [by destruct n|by destruct n|done|apply IH]. Qed.
Lemma drop_all n (c : bytes) : (String.length c <= n)%nat -> drop_bytes n c = "".
Proof. revert n. induction c as [|a c IH]; intros [|n]; cbn; [done..|lia|]. intros Hn. apply IH. lia. Qed.
Lemma string_length_app (a b : bytes) : String.length (a +:+ b) = (String.length a + String.length b)%nat.
Proof. induction a as [|x a IH]; cbn; [done|by rewrite IH]. Qed.

(** A chunk that overlaps what is there only in equal bytes completes it. *)
Lemma chunk_fits (off : nat) (c data : bytes) :
  let k := Nat.min (String.length c - off) (String.length data) in
  (off <= String.length c)%nat -> prefix k (drop_bytes off c) = prefix k data ->
  prefix (String.length data) (drop_bytes off (c +:+ drop_bytes k data)) = data /\
  String.length (c +:+ drop_bytes k data) = Nat.max (String.length c) (off + String.length data).
Proof.
  intros k Hoff Heq. split.
  - rewrite drop_app by done. destruct (Nat.le_gt_cases (String.length data) (String.length c - off)) as [Hle|Hgt].
    + rewrite (drop_all k data) by lia. rewrite string_app_nil_r.
      replace k with (String.length data) in Heq by lia. rewrite Heq. by apply prefix_all.
    + rewrite (prefix_all k (drop_bytes off c)) in Heq by (rewrite drop_length; lia).
      rewrite Heq, prefix_drop. by apply prefix_all.
  - rewrite string_length_app, drop_length. lia.
Qed.

Section chunks.
Context `{GuestEnv, Transfers.WorkspaceEnv, UuidLaws, Sha256, Serde Files.Upload, Serde Files.Receipt, Serde History.Binding}.

(** ** Writing *)

Definition staged (e : Engine) (id : OperationId) : option bytes :=
  match files (disk e) !! data_name id with Some (File c) => Some c | _ => None end.
Definition extended (id : OperationId) (e e' : Engine) : Prop :=
  forall c, staged e id = Some c -> exists rest, staged e' id = Some (c +:+ rest).
Definition chunk_stored (id : OperationId) (offset : Z) (data : bytes) (e : Engine) (n : Z) (e' : Engine) : Prop :=
  exists r c, receipts (transfers e) !! id = Some r /\ f_state r = Files.Staging /\ staged e' id = Some c /\
    n = strlen c /\ n <= u_size (f_upload r) /\
    prefix (String.length data) (drop_bytes (Z.to_nat offset) c) = data.
Definition chunk_outcome (id : OperationId) (offset : Z) (data : bytes) (e : Engine) (o : result failure Z) (e' : Engine) : Prop :=
  extended id e e' /\ forall n, o = Ok n -> chunk_stored id offset data e n e'.

Lemma staged_same id e e' : files (disk e') = files (disk e) -> staged e' id = staged e id.
Proof. unfold staged. by intros ->. Qed.
Lemma still_files g g' : within nowhere g g' -> files g' = files g.
Proof. intros [_ Hf]. apply map_eq. intros n. by apply Hf. Qed.
Lemma extended_same id e e' : files (disk e') = files (disk e) -> extended id e e'.
Proof. intros Hf c Hc. exists "". rewrite string_app_nil_r. by rewrite (staged_same id e). Qed.

(** A call that changes no file. *)
Lemma rwp_still {A B} (m : ST Guest failure A) (Q0 : A -> Guest -> Prop) (k : A -> ST Engine failure B) Q e :
  twp nowhere m Q0 (disk e) ->
  (forall x g, files g = files (disk e) -> Q (Err x) (with_disk e g)) ->
  (forall a g, files g = files (disk e) -> Q0 a g -> rwp (k a) Q (with_disk e g)) ->
  rwp (on_disk m ≫= k) Q e.
Proof.
  intros Hm HE HO. apply rwp_bind, rwp_on_disk. eapply rwp_twp; [exact Hm|..].
  - intros a g Hw HQ. apply HO; [by apply still_files|done].
  - intros x g Hw. by apply HE, still_files.
Qed.
Lemma twp_unseen_true g : twp nowhere unseen (fun _ _ => True) g.
Proof. by apply twp_unseen. Qed.

(** The write itself. *)
Lemma staged_append e id c b g :
  staged e id = Some c -> files g = files (disk e) ->
  staged (with_disk e (append (data_name id) b (record g Syscall))) id = Some (c +:+ b).
Proof.
  unfold staged, append. cbn. intros Hc ->. destruct (files (disk e) !! data_name id) as [[x| |]|] eqn:Hx; try done.
  injection Hc as ->. cbn. by rewrite lookup_insert_eq.
Qed.

Lemma spec_chunk id offset data e :
  0 <= offset -> rwp (Transfers.write_chunk id offset data) (chunk_outcome id offset data e) e.
Proof.
  intros Hoff. unfold Transfers.write_chunk, Transfers.healthy.
  assert (HE : forall x e', files (disk e') = files (disk e) -> chunk_outcome id offset data e (Err x) e').
  { intros x e' Hf. split; [by apply extended_same|done]. }
  assert (Hck : forall A B (r : result anyhow A) (k : A -> ST Engine failure B) Q e',
    (forall x, Q (Err x) e') -> (forall a, r = Ok a -> rwp (k a) Q e') -> rwp (checked r ≫= k) Q e').
  { intros A B r k Q e' HQ Hk. by apply rwp_bind, rwp_checked. }
  apply rwp_bind, rwp_self, rwp_checked; [|by intros x; apply HE]. intros [] _.
  apply Hck; [by intros x; apply HE|]. intros [] Hlen%ensure_ok. apply rwp_self.
  apply Hck; [by intros x; apply HE|]. intros r Hr%ok_or_ok.
  apply Hck; [by intros x; apply HE|]. intros [] Hst%ensure_ok.
  apply Hck; [by intros x; apply HE|]. intros last Hlast%ok_or_ok. apply u64_checked_add_some in Hlast as [-> _].
  apply Hck; [by intros x; apply HE|]. intros [] Hle%ensure_ok. bools.
  eapply rwp_still; [apply (twp_stage nowhere id (fun c _ => staged e id = Some c))|intros x g Hg; by apply HE|].
  { intros c Hc. unfold staged. by rewrite Hc. }
  intros c g1 Hg1 Hc. eapply rwp_still; [apply twp_unseen_true|intros x g Hg; apply HE; cbn in *; congruence|].
  intros _ g2 Hg2 _. cbn [with_disk disk] in *.
  apply Hck; [intros x; apply HE; cbn; congruence|]. intros [] Hcont%ensure_ok. bools. cbv zeta.
  eapply rwp_still; [apply twp_unseen_true|intros x g Hg; apply HE; cbn in *; congruence|].
  intros _ g3 Hg3 _. cbn [with_disk disk] in *.
  apply Hck; [intros x; apply HE; cbn; congruence|]. intros [] Hover%ensure_ok. bools.
  assert (Hg : files g3 = files (disk e)) by congruence.
  assert (Hk : Z.to_nat (Z.min (strlen c - offset) (strlen data)) =
    Nat.min (String.length c - Z.to_nat offset) (String.length data)) by (unfold strlen in *; lia).
  rewrite Hk in *. destruct (chunk_fits (Z.to_nat offset) c data) as [Hfits Hlen']; [unfold strlen in *; lia|done|].
  set (k := Nat.min _ _) in *.
  assert (Hdone : forall e', staged e' id = Some (c +:+ drop_bytes k data) ->
    chunk_outcome id offset data e (Ok (Z.max (strlen c) (offset + strlen data))) e').
  { intros e' He'. split; [intros x Hx; assert (x = c) as -> by congruence; by eexists|]. intros n [= <-].
    exists r, (c +:+ drop_bytes k data). split_and!; try done; unfold strlen in *; lia. }
  assert (Herr : forall x b e', staged e' id = Some (c +:+ b) -> chunk_outcome id offset data e (Err x) e').
  { intros x b e' He'. split; [|done]. intros y Hy. assert (y = c) as -> by congruence. by eexists. }
  destruct (Z.of_nat k <? strlen data) eqn:Hmore.
  - apply rwp_bind, rwp_on_disk, RunnerLaws.rwp_write_all.
    + intros x b. apply (Herr x b). by apply (staged_append e).
    + assert (Happ : staged (with_disk e (append (data_name id) (drop_bytes k data) (record g3 Syscall))) id = Some (c +:+ drop_bytes k data))
        by (by apply staged_append). cbn [disk with_disk].
      eapply rwp_still; [apply twp_unseen_true| |].
      * intros x g Hg'. apply (Herr x (drop_bytes k data)). rewrite <- Happ. by apply staged_same.
      * intros _ g4 Hg4 _. apply rwp_ret, Hdone. rewrite <- Happ. by apply staged_same.
  - apply rwp_bind, rwp_ret. assert (drop_bytes k data = "") as Hnil by (apply drop_all; unfold strlen in *; lia).
    eapply rwp_still; [apply twp_unseen_true|intros x g Hg'; apply HE; cbn in *; congruence|].
    intros _ g4 Hg4 _. apply rwp_ret, Hdone. rewrite Hnil, string_app_nil_r. cbn in Hg4.
    rewrite (staged_same id e); [done|cbn; congruence].
Qed.

(** Writing a chunk only ever appends: whatever fails, the staged bytes stay, possibly with
    a beginning of the chunk's rest behind them; and when the answer is a length, the file
    has that length, within the declared size, and holds the chunk at its offset, whether
    the chunk was new, was sent before, or continues one that was cut off. *)
Theorem write_chunk_only_appends id offset data e e' o :
  0 <= offset -> Transfers.write_chunk id offset data e = (e', o) ->
  (forall c, staged e id = Some c -> exists rest, staged e' id = Some (c +:+ rest)) /\
  (forall n, o = Ok n -> exists r c, receipts (transfers e) !! id = Some r /\ f_state r = Files.Staging /\
     staged e' id = Some c /\ n = strlen c /\ n <= u_size (f_upload r) /\
     prefix (String.length data) (drop_bytes (Z.to_nat offset) c) = data).
Proof.
  intros Hoff Hw. pose proof (spec_chunk id offset data e Hoff) as Hs. unfold rwp in Hs. rewrite Hw in Hs. exact Hs.
Qed.

(** ** Reading *)

(** Reading a capture in one pass, with a limit for each request. *)
Fixpoint fetch (d : Transfers.Download) (offset : Z) (limits : list Z) : result anyhow bytes :=
  match limits with
  | [] => Ok ""
  | limit :: limits =>
      b ← Transfers.chunk d offset limit;
      rest ← fetch d (offset + strlen b) limits;
      Ok (b +:+ rest)
  end.

Lemma fetch_rest d offset limits :
  Forall (fun l => 1 <= l <= Files.MAX_CHUNK_BYTES) limits -> 0 <= offset <= strlen (d_bytes d) ->
  strlen (d_bytes d) - offset <= sum_by id limits ->
  fetch d offset limits = Ok (drop_bytes (Z.to_nat offset) (d_bytes d)).
Proof.
  revert offset. induction limits as [|l limits IH]; intros offset Hl Hoff Hsum; cbn [fetch].
  { change (sum_by id []) with 0 in Hsum. rewrite drop_all; [done|]. unfold strlen in *. lia. }
  change (sum_by id (l :: limits)) with (l + sum_by id limits) in Hsum.
  apply Forall_cons in Hl as [Hl Hls]. unfold Transfers.chunk, Transfers.download_size.
  rewrite (proj2 (contains_spec _ _ _) Hl), (proj2 (Z.leb_le _ _) (proj2 Hoff)). cbn.
  set (b := prefix _ _).
  assert (Hb : strlen b = Z.min l (strlen (d_bytes d) - offset)).
  { unfold b, strlen in *. rewrite prefix_length, drop_length. lia. }
  assert (0 <= sum_by id limits) by (apply sum_by_nonneg; eapply Forall_impl; [exact Hls|]; unfold id; cbn; lia).
  rewrite IH; [|done|lia|lia]. cbn.
  rewrite <- (prefix_drop (Z.to_nat l) (drop_bytes (Z.to_nat offset) (d_bytes d))) at 1. fold b. f_equal. f_equal.
  rewrite drop_drop. destruct (Z.le_gt_cases l (strlen (d_bytes d) - offset)).
  - f_equal. lia.
  - unfold strlen in *. rewrite !drop_all by lia. done.
Qed.

(** C27. Reading a capture chunk by chunk, in any steps that are allowed, gives back exactly
    the captured bytes, once the steps reach its size: nothing is lost, repeated or torn
    between two requests. *)
Theorem download_reassembles d limits :
  Forall (fun l => 1 <= l <= Files.MAX_CHUNK_BYTES) limits -> strlen (d_bytes d) <= sum_by id limits ->
  fetch d 0 limits = Ok (d_bytes d).
Proof. intros Hl Hs. rewrite fetch_rest; [done|done|pose proof (strlen_nonneg (d_bytes d)); lia|lia]. Qed.
End chunks.
End Chunks.

Import RunnerLaws(rwp, rwp_mono, rwp_bind).
Import Files(u_operation_id, u_path, u_size, u_sha256, f_state, f_upload, f_context, f_digest).
Import Transfers(Engine, transfers, disk, receipts, downloads, failed, barrier, context, d_bytes, d_sha256, data_name).
#[local] Existing Instances Files.State_eq_dec.
Section machine.
Context `{GuestEnv, Transfers.WorkspaceEnv, ServiceEnv, UuidLaws, Sha256, Sha256Laws0 : !Sha256Laws, Serde Files.Upload,
          Serde Files.Receipt, Serde History.Binding, FileSerde0 : !FileSerde}.

Definition served_event (e : event) : Prop :=
  match e with
  | Call a => wire_typed a = true
  | Open _ c => canonical (allocation_id c) = true
  | Retire _ | Reap | Shutdown | Die => True
  end.
Definition machine_ok (m : Machine) : Prop :=
  match m with Serving s => service_ok s | Stopped g => world_ok g end.

Lemma handled_ok {A} (m : ST Service failure A) (Q : A -> Service -> Prop) s :
  rwp m (skept Q) s -> machine_ok (handled m s).
Proof. unfold rwp, handled. destruct (m s) as [s' [x|[|x]]]; intros Hk; [apply Hk|exact Hk..]. Qed.

Lemma open_ok path c g :
  canonical (allocation_id c) = true -> world_ok g ->
  match open path c g with
  | (_, Ok s) => service_ok s /\ opened c (transfers (engine s)) (disk (engine s)) /\ captures s = ∅
  | (g', Err _) => world_ok g'
  end.
Proof.
  intros Hc Hg. destruct (swp_open path c g Hc Hg) as [Hw Ho]. unfold open.
  destruct (Transfers.open path c g) as [g' [t|x]]; cbn in *; [|done]. specialize (Ho t eq_refl).
  split_and!; [|done..]. split; cbn; [apply Ho| |done|by intros id x; rewrite lookup_empty].
  by destruct Ho as [_ _ [-> _] _].
Qed.

Lemma step_ok e m : served_event e -> machine_ok m -> machine_ok (step e m).
Proof.
  intros He Hm. destruct e as [a|b| | | |path c], m as [s|g]; cbn in *; try done.
  - by eapply handled_ok, sp_call.
  - by eapply handled_ok, sp_retire_history.
  - by eapply handled_ok, sp_reap.
  - by eapply handled_ok, sp_shutdown.
  - apply Hm.
  - pose proof (open_ok path c g He Hm) as Ho. destruct (open path c g) as [g' [s|x]]; [apply Ho|done].
Qed.
Lemma steps_ok es m : Forall served_event es -> machine_ok m -> machine_ok (steps es m).
Proof.
  revert m. induction es as [|e es IH]; intros m Hes Hm; [done|]. apply Forall_cons in Hes as [He Hes].
  by apply IH, step_ok.
Qed.

(** A workspace into which nothing was ever uploaded. *)
Definition new_workspace : Machine := Stopped {| files := ∅; groups := ∅; trace := [] |}.
Lemma new_workspace_ok : machine_ok new_workspace.
Proof.
  split; cbn; [constructor|by intros id path c ?%not_elem_of_nil|]. intros id r _ _. unfold filed. cbn. by rewrite lookup_empty.
Qed.
Lemma workspace_reachable_ok es : Forall served_event es -> machine_ok (steps es new_workspace).
Proof. intros Hes. apply steps_ok; [done|apply new_workspace_ok]. Qed.
Lemma reachable_service es s : Forall served_event es -> steps es new_workspace = Serving s -> service_ok s.
Proof. intros Hes Hs. pose proof (workspace_reachable_ok es Hes) as Hok. by rewrite Hs in Hok. Qed.
Lemma workspace_world m : machine_ok m -> world_ok (world m).
Proof. destruct m as [s|g]; [|done]. intros [[] _ _ _]. done. Qed.

(** The uploads whose content reached the workspace. *)
Definition published_ids (m : Machine) : list OperationId := ((published (trace (world m))).*1).*1.

(** C24. Whatever the requests, failures, deaths of the agent and restarts: the content of an
    upload is renamed into the workspace at most once, also when the commit is repeated,
    when its receipt could not be written, or when the agent died right after the rename. *)
Theorem upload_published_at_most_once es :
  Forall served_event es -> NoDup (published_ids (steps es new_workspace)).
Proof. intros Hes. exact (wo_once _ (workspace_world _ (workspace_reachable_ok es Hes))). Qed.

(** ** What receipts say *)

Lemma upload_receipt_decodes c id r :
  mem_ok c id r -> try_file_receipt (from_file_receipt r) = Ok r.
Proof.
  intros [Hi Ht Hc Hv]. unfold file_typed, upload_typed in Ht. bools. apply file_receipt_wire_exact. by split_and!.
Qed.

(** The answer of a reachable service. *)
Lemma call_answered es s a s' x :
  Forall served_event es -> steps es new_workspace = Serving s -> wire_typed a = true -> call a s = (s', Ok x) ->
  service_ok s' /\ answered a x s'.
Proof.
  intros Hes Hs Ht Hx. pose proof (sp_call a s Ht (reachable_service es s Hes Hs)) as Hk.
  unfold rwp in Hk. by rewrite Hx in Hk.
Qed.

(** C25. An upload receipt tells the truth, whatever request it answers: it decodes on the
    host's side; if it says [Committed], the workspace received exactly one file, at the
    declared path, with the declared size and digest; if it says [Staging] or [Aborted],
    it received none; and after that answer, one that is not [Staging] is on disk. *)
Theorem upload_receipts_tell_the_truth es s a s' v :
  Forall served_event es -> steps es new_workspace = Serving s -> wire_typed a = true ->
  call a s = (s', Ok (FileReceipt v)) ->
  exists r, try_file_receipt v = Ok r /\ filed (disk (engine s')) (u_operation_id (f_upload r)) = Some r /\
    (f_state r = Files.Committed -> exists c, strlen c = u_size (f_upload r) /\ sha256 c = u_sha256 (f_upload r) /\
       (u_operation_id (f_upload r), u_path (f_upload r), c) ∈ published (trace (disk (engine s')))) /\
    (f_state r = Files.Staging \/ f_state r = Files.Aborted ->
       u_operation_id (f_upload r) ∉ published_ids (Serving s')).
Proof.
  intros Hes Hs Ht Hx. destruct (call_answered es s a s' _ Hes Hs Ht Hx) as [Hok (r & [Hf Hr] & -> & _)].
  pose proof (so_engine _ Hok) as He. pose proof (eo_receipts _ _ He _ _ Hr) as Hm. exists r.
  destruct (eo_filed _ _ He Hf _ _ Hr) as [Hd Hn]. pose proof (fm_canonical _ _ _ Hm) as Hc.
  split_and!; [by eapply upload_receipt_decodes|done| |].
  - intros Hst. destruct (wo_truth _ (eo_world _ _ He) _ _ Hc Hn Hd Hst) as (path & c & Hin). exists c.
    destruct (wo_record _ (eo_world _ _ He) _ _ _ Hin) as [_ Hrec]. destruct (Hrec Hn) as (r' & Hr' & _ & _ & Hp & Hz & Hsha).
    rewrite Hd in Hr'. injection Hr' as <-. by rewrite Hp.
  - intros Hst Hin. apply list_elem_of_fmap in Hin as ([i path] & Hi & Hin).
    apply list_elem_of_fmap in Hin as ([[i' path'] c] & Heq & Hin). cbn in *. simplify_eq.
    eapply not_published; [exact He|done|exact Hr| |exact Hin]. by destruct Hst as [-> | ->].
Qed.

(** The service and the host agree on uploads: when the service answers a request to begin
    an upload with a receipt, that receipt decodes to one for the upload that was asked for,
    field by field, under the digest that the host computes of it, and for this service's
    allocation and boot; which is what the host compares with the intent it retained. *)
Theorem begin_answer_matches_upload es s v s' x :
  Forall served_event es -> steps es new_workspace = Serving s -> 0 <= fw.size v ->
  call (BeginUpload v) s = (s', Ok (FileReceipt x)) ->
  exists u r, try_upload v = Ok u /\ try_file_receipt x = Ok r /\ f_upload r = u /\
    Files.upload_digest u = Ok (f_digest r) /\ f_context r = context (transfers (engine s')) /\
    Files.receipt_validate r = Ok tt.
Proof.
  intros Hes Hs Hz Hx. assert (Ht : wire_typed (BeginUpload v) = true) by by apply Z.leb_le.
  destruct (call_answered es s _ s' _ Hes Hs Ht Hx) as [Hok (r & [Hf Hr] & -> & Hu)].
  pose proof (eo_receipts _ _ (so_engine _ Hok) _ _ Hr) as Hm. exists (f_upload r), r. specialize (Hu v eq_refl).
  pose proof Hm as [_ _ Hcx Hv]. split_and!; [done|by eapply upload_receipt_decodes|done| |done|done].
  unfold Files.receipt_validate in Hv. apply bind_ok in Hv as ([] & _ & Hv). apply bind_ok in Hv as (d & Hd & Hv%ensure_ok).
  bools. by rewrite Hv.
Qed.

(** C26. A restart repeats nothing and forgets nothing: after a service has opened, no commit
    is under way and no capture is kept; and every upload that reached the workspace under
    the services before it is in memory as committed or unknown, with the path, the size
    and the digest of what was published, or was retired by a barrier. *)
Theorem restart_knows_uploads es path c g s :
  Forall served_event es -> canonical (allocation_id c) = true ->
  steps es new_workspace = Stopped g -> step (Open path c) (Stopped g) = Serving s ->
  let t := transfers (engine s) in
  context t = c /\ captures s = ∅ /\ (forall id r, receipts t !! id = Some r -> f_state r <> Files.CommitIntent) /\
  forall id p b, (id, p, b) ∈ published (trace (world (Serving s))) ->
    RunnerLaws.floor_of (barrier t) id = true \/
    exists r, receipts t !! id = Some r /\ (f_state r = Files.Committed \/ f_state r = Files.Unknown) /\
      describes r id p b.
Proof.
  intros Hes Hc Hg Ho t. pose proof (workspace_reachable_ok es Hes) as Hok. rewrite Hg in Hok.
  pose proof (open_ok path c g Hc Hok) as Hop. cbn in Ho. destruct (open path c g) as [g' [s'|]]; [|done].
  injection Ho as ->. destruct Hop as [_ [[He Hcx [_ Hf] Hset] Hcap]]. split_and!; [done..|].
  intros id p b Hin. destruct (wo_record _ (eo_world _ _ He) _ _ _ Hin) as [Hci Hrec].
  rewrite <- (eo_floor _ _ He Hf). destruct (RunnerLaws.floor _ id) eqn:Hfl; [by left|right].
  destruct (Hrec eq_refl) as (r & Hr & Hw & Hd). destruct (eo_known _ _ He Hf id Hci Hfl) as [r' Hr']; [by eexists|].
  destruct (eo_filed _ _ He Hf _ _ Hr') as [Hfr _]. assert (r' = r) as -> by congruence.
  exists r. split_and!; [done| |done]. specialize (Hset id r Hr'). destruct (f_state r); try done; by auto.
Qed.

(** What the file service retains is bounded: at most 128 receipts, whose declared sizes
    sum up to at most 64 MiB; at most eight captures, each of at most 8 MiB, with exactly
    one download permit taken for each, whatever fails or expires. *)
Theorem file_service_bounded es s :
  Forall served_event es -> steps es new_workspace = Serving s ->
  let t := transfers (engine s) in
  Z.of_nat (size (receipts t)) <= 128 /\ Transfers.reserved (receipts t) <= 64 * 1024 * 1024 /\
  Z.of_nat (size (captures s)) <= 8 /\ downloads t = Z.of_nat (size (captures s)) /\
  forall id c, captures s !! id = Some c ->
    strlen (d_bytes (bytes_ c)) <= 8 * 1024 * 1024 /\ fw.c_size (descriptor c) = strlen (d_bytes (bytes_ c)) /\
    fw.c_sha256 (descriptor c) = sha256 (d_bytes (bytes_ c)).
Proof.
  intros Hes Hs t. pose proof (reachable_service es s Hes Hs) as [He Hp Hb Hc].
  split_and!; [apply He|apply He|done|done|]. intros id c Hid. by destruct (Hc id c Hid).
Qed.

(** ** What the reader of a capture is told *)

Context `{Serde FileDownloads.ReadScope}.

Lemma handle_of_capture h id c :
  validate_handle h = Ok id -> capture_ok id c -> fw.h_sha256 h = fw.c_sha256 (descriptor c) ->
  validate_capture (descriptor c) = Ok tt -> FileWire.handle (descriptor c) = Ok h.
Proof.
  intros Hh Hc Hs Hv. unfold FileWire.handle. rewrite Hv. cbn. f_equal. destruct h as [i d]. cbn in *. subst d.
  f_equal. rewrite (cp_id _ _ Hc). unfold validate_handle in Hh. apply bind_ok in Hh as ([] & _ & Hp). cbn in Hp.
  by apply map_err_ok, parse_ok in Hp as [-> _].
Qed.

Lemma read_request_capture r now sc dh c :
  FileDownloads.read_request r now = Ok sc -> FileDownloads.dr_handle r = Some dh ->
  FileDownloads.h_capture dh = Some c -> validate_capture c = Ok tt /\ FileDownloads.dr_offset r <= fw.c_size c.
Proof.
  unfold FileDownloads.read_request, FileDownloads.handle. intros Hr Hdh Hc. rewrite Hdh in Hr. inv_ok.
  simplify_eq. bools. by split.
Qed.

(** A reader can rely on what the guest hands out: a chunk that the service answers is the
    asked part of bytes that were captured once and do not change, and whose size and digest
    the capture's descriptor states; and a supervisor's reader that asked for it with that
    descriptor accepts the chunk as the answer. *)
Theorem guest_chunks_pass_the_reader es s v s' k :
  Forall served_event es -> steps es new_workspace = Serving s -> 0 <= fw.r_offset v ->
  call (ReadFile v) s = (s', Ok (FileChunk k)) ->
  exists id c, captures s' !! id = Some c /\
    Transfers.chunk (bytes_ c) (fw.r_offset v) (fw.limit v) = Ok (fw.k_data k) /\
    fw.c_size (descriptor c) = strlen (d_bytes (bytes_ c)) /\ fw.c_sha256 (descriptor c) = sha256 (d_bytes (bytes_ c)) /\
    forall r dh o now simulated sc,
      FileDownloads.dr_handle r = Some dh -> FileDownloads.h_capture dh = Some (descriptor c) ->
      FileDownloads.dr_offset r = fw.r_offset v -> FileDownloads.dr_limit r = fw.limit v ->
      FileDownloads.read_request r now = Ok sc ->
      FileDownloads.observation (FileDownloads.dr_scope_json r) o simulated now = Ok tt ->
      FileDownloads.ao_result o = Some (FileDownloads.Chunk k) ->
      FileDownloads.chunk r o simulated now = Ok k.
Proof.
  intros Hes Hs Hoff Hx. assert (Ht : wire_typed (ReadFile v) = true) by by apply Z.leb_le.
  destruct (call_answered es s _ s' _ Hes Hs Ht Hx) as [Hok (v' & h & id & c & Heq & Hh & Hv & Hc & Hsha & Hle & ->)].
  injection Heq as <-. pose proof (so_captures _ Hok _ _ Hc) as Hcap. exists id, c.
  unfold validate_read in Hv. rewrite Hh in Hv. apply bind_ok in Hv as (h' & Hh' & Hv). apply ok_or_ok in Hh' as [= <-].
  apply bind_ok in Hv as (i & Hi & Hv). apply bind_ok in Hv as ([] & Hlim%ensure_ok & [= ->]). bools.
  split_and!; [done| |apply Hcap|apply Hcap|].
  - unfold Transfers.chunk, Transfers.download_size. rewrite (proj2 (Z.leb_le _ _) Hle).
    match goal with Hl : contains 1 _ _ = true |- _ => rewrite Hl end. done.
  - intros r dh o now simulated sc Hdh Hcp Hro Hrl Hreq Hobs Hres.
    destruct (read_request_capture r now sc dh _ Hreq Hdh Hcp) as [Hvc _].
    unfold FileDownloads.chunk. rewrite Hreq. cbn. rewrite Hobs. cbn. rewrite Hdh. cbn. rewrite Hcp. cbn. rewrite Hres.
    rewrite (handle_of_capture h id c) by done. cbn.
    match goal with Hl : contains 1 _ _ = true |- _ => apply contains_spec in Hl end.
    assert (Hlen : strlen (part v c) = Z.min (fw.c_size (descriptor c) - fw.r_offset v) (fw.limit v)).
    { unfold part, strlen. rewrite (cp_size _ _ Hcap). unfold strlen in *. rewrite Chunks.prefix_length, Chunks.drop_length. lia. }
    rewrite Hro, Hrl, <- Hlen. rewrite bool_decide_eq_true_2 by done. rewrite !Z.eqb_refl, eqb_reflx. done.
Qed.
End machine.
