(* ===== verification/FileSample.v ===== *)
(** * The file service's theorems at a concrete service

    A service opens on an empty workspace, takes an upload in two chunks and commits it; the
    agent dies and another opens; the file is captured and read. *)

From S2P Require Import Prelude Ext Ids GuestModel GuestWire FileWire GuestEnv FileLaws FileInv FileService FileServed FileTheorems.
From S2P Require Files History RunnerLaws RunnerSample Transfers FileDownloads.
Import Ref.
Import Transfers(transfers, disk, receipts, d_bytes).
#[local] Existing Instances RunnerSample.id_codec RunnerSample.context_codec RunnerSample.binding_codec
  RunnerSample.binding_serde RunnerSample.calm_env Files.State_eq_dec.

(** ** Serialization *)

#[export] Program Instance state_codec : Codec Files.State := codec_inj
  Files.file_state_number (fun n => match file_state_of_number n with Ok s => Some s | Err _ => None end) _.
Next Obligation. by intros []. Qed.
#[export] Program Instance upload_codec : Codec Files.Upload := codec_inj
  (fun u => (Files.u_operation_id u, Files.u_path u, Files.u_size u, Files.u_sha256 u, Files.u_mode u))
  (fun t => let '(i, p, s, h, m) := t in
    Some {| Files.u_operation_id := i; Files.u_path := p; Files.u_size := s; Files.u_sha256 := h; Files.u_mode := m |}) _.
Next Obligation. by intros []. Qed.
#[export] Program Instance receipt_codec : Codec Files.Receipt := codec_inj
  (fun r => (Files.f_version r, Files.f_context r, Files.f_upload r, Files.f_digest r, Files.f_state r))
  (fun t => let '(v, c, u, d, s) := t in
    Some {| Files.f_version := v; Files.f_context := c; Files.f_upload := u; Files.f_digest := d; Files.f_state := s |}) _.
Next Obligation. by intros []. Qed.
#[export] Program Instance scope_codec : Codec FileDownloads.ReadScope := codec_inj
  (fun s => (FileDownloads.version s, FileDownloads.host_id s, FileDownloads.host_epoch s, FileDownloads.project_id s,
             FileDownloads.sandbox_id s, FileDownloads.s_allocation_id s, FileDownloads.s_generation s))
  (fun t => let '(v, h, e, p, s, a, g) := t in
    Some {| FileDownloads.version := v; FileDownloads.host_id := h; FileDownloads.host_epoch := e;
            FileDownloads.project_id := p; FileDownloads.sandbox_id := s; FileDownloads.s_allocation_id := a;
            FileDownloads.s_generation := g |}) _.
Next Obligation. by intros []. Qed.
#[export] Instance upload_serde : Serde Files.Upload := serde (fun _ => true).
#[export] Instance receipt_serde : Serde Files.Receipt := serde file_typed.
#[export] Instance scope_serde : Serde FileDownloads.ReadScope := serde (fun _ => true).
#[export] Instance file_serde : FileSerde.
Proof.
  split.
  - intros b x Hx. by apply (from_to (SerdeLaws := serde_laws (fun _ : History.Binding => true)) b x).
  - intros r x Hr Hx. by apply (from_to (SerdeLaws := serde_laws file_typed) r x).
  - intros x r. apply (from_representable (SerdeLaws := serde_laws file_typed)).
Qed.

(** ** The outside: the workspace holds what was published to it *)

Definition workspace_file (t : list action) (path : string) : option bytes :=
  snd <$> List.find (fun x => bool_decide (x.1 = path)) ((fun x => (x.1.2, x.2)) <$> published t).
#[export] Instance calm_workspace : Transfers.WorkspaceEnv := {|
  Transfers.directory_found _ _ := true;
  Transfers.version_answer t path := (fun c => (strlen c, 0)) <$> workspace_file t path;
  Transfers.read_answer t path := default "" (workspace_file t path);
  Transfers.stamp_answer _ _ := 0;
  Transfers.replaceable _ _ := true
|}.
#[export] Instance calm_service : ServiceEnv :=
  {| instant_answer _ := 0; worker_free _ := true; worker_late _ := false |}.

(** ** The service *)

Definition sample_context : Context := RunnerSample.sample_context.
Definition content : bytes := "fn main".
Definition sample_upload : Files.Upload := {|
  Files.u_operation_id := sample_id 7; Files.u_path := "src/main.rs"; Files.u_size := 7;
  Files.u_sha256 := sha256 content; Files.u_mode := Files.MODE_ORDINARY
|}.
Definition sample_operation : fw.FileOperation :=
  {| fw.o_operation_id := to_string (sample_id 7 : OperationId);
     fw.digest := match Files.upload_digest sample_upload with Ok d => d | Err _ => "" end |}.
Definition opening : event := Open "/work" sample_context.
Definition begin_ : Action := BeginUpload (from_upload sample_upload).
Definition write (offset : Z) (data : bytes) : Action :=
  WriteFile {| fw.operation := Some sample_operation; fw.offset := offset; fw.data := data |}.
Definition commit_ : Action := CommitUpload sample_operation.

Definition upload_events : list event :=
  [opening; Call begin_; Call (write 0 "fn m"); Call (write 2 " main"); Call commit_].
Definition staged_events : list event := [opening; Call begin_; Call (write 0 "fn m")].
Definition again_events : list event := upload_events ++ [Call commit_; Die; opening; Call begin_; Call commit_].
Definition captured_events : list event := upload_events ++ [Call (CaptureFile "src/main.rs")].
Abbreviation uploaded_ := (steps upload_events new_workspace).

(** A closed equation of evaluated runs, left to the kernel's virtual machine. *)
Local Ltac evaluated := lazymatch goal with |- _ = ?b => vm_cast_no_check (@eq_refl _ b) end.

Lemma opening_ok : served_event opening.
Proof. change (canonical (allocation_id sample_context) = true). evaluated. Qed.
Local Ltac plain := repeat (apply Forall_cons; split; [first [exact opening_ok|exact I|cbn [served_event]; evaluated]|]); by apply Forall_nil.
Lemma upload_ok : Forall served_event upload_events.
Proof. plain. Qed.
Lemma staged_ok : Forall served_event staged_events.
Proof. plain. Qed.
Lemma again_ok : Forall served_event again_events.
Proof. apply Forall_app; split; [exact upload_ok|plain]. Qed.
Lemma captured_ok : Forall served_event captured_events.
Proof. apply Forall_app; split; [exact upload_ok|plain]. Qed.

Example publishes_well : published (trace (world uploaded_)) = [(sample_id 7, "src/main.rs", content)].
Proof. evaluated. Qed.

Lemma upload_published_at_most_once_witness :
  published_ids (steps again_events new_workspace) = [sample_id 7] /\
  NoDup (published_ids (steps again_events new_workspace)).
Proof. split; [evaluated|]. exact (upload_published_at_most_once again_events again_ok). Defined.

(** *** Answers *)

Definition service_of (m : Machine) : option Service := match m with Serving s => Some s | Stopped _ => None end.
Lemma serving m : is_some (service_of m) = true -> exists s, m = Serving s.
Proof. destruct m as [s|g]; [by exists s|done]. Qed.
Definition answer_of (m : Machine) (a : Action) : option Answer :=
  s ← service_of m; match (call a s).2 with Ok x => Some x | Err _ => None end.
Lemma answers m a (f : Answer -> bool) :
  is_some_and f (answer_of m a) = true ->
  exists s s' x, m = Serving s /\ call a s = (s', Ok x) /\ f x = true.
Proof.
  unfold answer_of. destruct m as [s|g]; cbn; [|done]. destruct (call a s) as [s' [x|e]] eqn:Hc; cbn; [|done].
  intros Hf. by exists s, s', x.
Qed.
Definition is_receipt (s : Files.State) (x : Answer) : bool :=
  match x with FileReceipt v => fw.state v =? Files.file_state_number s | _ => false end.
Definition is_chunk (x : Answer) : bool := match x with FileChunk _ => true | _ => false end.

Lemma state_decodes v r s : is_receipt s (FileReceipt v) = true -> try_file_receipt v = Ok r -> Files.f_state r = s.
Proof.
  intros Hs (-> & _)%file_receipt_wire_exact. apply Z.eqb_eq in Hs. cbn in Hs. destruct (Files.f_state r), s; done.
Qed.

Lemma upload_receipts_tell_the_truth_witness : exists s v r c,
  uploaded_ = Serving s /\ try_file_receipt v = Ok r /\ Files.f_state r = Files.Committed /\
  strlen c = Files.u_size (Files.f_upload r) /\ sha256 c = Files.u_sha256 (Files.f_upload r).
Proof.
  destruct (answers uploaded_ (InspectUpload sample_operation) (is_receipt Files.Committed)) as (s & s' & x & Hs & Hx & Hr);
    [evaluated|]. destruct x as [v|p|c|k|h]; try discriminate Hr.
  destruct (upload_receipts_tell_the_truth upload_events s (InspectUpload sample_operation) s' v upload_ok Hs eq_refl Hx) as (r & Hv & _ & Hc & _).
  pose proof (state_decodes v r Files.Committed Hr Hv) as Hst. destruct (Hc Hst) as (c & Hl & Hsha & _).
  exists s, v, r, c. exact (conj Hs (conj Hv (conj Hst (conj Hl Hsha)))).
Defined.

Lemma begin_answer_matches_upload_witness : exists s v r,
  steps [opening] new_workspace = Serving s /\ try_file_receipt v = Ok r /\ Files.u_path (Files.f_upload r) = "src/main.rs".
Proof.
  destruct (answers (steps [opening] new_workspace) begin_ (is_receipt Files.Staging)) as (s & s' & x & Hs & Hx & Hr);
    [evaluated|]. destruct x as [v|p|c|k|h]; try discriminate Hr.
  assert (Hok : Forall served_event [opening]) by plain.
  destruct (begin_answer_matches_upload [opening] s (from_upload sample_upload) s' v Hok Hs) as (u & r & Hu & Hv & Heq & _);
    [by apply Z.leb_le|exact Hx|].
  exists s, v, r. split; [exact Hs|]. split; [exact Hv|]. rewrite Heq. apply upload_wire_exact in Hu as (Hu & _).
  symmetry. exact (f_equal fw.path Hu).
Defined.

Definition died_events : list event := upload_events ++ [Die].
Lemma died_ok : Forall served_event died_events.
Proof. apply Forall_app; split; [exact upload_ok|plain]. Qed.
Lemma stopped m : is_none (service_of m) = true -> exists g, m = Stopped g.
Proof. destruct m as [s|g]; [done|by exists g]. Qed.
Lemma steps_snoc es e m : steps (es ++ [e]) m = step e (steps es m).
Proof. unfold steps. by rewrite foldl_app. Qed.
Abbreviation restarted_ := (steps (died_events ++ [opening]) new_workspace).
Lemma restarted_published : published (trace (world restarted_)) = [(sample_id 7, "src/main.rs", content)].
Proof. evaluated. Qed.
Lemma restarted_floor s : restarted_ = Serving s -> RunnerLaws.floor_of (Transfers.barrier (transfers (engine s))) (sample_id 7) = false.
Proof.
  assert (Hf : match restarted_ with Serving s => negb (RunnerLaws.floor_of (Transfers.barrier (transfers (engine s))) (sample_id 7))
    | _ => false end = true) by evaluated. intros Hs. rewrite Hs in Hf. by apply negb_true_iff.
Qed.
Lemma restart_knows_uploads_witness : exists s r,
  restarted_ = Serving s /\ receipts (transfers (engine s)) !! sample_id 7 = Some r /\
  Files.u_size (Files.f_upload r) = strlen content.
Proof.
  destruct (stopped (steps died_events new_workspace)) as [g Hg]; [evaluated|].
  destruct (serving restarted_) as [s Hs]; [evaluated|]. exists s.
  assert (Hstep : step opening (Stopped g) = Serving s).
  { rewrite <- Hg, <- Hs. symmetry. apply steps_snoc. }
  destruct (restart_knows_uploads died_events "/work" sample_context g s died_ok opening_ok Hg Hstep) as (_ & _ & _ & Hall).
  destruct (Hall (sample_id 7) "src/main.rs" content) as [Hf|(r & Hr & _ & Hd)].
  - rewrite <- Hs, restarted_published. by apply list_elem_of_singleton.
  - rewrite (restarted_floor s Hs) in Hf. discriminate Hf.
  - exists r. exact (conj Hs (conj Hr (proj1 (proj2 (proj2 Hd))))).
Defined.

Lemma file_service_bounded_witness : exists s,
  steps captured_events new_workspace = Serving s /\ size (captures s) = 1%nat /\
  Transfers.downloads (transfers (engine s)) = Z.of_nat (size (captures s)).
Proof.
  assert (Hone : match steps captured_events new_workspace with Serving s => bool_decide (size (captures s) = 1%nat) | _ => false end = true)
    by evaluated.
  destruct (serving (steps captured_events new_workspace)) as [s Hs]; [evaluated|]. exists s.
  rewrite Hs in Hone. apply bool_decide_eq_true_1 in Hone.
  destruct (file_service_bounded captured_events s captured_ok Hs) as (_ & _ & _ & Hd & _). exact (conj Hs (conj Hone Hd)).
Defined.

(** *** Chunks *)

Lemma write_chunk_only_appends_witness : exists s e' c,
  steps staged_events new_workspace = Serving s /\ Chunks.staged (engine s) (sample_id 7) = Some "fn m" /\
  Transfers.write_chunk (sample_id 7) 2 " main" (engine s) = (e', Ok 7) /\
  Chunks.staged e' (sample_id 7) = Some c /\ strlen c = 7 /\ prefix 5 (drop_bytes 2 c) = " main".
Proof.
  destruct (serving (steps staged_events new_workspace)) as [s Hs]; [evaluated|].
  assert (Hw : match steps staged_events new_workspace with
    | Serving s => bool_decide (Chunks.staged (engine s) (sample_id 7) = Some "fn m")
        && match (Transfers.write_chunk (sample_id 7) 2 " main" (engine s)).2 with Ok n => n =? 7 | Err _ => false end
    | _ => false end = true) by evaluated.
  rewrite Hs in Hw. apply andb_true_iff in Hw as [Hb Hw].
  destruct (Transfers.write_chunk (sample_id 7) 2 " main" (engine s)) as [e' [n|x]] eqn:He; [|discriminate Hw].
  apply Z.eqb_eq in Hw as ->.
  destruct (Chunks.write_chunk_only_appends (sample_id 7) 2 " main" (engine s) e' (Ok 7) ltac:(lia) He) as [_ Hc].
  destruct (Hc 7 eq_refl) as (r & c & _ & _ & Hst & Hn & _ & Hp). exists s, e', c.
  exact (conj Hs (conj (bool_decide_eq_true_1 _ Hb) (conj He (conj Hst (conj (eq_sym Hn) Hp))))).
Defined.

Definition sample_download : Transfers.Download := {| d_bytes := content; Transfers.d_sha256 := sha256 content |}.
Lemma download_reassembles_witness :
  Forall (fun l => 1 <= l <= Files.MAX_CHUNK_BYTES) [3; 2; 32768] /\
  Chunks.fetch sample_download 0 [3; 2; 32768] = Ok content.
Proof.
  assert (Hl : Forall (fun l => 1 <= l <= Files.MAX_CHUNK_BYTES) [3; 2; 32768]) by (repeat constructor; discriminate).
  split; [exact Hl|]. apply (Chunks.download_reassembles sample_download [3; 2; 32768] Hl). discriminate.
Defined.

Abbreviation captured_ := (steps captured_events new_workspace).
Definition first_handle (m : Machine) : option fw.FileHandle :=
  s ← service_of m; c ← head (map_to_list (captures s)).*2;
  Some {| fw.h_capture_id := fw.capture_id (descriptor c); fw.h_sha256 := fw.c_sha256 (descriptor c) |}.
Definition sample_read : fw.ReadFile :=
  {| fw.handle := Some (default {| fw.h_capture_id := ""; fw.h_sha256 := "" |} (first_handle captured_));
     fw.r_offset := 3; fw.limit := 2 |}.

Definition NOW : Z := RunnerSample.NOW.
Definition sample_scope : FileDownloads.ReadScope := {|
  FileDownloads.version := 1; FileDownloads.host_id := sample_id 1; FileDownloads.host_epoch := 3;
  FileDownloads.project_id := sample_id 2; FileDownloads.sandbox_id := sample_id 3;
  FileDownloads.s_allocation_id := sample_id 4; FileDownloads.s_generation := 1
|}.
Definition reader_handle (c : Capture) : FileDownloads.FileDownloadHandle := {|
  FileDownloads.h_id := to_string (sample_id 70 : OperationId);
  FileDownloads.h_context := Some (from_context sample_context);
  FileDownloads.h_capture := Some (descriptor c); FileDownloads.h_expires_unix_ms := NOW + 60000
|}.
Definition reader_request (c : Capture) : FileDownloads.FileDownloadRequest := {|
  FileDownloads.dr_scope_json := enc sample_scope; FileDownloads.dr_handle := Some (reader_handle c);
  FileDownloads.dr_offset := 3; FileDownloads.dr_limit := 2; FileDownloads.dr_expires_unix_ms := NOW + 1000
|}.
Definition reader_observation (k : fw.FileChunk) : FileDownloads.FileAccessObservation := {|
  FileDownloads.ao_scope_json := enc sample_scope; FileDownloads.ao_simulated := false;
  FileDownloads.ao_observed_unix_ms := NOW; FileDownloads.ao_result := Some (FileDownloads.Chunk k)
|}.
Definition requests_fine (s : Service) : bool :=
  forallb (fun x => match FileDownloads.read_request (reader_request x.2) NOW with Ok _ => true | Err _ => false end) (map_to_list (captures s)).
Lemma request_fine s id c :
  requests_fine s = true -> captures s !! id = Some c ->
  exists sc, FileDownloads.read_request (reader_request c) NOW = Ok sc.
Proof.
  unfold requests_fine. rewrite forallb_forall. intros Hall Hc. specialize (Hall (id, c)). cbn [snd] in Hall.
  destruct (FileDownloads.read_request (reader_request c) NOW) as [sc|]; [by exists sc|].
  discriminate Hall. by apply list_elem_of_In, elem_of_map_to_list.
Qed.

Lemma guest_chunks_pass_the_reader_witness : exists s k c,
  captured_ = Serving s /\ fw.k_data k = "ma" /\
  FileDownloads.chunk (reader_request c) (reader_observation k) false NOW = Ok k.
Proof.
  assert (Hf : match captured_ with Serving s => requests_fine (call (ReadFile sample_read) s).1 | _ => false end = true) by evaluated.
  destruct (answers captured_ (ReadFile sample_read) (fun x => match x with FileChunk k => bool_decide (fw.k_data k = "ma") | _ => false end))
    as (s & s' & x & Hs & Hx & Hk); [evaluated|]. destruct x as [v|p|c|k|h]; try discriminate Hk.
  rewrite Hs, Hx in Hf. cbn [fst] in Hf.
  destruct (guest_chunks_pass_the_reader captured_events s sample_read s' k captured_ok Hs ltac:(discriminate) Hx)
    as (id & c & Hc & _ & _ & _ & Hall).
  destruct (request_fine s' id c Hf Hc) as [sc Hreq]. exists s, k, c. split; [exact Hs|].
  split; [exact (bool_decide_eq_true_1 _ Hk)|].
  refine (Hall (reader_request c) (reader_handle c) (reader_observation k) NOW false sc _ _ _ _ Hreq _ _); reflexivity.
Defined.

Lemma file_receipt_wire_exact_witness : exists r, try_file_receipt (from_file_receipt r) = Ok r.
Proof.
  exists {| Files.f_version := 1; Files.f_context := sample_context; Files.f_upload := sample_upload;
            Files.f_digest := fw.digest sample_operation; Files.f_state := Files.Unknown |}.
  apply file_receipt_wire_exact. repeat split; evaluated.
Defined.
