(* ===== verification/GuardianLaws.v ===== *)
(** * Reasoning about the guardian's machine

    [calm g g']: what calls that are not about the receipt, the manifest, the lock, the group
    or the ledger do to a machine, whatever the other processes do between them. [calmly m Q g]:
    whatever fails, [m] run from [g] is calm, and when it succeeds [Q] holds. *)

From S2P Require Import Prelude Ext Ids Guardian GuardianEnv GuardianOps.
From S2P Require Runner RunnerLaws Lease.
Import Runner(extension).
Import RunnerLaws(name_extension).

(** ** What matters of a directory *)

Definition essence : Type := option node * option node * bool.
Definition ess (v : gmap string node) : essence := (v !! RECEIPT, v !! MANIFEST, is_some (v !! LOCK)).
#[global] Arguments ess : simpl never.
(** The directory as processes see it, and what a crash may make of it. *)
Definition views (g : Machine) : list (gmap string node) :=
  match home g with Some v => v :: earlier g | None => earlier g end.

Definition essential (n : string) : Prop := n = RECEIPT \/ n = MANIFEST \/ n = LOCK.
Lemma ess_insert v n x : ~ essential n -> ess (<[n := x]> v) = ess v.
Proof.
  unfold essential, ess. intros Hn. rewrite !lookup_insert_ne; [done|naive_solver..].
Qed.
Lemma ess_delete v n : ~ essential n -> ess (delete n v) = ess v.
Proof.
  unfold essential, ess. intros Hn. rewrite !lookup_delete_ne; [done|naive_solver..].
Qed.
Lemma ess_alter v n f : ~ essential n -> ess (alter f n v) = ess v.
Proof.
  unfold essential, ess. intros Hn. rewrite !lookup_alter_ne; [done|naive_solver..].
Qed.

Lemma tmp_not_essential `{UuidLib} (i : OperationId) : ~ essential (to_string i +:+ ".tmp").
Proof.
  assert (extension (to_string i +:+ ".tmp") = Some "tmp") as He by exact (name_extension i "tmp" eq_refl).
  unfold essential. intros [Hn|[Hn|Hn]]; rewrite Hn in He; by vm_compute in He.
Qed.
Lemma run_not_essential s : ~ essential ("run/" +:+ s).
Proof. unfold essential. intros [Hn|[Hn|Hn]]; done. Qed.
Lemma plain_not_essential n : n <> RECEIPT -> n <> MANIFEST -> n <> LOCK -> ~ essential n.
Proof. unfold essential. tauto. Qed.

(** ** Calm changes *)

(** The jailer may have joined its group, and the group's processes may have ended. *)
Definition same_inode (a b : Group) : Prop := g_inode a = g_inode b.
Record grown (j : bool) (x : option Group) (j' : bool) (x' : option Group) : Prop := {
  gr_jailing : j' = true -> j = true;
  gr_alone : j = false -> match x, x' with
    | None, None => True
    | Some a, Some b => g_inode b = g_inode a /\ (populated b = true -> populated a = true)
    | _, _ => False
    end;
  gr_joined : forall a, j = true -> x = Some a -> exists b, x' = Some b /\ g_inode b = g_inode a;
}.
(** The watchdog may have fenced the deadline. *)
Definition dulled (p p' : option Process) : Prop :=
  match p, p' with
  | None, None => True
  | Some p, Some p' => p' = p \/ p' = set_deadline p 0
  | _, _ => False
  end.

Definition speaks (a : action) : bool := match a with Launch _ _ | Lost => true | _ => false end.
Definition quiet (l : list action) : Prop := Forall (fun a => speaks a = false) l.

(** What is not about the directory. *)
Record minor (g g' : Machine) : Prop := {
  mi_boots : boots g' = boots g;
  mi_locked : locked g' = locked g;
  mi_group : grown (jailing g) (group g) (jailing g') (group g');
  mi_guardian : dulled (guardian g) (guardian g');
  mi_trace : exists l, trace g' = l ++ trace g /\ quiet l;
  mi_ledger : ledger g' = ledger g;
}.
Record calm (g g' : Machine) : Prop := {
  calm_views : forall v', v' ∈ views g' -> exists v, v ∈ views g /\ ess v' = ess v;
  calm_home : ess <$> home g' = ess <$> home g;
  calm_minor :> minor g g';
}.

Lemma grown_refl j x : grown j x j x.
Proof. split; [done| |by intros a _ ->; eauto]. intros _. by destruct x. Qed.
Lemma grown_trans j x j1 x1 j2 x2 : grown j x j1 x1 -> grown j1 x1 j2 x2 -> grown j x j2 x2.
Proof.
  intros [Ha Hb Hc] [Ha' Hb' Hc']. split; [auto| |].
  - intros ->. assert (j1 = false) as -> by (destruct j1; [symmetry; by apply Ha|done]).
    specialize (Hb eq_refl). specialize (Hb' eq_refl). destruct x, x1, x2; try done.
    destruct Hb as [Hi Hb], Hb' as [Hi' Hb']. split; [congruence|auto].
  - intros a -> Hx. destruct (Hc a eq_refl Hx) as (b & -> & <-). destruct j1.
    + destruct (Hc' b eq_refl eq_refl) as (c & -> & <-). by exists c.
    + specialize (Hb' eq_refl). destruct x2 as [c|]; [|done]. destruct Hb' as [<- _]. by exists c.
Qed.
Lemma dulled_refl p : dulled p p.
Proof. destruct p; cbn; auto. Qed.
Lemma dulled_trans p p1 p2 : dulled p p1 -> dulled p1 p2 -> dulled p p2.
Proof. destruct p, p1, p2; cbn; try done. intros [-> | ->] [-> | ->]; auto. Qed.
Lemma dulled_none p p' : dulled p p' -> p = None -> p' = None.
Proof. destruct p, p'; cbn; try done. Qed.

Lemma quiet_refl (t : list action) : exists l, t = l ++ t /\ quiet l.
Proof. exists []. split; [done|constructor]. Qed.
Lemma minor_refl g : minor g g.
Proof. split; try done; [apply grown_refl|apply dulled_refl|apply quiet_refl]. Qed.
Lemma minor_trans g1 g2 g3 : minor g1 g2 -> minor g2 g3 -> minor g1 g3.
Proof.
  intros H12 H23. split.
  - by rewrite (mi_boots _ _ H23), (mi_boots _ _ H12).
  - by rewrite (mi_locked _ _ H23), (mi_locked _ _ H12).
  - eapply grown_trans; [apply H12|apply H23].
  - eapply dulled_trans; [apply H12|apply H23].
  - destruct (mi_trace _ _ H12) as (l1 & Ht1 & Hq1), (mi_trace _ _ H23) as (l2 & Ht2 & Hq2).
    exists (l2 ++ l1). rewrite Ht2, Ht1, app_assoc. split; [done|by apply Forall_app].
  - by rewrite (mi_ledger _ _ H23), (mi_ledger _ _ H12).
Qed.
(** Only the directory, or what was logged, differs. *)
Lemma minor_same g g' :
  boots g' = boots g -> locked g' = locked g -> jailing g' = jailing g -> group g' = group g ->
  guardian g' = guardian g -> trace g' = trace g -> ledger g' = ledger g -> minor g g'.
Proof.
  intros Hb Hl Hj Hx Hg Ht Hw. split; [done|done| | | |done].
  - rewrite Hj, Hx. apply grown_refl.
  - rewrite Hg. apply dulled_refl.
  - rewrite Ht. apply quiet_refl.
Qed.
Lemma machine_calm_refl g : calm g g.
Proof. split; [eauto|done|apply minor_refl]. Qed.
Lemma machine_calm_trans g1 g2 g3 : calm g1 g2 -> calm g2 g3 -> calm g1 g3.
Proof.
  intros H12 H23. split; [| |eapply minor_trans; by eapply calm_minor].
  - intros v Hv. destruct (calm_views _ _ H23 v Hv) as (v2 & Hv2 & ->). by apply (calm_views _ _ H12).
  - by rewrite (calm_home _ _ H23), (calm_home _ _ H12).
Qed.

Lemma machine_calm_record g a : speaks a = false -> calm g (record g a).
Proof.
  intros Ha. split; [eauto|done|]. split; try done; [apply grown_refl|apply dulled_refl|].
  exists [a]. split; [done|by repeat constructor].
Qed.
Lemma views_home g h : views (set_home g (Some h)) = h :: earlier g.
Proof. done. Qed.
Lemma in_views g v : home g = Some v -> v ∈ views g.
Proof. intros Hh. unfold views. rewrite Hh. left. Qed.
Lemma in_earlier g v : v ∈ earlier g -> v ∈ views g.
Proof. intros Hv. unfold views. destruct (home g); [by right|done]. Qed.
(** The names changed, but not what matters. *)
Lemma calm_home_update g v v' : home g = Some v -> ess v' = ess v -> calm g (set_home g (Some v')).
Proof.
  intros Hh He. split; [| |by apply minor_same].
  - intros x [-> | Hx]%elem_of_cons; [|by exists x; split; [apply in_earlier|]]. exists v. split; [by apply in_views|done].
  - cbn. by rewrite Hh; cbn; rewrite He.
Qed.
Lemma calm_rename g v v' : home g = Some v -> ess v' = ess v -> calm g (rename_to g v').
Proof.
  intros Hh He. unfold rename_to. rewrite Hh. split; [| |by apply minor_same].
  - intros x [-> | Hx]%elem_of_cons.
    + exists v. split; [by apply in_views|done].
    + cbn in Hx. exists x. split; [|done]. apply elem_of_cons in Hx as [-> | Hx]; [by apply in_views|by apply in_earlier].
  - cbn. by rewrite Hh; cbn; rewrite He.
Qed.
Lemma calm_update g n f : ~ essential n -> calm g (update n f g).
Proof.
  intros Hn. unfold update. destruct (home g) as [v|] eqn:Hh; cbn.
  - eapply calm_home_update; [done|by apply ess_alter].
  - destruct g; cbn in *. subst. apply machine_calm_refl.
Qed.

Section calls.
Context `{GuardianEnv}.

Lemma calm_move mv g : calm g (move_of mv g).
Proof.
  destruct mv; cbn.
  - destruct (jailing g) eqn:Hj; [|apply machine_calm_refl].
    assert (forall g', home g' = home g -> earlier g' = earlier g -> boots g' = boots g -> locked g' = locked g ->
              guardian g' = guardian g -> trace g' = trace g -> ledger g' = ledger g -> jailing g' = false ->
              (forall a, group g = Some a -> exists b, group g' = Some b /\ g_inode b = g_inode a) -> calm g g') as Hc.
    { intros g' Hh He Hb Hl Hg Ht Hw Hf Hx. split.
      - intros v Hv. exists v. unfold views in *. rewrite Hh, He in Hv. by split.
      - by rewrite Hh.
      - split; try done.
        + split; [by rewrite Hf|by rewrite Hj|]. intros a _. apply Hx.
        + rewrite Hg. apply dulled_refl.
        + rewrite Ht. apply quiet_refl. }
    destruct (group g) as [x|] eqn:Hx; apply Hc; cbn; try done. intros a [= ->]. by eexists.
  - split; [eauto|done|]. split; try done; [|apply dulled_refl|apply quiet_refl].
    split; [done| |].
    + intros _. cbn. destruct (group g); cbn; [|done]. by split.
    + intros a _ Ha. cbn. rewrite Ha. cbn. by eexists.
  - split; [eauto|done|]. split; try done; [apply grown_refl| |apply quiet_refl].
    cbn. destruct (guardian g) as [p|]; cbn; [|done].
    unfold Lease.expire, Lease.value. destruct (negb _ && _); [|by left; destruct p].
    rewrite Lease.compare_exchange_cases. case_decide; cbn; [by right|by left; destruct p].
Qed.
Lemma calm_stir g : calm g (stir g).
Proof. unfold stir. destruct (stirs (trace g)); [apply calm_move|apply machine_calm_refl]. Qed.
Lemma calm_stirred g a : speaks a = false -> calm g (record (stir g) a).
Proof. intros Ha. eapply machine_calm_trans; [apply calm_stir|by apply machine_calm_record]. Qed.

(** ** The judgement *)

Definition calmly {A} (m : M A) (Q : A -> Machine -> Prop) (g : Machine) : Prop :=
  calm g (m g).1 /\ forall a, (m g).2 = Ok a -> Q a (m g).1.

Lemma calmly_mono {A} (m : M A) (Q Q' : A -> Machine -> Prop) g :
  calmly m Q g -> (forall a g', calm g g' -> Q a g' -> Q' a g') -> calmly m Q' g.
Proof. intros [Hc HQ] Hi. split; [done|]. auto. Qed.
Lemma calmly_true {A} (m : M A) (Q : A -> Machine -> Prop) g : calmly m Q g -> calmly m (fun _ _ => True) g.
Proof. intros Hm. by eapply calmly_mono. Qed.
Lemma calmly_bind {A B} (m : M A) (k : A -> M B) (Q : B -> Machine -> Prop) g :
  calmly m (fun a g' => calm g g' -> calmly (k a) Q g') g -> calmly (m ≫= k) Q g.
Proof.
  unfold calmly, mbind, ST_bind. intros [Hc Hk]. destruct (m g) as [g' [a|e]]; cbn in *; [|by split].
  destruct (Hk a eq_refl Hc) as [Hc' HQ]. split; [by eapply machine_calm_trans|done].
Qed.
Lemma calmly_ret {A} (a : A) (Q : A -> Machine -> Prop) g : Q a g -> calmly (mret a : M A) Q g.
Proof. intros HQ. split; [apply machine_calm_refl|]. by intros ? [= <-]. Qed.
Lemma calmly_fail {A} e (Q : A -> Machine -> Prop) g : calmly (fail e : M A) Q g.
Proof. split; [apply machine_calm_refl|done]. Qed.
Lemma calmly_checked {A} (r : result anyhow A) (Q : A -> Machine -> Prop) g :
  (forall a, r = Ok a -> Q a g) -> calmly (checked r) Q g.
Proof.
  intros HQ. split; [apply machine_calm_refl|]. unfold checked, lift. cbn. destruct r as [a|e]; [|done].
  intros ? [= <-]. by apply HQ.
Qed.
Lemma calmly_syscall {A} (f : Machine -> result anyhow (Machine * A)) (Q : A -> Machine -> Prop) g :
  (forall g0, calm g g0 -> forall g' a, f g0 = Ok (g', a) -> calm g0 g' /\ Q a g') ->
  calmly (syscall f) Q g.
Proof.
  intros Hf. pose proof (calm_stirred g Syscall eq_refl) as Hs. unfold calmly, syscall.
  destruct (fault _); [by split|]. destruct (f _) as [[g' a]|e] eqn:Hr; [|by split].
  destruct (Hf _ Hs g' a Hr) as [Hc HQ]. split; [by eapply machine_calm_trans|]. by intros ? [= <-].
Qed.
Lemma calmly_ask {A} (a : action) (answer : list action -> A) (Q : A -> Machine -> Prop) g :
  speaks a = false -> (forall g', calm g g' -> Q (answer (trace (stir g))) g') -> calmly (ask a answer) Q g.
Proof.
  intros Ha HQ. pose proof (calm_stirred g a Ha) as Hc. split; [exact Hc|]. intros ? [= <-]. by apply HQ.
Qed.
Lemma calmly_attempt {A} (m : M A) (Q : result CleanupError A -> Machine -> Prop) g :
  calm g (m g).1 ->
  (forall g', calm g g' -> (m g).1 = g' -> (forall e, Q (Err e) g') /\ forall a, (m g).2 = Ok a -> Q (Ok a) g') ->
  calmly (attempt m) Q g.
Proof.
  intros Hm HQ. destruct (HQ _ Hm eq_refl) as [He Ho]. unfold calmly, attempt.
  destruct (m g) as [g' [a|[|e]]]; cbn in *; split; try done; intros ? [= <-]; auto.
Qed.

(** *** Calls *)

(** Calm wherever it is run from. *)
Definition tranquil {A} (m : M A) : Prop := forall g, calmly m (fun _ _ => True) g.

Lemma tranquil_bind {A B} (m : M A) (k : A -> M B) : tranquil m -> (forall a, tranquil (k a)) -> tranquil (m ≫= k).
Proof. intros Hm Hk g. apply calmly_bind. eapply calmly_mono; [apply Hm|]. intros a g' _ _ _. apply Hk. Qed.
Lemma tranquil_ret {A} (a : A) : tranquil (mret a : M A).
Proof. intros g. by apply calmly_ret. Qed.
Lemma tranquil_fail {A} e : tranquil (fail e : M A).
Proof. intros g. apply calmly_fail. Qed.
Lemma tranquil_checked {A} (r : result anyhow A) : tranquil (checked r : M A).
Proof. intros g. by apply calmly_checked. Qed.
Lemma tranquil_if {A} (b : bool) (m m' : M A) : tranquil m -> tranquil m' -> tranquil (if b then m else m').
Proof. by destruct b. Qed.
Lemma tranquil_attempt {A} (m : M A) : tranquil m -> tranquil (attempt m).
Proof. intros Hm g. apply calmly_attempt; [apply Hm|done]. Qed.
Lemma tranquil_ask {A} (a : action) (answer : list action -> A) : speaks a = false -> tranquil (ask a answer).
Proof. intros Ha g. by apply calmly_ask. Qed.
Lemma tranquil_syscall {A} (f : Machine -> result anyhow (Machine * A)) :
  (forall g g' a, f g = Ok (g', a) -> calm g g') -> tranquil (syscall f).
Proof. intros Hf g. apply calmly_syscall. intros g0 _ g' a Ha. split; [by eapply Hf|done]. Qed.
Lemma tranquil_unseen : tranquil unseen.
Proof. apply tranquil_syscall. intros g g' [] [= ->]. apply machine_calm_refl. Qed.

Lemma names_home g v : names g = Ok v -> home g = Some v.
Proof. apply ok_or_ok. Qed.

Lemma tranquil_create_new n : ~ essential n -> tranquil (create_new n).
Proof.
  intros Hn. apply tranquil_syscall. intros g g' [] Hf. apply bind_ok in Hf as (v & Hv%names_home & Hf).
  destruct (v !! n); [done|]. injection Hf as <-. eapply calm_rename; [done|]. by apply ess_insert.
Qed.
Lemma tranquil_write_all n b : ~ essential n -> tranquil (write_all n b).
Proof.
  intros Hn g. unfold write_all, calmly. pose proof (calm_stirred g Syscall eq_refl) as Hs.
  destruct (fault _); cbn; (split; [eapply machine_calm_trans; [exact Hs|by apply calm_update]|done]).
Qed.
Lemma tranquil_adjust n f : ~ essential n -> tranquil (adjust n f).
Proof. intros Hn. apply tranquil_syscall. intros g g' [] [= <-]. by apply calm_update. Qed.
Lemma tranquil_rename a b : ~ essential a -> ~ essential b -> tranquil (rename a b).
Proof.
  intros Ha Hb. apply tranquil_syscall. intros g g' [] Hf. apply bind_ok in Hf as (v & Hv%names_home & Hf).
  destruct (v !! a) as [x|]; [|done]. destruct (v !! b) as [[| |]|]; try done; injection Hf as <-;
    (eapply calm_rename; [done|]; by rewrite ess_insert, ess_delete).
Qed.
Lemma tranquil_folder n : ~ essential n -> tranquil (private_folder n).
Proof.
  intros Hn. apply tranquil_bind.
  - apply tranquil_syscall. intros g g' [] Hf. apply bind_ok in Hf as (v & Hv%names_home & [= <-]).
    destruct (v !! n); [apply machine_calm_refl|]. eapply calm_rename; [done|]. by apply ess_insert.
  - intros []. apply tranquil_bind; [by apply tranquil_ask|intros; apply tranquil_checked].
Qed.
Lemma tranquil_sync : tranquil sync_directory.
Proof.
  apply tranquil_syscall. intros g g' [] Hf. apply bind_ok in Hf as (v & Hv%names_home & [= <-]).
  split; [|done|by apply minor_same].
  unfold views. cbn. rewrite Hv. intros x Hx%list_elem_of_singleton. subst. exists v. split; [by left|done].
Qed.
Lemma tranquil_remove_there n : ~ essential n -> tranquil (remove_if_there n).
Proof.
  intros Hn. apply tranquil_syscall. intros g g' [] Hf. apply bind_ok in Hf as (v & Hv%names_home & Hf).
  destruct (v !! n) as [[| |]|]; try done; injection Hf as <-; try apply machine_calm_refl;
    (eapply calm_rename; [done|]; by apply ess_delete).
Qed.
Lemma tranquil_socket n : ~ essential n -> tranquil (bind_socket n).
Proof.
  intros Hn. apply tranquil_syscall. intros g g' [] Hf. apply bind_ok in Hf as (v & Hv%names_home & Hf).
  destruct (v !! n); [done|]. injection Hf as <-. eapply calm_rename; [done|]. by apply ess_insert.
Qed.
Lemma ess_filter (P : string * node -> Prop) `{forall x, Decision (P x)} v :
  (forall n x, essential n -> P (n, x)) -> ess (filter P v) = ess v.
Proof.
  intros HP. assert (forall n, essential n -> filter P v !! n = v !! n) as Hf.
  { intros n Hn. destruct (v !! n) as [x|] eqn:Hx.
    - apply map_lookup_filter_Some. split; [done|by apply HP].
    - apply map_lookup_filter_None. by left. }
  unfold ess, essential in *. rewrite !Hf by auto. done.
Qed.
Lemma tranquil_remove_run : tranquil remove_run.
Proof.
  intros g. unfold remove_run, calmly. pose proof (calm_stirred g Syscall eq_refl) as Hs.
  assert (forall keep : string -> bool, calm g (match home (stir g) with
    | Some v => rename_to (record (stir g) Syscall)
                  (filter (fun kv : string * node => below_run kv.1 = false \/ keep kv.1 = true) v)
    | None => record (stir g) Syscall end)) as Hk.
  { intros keep. destruct (home (stir g)) as [v|] eqn:Hh; [|done]. eapply machine_calm_trans; [exact Hs|].
    eapply calm_rename; [done|]. apply ess_filter. intros n x [-> | [-> | ->]]; by left. }
  destruct (fault _); cbn; (split; [|done]); [apply Hk|apply (Hk (fun _ => false))].
Qed.
Lemma tranquil_kill : tranquil kill_group.
Proof. apply tranquil_syscall. intros g g' [] [= <-]. by apply machine_calm_record. Qed.

(** Calls that answer about the machine as they leave it. *)
Lemma calmly_look {A} (f : Machine -> result anyhow A) (Q : A -> Machine -> Prop) g :
  (forall g' a, calm g g' -> f g' = Ok a -> Q a g') ->
  calmly (syscall (fun g => a ← f g; Ok (g, a))) Q g.
Proof.
  intros HQ. apply calmly_syscall. intros g0 Hc g' a Hf. apply bind_ok in Hf as (x & Hx & [= <- <-]).
  split; [apply machine_calm_refl|by apply HQ].
Qed.
Lemma calmly_boot_id (Q : string -> Machine -> Prop) g :
  (forall g', calm g g' -> Q (boot_id_of (boots g')) g') -> calmly boot_id Q g.
Proof. intros HQ. apply calmly_syscall. intros g0 Hc g' a [= <- <-]. split; [apply machine_calm_refl|by apply HQ]. Qed.
Lemma calmly_exists n (Q : bool -> Machine -> Prop) g :
  (forall b g', calm g g' -> (b = true -> exists v, home g' = Some v /\ is_Some (v !! n)) -> Q b g') ->
  calmly (exists_ n) Q g.
Proof.
  intros HQ. unfold exists_. set (look := syscall _).
  assert (calmly look (fun b g' => b = true -> exists v, home g' = Some v /\ is_Some (v !! n)) g) as [Hc Hl].
  { apply calmly_syscall. intros g0 _ g' b Hf. apply bind_ok in Hf as (v & Hv%names_home & [= <- <-]).
    split; [apply machine_calm_refl|]. intros Hb. exists v. split; [done|]. by destruct (v !! n). }
  apply calmly_bind, calmly_attempt; [done|]. intros g' Hg' Hg. split.
  - intros e Hc'. by apply calmly_ret, HQ.
  - intros b Hb Hc'. apply calmly_ret, HQ; [done|]. rewrite <- Hg. by apply Hl.
Qed.
Lemma calmly_count (Q : Z -> Machine -> Prop) g :
  (forall v g', calm g g' -> home g' = Some v ->
     Q (Z.of_nat (size (filter (fun kv : string * node => top_level kv.1 = true) v))) g') ->
  calmly count_entries Q g.
Proof.
  intros HQ. apply calmly_syscall. intros g0 Hc g' b Hf. apply bind_ok in Hf as (v & Hv%names_home & [= <- <-]).
  split; [apply machine_calm_refl|by apply HQ].
Qed.
Lemma calmly_read_file n (Q : FileNode -> Machine -> Prop) g :
  (forall v f g', calm g g' -> home g' = Some v -> v !! n = Some (File f) -> Q f g') -> calmly (read_file n) Q g.
Proof.
  intros HQ. apply calmly_syscall. intros g0 Hc g' f Hf. apply bind_ok in Hf as (v & Hv%names_home & Hf).
  destruct (v !! n) as [[x| |]|] eqn:Hn; try done. injection Hf as <- <-.
  split; [apply machine_calm_refl|by eapply HQ].
Qed.
Lemma calmly_read_json `{Serde A} n (Q : A -> Machine -> Prop) g :
  (forall v f a g', calm g g' -> home g' = Some v -> v !! n = Some (File f) -> from_slice (data f) = Some a -> Q a g') ->
  calmly (read_json n) Q g.
Proof.
  intros HQ. unfold read_json. apply calmly_bind, calmly_read_file. intros v f g' Hc Hh Hv _.
  apply calmly_bind, calmly_checked. intros [] _ _. apply calmly_checked. intros a Ha%ok_or_ok. by eapply HQ.
Qed.
Lemma calmly_group (Q : option Z -> Machine -> Prop) g :
  (forall g', calm g g' -> Q (g_inode <$> group g') g') -> calmly group_metadata Q g.
Proof. intros HQ. apply calmly_syscall. intros g0 Hc g' a [= <- <-]. split; [apply machine_calm_refl|by apply HQ]. Qed.
Lemma calmly_populated (Q : bool -> Machine -> Prop) g :
  (forall x g', calm g g' -> group g' = Some x -> Q (populated x) g') -> calmly is_populated Q g.
Proof.
  intros HQ. apply calmly_syscall. intros g0 Hc g' a Hf. apply bind_ok in Hf as (x & Hx%ok_or_ok & [= <- <-]).
  split; [apply machine_calm_refl|by apply HQ].
Qed.
Lemma calmly_await n (Q : unit -> Machine -> Prop) g :
  (forall x g', calm g g' -> group g' = Some x -> populated x = false -> Q tt g') -> calmly (await_empty n) Q g.
Proof.
  revert g. induction n as [|n IH]; intros g HQ; cbn; [by apply calmly_checked|].
  apply calmly_bind, calmly_populated. intros x g' Hc Hx _. destruct (populated x) eqn:Hp.
  - apply IH. intros y g2 Hc2. apply HQ. by eapply machine_calm_trans.
  - apply calmly_ret. by eapply HQ.
Qed.
Lemma tranquil_exists n : tranquil (exists_ n).
Proof. intros g. by apply calmly_exists. Qed.
Lemma tranquil_group_exists : tranquil group_exists.
Proof.
  unfold group_exists. apply tranquil_bind; [apply tranquil_attempt; intros g; by apply calmly_group|].
  intros a. apply tranquil_ret.
Qed.
Lemma tranquil_read_file n : tranquil (read_file n).
Proof. intros g. by apply calmly_read_file. Qed.
Lemma tranquil_read_json `{Serde A} n : tranquil (read_json n : M A).
Proof. intros g. by apply calmly_read_json. Qed.
Lemma tranquil_boot_id : tranquil boot_id.
Proof. intros g. by apply calmly_boot_id. Qed.
End calls.

Create HintDb calm.
#[export] Hint Resolve tranquil_bind tranquil_ret tranquil_fail tranquil_checked tranquil_if tranquil_attempt
  tranquil_unseen tranquil_create_new tranquil_write_all tranquil_adjust tranquil_rename tranquil_folder
  tranquil_sync tranquil_remove_there tranquil_socket tranquil_remove_run tranquil_kill tranquil_exists
  tranquil_group_exists tranquil_read_file tranquil_read_json tranquil_boot_id
  tmp_not_essential run_not_essential : calm.
#[export] Hint Extern 1 (tranquil (query _)) => (apply tranquil_ask; reflexivity) : calm.
#[export] Hint Extern 1 (tranquil (ask _ _)) => (apply tranquil_ask; reflexivity) : calm.
#[export] Hint Extern 1 (tranquil wall_ms) => (apply tranquil_ask; reflexivity) : calm.
#[export] Hint Extern 1 (tranquil boot_ms) => (apply tranquil_ask; reflexivity) : calm.
#[export] Hint Extern 1 (tranquil generate) => (apply tranquil_ask; reflexivity) : calm.

(** Sequences of calm calls. *)
Ltac calms := repeat lazymatch goal with
  | |- tranquil (mbind _ _) => apply tranquil_bind; [|intros ?]
  | |- tranquil (if _ then _ else _) => apply tranquil_if
  | |- _ => solve [auto 3 with calm nocore]
  end.

#[global] Arguments calmly : simpl never.

(** ** Outcomes *)

Definition pwp {A} (m : M A) (Q : result failure A -> Machine -> Prop) (g : Machine) : Prop := Q (m g).2 (m g).1.

Lemma pwp_mono {A} (m : M A) (Q Q' : result failure A -> Machine -> Prop) g :
  pwp m Q g -> (forall r g', Q r g' -> Q' r g') -> pwp m Q' g.
Proof. unfold pwp. auto. Qed.
Lemma pwp_bind {A B} (m : M A) (k : A -> M B) Q g :
  pwp m (fun r g' => match r with Ok a => pwp (k a) Q g' | Err e => Q (Err e) g' end) g -> pwp (m ≫= k) Q g.
Proof. unfold pwp, mbind, ST_bind. by destruct (m g) as [g' [a|e]]. Qed.
Lemma pwp_ret {A} (a : A) Q g : Q (Ok a) g -> pwp (mret a : M A) Q g.
Proof. done. Qed.
Lemma pwp_calm {A} (m : M A) (R : A -> Machine -> Prop) Q g :
  calmly m R g -> (forall e g', calm g g' -> Q (Err e) g') -> (forall a g', calm g g' -> R a g' -> Q (Ok a) g') ->
  pwp m Q g.
Proof.
  intros [Hc HR] He Ho. unfold pwp. destruct (m g) as [g' [a|e]]; cbn in *; [apply Ho|apply He]; auto.
Qed.
Lemma pwp_checked {A} (r : result anyhow A) (Q : result failure A -> Machine -> Prop) g :
  (forall e, Q (Err (failed e)) g) -> (forall a, r = Ok a -> Q (Ok a) g) -> pwp (checked r) Q g.
Proof. intros He Ho. unfold pwp, checked, lift. cbn. destruct r; cbn; auto. Qed.
Lemma pwp_tranquil {A} (m : M A) (Q : result failure A -> Machine -> Prop) g :
  tranquil m -> (forall r g', calm g g' -> Q r g') -> pwp m Q g.
Proof. intros Hm HQ. eapply pwp_calm; [apply Hm|auto..]. Qed.

(** ** Writing a metadata file *)

(** What [write_json] leaves: a synced regular file of root's. *)
Definition plain (b : bytes) : node :=
  File {| data := b; zeros := 0; f_uid := 0; f_gid := 0; f_mode := 384; synced := true |}.
(** The directory may, and for a process does, have the essence [e]. *)
Record wrote (e : essence) (g g' : Machine) : Prop := {
  wr_views : forall v', v' ∈ views g' -> (exists v, v ∈ views g /\ ess v' = ess v) \/ ess v' = e;
  wr_home : ess <$> home g' = Some e;
  wr_minor :> minor g g';
}.
Definition all_views (e : essence) (g : Machine) : Prop := forall v, v ∈ views g -> ess v = e.

(** A write fails having changed nothing or all, and succeeds having changed it in whatever a
    crash may leave. *)
Definition outcome (e : essence) (g : Machine) (r : result failure unit) (g' : Machine) : Prop :=
  match r with
  | Err _ => calm g g' \/ wrote e g g'
  | Ok _ => wrote e g g' /\ all_views e g'
  end.

Lemma wrote_calm e g g1 g2 : wrote e g g1 -> calm g1 g2 -> wrote e g g2.
Proof.
  intros Hw Hc. split.
  - intros x Hin. apply (calm_views _ _ Hc) in Hin as (y & Hy & ->). by apply Hw.
  - rewrite (calm_home _ _ Hc). apply Hw.
  - eapply minor_trans; [apply Hw|apply Hc].
Qed.
Lemma calm_wrote e g g1 g2 : calm g g1 -> wrote e g1 g2 -> wrote e g g2.
Proof.
  intros Hc Hw. split.
  - intros x Hin. apply (wr_views _ _ _ Hw) in Hin as [(y & Hy & ->)|]; [left; by apply Hc|by right].
  - apply Hw.
  - eapply minor_trans; [apply Hc|apply Hw].
Qed.

Section writing.
Context `{GuardianEnv, UuidLib}.

Lemma stir_home g : home (stir g) = home g.
Proof.
  unfold stir. destruct (stirs (trace g)) as [[| |]|]; cbn; try done.
  destruct (jailing g); [|done]. by destruct (group g).
Qed.

(** A process finds the file [x] under the name [n]. *)
Definition has (n : string) (x : FileNode) (g : Machine) : Prop :=
  exists v, home g = Some v /\ v !! n = Some (File x).
Lemma calmly_put_file n g : ~ essential n -> calmly (create_new n) (fun _ => has n empty_file) g.
Proof.
  intros Hn. apply calmly_syscall. intros g0 Hc g' [] Hf. apply bind_ok in Hf as (v & Hv%names_home & Hf).
  destruct (v !! n) eqn:Hx; [done|]. injection Hf as <-. split.
  - eapply calm_rename; [done|by apply ess_insert].
  - unfold rename_to. rewrite Hv. eexists. split; [done|apply lookup_insert_eq].
Qed.
Lemma calmly_changed n f x g :
  ~ essential n -> has n x g ->
  calm g (update n f (record (stir g) Syscall)) /\ has n (f x) (update n f (record (stir g) Syscall)).
Proof.
  intros Hn (v & Hh & Hx). split.
  - eapply machine_calm_trans; [exact (calm_stirred g Syscall eq_refl)|by apply calm_update].
  - unfold has, update. cbn. rewrite stir_home, Hh. eexists. split; [done|]. by rewrite lookup_alter_eq, Hx.
Qed.
Lemma calmly_fill n b x g : ~ essential n -> has n x g -> calmly (write_all n b) (fun _ => has n (append b x)) g.
Proof.
  intros Hn Hx. unfold write_all, calmly. destruct (fault _); cbn; (split; [|try done]); try by eapply calmly_changed.
  intros [] _. by apply calmly_changed.
Qed.
Lemma calmly_adjusted n f x g : ~ essential n -> has n x g -> calmly (adjust n f) (fun _ => has n (f x)) g.
Proof.
  intros Hn Hx. unfold adjust, syscall, calmly.
  destruct (fault _); cbn; [split; [exact (calm_stirred g Syscall eq_refl)|done]|].
  split; [by eapply calmly_changed|]. intros [] _. by apply calmly_changed.
Qed.

Lemma rename_outcome temp name e x v g :
  home g = Some v -> v !! temp = Some x -> ess (<[name := x]> (delete temp v)) = e ->
  pwp (rename temp name) (fun r g' => match r with Err _ => calm g g' | Ok _ => wrote e g g' end) g.
Proof.
  intros Hh Hx He. unfold pwp, rename, syscall. pose proof (calm_stirred g Syscall eq_refl) as Hs.
  destruct (fault _); [done|]. unfold names. cbn [home record]. rewrite stir_home, Hh. cbn.
  assert (wrote e g (rename_to (record (stir g) Syscall) (<[name := x]> (delete temp v)))) as Hw.
  { eapply calm_wrote; [exact Hs|]. unfold rename_to. cbn [home record]. rewrite stir_home, Hh. split.
    - intros y [-> | Hy]%elem_of_cons; [by right|]. left. exists y. split; [|done].
      unfold views. cbn [home record]. rewrite stir_home, Hh. exact Hy.
    - cbn. by rewrite He.
    - by apply minor_same. }
  rewrite Hx. destruct (v !! name) as [[| |]|]; done.
Qed.
Lemma sync_outcome e g0 g : wrote e g0 g -> pwp sync_directory (outcome e g0) g.
Proof.
  intros Hw. pose proof (tranquil_sync g) as [Hc _]. pose proof (wrote_calm _ _ _ _ Hw Hc) as Hw'.
  unfold pwp. destruct (sync_directory g) as [g' [[]|err]] eqn:Hs; cbn in *; [|by right]. split; [done|].
  pose proof (wr_home _ _ _ Hw') as Hh. unfold sync_directory, syscall in Hs. destruct (fault _); [done|].
  unfold names in Hs. cbn [home record] in Hs. destruct (home (stir g)) as [v|] eqn:Hv; cbn in Hs; [|done]. injection Hs as <-.
  intros y Hy. unfold views in Hy. cbn in Hy, Hh. rewrite Hv in Hy, Hh. apply list_elem_of_singleton in Hy as ->.
  cbn in Hh. congruence.
Qed.

(** [put x] is what the write makes of the essence. *)
Lemma write_json_outcome `{Serde A} name (value : A) (put : node -> essence -> essence) (Q : result failure unit -> Machine -> Prop) g e0 :
  (forall v n x, ~ essential n -> ess (<[name := x]> (delete n v)) = put x (ess v)) ->
  ess <$> home g = Some e0 ->
  (forall e g', calm g g' -> Q (Err e) g') ->
  (forall b r g', to_vec value = Some b -> outcome (put (plain b) e0) g r g' -> Q r g') ->
  pwp (write_json name value) Q g.
Proof.
  intros Hput He HE HQ. unfold write_json, write_json_in.
  apply pwp_bind. eapply (pwp_calm _ (fun _ _ => True)); [by apply calmly_ask|by intros; apply HE|]. intros id g1 Hc1 _.
  pose proof (tmp_not_essential id) as Ht. set (temp := "" +:+ to_string id +:+ ".tmp").
  apply pwp_bind. eapply pwp_calm; [by apply calmly_put_file| |].
  { intros; apply HE; by eapply machine_calm_trans. }
  intros [] g2 Hc2 Hx2. pose proof (machine_calm_trans _ _ _ Hc1 Hc2) as Hc.
  apply pwp_bind, pwp_checked; [intros; by apply HE|]. intros b Hb%ok_or_ok.
  apply pwp_bind, pwp_checked; [intros; by apply HE|]. intros [] _.
  apply pwp_bind. eapply pwp_calm; [by apply calmly_fill| |].
  { intros e g3 Hc3. apply HE. by eapply machine_calm_trans. }
  intros [] g3 Hc3 Hx3. pose proof (machine_calm_trans _ _ _ Hc Hc3) as Hc'.
  apply pwp_bind. eapply pwp_calm; [by apply calmly_adjusted| |].
  { intros e g4 Hc4. apply HE. by eapply machine_calm_trans. }
  intros [] g4 Hc4 (v4 & Hh4 & Hx4). pose proof (machine_calm_trans _ _ _ Hc' Hc4) as Hc''.
  assert (ess v4 = e0) as Hv.
  { pose proof (calm_home _ _ Hc'') as Hch. rewrite Hh4, He in Hch. cbn in Hch. congruence. }
  apply pwp_bind. eapply pwp_mono; [eapply (rename_outcome temp name (put (plain b) e0)); [exact Hh4|exact Hx4|rewrite <- Hv; exact (Hput v4 temp (plain b) Ht)]|].
  { intros [[]|e] g5 Hr; cbn in Hr; [|apply HE; by eapply machine_calm_trans].
    eapply pwp_mono; [exact (sync_outcome _ g g5 (calm_wrote _ _ _ _ Hc'' Hr))|]. intros r g6. by eapply HQ. }
Qed.
End writing.
