(* ===== verification/GuardianInv.v ===== *)
(** * The invariant of an allocation's machine

    What holds between any two calls, whoever makes them, and that calm changes and the writing
    of a receipt keep it. A few ghosts make one invariant serve all theorems: [sealed], that the
    allocation cannot be launched any more; [quelled], that no guardian's lease runs; [low], a
    receipt that nothing retained may fall behind; [P], what holds of the launch ledger. *)

From S2P Require Import Prelude Ext Ids Authority AuthorityLaws Fs FsLaws Store LaunchAuthority LaunchLaws LaunchTheorems.
From S2P Require Import Guardian GuardianEnv GuardianOps GuardianProcess GuardianLaws.
From S2P Require Lease Bootstrap Identity.
#[local] Existing Instances Guardian.State_eq_dec.

(** [serde_json] reads back what it writes. *)
Class Lossless (A : Type) `{Serde A} := { reads_back a b : to_vec a = Some b -> from_slice b = Some a }.

(** [r] is not behind [rec]: its lease is no shorter and its guest is the same. *)
Record covers (r rec : Receipt) : Prop := {
  cv_revision : r_renewal_revision rec <= r_renewal_revision r;
  cv_expires : r_expires_unix_ms rec <= r_expires_unix_ms r;
  cv_guest : forall b, r_guest_boot_id rec = Some b -> r_guest_boot_id r = Some b;
}.
Lemma covers_refl r : covers r r.
Proof. done. Qed.
Lemma covers_trans a b c : covers a b -> covers b c -> covers a c.
Proof. intros [H1 H2 H3] [H1' H2' H3']. split; [lia|lia|auto]. Qed.
Lemma covers_state r s c why rec : covers r rec -> covers (with_state r s c why) rec.
Proof. intros [H1 H2 H3]. done. Qed.

Lemma quiet_ext_trans (t1 t2 t3 : list action) :
  (exists l, t2 = l ++ t1 /\ quiet l) -> (exists l, t3 = l ++ t2 /\ quiet l) -> exists l, t3 = l ++ t1 /\ quiet l.
Proof.
  intros (l1 & -> & H1) (l2 & -> & H2). exists (l2 ++ l1). rewrite app_assoc. split; [done|by apply Forall_app].
Qed.

(** What a step of some process keeps, besides the invariant. *)
Record steady (g g' : Machine) : Prop := {
  st_trace : exists l, trace g' = l ++ trace g /\ quiet l;
  st_boots : boots g' = boots g;
  st_locked : locked g' = locked g;
  st_guardian : is_some (guardian g') = is_some (guardian g);
  st_served : (forall p, guardian g = Some p -> is_some (shared p) = true) ->
              forall p, guardian g' = Some p -> is_some (shared p) = true;
}.
Lemma steady_refl g : steady g g.
Proof. split; try done. apply quiet_refl. Qed.
Lemma machine_steady_trans g1 g2 g3 : steady g1 g2 -> steady g2 g3 -> steady g1 g3.
Proof.
  intros H12 H23. split.
  - eapply quiet_ext_trans; [apply H12|apply H23].
  - by rewrite (st_boots _ _ H23), (st_boots _ _ H12).
  - by rewrite (st_locked _ _ H23), (st_locked _ _ H12).
  - by rewrite (st_guardian _ _ H23), (st_guardian _ _ H12).
  - intros Hs. by apply (st_served _ _ H23), (st_served _ _ H12).
Qed.
Lemma dulled_some p p' : dulled p p' -> is_some p' = is_some p.
Proof. by destruct p, p'. Qed.
Lemma dulled_get p p' q : dulled p p' -> p' = Some q -> exists q0, p = Some q0 /\ (q = q0 \/ q = set_deadline q0 0).
Proof. intros Hd ->. destruct p as [q0|]; [|done]. by exists q0. Qed.
Lemma minor_steady g g' : minor g g' -> steady g g'.
Proof.
  intros Hm. split; try apply Hm.
  - apply dulled_some, Hm.
  - intros Hs p Hp. destruct (dulled_get _ _ _ (mi_guardian _ _ Hm) Hp) as (q & Hq & [-> | ->]); by apply Hs in Hq.
Qed.

(** What a receipt file says. *)
Definition receipt_in `{Serde Receipt} (e : essence) : option Receipt :=
  match e.1.1 with Some (File f) => from_slice (data f) | _ => None end.
Definition put_receipt (x : node) (e : essence) : essence := (Some x, e.1.2, e.2).
Definition put_manifest (x : node) (e : essence) : essence := (e.1.1, Some x, e.2).

Lemma ess_put_receipt v n x : ~ essential n -> ess (<[RECEIPT := x]> (delete n v)) = put_receipt x (ess v).
Proof.
  intros Hn. unfold ess, put_receipt, essential in *. cbn [fst snd].
  rewrite lookup_insert_eq, !lookup_insert_ne, !lookup_delete_ne by (done || naive_solver). done.
Qed.
Lemma ess_put_manifest v n x : ~ essential n -> ess (<[MANIFEST := x]> (delete n v)) = put_manifest x (ess v).
Proof.
  intros Hn. unfold ess, put_manifest, essential in *. cbn [fst snd].
  rewrite lookup_insert_eq, !lookup_insert_ne, !lookup_delete_ne by (done || naive_solver). done.
Qed.

(** A watchdog's deadline lies at most 300 seconds after a reading of the clock. *)
Definition deadline_ok `{GuardianEnv} (t : list action) (d : Lease.Deadline) : Prop :=
  d = 0 \/ exists l t', t = l ++ ReadBoot :: t' /\ 0 < d <= boot_answer t' + 300000.
Lemma deadline_ok_ext `{GuardianEnv} t t' d : (exists l, t' = l ++ t) -> deadline_ok t d -> deadline_ok t' d.
Proof. intros [l ->] [->|(l' & s & -> & Hd)]; [by left|]. right. exists (l ++ l'), s. by rewrite app_assoc. Qed.

(** The group's processes are those of this receipt. *)
Definition owns `{GuardianEnv} (g : Machine) (x : Group) (r : Receipt) : Prop :=
  r_cgroup_inode r = Some (g_inode x) /\ r_host_boot_id r = boot_id_of (boots g).
(** Some process of the virtual machine may exist. *)
Definition inhabited (g : Machine) (x : Group) : Prop := populated x = true \/ jailing g = true.
(** No process of the virtual machine exists. *)
Definition idle (g : Machine) : Prop := forall x, group g = Some x -> populated x = false.

Section inv.
Context `{GuardianEnv, UuidLaws, Serde Manifest, Sha256, Sha256Laws0 : !Sha256Laws, HexLib, Serde Receipt,
          Serde Authority.Saved, SavedLaws : !SerdeLaws Authority.Saved saved_representable,
          Serde Authority.Retirement.Intent, Serde LaunchAuthority.Required, Serde LaunchAuthority.Saved,
          FileLaws : !SerdeLaws LaunchAuthority.Saved file_representable,
          ReceiptLossless : !Lossless Receipt, ManifestLossless : !Lossless Manifest}.
Context (m : Manifest) (h : HostId).
Context (quelled : bool) (low : option Receipt) (P : Z * Authority -> Prop).

(** A receipt of this manifest. *)
Definition receipt_ok (r : Receipt) : Prop := validate_receipt m r = Ok tt.
Record ess_ok (e : essence) : Prop := {
  eo_receipt : forall n, e.1.1 = Some n -> exists r b, n = plain b /\ to_vec r = Some b /\ receipt_ok r;
  eo_manifest : forall n, e.1.2 = Some n -> exists b, n = plain b /\ to_vec m = Some b;
}.
(** Nothing can be launched from here: it was launched or fenced, or is known by its manifest. *)
Definition closed (e : essence) : Prop :=
  match receipt_in e with
  | Some r => r_state r <> Staging /\ r_state r <> Prepared
  | None => is_Some e.1.2
  end.
Definition serves (rec : Receipt) : Prop := r_state rec = Running \/ r_state rec = Stopping.
(** No lease runs any more: the deadline is fenced, or the virtual machine is stopping. *)
Definition fenced (p : Process) : Prop :=
  deadline p = 0 \/ exists rec, shared p = Some rec /\ r_state rec <> Running.

(** Whatever a crash leaves of the directory, it has a receipt with [R]. *)
Definition retained (R : Receipt -> Prop) (g : Machine) : Prop :=
  is_Some (home g) /\ forall v, v ∈ views g -> exists r, receipt_in (ess v) = Some r /\ R r.

Record inv (sealed : bool) (g : Machine) : Prop := {
  i_ess : forall v, v ∈ views g -> ess_ok (ess v);
  i_home : home g = None -> earlier g = [];
  i_sealed : sealed = true -> is_Some (home g) /\ forall v, v ∈ views g -> closed (ess v);
  i_group : forall x, group g = Some x -> inhabited g x -> retained (owns g x) g;
  i_jailing : jailing g = true -> is_Some (guardian g) /\ is_Some (group g);
  i_stopped : forall v r, v ∈ views g -> receipt_in (ess v) = Some r -> r_state r = Stopped ->
              idle g /\ guardian g = None /\
              (exists e r0, ess <$> home g = Some e /\ receipt_in e = Some r0 /\ r_state r0 = Stopped) /\
              forall v', v' ∈ views g -> closed (ess v');
  i_registry : forall p rec, guardian g = Some p -> shared p = Some rec ->
               receipt_ok rec /\ serves rec /\ (forall x, group g = Some x -> owns g x rec) /\
               retained (fun r => covers r rec) g;
  i_deadline : forall p, guardian g = Some p -> deadline_ok (trace g) (deadline p);
  i_threads : forall p, guardian g = Some p -> (length (threads p) <= CONTROL_LIMIT)%nat;
  i_quelled : quelled = true -> forall p, guardian g = Some p -> fenced p;
  i_low : forall r0, low = Some r0 -> retained (fun r => covers r r0) g /\
          (forall p rec, guardian g = Some p -> shared p = Some rec -> covers rec r0);
  i_ledger : dir_ok (Fs.dir (ledger g)) /\ forall v, possible h (Fs.dir (ledger g)) v -> P v;
}.

Lemma grown_inhabited g g' x : grown (jailing g) (group g) (jailing g') (group g') ->
  (jailing g = true -> is_Some (group g)) -> group g' = Some x -> inhabited g' x ->
  exists x0, group g = Some x0 /\ g_inode x = g_inode x0 /\ inhabited g x0.
Proof.
  intros Hg Hj Hx Hi. destruct (jailing g) eqn:Hjg.
  - destruct (Hj eq_refl) as [a Ha]. destruct (gr_joined _ _ _ _ Hg a eq_refl Ha) as (b & Hb & Hab).
    exists a. rewrite Hx in Hb. injection Hb as ->. split_and!; [done..|by right].
  - pose proof (gr_alone _ _ _ _ Hg eq_refl) as Ha. rewrite Hx in Ha. destruct (group g) as [a|]; [|done].
    destruct Ha as [Hab Hp]. exists a. split_and!; [done..|]. destruct Hi as [Hi|Hi]; [left; auto|].
    apply (gr_jailing _ _ _ _ Hg) in Hi. done.
Qed.
Lemma grown_same g g' x : grown (jailing g) (group g) (jailing g') (group g') ->
  (jailing g = true -> is_Some (group g)) -> group g' = Some x -> exists x0, group g = Some x0 /\ g_inode x = g_inode x0.
Proof.
  intros Hg Hj Hx. destruct (jailing g) eqn:Hjg.
  - destruct (Hj eq_refl) as [a Ha]. destruct (gr_joined _ _ _ _ Hg a eq_refl Ha) as (b & Hb & Hab).
    exists a. rewrite Hx in Hb. injection Hb as ->. by split.
  - pose proof (gr_alone _ _ _ _ Hg eq_refl) as Ha. rewrite Hx in Ha. destruct (group g) as [a|]; [|done].
    exists a. by destruct Ha.
Qed.
Lemma grown_idle g g' : grown (jailing g) (group g) (jailing g') (group g') -> jailing g = false -> idle g -> idle g'.
Proof.
  intros Hg Hj Hid x Hx. pose proof (gr_alone _ _ _ _ Hg Hj) as Ha. rewrite Hx in Ha.
  destruct (group g) as [a|] eqn:Hgr; [|done]. destruct Ha as [_ Hp]. destruct (populated x); [|done].
  by rewrite <- (Hid a Hgr), Hp.
Qed.

(** Without a guardian no jailer is under way. *)
Lemma alone_idle b g : inv b g -> guardian g = None -> jailing g = false.
Proof. intros Hi Hg. destruct (jailing g) eqn:Hj; [|done]. destruct (i_jailing _ _ Hi Hj) as [[p Hp] _]. congruence. Qed.
Lemma inv_group_some b g : inv b g -> jailing g = true -> is_Some (group g).
Proof. intros Hi Hj. apply (i_jailing _ _ Hi Hj). Qed.

(** What is not the directory may change as calm calls change it. *)
Record inv_rest (g : Machine) : Prop := {
  ir_deadline : forall p, guardian g = Some p -> deadline_ok (trace g) (deadline p);
  ir_threads : forall p, guardian g = Some p -> (length (threads p) <= CONTROL_LIMIT)%nat;
  ir_quelled : quelled = true -> forall p, guardian g = Some p -> fenced p;
}.
Lemma inv_rest_minor b g g' : minor g g' -> inv b g -> inv_rest g'.
Proof.
  intros Hm Hi. destruct (mi_trace _ _ Hm) as (l & Ht & _). split.
  - intros p Hp. destruct (dulled_get _ _ _ (mi_guardian _ _ Hm) Hp) as (q & Hq & [-> | ->]); [|by left].
    eapply deadline_ok_ext; [by exists l|exact (i_deadline _ _ Hi q Hq)].
  - intros p Hp. destruct (dulled_get _ _ _ (mi_guardian _ _ Hm) Hp) as (q & Hq & [-> | ->]); exact (i_threads _ _ Hi q Hq).
  - intros Hqu p Hp. destruct (dulled_get _ _ _ (mi_guardian _ _ Hm) Hp) as (q & Hq & [-> | ->]); [|by left].
    by apply (i_quelled _ _ Hi Hqu).
Qed.
Lemma minor_jailing b g g' : minor g g' -> inv b g -> jailing g' = true -> is_Some (guardian g') /\ is_Some (group g').
Proof.
  intros Hm Hi Hj. pose proof (gr_jailing _ _ _ _ (mi_group _ _ Hm) Hj) as Hjg.
  destruct (i_jailing _ _ Hi Hjg) as [[p Hp] [x Hx]]. split.
  - pose proof (mi_guardian _ _ Hm) as Hd. rewrite Hp in Hd. by destruct (guardian g').
  - destruct (gr_joined _ _ _ _ (mi_group _ _ Hm) x Hjg Hx) as (y & -> & _). by eexists.
Qed.
Lemma minor_shared g g' p rec : minor g g' -> guardian g' = Some p -> shared p = Some rec ->
  exists p0, guardian g = Some p0 /\ shared p0 = Some rec.
Proof.
  intros Hm Hp Hs. destruct (dulled_get _ _ _ (mi_guardian _ _ Hm) Hp) as (q & Hq & [-> | ->]); by exists q.
Qed.
Lemma owns_minor g g' x x0 r : minor g g' -> g_inode x = g_inode x0 -> owns g x0 r -> owns g' x r.
Proof. intros Hm Hx [Ho Hb]. unfold owns. by rewrite Hx, (mi_boots _ _ Hm). Qed.

Lemma retained_mono (R R' : Receipt -> Prop) g :
  (forall r, R r -> R' r) -> retained R g -> retained R' g.
Proof. intros Hi [Hh HR]. split; [done|]. intros v Hv. destruct (HR v Hv) as (r & Hr & Hx). eauto. Qed.
Lemma inv_calm b g g' : calm g g' -> inv b g -> inv b g'.
Proof.
  intros Hc Hi. pose proof (calm_minor _ _ Hc) as Hm. pose proof (inv_rest_minor _ _ _ Hm Hi) as [Hd Ht Hq].
  assert (forall Q : essence -> Prop, (forall v, v ∈ views g -> Q (ess v)) -> forall v, v ∈ views g' -> Q (ess v)) as Hv.
  { intros Q HQ v Hin. destruct (calm_views _ _ Hc v Hin) as (v0 & Hv0 & ->). by apply HQ. }
  pose proof (calm_home _ _ Hc) as Hh.
  assert (is_Some (home g) -> is_Some (home g')) as Hhs.
  { intros [x Hx]. rewrite Hx in Hh. destruct (home g'); [by eexists|done]. }
  assert (forall R, retained R g -> retained R g') as HvR.
  { intros R [Hs HR]. split; [auto|]. by apply (Hv (fun e => exists r, receipt_in e = Some r /\ R r)). }
  split; try done.
  - apply Hv, Hi.
  - intros Hn. destruct (home g) as [x|] eqn:Hx; [rewrite Hn in Hh; done|].
    destruct (earlier g') as [|v l] eqn:He; [done|]. exfalso.
    destruct (calm_views _ _ Hc v) as (v0 & Hv0 & _); [unfold views; rewrite Hn, He; left|].
    unfold views in Hv0. rewrite Hx, (i_home _ _ Hi Hx) in Hv0. by apply not_elem_of_nil in Hv0.
  - intros Hb. destruct (i_sealed _ _ Hi Hb). split; [auto|by apply Hv].
  - intros x Hx Hin. destruct (grown_inhabited g g' x (mi_group _ _ Hm) (inv_group_some _ _ Hi) Hx Hin) as (x0 & Hx0 & Hio & Hin0).
    eapply retained_mono; [|by apply HvR, (i_group _ _ Hi x0)]. intros r. by apply owns_minor.
  - by apply (minor_jailing b g).
  - intros v r Hvi Hr Hs. destruct (calm_views _ _ Hc v Hvi) as (v0 & Hv0 & He). rewrite He in Hr.
    destruct (i_stopped _ _ Hi v0 r Hv0 Hr Hs) as (Hg & Hn & Hcur & Hcl). split_and!.
    + eapply grown_idle; [apply Hm|by apply (alone_idle b)|done].
    + eapply dulled_none; [apply Hm|done].
    + by rewrite Hh.
    + by apply Hv.
  - intros p rec Hp Hs. destruct (minor_shared _ _ _ _ Hm Hp Hs) as (p0 & Hp0 & Hs0).
    destruct (i_registry _ _ Hi p0 rec Hp0 Hs0) as (Hok & Hlo & Hown & Hcv). split_and!; [done|done| |].
    + intros x Hx. destruct (grown_same g g' x (mi_group _ _ Hm) (inv_group_some _ _ Hi) Hx) as (x0 & Hx0 & Hxx).
      by eapply owns_minor, Hown.
    + by apply HvR.
  - intros r0 Hl. destruct (i_low _ _ Hi r0 Hl) as (Hcv & Hrg). split.
    + by apply HvR.
    + intros p rec Hp Hs. destruct (minor_shared _ _ _ _ Hm Hp Hs) as (p0 & Hp0 & Hs0). by eapply Hrg.
  - rewrite (mi_ledger _ _ Hm). apply Hi.
Qed.

Lemma in_plain_receipt r b e : to_vec r = Some b -> receipt_in (put_receipt (plain b) e) = Some r.
Proof. intros Hr. by apply reads_back. Qed.
Lemma current_view g e : ess <$> home g = Some e -> exists v, home g = Some v /\ v ∈ views g /\ ess v = e.
Proof.
  destruct (home g) as [v|] eqn:Hv; cbn; [|done]. intros [= <-]. exists v. split_and!; [done|by apply in_views|done].
Qed.

(** ** Writing *)

(** When a receipt may be written. *)
Record writable (b : bool) (g : Machine) (r : Receipt) : Prop := {
  wa_ok : receipt_ok r;
  wa_sealed : b = true -> r_state r <> Staging /\ r_state r <> Prepared;
  wa_group : forall x, group g = Some x -> inhabited g x -> owns g x r;
  wa_before : forall v r', v ∈ views g -> receipt_in (ess v) = Some r' -> r_state r' <> Stopped;
  wa_stopped : r_state r = Stopped ->
               idle g /\ guardian g = None /\ forall v, v ∈ views g -> closed (ess v);
  wa_registry : forall p rec, guardian g = Some p -> shared p = Some rec -> covers r rec;
  wa_low : forall r0, low = Some r0 -> covers r r0;
}.

Lemma wrote_some g g' e : wrote e g g' -> is_Some (home g').
Proof. intros Hw. pose proof (wr_home _ _ _ Hw) as He. destruct (home g'); [by eexists|done]. Qed.

Lemma inv_receipt b g g' e0 r c :
  inv b g -> ess <$> home g = Some e0 -> to_vec r = Some c -> writable b g r ->
  wrote (put_receipt (plain c) e0) g g' -> inv b g'.
Proof.
  intros Hi He0 Hr Hw Hwr. pose proof (wr_minor _ _ _ Hwr) as Hm.
  pose proof (inv_rest_minor _ _ _ Hm Hi) as [Hd Ht Hq]. pose proof (in_plain_receipt r c e0 Hr) as Hin.
  destruct (current_view g e0 He0) as (v0 & Hv0 & Hvi0 & Hev0).
  assert (forall Q : essence -> Prop, (forall v, v ∈ views g -> Q (ess v)) -> Q (put_receipt (plain c) e0) ->
            forall v, v ∈ views g' -> Q (ess v)) as Hv.
  { intros Q HQ He v Hvi. destruct (wr_views _ _ _ Hwr v Hvi) as [(y & Hy & ->) | ->]; auto. }
  assert (forall R, retained R g -> R r -> retained R g') as HvR.
  { intros R [_ HR] HRr. split; [by eapply wrote_some|].
    apply (Hv (fun e => exists r, receipt_in e = Some r /\ R r)); [done|]. by exists r. }
  split; try done.
  - apply Hv; [apply Hi|]. split; cbn.
    + intros n [= <-]. exists r, c. split_and!; [done..|apply Hw].
    + intros n Hn. eapply eo_manifest; [by apply (i_ess _ _ Hi v0)|]. by rewrite Hev0.
  - intros Hh. pose proof (wr_home _ _ _ Hwr) as Hw'. by rewrite Hh in Hw'.
  - intros Hb. split; [by eapply wrote_some|]. apply Hv; [by apply (i_sealed _ _ Hi)|].
    unfold closed. rewrite Hin. by apply Hw.
  - intros x Hx Hinh.
    destruct (grown_inhabited g g' x (mi_group _ _ Hm) (inv_group_some _ _ Hi) Hx Hinh) as (x0 & Hx0 & Hio & Hin0).
    apply HvR; [|by eapply owns_minor, (wa_group _ _ _ Hw)].
    eapply retained_mono; [|by apply (i_group _ _ Hi x0)]. intros r1. by apply owns_minor.
  - by apply (minor_jailing b g).
  - intros v r1 Hvi Hr1 Hs. destruct (wr_views _ _ _ Hwr v Hvi) as [(y & Hy & Hey) | Hey].
    + exfalso. eapply (wa_before _ _ _ Hw y r1); [done|by rewrite <- Hey|done].
    + rewrite Hey, Hin in Hr1. injection Hr1 as <-. destruct (wa_stopped _ _ _ Hw Hs) as (Hg & Hn & Hcl). split_and!.
      * eapply grown_idle; [apply Hm|by apply (alone_idle b)|done].
      * eapply dulled_none; [apply Hm|done].
      * exists (put_receipt (plain c) e0), r. split_and!; [apply Hwr|done..].
      * apply Hv; [done|]. unfold closed. rewrite Hin, Hs. done.
  - intros p rec Hp Hs. destruct (minor_shared _ _ _ _ Hm Hp Hs) as (p0 & Hp0 & Hs0).
    destruct (i_registry _ _ Hi p0 rec Hp0 Hs0) as (Hok & Hlo & Hown & Hcv). split_and!; [done|done| |].
    + intros x Hx. destruct (grown_same g g' x (mi_group _ _ Hm) (inv_group_some _ _ Hi) Hx) as (x0 & Hx0 & Hxx).
      by eapply owns_minor, Hown.
    + apply HvR; [done|]. by apply (wa_registry _ _ _ Hw p0).
  - intros r0 Hl. destruct (i_low _ _ Hi r0 Hl) as (Hcv & Hrg). split.
    + apply HvR; [done|]. by apply Hw.
    + intros p rec Hp Hs. destruct (minor_shared _ _ _ _ Hm Hp Hs) as (p0 & Hp0 & Hs0). by eapply Hrg.
  - rewrite (mi_ledger _ _ Hm). apply Hi.
Qed.

(** A change of the directory's essence that keeps what the receipt says and closes no less; the
    manifest's writing and the lock's creation are such. *)
Lemma inv_other b g g' e0 e :
  inv b g -> ess <$> home g = Some e0 -> ess_ok e -> receipt_in e = receipt_in e0 -> (closed e0 -> closed e) ->
  wrote e g g' -> inv b g'.
Proof.
  intros Hi He0 Hok Hre Hcl Hwr. pose proof (wr_minor _ _ _ Hwr) as Hm.
  pose proof (inv_rest_minor _ _ _ Hm Hi) as [Hd Ht Hq].
  destruct (current_view g e0 He0) as (v0 & Hv0 & Hvi0 & Hev0).
  assert (forall Q : essence -> Prop, (forall v, v ∈ views g -> Q (ess v)) -> (Q e0 -> Q e) ->
            forall v, v ∈ views g' -> Q (ess v)) as Hv.
  { intros Q HQ He v Hvi. destruct (wr_views _ _ _ Hwr v Hvi) as [(y & Hy & ->) | ->]; [auto|].
    apply He. rewrite <- Hev0. auto. }
  assert (forall R : Receipt -> Prop, retained R g -> retained R g') as HvR.
  { intros R [_ HR]. split; [by eapply wrote_some|].
    apply (Hv (fun e => exists r, receipt_in e = Some r /\ R r)); [done|]. by rewrite Hre. }
  split; try done.
  - apply Hv; [apply Hi|done].
  - intros Hh. pose proof (wr_home _ _ _ Hwr) as Hw'. by rewrite Hh in Hw'.
  - intros Hb. split; [by eapply wrote_some|]. apply Hv; [by apply (i_sealed _ _ Hi)|done].
  - intros x Hx Hinh.
    destruct (grown_inhabited g g' x (mi_group _ _ Hm) (inv_group_some _ _ Hi) Hx Hinh) as (x0 & Hx0 & Hio & Hin0).
    apply HvR. eapply retained_mono; [|by apply (i_group _ _ Hi x0)]. intros r1. by apply owns_minor.
  - by apply (minor_jailing b g).
  - intros v r1 Hvi Hr1 Hs.
    assert (exists y, y ∈ views g /\ receipt_in (ess y) = Some r1) as (y & Hy & Hyr).
    { destruct (wr_views _ _ _ Hwr v Hvi) as [(y & Hy & Hey) | Hey]; [exists y; by rewrite <- Hey|].
      exists v0. rewrite Hev0, <- Hre, <- Hey. by split. }
    destruct (i_stopped _ _ Hi y r1 Hy Hyr Hs) as (Hg & Hn & (e1 & r0 & He1 & Hr0 & Hs0) & Hcls). split_and!.
    + eapply grown_idle; [apply Hm|by apply (alone_idle b)|done].
    + eapply dulled_none; [apply Hm|done].
    + rewrite He0 in He1. injection He1 as <-. exists e, r0. rewrite Hre. split_and!; [apply Hwr|done..].
    + by apply Hv.
  - intros p rec Hp Hs. destruct (minor_shared _ _ _ _ Hm Hp Hs) as (p0 & Hp0 & Hs0).
    destruct (i_registry _ _ Hi p0 rec Hp0 Hs0) as (Hrok & Hlo & Hown & Hcv). split_and!; [done|done| |by apply HvR].
    intros x Hx. destruct (grown_same g g' x (mi_group _ _ Hm) (inv_group_some _ _ Hi) Hx) as (x0 & Hx0 & Hxx).
    by eapply owns_minor, Hown.
  - intros r0 Hl. destruct (i_low _ _ Hi r0 Hl) as (Hcv & Hrg). split; [by apply HvR|].
    intros p rec Hp Hs. destruct (minor_shared _ _ _ _ Hm Hp Hs) as (p0 & Hp0 & Hs0). by eapply Hrg.
  - rewrite (mi_ledger _ _ Hm). apply Hi.
Qed.
Lemma ess_of b g e : inv b g -> ess <$> home g = Some e -> ess_ok e.
Proof. intros Hi He. destruct (current_view g e He) as (v & _ & Hv & <-). by apply (i_ess _ _ Hi). Qed.

Lemma inv_manifest b g g' e0 c :
  inv b g -> ess <$> home g = Some e0 -> to_vec m = Some c -> wrote (put_manifest (plain c) e0) g g' -> inv b g'.
Proof.
  intros Hi He0 Hc Hwr. pose proof (ess_of _ _ _ Hi He0) as Hok. apply (inv_other b g g' e0 (put_manifest (plain c) e0)); [done..| |done| |exact Hwr].
  - split; cbn; [apply Hok|]. intros n [= <-]. by exists c.
  - unfold closed. change (receipt_in (put_manifest (plain c) e0)) with (receipt_in e0).
    destruct (receipt_in e0); [done|]. by eexists.
Qed.
End inv.
