(* ===== verification/GuardianKeeps.v ===== *)
(** * The operations of guardian/mod.rs keep the invariant

    [hold b m Q g]: whatever fails, [m] run from [g] launches nothing and keeps the invariant,
    and when it succeeds [Q] holds. *)

From S2P Require Import Prelude Ext Ids Authority AuthorityLaws Fs FsLaws Store LaunchAuthority LaunchLaws LaunchTheorems.
From S2P Require Import Guardian GuardianEnv GuardianOps GuardianProcess GuardianLaws GuardianInv.
From S2P Require Lease Bootstrap Identity.
Import Identity(Identity, issue, client_tls, TlsLib).
#[local] Existing Instances Guardian.State_eq_dec Guardian.Owner_eq_dec.

(** The essence of the directory, as processes see it. *)
Definition now_ (e : essence) (g : Machine) : Prop := ess <$> home g = Some e.
Lemma now_calm e g g' : calm g g' -> now_ e g -> now_ e g'.
Proof. intros Hc. unfold now_. by rewrite (calm_home _ _ Hc). Qed.
Lemma now_fun e e' g : now_ e g -> now_ e' g -> e = e'.
Proof. unfold now_. congruence. Qed.

Section keeps.
Context `{GuardianEnv, UuidLaws, Serde Manifest, Sha256, Sha256Laws0 : !Sha256Laws, HexLib, Serde Receipt,
          Serde Authority.Saved, SavedLaws : !SerdeLaws Authority.Saved saved_representable,
          Serde Authority.Retirement.Intent, Serde LaunchAuthority.Required, Serde LaunchAuthority.Saved,
          FileLaws : !SerdeLaws LaunchAuthority.Saved file_representable,
          ReceiptLossless : !Lossless Receipt, ManifestLossless : !Lossless Manifest,
          Serde VmConfig, Serde Bootstrap.Bootstrap, Serde Identity, TlsLib}.
Context (m : Manifest) (h : HostId).
Context (quelled : bool) (low : option Receipt) (P : Z * Authority -> Prop).
Hypothesis Hhost : forall p, launch_permit m = Some p -> Authority.host p = h.

Abbreviation inv := (inv m h quelled low P).
Abbreviation receipt_ok := (receipt_ok m).
Abbreviation writable := (writable m low).

Definition hold {A} (b : bool) (x : M A) (Q : A -> Machine -> Prop) (g : Machine) : Prop :=
  pwp x (fun r g' => inv b g' /\ steady g g' /\ forall a, r = Ok a -> Q a g') g.

Lemma hold_mono {A} b (x : M A) (Q Q' : A -> Machine -> Prop) g :
  hold b x Q g -> (forall a g', inv b g' -> steady g g' -> Q a g' -> Q' a g') -> hold b x Q' g.
Proof. unfold hold. intros Hx HQ. eapply pwp_mono; [exact Hx|]. intros r g' (Hi & Hs & Hq). split_and!; [done..|]. eauto. Qed.
Lemma hold_bind {A B} b (x : M A) (k : A -> M B) (Q : B -> Machine -> Prop) g :
  hold b x (fun a g' => inv b g' -> steady g g' -> hold b (k a) Q g') g -> hold b (x ≫= k) Q g.
Proof.
  unfold hold. intros Hx. apply pwp_bind. eapply pwp_mono; [exact Hx|]. intros [a|e] g' (Hi & Hs & HQ); [|by split_and!].
  eapply pwp_mono; [exact (HQ a eq_refl Hi Hs)|]. intros r g2 (Hi2 & Hs2 & HQ2). split_and!; [done|by eapply machine_steady_trans|done].
Qed.
Lemma hold_calm {A} b (x : M A) (R : A -> Machine -> Prop) (Q : A -> Machine -> Prop) g :
  inv b g -> calmly x R g -> (forall a g', inv b g' -> calm g g' -> R a g' -> Q a g') -> hold b x Q g.
Proof.
  intros Hi Hx HQ. eapply pwp_calm; [exact Hx| |].
  - intros e g' Hc. split_and!; [by eapply inv_calm|by apply minor_steady, Hc|done].
  - intros a g' Hc HR. pose proof (inv_calm _ _ _ _ _ _ _ _ Hc Hi) as Hi'.
    split_and!; [done|by apply minor_steady, Hc|]. intros ? [= <-]. by apply HQ.
Qed.
Lemma hold_tranquil {A} b (x : M A) (Q : A -> Machine -> Prop) g :
  inv b g -> tranquil x -> (forall a g', inv b g' -> calm g g' -> Q a g') -> hold b x Q g.
Proof. intros Hi Hx HQ. eapply hold_calm; [done|apply Hx|]. auto. Qed.
Lemma hold_ret {A} b (a : A) (Q : A -> Machine -> Prop) g : inv b g -> Q a g -> hold b (mret a) Q g.
Proof. intros Hi HQ. split_and!; [done|apply steady_refl|]. by intros ? [= <-]. Qed.
Lemma hold_fail {A} b e (Q : A -> Machine -> Prop) g : inv b g -> hold b (fail e : M A) Q g.
Proof. intros Hi. split_and!; [done|apply steady_refl|done]. Qed.
Lemma hold_checked {A} b (r : result anyhow A) (Q : A -> Machine -> Prop) g :
  inv b g -> (forall a, r = Ok a -> Q a g) -> hold b (checked r) Q g.
Proof.
  intros Hi HQ. unfold hold, pwp, checked, lift. cbn. split_and!; [done|apply steady_refl|].
  intros a Ha. apply map_err_ok in Ha. by apply HQ.
Qed.
Lemma hold_attempt {A} b (x : M A) (Q : A -> Machine -> Prop) g :
  hold b x Q g -> hold b (attempt x) (fun r g' => match r with Ok a => Q a g' | Err _ => True end) g.
Proof.
  unfold hold, pwp, attempt. destruct (x g) as [g' [a|[|e]]]; cbn; intros (Hi & Hs & HQ); split_and!; try done;
    intros ? [= <-]; auto.
Qed.
Lemma hold_true {A} b (x : M A) (Q : A -> Machine -> Prop) g : hold b x Q g -> hold b x (fun _ _ => True) g.
Proof. intros Hx. by eapply hold_mono. Qed.

(** *** The ledger *)

Lemma inv_ledger b g w :
  inv b g -> Store.dir_ok (Fs.dir w) -> (forall v, possible h (Fs.dir w) v -> P v) -> inv b (set_ledger g w).
Proof. intros [] Hok Hp. by split. Qed.
Lemma inv_extends b g w : inv b g -> extends (Fs.dir (ledger g)) (Fs.dir w) -> inv b (set_ledger g w).
Proof.
  intros Hi He. destruct (i_ledger _ _ _ _ _ _ _ Hi) as [Hok Hp]. apply inv_ledger; [done|apply He|].
  intros v Hv. apply Hp. by eapply possible_extends.
Qed.
Lemma steady_ledger g w : steady g (set_ledger g w).
Proof. split; try done. apply quiet_refl. Qed.
Lemma inv_drop b g l : inv b g -> inv b (drop_guard l g).
Proof.
  intros Hi. apply inv_extends; [done|]. rewrite release_dir. apply extends_unlock, (i_ledger _ _ _ _ _ _ _ Hi).
Qed.
Lemma steady_drop g l : steady g (drop_guard l g).
Proof. apply steady_ledger. Qed.
Lemma hold_ledger {A} b (x : ST World (Fs.error Authority.Error) A) (R : A -> Fs.Dir -> Prop) (Q : A -> Machine -> Prop) g :
  inv b g -> wp x (sound R (Fs.dir (ledger g))) (Fs.dir (ledger g)) ->
  (forall a w, inv b (set_ledger g w) -> R a (Fs.dir w) -> Q a (set_ledger g w)) -> hold b (on_ledger x) Q g.
Proof.
  intros Hi Hx HQ. specialize (Hx (ledger g) eq_refl). unfold hold, pwp, on_ledger.
  destruct (x (ledger g)) as [w r]. destruct Hx as [He HR]. cbn in *.
  pose proof (inv_extends b g w Hi He) as Hi'. split_and!; [done|apply steady_ledger|].
  intros a Ha. apply map_err_ok in Ha. by apply HQ, HR.
Qed.
Lemma hold_held {A} b l (x : M A) (Q : A -> Machine -> Prop) g :
  hold b x (fun a g' => Q a (drop_guard l g')) g -> hold b (held l x) Q g.
Proof.
  unfold hold, pwp, held. destruct (x g) as [g' r]. cbn. intros (Hi & Hs & HQ).
  split_and!; [by apply inv_drop|eapply machine_steady_trans; [done|apply steady_drop]|done].
Qed.

(** A launch was granted by a ledger that may be there. *)
Definition granted : Prop :=
  match launch_permit m with
  | Some p => exists l, P (original_epoch p, l) /\ Authority.authorize l p = Ok tt
  | None => True
  end.
Lemma hold_authorize_launch b (Q : LaunchGuard -> Machine -> Prop) g :
  inv b g -> (forall l w, inv b (set_ledger g w) -> granted -> Q l (set_ledger g w)) ->
  hold b (authorize_launch m) Q g.
Proof.
  intros Hi HQ. unfold authorize_launch. apply hold_bind, hold_checked; [done|]. intros [] _ _ _.
  destruct (i_ledger _ _ _ _ _ _ _ Hi) as [Hok Hp].
  eapply hold_ledger; [done|by apply wp_authorize|]. intros l w Hi' HR. apply HQ; [done|].
  unfold granted. destruct (launch_permit m) as [p|] eqn:Hl; [|done].
  destruct HR as (a & Ha & Hau). rewrite (Hhost p eq_refl) in Ha. exists a. split; [by apply Hp|done].
Qed.
Lemma hold_authorize_cleanup b (Q : LaunchGuard * bool -> Machine -> Prop) g :
  inv b g -> (forall a w, inv b (set_ledger g w) -> Q a (set_ledger g w)) -> hold b (authorize_cleanup m) Q g.
Proof.
  intros Hi HQ. destruct (i_ledger _ _ _ _ _ _ _ Hi) as [Hok Hp].
  eapply hold_ledger; [done|by apply wp_authorize_cleanup|]. auto.
Qed.
Lemma hold_private_state_root b (Q : unit -> Machine -> Prop) g :
  inv b g -> (forall g', inv b g' -> home g' = home g -> guardian g' = guardian g -> Q tt g') ->
  hold b private_state_root Q g.
Proof.
  intros Hi HQ. unfold private_state_root. destruct (i_ledger _ _ _ _ _ _ _ Hi) as [Hok Hp].
  apply hold_bind. eapply (hold_ledger _ _ (fun _ _ => True)); [done| |].
  { apply wp_syscall; [intros e; split; [by apply extends_refl|done]|]. intros d [] [= <-]. split; [|done].
    destruct (Fs.dir_meta _); [by apply extends_refl|by apply extends_make_root]. }
  intros [] w Hi1 _ _ _. destruct (i_ledger _ _ _ _ _ _ _ Hi1) as [Hok1 _].
  apply hold_bind. eapply (hold_ledger _ _ (fun _ _ => True)); [done| |].
  { eapply wp_look; [by apply (look_query _ _ (fun _ => True))|intros e; split; [by apply extends_refl|done]|].
    intros a _. split; [by apply extends_refl|done]. }
  intros a w2 Hi2 _ _ _. apply hold_checked; [done|]. intros [] _. by apply HQ.
Qed.

(** *** The directory and its lock *)

(** Creating the directory: it is empty, and nothing was known of it. *)
Lemma inv_new_home b g : inv b g -> home g = None -> inv b (set_home g (Some ∅)).
Proof.
  intros Hi Hh. pose proof (i_home _ _ _ _ _ _ _ Hi Hh) as He.
  assert (forall v, v ∈ views (set_home g (Some ∅)) -> ess v = (None, None, false)) as Hv.
  { unfold views. cbn. rewrite He. intros v ->%list_elem_of_singleton. done. }
  assert (forall o : option Receipt, receipt_in (None, None, false) = o -> o = None) as Hr by (by intros o <-).
  split; try apply Hi.
  - intros v ->%Hv. by split.
  - done.
  - intros Hb. by destruct (i_sealed _ _ _ _ _ _ _ Hi Hb) as [[x Hx] _]; rewrite Hh in Hx.
  - intros x Hx Hin. destruct (i_group _ _ _ _ _ _ _ Hi x Hx Hin) as [[y Hy] _]. by rewrite Hh in Hy.
  - by intros v r ->%Hv.
  - intros p rec Hp Hs. destruct (i_registry _ _ _ _ _ _ _ Hi p rec Hp Hs) as (_ & _ & _ & [y Hy] & _). by rewrite Hh in Hy.
  - intros r0 Hl. destruct (i_low _ _ _ _ _ _ _ Hi r0 Hl) as ([[y Hy] _] & _). by rewrite Hh in Hy.
Qed.
Lemma hold_private_home b (Q : unit -> Machine -> Prop) g :
  inv b g -> (forall g', inv b g' -> steady g g' -> Q tt g') -> hold b private_home Q g.
Proof.
  intros Hi HQ. unfold private_home. apply hold_bind.
  assert (hold b (syscall (fun g => Ok (match home g with Some _ => g | None => set_home g (Some ∅) end, tt)))
            (fun _ _ => True) g) as Hm.
  { unfold hold, pwp, syscall. pose proof (calm_stirred g Syscall eq_refl) as Hc.
    pose proof (inv_calm _ _ _ _ _ _ _ _ Hc Hi) as Hi1. pose proof (minor_steady _ _ (calm_minor _ _ Hc)) as Hs.
    destruct (fault _); cbn; [by split_and!|].
    destruct (home (stir g)) eqn:Hh; cbn; split_and!; try done; [by apply inv_new_home|].
    eapply machine_steady_trans; [exact Hs|]. split; try done. apply quiet_refl. }
  eapply hold_mono; [exact Hm|]. intros [] g1 Hi1 Hs1 _ _ _.
  apply hold_bind. eapply hold_tranquil; [done|by apply tranquil_ask|]. intros ok g2 Hi2 Hc2 _ Hs2.
  apply hold_checked; [done|]. intros [] _. apply HQ; [done|by eapply machine_steady_trans].
Qed.

Lemma inv_locked b g x : inv b g -> inv b (set_locked g x).
Proof. intros []. by split. Qed.
Lemma steady_locked g g' : steady (set_locked g true) g' -> locked g = false -> steady g (set_locked g' false).
Proof. intros [Ht Hb Hl Hg Hs] Hlg. split; try done. Qed.

(** Opening the lock's file, or creating it. *)
Lemma hold_lock_file b c g :
  inv b g ->
  hold b (syscall (fun g =>
    v ← names g;
    match v !! LOCK with
    | Some (File _) => Ok (g, tt)
    | Some _ => Err "not a file"
    | None => if c : bool then Ok (rename_to g (<[LOCK := File empty_file]> v), tt) else Err "not found"
    end)) (fun _ g' => exists e, now_ e g' /\ e.2 = true) g.
Proof.
  intros Hi. unfold hold, pwp, syscall. pose proof (calm_stirred g Syscall eq_refl) as Hc.
  pose proof (inv_calm _ _ _ _ _ _ _ _ Hc Hi) as Hi1. pose proof (minor_steady _ _ (calm_minor _ _ Hc)) as Hs.
  set (g1 := record (stir g) Syscall) in *. destruct (fault _); [by split_and!|].
  unfold names. destruct (home g1) as [v|] eqn:Hh; cbn; [|by split_and!].
  assert (now_ (ess v) g1) as Hnow by (unfold now_; by rewrite Hh).
  destruct (v !! LOCK) as [[f| |]|] eqn:Hl; cbn; try by split_and!.
  - split_and!; [done..|]. intros _ _. exists (ess v). split; [done|]. unfold ess. cbn. by rewrite Hl.
  - destruct c; cbn; [|by split_and!]. set (e := (v !! RECEIPT, v !! MANIFEST, true) : essence).
    assert (ess (<[LOCK := File empty_file]> v) = e) as He.
    { unfold ess. rewrite lookup_insert_eq, !lookup_insert_ne by done. done. }
    assert (wrote e g1 (rename_to g1 (<[LOCK := File empty_file]> v))) as Hw.
    { unfold rename_to. rewrite Hh. split.
      - intros y [-> | Hy]%elem_of_cons; [by right|]. left. exists y. split; [|done]. unfold views. by rewrite Hh.
      - cbn. by rewrite He.
      - by apply minor_same. }
    split_and!.
    + apply (inv_other m h quelled low P b g1 _ (ess v) e); [done|done| |done|done|done].
      destruct (i_ess _ _ _ _ _ _ _ Hi1 v (in_views _ _ Hh)) as [Ho1 Ho2]. by split.
    + eapply machine_steady_trans; [exact Hs|]. apply minor_steady, Hw.
    + intros _ _. exists e. split; [apply Hw|done].
Qed.

Lemma pwp_flock g :
  pwp (free ← syscall (fun g => Ok (if locked g then g else set_locked g true, negb (locked g)));
       if free : bool then mret tt else fail (Failed OwnershipBusy))
    (fun r g' => match r with
                 | Ok _ => exists g0, calm g g0 /\ locked g0 = false /\ g' = set_locked g0 true
                 | Err _ => calm g g'
                 end) g.
Proof.
  unfold pwp, mbind, ST_bind, syscall. pose proof (calm_stirred g Syscall eq_refl) as Hc.
  destruct (fault _); cbn; [done|]. destruct (locked (stir g)) eqn:Hl; cbn; [done|]. by eexists.
Qed.

(** Taking the lifecycle lock: there is no guardian then. *)
Lemma pwp_lifecycle_lock b c g :
  inv b g -> locked g = is_some (guardian g) ->
  pwp (lifecycle_lock c) (fun r g' => match r with
    | Ok _ => exists g0 e, inv b g0 /\ steady g g0 /\ guardian g0 = None /\ locked g0 = false /\
                           now_ e g0 /\ e.2 = true /\ g' = set_locked g0 true
    | Err _ => inv b g' /\ steady g g'
    end) g.
Proof.
  intros Hi Hl. unfold lifecycle_lock. apply pwp_bind.
  pose proof (hold_lock_file b c g Hi) as Hf. unfold hold in Hf. eapply pwp_mono; [exact Hf|].
  intros [[]|err] g1 (Hi1 & Hs1 & He); [|by split]. destruct (He tt eq_refl) as (e & Hnow & He2).
  eapply pwp_mono; [apply pwp_flock|]. intros [[]|err] g2 Hg2; cbn in Hg2.
  - destruct Hg2 as (g0 & Hc & Hlk & ->). pose proof (inv_calm _ _ _ _ _ _ _ _ Hc Hi1) as Hi0.
    pose proof (machine_steady_trans _ _ _ Hs1 (minor_steady _ _ (calm_minor _ _ Hc))) as Hs.
    exists g0, e. split_and!; [done|done| |done|by eapply now_calm|done|done].
    pose proof (st_guardian _ _ Hs) as Hsg. rewrite <- Hl, <- (st_locked _ _ Hs), Hlk in Hsg. by destruct (guardian g0).
  - split; [by eapply inv_calm|]. eapply machine_steady_trans; [exact Hs1|]. by apply minor_steady, Hg2.
Qed.
(** What runs under the lifecycle lock runs without a guardian. *)
Lemma hold_exclusive {A} b c (x : M A) (Q : A -> Machine -> Prop) g :
  inv b g -> locked g = is_some (guardian g) ->
  (forall g1 e, inv b g1 -> guardian g1 = None -> now_ e g1 -> e.2 = true -> hold b x Q g1) ->
  (forall a g', Q a g' -> Q a (set_locked g' false)) ->
  hold b (_ ← lifecycle_lock c; owning x) Q g.
Proof.
  intros Hi Hl Hx Hq. unfold hold. apply pwp_bind. eapply pwp_mono; [by apply pwp_lifecycle_lock|].
  intros [[]|err] g2 Hg2; [|destruct Hg2; by split_and!]. destruct Hg2 as (g0 & e & Hi0 & Hs & Hg & Hlk & Hnow & He2 & ->).
  specialize (Hx (set_locked g0 true) e (inv_locked _ _ _ Hi0) Hg Hnow He2).
  unfold hold, pwp, owning in *. destruct (x (set_locked g0 true)) as [g3 r]. cbn in *.
  destruct Hx as (Hi3 & Hs3 & HQ). split_and!; [by apply inv_locked| |auto].
  eapply machine_steady_trans; [exact Hs|]. by apply steady_locked.
Qed.
End keeps.
