(* ===== verification/GuardianCleanup.v ===== *)
(** * The operations of guardian/mod.rs keep the invariant

    Staging is calm; a receipt that continues the current one may be written; cleanup ends with
    an empty group and a durable [Stopped] receipt; [prepare], [fence_unstarted] and [reconcile]
    keep the invariant and answer with the receipt that is current. *)

From S2P Require Import Prelude Ext Ids Authority AuthorityLaws Fs FsLaws Store LaunchAuthority LaunchLaws LaunchTheorems.
From S2P Require Import Guardian GuardianEnv GuardianOps GuardianProcess GuardianLaws GuardianInv GuardianKeeps.
From S2P Require Lease Bootstrap Identity.
Import Identity(Identity, issue, client_tls, TlsLib).
#[local] Existing Instances Guardian.State_eq_dec Guardian.Owner_eq_dec.

Section staging.
Context `{GuardianEnv, UuidLib, Serde Manifest, Sha256, HexLib,
          Serde Receipt, Serde VmConfig, Serde Bootstrap.Bootstrap, Serde Identity, TlsLib}.

Lemma jail_not_essential m s : ~ essential (in_jail m s).
Proof. unfold essential. intros [Hn|[Hn|Hn]]; done. Qed.
Lemma in_run_not_essential s : ~ essential (in_run s).
Proof. apply run_not_essential. Qed.
Lemma plain_run_not_essential : ~ essential RUN.
Proof. by apply plain_not_essential. Qed.
Hint Resolve jail_not_essential in_run_not_essential plain_run_not_essential : calm.
Lemma tranquil_sync_file n : ~ essential n -> tranquil (sync_file n).
Proof. apply tranquil_adjust. Qed.
Lemma tranquil_chown n u i : ~ essential n -> tranquil (chown n u i).
Proof. apply tranquil_adjust. Qed.
Lemma tranquil_set_permissions n i : ~ essential n -> tranquil (set_permissions n i).
Proof. apply tranquil_adjust. Qed.
Lemma tranquil_set_len n i : ~ essential n -> tranquil (set_len n i).
Proof. apply tranquil_adjust. Qed.
Hint Resolve tranquil_sync_file tranquil_chown tranquil_set_permissions tranquil_set_len : calm.

Lemma tranquil_each f l : Forall (fun n => tranquil (f n)) l -> tranquil (each f l).
Proof. induction 1; cbn; [apply tranquil_ret|by apply tranquil_bind]. Qed.

(** Also over loops, and on names that are none of the receipt, the manifest and the lock. *)
#[local] Ltac calms_each := repeat lazymatch goal with
  | |- tranquil (mbind _ _) => apply tranquil_bind; [|intros ?]
  | |- tranquil (if _ then _ else _) => apply tranquil_if
  | |- tranquil (each _ _) => apply tranquil_each; repeat apply Forall_cons_2; try apply Forall_nil_2
  | |- _ => solve [auto 3 with calm nocore] || (intros [Hn|[Hn|Hn]]; done)
  end.

Lemma tranquil_json_run {A} `{Serde A} dir sync name (v : A) :
  (forall s, ~ essential (dir +:+ s)) -> tranquil sync -> tranquil (write_json_in dir sync name v).
Proof. intros Hd Hs. unfold write_json_in. calms_each. Qed.
Lemma tranquil_json_jail {A} `{Serde A} m name (v : A) : tranquil (write_json_in (in_jail m "") unseen name v).
Proof. apply tranquil_json_run; [intros s|]; calms_each. Qed.
Lemma tranquil_json_identity {A} `{Serde A} name (v : A) : tranquil (write_json_in (in_run "") unseen name v).
Proof. apply tranquil_json_run; [intros s|]; calms_each. Qed.
Lemma tranquil_copy_chunks n max l total seen : ~ essential n -> tranquil (copy_chunks n max l total seen).
Proof. intros Hn. revert total seen. induction l as [|c l IH]; intros total seen; cbn; calms_each. Qed.
Lemma tranquil_copy a n max x : ~ essential n -> tranquil (copy a n max x).
Proof. intros Hn. unfold copy. pose proof tranquil_copy_chunks. calms_each. Qed.
Hint Resolve tranquil_json_jail tranquil_json_identity tranquil_copy : calm.
Lemma tranquil_stage m : tranquil (stage m).
Proof. unfold stage. calms_each. Qed.
(** What [stage_identity] makes of the receipt. *)
Lemma calmly_stage_identity m r g :
  calmly (stage_identity m r) (fun a _ => a.1 = r \/ exists d until, a.1 = with_identity r d until) g.
Proof.
  unfold stage_identity. apply calmly_bind, calmly_ask; [done|]. intros g1 _ _.
  apply calmly_bind, calmly_ask; [done|]. intros g2 _ _.
  destruct (issue _ _ _ _) as [i|e]; [|apply calmly_ret; by left].
  destruct (negb _); [apply calmly_ret; by left|].
  destruct (identity_digest i) as [d|e]; [|apply calmly_ret; by left].
  apply calmly_bind. eapply calmly_mono.
  - apply (tranquil_attempt (A := unit)). calms_each.
  - intros staged g' _ _ _. apply calmly_ret. right. cbn. eauto.
Qed.
End staging.

(** ** Directories that stay as they are *)

Record same_dir (g g' : Machine) : Prop := {
  sd_views : forall v', v' ∈ views g' -> exists v, v ∈ views g /\ ess v' = ess v;
  sd_home : ess <$> home g' = ess <$> home g;
}.
Lemma same_dir_trans g1 g2 g3 : same_dir g1 g2 -> same_dir g2 g3 -> same_dir g1 g3.
Proof.
  intros [Hv Hh] [Hv' Hh']. split; [|by rewrite Hh'].
  intros v (w & Hw & ->)%Hv'. by apply Hv.
Qed.
Lemma calm_same g g' : calm g g' -> same_dir g g'.
Proof. intros Hc. split; apply Hc. Qed.
Lemma same_all e g g' : same_dir g g' -> all_views e g -> all_views e g'.
Proof. intros Hs Ha v (w & Hw & ->)%(sd_views _ _ Hs). by apply Ha. Qed.
Lemma same_now e g g' : same_dir g g' -> now_ e g -> now_ e g'.
Proof. intros Hs. unfold now_. by rewrite (sd_home _ _ Hs). Qed.
Lemma steady_alone g g' : steady g g' -> guardian g = None -> guardian g' = None.
Proof. intros Hs Hg. pose proof (st_guardian _ _ Hs) as He. rewrite Hg in He. by destruct (guardian g'). Qed.

(** What a receipt that continues [r0] keeps of it. *)
Record kin (r r0 : Receipt) : Prop := {
  ki_inode : r_cgroup_inode r = r_cgroup_inode r0;
  ki_boot : r_host_boot_id r = r_host_boot_id r0;
  ki_covers :> covers r r0;
}.
Lemma kin_refl r : kin r r.
Proof. split; done. Qed.
Lemma kin_state r r0 s c why : kin r r0 -> kin (with_state r s c why) r0.
Proof. intros [Hi Hb Hc]. split; [done..|by apply covers_state]. Qed.
Lemma kin_identity r r0 d x : kin r r0 -> kin (with_identity r d x) r0.
Proof. intros [Hi Hb [H1 H2 H3]]. by split. Qed.
Lemma owns_kin `{GuardianEnv} g x r r0 : kin r r0 -> owns g x r0 -> owns g x r.
Proof. intros Hk [Hi Hb]. unfold owns. by rewrite (ki_inode _ _ Hk), (ki_boot _ _ Hk). Qed.

Section cleanup.
Context `{GuardianEnv, UuidLaws, Serde Manifest, Sha256, Sha256Laws0 : !Sha256Laws, HexLib, Serde Receipt,
          Serde Authority.Saved, SavedLaws : !SerdeLaws Authority.Saved saved_representable,
          Serde Authority.Retirement.Intent, Serde LaunchAuthority.Required, Serde LaunchAuthority.Saved,
          FileLaws : !SerdeLaws LaunchAuthority.Saved file_representable,
          ReceiptLossless : !Lossless Receipt, ManifestLossless : !Lossless Manifest,
          Serde VmConfig, Serde Bootstrap.Bootstrap, Serde Identity, TlsLib}.
Context (m : Manifest) (h : HostId).
Context (quelled : bool) (low : option Receipt) (P : Z * Authority -> Prop).
Hypothesis Hhost : forall p, launch_permit m = Some p -> Authority.host p = h.

Abbreviation inv := (inv m h quelled low P).
Abbreviation receipt_ok := (receipt_ok m).
Abbreviation writable := (writable m low).
Abbreviation hold := (hold m h quelled low P).

(** ** Receipts *)

Lemma receipt_in_ok e r : ess_ok m e -> receipt_in e = Some r -> receipt_ok r.
Proof.
  intros [Hr _] Hin. unfold receipt_in in Hin. destruct e.1.1 as [[f| |]|] eqn:He; try done.
  destruct (Hr _ eq_refl) as (r' & b & [= ->] & Hb & Hok). cbn in Hin.
  rewrite (reads_back _ _ Hb) in Hin. by injection Hin as ->.
Qed.
Lemma receipt_ok_state r s why :
  receipt_ok r -> is_none_or (fun t => strlen t <? 256) why = true ->
  receipt_ok (with_state r s (bool_decide (s = Stopped)) why).
Proof.
  unfold GuardianInv.receipt_ok, validate_receipt. destruct (digest m) as [d|]; [|done]. cbn.
  rewrite !ensure_ok, !andb_true_iff. cbn. intros ((((? & ?) & ?) & ?) & ?) Hw. split_and!; try done. by apply eqb_true_iff.
Qed.
Lemma receipt_ok_unconfirmed r : receipt_ok r -> r_state r <> Stopped -> r_cleanup_confirmed r = false.
Proof.
  unfold GuardianInv.receipt_ok, validate_receipt. destruct (digest m) as [d|]; [|done]. cbn.
  rewrite ensure_ok, !andb_true_iff. intros (_ & Hc) Hs. rewrite eqb_true_iff in Hc. by rewrite Hc, bool_decide_eq_false_2.
Qed.
Lemma receipt_ok_reason r : receipt_ok r -> is_none_or (fun t => strlen t <? 256) (r_reason r) = true.
Proof.
  unfold GuardianInv.receipt_ok, validate_receipt. destruct (digest m) as [d|]; [|done]. cbn.
  rewrite ensure_ok, !andb_true_iff. tauto.
Qed.
Lemma receipt_ok_identity r d x : receipt_ok r -> receipt_ok (with_identity r d x).
Proof. done. Qed.

Lemma current_ok b g e r : inv b g -> now_ e g -> receipt_in e = Some r -> receipt_ok r.
Proof. intros Hi He. eapply receipt_in_ok, ess_of; done. Qed.
(** No receipt that a crash may bring back says [Stopped] while the current one does not. *)
Lemma none_stopped b g e r : inv b g -> now_ e g -> receipt_in e = Some r -> r_state r <> Stopped ->
  forall v r', v ∈ views g -> receipt_in (ess v) = Some r' -> r_state r' <> Stopped.
Proof.
  intros Hi He Hr Hs v r' Hv Hr' Hs'.
  destruct (i_stopped _ _ _ _ _ _ _ Hi v r' Hv Hr' Hs') as (_ & _ & (e' & r0 & He' & Hr0 & Hs0) & _).
  rewrite (now_fun _ _ _ He' He) in Hr0. congruence.
Qed.
Lemma current_retained (R : Receipt -> Prop) g e r : now_ e g -> receipt_in e = Some r -> retained R g -> R r.
Proof.
  intros He Hr [_ HR]. destruct (current_view g e He) as (v & _ & Hv & <-). destruct (HR v Hv) as (r' & Hr' & Hx). congruence.
Qed.

Lemma retained_same (R : Receipt -> Prop) g g' : same_dir g g' -> retained R g -> retained R g'.
Proof.
  intros Hs [[x Hx] HR]. pose proof (sd_home _ _ Hs) as Hh. rewrite Hx in Hh. split.
  - destruct (home g'); [by eexists|done].
  - intros v (w & Hw & ->)%(sd_views _ _ Hs). by apply HR.
Qed.

(** What continues the current receipt may be written. *)
Lemma writable_kin b g e r0 r :
  inv b g -> guardian g = None -> now_ e g -> receipt_in e = Some r0 -> r_state r0 <> Stopped -> kin r r0 ->
  receipt_ok r -> (b = true -> r_state r <> Staging /\ r_state r <> Prepared) ->
  (r_state r = Stopped -> idle g /\ forall v, v ∈ views g -> closed (ess v)) -> writable b g r.
Proof.
  intros Hi Hg He Hr Hs Hk Hok Hb Hst. split; try done.
  - intros x Hx Hin. eapply owns_kin; [done|].
    eapply (current_retained (owns g x)); [done..|by apply (i_group _ _ _ _ _ _ _ Hi)].
  - by eapply none_stopped.
  - intros Hsr. destruct (Hst Hsr). by split_and!.
  - intros p rec Hp. by rewrite Hg in Hp.
  - intros rl Hl. eapply covers_trans; [apply Hk|].
    eapply (current_retained (fun r => covers r rl)); [done..|by apply (i_low _ _ _ _ _ _ _ Hi)].
Qed.

Lemma hold_write_receipt b r e0 (Q : unit -> Machine -> Prop) g :
  inv b g -> now_ e0 g -> writable b g r ->
  (forall c g', inv b g' -> steady g g' -> to_vec r = Some c -> wrote (put_receipt (plain c) e0) g g' ->
     all_views (put_receipt (plain c) e0) g' -> Q tt g') ->
  hold b (write_receipt r) Q g.
Proof.
  intros Hi He Hw HQ. unfold GuardianKeeps.hold.
  eapply (write_json_outcome RECEIPT r put_receipt); [intros; by apply ess_put_receipt|exact He| |].
  - intros e g' Hc. split_and!; [by eapply inv_calm|by apply minor_steady, Hc|done].
  - intros c [[]|e] g' Hc Ho; cbn in Ho.
    + destruct Ho as [Hwr Ha]. assert (inv b g') as Hi' by by eapply inv_receipt.
      pose proof (minor_steady _ _ (wr_minor _ _ _ Hwr)). split_and!; [done..|]. intros [] _. by eapply HQ.
    + destruct Ho as [Hcm|Hwr]; split_and!; try done;
        [by eapply inv_calm|by apply minor_steady, Hcm|by eapply inv_receipt|by apply minor_steady, Hwr].
Qed.
Lemma hold_write_manifest b e0 (Q : unit -> Machine -> Prop) g :
  inv b g -> now_ e0 g ->
  (forall c g', inv b g' -> steady g g' -> wrote (put_manifest (plain c) e0) g g' ->
     all_views (put_manifest (plain c) e0) g' -> Q tt g') ->
  hold b (write_manifest m) Q g.
Proof.
  intros Hi He HQ. unfold GuardianKeeps.hold.
  eapply (write_json_outcome MANIFEST m put_manifest); [intros; by apply ess_put_manifest|exact He| |].
  - intros e g' Hc. split_and!; [by eapply inv_calm|by apply minor_steady, Hc|done].
  - intros c [[]|e] g' Hc Ho; cbn in Ho.
    + destruct Ho as [Hwr Ha]. assert (inv b g') as Hi' by by eapply inv_manifest.
      pose proof (minor_steady _ _ (wr_minor _ _ _ Hwr)). split_and!; [done..|]. intros [] _. by eapply HQ.
    + destruct Ho as [Hcm|Hwr]; split_and!; try done;
        [by eapply inv_calm|by apply minor_steady, Hcm|by eapply inv_manifest|by apply minor_steady, Hwr].
Qed.

(** ** Cleanup *)

Lemma alone_calm g g' : calm g g' -> guardian g = None -> guardian g' = None.
Proof. intros Hc. apply steady_alone, minor_steady, Hc. Qed.
Lemma alone_group b g g' : inv b g -> guardian g = None -> calm g g' ->
  match group g, group g' with
  | None, None => True
  | Some a, Some b => populated b = true -> populated a = true
  | _, _ => False
  end.
Proof.
  intros Hi Hg Hc. pose proof (gr_alone _ _ _ _ (mi_group _ _ (calm_minor _ _ Hc)) (alone_idle _ _ _ _ _ _ _ Hi Hg)) as Ha.
  destruct (group g), (group g'); try done. by intros; apply Ha.
Qed.

Lemma tranquil_await n : tranquil (await_empty n).
Proof. intros g. by apply (calmly_await n (fun _ _ => True)). Qed.
Lemma same_dir_of g g' : home g' = home g -> earlier g' = earlier g -> same_dir g g'.
Proof.
  intros Hh He. split; [|by rewrite Hh]. intros v Hv. exists v. split; [|done].
  unfold views in *. by rewrite <- Hh, <- He.
Qed.
(** The group is gone. *)
Lemma inv_no_group b g : inv b g -> guardian g = None -> inv b (set_group g None).
Proof.
  intros Hi Hg. pose proof (alone_idle _ _ _ _ _ _ _ Hi Hg) as Hj. split; try apply Hi; try done.
  - cbn. by rewrite Hj.
  - intros v r Hv Hr Hs. destruct (i_stopped _ _ _ _ _ _ _ Hi v r Hv Hr Hs) as (_ & ? & ? & ?). by split_and!.
  - intros p rec Hp. cbn in Hp. congruence.
Qed.
Lemma hold_clean_group b r (Q : unit -> Machine -> Prop) g :
  inv b g -> guardian g = None ->
  (forall g', inv b g' -> steady g g' -> same_dir g g' -> group g' = None -> Q tt g') ->
  hold b (clean_group r) Q g.
Proof.
  intros Hi Hg HQ. unfold clean_group. apply hold_bind.
  eapply (hold_calm _ _ _ _ _ b group_metadata (fun a g' => a = (g_inode <$> group g'))); [done|by apply calmly_group|].
  intros present g1 Hi1 Hc1 -> _ Hs1. pose proof (alone_calm _ _ Hc1 Hg) as Hg1.
  destruct (group g1) as [x|] eqn:Hx; cbn -[await_empty].
  2: { apply hold_ret; [done|]. apply HQ; [done..|by apply calm_same|done]. }
  apply hold_bind. eapply hold_calm; [done|by apply (calmly_populated (fun _ _ => True))|].
  intros full g2 Hi2 Hc2 _ _ Hs2. pose proof (alone_calm _ _ Hc2 Hg1) as Hg2.
  apply hold_bind. eapply hold_tranquil; [done| |].
  { apply tranquil_if; [|apply tranquil_ret]. apply tranquil_bind; [apply tranquil_boot_id|]. intros boot.
    apply tranquil_bind; [apply tranquil_checked|]. intros []. apply tranquil_kill. }
  intros [] g3 Hi3 Hc3 _ Hs3. pose proof (alone_calm _ _ Hc3 Hg2) as Hg3.
  apply hold_bind. eapply hold_tranquil; [done|apply tranquil_await|].
  intros [] g4 Hi4 Hc4 _ Hs4. pose proof (alone_calm _ _ Hc4 Hg3) as Hg4.
  assert (steady g g4) as Hs by (eapply machine_steady_trans; [|done]; eapply machine_steady_trans; [|done]; by eapply machine_steady_trans).
  assert (same_dir g g4) as Hd.
  { eapply same_dir_trans; [|by apply calm_same]. eapply same_dir_trans; [|by apply calm_same].
    eapply same_dir_trans; by apply calm_same. }
  unfold GuardianKeeps.hold, pwp, remove_group, syscall.
  pose proof (calm_stirred g4 Syscall eq_refl) as Hc5. set (g5 := record (stir g4) Syscall) in *.
  pose proof (inv_calm _ _ _ _ _ _ _ _ Hc5 Hi4) as Hi5. pose proof (minor_steady _ _ (calm_minor _ _ Hc5)) as Hs5.
  destruct (fault _); [by split_and!|]. destruct (group g5) as [z|] eqn:Hz; cbn; [|by split_and!].
  destruct (populated z) eqn:Hpz; cbn; [by split_and!|].
  assert (guardian g5 = None) as Hg5 by by eapply alone_calm.
  assert (inv b (set_group g5 None)) as Hi6 by by apply inv_no_group.
  assert (steady g4 (set_group g5 None)) as Hs6 by (eapply machine_steady_trans; [exact Hs5|split; try done; apply quiet_refl]).
  split_and!; [done..|]. intros [] _. apply HQ; [done|by eapply machine_steady_trans| |done].
  eapply same_dir_trans; [exact Hd|]. eapply same_dir_trans; [by apply calm_same|]. by apply same_dir_of.
Qed.

(** The answer is the receipt that is current. *)
Definition answers (r : Receipt) (g : Machine) : Prop :=
  exists e, now_ e g /\ receipt_in e = Some r /\ receipt_ok r.
Lemma answers_same r g g' : same_dir g g' -> answers r g -> answers r g'.
Proof. intros Hs (e & He & Hr). exists e. split; [by eapply same_now|done]. Qed.

Lemma hold_write_kin b e r0 r (Q : unit -> Machine -> Prop) g :
  inv b g -> guardian g = None -> now_ e g -> receipt_in e = Some r0 -> r_state r0 <> Stopped -> kin r r0 ->
  receipt_ok r -> (b = true -> r_state r <> Staging /\ r_state r <> Prepared) ->
  (r_state r = Stopped -> idle g /\ forall v, v ∈ views g -> closed (ess v)) ->
  (forall e' g', inv b g' -> steady g g' -> now_ e' g' -> receipt_in e' = Some r -> all_views e' g' -> Q tt g') ->
  hold b (write_receipt r) Q g.
Proof.
  intros Hi Hg He Hr Hs Hk Hok Hb Hst HQ. eapply hold_write_receipt; [done..|by eapply writable_kin|].
  intros c g' Hi' Hs' Hc Hw Ha. eapply HQ; [done..|apply Hw|by apply in_plain_receipt|done].
Qed.

(** [finish_cleanup] of a fenced receipt that is current and durable. *)
Lemma hold_finish_cleanup b e r (Q : Receipt -> Machine -> Prop) g :
  inv b g -> guardian g = None -> now_ e g -> receipt_in e = Some r -> r_state r = Fenced -> all_views e g ->
  (forall r' g', inv b g' -> steady g g' -> answers r' g' -> r_state r' = Stopped -> kin r' r -> Q r' g') ->
  hold b (finish_cleanup r) Q g.
Proof.
  intros Hi Hg He Hr Hf Ha HQ. pose proof (current_ok _ _ _ _ Hi He Hr) as Hok.
  unfold finish_cleanup. apply hold_bind, hold_clean_group; [done..|]. intros g1 Hi1 Hs1 Hd1 Hx1 _ _.
  pose proof (steady_alone _ _ Hs1 Hg) as Hg1.
  apply hold_bind. eapply hold_tranquil; [done|apply tranquil_exists|]. intros there g2 Hi2 Hc2 _ _.
  apply hold_bind. eapply hold_tranquil; [done| |].
  { apply tranquil_if; [apply tranquil_remove_run|apply tranquil_ret]. }
  intros [] g3 Hi3 Hc3 _ _.
  apply hold_bind. eapply hold_tranquil; [done|by apply tranquil_remove_there, plain_not_essential|].
  intros [] g4 Hi4 Hc4 _ _. pose proof (machine_calm_trans _ _ _ Hc2 (machine_calm_trans _ _ _ Hc3 Hc4)) as Hc.
  pose proof (same_dir_trans _ _ _ Hd1 (calm_same _ _ Hc)) as Hd.
  pose proof (alone_calm _ _ Hc Hg1) as Hg4.
  assert (idle g4) as Hx4.
  { pose proof (alone_group _ _ _ Hi1 Hg1 Hc) as Hgr. rewrite Hx1 in Hgr. intros x Hx. by rewrite Hx in Hgr. }
  set (r' := with_state r Stopped true (r_reason r)).
  assert (kin r' r) as Hk by apply kin_state, kin_refl.
  apply hold_bind. eapply (hold_write_kin b e r r'); [done|done|by eapply same_now|done|by rewrite Hf|done| |done| |].
  - change (receipt_ok (with_state r Stopped (bool_decide (Stopped = Stopped)) (r_reason r))).
    apply receipt_ok_state; [done|by apply receipt_ok_reason].
  - intros _. split; [done|]. intros v Hv. rewrite (same_all _ _ _ Hd Ha v Hv). unfold closed. by rewrite Hr, Hf.
  - intros e' g5 Hi5 Hs5 He5 Hr5 _ _ _. apply hold_ret; [done|].
    apply HQ; [done| |by exists e'; split_and!; [..|eapply current_ok]|done..].
    eapply machine_steady_trans; [exact Hs1|]. eapply machine_steady_trans; [apply minor_steady, Hc|done].
Qed.

(** Fencing the current receipt, or what continues it, and cleaning up. *)
Lemma hold_fence b e r0 r why (Q : Receipt -> Machine -> Prop) g :
  inv b g -> guardian g = None -> now_ e g -> receipt_in e = Some r0 -> r_state r0 <> Stopped ->
  kin r r0 -> receipt_ok r -> is_none_or (fun t => strlen t <? 256) why = true ->
  (forall r' g', inv b g' -> steady g g' -> answers r' g' -> r_state r' = Stopped -> kin r' r -> Q r' g') ->
  hold b (_ ← write_receipt (with_state r Fenced false why); finish_cleanup (with_state r Fenced false why)) Q g.
Proof.
  intros Hi Hg He Hr Hs Hk Hok Hw HQ. set (f := with_state r Fenced false why).
  assert (kin f r0) as Hkf by by apply kin_state.
  apply hold_bind. eapply (hold_write_kin b e r0 f); [done..| |done|done|].
  - exact (receipt_ok_state r Fenced why Hok Hw).
  - intros e' g1 Hi1 Hs1 He1 Hr1 Ha1 _ _. eapply hold_finish_cleanup; [done|by eapply steady_alone|done..|].
    intros r' g2 Hi2 Hs2 Han Hst Hkr. apply HQ; [done|by eapply machine_steady_trans|done..|].
    destruct Hkr as [Hk1 Hk2 [Hk3 Hk4 Hk5]]. by split.
Qed.

Lemma hold_manifest_receipt b (Q : Receipt -> Machine -> Prop) g :
  inv b g -> (forall r e g', inv b g' -> calm g g' -> now_ e g' -> receipt_in e = Some r -> receipt_ok r -> Q r g') ->
  hold b (manifest_receipt m) Q g.
Proof.
  intros Hi HQ. unfold manifest_receipt. apply hold_bind.
  eapply (hold_calm _ _ _ _ _ b (read_json RECEIPT) (fun r g' => exists e, now_ e g' /\ receipt_in e = Some r)); [done| |].
  { apply calmly_read_json. intros v f a g' _ Hh Hv Ha. exists (ess v). unfold now_. rewrite Hh. split; [done|].
    unfold receipt_in, ess. cbn. by rewrite Hv. }
  intros r g1 Hi1 Hc1 (e & He & Hr) _ _. apply hold_bind, hold_checked; [done|]. intros [] Hv _ _.
  apply hold_ret; [done|]. by eapply HQ.
Qed.

(** [reconcile] *)
Lemma hold_reconcile b why (Q : Receipt -> Machine -> Prop) g :
  inv b g -> locked g = is_some (guardian g) -> strlen why < 256 ->
  (forall r g', inv b g' -> answers r g' -> r_state r = Stopped -> Q r g') -> hold b (reconcile m why) Q g.
Proof.
  intros Hi Hl Hw HQ. unfold reconcile. apply hold_bind, hold_checked; [done|]. intros [] _ _ _.
  apply hold_bind, hold_authorize_cleanup; [done..|]. intros [l c] w Hi1 _ _. apply hold_held.
  set (Q' := fun r g' => answers r g' /\ r_state r = Stopped).
  eapply (hold_mono _ _ _ _ _ b _ Q').
  2: { intros r g' Hi' _ [Ha Hs]. apply HQ; [by apply inv_drop|exact Ha|done]. }
  apply hold_exclusive; [done|exact Hl| |done].
  intros g1 e Hi2 Hg He _. apply hold_bind, hold_manifest_receipt; [done|].
  intros r e' g2 Hi3 Hc2 He2 Hr2 Hok _ _. pose proof (alone_calm _ _ Hc2 Hg) as Hg2.
  case_bool_decide as Hs.
  - apply hold_ret; [done|]. split; [by exists e'|done].
  - eapply (hold_fence b e' r r); [done..|apply kin_refl|done| |].
    + cbn. by apply Z.ltb_lt.
    + intros r' g3 _ _ Ha Hst _. by split.
Qed.

(** ** Starting from an empty directory *)

Lemma only_the_lock v : is_Some (v !! LOCK) ->
  size (filter (fun kv : string * node => top_level kv.1 = true) v) = 1%nat -> ess v = (None, None, true).
Proof.
  intros [x Hx] Hsz. set (f := filter _ v) in *.
  assert (f !! LOCK = Some x) as Hl by by apply map_lookup_filter_Some.
  assert (forall n y, v !! n = Some y -> top_level n = true -> n = LOCK) as Hone.
  { intros n y Hn Ht. destruct (decide (n = LOCK)) as [|Hne]; [done|]. exfalso.
    assert (f !! n = Some y) as Hf by by apply map_lookup_filter_Some.
    assert (size (delete LOCK f) = 0%nat) as H0s by (rewrite map_size_delete_Some by eauto; lia).
    apply map_size_empty_inv in H0s.
    assert (delete LOCK f !! n = Some y) as Hd by by rewrite lookup_delete_ne. by rewrite H0s in Hd. }
  unfold ess. f_equal; [f_equal|by rewrite Hx].
  - destruct (v !! RECEIPT) eqn:Hr; [|done]. by specialize (Hone _ _ Hr eq_refl).
  - destruct (v !! MANIFEST) eqn:Hr; [|done]. by specialize (Hone _ _ Hr eq_refl).
Qed.
Lemma hold_only_the_lock {A} b e why (k : M A) (Q : A -> Machine -> Prop) g :
  inv b g -> now_ e g -> e.2 = true ->
  (forall g', inv b g' -> calm g g' -> now_ (None, None, true) g' -> hold b k Q g') ->
  hold b (n ← count_entries; _ ← checked (ensure (n =? 1) why); k) Q g.
Proof.
  intros Hi He He2 HQ. apply hold_bind.
  eapply (hold_calm _ _ _ _ _ b count_entries (fun n g' => n = 1 -> now_ (None, None, true) g')); [done| |].
  { apply calmly_count. intros v g' Hc Hh Hn. unfold now_. rewrite Hh. cbn. f_equal. apply only_the_lock; [|lia].
    pose proof (now_calm _ _ _ Hc He) as Hnow. unfold now_ in Hnow. rewrite Hh in Hnow. injection Hnow as <-.
    unfold ess in He2. cbn in He2. by destruct (v !! LOCK). }
  intros n g1 Hi1 Hc1 Hn _ _. apply hold_bind, hold_checked; [done|]. intros [] Ht%ensure_ok _ _.
  apply Z.eqb_eq in Ht. by apply HQ; [..|apply Hn].
Qed.

(** Nothing depends on a directory without a receipt. *)
Lemma nothing_retained (R : Receipt -> Prop) g e : now_ e g -> receipt_in e = None -> ~ retained R g.
Proof.
  intros He Hr [_ HR]. destruct (current_view g e He) as (v & _ & Hv & <-). destruct (HR v Hv) as (r & Hr' & _). congruence.
Qed.
Lemma writable_new b g e r :
  inv b g -> guardian g = None -> now_ e g -> receipt_in e = None -> receipt_ok r ->
  (b = true -> r_state r <> Staging /\ r_state r <> Prepared) ->
  (r_state r = Stopped -> forall v, v ∈ views g -> closed (ess v)) -> writable b g r.
Proof.
  intros Hi Hg He Hr Hok Hb Hst.
  assert (forall x, group g = Some x -> ~ inhabited g x) as Hno.
  { intros x Hx Hin. eapply nothing_retained; [done..|by apply (i_group _ _ _ _ _ _ _ Hi x)]. }
  split; try done.
  - intros x Hx Hin. by destruct (Hno x Hx).
  - intros v r' Hv Hr' Hs'. destruct (i_stopped _ _ _ _ _ _ _ Hi v r' Hv Hr' Hs') as (_ & _ & (e' & r0 & He' & Hr0 & _) & _).
    rewrite (now_fun _ _ _ He' He) in Hr0. congruence.
  - intros Hs. split_and!; [|done|by apply Hst]. intros x Hx. destruct (populated x) eqn:Hp; [|done].
    destruct (Hno x Hx). by left.
  - intros p rec Hp. by rewrite Hg in Hp.
  - intros rl Hl. exfalso. eapply nothing_retained; [done..|by apply (i_low _ _ _ _ _ _ _ Hi rl)].
Qed.
Lemma new_receipt_ok d boot : digest m = Ok d -> receipt_ok (new_receipt m d boot).
Proof.
  intros Hd. unfold GuardianInv.receipt_ok, validate_receipt. rewrite Hd. cbn. apply ensure_ok.
  rewrite !andb_true_iff. split_and!; try done; by apply bool_decide_eq_true_2.
Qed.

Lemma hold_new_home_if b c (Q : unit -> Machine -> Prop) g :
  inv b g -> (forall g', inv b g' -> steady g g' -> Q tt g') ->
  hold b (if c : bool then _ ← private_state_root; private_home else mret tt) Q g.
Proof.
  intros Hi HQ. destruct c; [|apply hold_ret; [done|by apply HQ; [|apply steady_refl]]].
  apply hold_bind. eapply hold_mono; [by apply (hold_private_state_root _ _ _ _ _ b (fun _ _ => True))|].
  intros [] g1 Hi1 Hs1 _ _ _. apply hold_private_home; [done|]. intros g2 Hi2 Hs2. apply HQ; [done|by eapply machine_steady_trans].
Qed.
Lemma hold_digest {A} b (k : string -> M A) (Q : A -> Machine -> Prop) g :
  inv b g -> (forall d, digest m = Ok d -> hold b (k d) Q g) -> hold b (d ← checked (digest m); k d) Q g.
Proof. intros Hi Hk. apply hold_bind, hold_checked; [done|]. intros d Hd _ _. by apply Hk. Qed.

(** The end of [fence_unstarted] of an allocation that was never launched. *)
Lemma hold_fence_absent b d id (Q : Receipt -> Machine -> Prop) g :
  inv b g -> guardian g = None -> now_ (None, None, true) g -> digest m = Ok d ->
  (forall r g', inv b g' -> answers r g' -> r_state r = Stopped -> Q r g') ->
  let record := with_state (new_receipt m d id) Stopped true (Some "host_stop_before_launch") in
  hold b (_ ← write_manifest m; _ ← write_receipt record; mret record) Q g.
Proof.
  intros Hi Hg He Hd HQ record.
  apply hold_bind, (hold_write_manifest b (None, None, true)); [done..|]. intros c g1 Hi1 Hs1 Hw1 Ha1 _ _.
  pose proof (steady_alone _ _ Hs1 Hg) as Hg1. pose proof (wr_home _ _ _ Hw1) as He1.
  assert (receipt_ok record) as Hok.
  { apply (receipt_ok_state (new_receipt m d id) Stopped (Some "host_stop_before_launch")); [by apply new_receipt_ok|done]. }
  apply hold_bind. eapply (hold_write_receipt b record); [done|exact He1| |].
  - eapply writable_new; [done|done|exact He1|done..|]. intros _ v Hv. rewrite (Ha1 v Hv). by eexists.
  - intros c' g2 Hi2 Hs2 Hc2 Hw2 _ _ _. apply hold_ret; [done|]. apply HQ; [done| |done].
    exists (put_receipt (plain c') (put_manifest (plain c) (None, None, true))).
    split_and!; [apply Hw2|by apply in_plain_receipt|done].
Qed.
Lemma hold_fence_unstarted b (Q : Receipt -> Machine -> Prop) g :
  inv b g -> locked g = is_some (guardian g) ->
  (forall r g', inv b g' -> answers r g' -> r_state r = Stopped -> Q r g') -> hold b (fence_unstarted m) Q g.
Proof.
  intros Hi Hl HQ. unfold fence_unstarted. apply hold_bind, hold_checked; [done|]. intros [] _ _ _.
  apply hold_bind, hold_authorize_cleanup; [done..|]. intros [l c] w Hi1 _ _. apply hold_held.
  set (Q' := fun r g' => answers r g' /\ r_state r = Stopped).
  eapply (hold_mono _ _ _ _ _ b _ Q').
  2: { intros r g' Hi' _ [Ha Hs]. apply HQ; [by apply inv_drop|exact Ha|done]. }
  apply hold_bind, hold_new_home_if; [done|]. intros g0 Hi0 Hs0 _ _.
  apply hold_exclusive; [done| | |done].
  { rewrite (st_locked _ _ Hs0), (st_guardian _ _ Hs0). exact Hl. }
  intros g1 e Hi2 Hg He He2. apply hold_bind. eapply hold_tranquil; [done|apply tranquil_exists|].
  intros there g2 Hi3 Hc2 _ _. pose proof (alone_calm _ _ Hc2 Hg) as Hg2. pose proof (now_calm _ _ _ Hc2 He) as He'.
  destruct there.
  - apply hold_bind, hold_manifest_receipt; [done|]. intros r e' g3 Hi4 Hc3 He3 Hr3 Hok _ _.
    pose proof (alone_calm _ _ Hc3 Hg2) as Hg3. case_bool_decide as Hs.
    + apply hold_ret; [done|]. split; [by exists e'|done].
    + rewrite (receipt_ok_unconfirmed _ Hok Hs).
      eapply (hold_fence b e' r r); [done..|apply kin_refl|done|done|]. intros r' g4 _ _ Ha Hst _. by split.
  - apply hold_bind, hold_checked; [done|]. intros [] _ _ _.
    apply hold_bind. eapply hold_tranquil; [done|apply tranquil_group_exists|]. intros grp g3 Hi4 Hc3 _ _.
    apply hold_bind, hold_checked; [done|]. intros [] _ _ _.
    eapply hold_only_the_lock; [done|by eapply now_calm|done|]. intros g4 Hi5 Hc4 He4.
    apply hold_digest; [done|]. intros d Hd.
    apply hold_bind. eapply hold_tranquil; [done|apply tranquil_boot_id|]. intros id g5 Hi6 Hc5 _ _.
    apply hold_fence_absent; [done| |by eapply now_calm|done|by split].
    eapply alone_calm; [exact Hc5|]. eapply alone_calm; [exact Hc4|]. by eapply alone_calm.
Qed.

(** [prepare] *)
Lemma hold_assoc {A B C} b (x : M A) (k1 : A -> M B) (k2 : B -> M C) (Q : C -> Machine -> Prop) g :
  hold b ((x ≫= k1) ≫= k2) Q g -> hold b (x ≫= fun a => k1 a ≫= k2) Q g.
Proof. unfold GuardianKeeps.hold, pwp, mbind, ST_bind. by destruct (x g) as [g' [a|e]]. Qed.
Lemma sealed_closed g e : inv true g -> now_ e g -> closed e.
Proof.
  intros Hi He. destruct (current_view g e He) as (v & _ & Hv & <-). by apply (i_sealed _ _ _ _ _ _ _ Hi eq_refl).
Qed.
Lemma hold_prepare_staged b e r0 r staged (Q : Receipt -> Machine -> Prop) g :
  inv b g -> b = false -> guardian g = None -> now_ e g -> receipt_in e = Some r0 -> r_state r0 = Staging ->
  kin r r0 -> receipt_ok r ->
  (forall r' g', inv b g' -> answers r' g' -> Q r' g') ->
  hold b (match staged : result CleanupError unit with
          | Err _ =>
              let record := with_state r Fenced false (Some "artifact_staging_failed") in
              _ ← write_receipt record;
              _ ← finish_cleanup record;
              checked (Err "artifact staging failed; allocation fenced")
          | Ok _ =>
              let record := with_state r Prepared false None in
              _ ← write_receipt record;
              mret record
          end) Q g.
Proof.
  intros Hi Hb Hg He Hr Hst Hk Hok HQ.
  assert (forall s why, s <> Stopped -> is_none_or (fun t => strlen t <? 256) why = true ->
            receipt_ok (with_state r s false why)) as Hoks.
  { intros s why Hs Hw. pose proof (receipt_ok_state r s why Hok Hw) as Hx. by rewrite bool_decide_eq_false_2 in Hx. }
  destruct staged as [[]|err]; cbn zeta.
  - apply hold_bind. eapply (hold_write_kin b e r0); [done..|by rewrite Hst|by apply kin_state|by apply Hoks|by rewrite Hb|done|].
    intros e' g1 Hi1 _ He1 Hr1 _ _ _. apply hold_ret; [done|]. apply HQ; [done|].
    exists e'. split_and!; [done..|by eapply current_ok].
  - apply (hold_assoc b _ (fun _ => finish_cleanup (with_state r Fenced false (Some "artifact_staging_failed")))
                (fun _ => checked (Err "artifact staging failed; allocation fenced"))).
    apply hold_bind. eapply (hold_fence b e r0 r); [done..|by rewrite Hst|done|done|done|].
    intros r' g1 Hi1 _ _ _ _ _ _. by apply hold_checked.
Qed.
Lemma hold_prepare_fresh b e (Q : Receipt -> Machine -> Prop) g :
  inv b g -> guardian g = None -> now_ e g -> e.2 = true ->
  (forall r g', inv b g' -> answers r g' -> Q r g') -> hold b (prepare_fresh m) Q g.
Proof.
  intros Hi Hg He He2 HQ. unfold prepare_fresh.
  apply hold_bind. eapply hold_tranquil; [done|apply tranquil_group_exists|]. intros grp g1 Hi1 Hc1 _ _.
  apply hold_bind, hold_checked; [done|]. intros [] _ _ _.
  eapply hold_only_the_lock; [done|by eapply now_calm|done|]. intros g2 Hi2 Hc2 He2'.
  assert (b = false) as Hb.
  { destruct b; [|done]. by destruct (sealed_closed _ _ Hi2 He2'). }
  apply hold_bind. eapply hold_tranquil; [done|by apply tranquil_ask|]. intros now g3 Hi3 Hc3 _ _.
  apply hold_bind. eapply hold_tranquil; [done|by apply tranquil_ask|]. intros boot g4 Hi4 Hc4 _ _.
  apply hold_bind, hold_checked; [done|]. intros d0 _ _ _. apply hold_digest; [done|]. intros d Hd.
  apply hold_bind. eapply hold_tranquil; [done|apply tranquil_boot_id|]. intros id g5 Hi5 Hc5 _ _.
  pose proof (machine_calm_trans _ _ _ Hc3 (machine_calm_trans _ _ _ Hc4 Hc5)) as Hc.
  pose proof (alone_calm _ _ (machine_calm_trans _ _ _ Hc1 (machine_calm_trans _ _ _ Hc2 Hc)) Hg) as Hg5.
  pose proof (now_calm _ _ _ Hc He2') as He5. pose proof (new_receipt_ok d id Hd) as Hok.
  cbn zeta. set (r0 := new_receipt m d id) in *.
  apply hold_bind. eapply (hold_write_receipt b r0); [done|exact He5| |].
  { eapply writable_new; [done..|by rewrite Hb|done]. }
  intros c g6 Hi6 Hs6 Hr0 Hw6 _ _ _. set (e6 := put_receipt (plain c) (None, None, true)) in *.
  apply hold_bind, (hold_write_manifest b e6); [done|apply Hw6|]. intros c' g7 Hi7 Hs7 Hw7 _ _ _.
  set (e7 := put_manifest (plain c') e6) in *.
  assert (receipt_in e7 = Some r0) as Hr7 by exact (in_plain_receipt r0 c (None, Some (plain c'), true) Hr0).
  pose proof (steady_alone _ _ (machine_steady_trans _ _ _ Hs6 Hs7) Hg5) as Hg7.
  apply hold_bind. eapply hold_tranquil; [done|apply tranquil_attempt, tranquil_stage|]. intros staged g8 Hi8 Hc8 _ _.
  apply hold_bind. eapply (hold_calm _ _ _ _ _ b _ (fun a _ => kin a.1 r0 /\ receipt_ok a.1)); [done| |].
  { destruct staged as [[]|err]; [|apply calmly_ret; split; [apply kin_refl|done]].
    eapply calmly_mono; [apply calmly_stage_identity|].
    intros [r s] g' _ [Hr | (d' & x & Hr)]; cbn in Hr |- *; subst; (split; [|done]); [apply kin_refl|apply kin_identity, kin_refl]. }
  intros [r s] g9 Hi9 Hc9 [Hk Hrok] _ _. cbn in Hk, Hrok.
  eapply hold_prepare_staged; [done|done| | |exact Hr7|done..].
  - eapply alone_calm; [exact Hc9|]. by eapply alone_calm.
  - eapply now_calm; [exact Hc9|]. eapply now_calm; [exact Hc8|]. apply Hw7.
Qed.
Lemma hold_prepare b (Q : Receipt -> Machine -> Prop) g :
  inv b g -> locked g = is_some (guardian g) ->
  (forall r g', inv b g' -> answers r g' -> Q r g') -> hold b (prepare m) Q g.
Proof.
  intros Hi Hl HQ. unfold prepare. apply hold_bind, hold_checked; [done|]. intros [] _ _ _.
  apply hold_bind, hold_authorize_launch; [done..|]. intros l w Hi1 _ _ _. apply hold_held.
  eapply (hold_mono _ _ _ _ _ b _ answers).
  2: { intros r g' Hi' _ Ha. apply HQ; [by apply inv_drop|exact Ha]. }
  apply hold_bind. eapply hold_mono; [by apply (hold_private_state_root _ _ _ _ _ b (fun _ _ => True))|].
  intros [] g1 Hi2 Hs1 _ _ _. apply hold_bind, hold_private_home; [done|]. intros g2 Hi3 Hs2 _ _.
  apply hold_exclusive; [done| | |done].
  { rewrite (st_locked _ _ Hs2), (st_guardian _ _ Hs2), (st_locked _ _ Hs1), (st_guardian _ _ Hs1). exact Hl. }
  intros g3 e Hi4 Hg He He2. apply hold_bind. eapply hold_tranquil; [done|apply tranquil_exists|].
  intros there g4 Hi5 Hc4 _ _. pose proof (alone_calm _ _ Hc4 Hg) as Hg4. pose proof (now_calm _ _ _ Hc4 He) as He'.
  destruct there.
  - apply hold_manifest_receipt; [done|]. intros r e' g5 _ _ He5 Hr5 Hok. by exists e'.
  - eapply hold_prepare_fresh; [done..|]. by intros.
Qed.
End cleanup.
