(* ===== verification/GuardianServes.v ===== *)
(** * The guardian process keeps the invariant

    What a guardian writes continues the receipt behind its mutex, which no durable receipt is
    behind of; its requests, its watchdog and its end keep that. *)

From S2P Require Import Prelude Ext Ids Authority AuthorityLaws Fs FsLaws Store LaunchAuthority LaunchLaws LaunchTheorems.
From S2P Require Import Guardian GuardianEnv GuardianOps GuardianProcess GuardianLaws GuardianInv GuardianKeeps GuardianCleanup.
From S2P Require GuestModel Lease Bootstrap Identity.
Import Identity(Identity, issue, client_tls, TlsLib).
#[local] Existing Instances Guardian.State_eq_dec Guardian.Owner_eq_dec.

(** The guardian serves this receipt. *)
Definition serving (rec : Receipt) (g : Machine) : Prop :=
  exists p, guardian g = Some p /\ shared p = Some rec.

(** A frame is read as what was written. *)
Lemma take_all s : take_bytes (String.length s) s = Some (s, "").
Proof. induction s as [|c s IH]; cbn; [done|]. by rewrite IH. Qed.
Lemma read_written {A} `{Lossless A} (v : A) frame : write_frame v = Ok frame -> read_frame frame = Ok v.
Proof.
  unfold write_frame, read_frame. intros Hw. apply bind_ok in Hw as (b & Hb%ok_or_ok & Hw).
  apply bind_ok in Hw as ([] & Hn%ensure_ok & Hf).
  assert (frame = to_be_bytes 4 (N.of_nat (String.length b)) +:+ b) as -> by congruence. apply andb_true_iff in Hn as [Hne Hle%Z.leb_le].
  apply negb_true_iff, bool_decide_eq_false in Hne.
  assert (0 < strlen b) as Hpos by (destruct b; [done|unfold strlen; cbn; lia]). unfold strlen, CONTROL_BYTES in *.
  pose proof (take_bytes_app (to_be_bytes 4 (N.of_nat (String.length b))) b) as Ht. rewrite to_be_bytes_len in Ht.
  rewrite Ht. cbn [ok_or mbind result_bind fst snd]. rewrite from_to_be_bytes, N.mod_small by (cbn; lia).
  replace (Z.of_N _) with (Z.of_nat (String.length b)) by (cbn; lia).
  rewrite (proj2 (ensure_ok _ _ tt)) by (rewrite andb_true_iff, Z.ltb_lt, Z.leb_le; unfold CONTROL_BYTES; lia).
  cbn. rewrite Nat2Z.id, take_all. cbn. by rewrite (reads_back v b Hb).
Qed.

Section serves.
Context `{GuardianEnv, UuidLaws, Serde Manifest, Sha256, Sha256Laws0 : !Sha256Laws, HexLib, Serde Receipt,
          Serde Authority.Saved, SavedLaws : !SerdeLaws Authority.Saved saved_representable,
          Serde Authority.Retirement.Intent, Serde LaunchAuthority.Required, Serde LaunchAuthority.Saved,
          FileLaws : !SerdeLaws LaunchAuthority.Saved file_representable,
          ReceiptLossless : !Lossless Receipt, ManifestLossless : !Lossless Manifest,
          Serde VmConfig, Serde Bootstrap.Bootstrap, Serde Identity, TlsLib,
          Serde Request, Serde Response}.
Context (m : Manifest) (h : HostId).
Context (quelled : bool) (low : option Receipt) (P : Z * Authority -> Prop).
Hypothesis Hhost : forall p, launch_permit m = Some p -> Authority.host p = h.

Abbreviation inv := (inv m h quelled low P).
Abbreviation receipt_ok := (receipt_ok m).
Abbreviation writable := (writable m low).
Abbreviation hold := (hold m h quelled low P).

Lemma serving_minor rec g g' : minor g g' -> serving rec g -> serving rec g'.
Proof.
  intros Hm (p & Hp & Hs). pose proof (mi_guardian _ _ Hm) as Hd. rewrite Hp in Hd. unfold serving.
  destruct (guardian g') as [p'|]; [|done]. exists p'. split; [done|]. by destruct Hd as [-> | ->].
Qed.
Lemma serving_fun r r' g : serving r g -> serving r' g -> r = r'.
Proof. intros (p & Hp & Hs) (p' & Hp' & Hs'). congruence. Qed.

(** ** The guardian's memory *)

(** The mutex, the deadline and the connections may change like this. *)
Record allowed (g : Machine) (p : Process) : Prop := {
  al_deadline : deadline_ok (trace g) (deadline p);
  al_threads : (length (threads p) <= CONTROL_LIMIT)%nat;
  al_quelled : quelled = true -> fenced p;
  al_shared : forall rec, shared p = Some rec ->
    receipt_ok rec /\ serves rec /\ (forall x, group g = Some x -> owns g x rec) /\
    retained (fun r => covers r rec) g /\ (forall r0, low = Some r0 -> covers rec r0);
}.
Lemma allowed_now b g p : inv b g -> guardian g = Some p -> allowed g p.
Proof.
  intros Hi Hp. split.
  - by apply (i_deadline _ _ _ _ _ _ _ Hi).
  - by apply (i_threads _ _ _ _ _ _ _ Hi).
  - intros Hq. by apply (i_quelled _ _ _ _ _ _ _ Hi Hq).
  - intros rec Hs. destruct (i_registry _ _ _ _ _ _ _ Hi p rec Hp Hs) as (? & ? & ? & ?). split_and!; [done..|].
    intros r0 Hl. by apply (i_low _ _ _ _ _ _ _ Hi r0 Hl) with p.
Qed.
Lemma inv_memory b g p p' : inv b g -> guardian g = Some p -> allowed g p' -> inv b (set_guardian g (Some p')).
Proof.
  intros Hi Hp [Hd Ht Hq Hs]. split; try apply Hi.
  - intros Hj. destruct (i_jailing _ _ _ _ _ _ _ Hi Hj) as [_ Hx]. split; [by eexists|done].
  - intros v r Hv Hr Hst. destruct (i_stopped _ _ _ _ _ _ _ Hi v r Hv Hr Hst) as (_ & Hn & _). congruence.
  - cbn. intros ? rec [= <-] Hr. destruct (Hs rec Hr) as (? & ? & ? & ? & ?). by split_and!.
  - by cbn; intros ? [= <-].
  - by cbn; intros ? [= <-].
  - cbn. intros Hqu ? [= <-]. auto.
  - intros r0 Hl. destruct (i_low _ _ _ _ _ _ _ Hi r0 Hl) as [Hr _]. split; [done|].
    cbn. intros ? rec [= <-] Hr'. by apply (Hs rec Hr').
Qed.
Lemma steady_memory g p p' : guardian g = Some p -> (is_some (shared p) = true -> is_some (shared p') = true) ->
  steady g (set_guardian g (Some p')).
Proof.
  intros Hp Hs. split; try done; [apply quiet_refl|cbn; by rewrite Hp|]. cbn. intros Hall ? [= <-]. auto.
Qed.
Lemma hold_memory b (f : Process -> Process) (Q : unit -> Machine -> Prop) g p :
  inv b g -> guardian g = Some p -> allowed g (f p) -> (is_some (shared p) = true -> is_some (shared (f p)) = true) ->
  (inv b (set_guardian g (Some (f p))) -> Q tt (set_guardian g (Some (f p)))) ->
  hold b (modify (on_guardian f)) Q g.
Proof.
  intros Hi Hp Ha Hs HQ. unfold GuardianKeeps.hold, pwp, modify, on_guardian. cbn. rewrite Hp. cbn.
  pose proof (inv_memory _ _ _ _ Hi Hp Ha) as Hi'. split_and!; [done|by eapply steady_memory|]. intros [] _. auto.
Qed.
Lemma hold_the_guardian b (Q : Process -> Machine -> Prop) g :
  inv b g -> (forall p, guardian g = Some p -> Q p g) -> hold b the_guardian Q g.
Proof.
  intros Hi HQ. unfold GuardianKeeps.hold, pwp, the_guardian. destruct (guardian g) as [p|]; cbn;
    (split_and!; [done|apply steady_refl|]); [|done]. intros ? [= <-]. by apply HQ.
Qed.
Lemma hold_registry b (Q : Receipt -> Machine -> Prop) g :
  inv b g -> (forall rec, serving rec g -> Q rec g) -> hold b registry Q g.
Proof.
  intros Hi HQ. unfold registry. apply hold_bind, hold_the_guardian; [done|]. intros p Hp _ _.
  apply hold_checked; [done|]. intros rec Hr%ok_or_ok. apply HQ. by exists p.
Qed.
Lemma hold_deadline_value b (Q : Z -> Machine -> Prop) g :
  inv b g -> (forall p, guardian g = Some p -> Q (deadline p) g) -> hold b deadline_value Q g.
Proof.
  intros Hi HQ. unfold deadline_value. apply hold_bind, hold_the_guardian; [done|]. intros p Hp _ _.
  apply hold_ret; [done|]. by apply HQ.
Qed.
Lemma hold_deadline_stop b (Q : unit -> Machine -> Prop) g rec :
  inv b g -> serving rec g ->
  (forall g', inv b g' -> serving rec g' -> same_dir g g' -> (exists p, guardian g' = Some p /\ deadline p = 0) -> Q tt g') ->
  hold b deadline_stop Q g.
Proof.
  intros Hi (p & Hp & Hs) HQ. destruct (allowed_now _ _ _ Hi Hp) as [Hd Ht Hq Hr].
  eapply hold_memory; [done|done| |done|].
  - split; [by left|done|by left|done].
  - intros Hi'. apply HQ; [done|by eexists|by apply same_dir_of|by eexists].
Qed.

(** The receipt behind the mutex is replaced. *)
Lemma hold_set_registry b r rec (Q : unit -> Machine -> Prop) g :
  inv b g -> serving rec g -> kin r rec -> receipt_ok r -> serves r ->
  (quelled = true -> r_state rec <> Running -> r_state r <> Running) -> retained (fun r' => covers r' r) g ->
  (forall g', inv b g' -> serving r g' -> same_dir g g' -> Q tt g') -> hold b (set_registry r) Q g.
Proof.
  intros Hi (p & Hp & Hs) Hk Hok Hsv Hqr Hre HQ. destruct (allowed_now _ _ _ Hi Hp) as [Hd Ht Hq Hr].
  destruct (Hr rec Hs) as (_ & _ & Ho & _ & Hl).
  unfold set_registry. eapply hold_memory; [done|done| |done|].
  - split; cbn; [done|done| |].
    + intros Hqu. destruct (Hq Hqu) as [Hz|(rec' & Hs' & Hn)]; [by left|]. right. exists r. split; [done|].
      apply Hqr; [done|]. congruence.
    + intros ? [= <-]. split_and!; [done|done| |done|].
      * intros x Hx. eapply owns_kin; [done|by apply Ho].
      * intros r0 Hl0. eapply covers_trans; [apply Hk|by apply Hl].
  - intros Hi'. apply HQ; [done|by eexists|by apply same_dir_of].
Qed.

(** What continues the guardian's receipt may be written. *)
Lemma writable_served b g rec r :
  inv b g -> serving rec g -> kin r rec -> receipt_ok r -> serves r -> writable b g r.
Proof.
  intros Hi (p & Hp & Hs) Hk Hok Hsv.
  destruct (i_registry _ _ _ _ _ _ _ Hi p rec Hp Hs) as (_ & _ & Ho & _).
  split; try done.
  - intros _. by destruct Hsv as [-> | ->].
  - intros x Hx _. eapply owns_kin; [done|by apply Ho].
  - intros v r' Hv Hr' Hst. destruct (i_stopped _ _ _ _ _ _ _ Hi v r' Hv Hr' Hst) as (_ & Hn & _). congruence.
  - intros Hst. by destruct Hsv as [Hx|Hx]; rewrite Hx in Hst.
  - intros p' rec' Hp' Hs'. assert (rec' = rec) as -> by congruence. apply Hk.
  - intros r0 Hl. eapply covers_trans; [apply Hk|]. by apply (i_low _ _ _ _ _ _ _ Hi r0 Hl) with p.
Qed.
Lemma pwp_write_served b r rec g :
  inv b g -> serving rec g -> kin r rec -> receipt_ok r -> serves r ->
  pwp (write_receipt r) (fun res g' => inv b g' /\ steady g g' /\ serving rec g' /\
    (res = Ok tt -> retained (fun r' => r' = r) g')) g.
Proof.
  intros Hi Hsv Hk Hok Hse. pose proof (writable_served b g rec r Hi Hsv Hk Hok Hse) as Hwa.
  destruct Hsv as (p & Hp & Hs). assert (serving rec g) as Hsv by by exists p.
  destruct (i_registry _ _ _ _ _ _ _ Hi p rec Hp Hs) as (_ & _ & _ & [v Hv] & _).
  assert (ess <$> home g = Some (ess v)) as He by by rewrite Hv.
  eapply (write_json_outcome RECEIPT r put_receipt); [intros; by apply ess_put_receipt|exact He| |].
  - intros e g' Hc. split_and!; [by eapply inv_calm|by apply minor_steady, Hc|by eapply serving_minor; [apply Hc|]|done].
  - intros c res g' Hc Ho.
    assert (calm g g' \/ wrote (put_receipt (plain c) (ess v)) g g') as Hcw.
    { destruct res as [[]|e]; [right; apply Ho|exact Ho]. }
    assert (inv b g' /\ minor g g') as [Hi' Hm].
    { destruct Hcw as [Hcm|Hw]; (split; [|by apply Hcm || apply Hw]); [by eapply inv_calm|by eapply inv_receipt]. }
    split_and!; [done|by apply minor_steady|by eapply serving_minor|]. intros ->. destruct Ho as [Hw Ha].
    split; [by eapply wrote_some|]. intros v' Hv'. exists r. rewrite (Ha v' Hv'). split; [|done]. by apply in_plain_receipt.
Qed.
Lemma hold_write_served b r rec (Q : unit -> Machine -> Prop) g :
  inv b g -> serving rec g -> kin r rec -> receipt_ok r -> serves r ->
  (forall g', inv b g' -> serving rec g' -> retained (fun r' => r' = r) g' -> Q tt g') ->
  hold b (write_receipt r) Q g.
Proof.
  intros Hi Hsv Hk Hok Hse HQ. unfold GuardianKeeps.hold. eapply pwp_mono; [by apply (pwp_write_served b r rec)|].
  intros res g' (Hi' & Hs' & Hsv' & Hre). split_and!; [done..|]. intros [] ->. auto.
Qed.
(** A write whose failure is handled. *)
Lemma hold_save b r rec (Q : result CleanupError unit -> Machine -> Prop) g :
  inv b g -> serving rec g -> kin r rec -> receipt_ok r -> serves r ->
  (forall saved g', inv b g' -> serving rec g' -> (saved = Ok tt -> retained (fun r' => r' = r) g') -> Q saved g') ->
  hold b (attempt (write_receipt r)) Q g.
Proof.
  intros Hi Hsv Hk Hok Hse HQ. pose proof (pwp_write_served b r rec g Hi Hsv Hk Hok Hse) as Hw.
  unfold GuardianKeeps.hold, pwp, attempt in *. destruct (write_receipt r g) as [g' [[]|[|e]]]; cbn in *;
    destruct Hw as (Hi' & Hs' & Hsv' & Hre); (split_and!; [done..|]); intros ? [= <-]; apply HQ; try done. auto.
Qed.
Lemma serving_facts b g rec : inv b g -> serving rec g ->
  receipt_ok rec /\ serves rec /\ retained (fun r => covers r rec) g.
Proof.
  intros Hi (p & Hp & Hs). destruct (i_registry _ _ _ _ _ _ _ Hi p rec Hp Hs) as (? & ? & _ & ?). by split_and!.
Qed.
Lemma kin_renewal r revision expires :
  r_renewal_revision r <= revision -> r_expires_unix_ms r <= expires -> kin (with_renewal r revision expires) r.
Proof. intros Hr He. split; [done..|]. by split. Qed.
Lemma kin_guest r boot : r_guest_boot_id r = None -> kin (with_guest r boot) r.
Proof. intros Hr. split; [done..|]. split; [done..|]. intros b Hb. congruence. Qed.

(** ** Requests *)

Lemma calmly_boot_ms (Q : Z -> Machine -> Prop) g :
  (forall t g', calm g g' -> trace g' = ReadBoot :: t -> Q (boot_answer t) g') -> calmly boot_ms Q g.
Proof.
  intros HQ. pose proof (calm_stirred g ReadBoot eq_refl) as Hc. split; [exact Hc|]. intros ? [= <-]. by apply HQ.
Qed.
Lemma serving_calm rec g g' : calm g g' -> serving rec g -> serving rec g'.
Proof. intros Hc. apply serving_minor, Hc. Qed.

(** With [quelled], nothing that asks for a running lease goes on. *)
Lemma live_unquelled b g rec p : inv b g -> serving rec g -> guardian g = Some p -> 0 < deadline p ->
  r_state rec = Running -> quelled <> true.
Proof.
  intros Hi (p' & Hp' & Hs) Hp Hd Hr Hq. destruct (i_quelled _ _ _ _ _ _ _ Hi Hq p Hp) as [Hz|(rec' & Hs' & Hn)]; [lia|].
  congruence.
Qed.

Lemma hold_extend b rec prior expires wall t (Q : unit -> Machine -> Prop) g :
  inv b g -> serving rec g -> quelled <> true -> trace g = ReadBoot :: t ->
  (forall g', inv b g' -> serving rec g' -> same_dir g g' -> Q tt g') ->
  hold b (on_deadline (Lease.extend prior expires wall (boot_answer t))) Q g.
Proof.
  intros Hi Hsv Hq Ht HQ. unfold on_deadline. apply hold_bind, hold_the_guardian; [done|]. intros p Hp _ _.
  destruct (allowed_now _ _ _ Hi Hp) as [Hd Hth _ Hr].
  assert (deadline_ok (trace g) (Lease.extend prior expires wall (boot_answer t) (deadline p)).1) as Hd'.
  { unfold Lease.extend. destruct (Lease.extend_next _ _ _ _) as [next|e] eqn:Hn; [|done].
    apply Lease.extend_next_ok in Hn as (_ & -> & Hrange & _ & Hpr). rewrite Lease.compare_exchange_cases.
    case_decide; [|done]. cbn. right. exists [], t. split; [done|]. pose proof (boot_answer_u64 t). lia. }
  destruct (Lease.extend prior expires wall (boot_answer t) (deadline p)) as [d r]. cbn in Hd'.
  apply hold_bind. destruct Hsv as (p' & Hp' & Hs). assert (p' = p) as -> by congruence.
  eapply hold_memory; [done|done|by split|done|]. intros Hi' _ _. apply hold_checked; [done|]. intros [] _.
  apply HQ; [done|by eexists|by apply same_dir_of].
Qed.

Lemma hold_renew b rec revision expires (Q : unit -> Machine -> Prop) g :
  inv b g -> serving rec g ->
  (forall rec' g', inv b g' -> serving rec' g' -> quelled <> true -> Q tt g') ->
  hold b (renew rec revision expires) Q g.
Proof.
  intros Hi Hsv HQ. unfold renew. destruct (serving_facts _ _ _ Hi Hsv) as (Hok & Hse & Hre).
  apply hold_bind, hold_checked; [done|]. intros [] _ _ _.
  apply hold_bind, hold_deadline_value; [done|]. intros p Hp _ _.
  apply hold_bind. eapply (hold_calm _ _ _ _ _ b boot_ms (fun now _ => 0 <= now)); [done| |].
  { apply calmly_boot_ms. intros t g' _ _. apply boot_answer_u64. }
  intros now g1 Hi1 Hc1 Hnow _ _. pose proof (serving_calm _ _ _ Hc1 Hsv) as Hsv1.
  apply hold_bind, hold_checked; [done|]. intros [] Hlive%ensure_ok _ _.
  apply andb_true_iff in Hlive as [Hlt Hrun]. apply Z.ltb_lt in Hlt. apply bool_decide_eq_true in Hrun.
  assert (quelled <> true) as Hq by (eapply (live_unquelled b g); [done..| |done]; lia).
  apply hold_bind, hold_checked; [done|]. intros [] Hrev%ensure_ok _ _. apply andb_true_iff in Hrev as [_ Hrev%Z.leb_le].
  destruct (revision =? _); [apply hold_checked; [done|]; intros [] _; by eapply HQ|].
  apply hold_bind, hold_checked; [done|]. intros [] Hexp%ensure_ok%Z.leb_le _ _.
  apply hold_bind. eapply hold_tranquil; [done|by apply tranquil_ask|]. intros wall g2 Hi2 Hc2 _ _.
  apply hold_bind. eapply hold_tranquil; [done|by apply tranquil_ask|]. intros boot g3 Hi3 Hc3 _ _.
  apply hold_bind, hold_checked; [done|]. intros d _ _ _. cbn zeta.
  pose proof (serving_calm _ _ _ Hc3 (serving_calm _ _ _ Hc2 Hsv1)) as Hsv3.
  set (renewed := with_renewal rec revision expires).
  assert (kin renewed rec) as Hk by by apply kin_renewal.
  apply hold_bind. eapply hold_save; [done|done|done|done|done|]. intros saved g4 Hi4 Hsv4 Hsaved _ _.
  destruct saved as [[]|e].
  - apply hold_bind. eapply hold_tranquil; [done|by apply tranquil_ask|]. intros wall' g5 Hi5 Hc5 _ _.
    apply hold_bind.
    eapply (hold_calm _ _ _ _ _ b boot_ms (fun now g' => exists t, trace g' = ReadBoot :: t /\ now = boot_answer t)); [done| |].
    { apply calmly_boot_ms. eauto. }
    intros boot' g6 Hi6 Hc6 (t & Ht & ->) _ _. pose proof (machine_calm_trans _ _ _ Hc5 Hc6) as Hc.
    apply hold_bind. eapply hold_extend; [done|by eapply serving_calm|done|done|]. intros g7 Hi7 Hsv7 Hd7 _ _.
    eapply (hold_set_registry b renewed rec); [done..| |]; [|intros g8 Hi8 Hsv8 _; by eapply HQ].
    eapply retained_same; [exact Hd7|]. eapply retained_same; [by apply calm_same|].
    eapply retained_mono; [|by apply Hsaved]. by intros r ->.
  - apply hold_bind. eapply hold_deadline_stop; [done|done|]. intros g5 Hi5 _ _ _ _ _. by apply hold_checked.
Qed.

(** What a request was answered with: the receipt that the guardian serves. *)
Definition served (v : Response) (g : Machine) : Prop :=
  exists rec, receipt v = Some rec /\ serving rec g.
Definition asks_for_lease (a : Action) : bool := match a with Renew _ _ => true | _ => false end.

Lemma hold_act b a rec (Q : Response -> Machine -> Prop) g :
  inv b g -> serving rec g ->
  (forall v g', inv b g' -> served v g' -> (asks_for_lease a = true -> quelled <> true) ->
     (a = Stop -> forall p, guardian g' = Some p -> fenced p) -> Q v g') ->
  hold b (act a) Q g.
Proof.
  intros Hi Hsv HQ. unfold act. apply hold_bind, hold_registry; [done|]. intros rec0 Hsv0 _ _.
  assert (rec0 = rec) as -> by by eapply serving_fun. destruct (serving_facts _ _ _ Hi Hsv) as (Hok & Hse & Hre).
  set (Q1 := fun (_ : unit) g' => (exists rec', serving rec' g') /\ (asks_for_lease a = true -> quelled <> true) /\
     (a = Stop -> forall p, guardian g' = Some p -> fenced p)).
  apply hold_bind, (hold_mono _ _ _ _ _ b _ Q1).
  - unfold Q1. destruct a as [| |revision expires|]; cbn.
    + apply hold_ret; [done|]. split_and!; [by eexists|done..].
    + by apply hold_checked.
    + eapply hold_renew; [done..|]. intros rec' g' Hi' Hs' Hq. split_and!; [by eexists|done..].
    + assert (r_state rec <> Stopped) as Hns by (destruct Hse as [-> | ->]; done).
      rewrite (receipt_ok_unconfirmed _ _ Hok Hns). set (stopping := with_state rec Stopping false (Some "stop_requested")).
      assert (kin stopping rec) as Hk by apply kin_state, kin_refl.
      assert (receipt_ok stopping) as Hok' by exact (receipt_ok_state m rec Stopping (Some "stop_requested") Hok eq_refl).
      assert (serves stopping) as Hse' by by right.
      apply hold_bind. eapply hold_set_registry; [done|done|done|done|done|done| |].
      { eapply retained_mono; [|exact Hre]. intros r Hc. destruct Hc as [H1c H2c H3c]. by split. }
      intros g1 Hi1 Hsv1 _ _ _. apply hold_bind.
      eapply (hold_save b stopping stopping); [done|done|apply kin_refl|done|done|]. intros saved g2 Hi2 Hsv2 _ _ _.
      apply hold_bind. eapply hold_deadline_stop; [done|done|]. intros g3 Hi3 Hsv3 _ (p & Hp & Hd) _ _.
      destruct saved; [|by apply hold_fail]. apply hold_ret; [done|]. split_and!; [by eexists|done|].
      intros _ p' Hp'. left. congruence.
  - intros [] g1 Hi1 _ ((rec' & Hsv1) & Hlease & Hstop) _ _.
    apply hold_bind, hold_registry; [done|]. intros rec2 Hsv2 _ _. apply hold_ret; [done|].
    apply HQ; [done| |done..]. by exists rec2.
Qed.


(** *** Binding the guest *)

Lemma tranquil_identity r : tranquil (manifest_identity m r).
Proof.
  unfold manifest_identity. calms.
Qed.
#[local] Hint Resolve tranquil_identity : calm.
Lemma hold_lease_live b (Q : bool -> Machine -> Prop) g :
  inv b g -> (forall live g', inv b g' -> calm g g' -> (live = true -> exists p, guardian g = Some p /\ 0 < deadline p) -> Q live g') ->
  hold b lease_live Q g.
Proof.
  intros Hi HQ. unfold lease_live. apply hold_bind, hold_deadline_value; [done|]. intros p Hp _ _.
  apply hold_bind. eapply (hold_calm _ _ _ _ _ b boot_ms (fun now _ => 0 <= now)); [done| |].
  { apply calmly_boot_ms. intros t g' _ _. apply boot_answer_u64. }
  intros now g1 Hi1 Hc1 Hnow _ _. apply hold_ret; [done|]. apply HQ; [done..|]. intros Hl%Z.ltb_lt.
  exists p. split; [done|]. unfold Lease.value in Hl. lia.
Qed.
Lemma hold_bind_begin b (Q : Identity * GuestModel.Context -> Machine -> Prop) g :
  inv b g -> (forall a g', inv b g' -> Q a g') -> hold b (bind_begin m) Q g.
Proof.
  intros Hi HQ. unfold bind_begin. apply hold_bind, hold_registry; [done|]. intros rec Hsv _ _.
  apply hold_bind, (hold_mono _ _ _ _ _ b _ (fun _ _ => True)).
  { destruct (bool_decide _); [by apply hold_lease_live|by apply hold_ret]. }
  intros live g1 Hi1 _ _ _ _. apply hold_bind, hold_checked; [done|]. intros [] _ _ _.
  eapply hold_tranquil; [done| |intros a g' Hi' _; by apply HQ].
  apply tranquil_bind; [apply tranquil_identity|]. intros i.
  calms.
Qed.
Lemma hold_bind_end b i c (Q : Response -> Machine -> Prop) g :
  inv b g -> (forall v g', inv b g' -> served v g' -> quelled <> true -> Q v g') -> hold b (bind_end i c) Q g.
Proof.
  intros Hi HQ. unfold bind_end. apply hold_bind. eapply hold_tranquil; [done| |].
  { unfold hello. calms. }
  intros context g1 Hi1 Hc1 _ _. apply hold_bind, hold_registry; [done|]. intros rec Hsv _ _.
  apply hold_bind, (hold_mono _ _ _ _ _ b _ (fun live g' => serving rec g' /\ (live = true -> quelled <> true))).
  { case_bool_decide as Hrun; [|apply hold_ret; [done|by split]].
    apply hold_bind, hold_lease_live; [done|]. intros live g2 Hi2 Hc2 Hlive _ _.
    pose proof (serving_calm _ _ _ Hc2 Hsv) as Hsv2. destruct live; [|apply hold_ret; [done|by split]].
    assert (quelled <> true) as Hq by (destruct (Hlive eq_refl) as (p & Hp & Hd); by eapply (live_unquelled b g1)).
    apply hold_bind. eapply hold_tranquil; [done|by apply tranquil_ask|]. intros now g3 Hi3 Hc3 _ _.
    apply hold_ret; [done|]. split; [by eapply serving_calm|done]. }
  intros live g2 Hi2 _ [Hsv2 Hlive] _ _. apply hold_bind, hold_checked; [done|]. intros [] Hl%ensure_ok _ _.
  specialize (Hlive Hl). apply hold_bind, hold_checked; [done|]. intros [] _ _ _.
  destruct (r_guest_boot_id rec) as [boot|] eqn:Hb; cbn.
  - apply hold_ret; [done|]. apply HQ; [done|by exists rec|done].
  - destruct (serving_facts _ _ _ Hi2 Hsv2) as (Hok & Hse & Hre). set (bound := with_guest rec (GuestModel.boot_id context)).
    assert (kin bound rec) as Hk by by apply kin_guest.
    apply hold_bind. eapply hold_save; [done|done|done|done|done|]. intros saved g3 Hi3 Hsv3 Hsaved _ _.
    destruct saved as [[]|e].
    + apply hold_bind. eapply (hold_set_registry b bound rec); [done..| |].
      { eapply retained_mono; [|by apply Hsaved]. by intros r ->. }
      intros g4 Hi4 Hsv4 _ _ _. apply hold_ret; [done|]. apply HQ; [done|by exists bound|done].
    + apply hold_bind. eapply hold_deadline_stop; [done|done|]. intros g4 Hi4 _ _ _ _ _. by apply hold_checked.
Qed.

Lemma hold_handing {A} b l (x : M A) (Q : A -> Machine -> Prop) g : hold b x Q g -> hold b (handing l x) Q g.
Proof.
  unfold GuardianKeeps.hold, pwp, handing. destruct (x g) as [g' [a|e]]; cbn; [done|]. intros (Hi & Hs & _).
  split_and!; [by apply inv_drop|eapply machine_steady_trans; [done|apply steady_drop]|done].
Qed.
(** Whether a request asks for a running lease. *)
Definition wants_lease (input : bytes) : bool :=
  match read_frame input : result anyhow Request with
  | Ok q => match q_action q with Renew _ _ | BindGuest => true | _ => false end
  | Err _ => false
  end.
Definition wants_stop (input : bytes) : bool :=
  match read_frame input : result anyhow Request with
  | Ok q => match q_action q with Stop => true | _ => false end
  | Err _ => false
  end.
Lemma served_drop v g l : served v g -> served v (drop_guard l g).
Proof. done. Qed.
Lemma hold_handle b input rec (Q : Response + thread -> Machine -> Prop) g :
  inv b g -> serving rec g ->
  (forall v g', inv b g' -> served v g' -> (wants_lease input = true -> quelled <> true) ->
     (wants_stop input = true -> forall p, guardian g' = Some p -> fenced p) -> Q (inl v) g') ->
  (forall t g', inv b g' -> wants_stop input = false -> Q (inr t) g') ->
  hold b (handle m input) Q g.
Proof.
  intros Hi Hsv Hv Ht. unfold handle. apply hold_bind, hold_checked; [done|]. intros q Hq _ _.
  apply hold_bind, hold_checked; [done|]. intros [] _ _ _.
  unfold wants_lease, wants_stop in Hv, Ht. rewrite Hq in Hv, Ht. destruct (q_action q) as [| |revision expires|].
  - apply hold_bind. eapply hold_act; [done..|]. intros v g1 Hi1 Hs1 _ _ _ _. apply hold_ret; [done|]. by apply Hv.
  - apply hold_bind, hold_authorize_launch; [done..|]. intros l w Hi1 _ _ _. apply hold_handing.
    apply hold_bind, hold_bind_begin; [done|]. intros [i c] g1 Hi2 _ _. apply hold_ret; [done|]. by apply Ht.
  - apply hold_bind, hold_authorize_launch; [done..|]. intros l w Hi1 _ _ _. apply hold_held.
    apply hold_bind. eapply hold_act; [done|exact Hsv|]. intros v g1 Hi2 Hs1 Hlease _ _ _. apply hold_ret; [done|].
    apply Hv; [by apply inv_drop|by apply served_drop|auto|done].
  - apply hold_bind. eapply hold_act; [done..|]. intros v g1 Hi1 Hs1 _ Hst _ _. apply hold_ret; [done|]. apply Hv; auto.
Qed.


(** ** Connections *)

Lemma hold_threads b f p (Q : unit -> Machine -> Prop) g :
  inv b g -> guardian g = Some p -> (length (f (threads p)) <= CONTROL_LIMIT)%nat ->
  (forall g', inv b g' -> (forall rec, serving rec g -> serving rec g') ->
     guardian g' = Some (set_threads p (f (threads p))) -> Q tt g') ->
  hold b (modify (on_guardian (fun p => set_threads p (f (threads p))))) Q g.
Proof.
  intros Hi Hp Hlen HQ. destruct (allowed_now _ _ _ Hi Hp) as [Hd Ht Hq Hr].
  eapply hold_memory; [done|done|by split|done|]. intros Hi'. apply HQ; [done| |done].
  intros rec (p' & Hp' & Hs). exists (set_threads p (f (threads p))). split; [done|]. cbn. congruence.
Qed.
Lemma fenced_threads p l : fenced (set_threads p l) <-> fenced p.
Proof. done. Qed.

Lemma delete_shorter {A} i (l : list A) : (length (delete i l) <= length l)%nat.
Proof. revert i. induction l as [|x l IH]; intros [|i]; try (cbn; lia).
  change (delete (S i) (x :: l)) with (x :: delete i l). cbn [length]. specialize (IH i). lia.
Qed.
(** What a connection is answered with. *)
Definition replied (v : Response) (g : Machine) : Prop := v = rejected \/ served v g.

Lemma hold_set_thread b i t (Q : unit -> Machine -> Prop) g :
  inv b g -> (forall g', inv b g' -> (forall v, replied v g -> replied v g') -> Q tt g') -> hold b (set_thread i t) Q g.
Proof.
  intros Hi HQ. unfold set_thread. destruct (guardian g) as [p|] eqn:Hp.
  - eapply (hold_threads b (<[i := t]>)); [done|done| |].
    + rewrite length_insert. by apply (i_threads _ _ _ _ _ _ _ Hi).
    + intros g' Hi' Hsv _. apply HQ; [done|]. intros v [->|(rec & Hv & Hs)]; [by left|]. right. exists rec. auto.
  - unfold GuardianKeeps.hold, pwp, modify, on_guardian. cbn. rewrite Hp. cbn.
    replace (set_guardian g None) with g by (destruct g; cbn in *; by subst).
    split_and!; [done|apply steady_refl|]. intros [] _. by apply HQ.
Qed.
Lemma hold_end_thread b i (Q : unit -> Machine -> Prop) g :
  inv b g ->
  (forall g', inv b g' -> (forall v, replied v g -> replied v g') ->
     ((forall p, guardian g = Some p -> fenced p) -> forall p, guardian g' = Some p -> fenced p) -> Q tt g') ->
  hold b (end_thread i) Q g.
Proof.
  intros Hi HQ. unfold end_thread. destruct (guardian g) as [p|] eqn:Hp.
  - eapply (hold_threads b (delete i)); [done|done| |].
    + pose proof (i_threads _ _ _ _ _ _ _ Hi p Hp). pose proof (delete_shorter i (threads p)). lia.
    + intros g' Hi' Hsv Hg'. apply HQ; [done| |].
      * intros v [->|(rec & Hv & Hs)]; [by left|]. right. exists rec. auto.
      * intros Hf p' Hp'. assert (p' = set_threads p (delete i (threads p))) as -> by congruence.
        apply fenced_threads. by apply Hf.
  - unfold GuardianKeeps.hold, pwp, modify, on_guardian. cbn. rewrite Hp. cbn.
    replace (set_guardian g None) with g by (destruct g; cbn in *; by subst).
    split_and!; [done|apply steady_refl|]. intros [] _. apply HQ; [done|done|]. intros _ p Hp'. congruence.
Qed.

Lemma hold_tried {A} b (x : M A) (Q : A -> Machine -> Prop) (Q' : result CleanupError A -> Machine -> Prop) g :
  hold b x Q g -> (forall a g', inv b g' -> Q a g' -> Q' (Ok a) g') -> (forall e g', inv b g' -> Q' (Err e) g') ->
  hold b (attempt x) Q' g.
Proof.
  intros Hx Ho He. eapply hold_mono; [by apply hold_attempt|]. intros [a|e] g' Hi' _ Hq; auto.
Qed.

(** The connection [i] waits for its request. *)
Definition reading (i : nat) (g : Machine) : Prop := exists p, guardian g = Some p /\ threads p !! i = Some Reading.

(** A request is answered with the served receipt, or rejected; when it is answered for a running
    lease, no fence was seen before, and a stop leaves the lease fenced. *)
Lemma hold_serve b i input rec (Q : option Response -> Machine -> Prop) g :
  inv b g -> serving rec g ->
  (forall v g', inv b g' -> replied v g' ->
     (wants_lease input = true -> quelled = true -> v = rejected) ->
     (wants_stop input = true -> v = rejected \/ forall p, guardian g' = Some p -> fenced p) -> Q (Some v) g') ->
  (forall g', inv b g' -> (wants_stop input = true -> ~ reading i g) -> Q None g') ->
  hold b (serve m i input) Q g.
Proof.
  intros Hi Hsv Hv Hn. unfold serve. apply hold_bind, hold_the_guardian; [done|]. intros p Hp _ _.
  destruct (threads p !! i) as [[|l id c]|] eqn:Hth;
    [|apply hold_ret; [done|apply Hn; [done|]; intros _ (p' & Hp' & Hr); congruence]..].
  set (Q1 := fun (r : Response + thread) g' => match r with
    | inl v => served v g' /\ (wants_lease input = true -> quelled <> true) /\
               (wants_stop input = true -> forall p, guardian g' = Some p -> fenced p)
    | inr _ => wants_stop input = false end).
  apply hold_bind, (hold_tried _ _ Q1).
  - eapply hold_handle; [done|exact Hsv| |by intros]. intros v g' _ ? ? ?. by split_and!.
  - intros [v|t] g' Hi' Hq _ _; unfold Q1 in Hq.
    + destruct Hq as (Hs & Hl & Hst). apply hold_bind, hold_end_thread; [done|]. intros g2 Hi2 Hre Hf _ _.
      apply hold_ret; [done|]. apply Hv; [done|apply Hre; by right| |].
      * intros Hw Hqu. by destruct (Hl Hw).
      * intros Hw. right. auto.
    + apply hold_bind, hold_set_thread; [done|]. intros g2 Hi2 _ _ _. apply hold_ret; [done|]. apply Hn; [done|]. by rewrite Hq.
  - intros e g' Hi' _ _. apply hold_bind, hold_end_thread; [done|]. intros g2 Hi2 _ _ _ _. apply hold_ret; [done|].
    apply Hv; [done|by left|done|by left].
Qed.
Lemma hold_finish_binding b i (Q : option Response -> Machine -> Prop) g :
  inv b g ->
  (forall v g', inv b g' -> replied v g' -> (quelled = true -> v = rejected) -> Q (Some v) g') ->
  (forall g', inv b g' -> Q None g') ->
  hold b (finish_binding i) Q g.
Proof.
  intros Hi Hv Hn. unfold finish_binding. apply hold_bind, hold_the_guardian; [done|]. intros p Hp _ _.
  destruct (threads p !! i) as [[|l id c]|]; [apply hold_ret; [done|by apply Hn]| |apply hold_ret; [done|by apply Hn]].
  apply hold_bind, (hold_tried _ _ (fun v g' => served v g' /\ quelled <> true)).
  - apply hold_bind_end; [done|]. by intros.
  - intros v g' Hi' [Hs Hq] _ _. apply hold_bind. unfold GuardianKeeps.hold, pwp, modify. cbn.
    split_and!; [by apply inv_drop|apply steady_drop|]. intros [] _ _ _.
    apply hold_bind, hold_end_thread; [by apply inv_drop|]. intros g2 Hi2 Hre _ _ _. apply hold_ret; [done|].
    apply Hv; [done|apply Hre; right; by apply served_drop|done].
  - intros e g' Hi' _ _. apply hold_bind. unfold GuardianKeeps.hold, pwp, modify. cbn.
    split_and!; [by apply inv_drop|apply steady_drop|]. intros [] _ _ _.
    apply hold_bind, hold_end_thread; [by apply inv_drop|]. intros g2 Hi2 Hre _ _ _. apply hold_ret; [done|].
    apply Hv; [done|by left|done].
Qed.
Lemma hold_accept b (Q : bool -> Machine -> Prop) g :
  inv b g ->
  (forall t g', inv b g' -> (forall rec, serving rec g -> serving rec g') ->
     (t = true -> forall p0, guardian g = Some p0 -> reading (length (threads p0)) g') -> Q t g') -> hold b accept Q g.
Proof.
  intros Hi HQ. unfold accept. apply hold_bind. eapply hold_tranquil; [done|by apply tranquil_ask|]. intros who g1 Hi1 Hc1 _ _.
  apply hold_bind, hold_checked; [done|]. intros uid _ _ _. apply hold_bind, hold_the_guardian; [done|]. intros p Hp _ _.
  assert (forall rec, serving rec g -> serving rec g1) as Hsv by (intros rec; by apply serving_calm).
  assert (forall p0, guardian g = Some p0 -> threads p = threads p0) as Hth.
  { intros p0 Hp0. destruct (dulled_get _ _ _ (mi_guardian _ _ (calm_minor _ _ Hc1)) Hp) as (q & Hq & [-> | ->]);
      (assert (q = p0) as -> by congruence; done). }
  destruct (negb _); [apply hold_ret; [done|by apply HQ]|].
  destruct (Nat.ltb_spec (length (threads p)) CONTROL_LIMIT) as [Hlt|_]; [|apply hold_ret; [done|by apply HQ]].
  apply hold_bind. unfold modify. eapply (hold_threads b (fun l => l ++ [Reading]) p); [done|done|rewrite length_app; cbn; lia|].
  intros g2 Hi2 Hsv2 Hg2 _ _. apply hold_ret; [done|]. apply HQ; [done|auto|]. intros _ p0 Hp0.
  eexists. split; [exact Hg2|]. cbn. rewrite (Hth p0 Hp0), lookup_app_r, Nat.sub_diag by lia. done.
Qed.
End serves.
#[export] Hint Resolve tranquil_identity : calm.
