(* ===== verification/GuardianSteps.v ===== *)
(** * The steps of an allocation's machine

    Every event keeps the invariant; all but the start of a guardian launch nothing, and that
    launches once and leaves the allocation sealed; only a crash that loses the directory undoes
    it. *)

From S2P Require Import Prelude Ext Ids Authority AuthorityLaws Fs FsLaws Store LaunchAuthority LaunchLaws LaunchTheorems.
From S2P Require Import Guardian GuardianEnv GuardianOps GuardianProcess GuardianLaws GuardianInv GuardianKeeps GuardianCleanup GuardianServes.
From S2P Require GuestModel Lease Bootstrap Identity.
Import Identity(Identity, issue, client_tls, TlsLib).
#[local] Existing Instances Guardian.State_eq_dec Guardian.Owner_eq_dec.

(** Between two events: a guardian serves requests or there is none, and only it has the lock. *)
Definition settled (g : Machine) : Prop :=
  locked g = is_some (guardian g) /\ forall p, guardian g = Some p -> is_some (shared p) = true.
Lemma settled_steady g g' : steady g g' -> settled g -> settled g'.
Proof.
  intros Hs [Hl Hp]. split.
  - by rewrite (st_locked _ _ Hs), (st_guardian _ _ Hs).
  - by apply (st_served _ _ Hs).
Qed.
Lemma settled_serving g p : settled g -> guardian g = Some p -> exists rec, serving rec g.
Proof.
  intros [_ Hs] Hp. specialize (Hs p Hp). destruct (shared p) as [rec|] eqn:Hr; [|done]. exists rec. by exists p.
Qed.

Lemma die_fields g : guardian (die g) = None /\ locked (die g) = false /\ jailing (die g) = false /\
  boots (die g) = boots g /\ trace (die g) = trace g /\ home (die g) = home g /\ earlier (die g) = earlier g /\
  group (die g) = group g.
Proof.
  unfold die. destruct (guardian g) as [p|]; [|done].
  induction (threads p) as [|[|l id c] ts IH]; cbn; [done|exact IH..].
Qed.
Lemma settled_die g : settled (die g).
Proof. destruct (die_fields g) as (Hg & Hl & _). split; [by rewrite Hl, Hg|]. by rewrite Hg. Qed.

Section steps.
Context `{GuardianEnv, UuidLaws, Serde Manifest, Sha256, Sha256Laws0 : !Sha256Laws, HexLib, Serde Receipt,
          Serde Authority.Saved, SavedLaws : !SerdeLaws Authority.Saved saved_representable,
          Serde Authority.Retirement.Intent, Serde LaunchAuthority.Required, Serde LaunchAuthority.Saved,
          FileLaws : !SerdeLaws LaunchAuthority.Saved file_representable,
          ReceiptLossless : !Lossless Receipt, ManifestLossless : !Lossless Manifest,
          Serde VmConfig, Serde Bootstrap.Bootstrap, Serde Identity, TlsLib,
          Serde Request, Serde Response}.
Context (m : Manifest) (h : HostId).
Context (quelled : bool) (low : option Receipt) (P : Z * Authority -> Prop).
Hypothesis Hhost : forall p, launch_permit m = Some p -> Authority.host p = h.

Abbreviation inv := (inv m h quelled low P).
Abbreviation receipt_ok := (receipt_ok m).
Abbreviation hold := (hold m h quelled low P).

(** ** The end of a guardian *)

Lemma inv_dead b g : inv b g ->
  inv b (set_locked (set_jailing (set_guardian g None) false) false).
Proof.
  intros Hi. split; try apply Hi; try done.
  - intros x Hx [Hp|Hj]; [|done]. apply (i_group _ _ _ _ _ _ _ Hi x Hx). by left.
  - intros v r Hv Hr Hs. destruct (i_stopped _ _ _ _ _ _ _ Hi v r Hv Hr Hs) as (? & _ & ? & ?). by split_and!.
  - intros r0 Hl. destruct (i_low _ _ _ _ _ _ _ Hi r0 Hl). by split.
Qed.
Lemma inv_die b g : inv b g -> inv b (die g).
Proof.
  intros Hi. unfold die. pose proof (inv_dead _ _ Hi) as Hd. destruct (guardian g) as [p|]; [|done].
  induction (threads p) as [|[|l id c] ts IH]; cbn; [done|done|by apply inv_drop].
Qed.

(** ** Steps *)

Record fine (b : bool) (g g' : Machine) : Prop := {
  fi_inv : inv b g';
  fi_settled : settled g';
  fi_trace : exists l, trace g' = l ++ trace g /\ quiet l;
  fi_guardian : is_some (guardian g') = true -> is_some (guardian g) = true;
}.
Definition safe {A} (b : bool) (x : M A) (Q : A -> Machine -> Prop) (g : Machine) : Prop :=
  pwp x (fun r g' => fine b g g' /\ forall a, r = Ok a -> Q a g') g.
(** A step of the guardian that may be its last. *)
Definition ends {A} (b : bool) (x : M A) (Q : A -> Machine -> Prop) (g : Machine) : Prop :=
  pwp x (fun r g' => inv b g' /\ (exists l, trace g' = l ++ trace g /\ quiet l) /\
                     (is_some (guardian g') = true -> is_some (guardian g) = true) /\
                     forall a, r = Ok a -> settled g' /\ Q a g') g.

Lemma fine_refl b g : inv b g -> settled g -> fine b g g.
Proof. intros Hi Hs. split; [done|done|apply quiet_refl|done]. Qed.
Lemma fine_trans b g1 g2 g3 : fine b g1 g2 -> fine b g2 g3 -> fine b g1 g3.
Proof.
  intros Hf Hf'. split; [apply Hf'..| |].
  - eapply quiet_ext_trans; [apply Hf|apply Hf'].
  - intros Hg. by apply (fi_guardian _ _ _ Hf), (fi_guardian _ _ _ Hf').
Qed.
Lemma safe_hold {A} b (x : M A) (Q : A -> Machine -> Prop) g : settled g -> hold b x Q g -> safe b x Q g.
Proof.
  intros Hs Hx. unfold GuardianKeeps.hold in Hx. eapply pwp_mono; [exact Hx|]. intros r g' (Hi & Hst & HQ).
  split; [|done]. split; [done|by eapply settled_steady|apply Hst|by rewrite (st_guardian _ _ Hst)].
Qed.
Lemma safe_bind {A B} b (x : M A) (k : A -> M B) (Q : B -> Machine -> Prop) g :
  safe b x (fun a g' => inv b g' -> settled g' -> safe b (k a) Q g') g -> safe b (x ≫= k) Q g.
Proof.
  unfold safe. intros Hx. apply pwp_bind. eapply pwp_mono; [exact Hx|]. intros [a|e] g' [Hf HQ]; [|done].
  eapply pwp_mono; [exact (HQ a eq_refl (fi_inv _ _ _ Hf) (fi_settled _ _ _ Hf))|]. intros r g2 [Hf2 HQ2].
  split; [by eapply fine_trans|done].
Qed.
Lemma safe_mono {A} b (x : M A) (Q Q' : A -> Machine -> Prop) g :
  safe b x Q g -> (forall a g', inv b g' -> settled g' -> Q a g' -> Q' a g') -> safe b x Q' g.
Proof.
  unfold safe. intros Hx HQ. eapply pwp_mono; [exact Hx|]. intros r g' [Hf Hq]. split; [done|].
  intros a Ha. apply HQ; [apply Hf|apply Hf|auto].
Qed.
Lemma safe_ret {A} b (a : A) (Q : A -> Machine -> Prop) g : inv b g -> settled g -> Q a g -> safe b (mret a) Q g.
Proof. intros Hi Hs HQ. by apply safe_hold, hold_ret. Qed.
Lemma safe_checked {A} b (r : result anyhow A) (Q : A -> Machine -> Prop) g :
  inv b g -> settled g -> (forall a, r = Ok a -> Q a g) -> safe b (checked r) Q g.
Proof. intros Hi Hs HQ. by apply safe_hold, hold_checked. Qed.
Lemma safe_tranquil {A} b (x : M A) (Q : A -> Machine -> Prop) g :
  inv b g -> settled g -> tranquil x -> (forall a g', calm g g' -> Q a g') -> safe b x Q g.
Proof. intros Hi Hs Hx HQ. apply safe_hold; [done|]. eapply hold_tranquil; [done..|]. auto. Qed.

Lemma ends_hold {A} b (x : M A) (Q : A -> Machine -> Prop) g : settled g -> hold b x Q g -> ends b x Q g.
Proof.
  intros Hs Hx. unfold GuardianKeeps.hold in Hx. eapply pwp_mono; [exact Hx|]. intros r g' (Hi & Hst & HQ).
  split_and!; [done|apply Hst|by rewrite (st_guardian _ _ Hst)|]. intros a Ha. split; [by eapply settled_steady|auto].
Qed.
Lemma safe_until_death {A} b (x : M A) (Q : A -> Machine -> Prop) g : ends b x Q g -> safe b (until_death x) Q g.
Proof.
  unfold ends, safe, pwp, until_death. destruct (x g) as [g' [a|e]]; cbn; intros (Hi & Ht & Hg & HQ).
  - destruct (HQ a eq_refl) as [Hs Hq]. split; [by split|]. by intros ? [= <-].
  - split; [|done]. destruct (die_fields g') as (Hn & _ & _ & _ & Htr & _).
    split; [by apply inv_die|apply settled_die|by rewrite Htr|by rewrite Hn].
Qed.
Lemma ends_hold_bind {A B} b (x : M A) (k : A -> M B) (Q : B -> Machine -> Prop) g :
  hold b x (fun a g' => inv b g' -> ends b (k a) Q g') g -> ends b (x ≫= k) Q g.
Proof.
  unfold GuardianKeeps.hold, ends. intros Hx. apply pwp_bind. eapply pwp_mono; [exact Hx|].
  intros [a|e] g' (Hi & Hs & HQ); [|split_and!; [done|apply Hs|by rewrite (st_guardian _ _ Hs)|done]].
  eapply pwp_mono; [exact (HQ a eq_refl Hi)|]. intros r g2 (Hi2 & Ht2 & Hg2 & HQ2).
  split_and!; [done| |by rewrite <- (st_guardian _ _ Hs)|done]. eapply quiet_ext_trans; [apply Hs|done].
Qed.
Lemma ends_die {A} b (a : A) (Q : A -> Machine -> Prop) g :
  inv b g -> Q a (die g) -> ends b (_ ← modify die; mret a) Q g.
Proof.
  intros Hi HQ. destruct (die_fields g) as (Hg & _ & _ & _ & Ht & _).
  unfold ends, pwp, mbind, ST_bind, modify, mret, ST_ret. cbn. split_and!; [by apply inv_die| | |].
  - rewrite Ht. apply quiet_refl.
  - by rewrite Hg.
  - intros ? [= <-]. split; [apply settled_die|done].
Qed.

(** The watchdog: it only fences the deadline, and ends the guardian then. *)
Lemma ends_watch b (Q : option Z -> Machine -> Prop) g :
  inv b g -> settled g ->
  (forall c g', inv b g' -> guardian g' = None -> Q (Some c) g') -> (forall g', inv b g' -> Q None g') ->
  ends b watch Q g.
Proof.
  intros Hi Hs HQ HN. unfold watch. apply ends_hold_bind.
  eapply hold_tranquil; [done|by apply tranquil_ask|]. intros now g1 Hi1 Hc1 _.
  pose proof (settled_steady _ _ (minor_steady _ _ (calm_minor _ _ Hc1)) Hs) as Hs1.
  apply ends_hold_bind, hold_the_guardian; [done|]. intros p Hp _.
  destruct (Lease.expire now (deadline p)) as [d expired] eqn:He.
  assert (d = deadline p \/ d = 0) as Hd.
  { unfold Lease.expire, Lease.value in He. destruct (negb _ && _); [|left; congruence].
    rewrite Lease.compare_exchange_cases in He. case_decide; cbn in He; [right|left]; congruence. }
  destruct (allowed_now _ _ _ _ _ _ _ _ Hi1 Hp) as [Hdl Ht Hq Hr].
  apply ends_hold_bind. eapply hold_memory; [done|done| |done|].
  { split; [destruct Hd as [-> | ->]; [done|by left]|done| |done].
    intros Hqu. destruct Hd as [-> | ->]; [exact (Hq Hqu)|by left]. }
  intros Hi2 _. set (g2 := set_guardian g1 _) in *.
  destruct (expired || _).
  - apply ends_hold_bind. eapply hold_tranquil; [done|apply tranquil_attempt, tranquil_kill|]. intros r g3 Hi3 _ _.
    apply ends_die; [done|]. apply HQ; [by apply inv_die|by apply (die_fields g3)].
  - apply ends_hold; [|apply hold_ret; [done|by apply HN]]. destruct Hs1 as [Hl Hsh]. unfold g2. split; cbn.
    + rewrite Hl. by rewrite Hp.
    + intros ? [= <-]. exact (Hsh p Hp).
Qed.
Lemma ends_reap b (Q : option Z -> Machine -> Prop) g :
  inv b g -> settled g -> (forall r g', inv b g' -> Q r g') -> ends b reap Q g.
Proof.
  intros Hi Hs HQ. unfold reap. apply ends_hold_bind.
  eapply hold_tranquil; [done|by apply tranquil_ask|]. intros status g1 Hi1 Hc1 _.
  pose proof (settled_steady _ _ (minor_steady _ _ (calm_minor _ _ Hc1)) Hs) as Hs1.
  destruct status; [|apply ends_hold; [done|apply hold_ret; [done|by apply HQ]]..| |];
    [|apply ends_hold; [done|by apply hold_checked]..].
  apply ends_hold_bind, hold_registry; [done|]. intros rec Hsv _.
  destruct (serving_facts _ _ _ _ _ _ _ _ Hi1 Hsv) as (Hok & Hse & Hre).
  assert (r_state rec <> Stopped) as Hns by (destruct Hse as [-> | ->]; done).
  rewrite (receipt_ok_unconfirmed _ _ Hok Hns). set (stopping := with_state rec Stopping false (Some "firecracker_exited")).
  assert (kin stopping rec) as Hk by apply kin_state, kin_refl.
  assert (receipt_ok stopping) as Hok' by exact (receipt_ok_state m rec Stopping (Some "firecracker_exited") Hok eq_refl).
  assert (serves stopping) as Hse' by by right.
  apply ends_hold_bind. eapply hold_set_registry; [done|done|done|done|done|done| |].
  { eapply retained_mono; [|exact Hre]. intros r [H1c H2c H3c]. by split. }
  intros g2 Hi2 Hsv2 _ _. apply ends_hold_bind.
  eapply (hold_write_served _ _ _ _ _ b stopping stopping); [done|done|apply kin_refl|done|done|].
  intros g3 Hi3 _ _ _. apply ends_die; [done|]. by apply HQ, inv_die.
Qed.

(** ** Calls from other processes *)

Context `{RequestLossless : !Lossless Request}.

Definition for_lease (a : Action) : bool := match a with Renew _ _ | BindGuest => true | _ => false end.
(** What a call is answered with. *)
Record answered (a : Action) (v : Response) (g : Machine) : Prop := {
  an_replied : replied v g;
  an_lease : for_lease a = true -> quelled = true -> v = rejected;
  an_stop : a = Stop -> v = rejected \/ forall p, guardian g = Some p -> fenced p;
}.
Lemma replied_calm v g g' : calm g g' -> replied v g -> replied v g'.
Proof. intros Hc [->|(rec & Hv & Hs)]; [by left|]. right. exists rec. split; [done|by eapply serving_calm]. Qed.
Lemma fenced_calm g g' : calm g g' -> (forall p, guardian g = Some p -> fenced p) -> forall p, guardian g' = Some p -> fenced p.
Proof.
  intros Hc Hf p Hp. destruct (dulled_get _ _ _ (mi_guardian _ _ (calm_minor _ _ Hc)) Hp) as (q & Hq & [-> | ->]); [auto|by left].
Qed.
Lemma answered_calm a v g g' : calm g g' -> answered a v g -> answered a v g'.
Proof.
  intros Hc [Hr Hl Hs]. split; [by eapply replied_calm|done|]. intros Ha. destruct (Hs Ha) as [->|Hf]; [by left|].
  right. by eapply fenced_calm.
Qed.

Lemma safe_connect b (Q : nat -> Machine -> Prop) g :
  inv b g -> settled g ->
  (forall p rec, guardian g = Some p -> shared p = Some rec -> Q (length (threads p)) g) -> safe b connect Q g.
Proof.
  intros Hi Hs HQ. unfold safe, pwp, connect. pose proof (fine_refl _ _ Hi Hs) as Hf.
  destruct (guardian g) as [[d [rec|] ts pid]|] eqn:Hg; cbn; (split; [done|]); try done.
  intros ? [= <-]. by apply (HQ _ rec eq_refl).
Qed.
Lemma safe_converse b a (Q : Response -> Machine -> Prop) g :
  inv b g -> settled g -> (forall v g', inv b g' -> answered a v g' -> Q v g') -> safe b (converse m a) Q g.
Proof.
  intros Hi Hs HQ. unfold converse. apply safe_bind, safe_connect; [done..|]. intros p rec Hp Hrec _ _.
  apply safe_bind, safe_checked; [done..|]. intros frame Hfr%read_written _ _.
  assert (wants_lease frame = for_lease a /\ (wants_stop frame = true <-> a = Stop)) as [Hwl Hws].
  { unfold wants_lease, wants_stop. rewrite Hfr. cbn. by destruct a; split. }
  apply safe_bind, safe_until_death, ends_hold; [done|]. eapply hold_accept; [done..|].
  intros taken g1 _ Hsv1 Hrd Hi1 Hs1.
  apply safe_bind, safe_checked; [done..|]. intros [] Ht%ensure_ok _ _. specialize (Hrd Ht p Hp).
  assert (serving rec g1) as Hsv by (apply Hsv1; by exists p).
  set (Q1 := fun (first : option Response) g' => match first with Some v => answered a v g' | None => a <> Stop end).
  apply safe_bind, (safe_mono _ _ Q1).
  { apply safe_until_death, ends_hold; [done|]. eapply hold_serve; [done|done|exact Hsv| |].
    - intros v g' _ Hr Hl Hst. rewrite Hwl in Hl. split; [done..|]. intros Ha. by apply Hst, Hws.
    - intros g' _ Hst Ha. by apply Hst; [apply Hws|]. }
  intros [v|] g2 Hi2 Hs2 Hq _ _.
  - apply safe_ret; [done..|]. by apply HQ.
  - set (Q2 := fun (second : option Response) g' => forall v, second = Some v -> answered a v g').
    apply safe_bind, (safe_mono _ _ Q2).
    { apply safe_until_death, ends_hold; [done|]. apply hold_finish_binding; [done| |by intros g' _ v].
      intros v g' _ Hr Hl ? [= <-]. by split. }
    intros second g3 Hi3 Hs3 Hq3 _ _. apply safe_checked; [done..|]. intros v Hv%ok_or_ok. by apply HQ, Hq3.
Qed.
Lemma safe_exchange b a (Q : Response -> Machine -> Prop) g :
  inv b g -> settled g -> (forall v g', inv b g' -> answered a v g' -> Q v g') -> safe b (exchange m a) Q g.
Proof.
  intros Hi Hs HQ. pose proof (safe_converse b a Q g Hi Hs HQ) as Hc. unfold safe, pwp, exchange in *.
  destruct (converse m a g) as [g' [v|[|e]]]; [exact Hc| |exact Hc]. split; [apply Hc|done].
Qed.

Lemma safe_control b a (Q : Response -> Machine -> Prop) g :
  inv b g -> settled g -> (forall v g', inv b g' -> answered a v g' -> Q v g') -> safe b (control m a) Q g.
Proof.
  intros Hi Hs HQ. unfold control. apply safe_bind, safe_checked; [done..|]. intros [] _ _ _.
  apply safe_bind, safe_checked; [done..|]. intros [] _ _ _.
  apply safe_bind, safe_tranquil; [done..|apply tranquil_unseen|]. intros [] g1 _ Hi1 Hs1.
  apply safe_bind, safe_exchange; [done..|]. intros v g2 _ Hv Hi2 Hs2.
  destruct (receipt v) as [r|]; [|apply safe_ret; [done..|by apply HQ]].
  apply safe_bind, safe_checked; [done..|]. intros d _ _ _.
  apply safe_bind, safe_tranquil; [done..|apply tranquil_boot_id|]. intros id g3 Hc3 Hi3 Hs3.
  apply safe_bind, safe_checked; [done..|]. intros [] _ _ _. apply safe_ret; [done..|].
  apply HQ; [done|by eapply answered_calm].
Qed.

Lemma safe_guest_client b (Q : GuestModel.Context -> Machine -> Prop) g :
  inv b g -> settled g -> (forall c g', inv b g' -> Q c g') -> safe b (guest_client m) Q g.
Proof.
  intros Hi Hs HQ. unfold guest_client. apply safe_bind, safe_control; [done..|]. intros v g1 _ _ Hi1 Hs1.
  apply (safe_mono _ _ (fun _ _ => True)); [|intros; by apply HQ].
  apply safe_tranquil; [done..| |done].
  calms.
Qed.

Lemma answered_unstopped b a v r g : inv b g -> answered a v g -> receipt v = Some r -> r_state r <> Stopped.
Proof.
  intros Hi Ha Hr. destruct (an_replied _ _ _ Ha) as [->|(rec & Hv & Hsv)]; [done|].
  assert (rec = r) as -> by congruence. by destruct (serving_facts _ _ _ _ _ _ _ _ Hi Hsv) as (_ & [-> | ->] & _).
Qed.
(** The answer of [launch], when it says [Stopped], is the current receipt. *)
Lemma safe_launch_begin b (Q : option Receipt -> Machine -> Prop) g :
  inv b g -> settled g ->
  (forall o g', inv b g' -> (forall r, o = Some r -> r_state r = Stopped -> answers m r g') -> Q o g') ->
  safe b (launch_begin m) Q g.
Proof.
  intros Hi Hs HQ. unfold launch_begin. apply safe_bind, safe_checked; [done..|]. intros [] _ _ _.
  apply safe_bind, safe_hold; [done|].
  apply (hold_tried _ _ _ _ _ _ _ (answers m)).
  { apply hold_prepare; [done..|apply Hs|by intros]. }
  2: { intros [] g' Hi' _ Hs'; [by apply safe_hold, hold_fail| |by apply safe_hold, hold_fail].
    apply safe_bind, safe_control; [done..|]. intros v g1 Hi1 Hv _ Hs1.
    apply safe_bind, safe_checked; [done..|]. intros [] _ _ _.
    apply safe_bind, safe_checked; [done..|]. intros r Hr%ok_or_ok _ _. apply safe_ret; [done..|].
    apply HQ; [done|]. intros ? [= <-] Hst. by destruct (answered_unstopped _ _ _ _ _ Hi1 Hv Hr). }
  intros r g1 Hi1 Ha _ Hs1. case_bool_decide as Hst.
  { apply safe_ret; [done..|]. apply HQ; [done|]. by intros ? [= <-]. }
  destruct (negb _).
  - apply safe_bind, safe_hold; [done|]. apply hold_reconcile; [done..|apply Hs1|done|].
    intros r' g2 Hi2' Ha2 _ Hi2 Hs2. apply safe_ret; [done..|]. apply HQ; [done|]. by intros ? [= <-].
  - apply safe_bind, safe_tranquil; [done..|apply tranquil_boot_id|]. intros id g2 _ Hi2 Hs2.
    apply safe_bind, safe_checked; [done..|]. intros [] _ _ _.
    apply safe_hold; [done|]. apply hold_bind, hold_authorize_launch; [done..|]. intros l w Hi3 _ _ _.
    apply (hold_mono _ _ _ _ _ b _ (fun o _ => o = None)).
    2: { intros o g3 Hi4 _ ->. by apply HQ. }
    apply hold_held. apply hold_bind. eapply hold_tranquil; [done|apply tranquil_unseen|]. intros [] g3 Hi4 _ _ _.
    apply hold_bind. eapply hold_tranquil; [done|apply tranquil_unseen|]. intros [] g4 Hi5 _ _ _.
    apply hold_bind. eapply hold_tranquil; [done|apply tranquil_unseen|]. intros [] g5 Hi6 _ _ _.
    by apply hold_ret.
Qed.
End steps.
