(* ===== verification/GuardianStart.v ===== *)
(** * The start of a guardian keeps the invariant

    [namespace_init] spawns a jailer only after the launch intent is durable, for an allocation
    that was prepared and is granted: from then on the allocation is sealed. *)

From S2P Require Import Prelude Ext Ids Authority AuthorityLaws Fs FsLaws Store LaunchAuthority LaunchLaws LaunchTheorems.
From S2P Require Import Guardian GuardianEnv GuardianOps GuardianProcess GuardianLaws GuardianInv GuardianKeeps GuardianCleanup GuardianServes GuardianSteps.
From S2P Require GuestModel Lease Bootstrap Identity.
Import Identity(Identity, issue, client_tls, TlsLib).
#[local] Existing Instances Guardian.State_eq_dec Guardian.Owner_eq_dec.

(** A guardian that serves nobody yet. *)
Definition starting (g : Machine) : Prop :=
  locked g = true /\ exists p, guardian g = Some p /\ shared p = None /\ threads p = [].
Lemma starting_minor g g' : minor g g' -> starting g -> starting g'.
Proof.
  intros Hm (Hl & p & Hp & Hs & Ht). split; [by rewrite (mi_locked _ _ Hm)|].
  pose proof (mi_guardian _ _ Hm) as Hd. rewrite Hp in Hd. destruct (guardian g') as [p'|]; [|done].
  exists p'. split; [done|]. by destruct Hd as [-> | ->].
Qed.
Lemma starting_calm g g' : calm g g' -> starting g -> starting g'.
Proof. intros Hc. apply starting_minor, Hc. Qed.
(** The group that was made for it. *)
Definition grouped (ino : Z) (g : Machine) : Prop := exists x, group g = Some x /\ g_inode x = ino.
Lemma grouped_minor ino g g' : minor g g' -> grouped ino g -> grouped ino g'.
Proof.
  intros Hm (x & Hx & Hi). pose proof (mi_group _ _ Hm) as Hg. unfold grouped. destruct (jailing g) eqn:Hj.
  - destruct (gr_joined _ _ _ _ Hg x eq_refl Hx) as (y & Hy & He). exists y. split; [done|congruence].
  - pose proof (gr_alone _ _ _ _ Hg eq_refl) as Ha. rewrite Hx in Ha. destruct (group g') as [y|]; [|done].
    exists y. split; [done|]. by destruct Ha as [-> _].
Qed.

Section start.
Context `{GuardianEnv, UuidLaws, Serde Manifest, Sha256, Sha256Laws0 : !Sha256Laws, HexLib, Serde Receipt,
          Serde Authority.Saved, SavedLaws : !SerdeLaws Authority.Saved saved_representable,
          Serde Authority.Retirement.Intent, Serde LaunchAuthority.Required, Serde LaunchAuthority.Saved,
          FileLaws : !SerdeLaws LaunchAuthority.Saved file_representable,
          ReceiptLossless : !Lossless Receipt, ManifestLossless : !Lossless Manifest,
          Serde VmConfig, Serde Bootstrap.Bootstrap, Serde Identity, TlsLib,
          Serde Request, Serde Response}.
Context (m : Manifest) (h : HostId).
Context (quelled : bool) (low : option Receipt) (P : Z * Authority -> Prop).
Hypothesis Hhost : forall p, launch_permit m = Some p -> Authority.host p = h.

Abbreviation inv := (inv m h quelled low P).
Abbreviation receipt_ok := (receipt_ok m).
Abbreviation hold := (hold m h quelled low P).

Lemma receipt_ok_launch r ino pid ticks :
  receipt_ok r -> r_state r <> Stopped -> receipt_ok (with_launch r ino pid ticks).
Proof.
  unfold GuardianInv.receipt_ok, validate_receipt. destruct (digest m) as [d|]; [|done]. cbn. intros Hok Hs.
  by rewrite (bool_decide_eq_false_2 (r_state r = Stopped)) in Hok.
Qed.
Lemma receipt_ok_vm r pid : receipt_ok r -> r_state r <> Stopped -> receipt_ok (with_vm r pid).
Proof.
  unfold GuardianInv.receipt_ok, validate_receipt. destruct (digest m) as [d|]; [|done]. cbn. intros Hok Hs.
  by rewrite (bool_decide_eq_false_2 (r_state r = Stopped)) in Hok.
Qed.

Lemma tranquil_bootstrap r : tranquil (verify_bootstrap m r).
Proof.
  unfold verify_bootstrap. calms.
Qed.
Lemma tranquil_process_identity : tranquil process_identity.
Proof.
  unfold process_identity. calms.
Qed.
Lemma new_deadline_ok expires wall t d t' :
  t' = ReadBoot :: t -> Lease.new expires wall (boot_answer t) = Ok d -> deadline_ok t' d.
Proof.
  intros -> Hd. apply Lease.convert_ok in Hd as (-> & Hr & _). right. exists [], t. split; [done|].
  pose proof (boot_answer_u64 t). lia.
Qed.

(** What [eligible] found: the current receipt is prepared, by this boot. *)
Record eligible_now (r : Receipt) (e : essence) (d : Lease.Deadline) (g : Machine) : Prop := {
  en_now : now_ e g;
  en_receipt : receipt_in e = Some r;
  en_ok : receipt_ok r;
  en_state : r_state r = Prepared;
  en_boot : r_host_boot_id r = boot_id_of (boots g);
  en_deadline : deadline_ok (trace g) d;
}.
Lemma eligible_steady r e d g g' : steady g g' -> same_dir g g' -> eligible_now r e d g -> eligible_now r e d g'.
Proof.
  intros Hs Hd [H1' H2' H3' H4' H5' H6']. split; [by eapply same_now|done..| |].
  - by rewrite (st_boots _ _ Hs).
  - destruct (st_trace _ _ Hs) as (l & Hl & _). eapply deadline_ok_ext; [by exists l|done].
Qed.
Lemma eligible_calm r e d g g' : calm g g' -> eligible_now r e d g -> eligible_now r e d g'.
Proof. intros Hc. apply eligible_steady; [apply minor_steady, Hc|by apply calm_same]. Qed.
Lemma hold_eligible b (Q : Receipt * Lease.Deadline * (Z * Z) -> Machine -> Prop) g :
  inv b g -> (forall r d ids e g', inv b g' -> calm g g' -> eligible_now r e d g' -> Q (r, d, ids) g') ->
  hold b (eligible m) Q g.
Proof.
  intros Hi HQ. unfold eligible. apply hold_bind, hold_manifest_receipt; [done|].
  intros r e g1 Hi1 Hc1 He1 Hr1 Hok _ _.
  apply hold_bind.
  eapply (hold_calm _ _ _ _ _ b boot_id (fun id g' => id = boot_id_of (boots g'))); [done|by apply calmly_boot_id|].
  intros id g2 Hi2 Hc2 -> _ _. apply hold_bind, hold_checked; [done|]. intros [] Hel%ensure_ok _ _.
  apply andb_true_iff in Hel as [Hst%bool_decide_eq_true Hb%bool_decide_eq_true].
  apply hold_bind. eapply hold_tranquil; [done|apply tranquil_bootstrap|]. intros [] g3 Hi3 Hc3 _ _.
  apply hold_bind. eapply hold_tranquil; [done|apply tranquil_process_identity|]. intros ids g4 Hi4 Hc4 _ _.
  apply hold_bind. eapply hold_tranquil; [done|apply tranquil_unseen|]. intros [] g5 Hi5 Hc5 _ _.
  apply hold_bind. eapply hold_tranquil; [done|by apply tranquil_ask|]. intros now g6 Hi6 Hc6 _ _.
  apply hold_bind.
  eapply (hold_calm _ _ _ _ _ b boot_ms (fun now g' => exists t, trace g' = ReadBoot :: t /\ now = boot_answer t)); [done| |].
  { apply calmly_boot_ms. eauto. }
  intros boot g7 Hi7 Hc7 (t & Ht & ->) _ _. apply hold_bind, hold_checked; [done|]. intros d Hd _ _.
  apply hold_ret; [done|].
  assert (calm g2 g7) as Hc by (repeat (eapply machine_calm_trans; [eassumption|]); apply machine_calm_refl).
  pose proof (machine_calm_trans _ _ _ Hc1 (machine_calm_trans _ _ _ Hc2 Hc)) as Hcg.
  apply (HQ r d ids e); [done|done|]. split; [|done..| |].
  - eapply now_calm; [exact Hc|]. by eapply now_calm.
  - rewrite Hb. by rewrite (mi_boots _ _ (calm_minor _ _ Hc)).
  - by eapply new_deadline_ok.
Qed.

(** ** The virtual machine *)

(** What continues the current receipt may be written while nobody is served. *)
Lemma writable_starting b g e r0 r :
  inv b g -> starting g -> now_ e g -> receipt_in e = Some r0 -> r_state r0 <> Stopped -> r_state r <> Stopped ->
  covers r r0 -> receipt_ok r -> (b = true -> r_state r <> Staging /\ r_state r <> Prepared) ->
  (forall x, group g = Some x -> owns g x r) -> writable m low b g r.
Proof.
  intros Hi (_ & p & Hp & Hsh & _) He Hr Hs Hs' Hk Hok Hb Ho. split; try done.
  - intros x Hx _. by apply Ho.
  - by eapply none_stopped.
  - intros p' rec Hp' Hs2. congruence.
  - intros rl Hl. eapply covers_trans; [apply Hk|].
    eapply (current_retained (fun r => covers r rl)); [done..|by apply (i_low _ _ _ _ _ _ _ Hi)].
Qed.

(** The receipt of a virtual machine that was, or is about to be, started. *)
Record intended (r : Receipt) (e : essence) (g : Machine) : Prop := {
  it_starting : starting g;
  it_now : now_ e g;
  it_all : all_views e g;
  it_receipt : receipt_in e = Some r;
  it_ok : receipt_ok r;
  it_state : r_state r = LaunchIntent \/ r_state r = Running;
  it_owns : exists ino, r_cgroup_inode r = Some ino /\ grouped ino g /\ r_host_boot_id r = boot_id_of (boots g);
}.
Lemma intended_calm r e g g' : calm g g' -> intended r e g -> intended r e g'.
Proof.
  intros Hc [? ? ? ? ? ? (ino & Hino & Hg & Hb)]. pose proof (calm_minor _ _ Hc) as Hm. split; try done.
  - by eapply starting_calm.
  - by eapply now_calm.
  - eapply same_all; [by apply calm_same|done].
  - exists ino. split_and!; [done|by eapply grouped_minor|]. by rewrite (mi_boots _ _ Hm).
Qed.
Lemma intended_owns r e g x : intended r e g -> group g = Some x -> owns g x r.
Proof.
  intros [? ? ? ? ? ? (ino & Hino & (y & Hy & <-) & Hb)] Hx. assert (y = x) as -> by congruence. by split.
Qed.
Lemma intended_retained r e g : intended r e g -> retained (fun r' => r' = r) g.
Proof.
  intros Hn. split.
  - pose proof (it_now _ _ _ Hn) as He. unfold now_ in He. destruct (home g); [by eexists|done].
  - intros v Hv. exists r. rewrite (it_all _ _ _ Hn v Hv). split; [apply Hn|done].
Qed.
(** With it durable, the allocation is sealed. *)
Lemma intended_sealed b r e g : inv b g -> intended r e g -> inv true g.
Proof.
  intros Hi Hn. split; try apply Hi. intros _. split; [apply (intended_retained _ _ _ Hn)|].
  intros v Hv. rewrite (it_all _ _ _ Hn v Hv). unfold closed. rewrite (it_receipt _ _ _ Hn).
  by destruct (it_state _ _ _ Hn) as [-> | ->].
Qed.

Lemma hold_write_intended b r0 e r (Q : unit -> Machine -> Prop) g :
  inv b g -> starting g -> now_ e g -> receipt_in e = Some r0 -> r_state r0 <> Stopped -> covers r r0 -> receipt_ok r ->
  r_state r = LaunchIntent \/ r_state r = Running ->
  (exists ino, r_cgroup_inode r = Some ino /\ grouped ino g /\ r_host_boot_id r = boot_id_of (boots g)) ->
  (forall e' g', inv b g' -> intended r e' g' -> Q tt g') -> hold b (write_receipt r) Q g.
Proof.
  intros Hi Hst He Hr Hs Hk Hok Hstate (ino & Hino & Hg & Hb) HQ.
  eapply hold_write_receipt; [done|exact He| |].
  - eapply writable_starting; [done|done|exact He|exact Hr|done| |done|done| |].
    + by destruct Hstate as [-> | ->].
    + intros _. by destruct Hstate as [-> | ->].
    + intros x Hx. destruct Hg as (y & Hy & <-). assert (y = x) as -> by congruence. by split.
  - intros c g' Hi' Hs' Hc Hw Ha. eapply HQ; [done|]. split; [| |exact Ha|by apply in_plain_receipt|done|done|].
    + by eapply starting_minor; [apply Hw|].
    + apply Hw.
    + exists ino. split_and!; [done|by eapply grouped_minor; [apply Hw|]|]. by rewrite (mi_boots _ _ (wr_minor _ _ _ Hw)).
Qed.

Lemma tranquil_await_vm n : tranquil (await_vm n).
Proof.
  induction n as [|n IH]; cbn; [apply tranquil_checked|]. apply tranquil_bind; [by apply tranquil_ask|]. intros [value|].
  - calms.
  - apply tranquil_bind; [by apply tranquil_ask|]. intros status. apply tranquil_bind; [apply tranquil_checked|]. intros st.
    apply tranquil_bind; [apply tranquil_checked|]. by intros [].
Qed.

(** The spawn. *)
Lemma inv_spawn r e g boot args : inv true g -> intended r e g ->
  inv true (set_jailing (record g (Launch boot args)) true).
Proof.
  intros Hi Hn. split; try apply Hi.
  - intros x Hx _. eapply retained_mono; [|exact (intended_retained _ _ _ Hn)]. intros r' ->. exact (intended_owns r e g x Hn Hx).
  - intros _. destruct (it_starting _ _ _ Hn) as (_ & p & Hp & _). destruct (it_owns _ _ _ Hn) as (ino & _ & (x & Hx & _) & _).
    split; cbn; [by rewrite Hp|by rewrite Hx].
  - intros p Hp. eapply deadline_ok_ext; [by eexists [_]|]. by apply (i_deadline _ _ _ _ _ _ _ Hi).
Qed.
Lemma intended_spawn r e g a : intended r e g -> intended r e (set_jailing (record g a) true).
Proof. intros []. by split. Qed.

(** Traces with one launch. *)
Definition launched (t t' : list action) : Prop :=
  exists l1 l2 boot args, t' = l2 ++ Launch boot args :: l1 ++ t /\ quiet l1 /\ quiet l2.
Definition quietly (t t' : list action) : Prop := exists l, t' = l ++ t /\ quiet l.
Lemma launched_then t1 t2 t3 : launched t1 t2 -> quietly t2 t3 -> launched t1 t3.
Proof.
  intros (l1 & l2 & boot & args & -> & H1' & H2') (l & -> & Hl). exists l1, (l ++ l2), boot, args.
  rewrite app_assoc. split_and!; [done|done|by apply Forall_app].
Qed.
Lemma then_launched t1 t2 t3 : quietly t1 t2 -> launched t2 t3 -> launched t1 t3.
Proof.
  intros (l & -> & Hl) (l1 & l2 & boot & args & -> & H1' & H2'). exists (l1 ++ l), l2, boot, args.
  rewrite <- app_assoc. split_and!; [done|by apply Forall_app|done].
Qed.
Lemma quietly_steady g g' : steady g g' -> quietly (trace g) (trace g').
Proof. intros Hs. apply Hs. Qed.

(** From the intent on: whatever fails, the allocation stays sealed and there is one launch. *)
Lemma pwp_spawn r e args k (Q : Receipt * Z -> Machine -> Prop) g :
  inv true g -> intended r e g ->
  (forall g', inv true g' -> intended r e g' -> hold true k Q g') ->
  pwp (_ ← spawn_jailer m args; k) (fun res g' => inv true g' /\
    (quietly (trace g) (trace g') \/ launched (trace g) (trace g')) /\ forall a, res = Ok a -> Q a g') g.
Proof.
  intros Hi Hn Hk. apply pwp_bind. unfold spawn_jailer, syscall, pwp. pose proof (calm_stirred g Syscall eq_refl) as Hc.
  set (g1 := record (stir g) Syscall) in *. pose proof (inv_calm _ _ _ _ _ _ _ _ Hc Hi) as Hi1.
  pose proof (intended_calm _ _ _ _ Hc Hn) as Hn1. pose proof (quietly_steady _ _ (minor_steady _ _ (calm_minor _ _ Hc))) as Hq.
  destruct (fault _); [by split_and!; [|left|]|]. cbn [fst snd].
  set (a := Launch _ _). set (g2 := set_jailing (record g1 a) true).
  pose proof (Hk g2 (inv_spawn _ _ _ _ _ Hi1 Hn1) (intended_spawn _ _ _ _ Hn1)) as Hh.
  unfold GuardianKeeps.hold, pwp in Hh. destruct Hh as (Hi3 & Hs3 & HQ). split_and!; [done| |done]. right.
  eapply launched_then; [|by apply quietly_steady]. eapply then_launched; [exact Hq|].
  exists [], [], (boot_id_of (boots g1)), (jailer_args m args). split_and!; [done|constructor..].
Qed.


(** ** The judgement of a start *)

Definition starts {A} (b : bool) (x : M A) (Q : A -> Machine -> Prop) (g : Machine) : Prop :=
  pwp x (fun res g' => exists b', (b = true -> b' = true) /\ inv b' g' /\
    (quietly (trace g) (trace g') \/ (b' = true /\ launched (trace g) (trace g'))) /\
    forall a, res = Ok a -> Q a g') g.

Lemma starts_then {A B} b (x : M A) (k : A -> M B) (Q : B -> Machine -> Prop) g :
  hold b x (fun a g' => inv b g' -> steady g g' -> starts b (k a) Q g') g -> starts b (x ≫= k) Q g.
Proof.
  unfold starts. intros Hx. unfold GuardianKeeps.hold in Hx. apply pwp_bind. eapply pwp_mono; [exact Hx|].
  intros [a|e] g' (Hi & Hs & HQ); [|exists b; split_and!; [done|done|left; by apply quietly_steady|done]].
  eapply pwp_mono; [exact (HQ a eq_refl Hi Hs)|]. intros r g2 (b' & Hb & Hi2 & Ht & HQ2).
  exists b'. split_and!; [done|done| |done]. destruct Ht as [Ht|[Hb' Ht]].
  - left. eapply quiet_ext_trans; [by apply quietly_steady|done].
  - right. split; [done|]. eapply then_launched; [by apply quietly_steady|done].
Qed.
Lemma starts_hold {A} b (x : M A) (Q : A -> Machine -> Prop) g : hold b x Q g -> starts b x Q g.
Proof.
  unfold starts. intros Hx. unfold GuardianKeeps.hold in Hx. eapply pwp_mono; [exact Hx|].
  intros r g' (Hi & Hs & HQ). exists b. split_and!; [done|done|left; by apply quietly_steady|done].
Qed.
Lemma starts_seal {A} b r e (x : M A) (Q : A -> Machine -> Prop) g :
  inv b g -> intended r e g -> (inv true g -> starts true x Q g) -> starts b x Q g.
Proof.
  intros Hi Hn Hx. unfold starts in *. eapply pwp_mono; [exact (Hx (intended_sealed _ _ _ _ Hi Hn))|].
  intros res g' (b' & Hb & Hi' & Ht & HQ). exists b'. split_and!; [auto|done..].
Qed.

Definition running (a : Receipt * Z) (g : Machine) : Prop :=
  inv true g /\ r_state a.1 = Running /\ exists e, intended a.1 e g.
Lemma starts_vm b r e d ids g :
  inv b g -> starting g -> eligible_now r e d g -> starts b (start_vm m r ids) running g.
Proof.
  intros Hi Hst Hel. unfold start_vm. apply starts_then.
  eapply (hold_calm _ _ _ _ _ b group_metadata (fun a g' => a = (g_inode <$> group g'))); [done|by apply calmly_group|].
  intros ino g1 Hi1 Hc1 Hino _ _. pose proof (eligible_calm _ _ _ _ _ Hc1 Hel) as Hel1.
  pose proof (starting_calm _ _ Hc1 Hst) as Hst1.
  apply starts_then, hold_checked; [done|]. intros i Hi'%ok_or_ok _ _. cbn zeta.
  assert (grouped i g1) as Hg1.
  { rewrite Hino in Hi'. destruct (group g1) as [x|] eqn:Hx; [|done]. injection Hi' as <-. by exists x. }
  set (r1 := with_launch r i ids.1 ids.2).
  assert (r_state r <> Stopped) as Hns by by rewrite (en_state _ _ _ _ Hel1).
  apply starts_then. eapply (hold_write_intended b r e r1);
    [done|done|apply Hel1|apply Hel1|done|by split|by apply receipt_ok_launch; [apply Hel1|]|by left| |].
  { exists i. split_and!; [done|done|apply Hel1]. }
  intros e1 g2 Hi2 Hn2 _ _. eapply starts_seal; [done|exact Hn2|]. clear Hi2. intros Hi2.
  apply starts_then. eapply hold_tranquil; [done|by apply tranquil_socket, plain_not_essential|].
  intros [] g3 Hi3 Hc3 _ _. pose proof (intended_calm _ _ _ _ Hc3 Hn2) as Hn3.
  apply starts_then. eapply hold_tranquil; [done|apply tranquil_unseen|]. intros [] g4 Hi4 Hc4 _ _.
  pose proof (intended_calm _ _ _ _ Hc4 Hn3) as Hn4.
  apply starts_then, hold_checked; [done|]. intros pn _ _ _. unfold starts.
  eapply pwp_mono; [eapply (pwp_spawn r1 e1 pn _ running); [done|done|]|].
  2: { intros res g' (Hi5 & Ht & HQ). exists true. split_and!; [done|done|naive_solver|done]. }
  intros g5 Hi5 Hn5. apply hold_bind. eapply hold_tranquil; [done|apply tranquil_await_vm|]. intros pid g6 Hi6 Hc6 _ _.
  apply hold_bind. eapply hold_tranquil; [done|by apply tranquil_ask|]. intros alive g7 Hi7 Hc7 _ _.
  apply hold_bind, hold_checked; [done|]. intros [] _ _ _. cbn zeta.
  pose proof (intended_calm _ _ _ _ Hc7 (intended_calm _ _ _ _ Hc6 Hn5)) as Hn7.
  set (r2 := with_vm r1 pid). apply hold_bind.
  eapply (hold_write_intended true r1 e1 r2); [done|apply Hn7|apply Hn7|apply Hn7|done|by split| |by right|apply Hn7|].
  { apply receipt_ok_vm; [apply Hn7|done]. }
  intros e2 g8 Hi8 Hn8 _ _. apply hold_ret; [done|]. split_and!; [done|done|by exists e2].
Qed.

(** The group and the watchdog. *)
Lemma inv_new_group b g : inv b g -> guardian g = None ->
  inv b (set_next_inode (set_group g (Some {| g_inode := next_inode g; populated := false |})) (next_inode g + 1)).
Proof.
  intros Hi Hg. pose proof (alone_idle _ _ _ _ _ _ _ Hi Hg) as Hj. split; try apply Hi.
  - cbn. intros x [= <-] [Hp|Hj']; [done|]. cbn in Hj'. congruence.
  - cbn. rewrite Hj. done.
  - intros v r Hv Hr Hs. destruct (i_stopped _ _ _ _ _ _ _ Hi v r Hv Hr Hs) as (_ & ? & ? & ?). split_and!; [|done..].
    by intros x [= <-].
  - intros p rec Hp. cbn in Hp. congruence.
Qed.
Lemma inv_new_guardian b r e d g :
  inv b g -> guardian g = None -> eligible_now r e d g -> quelled <> true ->
  inv b (set_guardian g (Some {| deadline := d; shared := None; threads := []; vm_pid := 0 |})).
Proof.
  intros Hi Hg Hel Hq. pose proof (alone_idle _ _ _ _ _ _ _ Hi Hg) as Hj. split; try apply Hi.
  - cbn. by rewrite Hj.
  - intros v r' Hv Hr Hs. exfalso.
    eapply (none_stopped m h quelled low P b g e r Hi (en_now _ _ _ _ Hel) (en_receipt _ _ _ _ Hel)); [|exact Hv|exact Hr|done].
    by rewrite (en_state _ _ _ _ Hel).
  - by cbn; intros ? rec [= <-].
  - cbn. intros ? [= <-]. apply Hel.
  - cbn. intros ? [= <-]. cbn. lia.
  - by intros Hqu.
  - intros r0 Hl. destruct (i_low _ _ _ _ _ _ _ Hi r0 Hl) as [Hr _]. split; [done|]. by cbn; intros ? rec [= <-].
Qed.


(** What is quiet but may make or end a guardian. *)
Definition stays {A} (b : bool) (x : M A) (Q : A -> Machine -> Prop) (g : Machine) : Prop :=
  pwp x (fun res g' => inv b g' /\ quietly (trace g) (trace g') /\ forall a, res = Ok a -> Q a g') g.
Lemma stays_hold {A B} b (x : M A) (k : A -> M B) (Q : B -> Machine -> Prop) g :
  hold b x (fun a g' => inv b g' -> steady g g' -> stays b (k a) Q g') g -> stays b (x ≫= k) Q g.
Proof.
  unfold stays. intros Hx. unfold GuardianKeeps.hold in Hx. apply pwp_bind. eapply pwp_mono; [exact Hx|].
  intros [a|e] g' (Hi & Hs & HQ); [|split_and!; [done|by apply quietly_steady|done]].
  eapply pwp_mono; [exact (HQ a eq_refl Hi Hs)|]. intros r g2 (Hi2 & Ht & HQ2).
  split_and!; [done|eapply quiet_ext_trans; [by apply quietly_steady|done]|done].
Qed.
Lemma starts_stays {A B} b (x : M A) (k : A -> M B) (Q : B -> Machine -> Prop) g :
  stays b x (fun a g' => inv b g' -> starts b (k a) Q g') g -> starts b (x ≫= k) Q g.
Proof.
  unfold stays, starts. intros Hx. apply pwp_bind. eapply pwp_mono; [exact Hx|].
  intros [a|e] g' (Hi & Hs & HQ); [|exists b; split_and!; [done|done|by left|done]].
  eapply pwp_mono; [exact (HQ a eq_refl Hi)|]. intros r g2 (b' & Hb & Hi2 & Ht & HQ2).
  exists b'. split_and!; [done|done| |done]. destruct Ht as [Ht|[Hb' Ht]].
  - left. by eapply quiet_ext_trans.
  - right. split; [done|]. by eapply then_launched.
Qed.

Lemma stays_own_group b r e d g :
  inv b g -> guardian g = None -> locked g = true -> eligible_now r e d g -> quelled <> true ->
  stays b (own_group m d) (fun _ g' => starting g' /\ eligible_now r e d g') g.
Proof.
  intros Hi Hg Hl Hel Hq. unfold own_group.
  apply stays_hold. eapply hold_tranquil; [done|apply tranquil_unseen|]. intros [] g1 Hi1 Hc1 _ _.
  apply stays_hold. eapply hold_tranquil; [done|by apply tranquil_ask|]. intros idle g2 Hi2 Hc2 _ _.
  apply stays_hold, hold_checked; [done|]. intros [] _ _ _.
  apply stays_hold. eapply hold_tranquil; [done|apply tranquil_unseen|]. intros [] g3 Hi3 Hc3 _ _.
  pose proof (machine_calm_trans _ _ _ Hc1 (machine_calm_trans _ _ _ Hc2 Hc3)) as Hc.
  pose proof (alone_calm _ _ Hc Hg) as Hg3. pose proof (eligible_calm _ _ _ _ _ Hc Hel) as Hel3.
  assert (locked g3 = true) as Hl3 by by rewrite (mi_locked _ _ (calm_minor _ _ Hc)).
  apply stays_hold.
  set (Q := fun (_ : unit) g' => guardian g' = None /\ locked g' = true /\ eligible_now r e d g').
  apply (hold_mono _ _ _ _ _ b _ Q).
  { unfold GuardianKeeps.hold, pwp, create_group, syscall. pose proof (calm_stirred g3 Syscall eq_refl) as Hc4.
    set (g4 := record (stir g3) Syscall) in *. pose proof (inv_calm _ _ _ _ _ _ _ _ Hc4 Hi3) as Hi4.
    pose proof (minor_steady _ _ (calm_minor _ _ Hc4)) as Hs4. pose proof (alone_calm _ _ Hc4 Hg3) as Hg4.
    destruct (fault _); [by split_and!|]. destruct (group g4) as [x|] eqn:Hx; cbn; [by split_and!|].
    set (g5 := set_next_inode _ _). assert (steady g4 g5) as Hs5 by (split; try done; apply quiet_refl).
    split_and!; [exact (inv_new_group b g4 Hi4 Hg4)|by eapply machine_steady_trans|]. intros [] _. unfold Q. split_and!; [done| |].
    - by rewrite (st_locked _ _ Hs5), (st_locked _ _ Hs4).
    - eapply eligible_steady; [exact Hs5|by apply same_dir_of|]. by eapply eligible_calm. }
  intros [] g5 Hi5 _ (Hg5 & Hl5 & Hel5) _ _.
  apply stays_hold. eapply hold_tranquil; [done|apply tranquil_unseen|]. intros [] g6 Hi6 Hc6 _ _.
  unfold stays, pwp, syscall. pose proof (calm_stirred g6 Syscall eq_refl) as Hc7.
  set (g7 := record (stir g6) Syscall) in *. pose proof (machine_calm_trans _ _ _ Hc6 Hc7) as Hc57.
  pose proof (inv_calm _ _ _ _ _ _ _ _ Hc57 Hi5) as Hi7. pose proof (alone_calm _ _ Hc57 Hg5) as Hg7.
  pose proof (quietly_steady _ _ (minor_steady _ _ (calm_minor _ _ Hc7))) as Hq7.
  pose proof (eligible_calm _ _ _ _ _ Hc57 Hel5) as Hel7.
  destruct (fault _); [by split_and!|]. cbn. split_and!; [by eapply inv_new_guardian|done|].
  intros [] _. split; [split; [change (locked g7 = true); by rewrite (mi_locked _ _ (calm_minor _ _ Hc57))|by eexists]|].
  destruct Hel7. by split.
Qed.

Lemma settled_drop g l : settled (drop_guard l g) <-> settled g.
Proof. done. Qed.

(** A start of a guardian. *)
Record started (b : bool) (g : Machine) (b' : bool) (g' : Machine) : Prop := {
  sd_inv : inv b' g';
  sd_settled : settled g';
  sd_sealed : b = true -> b' = true;
  sd_trace : quietly (trace g) (trace g') \/
             (b = false /\ b' = true /\ granted m P /\ launched (trace g) (trace g'));
  sd_guardian : is_some (guardian g') = true -> is_some (guardian g) = true \/ (b = false /\ b' = true);
}.
Lemma started_quiet b g g' : inv b g' -> settled g' -> quietly (trace g) (trace g') ->
  (is_some (guardian g') = true -> is_some (guardian g) = true) -> started b g b g'.
Proof. intros Hi Hs Ht Hg. split; [done..|by left|auto]. Qed.
Lemma started_then b g1 g2 b' g3 : quietly (trace g1) (trace g2) -> is_some (guardian g2) = is_some (guardian g1) ->
  started b g2 b' g3 -> started b g1 b' g3.
Proof.
  intros Ht Hg Hs. split; [apply Hs..| |rewrite <- Hg; apply Hs]. destruct (sd_trace _ _ _ _ Hs) as [Ht'|(? & ? & ? & Ht')].
  - left. by eapply quiet_ext_trans.
  - right. split_and!; [done..|]. by eapply then_launched.
Qed.

(** What a guardian does before it serves. *)
Lemma eligible_open b r e d g : inv b g -> eligible_now r e d g -> b = false.
Proof.
  intros Hi Hel. destruct b; [|done]. assert (closed e) as Hcl by (eapply sealed_closed; [exact Hi|apply Hel]).
  unfold closed in Hcl. rewrite (en_receipt _ _ _ _ Hel), (en_state _ _ _ _ Hel) in Hcl. by destruct Hcl.
Qed.
Lemma hold_start_sealed (Q : unit -> Machine -> Prop) g : inv true g -> hold true (start_guardian m) Q g.
Proof.
  intros Hi. unfold start_guardian. apply hold_bind, hold_eligible; [done|]. intros r d ids e g1 Hi1 _ Hel.
  by pose proof (eligible_open _ _ _ _ _ Hi1 Hel).
Qed.
Lemma starts_guardian g :
  inv false g -> guardian g = None -> locked g = true -> quelled <> true ->
  starts false (start_guardian m) (fun _ g' => settled g' /\ inv true g') g.
Proof.
  intros Hi Hg Hl Hqb. unfold start_guardian. apply starts_then, hold_eligible; [done|]. intros r d ids e g1 Hi1 Hc1 Hel _ _.
  apply starts_stays. unfold stays. eapply pwp_mono.
  { eapply (stays_own_group false r e d g1); [done|by eapply alone_calm|by rewrite (mi_locked _ _ (calm_minor _ _ Hc1))|done|done]. }
  intros res g2 (Hi2 & Ht2 & HQ). split_and!; [done..|]. intros [] Ha _. destruct (HQ _ Ha) as [Hst Hel2].
  unfold starts. apply pwp_bind. eapply pwp_mono; [by eapply starts_vm|].
  intros [[r2 pid]|err] g3 (b' & _ & Hi3 & Ht3 & HQ3); [|by exists b'].
  destruct (HQ3 _ eq_refl) as (Hi3' & Hrun & e3 & Hn3). cbn in Hrun, Hn3. exists true.
  destruct (it_starting _ _ _ Hn3) as (Hl3 & p & Hp & Hsh & Hth).
  destruct (allowed_now _ _ _ _ _ _ _ _ Hi3' Hp) as [Hd _ Hq _].
  unfold pwp, modify, on_guardian. cbn [fst snd]. rewrite Hp. cbn [fmap option_fmap option_map].
  assert (inv true (set_guardian g3 (Some {| deadline := deadline p; shared := Some r2; threads := []; vm_pid := pid |}))) as Hi4.
  { apply (inv_memory m h quelled low P true g3 p); [done|done|]. split; cbn; [done|lia|done|].
    intros ? [= <-]. pose proof (intended_retained _ _ _ Hn3) as Hre. split_and!; [apply Hn3|by left| | |].
    - intros x Hx. by eapply intended_owns.
    - eapply retained_mono; [|exact Hre]. by intros r' ->.
    - intros r0 Hlow. destruct (i_low _ _ _ _ _ _ _ Hi3' r0 Hlow) as [Hrl _].
      eapply (current_retained (fun r => covers r r0)); [apply Hn3|apply Hn3|done]. }
  split_and!; [done|done| |].
  - destruct Ht3 as [Ht3|[_ Ht3]]; [by left|by right].
  - intros [] _. split; [|done]. split; cbn; [by rewrite Hl3|]. by intros ? [= <-].
Qed.

Lemma started_bind {A} b (x : M A) (k : A -> M unit) g :
  settled g ->
  hold b x (fun a g' => inv b g' -> settled g' -> pwp (k a) (fun _ g2 => exists b', started b g' b' g2) g') g ->
  pwp (x ≫= k) (fun _ g' => exists b', started b g b' g') g.
Proof.
  intros Hs Hx. unfold GuardianKeeps.hold in Hx. apply pwp_bind. eapply pwp_mono; [exact Hx|].
  intros [a|e] g' (Hi & Hst & HQ).
  - eapply pwp_mono; [exact (HQ a eq_refl Hi (settled_steady _ _ Hst Hs))|]. intros r g2 [b' Hb]. exists b'.
    eapply started_then; [by apply quietly_steady|apply Hst|done].
  - exists b. apply started_quiet; [done|by eapply settled_steady|by apply quietly_steady|by rewrite (st_guardian _ _ Hst)].
Qed.
Lemma pwp_start_guardian b g :
  inv b g -> guardian g = None -> locked g = true -> (quelled = true -> b = true) -> granted m P ->
  pwp (until_death (start_guardian m)) (fun _ g' => exists b', started b g b' g') g.
Proof.
  intros Hi Hg Hl Hqb Hgr. unfold pwp, until_death. destruct b.
  - pose proof (hold_start_sealed (fun _ _ => False) g Hi) as Hh. unfold GuardianKeeps.hold, pwp in Hh.
    destruct (start_guardian m g) as [g' [a|e]]; destruct Hh as (Hi' & Hs' & HF); [by destruct (HF a eq_refl)|].
    exists true. cbn in *. apply started_quiet; [by apply inv_die|apply settled_die| |].
    + destruct (die_fields g') as (_ & _ & _ & _ & -> & _). by apply quietly_steady.
    + by destruct (die_fields g') as (-> & _).
  - assert (quelled <> true) as Hq by (intros Hq; by specialize (Hqb Hq)).
    pose proof (starts_guardian g Hi Hg Hl Hq) as Hb. unfold starts, pwp in Hb.
    destruct (start_guardian m g) as [g' [a|e]]; destruct Hb as (b' & _ & Hi' & Ht & HQ); [exists true|exists b']; cbn in *.
    + destruct (HQ a eq_refl) as [Hs' Hi'']. split; [done|done|done| |by right].
      destruct Ht as [Ht|[_ Ht]]; [by left|by right].
    + destruct (die_fields g') as (Hn & _ & _ & _ & Htd & _). split; [by apply inv_die|apply settled_die|done| |by rewrite Hn].
      rewrite Htd. destruct Ht as [Ht|[Hb' Ht]]; [by left|by right].
Qed.
Lemma pwp_namespace_init b g :
  inv b g -> settled g -> (quelled = true -> b = true) ->
  pwp (namespace_init m) (fun _ g' => exists b', started b g b' g') g.
Proof.
  intros Hi Hs Hqb. unfold namespace_init.
  apply started_bind, hold_checked; [done..|]. intros [] _ _ _.
  apply started_bind; [done|]. eapply hold_tranquil; [done|by apply tranquil_ask|]. intros first g1 _ _ Hi1 Hs1.
  apply started_bind, hold_checked; [done..|]. intros [] _ _ _.
  apply started_bind, hold_checked; [done..|]. intros [] _ _ _.
  apply started_bind, hold_authorize_launch; [done..|]. intros l w _ Hgr Hi2 Hs2. set (g2 := set_ledger g1 w) in *.
  assert (pwp (_ ← lifecycle_lock true; until_death (start_guardian m)) (fun _ g' => exists b', started b g2 b' g') g2) as Hb.
  { apply pwp_bind. eapply pwp_mono; [by apply (pwp_lifecycle_lock _ _ _ _ _ b true g2 Hi2 (proj1 Hs2))|].
    intros [[]|err] g3 Hlock.
    - destruct Hlock as (g0 & e & Hi0 & Hst0 & Hg0 & Hl0 & _ & _ & ->).
      eapply pwp_mono; [by apply (pwp_start_guardian b (set_locked g0 true)); [by apply inv_locked|..]|].
      intros r g' [b' Hb']. exists b'. eapply started_then; [| |exact Hb']; [exact (quietly_steady _ _ Hst0)|exact (st_guardian _ _ Hst0)].
    - destruct Hlock as [Hi3 Hst3]. exists b. apply started_quiet; [done|by eapply settled_steady|by apply quietly_steady|by rewrite (st_guardian _ _ Hst3)]. }
  unfold held, pwp in *. match type of Hb with context [(?x g2).1] => destruct (x g2) as [g4 r] end. destruct Hb as (b' & [Hi4 Hs4 Hb4 Ht4 Hg4]).
  exists b'. split; [by apply inv_drop|by apply settled_drop|done|exact Ht4|exact Hg4].
Qed.
(** [main] reads the manifest that was written. *)
Lemma pwp_guardian_init b g :
  inv b g -> settled g -> (quelled = true -> b = true) ->
  pwp guardian_init (fun _ g' => exists b', started b g b' g') g.
Proof.
  intros Hi Hs Hqb. unfold guardian_init. apply started_bind; [done|].
  eapply (hold_calm _ _ _ _ _ b (read_json MANIFEST) (fun m' g' => inv b g' -> m' = m)); [done| |].
  { apply calmly_read_json. intros v f m' g' _ Hh Hv Ha Hi'.
    pose proof (i_ess _ _ _ _ _ _ _ Hi' v (in_views _ _ Hh)) as Hok.
    destruct (eo_manifest _ _ Hok (File f)) as (c & Hc & Hm); [by unfold ess; cbn; rewrite Hv|].
    injection Hc as ->. cbn in Ha. rewrite (reads_back m c Hm) in Ha. by injection Ha. }
  intros m' g1 Hi1 _ Hm _ Hs1. rewrite (Hm Hi1). by apply pwp_namespace_init.
Qed.

End start.
