(* ===== verification/GuardianTheorems.v ===== *)
(** * What the guardian guarantees

    For any events in any order, any failing call, any death of a process and any crash: a
    virtual machine is launched at most once, [Stopped] is final, a fenced lease stays fenced,
    what a guardian answered survives, and a fenced permit launches nothing. *)

From S2P Require Import Prelude Ext Ids Authority AuthorityLaws Fs FsLaws Store LaunchAuthority LaunchLaws LaunchTheorems.
From S2P Require Import Guardian GuardianEnv GuardianOps GuardianProcess GuardianLaws GuardianInv GuardianKeeps GuardianCleanup.
From S2P Require Import GuardianServes GuardianSteps GuardianStart.
From S2P Require GuestModel Lease Bootstrap Identity.
Import Identity(Identity, issue, client_tls, TlsLib).
#[local] Existing Instances Guardian.State_eq_dec Guardian.Owner_eq_dec.
Abbreviation steps := GuardianProcess.runs (only parsing).

(** A crash that loses the allocation's directory. *)
Definition loses (e : event) : bool :=
  match e with EReboot _ _ _ lost _ _ _ => lost | _ => false end.
(** Events with arguments as their callers give them. *)
Definition event_ok (h : HostId) (e : event) : Prop :=
  match e with EReconcile why => strlen why < 256 | ELedger c => call_ok h c | _ => True end.
Definition ledger_closed `{UuidLib, Serde Authority.Saved, Serde Retirement.Intent, Sha256} (P : Z * Authority -> Prop) : Prop := forall v v', P v -> lstep v v' -> P v'.

(** An event that asks for a running lease, and one that ends it. *)
Definition event_for_lease `{Serde Request} (e : event) : bool :=
  match e with EControl a => for_lease a | ERequest _ input => wants_lease input | EHello _ => true | _ => false end.
Definition event_stops `{Serde Request} (e : event) : bool :=
  match e with EControl Stop => true | ERequest _ input => wants_stop input | _ => false end.

Section steps.
Context `{GuardianEnv, UuidLaws, Serde Manifest, Sha256, Sha256Laws0 : !Sha256Laws, HexLib, Serde Receipt,
          Serde Authority.Saved, SavedLaws : !SerdeLaws Authority.Saved saved_representable,
          Serde Authority.Retirement.Intent, Serde LaunchAuthority.Required, Serde LaunchAuthority.Saved,
          FileLaws : !SerdeLaws LaunchAuthority.Saved file_representable,
          ReceiptLossless : !Lossless Receipt, ManifestLossless : !Lossless Manifest,
          Serde VmConfig, Serde Bootstrap.Bootstrap, Serde Identity, TlsLib,
          Serde Request, Serde Response, RequestLossless : !Lossless Request}.
Context (m : Manifest) (h : HostId).
Context (quelled : bool) (low : option Receipt) (P : Z * Authority -> Prop).
Hypothesis Hhost : forall p, launch_permit m = Some p -> Authority.host p = h.
Hypothesis Hclosed : ledger_closed P.

Abbreviation inv := (inv m h quelled low P).
Abbreviation started := (started m h quelled low P).

(** ** The ledger and crashes *)

Lemma closed_reach g w : (forall v, possible h (Fs.dir (ledger g)) v -> P v) -> reach h (Fs.dir (ledger g)) (Fs.dir w) ->
  forall v, possible h (Fs.dir w) v -> P v.
Proof.
  intros HP Hr v Hv. apply (re_possible _ _ _ Hr) in Hv as (v0 & Hv0 & Hs). apply HP in Hv0.
  clear -Hv0 Hs Hclosed. induction Hs; eauto.
Qed.
Lemma inv_ledger_reach b g w : inv b g -> reach h (Fs.dir (ledger g)) (Fs.dir w) -> inv b (set_ledger g w).
Proof.
  intros Hi Hr. destruct (i_ledger _ _ _ _ _ _ _ Hi) as [_ HP].
  apply inv_ledger; [done|apply Hr|]. by eapply closed_reach.
Qed.

Lemma crash_ess junk wreck v : ess_ok m (ess v) -> ess (crash_names junk wreck v) = ess v.
Proof.
  intros [Hr Hm]. unfold ess in *. cbn in Hr, Hm. unfold crash_names. rewrite !map_lookup_imap.
  assert (forall n b, v !! n = Some (plain b) -> starts_with n "run/" = false ->
            crash_node junk wreck n (plain b) = Some (plain b)) as Hp.
  { intros n b _ Hn. unfold crash_node. by rewrite Hn. }
  f_equal; [f_equal|].
  - destruct (v !! RECEIPT) as [n|] eqn:Hn; cbn; [|done].
    destruct (Hr n eq_refl) as (r & b & -> & _). by apply (Hp RECEIPT).
  - destruct (v !! MANIFEST) as [n|] eqn:Hn; cbn; [|done].
    destruct (Hm n eq_refl) as (b & -> & _). by apply (Hp MANIFEST).
  - destruct (v !! LOCK) as [n|]; cbn; [|done]. by destruct n.
Qed.
Lemma survivor_view k g v : survivor k g = Some v -> v ∈ views g.
Proof.
  destruct k as [|k]; cbn; [apply in_views|]. destruct (earlier g !! k) as [w|] eqn:Hk; [|apply in_views].
  intros [= <-]. apply in_earlier. by eapply list_elem_of_lookup_2.
Qed.
Lemma survivor_none k g : (home g = None -> earlier g = []) -> survivor k g = None -> home g = None.
Proof. intros He. destruct k as [|k]; cbn; [done|]. by destruct (earlier g !! k). Qed.

Lemma inv_reboot b g k junk wreck w :
  inv b g -> reach h (Fs.dir (ledger g)) (Fs.dir w) -> inv b (reboot k junk wreck false w g).
Proof.
  intros Hi Hr. set (g' := reboot k junk wreck false w g).
  assert (forall Q : essence -> Prop, (forall v, v ∈ views g -> Q (ess v)) -> forall v, v ∈ views g' -> Q (ess v)) as Hv.
  { intros Q HQ v Hin. unfold views, g' in Hin. cbn in Hin. destruct (survivor k g) as [v0|] eqn:Hs; cbn in Hin.
    - apply list_elem_of_singleton in Hin as ->. apply survivor_view in Hs. rewrite crash_ess; [by apply HQ|].
      by apply (i_ess _ _ _ _ _ _ _ Hi).
    - by apply not_elem_of_nil in Hin. }
  assert (is_Some (home g) -> is_Some (home g')) as Hh.
  { intros [x Hx]. cbn. destruct (survivor k g) as [v0|] eqn:Hs; [by eexists|].
    apply survivor_none in Hs; [congruence|apply (i_home _ _ _ _ _ _ _ Hi)]. }
  assert (forall R, retained R g -> retained R g') as HR.
  { intros R [Hs HR]. split; [auto|]. by apply (Hv (fun e => exists r, receipt_in e = Some r /\ R r)). }
  split; try done.
  - apply Hv, Hi.
  - intros Hb. destruct (i_sealed _ _ _ _ _ _ _ Hi Hb). split; [auto|by apply Hv].
  - intros v r Hin Hr' Hs. split_and!; [done|done| |].
    + exists (ess v), r. split_and!; [|done..]. unfold views in Hin. cbn in Hin |- *. destruct (survivor k g); cbn in *.
      * by apply list_elem_of_singleton in Hin as ->.
      * by apply not_elem_of_nil in Hin.
    + pose proof (Hv (fun e => (exists r, receipt_in e = Some r /\ r_state r = Stopped) ->
        forall v, v ∈ views g' -> closed (ess v))) as Hc. eapply Hc; [|exact Hin|by exists r].
      intros v0 Hv0 (r0 & Hr0 & Hs0). destruct (i_stopped _ _ _ _ _ _ _ Hi v0 r0 Hv0 Hr0 Hs0) as (_ & _ & _ & Hcl).
      by apply Hv.
  - intros r0 Hl. destruct (i_low _ _ _ _ _ _ _ Hi r0 Hl) as [Hre _]. by split; [apply HR|].
  - split; [apply Hr|]. eapply closed_reach; [apply (i_ledger _ _ _ _ _ _ _ Hi)|done].
Qed.
Lemma inv_lost b g k junk wreck w :
  inv b g -> low = None -> reach h (Fs.dir (ledger g)) (Fs.dir w) -> inv false (reboot k junk wreck true w g).
Proof.
  intros Hi Hlow Hr. assert (forall v, v ∉ views (reboot k junk wreck true w g)) as Hno by (intros v; apply not_elem_of_nil).
  split; try done.
  - intros v Hv. by apply Hno in Hv.
  - intros v r Hv. by apply Hno in Hv.
  - by rewrite Hlow.
  - split; [apply Hr|]. eapply closed_reach; [apply (i_ledger _ _ _ _ _ _ _ Hi)|done].
Qed.

(** ** Events *)

(** What the answer of an event says about the machine it leaves. *)
Definition answer_ok (e : event) (a : answer) (g : Machine) : Prop :=
  match a with
  | AReceipt (Ok r) => r_state r = Stopped -> answers m r g
  | AResponse (Ok v) =>
      replied v g /\ (event_for_lease e = true -> quelled = true -> v = rejected) /\
      (event_stops e = true -> v = rejected \/ forall p, guardian g = Some p -> fenced p)
  | _ => True
  end.

Definition goes (b : bool) (e : event) (g : Machine) : Prop :=
  exists b', started b g b' (step m e g).1 /\ answer_ok e (step m e g).2 (step m e g).1.

Lemma fine_started b g g' : fine m h quelled low P b g g' -> started b g b g'.
Proof. intros Hf. apply started_quiet; apply Hf. Qed.
Lemma hold_started b {A} (x : M A) (Q : A -> Machine -> Prop) g :
  settled g -> hold m h quelled low P b x Q g -> started b g b (x g).1 /\ forall a, (x g).2 = Ok a -> Q a (x g).1.
Proof.
  intros Hs Hx. apply (safe_hold _ _ _ _ _ b x Q g Hs) in Hx as [Hf HQ]. split; [by apply fine_started|done].
Qed.

Lemma goes_receipt b e (x : M Receipt) g :
  settled g -> hold m h quelled low P b x (fun r g' => r_state r = Stopped -> answers m r g') g ->
  step m e g = ((x g).1, AReceipt (x g).2) -> goes b e g.
Proof.
  intros Hs Hx He. apply (hold_started b x _ g Hs) in Hx as [Hst HQ]. exists b. rewrite He. cbn. split; [done|].
  destruct (x g).2 as [r|] eqn:Hr; [|done]. by apply HQ.
Qed.
Lemma goes_silent b e {A} (x : M A) (Q : A -> Machine -> Prop) g :
  safe m h quelled low P b x Q g -> step m e g = ((x g).1, ANothing) -> goes b e g.
Proof. intros [Hf _] He. exists b. rewrite He. split; [by apply fine_started|done]. Qed.

Definition response_ok (e : event) (o : option Response) (g : Machine) : Prop :=
  match o with Some v => answer_ok e (AResponse (Ok v)) g | None => True end.
Lemma goes_response b e (x : M (option Response)) g :
  safe m h quelled low P b x (response_ok e) g ->
  (step m e g).1 = (x g).1 /\
  (forall v, (step m e g).2 = AResponse (Ok v) -> (x g).2 = Ok (Some v)) /\ (forall r, (step m e g).2 <> AReceipt (Ok r)) ->
  goes b e g.
Proof.
  intros [Hf HQ] (H1' & H2' & H3'). exists b. rewrite H1'. split; [by apply fine_started|].
  destruct (step m e g).2 as [|[r|]|[v|]]; try done; [by destruct (H3' r)|]. exact (HQ (Some v) (H2' v eq_refl)).
Qed.
Lemma serve_safe b i input g :
  inv b g -> settled g -> safe m h quelled low P b (until_death (serve m i input)) (response_ok (ERequest i input)) g.
Proof.
  intros Hi Hs. apply safe_until_death, ends_hold; [done|]. destruct (guardian g) as [p|] eqn:Hp.
  - destruct (settled_serving g p Hs Hp) as [rec Hsv]. eapply hold_serve; [done|done|exact Hsv| |done].
    intros v g' _ Hr Hl Hst. by split_and!.
  - unfold serve. apply hold_bind, hold_the_guardian; [done|]. intros p Hp'. congruence.
Qed.

Lemma reboot_goes b g k junk wreck lk lj later :
  inv b g -> goes b (EReboot k junk wreck false lk lj later) g.
Proof.
  intros Hi. exists b. split; [|done]. cbn. set (w := LaunchTheorems.reboot _ _ _ _).
  assert (reach h (Fs.dir (ledger g)) (Fs.dir w)) as Hr.
  { exact (run_reach h (CCrash lk lj later) (ledger g) I (proj1 (i_ledger _ _ _ _ _ _ _ Hi))). }
  apply started_quiet; [by apply inv_reboot|by split|apply quiet_refl|done].
Qed.

Lemma event_goes b e g :
  inv b g -> settled g -> event_ok h e -> (quelled = true -> b = true) -> loses e = false -> goes b e g.
Proof.
  intros Hi Hs Hok Hqb Hlo. destruct Hs as [Hl Hsh]. assert (settled g) as Hs by by split.
  destruct e; cbn in Hok, Hlo.
  - apply (goes_receipt b _ (prepare m)); [done| |by cbn; destruct (prepare m g)]. by apply hold_prepare.
  - assert (safe m h quelled low P b (launch_begin m)
      (fun o g' => forall r, o = Some r -> r_state r = Stopped -> answers m r g') g) as [Hf HQ] by by apply safe_launch_begin.
    exists b. cbn.
    destruct (launch_begin m g) as [g' [[r|]|err]]; cbn in *; (split; [by apply fine_started|done || by apply (HQ (Some r))]).
  - apply (goes_receipt b _ (launch_end m status)); [done| |by cbn; destruct (launch_end m status g)].
    apply hold_reconcile; [done..| |by intros]. unfold exit_reason. destruct status as [c|]; [|done].
    by destruct (c =? 124), (c =? 0).
  - apply (goes_receipt b _ (reconcile m reason)); [done| |by cbn; destruct (reconcile m reason g)].
    by apply hold_reconcile.
  - apply (goes_receipt b _ (fence_unstarted m)); [done| |by cbn; destruct (fence_unstarted m g)].
    by apply hold_fence_unstarted.
  - assert (safe m h quelled low P b (control m a) (answered quelled a) g) as [Hf HQ] by by apply safe_control.
    exists b. cbn. destruct (control m a g) as [g' [v|err]]; cbn in *; (split; [by apply fine_started|]); [|done].
    destruct (HQ v eq_refl) as [Hr Hle Hst]. split_and!; [done|done|]. intros Ha. apply Hst. by destruct a.
  - eapply (goes_silent b _ (guest_client m) (fun _ _ => True)); [by apply safe_guest_client|done].
  - pose proof (pwp_guardian_init m h quelled low P Hhost b g Hi Hs Hqb) as (b' & Hb). by exists b'.
  - eapply (goes_silent b _ (until_death watch) (fun _ _ => True)); [|done]. by apply safe_until_death, ends_watch.
  - eapply (goes_silent b _ (until_death reap) (fun _ _ => True)); [|done]. by apply safe_until_death, ends_reap.
  - eapply (goes_silent b _ (until_death accept) (fun _ _ => True)); [|done].
    by apply safe_until_death, ends_hold, hold_accept.
  - eapply (goes_response b _ (until_death (serve m i input))); [by apply serve_safe|]. cbn.
    destruct (until_death (serve m i input) g) as [g' [[v|]|e]]; cbn; split_and!; naive_solver.
  - eapply (goes_response b _ (until_death (finish_binding i))).
    2: { cbn. destruct (until_death (finish_binding i) g) as [g' [[v|]|e]]; cbn; split_and!; naive_solver. }
    apply safe_until_death, ends_hold, hold_finish_binding; [done..| |done]. cbn. intros v g' _ Hr Hv. by split_and!.
  - exists b. split; [|done]. cbn. pose proof (calm_move mv g) as Hc. pose proof (minor_steady _ _ (calm_minor _ _ Hc)) as Hst.
    apply started_quiet; [by eapply inv_calm|by eapply settled_steady|apply Hst|by rewrite (st_guardian _ _ Hst)].
  - exists b. split; [|done]. cbn. apply started_quiet; [|done|apply quiet_refl|done].
    apply inv_ledger_reach; [done|]. apply run_reach; [done|]. apply (i_ledger _ _ _ _ _ _ _ Hi).
  - rewrite Hlo. by apply reboot_goes.
Qed.
End steps.

(** ** Runs *)

Section runs.
Context `{GuardianEnv, UuidLaws, Serde Manifest, Sha256, Sha256Laws0 : !Sha256Laws, HexLib, Serde Receipt,
          Serde Authority.Saved, SavedLaws : !SerdeLaws Authority.Saved saved_representable,
          Serde Authority.Retirement.Intent, Serde LaunchAuthority.Required, Serde LaunchAuthority.Saved,
          FileLaws : !SerdeLaws LaunchAuthority.Saved file_representable,
          ReceiptLossless : !Lossless Receipt, ManifestLossless : !Lossless Manifest,
          Serde VmConfig, Serde Bootstrap.Bootstrap, Serde Identity, TlsLib,
          Serde Request, Serde Response, RequestLossless : !Lossless Request}.
Context (m : Manifest) (h : HostId).

(** A machine on which the allocation was never prepared. *)
Record pristine (g : Machine) : Prop := {
  pr_home : home g = None;
  pr_earlier : earlier g = [];
  pr_group : group g = None;
  pr_jailing : jailing g = false;
  pr_locked : locked g = false;
  pr_guardian : guardian g = None;
  pr_trace : trace g = [];
  pr_ledger : dir_ok (Fs.dir (ledger g));
}.

(** What holds between the events of a run. *)
Record sane (quelled : bool) (low : option Receipt) (P : Z * Authority -> Prop) (b : bool) (g : Machine) : Prop := {
  sn_inv : inv m h quelled low P b g;
  sn_settled : settled g;
  sn_guarded : is_some (guardian g) = true -> b = true;
}.

Lemma pristine_sane P g :
  pristine g -> (forall v, possible h (Fs.dir (ledger g)) v -> P v) -> sane false None P false g.
Proof.
  intros [H1' H2' H3' H4' H5' H6' H7' H8'] HP.
  assert (views g = []) as Hv by (unfold views; by rewrite H1').
  split; [split; try (by rewrite ?Hv; intros ? ?%not_elem_of_nil); try done| |by rewrite H6'].
  - by rewrite H3'.
  - by rewrite H4'.
  - intros v r Hin. rewrite Hv in Hin. by apply not_elem_of_nil in Hin.
  - by rewrite H6'.
  - by rewrite H6'.
  - by rewrite H6'.
  - split; [by rewrite H5', H6'|by rewrite H6'].
Qed.

Section keeping.
Context (quelled : bool) (low : option Receipt) (P : Z * Authority -> Prop).
Hypothesis Hhost : forall p, launch_permit m = Some p -> Authority.host p = h.
Hypothesis Hclosed : ledger_closed P.

(** What a step did. *)
Record moved (b : bool) (g : Machine) (b' : bool) (g' : Machine) : Prop := {
  mv_sane : sane quelled low P b' g';
  mv_sealed : b = true -> b' = true;
  mv_trace : quietly (trace g) (trace g') \/
             (b = false /\ b' = true /\ granted m P /\ launched (trace g) (trace g'));
  mv_alone : b = true -> guardian g = None -> guardian g' = None;
}.
Lemma sane_event b e g :
  sane quelled low P b g -> event_ok h e -> loses e = false -> (quelled = true -> b = true) ->
  exists b', moved b g b' (step m e g).1 /\ answer_ok m quelled e (step m e g).2 (step m e g).1.
Proof.
  intros [Hi Hs Hg] Hok Hlo Hq. destruct (event_goes m h quelled low P Hhost Hclosed b e g Hi Hs Hok Hq Hlo) as (b' & Hb & Ha).
  exists b'. split; [|done]. destruct Hb as [Hi' Hs' Hbb Ht Hg']. split; [|done|done|].
  - split; [done|done|]. intros Hsome. destruct (Hg' Hsome) as [Hold|[_ Hb']]; auto.
  - intros -> Hn. destruct (guardian (step m e g).1) eqn:Hx; [|done]. rewrite Hn in Hg'. destruct (Hg' eq_refl) as [|[? _]]; done.
Qed.

(** Without a loss, and sealed: nothing is launched, and no guardian appears. *)
Lemma sealed_runs es g :
  sane quelled low P true g -> Forall (event_ok h) es -> Forall (fun e => loses e = false) es ->
  sane quelled low P true (steps m es g) /\ quietly (trace g) (trace (steps m es g)) /\
  (guardian g = None -> guardian (steps m es g) = None).
Proof.
  intros Hs Hok. revert g Hs. induction Hok as [|e es He _ IH]; intros g Hs Hlo; [split_and!; [done|apply quiet_refl|done]|].
  apply Forall_cons in Hlo as [Hle Hlo]. destruct (sane_event true e g Hs He Hle (fun _ => eq_refl)) as (b' & [Hs' Hb Ht Hn] & _).
  rewrite (Hb eq_refl) in Hs'. destruct (IH _ Hs' Hlo) as (H1' & H2' & H3'). cbn. split_and!; [done| |auto].
  destruct Ht as [Ht|[? _]]; [|done]. by eapply quiet_ext_trans.
Qed.
End keeping.

Hypothesis Hhost : forall p, launch_permit m = Some p -> Authority.host p = h.

Definition anything (v : Z * Authority) : Prop := True.
Lemma anything_closed : ledger_closed anything.
Proof. done. Qed.

(** A crash that loses the directory: nothing of the allocation is left. *)
Lemma lost_event P e g b :
  ledger_closed P -> sane false None P b g -> loses e = true ->
  sane false None P false (step m e g).1 /\ trace (step m e g).1 = Lost :: trace g.
Proof.
  intros Hcl [Hi Hs Hg] Hlo. destruct e; try done. cbn in Hlo. subst lost. cbn. split; [|done].
  split; [|split; done|done]. eapply inv_lost; [done|done|done|].
  exact (run_reach h (CCrash ledger_k ledger_junk later) (ledger g) I (proj1 (i_ledger _ _ _ _ _ _ _ Hi))).
Qed.

(** Whether nothing was launched since the directory was last lost. *)
Fixpoint unlaunched (t : list action) : bool :=
  match t with [] => true | Launch _ _ :: _ => false | Lost :: _ => true | _ :: t => unlaunched t end.
(** Every launch found none before it. *)
Fixpoint once (t : list action) : bool :=
  match t with [] => true | Launch _ _ :: t => unlaunched t && once t | _ :: t => once t end.
Lemma quiet_unlaunched l t : quiet l -> unlaunched (l ++ t) = unlaunched t /\ once (l ++ t) = once t.
Proof. induction 1 as [|a l Ha _ [IH1 IH2]]; [done|]. by destruct a. Qed.
Lemma unlaunched_lost t2 b a t1 : unlaunched (t2 ++ Launch b a :: t1) = true -> Lost ∈ t2.
Proof. induction t2 as [|x t2 IH]; [done|]. destruct x; cbn; intros Hu; try (by right; apply IH); try done. left. Qed.
Lemma once_lost t3 b a t2 b' a' t1 : once (t3 ++ Launch b a :: t2 ++ Launch b' a' :: t1) = true -> Lost ∈ t2.
Proof.
  induction t3 as [|x t3 IH]; cbn.
  - intros [Hu _]%andb_true_iff. by eapply unlaunched_lost.
  - destruct x; try exact IH. intros [_ Ho]%andb_true_iff. by apply IH.
Qed.

(** What every run keeps. *)
Definition tracked (P : Z * Authority -> Prop) (g : Machine) : Prop :=
  exists b, sane false None P b g /\ once (trace g) = true /\ (unlaunched (trace g) = false -> b = true).
Lemma tracked_event P e g : ledger_closed P -> tracked P g -> event_ok h e -> tracked P (step m e g).1.
Proof.
  intros Hcl (b & Hs & Ho & Hu) Hok. destruct (loses e) eqn:Hlo.
  - destruct (lost_event P e g b Hcl Hs Hlo) as [Hs' Ht]. exists false. rewrite Ht. by split_and!.
  - destruct (sane_event false None P Hhost Hcl b e g Hs Hok Hlo) as (b' & [Hs' Hb Ht _] & _); [done|].
    exists b'. split; [done|]. destruct Ht as [(l & -> & Hl)|(-> & -> & _ & (l1 & l2 & bo & ar & -> & Hl1 & Hl2))].
    + destruct (quiet_unlaunched l (trace g) Hl) as [-> ->]. split; [done|auto].
    + split; [|done]. destruct (quiet_unlaunched l2 (Launch bo ar :: l1 ++ trace g) Hl2) as [_ ->]. cbn.
      destruct (quiet_unlaunched l1 (trace g) Hl1) as [-> ->]. rewrite Ho.
      destruct (unlaunched (trace g)); [done|]. by specialize (Hu eq_refl).
Qed.
Lemma tracked_runs P es g : ledger_closed P -> tracked P g -> Forall (event_ok h) es -> tracked P (steps m es g).
Proof.
  intros Hcl Hg Hok. revert g Hg. induction Hok as [|e es He _ IH]; intros g Hg; [done|]. by apply IH, tracked_event.
Qed.
Lemma tracked_pristine es g : pristine g -> Forall (event_ok h) es -> tracked anything (steps m es g).
Proof.
  intros Hg Hok. apply tracked_runs; [exact anything_closed| |done]. exists false. rewrite (pr_trace _ Hg).
  split_and!; [by apply pristine_sane|done|done].
Qed.

(** C28. A virtual machine is launched at most once. Whatever processes prepare, launch, serve
    and clean up an allocation, in any order and with any failures, deaths and crashes: between
    two launches lies a crash that lost the allocation's directory altogether. *)
Theorem vm_launched_at_most_once g es t1 t2 t3 boot args boot' args' :
  pristine g -> Forall (event_ok h) es ->
  trace (steps m es g) = t3 ++ Launch boot args :: t2 ++ Launch boot' args' :: t1 -> Lost ∈ t2.
Proof.
  intros Hg Hok Ht. destruct (tracked_pristine es g Hg Hok) as (b & _ & Ho & _). rewrite Ht in Ho. by eapply once_lost.
Qed.

(** What the host may take an answered fence for: whatever happened to the allocation before,
    [Manifest::fence_unstarted] gives no receipt but one that says [Stopped] and confirms the
    cleanup. *)
Theorem fence_answers_cleaned_up g es r :
  pristine g -> Forall (event_ok h) es -> (step m EFence (steps m es g)).2 = AReceipt (Ok r) ->
  r_state r = Stopped /\ r_cleanup_confirmed r = true.
Proof.
  intros Hg Hok. destruct (tracked_pristine es g Hg Hok) as (b & [Hi [Hl _] _] & _). cbn.
  assert (hold m h false None anything b (fence_unstarted m)
    (fun r _ => r_state r = Stopped /\ r_cleanup_confirmed r = true) (steps m es g)) as Hf.
  { apply hold_fence_unstarted; [done..|]. intros r' g' _ (e & _ & _ & Hr) Hs. split; [done|].
    unfold receipt_ok, Guardian.validate_receipt in Hr. inv_ok. bools. rewrite Hs in *.
    by apply eqb_prop. }
  revert Hf. unfold hold, pwp. destruct (fence_unstarted m _) as [g2 [v|]]; cbn; [|done].
  intros (_ & _ & HQ) [= <-]. by apply HQ.
Qed.

(** C29. [Stopped] is final while the allocation's directory is there. Once any of the host's
    calls answered with a stopped receipt, there is no guardian and no process in the
    allocation's group, and, until a crash loses the directory with the receipt in it, none is
    ever launched again, whatever else is called, fails, dies or crashes. After such a loss the
    allocation is as new, and only the ledger of permits keeps it from being launched
    ([fenced_permit_never_launches]). *)
Theorem stopped_is_final g es e r es' :
  pristine g -> Forall (event_ok h) (es ++ e :: es') -> Forall (fun e => loses e = false) es' ->
  let g1 := steps m es g in let g2 := (step m e g1).1 in let g3 := steps m es' g2 in
  (step m e g1).2 = AReceipt (Ok r) -> r_state r = Stopped ->
  guardian g2 = None /\ (forall x, group g2 = Some x -> populated x = false) /\
  guardian g3 = None /\ exists l, trace g3 = l ++ trace g2 /\ forall boot args, Launch boot args ∉ l.
Proof.
  intros Hg [Hok [He Hok']%Forall_cons]%Forall_app Hlo g1 g2 g3 Ha Hst.
  destruct (tracked_pristine es g Hg Hok) as (b & Hs1 & _). fold g1 in Hs1.
  destruct (loses e) eqn:Hle; [by destruct e|].
  destruct (sane_event false None anything Hhost anything_closed b e g1 Hs1 He Hle) as (b' & [Hs2 _ _ _] & Hans); [done|].
  rewrite Ha in Hans. destruct (Hans Hst) as (es2 & Hnow & Hin & _). fold g2 in Hs2, Hnow.
  pose proof (sn_inv _ _ _ _ _ Hs2) as Hi2. destruct (current_view g2 es2 Hnow) as (v & Hv & Hvi & <-).
  destruct (i_stopped _ _ _ _ _ _ _ Hi2 v r Hvi Hin Hst) as (Hidle & Hn & _ & Hcl).
  assert (sane false None anything true g2) as Hs2'.
  { split; [|apply Hs2|done]. split; try apply Hi2. intros _. split; [by rewrite Hv|done]. }
  destruct (sealed_runs false None anything Hhost anything_closed es' g2 Hs2' Hok' Hlo) as (_ & (l & Ht & Hl) & Hn3).
  split_and!; [done|exact Hidle|by apply Hn3|]. exists l. split; [exact Ht|]. intros boot args Hin'.
  unfold quiet in Hl. rewrite Forall_forall in Hl. by specialize (Hl _ Hin').
Qed.

(** An event that a guardian answered. *)
Lemma answered_event P quelled low b e g v :
  ledger_closed P -> sane quelled low P b g -> event_ok h e -> (quelled = true -> b = true) ->
  (step m e g).2 = AResponse (Ok v) ->
  exists b', sane quelled low P b' (step m e g).1 /\ answer_ok m quelled e (AResponse (Ok v)) (step m e g).1.
Proof.
  intros Hcl Hs He Hq Ha. destruct (loses e) eqn:Hle; [by destruct e|].
  destruct (sane_event quelled low P Hhost Hcl b e g Hs He Hle Hq) as (b' & [Hs' _ _ _] & Hans).
  rewrite Ha in Hans. by exists b'.
Qed.
(** A served receipt is one of a sealed allocation. *)
Lemma serving_sane quelled low P b g rec : sane quelled low P b g -> serving rec g -> sane quelled low P true g.
Proof. intros Hs (p & Hp & _). assert (b = true) as ->; [|done]. apply (sn_guarded _ _ _ _ _ Hs). by rewrite Hp. Qed.

(** The ghosts of the invariant, as they become true. *)
Lemma sane_quelled P g rec :
  sane false None P true g -> serving rec g -> (forall p, guardian g = Some p -> fenced p) -> sane true None P true g.
Proof. intros [Hi Hs Hg] Hsv Hf. split; [|done|done]. split; try apply Hi. by intros _. Qed.

(** C30. A fenced lease stays fenced while the allocation's directory is there. Once a guardian
    answered a stop, or its watchdog found the lease expired, every later request to renew the
    lease or to bind a guest is rejected, whatever else is called, fails, dies or crashes, until
    a crash loses the directory. *)
Theorem fenced_lease_is_final g es e es' e' v :
  pristine g -> Forall (event_ok h) (es ++ e :: es') -> event_ok h e' -> Forall (fun e => loses e = false) (e :: es') ->
  let g1 := steps m es g in let g2 := (step m e g1).1 in let g3 := steps m es' g2 in
  (exists w, event_stops e = true /\ (step m e g1).2 = AResponse (Ok w) /\ w <> rejected) \/
  (exists p, guardian g2 = Some p /\ deadline p = 0) ->
  event_for_lease e' = true -> (step m e' g3).2 = AResponse (Ok v) -> v = rejected.
Proof.
  intros Hg [Hok [He Hok']%Forall_cons]%Forall_app He' [Hle Hlo]%Forall_cons g1 g2 g3 Hfence Hfor Hv.
  destruct (tracked_pristine es g Hg Hok) as (b & Hs1 & _). fold g1 in Hs1.
  destruct (sane_event false None anything Hhost anything_closed b e g1 Hs1 He Hle) as (b' & [Hs2 _ _ _] & Hans); [done|].
  fold g2 in Hs2, Hans.
  assert (exists rec, serving rec g2 /\ forall p, guardian g2 = Some p -> fenced p) as (rec & Hsv & Hf).
  { destruct Hfence as [(w & Hst & Hw & Hne)|(p & Hp & Hd)].
    - rewrite Hw in Hans. destruct Hans as (Hrep & _ & Hfen). destruct (Hfen Hst) as [|Hf]; [done|].
      destruct Hrep as [|(rec & _ & Hsv)]; [done|]. by exists rec.
    - destruct (settled_serving g2 p (sn_settled _ _ _ _ _ Hs2) Hp) as [rec Hsv]. exists rec. split; [done|].
      intros p' Hp'. left. congruence. }
  pose proof (sane_quelled _ _ _ (serving_sane _ _ _ _ _ _ Hs2 Hsv) Hsv Hf) as Hs2'.
  destruct (sealed_runs true None anything Hhost anything_closed es' g2 Hs2' Hok' Hlo) as (Hs3 & _).
  destruct (answered_event anything true None true e' g3 v anything_closed Hs3 He' (fun _ => eq_refl) Hv) as (b3 & _ & _ & Hrej & _).
  by apply Hrej.
Qed.


(** A guardian's lease and its connections are bounded: the deadline that its watchdog
    enforces lies at most 300 seconds after a reading of the clock that was made before, and at
    most eight connections are served at a time. *)
Theorem lease_and_connections_bounded g es p :
  pristine g -> Forall (event_ok h) es -> let g' := steps m es g in guardian g' = Some p ->
  (deadline p = 0 \/ exists l t, trace g' = l ++ ReadBoot :: t /\ 0 < deadline p <= boot_answer t + 300000) /\
  (length (threads p) <= 8)%nat.
Proof.
  intros Hg Hok g' Hp. destruct (tracked_pristine es g Hg Hok) as (b & [Hi _ _] & _). split.
  - exact (i_deadline _ _ _ _ _ _ _ Hi p Hp).
  - exact (i_threads _ _ _ _ _ _ _ Hi p Hp).
Qed.

(** C32. A process of the virtual machine is always owned: whatever directory a crash brings
    back, its receipt is of this manifest and names the control group of every process that may
    run now, and the boot it runs in. So cleanup never kills what it does not own. *)
Theorem vm_is_pinned g es x dir :
  pristine g -> Forall (event_ok h) es -> let g' := steps m es g in
  group g' = Some x -> populated x = true \/ jailing g' = true -> dir ∈ views g' ->
  exists r, receipt_in (ess dir) = Some r /\ validate_receipt m r = Ok tt /\
    r_cgroup_inode r = Some (g_inode x) /\ r_host_boot_id r = boot_id_of (boots g').
Proof.
  intros Hg Hok g' Hx Hin Hdir. destruct (tracked_pristine es g Hg Hok) as (b & [Hi _ _] & _).
  destruct (i_group _ _ _ _ _ _ _ Hi x Hx Hin) as [_ Hre]. destruct (Hre dir Hdir) as (r & Hr & Ho & Hb).
  exists r. split_and!; [done| |done..]. eapply receipt_in_ok; [|done]. by apply (i_ess _ _ _ _ _ _ _ Hi).
Qed.

(** Whatever the ledger may hold, it grants nothing: nothing is launched. *)
Lemma ungranted_runs P es b g :
  ledger_closed P -> ~ granted m P -> sane false None P b g -> Forall (event_ok h) es ->
  exists l, trace (steps m es g) = l ++ trace g /\ forall boot args, Launch boot args ∉ l.
Proof.
  intros Hcl Hno Hs Hok. revert b g Hs.
  induction Hok as [|ev es He _ IH]; intros b g2 Hs2; [exists []; split; [done|intros ??; apply not_elem_of_nil]|].
  assert (exists b' l, sane false None P b' (step m ev g2).1 /\ trace (step m ev g2).1 = l ++ trace g2 /\
            forall boot args, Launch boot args ∉ l) as (b' & l & Hs3 & Ht & Hl).
  { destruct (loses ev) eqn:Hlo.
    - destruct (lost_event P ev g2 b Hcl Hs2 Hlo) as [Hs' Ht]. exists false, [Lost]. split_and!; [done|done|].
      intros boot args Hin. by apply list_elem_of_singleton in Hin.
    - destruct (sane_event false None P Hhost Hcl b ev g2 Hs2 He Hlo) as (b' & [Hs' _ Ht _] & _); [done|].
      destruct Ht as [(l & Ht & Hl)|(_ & _ & Hgr & _)]; [|done]. exists b', l. split_and!; [done|done|].
      intros boot args Hin. unfold quiet in Hl. rewrite Forall_forall in Hl. by specialize (Hl _ Hin). }
  destruct (IH b' _ Hs3) as (l' & Ht' & Hl'). exists (l' ++ l). split; [by rewrite <- app_assoc, <- Ht|].
  intros boot args [Hin|Hin]%elem_of_app; [by eapply Hl'|by eapply Hl].
Qed.

(** C33. A fenced permit launches nothing. Once the launch authority acknowledged the fence of an
    allocation's permit, no process launches its virtual machine any more: whatever is prepared,
    launched or recovered, and whatever is lost in crashes. *)
Theorem fenced_permit_never_launches g es p store e r w es' :
  pristine g -> Forall (event_ok h) (es ++ es') ->
  launch_permit m = Some p -> file_host store = h -> id_typed r = true ->
  let g1 := steps m es g in
  LaunchAuthority.fence store e p r (ledger g1) = (w, Ok tt) ->
  exists l, trace (steps m es' (set_ledger g1 w)) = l ++ trace g1 /\ forall boot args, Launch boot args ∉ l.
Proof.
  intros Hg [Hok Hok']%Forall_app Hp Hh Hr g1 Hf.
  destruct (tracked_pristine es g Hg Hok) as (b & Hs1 & _). fold g1 in Hs1.
  set (P := fun v : Z * Authority => wf v.2 /\ denied (abs v.2 p) = true).
  assert (ledger_closed P) as Hcl by (intros v v'; apply lstep_denied).
  pose proof (Hhost p Hp) as Hph. destruct (i_ledger _ _ _ _ _ _ _ (sn_inv _ _ _ _ _ Hs1)) as [Hdir _].
  destruct (fence_commits store e p r (ledger g1) w Hdir) as [Hokw Hden]; [congruence|done|done|].
  assert (~ granted m P) as Hno.
  { unfold granted. rewrite Hp. intros (a & [Hwf Hd] & Hau). cbn in Hwf, Hd.
    apply authorize_ok in Hau as (_ & _ & Ho); [|done]. by rewrite Ho in Hd. }
  assert (sane false None P b (set_ledger g1 w)) as Hs2.
  { destruct Hs1 as [Hi Hs Hgd]. split; [|exact Hs|exact Hgd]. split; try apply Hi. split; [exact Hokw|].
    rewrite <- Hph. exact Hden. }
  exact (ungranted_runs P es' b _ Hcl Hno Hs2 Hok').
Qed.
End runs.
