(* ===== verification/GuardianLive.v ===== *)
(** * Cleanup completes

    Reconciling ends with a confirmed receipt when the kernel does what it is asked: no call
    fails, and what was killed ends within the five seconds that cleanup waits for it. *)

From S2P Require Import Prelude Ext Ids Guardian GuardianEnv GuardianOps GuardianLaws.
From S2P Require Authority LaunchAuthority Fs Bootstrap Identity.
Import Identity(Identity, TlsLib).
#[local] Existing Instances Guardian.State_eq_dec.

Section live.
Context `{GuardianEnv, UuidLib, Serde Manifest, Sha256, HexLib, Serde Authority.Retirement.Intent,
          Serde Authority.Saved, Serde LaunchAuthority.Required, Serde LaunchAuthority.Saved,
          Serde Receipt, Serde VmConfig, Serde Bootstrap.Bootstrap, Serde Identity, TlsLib}.
Hypothesis no_fault : forall t, fault t = None.

(** ** Calls that succeed *)

Definition does {A} (c : M A) (Q : A -> Machine -> Prop) (g : Machine) : Prop :=
  exists g' a, c g = (g', Ok a) /\ Q a g'.
Lemma does_ret {A} (a : A) (Q : A -> Machine -> Prop) g : Q a g -> does (mret a) Q g.
Proof. intros HQ. by exists g, a. Qed.
Lemma does_bind {A B} (c : M A) (k : A -> M B) Q g :
  does c (fun a => does (k a) Q) g -> does (c ≫= k) Q g.
Proof.
  intros (g1 & a & Hc & g2 & b & Hk & HQ). exists g2, b. split; [|done].
  unfold mbind, ST_bind in *. by rewrite Hc.
Qed.
Lemma does_checked {A} (r : result anyhow A) a (Q : A -> Machine -> Prop) g : r = Ok a -> Q a g -> does (checked r) Q g.
Proof. intros -> HQ. by exists g, a. Qed.
Lemma does_attempt {A} (c : M A) (Q : result CleanupError A -> Machine -> Prop) g :
  does c (fun a => Q (Ok a)) g -> does (attempt c) Q g.
Proof. intros (g1 & a & Hc & HQ). exists g1, (Ok a). unfold attempt. by rewrite Hc. Qed.
Lemma does_mono {A} (c : M A) (Q Q' : A -> Machine -> Prop) g :
  does c Q g -> (forall a g', Q a g' -> Q' a g') -> does c Q' g.
Proof. intros (g1 & a & Hc & HQ) HQ'. exists g1, a. auto. Qed.

(** ** What the other processes leave as it is *)

(** The directory is [v], no jailer is on its way, and the group is the one of inode [x.1],
    empty if [x.2] is [false]. *)
Record tidy (v : gmap string node) (x : option (Z * bool)) (b : nat) (g : Machine) : Prop := {
  ti_home : home g = Some v;
  ti_jailing : jailing g = false;
  ti_boots : boots g = b;
  ti_group : match x with
             | None => group g = None
             | Some (ino, full) => exists y, group g = Some y /\ g_inode y = ino /\ (full = false -> populated y = false)
             end;
}.
Lemma tidy_record v x b g a : tidy v x b g -> tidy v x b (record g a).
Proof. intros []. by split. Qed.
Lemma tidy_ends v x b g : tidy v x b g -> tidy v ((fun y => (y.1, false)) <$> x) b (move_of Ends g).
Proof.
  intros [Hh Hj Hb Hx]. split; try done. destruct x as [[ino full]|]; cbn in *; [|by rewrite Hx].
  destruct Hx as (y & -> & Hi & _). by eexists.
Qed.
Lemma tidy_emptied v x b g : tidy v ((fun y => (y.1, false)) <$> x) b g -> tidy v x b g.
Proof.
  intros [Hh Hj Hb Hx]. split; try done. destruct x as [[ino full]|]; cbn in *; [|done].
  destruct Hx as (y & -> & Hi & Hp). exists y. auto.
Qed.
Lemma tidy_stir v x b g : tidy v x b g -> tidy v x b (stir g).
Proof.
  intros Ht. unfold stir. destruct (stirs (trace g)) as [[| |]|]; [| | |done].
  - unfold move_of. by rewrite (ti_jailing _ _ _ _ Ht).
  - by apply tidy_emptied, tidy_ends.
  - destruct Ht. by split.
Qed.
Lemma stir_trace g : trace (stir g) = trace g.
Proof.
  unfold stir, move_of. destruct (stirs (trace g)) as [[| |]|]; try done. destruct (jailing g); [|done]. cbn.
  by destruct (group g).
Qed.
Lemma stir_locked g : locked (stir g) = locked g.
Proof.
  unfold stir, move_of. destruct (stirs (trace g)) as [[| |]|]; try done. destruct (jailing g); [|done]. cbn.
  by destruct (group g).
Qed.

Lemma does_syscall {A} v x b (f : Machine -> result anyhow (Machine * A)) Q g :
  tidy v x b g ->
  (forall g1, tidy v x b g1 -> trace g1 = Syscall :: trace g -> locked g1 = locked g ->
     exists g' a, f g1 = Ok (g', a) /\ Q a g') ->
  does (syscall f) Q g.
Proof.
  intros Ht Hf. destruct (Hf (record (stir g) Syscall)) as (g' & a & Hfa & HQ).
  - by apply tidy_record, tidy_stir.
  - cbn. by rewrite stir_trace.
  - exact (stir_locked g).
  - exists g', a. unfold syscall. by rewrite no_fault, Hfa.
Qed.
Lemma does_generate v x b (Q : OperationId -> Machine -> Prop) g :
  tidy v x b g -> (forall t g', tidy v x b g' -> Q (generated t) g') -> does generate Q g.
Proof. intros Ht HQ. eexists _, _. split; [reflexivity|]. by apply HQ, tidy_record, tidy_stir. Qed.

(** ** The control group *)

Lemma does_group_metadata v x b (Q : option Z -> Machine -> Prop) g :
  tidy v x b g -> (forall g', tidy v x b g' -> Q (fst <$> x) g') -> does group_metadata Q g.
Proof.
  intros Ht HQ. apply (does_syscall v x b); [done|]. intros g1 Ht1 _ _. eexists _, _. split; [reflexivity|].
  assert (g_inode <$> group g1 = fst <$> x) as ->; [|by apply HQ]. pose proof (ti_group _ _ _ _ Ht1) as Hx.
  destruct x as [[ino full]|]; [destruct Hx as (y & -> & <- & _); done|by rewrite Hx].
Qed.
Lemma does_populated v ino full b (Q : bool -> Machine -> Prop) g :
  tidy v (Some (ino, full)) b g ->
  (forall y g', tidy v (Some (ino, y)) b g' -> trace g' = Syscall :: trace g -> (full = false -> y = false) ->
     (stirs (trace g) = Some Ends -> y = false) -> Q y g') ->
  does is_populated Q g.
Proof.
  intros Ht HQ. assert (exists y, tidy v (Some (ino, y)) b (stir g) /\ (populated <$> group (stir g)) = Some y /\
    (full = false -> y = false) /\ (stirs (trace g) = Some Ends -> y = false)) as (y & Hy & Hp & Hf & He).
  { pose proof (tidy_stir _ _ _ _ Ht) as Hs. destruct (ti_group _ _ _ _ Hs) as (z & Hz & Hi & Hp).
    exists (populated z). rewrite Hz. split_and!; [|done|done|].
    - destruct Hs. split; [done..|]. exists z. by split_and!.
    - intros He. unfold stir in Hz. rewrite He in Hz. cbn in Hz. destruct (group g); [|done]. by injection Hz as <-. }
  destruct (group (stir g)) as [z|] eqn:Hz; [|done]. injection Hp as Hp.
  exists (record (stir g) Syscall), y. split.
  - unfold is_populated, syscall. rewrite no_fault. cbn. rewrite Hz. cbn. by rewrite Hp.
  - apply HQ; [by apply tidy_record| |done..]. cbn. by rewrite stir_trace.
Qed.
(** Killed processes have ended after [k] more calls, within the rounds that are waited. *)
Lemma does_await_empty k : forall n v ino full b (Q : unit -> Machine -> Prop) g,
  tidy v (Some (ino, full)) b g -> (k < n)%nat ->
  full = false \/ stirs (replicate k Syscall ++ trace g) = Some Ends ->
  (forall g', tidy v (Some (ino, false)) b g' -> Q tt g') -> does (await_empty n) Q g.
Proof.
  induction k as [|k IH]; intros n v ino full b Q g Ht Hk He HQ; (destruct n as [|n]; [lia|]); cbn [await_empty].
  - apply does_bind. eapply does_populated; [exact Ht|]. intros y g' Hy _ Hf Hs.
    assert (y = false) as -> by (destruct He; auto). apply does_ret. auto.
  - apply does_bind. eapply does_populated; [exact Ht|]. intros y g' Hy Htr Hf _. destruct y; [|apply does_ret; auto].
    eapply IH; [exact Hy|lia| |exact HQ]. right. destruct He as [->|He]; [by specialize (Hf eq_refl)|].
    rewrite Htr. rewrite <- He. f_equal. by rewrite replicate_S_end, <- app_assoc.
Qed.
Lemma does_remove_group v ino b (Q : unit -> Machine -> Prop) g :
  tidy v (Some (ino, false)) b g -> (forall g', tidy v None b g' -> Q tt g') -> does remove_group Q g.
Proof.
  intros Ht HQ. eapply does_syscall; [exact Ht|]. intros g1 [Hh Hj Hb (y & Hy & _ & Hp)] _ _.
  rewrite Hy. cbn. rewrite (Hp eq_refl). eexists _, tt. split; [reflexivity|]. by apply HQ.
Qed.

(** ** The directory *)

Lemma tidy_rename v v' x b g : tidy v x b g -> tidy v' x b (rename_to g v').
Proof. intros [Hh Hj Hb Hx]. unfold rename_to. rewrite Hh. by split. Qed.
Lemma tidy_earlier v x b g l : tidy v x b g -> tidy v x b (set_earlier g l).
Proof. intros []. by split. Qed.
Definition alter_file (f : FileNode -> FileNode) : string -> gmap string node -> gmap string node :=
  alter (fun n => match n with File x => File (f x) | _ => n end).
Lemma tidy_update v x b g n f : tidy v x b g -> tidy (alter_file f n v) x b (update n f g).
Proof. intros [Hh Hj Hb Hx]. unfold update. rewrite Hh. by split. Qed.
Lemma tidy_names v x b g : tidy v x b g -> names g = Ok v.
Proof. intros Ht. unfold names. by rewrite (ti_home _ _ _ _ Ht). Qed.

Section calls.
Context (v : gmap string node) (x : option (Z * bool)) (b : nat).
Abbreviation after v' Q := (forall g', tidy v' x b g' -> Q tt g') (only parsing).

Ltac call Ht := eapply (does_syscall v x b); [exact Ht|]; let g1 := fresh "g" in let Hg := fresh "Hg" in
  intros g1 Hg _ _; try (rewrite (tidy_names _ _ _ _ Hg); cbn).

Lemma does_create_new n (Q : unit -> Machine -> Prop) g :
  tidy v x b g -> v !! n = None -> after (<[n := File empty_file]> v) Q -> does (create_new n) Q g.
Proof. intros Ht Hn HQ. call Ht. rewrite Hn. eexists _, tt. split; [reflexivity|]. by eapply HQ, tidy_rename. Qed.
Lemma does_write_all n data (Q : unit -> Machine -> Prop) g :
  tidy v x b g -> after (alter_file (append data) n v) Q -> does (write_all n data) Q g.
Proof.
  intros Ht HQ. exists (update n (append data) (record (stir g) Syscall)), tt.
  split; [unfold write_all; cbv zeta; by rewrite no_fault|].
  by apply HQ, tidy_update, tidy_record, tidy_stir.
Qed.
Lemma does_adjust n f (Q : unit -> Machine -> Prop) g :
  tidy v x b g -> after (alter_file f n v) Q -> does (adjust n f) Q g.
Proof. intros Ht HQ. call Ht. eexists _, tt. split; [reflexivity|]. by apply HQ, tidy_update. Qed.
Lemma does_rename old new n (Q : unit -> Machine -> Prop) g :
  tidy v x b g -> v !! old = Some n -> v !! new <> Some Folder ->
  after (<[new := n]> (delete old v)) Q -> does (rename old new) Q g.
Proof.
  intros Ht Ho Hn HQ. call Ht. rewrite Ho. destruct (v !! new) as [[]|]; [|done|..];
    (eexists _, tt; split; [reflexivity|by eapply HQ, tidy_rename]).
Qed.
Lemma does_sync_directory (Q : unit -> Machine -> Prop) g :
  tidy v x b g -> after v Q -> does sync_directory Q g.
Proof. intros Ht HQ. call Ht. eexists _, tt. split; [reflexivity|]. by apply HQ, tidy_earlier. Qed.
Lemma does_exists n (Q : bool -> Machine -> Prop) g :
  tidy v x b g -> (forall g', tidy v x b g' -> Q (is_some (v !! n)) g') -> does (exists_ n) Q g.
Proof.
  intros Ht HQ. unfold exists_. apply does_bind, does_attempt. call Ht. eexists _, _. split; [reflexivity|].
  apply does_ret. by apply HQ.
Qed.
Lemma does_remove_if_there n (Q : unit -> Machine -> Prop) g :
  tidy v x b g -> v !! n <> Some Folder -> after (delete n v) Q -> does (remove_if_there n) Q g.
Proof.
  intros Ht Hn HQ. call Ht. destruct (v !! n) as [[]|] eqn:Hv; [|done|..].
  1-2: eexists _, tt; split; [reflexivity|by eapply HQ, tidy_rename].
  eexists _, tt. split; [reflexivity|]. apply HQ. by rewrite delete_id.
Qed.
Lemma does_remove_run (Q : unit -> Machine -> Prop) g :
  tidy v x b g -> after (filter (fun kv : string * node => below_run kv.1 = false \/ false = true) v) Q ->
  does remove_run Q g.
Proof.
  intros Ht HQ. pose proof (tidy_stir _ _ _ _ Ht) as Hs. eexists _, tt. split.
  { unfold remove_run. cbv zeta. rewrite no_fault, (ti_home _ _ _ _ Hs). reflexivity. } by eapply HQ, tidy_rename, tidy_record.
Qed.
Lemma does_boot_id (Q : string -> Machine -> Prop) g :
  tidy v x b g -> (forall g', tidy v x b g' -> Q (boot_id_of b) g') -> does boot_id Q g.
Proof.
  intros Ht HQ. call Ht. rewrite (ti_boots _ _ _ _ Hg). eexists _, _. split; [reflexivity|]. by apply HQ.
Qed.
Lemma does_read_json {A} `{Serde A} n data (a : A) (Q : A -> Machine -> Prop) g :
  tidy v x b g -> v !! n = Some (plain data) -> strlen data <= MAX_JSON -> from_slice data = Some a ->
  (forall g', tidy v x b g' -> Q a g') -> does (read_json n) Q g.
Proof.
  intros Ht Hn Hl Ha HQ. unfold read_json. apply does_bind. call Ht. rewrite Hn. cbn. eexists _, _. split; [reflexivity|].
  cbn. apply does_bind. eapply does_checked.
  { apply (ensure_ok _ _ tt). apply Z.leb_le. cbn. lia. }
  eapply does_checked; [by rewrite Ha|]. by apply HQ.
Qed.
End calls.

(** A staging name is free, whatever is generated. *)
Definition fresh (v : gmap string node) : Prop := forall t, v !! (to_string (generated t) +:+ ".tmp") = None.
Lemma fresh_insert v n : fresh v -> fresh (<[RECEIPT := n]> v).
Proof.
  intros Hf t. rewrite lookup_insert_ne; [apply Hf|]. intros Hn. pose proof (tmp_not_essential (generated t)) as Ht.
  rewrite <- Hn in Ht. apply Ht. by left.
Qed.
Lemma fresh_shrunk v v' : (forall n, v !! n = None -> v' !! n = None) -> fresh v -> fresh v'.
Proof. intros Hv Hf t. by apply Hv. Qed.

Lemma does_write_receipt v x b r data (Q : unit -> Machine -> Prop) g :
  tidy v x b g -> fresh v -> v !! RECEIPT <> Some Folder -> to_vec r = Some data -> strlen data <= MAX_JSON ->
  (forall g', tidy (<[RECEIPT := plain data]> v) x b g' -> Q tt g') -> does (write_receipt r) Q g.
Proof.
  intros Ht Hf Hr Hd Hl HQ. unfold write_receipt, write_json, write_json_in. apply does_bind.
  eapply does_generate; [exact Ht|]. intros t g1 Hg1.
  change ("" +:+ to_string (generated t) +:+ ".tmp") with (to_string (generated t) +:+ ".tmp").
  change ("" +:+ RECEIPT) with RECEIPT.
  pose proof (Hf t) as Hfree. pose proof (tmp_not_essential (generated t)) as Hne.
  set (temp := to_string (generated t) +:+ ".tmp") in *.
  assert (temp <> RECEIPT) as Htr by (intros Htr; apply Hne; by left).
  apply does_bind. eapply does_create_new; [exact Hg1|done|]. intros g2 Hg2.
  apply does_bind. eapply does_checked; [by rewrite Hd|]. apply does_bind. eapply does_checked.
  { apply (ensure_ok _ _ tt). by apply Z.leb_le. }
  apply does_bind. eapply does_write_all; [exact Hg2|]. intros g3 Hg3.
  apply does_bind. eapply does_adjust; [exact Hg3|]. intros g4 Hg4.
  unfold alter_file in Hg4. rewrite !alter_insert_eq in Hg4.
  apply does_bind. eapply does_rename; [exact Hg4|apply lookup_insert_eq|by rewrite lookup_insert_ne|]. intros g5 Hg5.
  rewrite delete_insert_id in Hg5 by done.
  eapply does_sync_directory; [exact Hg5|done].
Qed.

(** ** Scopes *)

Lemma does_lifecycle_lock create v x b f (Q : unit -> Machine -> Prop) g :
  tidy v x b g -> locked g = false -> v !! LOCK = Some (File f) -> (forall g', tidy v x b g' -> Q tt g') ->
  does (lifecycle_lock create) Q g.
Proof.
  intros Ht Hl Hf HQ. unfold lifecycle_lock. apply does_bind. eapply does_syscall; [exact Ht|]. intros g1 Hg1 _ Hl1.
  rewrite (tidy_names _ _ _ _ Hg1). cbn. rewrite Hf. eexists _, tt. split; [reflexivity|].
  apply does_bind. eapply does_syscall; [exact Hg1|]. intros g2 Hg2 _ Hl2. rewrite Hl2, Hl1, Hl. eexists _, true.
  split; [reflexivity|]. apply does_ret, HQ. by destruct Hg2.
Qed.
Lemma does_owning {A} (c : M A) (Q : A -> Machine -> Prop) g :
  does c (fun a g' => Q a (set_locked g' false)) g -> does (owning c) Q g.
Proof. intros (g1 & a & Hc & HQ). eexists _, a. unfold owning. by rewrite Hc. Qed.
Lemma does_held {A} l (c : M A) (Q : A -> Machine -> Prop) g :
  does c (fun a g' => Q a (drop_guard l g')) g -> does (held l c) Q g.
Proof. intros (g1 & a & Hc & HQ). eexists _, a. unfold held. by rewrite Hc. Qed.

(** ** Cleanup *)

Hypothesis killed_end : forall t, exists k,
  (k < CLEANUP_ROUNDS)%nat /\ stirs (replicate k Syscall ++ Kill :: t) = Some Ends.

Lemma does_clean_group v x b r (Q : unit -> Machine -> Prop) g :
  tidy v x b g ->
  (forall ino, x = Some (ino, true) -> r_host_boot_id r = boot_id_of b /\ r_cgroup_inode r = Some ino) ->
  (forall g', tidy v None b g' -> Q tt g') -> does (clean_group r) Q g.
Proof.
  intros Ht Ho HQ. unfold clean_group. apply does_bind. eapply does_group_metadata; [exact Ht|]. intros g1 Hg1.
  destruct x as [[ino full]|]; cbn [fst fmap option_fmap option_map]; [|apply does_ret; auto].
  apply does_bind. eapply does_populated; [exact Hg1|]. intros y g2 Hg2 _ Hf _. apply does_bind.
  assert (forall k g3, tidy v (Some (ino, y)) b g3 -> (k < CLEANUP_ROUNDS)%nat ->
            y = false \/ stirs (replicate k Syscall ++ trace g3) = Some Ends ->
            does (_ ← await_empty CLEANUP_ROUNDS; remove_group) Q g3) as Hrest.
  { intros k g3 Hg3 Hk He. apply does_bind. eapply does_await_empty; [exact Hg3|exact Hk|exact He|].
    intros g4 Hg4. eapply does_remove_group; [exact Hg4|exact HQ]. }
  destruct y; [|apply does_ret, (Hrest 0%nat); [done|unfold CLEANUP_ROUNDS; lia|by left]].
  assert (full = true) as -> by (destruct full; [done|by specialize (Hf eq_refl)]).
  destruct (Ho ino eq_refl) as [Hb Hi].
  apply does_bind. eapply does_boot_id; [exact Hg2|]. intros g3 Hg3.
  apply does_bind. eapply does_checked; [apply (ensure_ok _ _ tt); by rewrite Hb, Hi, !bool_decide_eq_true_2|].
  eapply does_syscall; [exact Hg3|]. intros g4 Hg4 _ _. eexists _, tt. split; [reflexivity|].
  destruct (killed_end (trace g4)) as (k & Hk & He). eapply (Hrest k); [by apply tidy_record|exact Hk|by right].
Qed.

Definition shrunk (v : gmap string node) : gmap string node :=
  match v !! RUN with
  | Some _ => filter (fun kv : string * node => below_run kv.1 = false \/ false = true) v
  | None => v
  end.
Lemma shrunk_none v n : v !! n = None -> shrunk v !! n = None.
Proof.
  intros Hn. unfold shrunk. destruct (v !! RUN); [|done]. apply map_lookup_filter_None. by left.
Qed.
Lemma shrunk_other v n : below_run n = false -> shrunk v !! n = v !! n.
Proof.
  intros Hn. unfold shrunk. destruct (v !! RUN); [|done]. destruct (v !! n) as [x|] eqn:Hv.
  - apply map_lookup_filter_Some. split; [done|by left].
  - apply map_lookup_filter_None. by left.
Qed.

(** What is left of the directory [v]. *)
Definition cleaned (v : gmap string node) (data : bytes) : gmap string node :=
  <[RECEIPT := plain data]> (delete SOCKET (shrunk v)).
Lemma does_finish_cleanup v x b r data (Q : Receipt -> Machine -> Prop) g :
  let done_ := with_state r Stopped true (r_reason r) in
  tidy v x b g -> fresh v -> v !! RECEIPT <> Some Folder -> v !! SOCKET <> Some Folder ->
  (forall ino, x = Some (ino, true) -> r_host_boot_id r = boot_id_of b /\ r_cgroup_inode r = Some ino) ->
  to_vec done_ = Some data -> strlen data <= MAX_JSON ->
  (forall g', tidy (cleaned v data) None b g' -> Q done_ g') ->
  does (finish_cleanup r) Q g.
Proof.
  intros done_ Ht Hf Hr Hs Ho Hd Hl HQ. unfold finish_cleanup. apply does_bind. eapply does_clean_group; [exact Ht|done|].
  intros g1 Hg1. apply does_bind. eapply does_exists; [exact Hg1|]. intros g2 Hg2. apply does_bind.
  assert (forall g3, tidy (shrunk v) None b g3 -> does (
            _ ← remove_if_there SOCKET; let r := with_state r Stopped true (r_reason r) in
            _ ← write_receipt r; mret r) Q g3) as Hrest.
  { intros g3 Hg3. apply does_bind. eapply does_remove_if_there; [exact Hg3|by rewrite shrunk_other|]. intros g4 Hg4.
    apply does_bind. eapply does_write_receipt; [exact Hg4| | |exact Hd|exact Hl|].
    - eapply fresh_shrunk; [|exact Hf]. intros n Hn. apply lookup_delete_None. right. by apply shrunk_none.
    - rewrite lookup_delete_ne by done. by rewrite shrunk_other.
    - intros g5 Hg5. apply does_ret. by apply HQ. }
  unfold shrunk in Hrest. destruct (v !! RUN); cbn [is_some].
  - eapply does_remove_run; [exact Hg2|]. exact Hrest.
  - apply does_ret. by apply Hrest.
Qed.

(** An allocation whose guardian is gone, with the receipt [r] in its directory [v]. *)
Record recoverable (m : Manifest) (reason : string) (r : Receipt) (v : gmap string node) (g : Machine) : Prop := {
  rc_home : home g = Some v;
  rc_free : locked g = false;
  rc_jailing : jailing g = false;
  rc_receipt : exists data, v !! RECEIPT = Some (plain data) /\ strlen data <= MAX_JSON /\ from_slice data = Some r;
  rc_valid : validate_receipt m r = Ok tt;
  rc_lock : exists f, v !! LOCK = Some (File f);
  rc_socket : v !! SOCKET <> Some Folder;
  rc_run : v !! RUN = None -> forall n, below_run n = true -> v !! n = None;
  rc_fresh : fresh v;
  rc_owned : forall y, group g = Some y -> populated y = true ->
    r_host_boot_id r = boot_id_of (boots g) /\ r_cgroup_inode r = Some (g_inode y);
  rc_encodes : forall s c, s = Fenced /\ c = false \/ s = Stopped /\ c = true ->
    exists data, to_vec (with_state r s c (Some reason)) = Some data /\ strlen data <= MAX_JSON;
}.
Lemma tidy_start m reason r v g : recoverable m reason r v g ->
  tidy v ((fun y => (g_inode y, populated y)) <$> group g) (boots g) g.
Proof.
  intros Hr. split; [apply Hr|apply Hr|done|]. destruct (group g) as [y|]; cbn; [|done]. by exists y.
Qed.
Lemma cleaned_run v data n : (v !! RUN = None -> v !! n = None) -> below_run n = true -> cleaned v data !! n = None.
Proof.
  intros Hv Hn. unfold cleaned. rewrite lookup_insert_ne by (intros <-; by vm_compute in Hn).
  apply lookup_delete_None. right. unfold shrunk. destruct (v !! RUN) as [x|] eqn:Hr; [|by apply Hv].
  apply map_lookup_filter_None. right. intros y _. cbn. rewrite Hn. by intros [|].
Qed.

(** C34. Cleanup completes. When no call fails and what is killed ends within the five seconds
    that are waited for it, reconciling an allocation whose guardian is gone returns: it answers
    with a confirmed stopped receipt, which is then on disk; the control group, the run
    directory and the socket are gone, and the lock is free. *)
Theorem reconcile_completes m reason r v g l c :
  validate is_root m = Ok tt -> (authorize_cleanup m g).2 = Ok (l, c) ->
  recoverable m reason r v g -> r_state r <> Stopped ->
  exists g' dir data, reconcile m reason g = (g', Ok (with_state r Stopped true (Some reason))) /\
    group g' = None /\ locked g' = false /\ home g' = Some dir /\
    dir !! RECEIPT = Some (plain data) /\ to_vec (with_state r Stopped true (Some reason)) = Some data /\
    dir !! SOCKET = None /\ forall n, below_run n = true -> dir !! n = None.
Proof.
  intros Hval Hau Hrc Hns.
  destruct (rc_receipt _ _ _ _ _ Hrc) as (data0 & Hr0 & Hl0 & Hd0), (rc_lock _ _ _ _ _ Hrc) as [f Hf].
  destruct (rc_encodes _ _ _ _ _ Hrc Fenced false) as (data1 & Hd1 & Hl1); [by left|].
  destruct (rc_encodes _ _ _ _ _ Hrc Stopped true) as (data2 & Hd2 & Hl2); [by right|].
  set (final := cleaned (<[RECEIPT := plain data1]> v) data2).
  assert (does (reconcile m reason) (fun r' g' => r' = with_state r Stopped true (Some reason) /\
            group g' = None /\ locked g' = false /\ home g' = Some final) g) as (g' & r' & Hrun & -> & Hx & Hk & Hh).
  - unfold reconcile. apply does_bind. eapply does_checked; [done|]. apply does_bind.
    assert (exists w, authorize_cleanup m g = (set_ledger g w, Ok (l, c))) as [w Hw].
    { unfold authorize_cleanup, on_ledger in *. destruct (LaunchAuthority.authorize_cleanup _ _ _) as [w [a|e]]; [|done].
      exists w. cbn in *. by injection Hau as ->. }
    eexists _, _. split; [exact Hw|]. apply does_held. apply does_bind.
    assert (tidy v ((fun y => (g_inode y, populated y)) <$> group g) (boots g) (set_ledger g w)) as Ht
      by (destruct (tidy_start _ _ _ _ _ Hrc); by split).
    eapply does_lifecycle_lock; [exact Ht|apply Hrc|exact Hf|]. intros g1 Hg1. apply does_owning.
    apply does_bind. unfold manifest_receipt. apply does_bind. eapply does_read_json; [exact Hg1|done..|]. intros g2 Hg2.
    apply does_bind. eapply does_checked; [apply Hrc|]. apply does_ret.
    rewrite bool_decide_eq_false_2 by done. apply does_bind.
    eapply does_write_receipt; [exact Hg2|apply Hrc|by rewrite Hr0|exact Hd1|exact Hl1|]. intros g3 Hg3.
    eapply does_finish_cleanup; [exact Hg3|by apply fresh_insert, Hrc|by rewrite lookup_insert_eq| | |exact Hd2|exact Hl2|].
    + rewrite lookup_insert_ne by done. apply Hrc.
    + intros ino Hino. destruct (group g) as [y|] eqn:Hy; [|done]. injection Hino as <- Hp. by apply Hrc.
    + intros g4 Hg4. split_and!; [done|apply Hg4|done|apply Hg4].
  - exists g', final, data2. split_and!; [done..| | | |].
    + apply lookup_insert_eq.
    + exact Hd2.
    + unfold final, cleaned. rewrite lookup_insert_ne by done. by apply lookup_delete_eq.
    + intros n Hn. apply cleaned_run; [|done].
      assert (RECEIPT <> RUN /\ RECEIPT <> n) as [Hne Hne'] by (split; [done|intros <-; by vm_compute in Hn]).
      rewrite !lookup_insert_ne by done. intros Hnone. by apply (rc_run _ _ _ _ _ Hrc).
Qed.
End live.
