(* ===== verification/GuardianSample.v ===== *)
(** * The guardian's theorems at a concrete allocation

    An allocation is prepared and launched under a registered permit, its guest is bound, its
    lease renewed, and it is stopped and cleaned up; the machine crashes in between. *)

From S2P Require Import Prelude Ext Ids Guardian GuardianEnv GuardianOps GuardianProcess GuardianInv GuardianTheorems GuardianLive.
From S2P Require Runner RunnerLaws GuardianLaws Reference Bootstrap Identity Authority LaunchAuthority LaunchTheorems GuestModel.
Import Ref.
Import Reference(sample_permit, sample_intent).
#[local] Existing Instances Reference.Id_codec Reference.Permit_codec Reference.Intent_serde.
#[local] Existing Instances LaunchTheorems.Sample.State_file_serde LaunchTheorems.Sample.Required_serde
  LaunchTheorems.Sample.Ledger_serde LaunchTheorems.Sample.Ledger_serde_laws LaunchTheorems.Sample.State_file_laws.

(** ** Serialization *)

#[export] Program Instance artifact_codec : Codec Artifact := codec_inj
  (fun a => (path a, artifact_sha256 a)) (fun t => Some {| path := t.1; artifact_sha256 := t.2 |}) _.
Next Obligation. by intros []. Qed.
#[export] Program Instance config_codec : Codec Config := codec_inj
  (fun c => (state_root c, cgroup_parent c, firecracker c, jailer c, kernel c, rootfs c, jail_uid c, jail_gid c))
  (fun t => let '(s, g, f, j, k, r, u, i) := t in
    Some {| state_root := s; cgroup_parent := g; firecracker := f; jailer := j; kernel := k; rootfs := r;
            jail_uid := u; jail_gid := i |}) _.
Next Obligation. by intros []. Qed.
#[export] Program Instance owner_codec : Codec Owner := codec_inj
  (fun o => (host o, project o, sandbox o, allocation o, create_operation o, generation o, epoch o))
  (fun t => let '(h, p, s, a, op, g, e) := t in
    Some {| host := h; project := p; sandbox := s; allocation := a; create_operation := op;
            generation := g; epoch := e |}) _.
Next Obligation. by intros []. Qed.
#[export] Program Instance start_codec : Codec Start := codec_inj
  (fun s => (owner s, vcpu s, memory_mib s, disk_mib s, expires_unix_ms s))
  (fun t => let '(o, v, m, d, x) := t in
    Some {| owner := o; vcpu := v; memory_mib := m; disk_mib := d; expires_unix_ms := x |}) _.
Next Obligation. by intros []. Qed.
#[export] Program Instance manifest_codec : Codec Manifest := codec_inj
  (fun m => (launch_permit m, config m, start m))
  (fun t => Some {| launch_permit := t.1.1; config := t.1.2; start := t.2 |}) _.
Next Obligation. by intros []. Qed.
Definition state_number (s : State) : N :=
  match s with Staging => 0 | Prepared => 1 | LaunchIntent => 2 | Running => 3 | Stopping => 4 | Fenced => 5 | Stopped => 6 end.
Definition numbered_state (n : N) : option State :=
  match n with
  | 0%N => Some Staging | 1%N => Some Prepared | 2%N => Some LaunchIntent | 3%N => Some Running
  | 4%N => Some Stopping | 5%N => Some Fenced | 6%N => Some Stopped | _ => None
  end.
#[export] Program Instance guardian_state_codec : Codec State := codec_inj state_number numbered_state _.
Next Obligation. by intros []. Qed.
#[export] Program Instance receipt_codec : Codec Receipt := codec_inj
  (fun r => (r_version r, r_owner r, r_digest r, r_host_boot_id r, r_state r, r_cleanup_confirmed r,
             r_renewal_revision r, r_expires_unix_ms r, r_guardian_host_pid r, r_guardian_start_ticks r,
             r_firecracker_namespace_pid r, r_cgroup_inode r, r_reason r, r_identity_digest r,
             r_identity_expires_unix_ms r, r_guest_boot_id r))
  (fun t => let '(v, o, d, b, s, c, n, x, p, k, f, i, w, e, u, g) := t in
    Some {| r_version := v; r_owner := o; r_digest := d; r_host_boot_id := b; r_state := s;
            r_cleanup_confirmed := c; r_renewal_revision := n; r_expires_unix_ms := x;
            r_guardian_host_pid := p; r_guardian_start_ticks := k; r_firecracker_namespace_pid := f;
            r_cgroup_inode := i; r_reason := w; r_identity_digest := e;
            r_identity_expires_unix_ms := u; r_guest_boot_id := g |}) _.
Next Obligation. by intros []. Qed.
Definition action_number (a : Action) : N + Z * Z :=
  match a with Inspect => inl 0%N | BindGuest => inl 1%N | Stop => inl 2%N | Renew r x => inr (r, x) end.
Definition numbered_action (t : N + Z * Z) : option Action :=
  match t with
  | inl 0%N => Some Inspect | inl 1%N => Some BindGuest | inl 2%N => Some Stop | inl _ => None
  | inr (r, x) => Some (Renew r x)
  end.
#[export] Program Instance guardian_action_codec : Codec Action := codec_inj action_number numbered_action _.
Next Obligation. by intros []. Qed.
#[export] Program Instance request_codec : Codec Request := codec_inj
  (fun q => (q_owner q, q_action q)) (fun t => Some {| q_owner := t.1; q_action := t.2 |}) _.
Next Obligation. by intros []. Qed.
#[export] Program Instance response_codec : Codec Response := codec_inj
  (fun v => (receipt v, error v)) (fun t => Some {| receipt := t.1; error := t.2 |}) _.
Next Obligation. by intros []. Qed.
#[export] Program Instance bootstrap_codec : Codec Bootstrap.Bootstrap := codec_inj
  (fun b => (Bootstrap.version b, Bootstrap.allocation b, Bootstrap.generation b,
             Bootstrap.valid_until_unix_ms b, Bootstrap.ca_pem b, Bootstrap.guest_cert_pem b,
             Bootstrap.guest_key_pem b, Bootstrap.host_pin b))
  (fun t => let '(v, a, g, u, c, p, k, h) := t in
    Some {| Bootstrap.version := v; Bootstrap.allocation := a; Bootstrap.generation := g;
            Bootstrap.valid_until_unix_ms := u; Bootstrap.ca_pem := c; Bootstrap.guest_cert_pem := p;
            Bootstrap.guest_key_pem := k; Bootstrap.host_pin := h |}) _.
Next Obligation. by intros []. Qed.
#[export] Program Instance identity_codec : Codec Identity.Identity := codec_inj
  (fun i => (Identity.guest i, Identity.host_cert_pem i, Identity.host_key_pem i, Identity.guest_pin i))
  (fun t => let '(g, c, k, p) := t in
    Some {| Identity.guest := g; Identity.host_cert_pem := c; Identity.host_key_pem := k;
            Identity.guest_pin := p |}) _.
Next Obligation. by intros []. Qed.

#[export] Instance manifest_serde : Serde Manifest := serde (fun _ => true).
#[export] Instance receipt_serde : Serde Receipt := serde (fun _ => true).
#[export] Instance request_serde : Serde Request := serde (fun _ => true).
#[export] Instance response_serde : Serde Response := serde (fun _ => true).
#[export] Instance bootstrap_serde : Serde Bootstrap.Bootstrap := serde (fun _ => true).
#[export] Instance identity_serde : Serde Identity.Identity := serde (fun _ => true).
#[export] Instance vm_config_serde : Serde VmConfig :=
  {| to_vec c := Some (enc (vcpu_count c, mem_size_mib c)); from_slice _ := None |}.
#[export] Instance tls_lib : Identity.TlsLib :=
  {| Identity.client_config _ _ _ _ _ := Ok tt; Identity.server_config _ _ _ _ := Ok tt |}.

(** ** The outside *)

Definition NOW : Z := 1000000.
Definition vm_files : Source := {| is_file := true; file_len := 9; chunks := ["firec"; "rack"] |}.
Definition boot_name (n : nat) : string := enc (N.of_nat n).
Lemma boot_name_inj a b : boot_name a = boot_name b -> a = b.
Proof.
  unfold boot_name. intros Hn. pose proof (dec_enc (N.of_nat a) "") as Ha. pose proof (dec_enc (N.of_nat b) "") as Hb.
  rewrite Hn, Hb in Ha. injection Ha. lia.
Qed.
(** The jailer joins its group soon after it was spawned, and what is killed has ended. *)
Definition sample_stirs (t : list action) : option move :=
  match t with Query :: Launch _ _ :: _ => Some Joins | Kill :: _ => Some Ends | _ => None end.
Definition sample_boot (t : list action) : Z := Z.min 100000 (500 + Z.of_nat (length t)).
Definition sample_pid_file (t : list action) : option string := match t with Query :: _ => Some "3" | _ => None end.
Lemma sample_wall_i64 (t : list action) : 0 <= NOW <= I64_MAX.
Proof. unfold NOW, I64_MAX. lia. Qed.
Lemma sample_boot_u64 t : 0 <= sample_boot t <= U64_MAX.
Proof. unfold sample_boot, U64_MAX. lia. Qed.
#[export] Instance calm_env : GuardianEnv := {|
  is_root := true; is_init _ := true; fault _ := None; stirs := sample_stirs;
  wall_answer _ := NOW; boot_answer := sample_boot;
  wall_answer_i64 := sample_wall_i64; boot_answer_u64 := sample_boot_u64;
  generated t := sample_id (900 + N.of_nat (length t));
  boot_id_of := boot_name; boot_id_of_inj := boot_name_inj;
  private _ := true; artifact _ _ := Ok vm_files;
  issued _ := Ok {| Identity.ca := "ca"; Identity.host_leaf := "hc"; Identity.host_der := "hd";
                    Identity.host_leaf_key := "hk"; Identity.guest_leaf := "gc"; Identity.guest_der := "gd";
                    Identity.guest_leaf_key := "gk" |};
  stat _ := "17 (guardian) S 1 2 3 4 5 6 7 8 9 10 11 12 13 14 15 16 17 18 4242 1";
  parent_idle _ := true; pid_file := sample_pid_file;
  jailer_status _ := Ok None; process_exists _ _ := true;
  wait_answer _ := NothingYet; peer _ := Ok 0;
  hello_reply _ c := Ok {| GuestModel.allocation_id := GuestModel.allocation_id c;
                           GuestModel.generation := GuestModel.generation c;
                           GuestModel.boot_id := "guest" |};
  spared _ _ := false
|}.

(** ** The allocation *)

Definition sample_artifact (p : string) : Artifact := {| path := p; artifact_sha256 := hex_encode (sha256 "firecrack") |}.
Definition sample_manifest : Manifest := {|
  launch_permit := Some (sample_permit 1);
  config := {|
    state_root := "/run/launch"; cgroup_parent := "/sys/fs/cgroup/hudson";
    firecracker := sample_artifact "/opt/firecracker"; jailer := sample_artifact "/opt/jailer";
    kernel := sample_artifact "/opt/vmlinux"; rootfs := sample_artifact "/opt/rootfs";
    jail_uid := 65534; jail_gid := 65534 |};
  start := {|
    owner := {| host := sample_id 1; project := sample_id 2; sandbox := sample_id 101;
                allocation := sample_id 201; create_operation := sample_id 301; generation := 1; epoch := 7 |};
    vcpu := 1; memory_mib := 512; disk_mib := 1024; expires_unix_ms := NOW + 60000 |}
|}.
Definition new_machine : Machine := {|
  home := None; earlier := []; group := None; next_inode := 10; jailing := false; locked := false;
  guardian := None; boots := 0; ledger := LaunchTheorems.Sample.registered; trace := []
|}.

(** ** The assumptions hold of them *)

Lemma serde_lossless {A} `{Codec A} (a : A) (b : bytes) :
  to_vec (Serde := serde (fun _ => true)) a = Some b -> from_slice (Serde := serde (fun _ => true)) b = Some a.
Proof. intros Ha. by apply (from_to (SerdeLaws := serde_laws (fun _ : A => true)) a b). Qed.
#[export] Instance receipt_lossless : Lossless Receipt := {| reads_back := serde_lossless |}.
#[export] Instance manifest_lossless : Lossless Manifest := {| reads_back := serde_lossless |}.
#[export] Instance request_lossless : Lossless Request := {| reads_back := serde_lossless |}.

Lemma new_machine_pristine : pristine new_machine.
Proof. split; [done..|exact LaunchTheorems.Sample.registered_ok]. Qed.
Lemma sample_host p : launch_permit sample_manifest = Some p -> Authority.host p = LaunchTheorems.Sample.the_host.
Proof. by intros [= <-]. Qed.

(** A closed equation of evaluated runs, left to the kernel's virtual machine. *)
Local Ltac evaluated := lazymatch goal with |- _ = ?b => vm_cast_no_check (@eq_refl _ b) end.
Abbreviation after es := (runs sample_manifest es new_machine) (only parsing).
Definition crash (k : nat) (lost : bool) : event :=
  EReboot k (fun _ => "junk") (fun _ _ => None) lost 0 (fun _ => "") (fun _ => None).
Lemma crash_ok k lost : event_ok LaunchTheorems.Sample.the_host (crash k lost).
Proof. done. Qed.
Definition the_response (a : answer) : Response := match a with AResponse (Ok v) => v | _ => rejected end.
Definition the_receipt (a : answer) : option Receipt := match a with AReceipt (Ok r) => Some r | _ => None end.

(** A virtual machine is launched, the machine crashes and loses the directory, and the
    allocation is launched again. *)
Definition relaunched : list event := [ELaunch; EInit; crash 0 true; ELaunch; EInit].
Abbreviation launch_log := (trace (after relaunched)) (only parsing).
Definition launch_of (a : option action) : option (string * list string) :=
  match a with Some (Launch boot args) => Some (boot, args) | _ => None end.
Lemma split_launches t i j a b :
  launch_of (t !! i) = Some a -> launch_of (t !! (S i + j)%nat) = Some b ->
  t = take i t ++ Launch a.1 a.2 :: take j (drop (S i) t) ++ Launch b.1 b.2 :: drop (S j) (drop (S i) t).
Proof.
  intros Ha Hb. assert (t !! i = Some (Launch a.1 a.2)) as Hi.
  { destruct (t !! i) as [[]|]; try done. by injection Ha as <-. }
  assert (drop (S i) t !! j = Some (Launch b.1 b.2)) as Hj.
  { rewrite lookup_drop. destruct (t !! (S i + j)%nat) as [[]|]; try done. by injection Hb as <-. }
  rewrite (take_drop_middle _ _ _ Hj). symmetry. by apply take_drop_middle.
Qed.

Abbreviation host_ := LaunchTheorems.Sample.the_host (only parsing).
Lemma two_launches : is_some (launch_of (launch_log !! 10%nat)) && is_some (launch_of (launch_log !! 152%nat)) = true.
Proof. evaluated. Qed.
Lemma vm_launched_at_most_once_witness : Lost ∈ take 141 (drop 11 launch_log).
Proof.
  pose proof two_launches as [H1 H2]%andb_true_iff.
  destruct (launch_of (launch_log !! 10%nat)) as [a|] eqn:Ha; [|discriminate H1].
  destruct (launch_of (launch_log !! 152%nat)) as [b|] eqn:Hb; [|discriminate H2].
  assert (Forall (event_ok host_) relaunched) as Hok by by repeat constructor.
  exact (vm_launched_at_most_once sample_manifest host_ sample_host new_machine relaunched _ _ _ _ _ _ _
           new_machine_pristine Hok (split_launches launch_log 10 141 a b Ha Hb)).
Defined.

(** The guardian is stopped and its watchdog ends it; the wrapper reconciles, and whoever tries
    to launch again, or to start a guardian after a crash, gets nowhere. *)
Definition served_ : list event := [ELaunch; EInit; EControl BindGuest].
Definition stopped_ : list event := served_ ++ [EControl Stop; EWatch].
Definition retried : list event := [ELaunch; EInit; crash 1 false; EInit; ELaunch].
Abbreviation final_answer := (step sample_manifest (EChildEnded (Some 0)) (after stopped_)).2 (only parsing).
Lemma final_stopped :
  match final_answer with AReceipt (Ok r) => bool_decide (r_state r = Stopped) | _ => false end = true.
Proof. evaluated. Qed.
Lemma stopped_is_final_witness :
  guardian (step sample_manifest (EChildEnded (Some 0)) (after stopped_)).1 = None.
Proof.
  assert (exists r, final_answer = AReceipt (Ok r) /\ r_state r = Stopped) as (r & Ha & Hr).
  { pose proof final_stopped as Hf. destruct final_answer as [|[r|]|]; try done. exists r.
    split; [done|]. by apply bool_decide_eq_true in Hf. }
  assert (Forall (event_ok host_) (stopped_ ++ EChildEnded (Some 0) :: retried)) as Hok by by repeat constructor.
  assert (Forall (fun e => loses e = false) retried) as Hlo by by repeat constructor.
  exact (proj1 (stopped_is_final sample_manifest host_ sample_host new_machine stopped_ (EChildEnded (Some 0)) r retried
                  new_machine_pristine Hok Hlo Ha Hr)).
Defined.

(** After a stop was answered, a renewal is rejected. *)
Abbreviation stop_answer := (step sample_manifest (EControl Stop) (after served_)).2 (only parsing).
Abbreviation late_answer :=
  (step sample_manifest (EControl (Renew 1 (NOW + 100000)))
     (runs sample_manifest [EAccept] (step sample_manifest (EControl Stop) (after served_)).1)).2 (only parsing).
Lemma stop_answered : stop_answer = AResponse (Ok (the_response stop_answer)).
Proof. evaluated. Qed.
Lemma stop_taken : is_some (receipt (the_response stop_answer)) = true.
Proof. evaluated. Qed.
Lemma late_answered : late_answer = AResponse (Ok (the_response late_answer)).
Proof. evaluated. Qed.
Lemma fenced_lease_is_final_witness : the_response late_answer = rejected.
Proof.
  eapply (fenced_lease_is_final sample_manifest host_ sample_host new_machine served_ (EControl Stop) [EAccept]
            (EControl (Renew 1 (NOW + 100000))));
    [exact new_machine_pristine|by repeat constructor|done|by repeat constructor| |done|exact late_answered].
  left. exists (the_response stop_answer). split_and!; [done|exact stop_answered|].
  intros Hr. pose proof stop_taken as Ht. by rewrite Hr in Ht.
Defined.

(** A renewal was answered; the machine crashes and is recovered. *)
Abbreviation renewal := (EControl (Renew 1 (NOW + 100000))) (only parsing).
Abbreviation renew_answer := (step sample_manifest renewal (after served_)).2 (only parsing).

Abbreviation the_guardian_ := (guardian (after served_)) (only parsing).
Lemma guardian_there : is_some the_guardian_ = true.
Proof. evaluated. Qed.
Lemma lease_and_connections_bounded_witness : exists p, the_guardian_ = Some p /\ (length (threads p) <= 8)%nat.
Proof.
  pose proof guardian_there as Hg. destruct the_guardian_ as [p|] eqn:Hp; [|discriminate Hg]. exists p. split; [reflexivity|].
  eapply (lease_and_connections_bounded sample_manifest host_ sample_host new_machine served_ p);
    [exact new_machine_pristine|by repeat constructor|exact Hp].
Defined.

Lemma vm_there :
  match group (after served_), home (after served_) with Some x, Some _ => populated x | _, _ => false end = true.
Proof. evaluated. Qed.
Lemma vm_is_pinned_witness : exists x dir r, group (after served_) = Some x /\
  receipt_in (GuardianLaws.ess dir) = Some r /\ r_cgroup_inode r = Some (g_inode x).
Proof.
  pose proof vm_there as Hv. destruct (group (after served_)) as [x|] eqn:Hx; [|discriminate Hv].
  destruct (home (after served_)) as [dir|] eqn:Hd; [|discriminate Hv].
  destruct (vm_is_pinned sample_manifest host_ sample_host new_machine served_ x dir new_machine_pristine)
    as (r & Hr & _ & Hi & _); [by repeat constructor|exact Hx|by left|by apply GuardianLaws.in_views|].
  exists x, dir, r. exact (conj eq_refl (conj Hr Hi)).
Defined.

(** The host fences the permit while the allocation is prepared: its guardian does not start it. *)
Abbreviation fence_call := (LaunchAuthority.fence LaunchTheorems.Sample.store 7 (sample_permit 1) (sample_id 401)
                              (ledger (after [ELaunch]))) (only parsing).
Lemma fence_taken : fence_call.2 = Ok tt.
Proof. evaluated. Qed.
Lemma fenced_permit_never_launches_witness : exists l,
  trace (runs sample_manifest [EInit; ELaunch; EInit] (set_ledger (after [ELaunch]) fence_call.1)) = l ++ trace (after [ELaunch]) /\
  forall boot args, Launch boot args ∉ l.
Proof.
  assert (fence_call = (fence_call.1, Ok tt)) as Hf by (pose proof fence_taken as Ht; destruct fence_call; cbn in *; by subst).
  eapply (fenced_permit_never_launches sample_manifest host_ sample_host new_machine [ELaunch] (sample_permit 1));
    [exact new_machine_pristine|by repeat constructor|done| | |exact Hf]; done.
Defined.

(** After the watchdog ended the guardian, its virtual machine is still there: it is killed, and
    the cleanup completes. *)
Definition is_plain (f : FileNode) : bool :=
  (zeros f =? 0) && (f_uid f =? 0) && (f_gid f =? 0) && (f_mode f =? 384) && synced f.
Lemma is_plain_ok f : is_plain f = true -> File f = GuardianLaws.plain (data f).
Proof. unfold is_plain. destruct f; cbn. intros Hp. bools. subst. done. Qed.
Definition inventory (g : Machine) : option (gmap string node * FileNode * Receipt) :=
  v ← home g;
  match v !! RECEIPT with Some (File f) => r ← from_slice (data f); Some (v, f, r) | _ => None end.
Definition encodes (r : Receipt) (s : State) (c : bool) : bool :=
  match to_vec (with_state r s c (Some "guardian_stopped")) with Some b => strlen b <=? MAX_JSON | None => false end.
Definition owned (r : Receipt) (g : Machine) : bool :=
  match group g with
  | Some y => bool_decide (r_host_boot_id r = boot_id_of (boots g)) && bool_decide (r_cgroup_inode r = Some (g_inode y))
  | None => true
  end.
Definition unstaged (v : gmap string node) : bool :=
  bool_decide (map_Forall (fun n _ => Runner.extension n <> Some "tmp") v).
Definition in_order (g : Machine) (v : gmap string node) (f : FileNode) (r : Receipt) : bool :=
  negb (locked g) && negb (jailing g) && is_plain f && (strlen (data f) <=? MAX_JSON)
  && is_ok (validate_receipt sample_manifest r)
  && match v !! LOCK with Some (File _) => true | _ => false end
  && match v !! SOCKET with Some Folder => false | _ => true end
  && is_some (v !! RUN) && unstaged v && owned r g
  && encodes r Fenced false && encodes r Stopped true && negb (bool_decide (r_state r = Stopped)).
Lemma encodes_ok r s c : encodes r s c = true ->
  exists b, to_vec (with_state r s c (Some "guardian_stopped")) = Some b /\ strlen b <= MAX_JSON.
Proof. unfold encodes. destruct (to_vec _) as [b|]; [|done]. intros Hb%Z.leb_le. by exists b. Qed.
Lemma unstaged_fresh v : unstaged v = true -> fresh v.
Proof.
  unfold unstaged. intros Hv%bool_decide_eq_true t. destruct (v !! _) as [n|] eqn:Hn; [|done].
  apply Hv in Hn. by rewrite (RunnerLaws.name_extension _ "tmp") in Hn.
Qed.
Lemma in_order_recoverable g v f r : inventory g = Some (v, f, r) -> in_order g v f r = true ->
  recoverable sample_manifest "guardian_stopped" r v g /\ r_state r <> Stopped.
Proof.
  unfold inventory, in_order. intros Hinv Hall. repeat rewrite andb_true_iff in Hall.
  destruct Hall as ((((((((((((Hl & Hj) & Hp) & Hlen) & Hval) & Hlk) & Hs) & Hrun) & Hun) & Ho) & He1) & He2) & Hst).
  apply negb_true_iff in Hl, Hj, Hst. apply Z.leb_le in Hlen. apply bool_decide_eq_false in Hst. split; [|exact Hst].
  apply bind_Some in Hinv as (v0 & Hh & Hinv).
  destruct (v0 !! RECEIPT) as [[f0| |]|] eqn:Hr; [|discriminate Hinv..].
  apply bind_Some in Hinv as (r0 & Hd & Hinv). injection Hinv as -> -> ->.
  split; try assumption.
  - exists (data f). rewrite <- (is_plain_ok f Hp). split_and!; assumption.
  - destruct (validate_receipt sample_manifest r) as [[]|]; [reflexivity|discriminate Hval].
  - destruct (v !! LOCK) as [[f'| |]|]; [|discriminate Hlk..]. by exists f'.
  - intros Hsock. by rewrite Hsock in Hs.
  - intros Hnone. by rewrite Hnone in Hrun.
  - by apply unstaged_fresh.
  - intros y Hy _. unfold owned in Ho. rewrite Hy in Ho. apply andb_true_iff in Ho as [Hb%bool_decide_eq_true Hi%bool_decide_eq_true].
    by split.
  - intros s c [[-> ->]|[-> ->]]; by apply encodes_ok.
Qed.

Definition completable (g : Machine) : bool :=
  match inventory g with Some (v, f, r) => in_order g v f r | None => false end
  && is_ok (validate true sample_manifest) && is_ok (authorize_cleanup sample_manifest g).2
  && match group g with Some y => populated y | None => false end.
Lemma completable_ok g : completable g = true -> exists r v l c y,
  validate is_root sample_manifest = Ok tt /\ (authorize_cleanup sample_manifest g).2 = Ok (l, c) /\
  recoverable sample_manifest "guardian_stopped" r v g /\ r_state r <> Stopped /\
  group g = Some y /\ populated y = true.
Proof.
  unfold completable. intros Hall. repeat rewrite andb_true_iff in Hall. destruct Hall as (((Hin & Hval) & Hau) & Hy).
  destruct (inventory g) as [[[v f] r]|] eqn:Hinv; [|discriminate Hin].
  destruct (in_order_recoverable g v f r Hinv Hin) as [Hrc Hns].
  change (is_ok (validate is_root sample_manifest) = true) in Hval.
  destruct (validate is_root sample_manifest) as [[]|]; [|discriminate Hval].
  destruct (authorize_cleanup sample_manifest g) as [g' [[l c]|]]; [|discriminate Hau].
  destruct (group g) as [y|]; [|discriminate Hy]. exists r, v, l, c, y. exact (conj eq_refl (conj eq_refl (conj Hrc (conj Hns (conj eq_refl Hy))))).
Qed.
Abbreviation ended_ := (after stopped_) (only parsing).
Lemma ended_completable : completable ended_ = true.
Proof. evaluated. Qed.
Lemma sample_no_fault t : fault t = None.
Proof. reflexivity. Qed.
Lemma sample_killed_end t : exists k,
  (k < CLEANUP_ROUNDS)%nat /\ stirs (replicate k Syscall ++ Kill :: t) = Some Ends.
Proof. exists 0%nat. split; [unfold CLEANUP_ROUNDS; lia|reflexivity]. Qed.
Lemma reconcile_completes_witness : exists g' r,
  reconcile sample_manifest "guardian_stopped" ended_ = (g', Ok r) /\ group g' = None /\
  (exists y, group ended_ = Some y /\ populated y = true).
Proof.
  destruct (completable_ok ended_ ended_completable) as (r & v & l & c & y & Hv & Ha & Hrc & Hns & Hy & Hp).
  destruct (reconcile_completes sample_no_fault sample_killed_end sample_manifest "guardian_stopped" r v ended_ l c
              Hv Ha Hrc Hns) as (g' & dir & b & Hrun & Hg & _).
  exists g', (with_state r Stopped true (Some "guardian_stopped")).
  exact (conj Hrun (conj Hg (ex_intro _ y (conj Hy Hp)))).
Defined.
