(* ===== verification/HostReads.v ===== *)
(** * What readers see of a running allocation
    (host/file_downloads.rs, host/live_output.rs and host/readers.rs, with the clients of
    guest.rs and guest/files.rs, of crates/sandbox-supervisor/src)

    Reading a file or the output of a command does not change the host's journal. A read waits
    for the guest, and meanwhile the journal, the tickets and other reads go on: it is cut there
    into two steps. *)

From S2P Require Import Prelude Ext Ids GuestModel GuestWire Wire FileWire FileDownloads.
From S2P Require Authority LaunchAuthority Guardian Command Files Output History Runner Fs.

(** ** Capture tickets (crates/sandbox-supervisor/src/file_downloads.rs)

    The host's memory of what a guest captured for a reader: bounded, and gone after a minute.
    An [Instant] is a number of milliseconds. *)

Module Tickets.
Definition MAX_DOWNLOADS : Z := 64.
Definition MAX_ALLOCATION_DOWNLOADS : Z := 8.
Definition TTL : Z := 60000.

Record Ticket : Type := {
  t_scope : ReadScope;
  t_context : Context;
  t_path : string;
  t_expires : Z;
  t_expires_unix_ms : Z;
  t_handle : option FileDownloadHandle;
  t_released : bool;
}.
(** [Registry]'s tickets *)
Abbreviation Registry := (gmap OperationId Ticket) (only parsing).

Definition missing : Status := status NotFound "file capture unavailable or expired".
Definition invalid : Status := invalid_argument "invalid file read request".
Definition unavailable_ : Status := unavailable "file read unavailable".
Definition or_invalid {A} (r : result anyhow A) : result Status A := map_err (fun _ => invalid) r.
Definition or_unavailable {A} (r : result anyhow A) : result Status A := map_err (fun _ => unavailable_) r.

Definition set_handle (t : Ticket) (h : FileDownloadHandle) : Ticket := {|
  t_scope := t_scope t; t_context := t_context t; t_path := t_path t; t_expires := t_expires t;
  t_expires_unix_ms := t_expires_unix_ms t; t_handle := Some h; t_released := t_released t
|}.
Definition set_released (t : Ticket) : Ticket := {|
  t_scope := t_scope t; t_context := t_context t; t_path := t_path t; t_expires := t_expires t;
  t_expires_unix_ms := t_expires_unix_ms t; t_handle := t_handle t; t_released := true
|}.

(** [Registry::prune] *)
Definition prune (now : Z) (r : Registry) : Registry :=
  filter (fun kt : OperationId * Ticket => now < t_expires kt.2) r.
Definition of_allocation (a : AllocationId) (t : Ticket) : bool := bool_decide (s_allocation_id (t_scope t) = a).
(** [Registry::pending_allocation]: a capture that is under way or was not released. *)
Definition pending_allocation {E} (a : AllocationId) (now : Z) : ST Registry E bool :=
  _ ← modify (prune now);
  r ← get;
  mret (existsb (fun kt => of_allocation a kt.2 && negb (t_released kt.2)) (map_to_list r)).

Section tickets.
Context `{UuidLib}.

(** [Registry::reserve], where [id] is what [OperationId::generate] gives. *)
Definition reserve (s : ReadScope) (c : Context) (path : string) (wall now : Z) (id : OperationId)
    : ST Registry Status OperationId :=
  _ ← lift (or_invalid (scope_validate s));
  _ ← lift (or_invalid (Files.validate_path path));
  _ ← lift (ensure (bool_decide (allocation_id c = s_allocation_id s) && (generation c =? s_generation s)
                    && negb (bool_decide (boot_id c = "")) && (strlen (boot_id c) <=? 64)) invalid);
  _ ← modify (prune now);
  r ← get;
  _ ← lift (ensure ((Z.of_nat (size r) <? MAX_DOWNLOADS)
                    && (Z.of_nat (size (filter (fun kt : OperationId * Ticket =>
                                            of_allocation (s_allocation_id s) kt.2 = true) r))
                        <? MAX_ALLOCATION_DOWNLOADS))
              (resource_exhausted "file capture tickets full"));
  _ ← put (<[id := {| t_scope := s; t_context := c; t_path := path; t_expires := now + TTL;
                      t_expires_unix_ms := i64_saturating_add wall TTL; t_handle := None;
                      t_released := false |}]> r);
  mret id.

(** [Registry::finish] *)
Definition finish (id : OperationId) (capture : fw.FileCapture) (now : Z) : ST Registry Status FileDownloadHandle :=
  _ ← modify (prune now);
  r ← get;
  t ← lift (ok_or (r !! id) missing);
  _ ← lift (or_unavailable (validate_capture capture));
  _ ← lift (ensure (bool_decide (fw.c_path capture = t_path t) && is_none (t_handle t)) unavailable_);
  let h := {| h_id := to_string id; h_context := Some (from_context (t_context t)); h_capture := Some capture;
              h_expires_unix_ms := t_expires_unix_ms t |} in
  _ ← put (<[id := set_handle t h]> r);
  mret h.

(** [Registry::validate]: whether the ticket of this handle was released. *)
Definition validate (s : ReadScope) (h : FileDownloadHandle) (now : Z) : ST Registry Status bool :=
  _ ← lift (or_invalid (handle h s));
  _ ← modify (prune now);
  id ← lift (or_invalid (parse_operation (h_id h)));
  r ← get;
  t ← lift (ok_or (r !! id) missing);
  _ ← lift (ensure (bool_decide (t_scope t = s) && bool_decide (t_handle t = Some h))
              (failed_precondition "file capture ownership or descriptor changed"));
  mret (t_released t).
(** [Registry::released] *)
Definition released (s : ReadScope) (h : FileDownloadHandle) (now : Z) : ST Registry Status unit :=
  _ ← validate s h now;
  id ← lift (or_invalid (parse_operation (h_id h)));
  r ← get;
  t ← lift (ok_or (r !! id) missing);
  put (<[id := set_released t]> r).
End tickets.
End Tickets.

(** ** Output of a running command (crates/sandbox-supervisor/src/live_output.rs)

    What the host checks of a reader's request, and of the guest's answer to it. *)

Module LiveOutput.
Import Runner.
Import Output(LiveOutputScope, l_owner, l_output_limit, l_command_digest, l_deadline_unix_ms, scope_validate).
Import Command(CommandRecord).

(** output.rs *)
Definition MAX_CHUNK : Z := 32 * 1024.

(** The messages of proto/supervisor.proto; [ReadOutput] and [OutputChunk] are the guest's. *)
Record LiveOutputRequest : Type := {
  lr_scope_json : bytes; lr_output : option ReadOutput; lr_expires_unix_ms : Z
}.
Record LiveOutputObservation : Type := {
  lv_request : option LiveOutputRequest;
  lv_host_id : string;
  lv_supervisor_epoch : Z;
  lv_simulated : bool;
  lv_observed_unix_ms : Z;
  lv_chunk : option OutputChunk;
  lv_receipt : option w.Receipt;
}.

Section live.
Context `{UuidLib, Serde LiveOutputScope, Serde Execute, Sha256}.

Definition decode (request : LiveOutputRequest) (now : Z) : result Status (LiveOutputScope * ReadOutput) :=
  _ ← ensure ((strlen (lr_scope_json request) <=? 8192)
              && contains 1 30000 (i64_saturating_sub (lr_expires_unix_ms request) now))
        (invalid_argument "invalid live output scope or deadline");
  scope ← ok_or (from_slice (lr_scope_json request)) (invalid_argument "invalid live output scope");
  _ ← map_err (fun _ => invalid_argument "invalid live output scope") (scope_validate scope);
  read ← ok_or (lr_output request) (invalid_argument "output selector required");
  _ ← ensure (bool_decide (o_operation_id read = to_string (Output.operation_id (l_owner scope)))
              && contains 1 MAX_CHUNK (o_limit read) && (o_offset read <=? l_output_limit scope)
              && is_ok (stream_of_number (o_stream read)))
        (invalid_argument "invalid live output range or identity");
  Ok (scope, read).

Definition validate_owner (scope : LiveOutputScope) (owner : Ownership) (command : CommandRecord)
    : result Status unit :=
  let o := l_owner scope in
  ensure (bool_decide (to_string (Output.project_id o) = o_project_id owner)
          && bool_decide (to_string (Output.sandbox_id o) = o_sandbox_id owner)
          && bool_decide (to_string (Output.allocation_id o) = o_allocation_id owner)
          && bool_decide (to_string (Output.host_id o) = o_host_id owner)
          && (Output.host_epoch o =? o_supervisor_epoch owner) && (Output.generation o =? o_generation owner)
          && negb (Command.not_started command) && bool_decide (Command.digest command = l_command_digest scope)
          && (Command.cmd_output_limit command =? l_output_limit scope)
          && (Command.cmd_deadline_unix_ms command =? l_deadline_unix_ms scope)
          && is_some_and (fun c => bool_decide (allocation_id c = Output.allocation_id o)
                                   && (generation c =? Output.generation o)
                                   && bool_decide (boot_id c = Output.boot_id o)) (Command.context command))
    (failed_precondition "live output ownership mismatch").

Definition validate_chunk (scope : LiveOutputScope) (read : ReadOutput) (command : CommandRecord)
    (chunk : OutputChunk) (receipt : Receipt) : result Status unit :=
  _ ← map_err (fun _ => unavailable "invalid live output receipt")
        (Command.validate_receipt command (Output.operation_id (l_owner scope)) receipt);
  _ ← ensure (negb (bool_decide (r_state receipt = Unknown))) (unavailable "guest output state unknown");
  stdout ← map_err (fun _ => invalid_argument "invalid stream") (stream_of_number (o_stream read));
  let stats := if stdout : bool then r_stdout receipt else r_stderr receipt in
  let final_receipt := r_cleanup_confirmed receipt
                       && match r_state receipt with
                          | Exited | TimedOut | Cancelled => true
                          | LaunchIntent | Unknown => false
                          end in
  ensure (bool_decide (k_operation_id chunk = o_operation_id read)
          && (k_stream chunk =? o_stream read) && (k_offset chunk =? o_offset read)
          && (strlen (k_data chunk) <=? o_limit read) && (strlen (k_data chunk) <=? MAX_CHUNK)
          && bool_decide (u64_checked_add (k_offset chunk) (strlen (k_data chunk)) = Some (k_next_offset chunk))
          && (k_next_offset chunk <=? stored stats)
          && negb (negb (k_at_end chunk)
                   && (bool_decide (k_data chunk = "") || (stored stats <=? k_next_offset chunk)))
          && negb (k_complete chunk
                   && (negb final_receipt || negb (eqb (k_at_end chunk) (k_next_offset chunk =? stored stats)))))
    (unavailable "invalid live output bytes or bounds").

Definition observation (request : LiveOutputRequest) (host : string) (epoch : Z) (simulated : bool) (now : Z)
    (chunk : OutputChunk) (receipt : Receipt) : result Status LiveOutputObservation :=
  _ ← decode request now;
  Ok {| lv_request := Some request; lv_host_id := host; lv_supervisor_epoch := epoch;
        lv_simulated := simulated; lv_observed_unix_ms := now; lv_chunk := Some chunk;
        lv_receipt := Some (from_receipt receipt) |}.
End live.
End LiveOutput.

(** ** The host *)

From S2P Require Import HostModel HostEnv HostOps.
Import Tickets LiveOutput.
#[local] Existing Instances Command.CommandRecord_eq_dec.
Import Command(CommandRecord).
Import Output(LiveOutputScope, l_owner).
Import Runner(ReadOutput, OutputChunk).

Definition READERS : nat := 4.

(** A read that waits for the guest, with the guest it asked. *)
Inductive reading : Type :=
| Capturing (r : FileCaptureRequest) (scope : ReadScope) (client : Context) (id : OperationId)
| Fetching (r : FileDownloadRequest) (scope : ReadScope) (client : Context) (h : FileDownloadHandle)
| Releasing (r : FileReleaseRequest) (scope : ReadScope) (client : Context) (h : FileDownloadHandle) (already : bool)
| Watching (r : LiveOutputRequest) (scope : LiveOutputScope) (read : ReadOutput) (client : Context)
    (command : CommandRecord).

Definition is_file (t : reading) : bool := match t with Watching _ _ _ _ _ => false | _ => true end.
(** The allocation it pins. *)
Definition pinned (t : reading) : AllocationId :=
  match t with
  | Capturing _ s _ _ | Fetching _ s _ _ | Releasing _ s _ _ _ => s_allocation_id s
  | Watching _ s _ _ _ => Output.allocation_id (l_owner s)
  end.

(** What was answered, with the instant. *)
Inductive access : Type :=
| Gave (s : ReadScope) (h : FileDownloadHandle)
| Showed (s : ReadScope) (h : FileDownloadHandle) (c : fw.FileChunk)
| Dropped (s : ReadScope) (h : FileDownloadHandle).

Record Reads : Type := {
  host : Host;
  tickets : Registry;
  instant : Z;
  readings : list reading;
  closing : gset AllocationId;     (** whose readers are closed by a retirement *)
  answered : list (Z * access);
}.
Definition set_host (s : Reads) h : Reads :=
  {| host := h; tickets := tickets s; instant := instant s; readings := readings s; closing := closing s;
     answered := answered s |}.
Definition set_tickets (s : Reads) t : Reads :=
  {| host := host s; tickets := t; instant := instant s; readings := readings s; closing := closing s;
     answered := answered s |}.
Definition set_instant (s : Reads) i : Reads :=
  {| host := host s; tickets := tickets s; instant := i; readings := readings s; closing := closing s;
     answered := answered s |}.
Definition set_readings (s : Reads) l : Reads :=
  {| host := host s; tickets := tickets s; instant := instant s; readings := l; closing := closing s;
     answered := answered s |}.
Definition set_closing (s : Reads) c : Reads :=
  {| host := host s; tickets := tickets s; instant := instant s; readings := readings s; closing := c;
     answered := answered s |}.
Definition answer_ (s : Reads) (a : access) : Reads :=
  {| host := host s; tickets := tickets s; instant := instant s; readings := readings s; closing := closing s;
     answered := (instant s, a) :: answered s |}.

Abbreviation D A := (ST Reads Status A) (only parsing).

Section reads.
Context `{Env, UuidLib, Sha256, Serde ReadScope, Serde LiveOutputScope, Serde Execute}.
Context (config : Config).

Definition on_host {A} (m : ST Host Status A) : D A := fun s =>
  let '(h, r) := m (host s) in (set_host s h, r).
Definition on_tickets {A} (m : ST Registry Status A) : D A := fun s =>
  let '(t, r) := m (tickets s) in (set_tickets s t, r).
Definition wall : D Z := on_host now.
(** [Instant::now()] *)
Definition instant_ : D Z := s ← get; mret (instant s).

(** ** guest/files.rs and guest.rs: the client's checks *)

Definition client_capture (path : string) (reply : result anyhow fw.FileCapture) : result anyhow fw.FileCapture :=
  _ ← Files.validate_path path;
  capture ← reply;
  _ ← validate_capture capture;
  _ ← ensure (bool_decide (fw.c_path capture = path)) "capture path mismatch";
  Ok capture.
Definition client_read (capture : fw.FileCapture) (offset limit : Z) (reply : result anyhow fw.FileChunk)
    : result anyhow fw.FileChunk :=
  h ← FileWire.handle capture;
  _ ← ensure ((offset <=? fw.c_size capture) && contains 1 Files.MAX_CHUNK_BYTES limit) "invalid capture range";
  chunk ← reply;
  let length := Z.min (fw.c_size capture - offset) limit in
  next ← ok_or (u64_checked_add offset length) "file range overflow";
  _ ← ensure (bool_decide (fw.k_handle chunk = Some h) && (fw.k_offset chunk =? offset)
              && (fw.k_size chunk =? fw.c_size capture) && (strlen (fw.k_data chunk) =? length)
              && (fw.next_offset chunk =? next) && eqb (fw.at_end chunk) (next =? fw.c_size capture))
        "file chunk identity, cursor or size mismatch";
  Ok chunk.
Definition client_release (capture : fw.FileCapture) (reply : result anyhow fw.FileHandle) : result anyhow unit :=
  h ← FileWire.handle capture;
  released ← reply;
  ensure (bool_decide (released = h)) "file release identity mismatch".
(** [GuestClient::output] *)
Definition client_output (request : ReadOutput) (reply : result anyhow OutputChunk) : result anyhow OutputChunk :=
  _ ← HostModel.parse_operation (Runner.o_operation_id request);
  _ ← ensure ((0 <? Runner.o_limit request) && (Runner.o_limit request <=? GuestWire.MAX_CHUNK)
              && (Runner.o_offset request <=? GuestModel.MAX_OUTPUT)
              && is_ok (Runner.stream_of_number (Runner.o_stream request))) "invalid output request";
  o ← reply;
  _ ← ensure (bool_decide (Runner.k_operation_id o = Runner.o_operation_id request)
              && (Runner.k_stream o =? Runner.o_stream request) && (Runner.k_offset o =? Runner.o_offset request)
              && (strlen (Runner.k_data o) <=? Runner.o_limit request)
              && bool_decide (u64_checked_add (Runner.o_offset request) (strlen (Runner.k_data o))
                              = Some (Runner.k_next_offset o))
              && (Runner.k_next_offset o <=? GuestModel.MAX_OUTPUT)) "invalid output response";
  Ok o.

(** ** host/readers.rs *)

(** [readers::pin] *)
Definition pin (a : AllocationId) (r : Record_) : D unit :=
  _ ← lift (check_retirement r);
  _ ← lift (ensure (negb (stopped r || HostModel.released r)) (unavailable "allocation stopped"));
  s ← get;
  lift (ensure (negb (bool_decide (a ∈ closing s))) (unavailable "allocation readers closed")).

(** ** host/file_downloads.rs *)

(** [Host::download_record] *)
Definition download_record (j : Journal) (s : ReadScope) : result Status Record_ :=
  _ ← ensure (bool_decide (host_id s = HostModel.host config) && (host_epoch s =? epoch config))
        (failed_precondition "file read requires current host epoch");
  r ← ok_or (records j !! to_string (s_allocation_id s)) missing;
  _ ← ensure (matches_owner s (owner r)) (failed_precondition "file read allocation mismatch");
  _ ← ensure (negb (stopped r || HostModel.released r)) unavailable_;
  Ok r.

(** [Host::download_prepare]: the client; the pin and the file worker are the waiting read's. *)
Definition download_prepare (s : ReadScope) : D Context :=
  j ← on_host journal_;
  r ← lift (download_record j s);
  m ← lift (ok_or (manifest r) missing);
  _ ← pin (s_allocation_id s) r;
  st ← get;
  free ← on_host (on_system (ask AcquireFileWorker file_worker_free));
  _ ← lift (ensure (free && negb (existsb (fun t => is_file t && bool_decide (pinned t = s_allocation_id s))
                                     (readings st)))
              (resource_exhausted "allocation file worker busy"));
  client ← on_host (guest_client m);
  lift (or_unavailable client).
(** [Host::download_client] *)
Definition download_client (s : ReadScope) : D Context :=
  j ← on_host journal_;
  r ← lift (download_record j s);
  m ← lift (ok_or (manifest r) missing);
  client ← on_host (guest_client m);
  lift (or_unavailable client).
(** [Host::check_download_current] *)
Definition check_download_current (s : ReadScope) (c : Context) : D unit :=
  current ← download_client s;
  lift (ensure (bool_decide (current = c)) (failed_precondition "file read boot changed")).

Definition access_observation (scope_json : bytes) (r : access_result) : D FileAccessObservation :=
  n ← wall;
  mret {| ao_scope_json := scope_json; ao_simulated := false; ao_observed_unix_ms := n; ao_result := Some r |}.

Definition handle_context (h : FileDownloadHandle) : result Status Context :=
  c ← ok_or (h_context h) missing;
  or_invalid (try_context c).
Definition handle_capture (h : FileDownloadHandle) : result Status fw.FileCapture := ok_or (h_capture h) missing.

(** [Host::capture_download], up to the guest's answer and from there. *)
Definition capture_begin (r : FileCaptureRequest) : D reading :=
  n ← wall;
  s ← lift (or_invalid (capture_request r n));
  client ← download_prepare s;
  n ← wall;
  _ ← lift (or_invalid (capture_request r n));
  n ← wall;
  i ← instant_;
  id ← on_host (on_system generate);
  id ← on_tickets (reserve s client (cr_path r) n i id);
  mret (Capturing r s client id).
Definition capture_end (r : FileCaptureRequest) (s : ReadScope) (client : Context) (id : OperationId)
    (reply : result anyhow fw.FileCapture) : D FileAccessObservation :=
  capture ← lift (or_unavailable (client_capture (cr_path r) reply));
  _ ← check_download_current s client;
  n ← wall;
  _ ← lift (or_invalid (capture_request r n));
  i ← instant_;
  h ← on_tickets (finish id capture i);
  _ ← modify (fun st => answer_ st (Gave s h));
  access_observation (cr_scope_json r) (Captured h).

(** [Host::read_download] *)
Definition fetch_begin (r : FileDownloadRequest) : D reading :=
  n ← wall;
  s ← lift (or_invalid (read_request r n));
  h ← lift (ok_or (dr_handle r) missing);
  i ← instant_;
  gone ← on_tickets (Tickets.validate s h i);
  _ ← lift (ensure (negb gone) missing);
  context ← lift (handle_context h);
  client ← download_prepare s;
  _ ← lift (ensure (bool_decide (client = context)) (failed_precondition "file read boot changed"));
  n ← wall;
  _ ← lift (or_invalid (read_request r n));
  mret (Fetching r s client h).
Definition fetch_end (r : FileDownloadRequest) (s : ReadScope) (client : Context) (h : FileDownloadHandle)
    (reply : result anyhow fw.FileChunk) : D FileAccessObservation :=
  capture ← lift (handle_capture h);
  chunk ← lift (or_unavailable (client_read capture (dr_offset r) (dr_limit r) reply));
  _ ← check_download_current s client;
  n ← wall;
  _ ← lift (or_invalid (read_request r n));
  i ← instant_;
  gone ← on_tickets (Tickets.validate s h i);
  _ ← lift (ensure (negb gone) missing);
  _ ← modify (fun st => answer_ st (Showed s h chunk));
  access_observation (dr_scope_json r) (Chunk chunk).

(** [Host::release_download] *)
Definition release_begin (r : FileReleaseRequest) : D reading :=
  n ← wall;
  s ← lift (or_invalid (release_request r n));
  h ← lift (ok_or (rr_handle r) missing);
  i ← instant_;
  already ← on_tickets (Tickets.validate s h i);
  context ← lift (handle_context h);
  client ← download_prepare s;
  _ ← lift (ensure (bool_decide (client = context)) (failed_precondition "file read boot changed"));
  n ← wall;
  _ ← lift (or_invalid (release_request r n));
  mret (Releasing r s client h already).
Definition release_end (r : FileReleaseRequest) (s : ReadScope) (client : Context) (h : FileDownloadHandle)
    (already : bool) (reply : result anyhow fw.FileHandle) : D FileAccessObservation :=
  _ ← (if already then mret tt else
         capture ← lift (handle_capture h);
         lift (or_unavailable (client_release capture reply)));
  _ ← check_download_current s client;
  n ← wall;
  _ ← lift (or_invalid (release_request r n));
  i ← instant_;
  _ ← on_tickets (Tickets.released s h i);
  _ ← modify (fun st => answer_ st (Dropped s h));
  access_observation (rr_scope_json r) (Released h).

(** ** host/live_output.rs *)

(** [Host::live_record]; the pin is the waiting read's. *)
Definition live_record (s : LiveOutputScope) : D (CommandRecord * Manifest) :=
  let o := l_owner s in
  _ ← lift (ensure (bool_decide (Output.host_id o = HostModel.host config) && (Output.host_epoch o =? epoch config))
              (failed_precondition "live output requires the producing host epoch"));
  j ← on_host journal_;
  r ← lift (ok_or (records j !! to_string (Output.allocation_id o)) (not_found "allocation history missing"));
  _ ← lift (check_history r History.Commands (Output.operation_id o));
  command ← lift (ok_or (commands r !! to_string (Output.operation_id o)) (not_found "command history missing"));
  _ ← lift (validate_owner s (owner r) command);
  _ ← lift (ensure (negb (stopped r || HostModel.released r)) (unavailable "live guest unavailable; inspect archived output"));
  m ← lift (ok_or (manifest r) (unavailable "guest manifest missing"));
  _ ← pin (Output.allocation_id o) r;
  mret (command, m).

(** [Host::live_read], up to the guest's answers and from there. *)
Definition live_begin (r : LiveOutputRequest) : D reading :=
  st ← get;
  _ ← lift (ensure (length (filter (fun t => is_file t = false) (readings st)) <? READERS)%nat
              (resource_exhausted "live output readers busy"));
  n ← wall;
  '(s, read) ← lift (decode r n);
  '(command, m) ← live_record s;
  client ← on_host (guest_client m);
  client ← lift (map_err (fun _ => unavailable "guest unavailable") client);
  bound ← lift (ok_or (Command.context command) (unavailable "guest binding missing"));
  _ ← lift (ensure (bool_decide (client = bound)) (failed_precondition "guest binding changed"));
  n ← wall;
  _ ← lift (decode r n);
  mret (Watching r s read client command).
Definition live_end (r : LiveOutputRequest) (s : LiveOutputScope) (read : ReadOutput) (client : Context)
    (command : CommandRecord) (reply : result anyhow OutputChunk) : D LiveOutputObservation :=
  chunk ← lift (map_err (fun _ => unavailable "guest output unavailable") (client_output read reply));
  receipt ← on_host (client_inspect client (Output.operation_id (l_owner s)));
  receipt ← lift (map_err (fun _ => unavailable "guest receipt unavailable") receipt);
  _ ← lift (validate_chunk s read command chunk receipt);
  '(current, _) ← live_record s;
  _ ← lift (or_uncertain (Command.validate_receipt current (Output.operation_id (l_owner s)) receipt));
  n ← wall;
  lift (LiveOutput.observation r (to_string (HostModel.host config)) (epoch config) false n chunk receipt).

(** ** Readers and the rest of the host as events *)

Inductive reply : Type :=
| RCapture (c : result anyhow fw.FileCapture)
| RChunk (c : result anyhow fw.FileChunk)
| RRelease (h : result anyhow fw.FileHandle)
| ROutput (c : result anyhow OutputChunk).

Inductive event : Type :=
| ECapture (r : FileCaptureRequest)
| EFetch (r : FileDownloadRequest)
| ERelease (r : FileReleaseRequest)
| EWatch (r : LiveOutputRequest)
| EReply (i : nat) (a : reply)
| ETimeout (i : nat)                       (** the caller's time is up, and the read is dropped *)
| ETick (ms : N)
| EClose (a : AllocationId)                (** a retirement closes the readers, if there are none *)
| EOpen (a : AllocationId)
| EPending (a : AllocationId)              (** it asks whether a capture is pending *)
| EOther (j : Journal) (w w' : Fs.World) (l : list effect).   (** any other requests of the host *)

Inductive answer : Type :=
| ANothing
| AFile (r : result Status FileAccessObservation)
| ALive (r : result Status LiveOutputObservation)
| ABool (b : bool).

(** A read begins, within the four that [Workers] allows. *)
Definition begin_ (m : D reading) (s : Reads) : Reads * option Status :=
  match m s with
  | (s', Ok t) => (set_readings s' (readings s' ++ [t]), None)
  | (s', Err e) => (s', Some e)
  end.
Definition worker (m : D reading) : D reading :=
  st ← get;
  _ ← lift (ensure (length (filter (fun t => is_file t = true) (readings st)) <? READERS)%nat
              (resource_exhausted "file readers busy"));
  m.
Definition refused (e : option Status) : answer :=
  match e with Some e => AFile (Err e) | None => ANothing end.

Definition finish_reading (t : reading) (a : reply) : D answer := fun s =>
  let file (m : D FileAccessObservation) := let '(s', r) := m s in (s', Ok (AFile r)) in
  match t, a with
  | Capturing r sc c id, RCapture reply => file (capture_end r sc c id reply)
  | Fetching r sc c h, RChunk reply => file (fetch_end r sc c h reply)
  | Releasing r sc c h already, RRelease reply => file (release_end r sc c h already reply)
  | Watching r sc read c command, ROutput reply =>
      let '(s', r) := live_end r sc read c command reply s in (s', Ok (ALive r))
  | _, _ => (s, Ok ANothing)
  end.
Definition matches_reply (t : reading) (a : reply) : bool :=
  match t, a with
  | Capturing _ _ _ _, RCapture _ | Fetching _ _ _ _, RChunk _ | Releasing _ _ _ _ _, RRelease _
  | Watching _ _ _ _ _, ROutput _ => true
  | _, _ => false
  end.

Definition step (e : event) (s : Reads) : Reads * answer :=
  match e with
  | ECapture r => let '(s', e) := begin_ (worker (capture_begin r)) s in (s', refused e)
  | EFetch r => let '(s', e) := begin_ (worker (fetch_begin r)) s in (s', refused e)
  | ERelease r => let '(s', e) := begin_ (worker (release_begin r)) s in (s', refused e)
  | EWatch r =>
      let '(s', e) := begin_ (live_begin r) s in
      (s', match e with Some e => ALive (Err e) | None => ANothing end)
  | EReply i a =>
      match readings s !! i with
      | Some t =>
          if matches_reply t a then
            let '(s', r) := finish_reading t a s in
            (set_readings s' (delete i (readings s')), match r with Ok v => v | Err _ => ANothing end)
          else (s, ANothing)
      | None => (s, ANothing)
      end
  | ETimeout i => (set_readings s (delete i (readings s)), ANothing)
  | ETick n => (set_instant s (instant s + Z.of_N n), ANothing)
  | EClose a =>
      if bool_decide (a ∈ closing s) || existsb (fun t => bool_decide (pinned t = a)) (readings s)
      then (s, ABool false) else (set_closing s ({[a]} ∪ closing s), ABool true)
  | EOpen a => (set_closing s (closing s ∖ {[a]}), ANothing)
  | EPending a =>
      let '(t, r) := pending_allocation (E := Status) a (instant s) (tickets s) in
      (set_tickets s t, ABool (match r with Ok b => b | Err _ => true end))
  | EOther j w w' l =>
      (set_host s {| journal := j;
                     system := {| state_dir := w; launch_dir := w'; trace := l ++ trace (system (host s)) |} |},
       ANothing)
  end.
Definition runs (es : list event) (s : Reads) : Reads := foldl (fun s e => (step e s).1) s es.
End reads.
