(* ===== verification/ReadInv.v ===== *)
(** * What holds between reads *)

From S2P Require Import Prelude Ext Ids GuestModel GuestWire Wire FileWire FileDownloads HostModel HostEnv HostOps.
From S2P Require Import HostReads.
From S2P Require Guardian Command Files Output Runner.
Import Tickets LiveOutput.
Import Output(LiveOutputScope, l_owner).
Import Command(CommandRecord).

(** ** Reasoning about reads

    [mild s s']: what a read does that only asks the host and looks at tickets. [mwp m Q s]:
    [m] is mild, and [Q] holds when it succeeds. *)

Definition asked (s : Reads) : list effect := trace (system (host s)).

Record mild (s s' : Reads) : Prop := {
  mi_tickets : forall id t, tickets s' !! id = Some t -> tickets s !! id = Some t;
  mi_instant : instant s' = instant s;
  mi_readings : readings s' = readings s;
  mi_closing : closing s' = closing s;
  mi_answered : answered s' = answered s;
  mi_asked : exists l, asked s' = l ++ asked s;
}.
Lemma mild_refl s : mild s s.
Proof. split; try done. by exists []. Qed.
Lemma mild_trans s1 s2 s3 : mild s1 s2 -> mild s2 s3 -> mild s1 s3.
Proof.
  intros [Ha Hb Hc Hd He (l & Hl)] [Ha' Hb' Hc' Hd' He' (l' & Hl')]. split; [auto|congruence..|].
  exists (l' ++ l). by rewrite Hl', Hl, app_assoc.
Qed.

Definition dwp {A} (m : D A) (Q : result Status A -> Reads -> Prop) (s : Reads) : Prop := Q (m s).2 (m s).1.
Definition mwp {A} (m : D A) (Q : A -> Reads -> Prop) (s : Reads) : Prop :=
  mild s (m s).1 /\ forall a, (m s).2 = Ok a -> Q a (m s).1.

Lemma mwp_bind {A B} (m : D A) (k : A -> D B) Q s : mwp m (fun a => mwp (k a) Q) s -> mwp (m ≫= k) Q s.
Proof.
  unfold mwp, mbind, ST_bind. intros [Hm Hk]. destruct (m s) as [s1 [a|e]]; cbn in *; [|done].
  destruct (Hk a eq_refl) as [Hm' HQ]. split; [by eapply mild_trans|done].
Qed.
Lemma mwp_mono {A} (m : D A) (Q Q' : A -> Reads -> Prop) s :
  mwp m Q s -> (forall a s', mild s s' -> Q a s' -> Q' a s') -> mwp m Q' s.
Proof. intros [Hm HQ] HQ'. split; [done|]. intros a Ha. by apply HQ', HQ. Qed.
Lemma mwp_ret {A} (a : A) (Q : A -> Reads -> Prop) s : Q a s -> mwp (mret a) Q s.
Proof. intros HQ. split; [apply mild_refl|]. by intros ? [= <-]. Qed.
Lemma mwp_lift {A} (r : result Status A) (Q : A -> Reads -> Prop) s : (forall a, r = Ok a -> Q a s) -> mwp (lift r) Q s.
Proof. intros HQ. split; [apply mild_refl|exact HQ]. Qed.
Lemma mwp_get (Q : Reads -> Reads -> Prop) s : Q s s -> mwp get Q s.
Proof. intros HQ. split; [apply mild_refl|]. by intros ? [= <-]. Qed.

(** A mild prefix. *)
Lemma dwp_mild {A B} (m : D A) (k : A -> D B) (Q0 : A -> Reads -> Prop) (Q : result Status B -> Reads -> Prop) s :
  mwp m Q0 s -> (forall a s', mild s s' -> Q0 a s' -> dwp (k a) Q s') ->
  (forall e s', mild s s' -> Q (Err e) s') -> dwp (m ≫= k) Q s.
Proof.
  unfold mwp, dwp, mbind, ST_bind. intros [Hm HQ0] Hk He. destruct (m s) as [s1 [a|e]]; cbn in *; [|by apply He].
  by apply (Hk a s1), HQ0.
Qed.
Lemma dwp_mwp {A} (m : D A) (Q0 : A -> Reads -> Prop) (Q : result Status A -> Reads -> Prop) s :
  mwp m Q0 s -> (forall a s', mild s s' -> Q0 a s' -> Q (Ok a) s') -> (forall e s', mild s s' -> Q (Err e) s') ->
  dwp m Q s.
Proof. unfold mwp, dwp. intros [Hm HQ0] Hk He. destruct (m s) as [s1 [a|e]]; cbn in *; auto. Qed.
Lemma dwp_ret {A} (a : A) (Q : result Status A -> Reads -> Prop) s : Q (Ok a) s -> dwp (mret a) Q s.
Proof. done. Qed.
Lemma dwp_modify {B} f (k : unit -> D B) (Q : result Status B -> Reads -> Prop) s :
  dwp (k tt) Q (f s) -> dwp (modify f ≫= k) Q s.
Proof. done. Qed.

(** ** The host below *)

(** A computation of the host that only asks. *)
Definition asks {A} (m : H A) : Prop := forall h, exists l, trace (system (m h).1) = l ++ trace (system h).
Lemma asks_bind {A B} (m : H A) (k : A -> H B) : asks m -> (forall a, asks (k a)) -> asks (m ≫= k).
Proof.
  intros Hm Hk h. destruct (Hm h) as (l & Hl). unfold mbind, ST_bind. destruct (m h) as [h1 [a|e]]; cbn in *; [|by exists l].
  destruct (Hk a h1) as (l' & Hl'). exists (l' ++ l). by rewrite Hl', Hl, app_assoc.
Qed.
Lemma asks_ret {A} (a : A) : asks (mret a).
Proof. intros h. by exists []. Qed.
Lemma asks_lift {A} (r : result Status A) : asks (lift r).
Proof. intros h. by exists []. Qed.
Lemma asks_get : asks get.
Proof. intros h. by exists []. Qed.
Lemma asks_fail {A} e : asks (fail e : H A).
Proof. intros h. by exists []. Qed.
Lemma asks_ask {A} e (f : list effect -> A) : asks (on_system (ask e f)).
Proof. intros h. by exists [e]. Qed.
Lemma mwp_on_host {A} (m : H A) (Q : A -> Reads -> Prop) s :
  asks m -> (forall a h, (m (host s)).2 = Ok a -> Q a (set_host s h)) -> mwp (on_host m) Q s.
Proof.
  intros Hm HQ. destruct (Hm (host s)) as (l & Hl). unfold mwp, on_host. specialize (HQ : forall a h, _).
  destruct (m (host s)) as [h r]; cbn in *. split; [|by intros a ->; apply HQ].
  split; try done. by exists l.
Qed.

Section laws.
Context `{Env, UuidLib, Sha256, Serde ReadScope, Serde LiveOutputScope, Serde Execute}.
Context (config : Config).

Lemma asks_now : asks now.
Proof. apply asks_ask. Qed.
Lemma asks_journal : asks journal_.
Proof. intros h. exists []. unfold journal_, mbind, ST_bind, get. by destruct (poisoned _). Qed.
Lemma asks_guest_client m : asks (guest_client m).
Proof.
  unfold guest_client, control_, control. apply asks_bind; [apply asks_ask|]. intros reply.
  destruct (mbind _ _) as [r|]; [|apply asks_ret]. apply asks_bind; [apply asks_now|]. intros n.
  destruct (negb _); [apply asks_ret|]. destruct (Guardian.r_guest_boot_id _); [|apply asks_ret].
  apply asks_bind; [apply asks_ask|]. intros i. apply asks_ret.
Qed.
Lemma asks_inspect c id : asks (client_inspect c id).
Proof. unfold client_inspect. apply asks_bind; [apply asks_ask|]. intros a. apply asks_ret. Qed.

Lemma mwp_wall (Q : Z -> Reads -> Prop) s : (forall n h, Q n (set_host s h)) -> mwp wall Q s.
Proof. intros HQ. apply mwp_on_host; [apply asks_now|auto]. Qed.
Lemma mwp_instant (Q : Z -> Reads -> Prop) s : Q (instant s) s -> mwp instant_ Q s.
Proof. intros HQ. apply mwp_bind, mwp_get, mwp_ret, HQ. Qed.

(** ** Tickets *)

Lemma prune_lookup now r id t : prune now r !! id = Some t <-> r !! id = Some t /\ now < t_expires t.
Proof. unfold prune. by rewrite map_lookup_filter_Some. Qed.
Lemma mild_pruned s n : mild s (set_tickets s (prune n (tickets s))).
Proof. split; try done; [intros id t Ht; by apply prune_lookup in Ht as [Ht _]|by exists []]. Qed.
Lemma mild_same s : mild s (set_tickets s (tickets s)).
Proof. split; try done. by exists []. Qed.
Lemma mwp_validate sc h (Q : bool -> Reads -> Prop) s :
  (forall id t s', tickets s' = prune (instant s) (tickets s) -> handle h sc = Ok tt -> FileWire.parse_operation (h_id h) = Ok id ->
     tickets s' !! id = Some t -> t_scope t = sc -> t_handle t = Some h -> Q (t_released t) s') ->
  mwp (on_tickets (Tickets.validate sc h (instant s))) Q s.
Proof.
  intros HQ. unfold mwp, on_tickets, Tickets.validate, or_invalid, mbind, ST_bind, lift, modify, get, mret, ST_ret.
  destruct (handle h sc) as [[]|] eqn:Hh; cbn; [|by split; [apply mild_same|]].
  pose proof (mild_pruned s (instant s)) as Hp.
  destruct (FileWire.parse_operation (h_id h)) as [id|] eqn:Hid; cbn; [|by split].
  destruct (prune _ _ !! id) as [t|] eqn:Ht; cbn; [|by split].
  destruct (ensure _ _) as [[]|] eqn:He; cbn; [|by split]. split; [done|]. intros a [= <-].
  apply ensure_ok in He. bools. by eapply HQ.
Qed.

(** ** Checks before and after the guest *)

Definition unpinned (a : AllocationId) (s : Reads) : Prop := a ∉ closing s.
Definition worker_free (a : AllocationId) (s : Reads) : Prop :=
  forall t, t ∈ readings s -> is_file t = true -> pinned t <> a.
Lemma mwp_pin a r (Q : unit -> Reads -> Prop) s : (unpinned a s -> Q tt s) -> mwp (pin a r) Q s.
Proof.
  intros HQ. unfold pin. apply mwp_bind, mwp_lift. intros [] _. apply mwp_bind, mwp_lift. intros [] _.
  apply mwp_bind, mwp_get, mwp_lift. intros [] He. apply ensure_ok in He. bools. by apply HQ.
Qed.
Lemma mwp_prepare sc (Q : Context -> Reads -> Prop) s :
  (forall c h, unpinned (s_allocation_id sc) s -> worker_free (s_allocation_id sc) s -> Q c (set_host s h)) ->
  mwp (download_prepare config sc) Q s.
Proof.
  intros HQ. unfold download_prepare. apply mwp_bind, mwp_on_host; [apply asks_journal|]. intros j h Hj.
  apply mwp_bind, mwp_lift. intros r _. apply mwp_bind, mwp_lift. intros m _.
  apply mwp_bind, mwp_pin. intros Hp. apply mwp_bind, mwp_get.
  apply mwp_bind, mwp_on_host; [apply asks_ask|]. intros free h' _. apply mwp_bind, mwp_lift. intros [] He.
  apply ensure_ok in He. bools.
  apply mwp_bind, mwp_on_host; [apply asks_guest_client|]. intros c h2 _. apply mwp_lift. intros c' _.
  apply (HQ c' h2 Hp). intros t Ht Hf Ha. match goal with Hx : existsb _ _ = false |- _ => rename Hx into He' end.
  rewrite <- not_true_iff_false, existsb_exists in He'. apply He'. exists t. split; [by apply list_elem_of_In|].
  by rewrite Hf, bool_decide_eq_true_2.
Qed.
Lemma mwp_current sc c (Q : unit -> Reads -> Prop) s :
  (forall j r h, download_record config j sc = Ok r -> Q tt (set_host s h)) ->
  mwp (check_download_current config sc c) Q s.
Proof.
  intros HQ. unfold check_download_current, download_client. apply mwp_bind.
  apply mwp_bind, mwp_on_host; [apply asks_journal|]. intros j h Hj.
  apply mwp_bind, mwp_lift. intros r Hr. apply mwp_bind, mwp_lift. intros m _.
  apply mwp_bind, mwp_on_host; [apply asks_guest_client|]. intros x h2 _. apply mwp_lift. intros c' _.
  apply mwp_lift. intros [] _. by apply (HQ j r).
Qed.
Lemma mwp_live_record sc (Q : CommandRecord * Manifest -> Reads -> Prop) s :
  (forall v h, unpinned (Output.allocation_id (l_owner sc)) s -> Q v (set_host s h)) ->
  mwp (live_record config sc) Q s.
Proof.
  intros HQ. unfold live_record. apply mwp_bind, mwp_lift. intros [] _.
  apply mwp_bind, mwp_on_host; [apply asks_journal|]. intros j h _.
  do 2 (apply mwp_bind, mwp_lift; intros ? _). apply mwp_bind, mwp_lift. intros c _.
  do 2 (apply mwp_bind, mwp_lift; intros ? _). apply mwp_bind, mwp_lift. intros m _.
  apply mwp_bind, mwp_pin. intros Hp. apply mwp_ret. by apply HQ.
Qed.
End laws.

(** ** The invariant *)

(** A chunk that was answered: its handle was answered to the same reader less than the lifetime
    of a ticket before, and its release was not. *)
Definition entry_ok (n : Z) (a : access) (l : list (Z * access)) : Prop :=
  match a with
  | Showed sc h _ =>
      (exists n0, (n0, Gave sc h) ∈ l /\ n0 <= n < n0 + TTL) /\ forall n', (n', Dropped sc h) ∉ l
  | _ => True
  end.
Fixpoint log_ok (l : list (Z * access)) : Prop :=
  match l with [] => True | (n, a) :: l => entry_ok n a l /\ log_ok l end.
Lemma log_ok_at l2 n a l1 : log_ok (l2 ++ (n, a) :: l1) -> entry_ok n a l1.
Proof. induction l2 as [|[n' a'] l2 IH]; cbn; [by intros []|]. intros [_ Hl]. by apply IH. Qed.

Definition allocation_tickets (a : AllocationId) (r : Registry) : Z :=
  Z.of_nat (size (filter (fun kt : OperationId * Ticket => of_allocation a kt.2 = true) r)).

Lemma filter_sublist {A} (P : A -> Prop) `{forall x, Decision (P x)} (l l' : list A) :
  sublist l l' -> sublist (filter P l) (filter P l').
Proof.
  induction 1 as [|x l l' _ IH|x l l' _ IH]; [constructor| |]; rewrite !filter_cons; destruct (decide (P x));
    [by constructor|done|by constructor|done].
Qed.

Section invariant.
Context `{Env, UuidLib, Sha256, Serde ReadScope, Serde LiveOutputScope, Serde Execute}.
Context (config : Config).

(** An identifier that was generated. *)
Definition spent (s : Reads) (id : OperationId) : Prop :=
  exists l t, l <> [] /\ asked s = l ++ t /\ id = generated t.

Definition reading_ok (s : Reads) (t : reading) : Prop :=
  match t with
  | Capturing r sc c id =>
      from_slice (cr_scope_json r) = Some sc /\ spent s id /\
      forall t, tickets s !! id = Some t -> t_scope t = sc /\ t_context t = c
  | Fetching r sc c h => from_slice (dr_scope_json r) = Some sc /\ dr_handle r = Some h
  | Releasing r sc c h _ => from_slice (rr_scope_json r) = Some sc /\ rr_handle r = Some h
  | Watching _ _ _ _ _ => True
  end.

Definition file_readings (s : Reads) : list reading := filter (fun t => is_file t = true) (readings s).
Definition live_readings (s : Reads) : list reading := filter (fun t => is_file t = false) (readings s).

(** Of the tickets and the log. *)
Record tickets_ok (s : Reads) : Prop := {
  to_size : Z.of_nat (size (tickets s)) <= MAX_DOWNLOADS;
  to_allocation : forall a, allocation_tickets a (tickets s) <= MAX_ALLOCATION_DOWNLOADS;
  to_expires : forall id t, tickets s !! id = Some t -> t_expires t <= instant s + TTL;
  to_spent : forall id t, tickets s !! id = Some t -> spent s id;
  to_given : forall id t h, tickets s !! id = Some t -> t_handle t = Some h ->
    exists n0, (n0, Gave (t_scope t) h) ∈ answered s /\ t_expires t <= n0 + TTL;
  to_dropped : forall n sc h, (n, Dropped sc h) ∈ answered s -> exists id,
    FileWire.parse_operation (h_id h) = Ok id /\ spent s id /\
    forall t, tickets s !! id = Some t -> t_released t = true;
  to_past : forall n a, (n, a) ∈ answered s -> n <= instant s;
  to_log : log_ok (answered s);
}.
(** Of the reads that wait. *)
Record readings_ok (s : Reads) : Prop := {
  rd_file : (length (file_readings s) <= READERS)%nat;
  rd_live : (length (live_readings s) <= READERS)%nat;
  rd_single : NoDup (pinned <$> file_readings s);
  rd_open : forall t, t ∈ readings s -> pinned t ∉ closing s;
  rd_readings : forall t, t ∈ readings s -> reading_ok s t;
}.
Record reads_ok (s : Reads) : Prop := { ro_tickets : tickets_ok s; ro_readings : readings_ok s }.

Lemma spent_mono s s' id : (exists l, asked s' = l ++ asked s) -> spent s id -> spent s' id.
Proof.
  intros (l' & Hl') (l & t & Hne & Ha & ->). exists (l' ++ l), t. split_and!; [|by rewrite Hl', Ha, app_assoc|done].
  by destruct l'.
Qed.
Lemma shrunk_size (r r' : gmap OperationId Ticket) : (forall id t, r' !! id = Some t -> r !! id = Some t) -> (size r' <= size r)%nat.
Proof. intros Hr. by apply map_subseteq_size, map_subseteq_spec. Qed.
Lemma shrunk_allocation a (r r' : Registry) :
  (forall id t, r' !! id = Some t -> r !! id = Some t) -> allocation_tickets a r' <= allocation_tickets a r.
Proof.
  intros Hr. unfold allocation_tickets. apply Nat2Z.inj_le, shrunk_size. intros id t Ht.
  apply map_lookup_filter_Some in Ht as [Ht Ha]. apply map_lookup_filter_Some. split; [by apply Hr|done].
Qed.
Lemma tickets_mild s s' : mild s s' -> tickets_ok s -> tickets_ok s'.
Proof.
  intros [Ht Hi Hr Hc Ha Hq] [H1' H2' H3' H4' H5' H6' H7' H8']. split.
  - pose proof (shrunk_size _ _ Ht). lia.
  - intros a. pose proof (shrunk_allocation a _ _ Ht). specialize (H2' a). lia.
  - intros id t Hid. rewrite Hi. by eapply H3', Ht.
  - intros id t Hid. eapply spent_mono; [exact Hq|]. by eapply H4', Ht.
  - intros id t h Hid Hh. rewrite Ha. by eapply H5'; [apply Ht|].
  - intros n sc h Hd. rewrite Ha in Hd. destruct (H6' n sc h Hd) as (id & Hp & Hsp & Hrel). exists id.
    split_and!; [done|by eapply spent_mono|]. intros t Hid. by apply Hrel, Ht.
  - rewrite Ha, Hi. exact H7'.
  - by rewrite Ha.
Qed.
Lemma reading_ok_mono s s' t :
  (exists l, asked s' = l ++ asked s) ->
  (forall r sc c id t', t = Capturing r sc c id -> spent s id -> tickets s' !! id = Some t' ->
     exists t0, tickets s !! id = Some t0 /\ t_scope t' = t_scope t0 /\ t_context t' = t_context t0) ->
  reading_ok s t -> reading_ok s' t.
Proof.
  intros Hq Ht. destruct t as [r sc c id| | |]; cbn; try done. intros (Hj & Hsp & Hid).
  split_and!; [done|by eapply spent_mono|]. intros t' Ht'.
  destruct (Ht r sc c id t' eq_refl Hsp Ht') as (t0 & H0' & -> & ->). by apply Hid.
Qed.
Lemma readings_mild s s' : mild s s' -> readings_ok s -> readings_ok s'.
Proof.
  intros Hm [H1' H2' H3' H4' H5']. pose proof Hm as [Ht Hi Hr Hc Ha Hq].
  split; unfold file_readings, live_readings in *; rewrite ?Hr, ?Hc; try done.
  intros t Hin. eapply reading_ok_mono; [exact Hq| |by apply H5']. intros r sc c id t' _ _ Hid. exists t'. auto.
Qed.
Lemma reads_mild s s' : mild s s' -> reads_ok s -> reads_ok s'.
Proof. intros Hm [Ht Hr]. split; [by eapply tickets_mild|by eapply readings_mild]. Qed.

(** A read is added. *)
Lemma readings_add s t : readings_ok s -> reading_ok s t -> pinned t ∉ closing s ->
  (is_file t = true -> (length (file_readings s) < READERS)%nat /\ worker_free (pinned t) s) ->
  (is_file t = false -> (length (live_readings s) < READERS)%nat) ->
  readings_ok (set_readings s (readings s ++ [t])).
Proof.
  intros [H1' H2' H3' H4' H5'] Ht Hp Hf Hl. unfold file_readings, live_readings in *.
  split; unfold file_readings, live_readings; cbn; rewrite ?filter_app.
  - rewrite length_app. cbn. destruct (is_file t) eqn:Hft.
    + rewrite decide_True by done. cbn. destruct (Hf eq_refl). lia.
    + rewrite decide_False by done. cbn. lia.
  - rewrite length_app. cbn. destruct (is_file t) eqn:Hft.
    + rewrite decide_False by done. cbn. lia.
    + rewrite decide_True by done. cbn. specialize (Hl eq_refl). lia.
  - rewrite fmap_app. apply NoDup_app. split_and!; [done| |].
    + intros a Ha Hin. cbn in Hin. destruct (decide (is_file t = true)) as [Hft|]; [|by apply not_elem_of_nil in Hin].
      cbn in Hin. apply list_elem_of_singleton in Hin as ->. destruct (Hf Hft) as [_ Hw].
      apply list_elem_of_fmap in Ha as (t' & He & Hin'). apply list_elem_of_filter in Hin' as [Hft' Hin'].
      by apply (Hw t' Hin' Hft').
    + cbn. destruct (decide _); cbn; [apply NoDup_singleton|constructor].
  - intros t' [Hin|Hin]%elem_of_app; [by apply H4'|]. by apply list_elem_of_singleton in Hin as ->.
  - intros t' [Hin|Hin]%elem_of_app; [exact (H5' t' Hin)|]. by apply list_elem_of_singleton in Hin as ->.
Qed.
Lemma readings_delete s i : readings_ok s -> readings_ok (set_readings s (delete i (readings s))).
Proof.
  intros [H1' H2' H3' H4' H5']. assert (forall t, t ∈ delete i (readings s) -> t ∈ readings s) as Hin.
  { intros t Ht. by eapply elem_of_submseteq, sublist_submseteq, sublist_delete. }
  assert (forall (P : reading -> Prop) `{forall t, Decision (P t)},
            sublist (filter P (delete i (readings s))) (filter P (readings s))) as Hs.
  { intros P HP. apply filter_sublist, sublist_delete. }
  split; unfold file_readings, live_readings in *; cbn.
  - etrans; [apply sublist_length, Hs|done].
  - etrans; [apply sublist_length, Hs|done].
  - eapply sublist_NoDup; [exact H3'|]. apply fmap_sublist, Hs.
  - auto.
  - intros t Ht. by apply H5', Hin.
Qed.

(** ** What a step does to the tickets *)

(** Whose file was answered. *)
Definition subject (a : access) : AllocationId :=
  match a with Gave sc _ | Showed sc _ _ | Dropped sc _ => s_allocation_id sc end.

(** Tickets and answers come only for allocations whose readers are not closed, and a release
    is final. *)
Record evolves (s s' : Reads) : Prop := {
  ev_readings : readings s' = readings s;
  ev_closing : closing s' = closing s;
  ev_instant : instant s' = instant s;
  ev_tickets : forall id t', tickets s' !! id = Some t' ->
    (exists t, tickets s !! id = Some t /\ t_scope t' = t_scope t /\ (t_released t = true -> t_released t' = true)) \/
    s_allocation_id (t_scope t') ∉ closing s;
  ev_answered : exists l, answered s' = l ++ answered s /\ Forall (fun e => subject e.2 ∉ closing s) l;
}.
Lemma evolves_mild s0 s s' : evolves s0 s -> mild s s' -> evolves s0 s'.
Proof.
  intros [Ha Hb Hc Hd Hl] [Ht Hi Hr Hcl Han _]. split; [congruence..| |by rewrite Han].
  intros id t' Hid. by apply Hd, Ht.
Qed.
Lemma evolves_refl s : evolves s s.
Proof. split; try done; [intros id t' Ht; left; by exists t'|by exists []]. Qed.
Lemma evolves_answer s0 s a : evolves s0 s -> subject a ∉ closing s0 -> evolves s0 (answer_ s a).
Proof.
  intros [Ha Hb Hc Hd (l & Hl & Hf)] Hs. split; try done. exists ((instant s, a) :: l). cbn. rewrite Hl.
  by split; [|constructor].
Qed.

(** A step from [s0] is at [s]. *)
Record at_ (s0 s : Reads) : Prop := { at_ok : reads_ok s; at_evolves : evolves s0 s }.
Lemma at_mild s0 s s' : at_ s0 s -> mild s s' -> at_ s0 s'.
Proof. intros [Ho He] Hm. split; [by eapply reads_mild|by eapply evolves_mild]. Qed.
Definition post {A} (s0 : Reads) (Q : A -> Reads -> Prop) (r : result Status A) (s : Reads) : Prop :=
  at_ s0 s /\ forall a, r = Ok a -> Q a s.
Lemma post_err {A} s0 (Q : A -> Reads -> Prop) e s : at_ s0 s -> post s0 Q (Err e) s.
Proof. by split. Qed.
Lemma post_ok {A} s0 (Q : A -> Reads -> Prop) a s : at_ s0 s -> Q a s -> post s0 Q (Ok a) s.
Proof. intros Ha HQ. split; [done|]. by intros ? [= <-]. Qed.
Lemma post_bind {A B} s0 (m : D A) (k : A -> D B) (Q0 : A -> Reads -> Prop) (Q : B -> Reads -> Prop) s :
  at_ s0 s -> mwp m Q0 s -> (forall a s', mild s s' -> at_ s0 s' -> Q0 a s' -> dwp (k a) (post s0 Q) s') ->
  dwp (m ≫= k) (post s0 Q) s.
Proof.
  intros Ha Hm Hk. eapply dwp_mild; [exact Hm| |].
  - intros a s' Hmi HQ0. apply Hk; [done|by eapply at_mild|done].
  - intros e s' Hmi. apply post_err. by eapply at_mild.
Qed.
Lemma post_mild {A} s0 (m : D A) (Q : A -> Reads -> Prop) s : at_ s0 s -> mwp m Q s -> dwp m (post s0 Q) s.
Proof.
  intros Ha Hm. eapply dwp_mwp; [exact Hm| |]; intros; [apply post_ok; [by eapply at_mild|done]|].
  apply post_err. by eapply at_mild.
Qed.

(** ** Reserving *)

Hypothesis fresh_ids : forall l t, l <> [] -> generated (l ++ t) <> generated t.

Lemma generated_unspent s : ~ spent s (generated (asked s)).
Proof. intros (l & t & Hne & Ha & Hg). rewrite Ha in Hg. by apply (fresh_ids l t). Qed.

Lemma allocation_insert a id t r : allocation_tickets a (<[id := t]> r) <=
  allocation_tickets a r + (if of_allocation a t then 1 else 0).
Proof.
  unfold allocation_tickets. destruct (of_allocation a t) eqn:Ha.
  - rewrite map_filter_insert_True by done. rewrite map_size_insert. destruct (_ !! id); unfold Datatypes.id; lia.
  - rewrite map_filter_insert_False by (cbn; congruence). rewrite Z.add_0_r.
    apply (shrunk_allocation a). intros i x Hx. by apply lookup_delete_Some in Hx as [_ Hx].
Qed.

(** A ticket that is written in the place of one, or in a new place. *)
Lemma tickets_insert s id t :
  tickets_ok s -> (size (<[id := t]> (tickets s)) <= 64)%nat ->
  (forall a, allocation_tickets a (<[id := t]> (tickets s)) <= MAX_ALLOCATION_DOWNLOADS) ->
  t_expires t <= instant s + TTL -> spent s id ->
  (forall h, t_handle t = Some h -> exists n0, (n0, Gave (t_scope t) h) ∈ answered s /\ t_expires t <= n0 + TTL) ->
  (forall n sc h, (n, Dropped sc h) ∈ answered s -> FileWire.parse_operation (h_id h) = Ok id -> t_released t = true) ->
  tickets_ok (set_tickets s (<[id := t]> (tickets s))).
Proof.
  intros [H1' H2' H3' H4' H5' H6' H7' H8'] Hsz Hal Hex Hsp Hgi Hdr. split; cbn; [|done| | | | |done|done].
  - unfold MAX_DOWNLOADS. lia.
  - intros i x [[<- <-]|[_ Hx]]%lookup_insert_Some; [done|by eapply H3'].
  - intros i x [[<- <-]|[_ Hx]]%lookup_insert_Some; [done|by eapply H4'].
  - intros i x h [[<- <-]|[_ Hx]]%lookup_insert_Some; [by apply Hgi|by eapply H5'].
  - intros n sc h Hd. destruct (H6' n sc h Hd) as (i & Hp & Hs & Hr). exists i. split_and!; [done|done|].
    intros x [[<- <-]|[_ Hx]]%lookup_insert_Some; [by eapply Hdr|by apply Hr].
Qed.

Definition new_ticket (sc : ReadScope) (c : Context) (path : string) (w i : Z) : Ticket := {|
  t_scope := sc; t_context := c; t_path := path; t_expires := i + TTL; t_expires_unix_ms := i64_saturating_add w TTL;
  t_handle := None; t_released := false
|}.
Lemma reserve_cases sc c path w i id r :
  ((reserve sc c path w i id r).1 = r \/ (reserve sc c path w i id r).1 = prune i r) /\
    (exists e, (reserve sc c path w i id r).2 = Err e) \/
  reserve sc c path w i id r = (<[id := new_ticket sc c path w i]> (prune i r), Ok id) /\
    Z.of_nat (size (prune i r)) < MAX_DOWNLOADS /\
    allocation_tickets (s_allocation_id sc) (prune i r) < MAX_ALLOCATION_DOWNLOADS.
Proof.
  unfold reserve, mbind, ST_bind, lift, modify, get, put, mret, ST_ret, or_invalid.
  destruct (scope_validate sc) as [[]|]; cbn; [|left; split; [by left|by eexists]].
  destruct (Files.validate_path path) as [[]|]; cbn; [|left; split; [by left|by eexists]].
  destruct (ensure _ invalid) as [[]|]; cbn; [|left; split; [by left|by eexists]].
  destruct (ensure _ _) as [[]|] eqn:He; cbn; [|left; split; [by right|by eexists]].
  apply ensure_ok in He. bools. by right.
Qed.

Lemma post_capture s0 s r sc c path w :
  at_ s0 s -> from_slice (cr_scope_json r) = Some sc -> s_allocation_id sc ∉ closing s -> worker_free (s_allocation_id sc) s ->
  (length (file_readings s) < READERS)%nat ->
  dwp (id ← on_host (on_system generate);
       id ← on_tickets (reserve sc c path w (instant s) id);
       mret (Capturing r sc c id))
    (post s0 (fun t s' => readings_ok (set_readings s' (readings s' ++ [t])))) s.
Proof.
  intros Ha Hj Hcl Hw Hlen. set (id := generated (asked s)).
  set (s1 := set_host s ((on_system generate (host s)).1)).
  assert (mild s s1) as Hm1 by (split; try done; by exists [GenerateId]).
  assert (spent s1 id) as Hsp by (exists [GenerateId], (asked s); done).
  assert (~ spent s id) as Hun by apply generated_unspent.
  pose proof (at_mild _ _ _ Ha Hm1) as [[Hto Hro] Hev].
  unfold dwp, mbind, ST_bind. change (on_host (on_system generate) s) with (s1, Ok id : result Status OperationId). cbn.
  unfold on_tickets. change (tickets s1) with (tickets s).
  destruct (reserve_cases sc c path w (instant s) id (tickets s)) as [[Hr [e He]]|(He & Hsz & Hal)].
  - destruct (reserve _ _ _ _ _ _ _) as [r' x]. cbn in Hr, He |- *. subst x. cbn. apply post_err.
    eapply at_mild; [exact (at_mild _ _ _ Ha Hm1)|]. destruct Hr as [-> | ->]; [exact (mild_same s1)|exact (mild_pruned s1 (instant s))].
  - rewrite He. cbn. set (new := new_ticket sc c path w (instant s)). set (r' := prune (instant s) (tickets s)) in *.
    set (s2 := set_tickets s1 r'). assert (mild s1 s2) as Hm2 by apply (mild_pruned s1 (instant s)).
    pose proof (tickets_mild _ _ Hm2 Hto) as Ht2.
    set (s3 := set_tickets s1 (<[id := new]> r')).
    assert (tickets_ok s3) as Ht3.
    { apply (tickets_insert s2 id new Ht2).
      - cbn. rewrite map_size_insert. unfold MAX_DOWNLOADS in Hsz. destruct (r' !! id); unfold Datatypes.id; lia.
      - intros a. pose proof (allocation_insert a id new r') as Hi. cbn. pose proof (to_allocation _ Ht2 a) as Hb. cbn in Hb.
        unfold of_allocation in Hi. cbn in Hi. destruct (bool_decide _) eqn:Hd; [|lia].
        apply bool_decide_eq_true in Hd as <-. lia.
      - cbn. lia.
      - done.
      - done.
      - intros n sc' h Hd Hp. exfalso. destruct (to_dropped _ (ro_tickets _ (at_ok _ _ Ha)) n sc' h Hd) as (i & Hp' & Hs & _).
        assert (i = id) as -> by congruence. done. }
    assert (readings_ok s3) as Hr3.
    { destruct Hro as [R1 R2 R3 R4 R5]. split; try done. intros t Ht. apply (reading_ok_mono s1 s3); [by exists []| |exact (R5 t Ht)].
      intros r0 sc0 c0 i0 t' -> Hs0 Hl. exists t'. split; [|done].
      assert (i0 <> id) as Hne.
      { intros ->. destruct (rd_readings _ (ro_readings _ (at_ok _ _ Ha)) _ Ht) as (_ & Hs' & _). done. }
      cbn in Hl. rewrite lookup_insert_ne in Hl by done. by apply prune_lookup in Hl as [Hl _]. }
    apply post_ok.
    + split; [by split|]. destruct Hev as [E1 E2 E3 E4 E5]. split; [done..| |done]. intros i t' Hl. cbn in Hl.
      apply lookup_insert_Some in Hl as [[<- <-]|[_ Hl]]; [right|].
      * cbn. pose proof (ev_closing _ _ (at_evolves _ _ Ha)) as <-. done.
      * apply E4. by apply prune_lookup in Hl as [Hl _].
    + apply (readings_add s3 (Capturing r sc c id) Hr3); cbn; [|done|done|done].
      split_and!; [done|by exists [GenerateId], (asked s)|]. intros t Hl. by rewrite lookup_insert_eq in Hl; injection Hl as <-.
Qed.
End invariant.
