(* ===== verification/ReadKeeps.v ===== *)
(** * Every step of a read keeps the invariant *)

From S2P Require Import Prelude Ext Ids GuestModel GuestWire Wire FileWire FileDownloads HostModel HostEnv HostOps.
From S2P Require Import HostReads ReadInv.
From S2P Require Guardian Command Files Output Runner.
Import Tickets LiveOutput.
Import Output(LiveOutputScope, l_owner).
Import Command(CommandRecord).
Import Runner(ReadOutput, OutputChunk).

Section keeps.
Context `{Env, UuidLib, Sha256, Serde ReadScope, Serde LiveOutputScope, Serde Execute}.
Context (config : Config).
Hypothesis fresh_ids : forall l t, l <> [] -> generated (l ++ t) <> generated t.

(** ** Answers *)

Lemma log_grow s a : tickets_ok s -> entry_ok (instant s) a (answered s) ->
  (forall sc h, a = Dropped sc h -> exists id, FileWire.parse_operation (h_id h) = Ok id /\ spent s id /\
     forall t, tickets s !! id = Some t -> t_released t = true) ->
  tickets_ok (answer_ s a).
Proof.
  intros [H1' H2' H3' H4' H5' H6' H7' H8'] He Hd. split; try done; cbn.
  - intros id t h Hl Hh. destruct (H5' id t h Hl Hh) as (n0 & Hn & Hx). exists n0. split; [by right|done].
  - intros n sc h [Hx|Hx]%elem_of_cons; [injection Hx as -> <-; by apply (Hd sc h)|by apply (H6' n sc h)].
  - intros n x [Hx|Hx]%elem_of_cons; [injection Hx as -> ->; lia|by eapply H7'].
Qed.
Lemma readings_answer s a : readings_ok s -> readings_ok (answer_ s a).
Proof.
  intros [R1 R2 R3 R4 R5]. by split.
Qed.

(** A ticket that is rewritten keeps its scope and context. *)
Lemma readings_rewrite s id t t0 : readings_ok s -> tickets s !! id = Some t0 -> t_scope t = t_scope t0 ->
  t_context t = t_context t0 -> readings_ok (set_tickets s (<[id := t]> (tickets s))).
Proof.
  intros [R1 R2 R3 R4 R5] Hl Hs Hc. split; try done. intros x Hx. apply (reading_ok_mono s); [by exists []| |by apply R5].
  intros r sc c i t' _ _ Hi. cbn in Hi. apply lookup_insert_Some in Hi as [[<- <-]|[_ Hi]]; [by exists t0|by exists t'].
Qed.
Lemma tickets_rewrite s id t t0 : tickets_ok s -> tickets s !! id = Some t0 -> t_scope t = t_scope t0 ->
  t_expires t = t_expires t0 -> (t_released t0 = true -> t_released t = true) ->
  (forall h, t_handle t = Some h -> t_handle t0 = Some h) ->
  tickets_ok (set_tickets s (<[id := t]> (tickets s))).
Proof.
  intros Ht Hl Hs Hx Hr Hh. apply tickets_insert; [done| | | | | |].
  - rewrite map_size_insert_Some by by eexists. pose proof (to_size _ Ht) as Hsz. unfold MAX_DOWNLOADS in Hsz. lia.
  - intros a. etrans; [|apply (to_allocation _ Ht a)]. unfold allocation_tickets.
    destruct (of_allocation a t) eqn:Ha.
    + rewrite map_filter_insert_True by done. rewrite map_size_insert_Some; [done|]. exists t0.
      apply map_lookup_filter_Some. split; [done|]. cbn. unfold of_allocation in *. by rewrite <- Hs.
    + rewrite map_filter_insert_False by (cbn; congruence). apply (shrunk_allocation a).
      intros i y Hy. by apply lookup_delete_Some in Hy as [_ Hy].
  - rewrite Hx. by apply (to_expires _ Ht id).
  - by apply (to_spent _ Ht id t0).
  - intros h Hth. rewrite Hs, Hx. by eapply (to_given _ Ht), Hh.
  - intros n sc h Hd Hp. apply Hr. destruct (to_dropped _ Ht n sc h Hd) as (i & Hp' & _ & Hrel).
    assert (i = id) as -> by congruence. by apply Hrel.
Qed.
Lemma evolves_rewrite s0 s id t t0 : evolves s0 s -> tickets s !! id = Some t0 -> t_scope t = t_scope t0 ->
  (t_released t0 = true -> t_released t = true) -> evolves s0 (set_tickets s (<[id := t]> (tickets s))).
Proof.
  intros [E1 E2 E3 E4 E5] Hl Hs Hr. split; [done..| |done]. intros i t' Hi. cbn in Hi. apply lookup_insert_Some in Hi as [[<- <-]|[_ Hi]]; [|by apply E4].
  destruct (E4 id t0 Hl) as [(t1 & Hl1 & Hs1 & Hr1)|Hn]; [left|right; by rewrite Hs].
  exists t1. split_and!; [done|congruence|auto].
Qed.

(** ** Finishing a capture *)

Definition handle_of (id : OperationId) (t : Ticket) (c : fw.FileCapture) : FileDownloadHandle := {|
  h_id := to_string id; h_context := Some (from_context (t_context t)); h_capture := Some c;
  h_expires_unix_ms := t_expires_unix_ms t
|}.
Lemma finish_cases id c n r :
  (finish id c n r).1 = prune n r /\ (exists e, (finish id c n r).2 = Err e) \/
  exists t, prune n r !! id = Some t /\ t_handle t = None /\ validate_capture c = Ok tt /\ fw.c_path c = t_path t /\
    finish id c n r = (<[id := set_handle t (handle_of id t c)]> (prune n r), Ok (handle_of id t c)).
Proof.
  unfold finish, mbind, ST_bind, lift, modify, get, put, mret, ST_ret, or_unavailable.
  destruct (prune n r !! id) as [t|] eqn:Ht; cbn; [|left; split; [done|by eexists]].
  destruct (validate_capture c) as [[]|]; cbn; [|left; split; [done|by eexists]].
  destruct (ensure _ _) as [[]|] eqn:He; cbn; [|left; split; [done|by eexists]].
  apply ensure_ok in He. bools. right. exists t. split_and!; [done|by destruct (t_handle t)|done|done|done].
Qed.
Lemma dwp_finish s0 s id cap sc c r {B} (k : FileDownloadHandle -> D B) (Q : B -> Reads -> Prop) :
  at_ s0 s -> s_allocation_id sc ∉ closing s0 -> reading_ok s (Capturing r sc c id) ->
  (forall t s', at_ s0 (answer_ s' (Gave sc (handle_of id t cap))) -> t_scope t = sc -> t_context t = c ->
     validate_capture cap = Ok tt -> fw.c_path cap = t_path t ->
     dwp (k (handle_of id t cap)) (post s0 Q) (answer_ s' (Gave sc (handle_of id t cap)))) ->
  dwp (h ← on_tickets (finish id cap (instant s)); _ ← modify (fun st => answer_ st (Gave sc h)); k h) (post s0 Q) s.
Proof.
  intros Ha Hcl (_ & Hsp & Hid) Hk. pose proof (mild_pruned s (instant s)) as Hm.
  pose proof (at_mild _ _ _ Ha Hm) as Ha1. unfold dwp, mbind, ST_bind, on_tickets.
  destruct (finish_cases id cap (instant s) (tickets s)) as [[Hr [e He]]|(t & Ht & Hh & Hv & Hp & He)].
  - destruct (finish _ _ _ _) as [r' x]. cbn in Hr, He |- *. subst. by apply post_err.
  - rewrite He. cbn. destruct (Hid t) as [Hs Hc]; [by apply prune_lookup in Ht as [Ht _]|].
    set (s1 := set_tickets s (prune (instant s) (tickets s))) in *.
    set (h := handle_of id t cap). destruct Ha1 as [[Hto Hro] Hev].
    refine (Hk t (set_tickets s (<[id := set_handle t h]> (prune (instant s) (tickets s)))) _ Hs Hc Hv Hp).
    split; [split|].
    + pose proof Hto as [T1 T2 T3 T4 T5 T6 T7 T8].
      assert (tickets_ok (answer_ s1 (Gave sc h))) as Hta by (apply log_grow; [done|done|by intros]).
      apply (tickets_insert (answer_ s1 (Gave sc h)) id (set_handle t h) Hta).
      * cbn. rewrite map_size_insert_Some by by eexists. unfold MAX_DOWNLOADS in T1. cbn in T1. lia.
      * intros a. cbn. etrans; [|apply (T2 a)]. unfold allocation_tickets. destruct (of_allocation a t) eqn:Hal.
        -- rewrite map_filter_insert_True by done. rewrite map_size_insert_Some; [done|]. exists t.
           by apply map_lookup_filter_Some.
        -- rewrite map_filter_insert_False by (cbn; unfold of_allocation in *; cbn; congruence). apply (shrunk_allocation a).
           intros i y Hy. by apply lookup_delete_Some in Hy as [_ Hy].
      * cbn. by apply (T3 id).
      * by apply (T4 id t).
      * intros h' [= <-]. exists (instant s). split; [rewrite <- Hs; by left|]. cbn. exact (T3 id t Ht).
      * intros n sc' h' [Hx|Hd]%elem_of_cons Hpo; [discriminate Hx|]. cbn.
        destruct (T6 n sc' h' Hd) as (i & Hp' & _ & Hrel). assert (i = id) as -> by congruence. by apply Hrel.
    + apply (readings_answer (set_tickets s1 (<[id := set_handle t h]> (tickets s1)))).
      by apply (readings_rewrite s1 id (set_handle t h) t).
    + apply (evolves_answer s0 (set_tickets s1 (<[id := set_handle t h]> (tickets s1)))); [|done].
      by apply (evolves_rewrite s0 s1 id (set_handle t h) t).
Qed.

(** ** Releasing a capture *)

Lemma released_cases sc h n r :
  (exists e, (Tickets.released sc h n r).2 = Err e) /\
    ((Tickets.released sc h n r).1 = r \/ (Tickets.released sc h n r).1 = prune n r) \/
  exists id t, FileWire.parse_operation (h_id h) = Ok id /\ prune n r !! id = Some t /\ t_scope t = sc /\
    t_handle t = Some h /\ Tickets.released sc h n r = (<[id := set_released t]> (prune n r), Ok tt).
Proof.
  unfold Tickets.released, Tickets.validate, mbind, ST_bind, lift, modify, get, put, mret, ST_ret, or_invalid.
  destruct (handle h sc) as [[]|]; cbn; [|left; split; [by eexists|by left]].
  destruct (FileWire.parse_operation (h_id h)) as [id|] eqn:Hid; cbn; [|left; split; [by eexists|by right]].
  destruct (prune n r !! id) as [t|] eqn:Ht; cbn; [|left; split; [by eexists|by right]].
  destruct (ensure _ _) as [[]|] eqn:He; cbn; [|left; split; [by eexists|by right]].
  apply ensure_ok in He. bools. right. exists id, t. rewrite Ht. by split_and!.
Qed.
Lemma dwp_released s0 s sc h {B} (k : D B) (Q : B -> Reads -> Prop) :
  at_ s0 s -> s_allocation_id sc ∉ closing s0 ->
  (forall s', at_ s0 (answer_ s' (Dropped sc h)) -> dwp k (post s0 Q) (answer_ s' (Dropped sc h))) ->
  dwp (_ ← on_tickets (Tickets.released sc h (instant s)); _ ← modify (fun st => answer_ st (Dropped sc h)); k)
    (post s0 Q) s.
Proof.
  intros Ha Hcl Hk. pose proof (mild_pruned s (instant s)) as Hm. pose proof (at_mild _ _ _ Ha Hm) as Ha1.
  unfold dwp, mbind, ST_bind, on_tickets.
  destruct (released_cases sc h (instant s) (tickets s)) as [[[e He] Hr]|(id & t & Hp & Ht & Hs & Hh & He)].
  - destruct (Tickets.released _ _ _ _) as [r' x]. cbn in Hr, He |- *. subst x. apply post_err.
    destruct Hr as [-> | ->]; [by eapply at_mild, mild_same|done].
  - rewrite He. cbn. set (s1 := set_tickets s (prune (instant s) (tickets s))) in *. destruct Ha1 as [[Hto Hro] Hev].
    refine (Hk (set_tickets s1 (<[id := set_released t]> (tickets s1))) _). split; [split|].
    + apply log_grow; [by apply (tickets_rewrite s1 id (set_released t) t)|done|]. intros sc' h' [= <- <-]. exists id.
      split_and!; [done|by apply (to_spent _ Hto id t)|]. intros t' Ht'. cbn in Ht'. rewrite lookup_insert_eq in Ht'.
      by injection Ht' as <-.
    + apply (readings_answer (set_tickets s1 (<[id := set_released t]> (tickets s1)))).
      by apply (readings_rewrite s1 id (set_released t) t).
    + apply (evolves_answer s0 (set_tickets s1 (<[id := set_released t]> (tickets s1)))); [|done].
      by apply (evolves_rewrite s0 s1 id (set_released t) t).
Qed.

(** ** Showing a chunk *)

Lemma at_showed s0 s id t sc h c :
  at_ s0 s -> s_allocation_id sc ∉ closing s0 -> FileWire.parse_operation (h_id h) = Ok id -> tickets s !! id = Some t -> t_scope t = sc -> t_handle t = Some h ->
  instant s < t_expires t -> t_released t = false -> at_ s0 (answer_ s (Showed sc h c)).
Proof.
  intros [[Hto Hro] Hev] Hcl Hp Ht Hs Hh Hx Hr. split; [split|].
  - apply log_grow; [done| |by intros]. destruct (to_given _ Hto id t h Ht Hh) as (n0 & Hn & Hle). split.
    + exists n0. rewrite <- Hs. split; [done|]. pose proof (to_past _ Hto _ _ Hn). lia.
    + intros n' Hd. destruct (to_dropped _ Hto n' sc h Hd) as (i & Hp' & _ & Hrel). assert (i = id) as -> by congruence.
      specialize (Hrel t Ht). congruence.
  - by apply readings_answer.
  - by apply evolves_answer.
Qed.

(** ** Beginnings *)

Definition begun (t : reading) (s : Reads) : Prop := readings_ok (set_readings s (readings s ++ [t])).
(** The allocation may be read, and no other file read of it waits. *)
Record free (a : AllocationId) (s : Reads) : Prop := { fr_open : unpinned a s; fr_worker : worker_free a s }.
Lemma free_mild a s s' : mild s s' -> free a s -> free a s'.
Proof.
  intros [_ _ Hr Hc _ _] [Ho Hw]. split; [unfold unpinned; by rewrite Hc|]. intros t. rewrite Hr. apply Hw.
Qed.
Lemma begun_file s t : readings_ok s -> reading_ok s t -> free (pinned t) s -> is_file t = true ->
  (length (file_readings s) < READERS)%nat -> begun t s.
Proof. intros Hr Ht [Ho Hw] Hf Hl. apply readings_add; [done|done|done|done|congruence]. Qed.
Lemma file_readings_mild s s' : mild s s' -> file_readings s' = file_readings s.
Proof. intros Hm. unfold file_readings. by rewrite (mi_readings _ _ Hm). Qed.

Lemma scope_json b e n sc : FileDownloads.scope b e n = Ok sc -> from_slice b = Some sc.
Proof. unfold FileDownloads.scope. intros Hs. by inv_ok. Qed.

(** One mild step of a read. *)
Ltac next Ha := eapply post_bind; [exact Ha| |].
(** The clock and the checks of a request after it. *)
Lemma post_recheck {A B} s0 s (f : Z -> result Status A) (k : D B) (Q : B -> Reads -> Prop) :
  at_ s0 s -> (forall s', mild s s' -> at_ s0 s' -> dwp k (post s0 Q) s') ->
  dwp (n ← wall; _ ← lift (f n); k) (post s0 Q) s.
Proof.
  intros Ha Hk. next Ha; [by apply (mwp_wall (fun _ _ => True))|]. intros n s1 Hm1 Ha1 _.
  next Ha1; [by apply (mwp_lift _ (fun _ _ => True))|]. intros x s2 Hm2 Ha2 _. apply Hk; [by eapply mild_trans|done].
Qed.
Lemma post_prepare s0 s sc {B} (k : Context -> D B) (Q : B -> Reads -> Prop) :
  at_ s0 s -> (forall c s', mild s s' -> at_ s0 s' -> free (s_allocation_id sc) s' -> dwp (k c) (post s0 Q) s') ->
  dwp (download_prepare config sc ≫= k) (post s0 Q) s.
Proof.
  intros Ha Hk. next Ha; [apply (mwp_prepare config sc (fun _ s' => free (s_allocation_id sc) s')); by intros; split|].
  intros c s1 Hm1 Ha1 Hf. by apply Hk.
Qed.

Lemma capture_begin_keeps s r : reads_ok s -> (length (file_readings s) < READERS)%nat ->
  dwp (capture_begin config r) (post s begun) s.
Proof.
  intros Ho Hlen. assert (at_ s s) as Ha by (split; [done|apply evolves_refl]). unfold capture_begin.
  next Ha; [by apply (mwp_wall (fun _ _ => True))|]. intros n s1 Hm1 Ha1 _.
  next Ha1; [by apply (mwp_lift _ (fun sc _ => or_invalid (capture_request r n) = Ok sc))|]. intros sc s2 Hm2 Ha2 Hreq.
  apply post_prepare; [done|]. intros c s3 Hm3 Ha3 Hf. apply post_recheck; [done|]. intros s4 Hm4 Ha4.
  next Ha4; [by apply (mwp_wall (fun _ _ => True))|]. intros w s5 Hm5 Ha5 _.
  next Ha5; [by apply (mwp_instant (fun i s' => i = instant s'))|]. intros i s6 Hm6 Ha6 ->.
  pose proof (mild_trans _ _ _ Hm4 (mild_trans _ _ _ Hm5 Hm6)) as Hm.
  pose proof (mild_trans _ _ _ Hm1 (mild_trans _ _ _ Hm2 (mild_trans _ _ _ Hm3 Hm))) as Hall.
  destruct (free_mild _ _ _ Hm Hf) as [Hop Hw]. apply post_capture; [done|done| |exact Hop|exact Hw|].
  - unfold or_invalid in Hreq. apply map_err_ok in Hreq. unfold capture_request in Hreq. inv_ok. by eapply scope_json.
  - by rewrite (file_readings_mild _ _ Hall).
Qed.

Lemma fetch_begin_keeps s r : reads_ok s -> (length (file_readings s) < READERS)%nat ->
  dwp (fetch_begin config r) (post s begun) s.
Proof.
  intros Ho Hlen. assert (at_ s s) as Ha by (split; [done|apply evolves_refl]). unfold fetch_begin.
  next Ha; [by apply (mwp_wall (fun _ _ => True))|]. intros n s1 Hm1 Ha1 _.
  next Ha1; [by apply (mwp_lift _ (fun sc _ => or_invalid (read_request r n) = Ok sc))|]. intros sc s2 Hm2 Ha2 Hreq.
  next Ha2; [by apply (mwp_lift _ (fun h _ => ok_or (dr_handle r) missing = Ok h))|]. intros h s3 Hm3 Ha3 Hh%ok_or_ok.
  next Ha3; [by apply (mwp_instant (fun i s' => i = instant s'))|]. intros i s4 Hm4 Ha4 ->.
  next Ha4; [by apply (mwp_validate sc h (fun _ _ => True))|]. intros gone s5 Hm5 Ha5 _.
  next Ha5; [by apply (mwp_lift _ (fun _ _ => True))|]. intros _ s6 Hm6 Ha6 _.
  next Ha6; [by apply (mwp_lift _ (fun _ _ => True))|]. intros ctx s7 Hm7 Ha7 _.
  apply post_prepare; [done|]. intros c s8 Hm8 Ha8 Hf.
  next Ha8; [by apply (mwp_lift _ (fun _ _ => True))|]. intros _ s9 Hm9 Ha9 _.
  apply post_recheck; [done|]. intros s10 Hm10 Ha10. apply post_ok; [done|].
  apply begun_file; [apply Ha10| |eapply free_mild, Hf; by eapply mild_trans|done|].
  - split; [|done]. unfold or_invalid in Hreq. apply map_err_ok in Hreq. unfold read_request in Hreq. inv_ok. by eapply scope_json.
  - rewrite (file_readings_mild s); [done|]. repeat (eapply mild_trans; [eassumption|]). apply mild_refl.
Qed.

Lemma release_begin_keeps s r : reads_ok s -> (length (file_readings s) < READERS)%nat ->
  dwp (release_begin config r) (post s begun) s.
Proof.
  intros Ho Hlen. assert (at_ s s) as Ha by (split; [done|apply evolves_refl]). unfold release_begin.
  next Ha; [by apply (mwp_wall (fun _ _ => True))|]. intros n s1 Hm1 Ha1 _.
  next Ha1; [by apply (mwp_lift _ (fun sc _ => or_invalid (release_request r n) = Ok sc))|]. intros sc s2 Hm2 Ha2 Hreq.
  next Ha2; [by apply (mwp_lift _ (fun h _ => ok_or (rr_handle r) missing = Ok h))|]. intros h s3 Hm3 Ha3 Hh%ok_or_ok.
  next Ha3; [by apply (mwp_instant (fun i s' => i = instant s'))|]. intros i s4 Hm4 Ha4 ->.
  next Ha4; [by apply (mwp_validate sc h (fun _ _ => True))|]. intros gone s5 Hm5 Ha5 _.
  next Ha5; [by apply (mwp_lift _ (fun _ _ => True))|]. intros ctx s6 Hm6 Ha6 _.
  apply post_prepare; [done|]. intros c s7 Hm7 Ha7 Hf.
  next Ha7; [by apply (mwp_lift _ (fun _ _ => True))|]. intros _ s8 Hm8 Ha8 _.
  apply post_recheck; [done|]. intros s9 Hm9 Ha9. apply post_ok; [done|].
  apply begun_file; [apply Ha9| |eapply free_mild, Hf; by eapply mild_trans|done|].
  - split; [|done]. unfold or_invalid in Hreq. apply map_err_ok in Hreq. unfold release_request in Hreq. inv_ok. by eapply scope_json.
  - rewrite (file_readings_mild s); [done|]. repeat (eapply mild_trans; [eassumption|]). apply mild_refl.
Qed.

Lemma worker_keeps s (m : D reading) :
  reads_ok s -> ((length (file_readings s) < READERS)%nat -> dwp m (post s begun) s) -> dwp (worker m) (post s begun) s.
Proof.
  intros Ho Hm. assert (at_ s s) as Ha by (split; [done|apply evolves_refl]). unfold worker.
  unfold dwp, mbind, ST_bind, get, lift. destruct (ensure _ _) as [[]|e] eqn:He; cbn.
  - apply Hm. apply ensure_ok, Nat.ltb_lt in He. exact He.
  - by apply post_err.
Qed.

Lemma live_begin_keeps s r : reads_ok s -> dwp (live_begin config r) (post s begun) s.
Proof.
  intros Ho. assert (at_ s s) as Ha by (split; [done|apply evolves_refl]). unfold live_begin.
  next Ha; [by apply (mwp_get (fun st _ => readings st = readings s))|]. intros st s1 Hm1 Ha1 Hst.
  next Ha1; [apply (mwp_lift _ (fun _ _ => length (live_readings s) < READERS)%nat)|].
  { intros [] He%ensure_ok%Nat.ltb_lt. by rewrite Hst in He. }
  intros [] s2 Hm2 Ha2 Hlen.
  next Ha2; [by apply (mwp_wall (fun _ _ => True))|]. intros n s3 Hm3 Ha3 _.
  next Ha3; [by apply (mwp_lift _ (fun _ _ => True))|]. intros [sc read] s4 Hm4 Ha4 _.
  next Ha4; [apply (mwp_live_record config sc (fun _ s' => unpinned (Output.allocation_id (l_owner sc)) s')); by intros|].
  intros [command m] s5 Hm5 Ha5 Hop.
  next Ha5; [apply (mwp_on_host _ (fun _ _ => True)); [apply asks_guest_client|done]|]. intros client s6 Hm6 Ha6 _.
  next Ha6; [by apply (mwp_lift _ (fun _ _ => True))|]. intros c s7 Hm7 Ha7 _.
  next Ha7; [by apply (mwp_lift _ (fun _ _ => True))|]. intros bound s8 Hm8 Ha8 _.
  next Ha8; [by apply (mwp_lift _ (fun _ _ => True))|]. intros _ s9 Hm9 Ha9 _.
  apply post_recheck; [done|]. intros s10 Hm10 Ha10. apply post_ok; [done|].
  assert (mild s5 s10) as Hm by (repeat (eapply mild_trans; [eassumption|]); apply mild_refl).
  assert (mild s s10) as Hall by (repeat (eapply mild_trans; [eassumption|]); apply mild_refl).
  apply readings_add; [apply Ha10|done| |done|].
  - unfold unpinned in Hop. cbn. by rewrite (mi_closing _ _ Hm).
  - intros _. cbn. unfold live_readings. rewrite (mi_readings _ _ Hall). exact Hlen.
Qed.

(** ** Ends *)

Definition anything {A} (_ : A) (_ : Reads) : Prop := True.
Lemma post_observation s0 s b x : at_ s0 s -> dwp (access_observation b x) (post s0 anything) s.
Proof.
  intros Ha. apply post_mild; [done|]. unfold access_observation. apply mwp_bind, mwp_wall. intros n h. by apply mwp_ret.
Qed.

Lemma capture_end_keeps s r sc c id reply : reads_ok s -> s_allocation_id sc ∉ closing s -> reading_ok s (Capturing r sc c id) ->
  dwp (capture_end config r sc c id reply) (post s anything) s.
Proof.
  intros Ho Hcl Hr. assert (at_ s s) as Ha by (split; [done|apply evolves_refl]). unfold capture_end.
  next Ha; [by apply (mwp_lift _ (fun _ _ => True))|]. intros cap s1 Hm1 Ha1 _.
  next Ha1; [by apply (mwp_current config sc c (fun _ _ => True))|]. intros _ s2 Hm2 Ha2 _.
  apply post_recheck; [done|]. intros s3 Hm3 Ha3.
  next Ha3; [by apply (mwp_instant (fun i s' => i = instant s'))|]. intros i s4 Hm4 Ha4 ->.
  assert (mild s s4) as Hm by (repeat (eapply mild_trans; [eassumption|]); apply mild_refl).
  apply (dwp_finish s s4 id cap sc c r (fun h => access_observation (cr_scope_json r) (Captured h))); [done|done| |].
  - apply (reading_ok_mono s s4); [apply Hm| |done]. intros r0 sc0 c0 i0 t' _ _ Hl. exists t'. by split; [apply Hm|].
  - intros t s' Ha' _ _ _ _. by apply post_observation.
Qed.
Lemma fetch_end_keeps s r sc c h reply : reads_ok s -> s_allocation_id sc ∉ closing s ->
  dwp (fetch_end config r sc c h reply) (post s anything) s.
Proof.
  intros Ho Hcl. assert (at_ s s) as Ha by (split; [done|apply evolves_refl]). unfold fetch_end.
  next Ha; [by apply (mwp_lift _ (fun _ _ => True))|]. intros cap s1 Hm1 Ha1 _.
  next Ha1; [by apply (mwp_lift _ (fun _ _ => True))|]. intros chunk s2 Hm2 Ha2 _.
  next Ha2; [by apply (mwp_current config sc c (fun _ _ => True))|]. intros _ s3 Hm3 Ha3 _.
  apply post_recheck; [done|]. intros s4 Hm4 Ha4.
  next Ha4; [by apply (mwp_instant (fun i s' => i = instant s'))|]. intros i s5 Hm5 Ha5 ->.
  next Ha5; [apply (mwp_validate sc h (fun gone s' => exists id t, FileWire.parse_operation (h_id h) = Ok id /\
      tickets s' !! id = Some t /\ t_scope t = sc /\ t_handle t = Some h /\ instant s5 < t_expires t /\ t_released t = gone))|].
  { intros id t s' Hs' _ Hp Ht Hsc Hh. exists id, t. split_and!; try done. rewrite Hs' in Ht. by apply prune_lookup in Ht as [_ Hx]. }
  intros gone s6 Hm6 Ha6 (id & t & Hp & Ht & Hsc & Hh & Hx & Hg). rewrite <- (mi_instant _ _ Hm6) in Hx.
  next Ha6; [apply (mwp_lift _ (fun _ s' => gone = false /\ s' = s6))|].
  { intros [] He%ensure_ok. by apply negb_true_iff in He. }
  intros _ s7 Hm7 Ha7 [-> ->]. apply dwp_modify, post_observation. by eapply at_showed.
Qed.
Lemma release_end_keeps s r sc c h already reply : reads_ok s -> s_allocation_id sc ∉ closing s ->
  dwp (release_end config r sc c h already reply) (post s anything) s.
Proof.
  intros Ho Hcl. assert (at_ s s) as Ha by (split; [done|apply evolves_refl]). unfold release_end.
  next Ha; [instantiate (1 := anything)|].
  { destruct already; [by apply mwp_ret|]. apply mwp_bind, mwp_lift. intros cap _. by apply mwp_lift. }
  intros _ s1 Hm1 Ha1 _.
  next Ha1; [by apply (mwp_current config sc c anything)|]. intros _ s2 Hm2 Ha2 _.
  apply post_recheck; [done|]. intros s3 Hm3 Ha3.
  next Ha3; [by apply (mwp_instant (fun i s' => i = instant s'))|]. intros i s4 Hm4 Ha4 ->.
  apply (dwp_released s s4 sc h); [done|done|]. intros s' Ha'. by apply post_observation.
Qed.
Lemma live_end_keeps s r sc read c command reply : reads_ok s ->
  dwp (live_end config r sc read c command reply) (post s anything) s.
Proof.
  intros Ho. apply post_mild; [split; [done|apply evolves_refl]|]. unfold live_end.
  apply mwp_bind, mwp_lift. intros chunk _. apply mwp_bind, mwp_on_host; [apply asks_inspect|]. intros rc h1 _.
  apply mwp_bind, mwp_lift. intros receipt _. apply mwp_bind, mwp_lift. intros [] _.
  apply mwp_bind, mwp_live_record. intros [current m] h2 _. apply mwp_bind, mwp_lift. intros [] _.
  apply mwp_bind, mwp_wall. intros n h3. by apply mwp_lift.
Qed.
End keeps.

(** ** Reads as steps, and what closing the readers of an allocation leaves *)

(** No capture of the allocation is under way or held. *)
Definition drained (a : AllocationId) (s : Reads) : Prop :=
  forall id t, tickets s !! id = Some t -> s_allocation_id (t_scope t) = a -> t_released t = true.
(** What the steps from [s] to [s'] leave, for an allocation whose readers are closed. *)
Record hushed (a : AllocationId) (s s' : Reads) : Prop := {
  hu_closing : a ∈ closing s';
  hu_answered : exists l, answered s' = l ++ answered s /\ Forall (fun e => subject e.2 <> a) l;
  hu_drained : drained a s -> drained a s';
}.
Lemma hushed_same a s s' : a ∈ closing s' -> tickets s' = tickets s -> answered s' = answered s -> hushed a s s'.
Proof. intros Hin Ht Ha. split; [done|by exists []|]. unfold drained. by rewrite Ht. Qed.
Lemma hushed_trans a s1 s2 s3 : hushed a s1 s2 -> hushed a s2 s3 -> hushed a s1 s3.
Proof.
  intros [_ (l & Hl & Hf) Hd] [Hc (l' & Hl' & Hf') Hd']. split; [done| |auto]. exists (l' ++ l).
  rewrite Hl', Hl, app_assoc. split; [done|by apply Forall_app].
Qed.

Section steps.
Context `{Env, UuidLib, Sha256, Serde ReadScope, Serde LiveOutputScope, Serde Execute}.
Context (config : Config).
Hypothesis fresh_ids : forall l t, l <> [] -> generated (l ++ t) <> generated t.
#[local] Abbreviation step := (step config).

Lemma hushed_evolves a s s' : evolves s s' -> a ∈ closing s -> hushed a s s'.
Proof.
  intros [_ Hc _ Ht (l & Hl & Hf)] Hin. split; [by rewrite Hc| |].
  - exists l. split; [done|]. eapply Forall_impl; [exact Hf|]. intros x Hx He. apply Hx. by rewrite He.
  - intros Hr id t' Hl' Ha. destruct (Ht id t' Hl') as [(t & Hl0 & Hs & Hrel)|Hn]; [|by rewrite Ha in Hn].
    apply Hrel. apply (Hr id t Hl0). congruence.
Qed.

(** A beginning either leaves the reads as they are or adds one. *)
Lemma begin_cases (m : D reading) s : dwp m (post s begun) s ->
  reads_ok (begin_ m s).1 /\ forall a, a ∈ closing s -> hushed a s (begin_ m s).1.
Proof.
  unfold dwp, begin_. destruct (m s) as [s' [t|e]]; cbn; intros [[Ho Hev] Hp].
  - specialize (Hp t eq_refl). split; [split; [by destruct Ho as [[] _]|done]|].
    intros a Hin. pose proof (hushed_evolves a _ _ Hev Hin) as Hh. eapply hushed_trans; [exact Hh|].
    apply hushed_same; [apply Hh|done|done].
  - split; [done|]. intros a. by apply hushed_evolves.
Qed.

Lemma finish_keeps t reply s : reads_ok s -> t ∈ readings s ->
  dwp (finish_reading config t reply) (fun _ s' => at_ s s') s.
Proof.
  intros Ho Hin. pose proof (rd_readings _ (ro_readings _ Ho) t Hin) as Ht.
  pose proof (rd_open _ (ro_readings _ Ho) t Hin) as Hcl.
  assert (at_ s s) as Ha by (split; [done|apply evolves_refl]).
  destruct t as [r sc c id|r sc c h|r sc c h already|r sc read c command], reply; try exact Ha.
  - pose proof (capture_end_keeps config s r sc c id c0 Ho Hcl Ht) as Hp. revert Hp. unfold dwp. cbn.
    destruct (capture_end _ _ _ _ _ _ s). by intros [].
  - pose proof (fetch_end_keeps config s r sc c h c0 Ho Hcl) as Hp. revert Hp. unfold dwp. cbn.
    destruct (fetch_end _ _ _ _ _ _ s). by intros [].
  - pose proof (release_end_keeps config s r sc c h already h0 Ho Hcl) as Hp. revert Hp. unfold dwp. cbn.
    destruct (release_end _ _ _ _ _ _ _ s). by intros [].
  - pose proof (live_end_keeps config s r sc read c command c0 Ho) as Hp. revert Hp. unfold dwp. cbn.
    destruct (live_end _ _ _ _ _ _ _ s). by intros [].
Qed.

Lemma delete_keeps i s : reads_ok s -> reads_ok (set_readings s (delete i (readings s))).
Proof. intros [Ht Hr]. split; [by destruct Ht|by apply readings_delete]. Qed.
Lemma tick_keeps n s : reads_ok s -> reads_ok (set_instant s (instant s + Z.of_N n)).
Proof.
  intros [[T1 T2 T3 T4 T5 T6 T7 T8] Hr]. split; [|by destruct Hr]. split; try done; cbn.
  - intros id t Ht. specialize (T3 id t Ht). lia.
  - intros k x Hx. specialize (T7 k x Hx). lia.
Qed.
Lemma closing_keeps c s : reads_ok s -> (forall t, t ∈ readings s -> pinned t ∉ c) -> reads_ok (set_closing s c).
Proof. intros [Ht [R1 R2 R3 R4 R5]] Hc. split; [by destruct Ht|by split]. Qed.

Lemma pending_run a s : exists b,
  @pending_allocation Status a (instant s) (tickets s) = (prune (instant s) (tickets s), Ok b) /\
  (b = false -> forall id t, prune (instant s) (tickets s) !! id = Some t -> s_allocation_id (t_scope t) = a ->
     t_released t = true).
Proof.
  unfold pending_allocation, mbind, ST_bind, modify, get, mret, ST_ret. eexists. split; [reflexivity|].
  intros Hb id t Hl Ha. apply not_false_iff_true. intros Hr. revert Hb. apply not_false_iff_true, existsb_exists.
  exists (id, t). split; [by apply list_elem_of_In, elem_of_map_to_list|]. cbn. unfold of_allocation.
  by rewrite bool_decide_eq_true_2, Hr.
Qed.

Lemma step_keeps e s : reads_ok s ->
  reads_ok (step e s).1 /\ forall a, e <> EOpen a -> a ∈ closing s -> hushed a s (step e s).1.
Proof.
  intros Ho. destruct e as [r|r|r|r|i reply|i|n|a|a|a|j w w' l]; cbn [HostReads.step].
  - pose proof (begin_cases _ s (worker_keeps s _ Ho (capture_begin_keeps config fresh_ids s r Ho))) as [Hk Hq].
    destruct (begin_ _ _). split; [exact Hk|auto].
  - pose proof (begin_cases _ s (worker_keeps s _ Ho (fetch_begin_keeps config s r Ho))) as [Hk Hq].
    destruct (begin_ _ _). split; [exact Hk|auto].
  - pose proof (begin_cases _ s (worker_keeps s _ Ho (release_begin_keeps config s r Ho))) as [Hk Hq].
    destruct (begin_ _ _). split; [exact Hk|auto].
  - pose proof (begin_cases _ s (live_begin_keeps config s r Ho)) as [Hk Hq].
    destruct (begin_ _ _). split; [exact Hk|auto].
  - assert (forall a, a ∈ closing s -> hushed a s s) as Hsame by (intros a Hin; by apply hushed_same).
    destruct (readings s !! i) as [t|] eqn:Hi; [|by split; auto]. destruct (matches_reply t reply); [|by split; auto].
    pose proof (finish_keeps t reply s Ho (list_elem_of_lookup_2 _ _ _ Hi)) as Hf. unfold dwp in Hf.
    destruct (finish_reading _ _ _ s) as [s' r]. cbn in *. destruct Hf as [Ho' Hev]. split; [by apply delete_keeps|].
    intros a _ Hin. pose proof (hushed_evolves a _ _ Hev Hin) as Hh. eapply hushed_trans; [exact Hh|].
    apply hushed_same; [apply Hh|done|done].
  - split; [by apply delete_keeps|]. intros a _ Hin. by apply hushed_same.
  - split; [by apply tick_keeps|]. intros a _ Hin. by apply hushed_same.
  - destruct (_ || _) eqn:Hb; [split; [done|]; intros a' _ Hin; by apply hushed_same|].
    apply orb_false_iff in Hb as [_ Hb]. split; cbn.
    + apply closing_keeps; [done|]. intros t Ht [Hin%elem_of_singleton|Hin]%elem_of_union.
      * revert Hb. apply not_false_iff_true, existsb_exists. exists t. split; [by apply list_elem_of_In|].
        by apply bool_decide_eq_true_2.
      * by apply (rd_open _ (ro_readings _ Ho) t).
    + intros a' _ Hin. apply hushed_same; [cbn; set_solver|done|done].
  - split; cbn.
    + apply closing_keeps; [done|]. intros t Ht [Hin _]%elem_of_difference. by apply (rd_open _ (ro_readings _ Ho) t).
    + intros a' Hne Hin. apply hushed_same; [|done|done]. cbn. set_unfold. split; [done|congruence].
  - destruct (pending_run a s) as (b & Hp & _). rewrite Hp. cbn. pose proof (mild_pruned s (instant s)) as Hm. split.
    + by eapply reads_mild.
    + intros a' _. apply hushed_evolves. eapply evolves_mild; [apply evolves_refl|done].
  - assert (mild s (set_host s {| journal := j; system := {| state_dir := w; launch_dir := w';
                                     trace := l ++ trace (system (host s)) |} |})) as Hm by (split; try done; by exists l).
    split; [by eapply reads_mild|]. intros a _ Hin. by apply hushed_same.
Qed.

(** ** Runs *)

(** Where it starts. *)
Record idle (s : Reads) : Prop := {
  id_tickets : tickets s = ∅; id_readings : readings s = []; id_answered : answered s = [];
}.
Lemma idle_ok s : idle s -> reads_ok s.
Proof.
  intros [Ht Hr Ha].
  split; split; unfold file_readings, live_readings, allocation_tickets; rewrite ?Ht, ?Hr, ?Ha; cbn; try done.
  - intros n sc h Hin. by apply not_elem_of_nil in Hin.
  - intros n a Hin. by apply not_elem_of_nil in Hin.
  - unfold READERS. lia.
  - unfold READERS. lia.
  - constructor.
  - intros t Hin. by apply not_elem_of_nil in Hin.
  - intros t Hin. by apply not_elem_of_nil in Hin.
Qed.
Lemma runs_app es1 es2 s : runs config (es1 ++ es2) s = runs config es2 (runs config es1 s).
Proof. apply foldl_app. Qed.
Lemma reads_keep es s : reads_ok s -> reads_ok (runs config es s).
Proof. revert s. induction es as [|e es IH]; [done|]. intros s Ho. cbn. by apply IH, step_keeps. Qed.
Lemma runs_hushed a es s : reads_ok s -> EOpen a ∉ es -> a ∈ closing s -> hushed a s (runs config es s).
Proof.
  revert s. induction es as [|e es IH]; intros s Ho Hno Hin; [by apply hushed_same|]. cbn.
  apply not_elem_of_cons in Hno as [Hne Hno]. destruct (step_keeps e s Ho) as [Ho' Hh].
  specialize (Hh a (fun He => Hne (eq_sym He)) Hin). eapply hushed_trans; [exact Hh|].
  apply IH; [done|done|apply Hh].
Qed.
End steps.
