(* ===== verification/ReadTheorems.v ===== *)
(** * Theorems about readers

    Any number of requests of readers, answers of the guest to them, elapsed time, closings by
    retirements and other work of the host, in any order. *)

From S2P Require Import Prelude Ext Ids GuestModel GuestWire Wire FileWire FileDownloads HostModel HostEnv HostOps.
From S2P Require Import HostReads ReadInv ReadKeeps.
From S2P Require Guardian Command Files Output Runner.
From S2P Require GuestEnv RunnerLaws FileTheorems.
Import Tickets LiveOutput.
Import Output(LiveOutputScope, l_owner).

Section theorems.
Context `{Env, UuidLib, Sha256, Serde ReadScope, Serde LiveOutputScope, Serde Execute}.
Context (config : Config).
(** An identifier is generated once. *)
Hypothesis fresh_ids : forall l t, l <> [] -> generated (l ++ t) <> generated t.

(** C13. Every chunk of a file that a reader is given is of a capture that was answered to the
    same reader less than a minute before, by the host's monotonic clock, and whose release was
    not answered since: over any requests, answers of guests, timeouts and closings, no reader
    sees the capture of another one, an expired or a released one. *)
Theorem chunks_are_of_own_captures (s : Reads) (es : list event) l2 n sc h c l1 :
  idle s -> answered (runs config es s) = l2 ++ (n, Showed sc h c) :: l1 ->
  (exists n0, (n0, Gave sc h) ∈ l1 /\ n0 <= n < n0 + TTL) /\ forall n', (n', Dropped sc h) ∉ l1.
Proof.
  intros Hs Hl. pose proof (reads_keep config fresh_ids es s (idle_ok s Hs)) as [Ht _].
  pose proof (to_log _ Ht) as Hlog. rewrite Hl in Hlog. by apply log_ok_at in Hlog.
Qed.

(** C17. A host holds at most 64 capture tickets, at most eight of one allocation, none for
    longer than a minute; at most four file reads and four reads of live output wait for a
    guest, of one allocation at most one of a file. *)
Theorem reads_bounded (s : Reads) (es : list event) :
  idle s -> let s' := runs config es s in
  Z.of_nat (size (tickets s')) <= MAX_DOWNLOADS /\
  (forall a, allocation_tickets a (tickets s') <= MAX_ALLOCATION_DOWNLOADS) /\
  (forall id t, tickets s' !! id = Some t -> t_expires t <= instant s' + TTL) /\
  (length (file_readings s') <= READERS)%nat /\ (length (live_readings s') <= READERS)%nat /\
  NoDup (pinned <$> file_readings s').
Proof.
  intros Hs s'. destruct (reads_keep config fresh_ids es s (idle_ok s Hs)) as [[] []]. by split_and!.
Qed.

(** C14. Once a retirement has closed the readers of an allocation, and until it opens them
    again, no read of it waits and nothing of it is answered, whatever readers and guests do;
    and once no capture is pending, every ticket of it is a released one, for good. *)
Theorem closed_readers_stay_out (s : Reads) (a : AllocationId) (es1 es2 es3 : list event) :
  let s1 := runs config es1 s in
  let s2 := runs config es2 (step config (EClose a) s1).1 in
  let s3 := runs config es3 (step config (EPending a) s2).1 in
  idle s -> (step config (EClose a) s1).2 = ABool true -> EOpen a ∉ es2 -> EOpen a ∉ es3 ->
  (forall t, t ∈ readings s2 -> pinned t <> a) /\
  (exists l, answered s2 = l ++ answered s1 /\ Forall (fun e => subject e.2 <> a) l) /\
  ((step config (EPending a) s2).2 = ABool false -> drained a s3).
Proof.
  intros s1 s2 s3 Hs Hc H2' H3'. pose proof (reads_keep config fresh_ids es1 s (idle_ok s Hs) : reads_ok s1) as Ho1.
  set (s1' := (step config (EClose a) s1).1) in *. pose proof (step_keeps config fresh_ids (EClose a) s1 Ho1) as [Ho1' _].
  assert (a ∈ closing s1' /\ answered s1' = answered s1) as [Hin Han].
  { subst s1'. cbn in Hc |- *. destruct (_ || _); [discriminate Hc|]. split; cbn; [set_solver|done]. }
  pose proof (reads_keep config fresh_ids es2 s1' Ho1' : reads_ok s2) as Ho2.
  pose proof (runs_hushed config fresh_ids a es2 s1' Ho1' H2' Hin : hushed a s1' s2) as Hh.
  split_and!.
  - intros t Ht <-. by apply (rd_open _ (ro_readings _ Ho2) t), (hu_closing _ _ _ Hh).
  - rewrite <- Han. apply Hh.
  - intros Hp. pose proof (step_keeps config fresh_ids (EPending a) s2 Ho2) as [Ho2' Hq].
    destruct (Hq a ltac:(discriminate) (hu_closing _ _ _ Hh)) as [Hc2 _ _].
    refine (hu_drained _ _ _ (runs_hushed config fresh_ids a es3 _ Ho2' H3' Hc2) _).
    destruct (pending_run a s2) as (b & Hrun & Hd). cbn in Hp |- *. rewrite Hrun in Hp |- *.
    injection Hp as ->. exact (Hd eq_refl).
Qed.

(** ** What a reader believes *)

Lemma fetch_answer r sc c h reply s s' o :
  fetch_end config r sc c h reply s = (s', Ok o) -> exists capture chunk n,
    h_capture h = Some capture /\ client_read capture (dr_offset r) (dr_limit r) reply = Ok chunk /\
    o = {| ao_scope_json := dr_scope_json r; ao_simulated := false; ao_observed_unix_ms := n;
           ao_result := Some (Chunk chunk) |}.
Proof.
  unfold fetch_end, handle_capture, or_unavailable, access_observation. intros Hf. inv_st.
  repeat match goal with Hx : map_err _ _ = Ok _ |- _ => apply map_err_ok in Hx end.
  repeat match goal with Hx : ok_or _ _ = Ok _ |- _ => apply ok_or_ok in Hx end. subst. eauto 10.
Qed.
Lemma release_answer r sc c h already reply s s' o :
  release_end config r sc c h already reply s = (s', Ok o) -> exists n,
    o = {| ao_scope_json := rr_scope_json r; ao_simulated := false; ao_observed_unix_ms := n;
           ao_result := Some (Released h) |}.
Proof. unfold release_end, access_observation. intros Hf. inv_st. subst. eauto. Qed.
Lemma observed_passes b x n now : 0 < n -> abs_diff n now <= 10000 ->
  FileDownloads.observation b {| ao_scope_json := b; ao_simulated := false; ao_observed_unix_ms := n; ao_result := x |} false now
  = Ok tt.
Proof.
  intros Hn Hd. unfold FileDownloads.observation. cbn. apply ensure_ok. rewrite bool_decide_eq_true_2 by done.
  apply Z.ltb_lt in Hn as ->. by apply Z.leb_le in Hd as ->.
Qed.
Lemma client_read_passes capture r reply chunk o now :
  client_read capture (dr_offset r) (dr_limit r) reply = Ok chunk ->
  is_ok (read_request r now) = true -> (h ← dr_handle r; h_capture h) = Some capture ->
  FileDownloads.observation (dr_scope_json r) o false now = Ok tt -> ao_result o = Some (Chunk chunk) ->
  FileDownloads.chunk r o false now = Ok chunk.
Proof.
  unfold client_read, FileDownloads.chunk. intros Hc Hr Hh Ho Hx.
  destruct (read_request r now); [|done]. rewrite Ho, Hx. cbn. rewrite Hh. cbn.
  destruct (FileWire.handle capture) as [fh|]; [|done]. cbn in *. inv_ok.
  match goal with Hn : u64_checked_add _ _ = Some ?n |- _ =>
    assert (n = dr_offset r + Z.min (fw.c_size capture - dr_offset r) (dr_limit r)) as ->
      by (unfold u64_checked_add in Hn; destruct (in_u64 _); congruence) end.
  match goal with |- context [ensure ?c _] => assert (c = true) as -> by done end. done.
Qed.

(** C15. Whatever the host answers to a read of a capture or to its release passes the
    reader's own check of it, at any time at which the request is still valid and by a clock
    at most ten seconds off. *)
Theorem read_answers_pass (s : Reads) (es : list event) (i : nat) (a : reply) t o now :
  let s1 := runs config es s in
  idle s -> readings s1 !! i = Some t -> (step config (EReply i a) s1).2 = AFile (Ok o) ->
  0 < ao_observed_unix_ms o -> abs_diff (ao_observed_unix_ms o) now <= 10000 ->
  match t with
  | Fetching r _ _ _ => is_ok (read_request r now) = true -> exists c,
      ao_result o = Some (Chunk c) /\ FileDownloads.chunk r o false now = Ok c
  | Releasing r _ _ _ _ => is_ok (release_request r now) = true -> FileDownloads.released r o false now = Ok tt
  | _ => True
  end.
Proof.
  intros s1 Hs Ht Ha Hn Hd. destruct (reads_keep config fresh_ids es s (idle_ok s Hs)) as [_ Hro].
  pose proof (rd_readings _ Hro t (list_elem_of_lookup_2 _ _ _ Ht)) as Hok.
  cbn [HostReads.step] in Ha. rewrite Ht in Ha. destruct (matches_reply t a) eqn:Hm; [|discriminate Ha].
  destruct t as [|r sc c h|r sc c h already|]; [done| | |done]; destruct Hok as [_ Hh]; intros Hr; destruct a; try done;
    cbn [finish_reading] in Ha.
  - destruct (fetch_end _ _ _ _ _ _ _) as [s' [o'|e]] eqn:Hf; cbn in Ha; [|discriminate Ha]. injection Ha as ->.
    destruct (fetch_answer _ _ _ _ _ _ _ _ Hf) as (capture & chunk & n & Hcap & Hread & ->). exists chunk. split; [done|].
    eapply client_read_passes; [exact Hread|done|by rewrite Hh|by apply observed_passes|done].
  - destruct (release_end _ _ _ _ _ _ _ _) as [s' [o'|e]] eqn:Hf; cbn in Ha; [|discriminate Ha]. injection Ha as ->.
    destruct (release_answer _ _ _ _ _ _ _ _ _ Hf) as (n & ->). unfold FileDownloads.released.
    destruct (release_request r now); [|done]. cbn. rewrite observed_passes by done. cbn.
    apply ensure_ok, bool_decide_eq_true. by rewrite Hh.
Qed.
End theorems.

(** ** Live output from the agent to the reader

    The chunk that an agent's [Runner::output] gives, as the host's client and the checks of
    live_output.rs take it. *)

Module Live.
Import GuestEnv Runner FileTheorems.Chunks RunnerLaws.
Import Output(LiveOutputScope, l_owner).
Import Command(CommandRecord).

(** A later receipt of the same command: its output only grows, and stays once resolved. *)
Record later (r r' : Receipt) : Prop := {
  la_stdout : stored (r_stdout r) <= stored (r_stdout r');
  la_stderr : stored (r_stderr r) <= stored (r_stderr r');
  la_resolved : resolved r = true -> r' = r;
}.
Definition kept_of (stdout : bool) (r : Receipt) : Z := stored (if stdout then r_stdout r else r_stderr r).
Lemma later_kept stdout r r' : later r r' -> kept_of stdout r <= kept_of stdout r'.
Proof. intros []. by destruct stdout. Qed.

Section live.
Context `{GuestEnv, UuidLaws}.
(** [read_at] gives no bytes only when there are none. *)
Hypothesis reads_some : forall t n, (0 < n)%nat -> (0 < read_count t n)%nat.

Lemma kept_bounded stdout command id r : 0 <= stored (r_stdout r) -> 0 <= stored (r_stderr r) ->
  Command.validate_receipt command id r = Ok tt -> kept_of stdout r <= GuestModel.MAX_OUTPUT.
Proof.
  intros Ho He. unfold Command.validate_receipt. intros Hv. inv_ok.
  match goal with Hp : receipt_validate _ = Ok _ |- _ => apply receipt_validate_parts in Hp as [_ Hl Hs _ _ _] end.
  unfold stats_ok, contains, kept_of, u64_checked_add in *. bools.
  destruct (in_u64 _); [|done]. cbn in *. destruct stdout; lia.
Qed.

(** What a chunk of output is, of what the receipt keeps. *)
Record chunk_of (q : ReadOutput) (kept : Z) (done : bool) (c : OutputChunk) : Prop := {
  co_operation : k_operation_id c = o_operation_id q;
  co_stream : k_stream c = o_stream q;
  co_offset : k_offset c = o_offset q;
  co_length : strlen (k_data c) <= o_limit q;
  co_next : k_next_offset c = o_offset q + strlen (k_data c);
  co_kept : k_next_offset c <= kept;
  co_end : k_at_end c = (k_next_offset c =? kept);
  co_data : k_at_end c = false -> k_data c <> "";
  co_complete : k_complete c = done;
}.
Lemma open_output_none name kept g g' : open_output name kept g = (g', Ok None) -> kept = 0.
Proof.
  unfold open_output, syscall. destruct (fault _); [discriminate|]. destruct (files _ !! name) as [[]|]; [discriminate..|].
  destruct (kept =? 0) eqn:Hk; [|discriminate]. intros _. by apply Z.eqb_eq.
Qed.
Lemma on_guest_ok {A} (m : ST Guest failure A) a a' x :
  on_guest m a = (a', Ok x) -> registry a' = registry a /\ exists g, m (guest a) = (g, Ok x).
Proof. unfold on_guest. destruct (m (guest a)) as [g [y|e]]; intros [= <- <-]. by split; [|eexists]. Qed.

(** The bytes of a chunk. *)
Lemma data_length (content : bytes) kept offset limit count :
  0 <= offset <= kept -> kept <= strlen content -> 0 < limit ->
  let available := prefix (Z.to_nat (Z.min (kept - offset) limit)) (drop_bytes (Z.to_nat offset) content) in
  (count <= String.length available)%nat -> ((0 < String.length available)%nat -> (0 < count)%nat) ->
  strlen (prefix count available) <= limit /\ offset + strlen (prefix count available) <= kept /\
  (offset < kept -> 0 < strlen (prefix count available)).
Proof.
  intros Ho Hk Hl available Hc Hp. assert (strlen available = Z.min (kept - offset) limit) as Ha.
  { unfold available, strlen in *. rewrite prefix_length, drop_length. lia. }
  unfold strlen in *. rewrite prefix_length. lia.
Qed.
Lemma output_chunk q a a' c : 0 <= o_offset q -> output q a = (a', Ok c) -> exists id stdout r,
  parse KOperation (o_operation_id q) = Ok id /\ 0 < o_limit q <= GuestWire.MAX_CHUNK /\
  stream_of_number (o_stream q) = Ok stdout /\ receipts (registry a) !! id = Some r /\
  o_offset q <= r_output_limit r /\ chunk_of q (kept_of stdout r) (resolved r) c.
Proof.
  intros Hq. unfold output, inspect, registry_, checked. intros Ho. inv_st.
  repeat match goal with Hx : map_err Failed _ = Ok _ |- _ => apply map_err_ok in Hx end.
  repeat match goal with Hx : map_err _ _ = Ok _ |- _ => apply map_err_ok in Hx end. inv_st. bools.
  lazymatch goal with Hx : parse _ _ = Ok ?i, Hs : stream_of_number _ = Ok ?b, Hr : receipts _ !! _ = Some ?r |- _ =>
    exists i, b, r; fold (kept_of b r) in *; pose proof Hx as Hop; apply Ids.parse_ok in Hop as [Hop _] end.
  split_and!; try done; try lia.
  match goal with Hx : on_guest (open_output _ _) _ = (_, Ok ?f) |- _ => rename f into file, Hx into Hopen end.
  apply on_guest_ok in Hopen as (_ & g & Hopen). destruct file as [content|].
  - inv_st. repeat match goal with Hx : map_err Failed _ = Ok _ |- _ => apply map_err_ok in Hx end. inv_st. bools.
    match goal with Hx : on_guest (ask ReadAt ?f) _ = (_, Ok ?n) |- _ =>
      apply on_guest_ok in Hx as (_ & g2 & Hx); injection Hx as _ Hn end.
    match type of Hn with read_count ?t ?n = _ =>
      pose proof (read_count_le t n) as Hle; pose proof (reads_some t n) as Hsome; rewrite Hn in Hle, Hsome end.
    edestruct (data_length content) as (D1 & D2 & D3); [| | |exact Hle|exact Hsome|]; [lia|lia|lia|].
    split; cbn; try done; [lia|]. intros He Hd. apply Z.leb_gt in He.
    rewrite Hd in D3, He. unfold strlen in D3, He. cbn in D3, He. lia.
  - apply open_output_none in Hopen. unfold kept_of in *. inv_st.
    repeat match goal with Hx : map_err Failed _ = Ok _ |- _ => apply map_err_ok in Hx end. inv_st. bools.
    split; cbn; unfold strlen; cbn; try done; try lia.
    + by match goal with Hz : o_offset q = 0 |- _ => rewrite Hopen, Hz end.
    + by match goal with Hz : o_offset q = 0 |- _ => rewrite Hz end.
Qed.

(** ** The client and the host *)

Lemma client_output_accepts (q : ReadOutput) c id stdout kept done :
  parse KOperation (o_operation_id q) = Ok id -> stream_of_number (o_stream q) = Ok stdout ->
  0 < o_limit q <= GuestWire.MAX_CHUNK -> 0 <= o_offset q -> kept <= GuestModel.MAX_OUTPUT ->
  chunk_of q kept done c -> client_output q (Ok c) = Ok c.
Proof.
  intros Hid Hs Hl Ho Hk []. unfold client_output, HostModel.parse_operation. rewrite Hid, Hs. cbn.
  pose proof (strlen_nonneg (k_data c)). unfold GuestModel.MAX_OUTPUT in *.
  assert (u64_checked_add (o_offset q) (strlen (k_data c)) = Some (k_next_offset c)) as ->.
  { unfold u64_checked_add. rewrite co_next0. rewrite (proj2 (in_u64_spec _)); [done|]. unfold U64_MAX. lia. }
  rewrite co_operation0, co_stream0, co_offset0. rewrite !bool_decide_eq_true_2 by done. rewrite !Z.eqb_refl.
  repeat match goal with |- context [ensure ?b _] => replace b with true by lia; cbn end. done.
Qed.

(** C16. A chunk of a command's output that the agent gives passes the client of the host. Of a
    later receipt of the command that is valid for the host's record, the host's own checks then
    refuse exactly one whose state is [Unknown], and accept the chunk against any other: over a
    race with a command that still writes, and at every offset and limit, no honest chunk is
    refused for its bytes or its bounds. *)
Theorem live_output_accepted (a a' : Agent) (q : ReadOutput) (c : OutputChunk) (scope : LiveOutputScope)
    (command : CommandRecord) (id : OperationId) (r r' : Receipt) :
  0 <= o_offset q -> output q a = (a', Ok c) -> parse KOperation (o_operation_id q) = Ok id ->
  receipts (registry a) !! id = Some r -> later r r' -> 0 <= stored (r_stdout r') -> 0 <= stored (r_stderr r') ->
  Command.validate_receipt command (Output.operation_id (l_owner scope)) r' = Ok tt ->
  client_output q (Ok c) = Ok c /\
  LiveOutput.validate_chunk scope q command c r' =
    (if bool_decide (r_state r' = Unknown) then Err (unavailable "guest output state unknown") else Ok tt).
Proof.
  intros Hq Ho Hid Hr Hla Hpo Hpe Hv.
  destruct (output_chunk q a a' c Hq Ho) as (id' & stdout & r0 & Hid' & Hlim & Hs & Hr0 & _ & Hc).
  assert (id' = id) as -> by congruence. assert (r0 = r) as -> by congruence.
  pose proof (later_kept stdout r r' Hla) as Hk.
  assert (kept_of stdout r' <= GuestModel.MAX_OUTPUT) as Hmax by (eapply kept_bounded; eauto).
  assert (kept_of stdout r <= GuestModel.MAX_OUTPUT) as Hkm by lia.
  split; [by eapply client_output_accepts|].
  unfold LiveOutput.validate_chunk. rewrite Hv. cbn. destruct (bool_decide (r_state r' = Unknown)) eqn:Hst; [done|].
  cbn. rewrite Hs. cbn.
  destruct Hc as [E1 E2 E3 E4 E5 E6 E7 E8 E9]. pose proof (strlen_nonneg (k_data c)) as Hn.
  assert (u64_checked_add (k_offset c) (strlen (k_data c)) = Some (k_next_offset c)) as ->.
  { unfold u64_checked_add. rewrite E3, <- E5, (proj2 (in_u64_spec _)); [done|].
    unfold GuestModel.MAX_OUTPUT, U64_MAX in *. lia. }
  rewrite E1, E2, E3. rewrite !bool_decide_eq_true_2 by done. rewrite !Z.eqb_refl.
  fold (kept_of stdout r'). apply ensure_ok.
  assert (forall b1 b2 b3 b4 b5 : bool, b1 = true -> b2 = true -> b3 = true -> b4 = true -> b5 = true ->
            true && true && true && b1 && b2 && true && b3 && b4 && b5 = true) as Hand by (by intros ????? -> -> -> -> ->).
  apply Hand; [apply Z.leb_le; lia|apply Z.leb_le; change MAX_CHUNK with GuestWire.MAX_CHUNK; lia|apply Z.leb_le; lia| |].
  - destruct (k_at_end c); [done|]. symmetry in E7. apply Z.eqb_neq in E7.
    rewrite (bool_decide_eq_false_2 (k_data c = "") (E8 eq_refl)). by replace (kept_of stdout r' <=? k_next_offset c) with false by lia.
  - destruct (k_complete c); [|done]. symmetry in E9. rewrite (la_resolved _ _ Hla E9) in *. rewrite E7, eqb_reflx.
    unfold resolved, terminal in E9. bools. match goal with Hx : r_cleanup_confirmed r = true |- _ => rewrite Hx end. by destruct (r_state r).
Qed.
End live.
End Live.
