(* ===== verification/ReadSample.v ===== *)
(** * The readers' theorems at a concrete host

    The host of HostSample.v, with its allocation running: a reader captures a file, reads it
    and releases it; then a retirement closes the readers. *)

From S2P Require Import Prelude Ext Ids GuestModel GuestWire Wire FileWire FileDownloads HostModel HostEnv HostOps HostTheorems HostSample.
From S2P Require Import HostReads ReadInv ReadKeeps ReadTheorems.
From S2P Require Import Reference.
From S2P Require Output.
From S2P Require GuestEnv GuestServer RunnerSample.
Import Tickets LiveOutput.
Import Ref.

#[export] Program Instance Scope_codec : Codec ReadScope := codec_inj
  (fun s => (FileDownloads.version s, host_id s, host_epoch s, project_id s, sandbox_id s, s_allocation_id s, s_generation s))
  (fun t => let '(v, h, e, p, b, a, g) := t in
    Some {| FileDownloads.version := v; host_id := h; host_epoch := e; project_id := p; sandbox_id := b; s_allocation_id := a;
            s_generation := g |}) _.
Next Obligation. by intros []. Qed.
#[export] Instance Scope_serde : Serde ReadScope := serde (fun _ => true).
#[export] Instance Live_serde : Serde Output.LiveOutputScope := refusing.

Definition the_scope : ReadScope := {|
  FileDownloads.version := 1; host_id := sample_id 1; host_epoch := 7; project_id := sample_id 2; sandbox_id := sample_id 3;
  s_allocation_id := sample_id 4; s_generation := 1
|}.
Definition scope_json : bytes := enc the_scope.
Definition capture_id : string := to_string (sample_id 50 : OperationId).
Definition the_capture : fw.FileCapture := {|
  fw.capture_id := capture_id; fw.c_path := "src/a.txt"; fw.c_size := 3; fw.c_sha256 := sha256 "abc";
  fw.expires_unix_ms := NOW + 60000
|}.
Definition captured_handle : fw.FileHandle := {| fw.h_capture_id := capture_id; fw.h_sha256 := sha256 "abc" |}.
Definition the_chunk : fw.FileChunk := {|
  fw.k_handle := Some captured_handle; fw.k_offset := 0; fw.k_data := "abc"; fw.next_offset := 3; fw.k_size := 3;
  fw.at_end := true
|}.

Definition first : Reads := {|
  host := {| journal := process_journal started; system := below started |};
  tickets := ∅; instant := 0; readings := []; closing := ∅; answered := []
|}.
Lemma first_idle : idle first.
Proof. by split. Qed.
Lemma sample_fresh : forall l t, l <> [] -> generated (l ++ t) <> generated t.
Proof.
  intros l t Hl He. cbn in He. injection He as He. rewrite length_app in He. destruct l; [done|]. cbn in He. lia.
Qed.

Definition capture_it : FileCaptureRequest :=
  {| cr_scope_json := scope_json; cr_path := "src/a.txt"; cr_expires_unix_ms := NOW + 1000 |}.
Definition captured_events : list event := [ECapture capture_it; EReply 0 (RCapture (Ok the_capture))].
Abbreviation sample_step := (step (host_config 7)) (only parsing).
Abbreviation sample_runs := (runs (host_config 7)) (only parsing).
Definition with_capture : Reads := sample_runs captured_events first.
(** The handle that was answered. *)
Definition given (s : Reads) : option FileDownloadHandle :=
  match answered s with (_, Gave _ h) :: _ => Some h | _ => None end.
Definition handle_given : FileDownloadHandle := default
  {| h_id := ""; h_context := None; h_capture := None; h_expires_unix_ms := 0 |} (given with_capture).

Definition read_it : FileDownloadRequest := {|
  dr_scope_json := scope_json; dr_handle := Some handle_given; dr_offset := 0; dr_limit := 1024;
  dr_expires_unix_ms := NOW + 1000
|}.
Definition release_it : FileReleaseRequest :=
  {| rr_scope_json := scope_json; rr_handle := Some handle_given; rr_expires_unix_ms := NOW + 1000 |}.
Definition asking : list event := captured_events ++ [ETick 30000; EFetch read_it].
Definition shown_events : list event := asking ++ [EReply 0 (RChunk (Ok the_chunk))].
Definition released_events : list event :=
  shown_events ++ [ERelease release_it; EReply 0 (RRelease (Ok captured_handle))].
Definition the_allocation : AllocationId := sample_id 4.
(** After the release, a retirement closes the readers; another capture is refused. *)
Definition refused_events : list event := [ECapture capture_it].

Local Ltac evaluated := lazymatch goal with |- _ = ?b => vm_cast_no_check (@eq_refl _ b) end.

Lemma shown_is : answered (sample_runs shown_events first) =
  [] ++ (30000, Showed the_scope handle_given the_chunk) :: [(0, Gave the_scope handle_given)].
Proof. evaluated. Qed.
Lemma chunks_are_of_own_captures_witness :
  exists n0, (n0, Gave the_scope handle_given) ∈ [(0, Gave the_scope handle_given)] /\ n0 <= 30000 < n0 + TTL.
Proof.
  exact (proj1 (chunks_are_of_own_captures (host_config 7) sample_fresh first shown_events [] 30000 the_scope
    handle_given the_chunk [(0, Gave the_scope handle_given)] first_idle shown_is)).
Defined.

Lemma one_ticket : size (tickets (sample_runs asking first)) = 1%nat.
Proof. evaluated. Qed.
Lemma reads_bounded_witness :
  size (tickets (sample_runs asking first)) = 1%nat /\
  NoDup (pinned <$> file_readings (sample_runs asking first)).
Proof.
  split; [exact one_ticket|].
  exact (proj2 (proj2 (proj2 (proj2 (proj2 (reads_bounded (host_config 7) sample_fresh first asking first_idle)))))).
Defined.

Abbreviation closed := (sample_step (EClose the_allocation) (sample_runs released_events first)).1 (only parsing).
Lemma closing_taken : (sample_step (EClose the_allocation) (sample_runs released_events first)).2 = ABool true.
Proof. evaluated. Qed.
Lemma pending_false :
  (sample_step (EPending the_allocation) (sample_runs refused_events closed)).2 = ABool false.
Proof. evaluated. Qed.
Lemma capture_refused : (sample_step (ECapture capture_it) closed).2
  = AFile (Err (unavailable "allocation readers closed")).
Proof. evaluated. Qed.
Lemma no_opening es : forallb (fun e => match e with EOpen _ => false | _ => true end) es = true ->
  EOpen the_allocation ∉ es.
Proof. intros Hf Hin. rewrite forallb_forall in Hf. apply list_elem_of_In, Hf in Hin. discriminate Hin. Qed.
Lemma closed_readers_stay_out_witness :
  (sample_step (ECapture capture_it) closed).2 = AFile (Err (unavailable "allocation readers closed")) /\
  drained the_allocation
    (sample_runs [] (sample_step (EPending the_allocation) (sample_runs refused_events closed)).1).
Proof.
  split; [exact capture_refused|].
  pose proof (closed_readers_stay_out (host_config 7) sample_fresh first the_allocation released_events
    refused_events [] first_idle closing_taken (no_opening refused_events eq_refl) (no_opening [] eq_refl)) as (_ & _ & Hd).
  exact (Hd pending_false).
Defined.

Definition shown_observation : FileAccessObservation := {|
  ao_scope_json := scope_json; ao_simulated := false; ao_observed_unix_ms := NOW; ao_result := Some (Chunk the_chunk)
|}.
Definition waiting : reading :=
  Fetching read_it the_scope {| allocation_id := sample_id 4; generation := 1; boot_id := "guest" |} handle_given.
Lemma is_waiting : readings (sample_runs asking first) !! 0%nat = Some waiting.
Proof. evaluated. Qed.
Lemma is_shown : (sample_step (EReply 0 (RChunk (Ok the_chunk))) (sample_runs asking first)).2 = AFile (Ok shown_observation).
Proof. evaluated. Qed.
Lemma still_valid : is_ok (read_request read_it (NOW + 500)) = true.
Proof. evaluated. Qed.
Lemma read_answers_pass_witness :
  exists c, ao_result shown_observation = Some (Chunk c) /\
    FileDownloads.chunk read_it shown_observation false (NOW + 500) = Ok c.
Proof.
  refine (read_answers_pass (host_config 7) sample_fresh first asking 0 (RChunk (Ok the_chunk)) waiting
    shown_observation (NOW + 500) first_idle is_waiting is_shown _ _ still_valid).
  - reflexivity.
  - discriminate.
Defined.

(** ** Live output at a concrete agent

    The command of RunnerSample.v: a chunk is read while it runs, and its receipt is asked for
    after it has ended. *)

Module LiveSample.
Import GuestEnv Runner GuestServer RunnerSample LiveOutput ReadTheorems.Live.
Import Output(LiveOutputScope, l_owner).
Import Ref.

Definition the_id : OperationId := sample_id 7.
Definition middle : ReadOutput :=
  {| o_operation_id := to_string the_id; o_stream := 1; o_offset := 1; o_limit := 2 |}.
Definition live_scope : LiveOutputScope := {|
  Output.l_version := 1;
  Output.l_owner := {|
    Output.project_id := sample_id 2; Output.sandbox_id := sample_id 3; Output.allocation_id := sample_id 4;
    Output.host_id := sample_id 1; Output.host_epoch := 7; Output.generation := 1;
    Output.operation_id := the_id; Output.boot_id := "boot" |};
  Output.l_command_digest := ""; Output.l_output_limit := 4; Output.l_deadline_unix_ms := NOW + 2000
|}.

Definition agent_at (m : Machine) : option Agent :=
  match agent m with
  | Some (c, r, t) => Some {| config := c; registry := r; task := t; guest := world m |}
  | None => None
  end.
Definition grows (r r' : Receipt) : bool :=
  (stored (r_stdout r) <=? stored (r_stdout r')) && (stored (r_stderr r) <=? stored (r_stderr r')) && negb (resolved r)
  && (0 <=? stored (r_stdout r')) && (0 <=? stored (r_stderr r')).
(** A chunk read from [m], and a receipt of [m'] that the host believes. *)
Definition race (q : ReadOutput) (m m' : Machine) (id : OperationId) (p : result anyhow Command.CommandRecord) : bool :=
  match agent_at m, receipt_at m' id, p with
  | Some a, Some r', Ok cmd =>
      match receipts (registry a) !! id, output q a with
      | Some r, (_, Ok c) =>
          grows r r' && bool_decide (Command.validate_receipt cmd id r' = Ok tt)
          && bool_decide (r_state r' = Exited) && negb (k_at_end c)
      | _, _ => false
      end
  | _, _, _ => false
  end.
Lemma race_ok q m m' id p : race q m m' id p = true -> exists a a' c r r' cmd,
  output q a = (a', Ok c) /\ receipts (registry a) !! id = Some r /\ later r r' /\
  0 <= stored (r_stdout r') /\ 0 <= stored (r_stderr r') /\ Command.validate_receipt cmd id r' = Ok tt /\
  r_state r' = Exited /\ k_at_end c = false.
Proof.
  unfold race. destruct (agent_at m) as [a|]; [|done]. destruct (receipt_at m' id) as [r'|]; [|done].
  destruct p as [cmd|]; [|done]. destruct (receipts (registry a) !! id) as [r|] eqn:Hr; [|done].
  destruct (output q a) as [a' [c|]] eqn:Ho; [|done]. unfold grows. intros Hb. bools.
  exists a, a', c, r, r', cmd. split_and!; try assumption. split; [assumption|assumption|]. intros Hres. congruence.
Qed.

(** A closed equation of evaluated runs, left to the kernel's virtual machine. *)
Local Ltac evaluated := lazymatch goal with |- _ = ?b => vm_cast_no_check (@eq_refl _ b) end.

Lemma middle_parses : parse KOperation (o_operation_id middle) = Ok the_id.
Proof. evaluated. Qed.
Lemma reads_all : forall t n, (0 < n)%nat -> (0 < read_count t n)%nat.
Proof. done. Qed.
Lemma live_output_accepted_witness : exists (c : OutputChunk) (r' : Receipt) cmd,
  k_at_end c = false /\ r_state r' = Exited /\ client_output middle (Ok c) = Ok c /\
  LiveOutput.validate_chunk live_scope middle cmd c r' = Ok tt.
Proof.
  destruct (race_ok middle running_ finished_ the_id (Command.pending (command 7) sample_context)) as (a & a' & c & r & r' & cmd & Ho & Hr & Hl & Hp & He & Hv & Hs & Hd); [evaluated|].
  exists c, r', cmd. split; [exact Hd|]. split; [exact Hs|].
  assert (0 <= o_offset middle) as Hm by discriminate.
  pose proof (live_output_accepted reads_all a a' middle c live_scope cmd the_id r r' Hm Ho middle_parses Hr Hl Hp He Hv) as Ha.
  rewrite Hs in Ha. exact Ha.
Defined.
End LiveSample.
